(* ===== verification/_CoqProject ===== *)
-Q . S2P
Prelude.v
Containers.v
Bitset.v
ChunkTracker.v
IpAddr.v
Endpoint.v
Codec.v
Types.v
Header.v
HeaderFlatbuf.v
IoVecCursor.v
Channel.v
MemChannel.v
RequestTracker.v
Transfer.v
Socket.v
SocketChannel.v
Trace.v
ChromeTrace.v
ChromeRender.v
Metrics.v
Worker.v
Engine.v
TransferStream.v
PostDelivery.v
MultiStream.v
StreamRun.v
AckDelivery.v
ReadDelivery.v
EngineWrite.v
EndToEnd.v
RoundTrip.v
ReadPost.v
ReadServe.v
ReadTrip.v
HostInfo.v
Nic.v
IpResolve.v
Route.v
PciTopology.v
HostText.v
NicInventory.v
RdmaVerbs.v
RdmaSim.v
RdmaContext.v
RdmaQPair.v
RdmaMemory.v
RdmaChannel.v
Ownership.v
FdTable.v
FdSim.v
FreePort.v
TcpManager.v
TcpManagerLife.v
ControlMessage.v
Control.v
RdmaManager.v
EngineHelper.v
SocketText.v
TransportCreate.v
TransportUtil.v
PspTcpManager.v
TcpSocketUtil.v
RateLimiter.v
ConnUtil.v
ConnPool.v
IpUtil.v
Transport.v
Boundary.v
