(* ===== verification/Prelude.v ===== *)
(** * Peregrine: a verification library

    Peregrine ([src/peregrine/src], C++) moves batches of memory requests between processes.
    A user posts a batch to a peer; the engine of the sender announces it on every connection
    to the peer ([PostInfo]), splits each request into chunks and deals them to the workers of
    the connections; the workers of the receiver store the chunks, acknowledge each, and call
    the user back when a post is complete.  Acknowledgements complete the post at the sender.
    A read is announced only; the peer answers it with the chunks of a write of its own.
    This library models these parts as executable functions and proves that they do so.

    ** Conventions

    Paths below are relative to [src/peregrine/src].  A definition keeps the name of its C++
    function; [Class_Method] where the name alone is ambiguous.  A method that changes its
    object maps the old record to the new one.  [DCHECK], [CHECK], [at] and pointer misuse are
    faults of the error monad [res], so that a theorem "the result is [Ok]" says that no check
    can fail and debug and release builds agree.  Machine integers are [Z] with the wrap-around
    written out ([u8] ... [u64]).  Methods that hold a mutex for their whole body are single
    steps; the theorems about interleavings quantify over all orders of such steps.  Metrics,
    traces and callbacks are the events ([event]) that an operation returns.  Code outside the
    sources is a class of operations with a class of laws (documented behaviour), and each
    theorem that uses the laws has a witness on a concrete instance:
    [NetText] (inet_pton and friends), [Kernel] with [StreamKernel]/[DatagramKernel] (system
    calls), [EventKernel] with [FdLaws] (epoll, poll and the descriptor table), [PeerNames]
    (getpeername), [Verbs] and [RdmaLib] with [RdmaLaws] and [WireLaws] (the RDMA library: its
    objects and who uses them, the states of queue pairs, completions), [Random], [HashOrder] (the order of a hash map), [Formatter] (printf), [NicSystem],
    [RouteSystem], [Sysfs] and [IbSystem] (interfaces, routes, PCI directories and RDMA devices
    of the host), [AbslText] and [ListText] (parsing), [Resolver] (getaddrinfo), [Uniform] (random ports), [TimeoutKernel] (socket timeouts), [ConnKernel] with [ConnLaws] (resolving, dialling
    and closing in the v1 API), [IoKernel] with [IoLaws] (sendmsg, recvmsg and poll of one socket),
    [IpSystem] (resolver, interfaces and netlink of the v1 API), [RateCost] (floating
    point), [PspUtil] with [PspLaws] (encryption of sockets).

    ** Files

    - [Prelude]: outcomes, machine integers, list lemmas, tactics.  [Containers]: [std::sort],
      lexicographic comparators, strings and hash maps whose order is a parameter.
    - [Bitset] (internal/lib/bitset), [ChunkTracker] (internal/chunk/chunk_tracker): which
      chunks of a request are empty, busy or done.  The class comment's state machine is the
      abstract specification; the operations refine it, a chunk has one writer at a time, and
      exactly one release reports completion, over all interleavings.
    - [IpAddr], [Endpoint] (util/ipaddr, internal/base/endpoint): addresses, text and sockaddr
      round trips.  [IpResolve] (IpAddr::Resolve): literals are resolved without a lookup and the
      resolver's lists are given back.
    - [Codec], [Types], [Header], [HeaderFlatbuf] (api/transport_types.h, internal/chunk/header*,
      the .fbs schemas): fixed-layout little-endian structs as codecs, headers, the serializer;
      round trips and soundness of parsing arbitrary bytes.
    - [IoVecCursor] (internal/lib/iovec_cursor.h): scatter/gather positions.
    - [Channel] (internal/channel/channel.h): the interface as a class, with the contracts
      [StreamLaws] and [MessageLaws].  [MemChannel] (in-process pipes) and [SocketChannel]
      (TCP, UDP) implement it; [Socket] (internal/socket) is the retry loops below them,
      [SocketText] their text forms and timeouts.
    - [RequestTracker] (internal/request): posts in progress; [Check] is exact, registration is
      atomic, a callback fires once, over all sequences of operations.
    - [Transfer] (internal/transfer): the chunk protocol, written against [Channel].
      [TransferStream] runs one handler on a stream that holds one message; [PostDelivery] runs
      the receive loop over a whole post with repeated and reordered chunks; [MultiStream]
      spreads the post over several streams under every schedule of their workers.
    - [Worker], [Engine] (internal/engine): queues, the split of requests, the main loop, status
      queries.  [EngineWrite] relates the queues that [process] leaves to the messages the
      workers send; [EndToEnd] joins both sides: what the engine sends for a local write post
      arrives, whatever the schedule, in every destination buffer.  [AckDelivery] is the way back
      of the acknowledgements, and [RoundTrip] the whole: the post also completes at the sender.
      [StreamRun] is the induction over the schedules of receiving workers that these ways share.
    - The read path: [ReadPost] is the initiator's [process] and the announcement, [ReadServe] the
      responder, from the announcement to the answer and its completion, [ReadDelivery] the
      answer at the initiator, and [ReadTrip] the whole: the remote buffers end up in the local
      ones and each side's callback is called once.
    - [Trace], [Metrics]: the ring buffer and sampler; counters and histograms.
    - [ChromeTrace], [ChromeRender] (internal/trace/chrome_trace_exporter): timelines of a
      snapshot, equal to a reference definition whatever the order of hash maps; the renderer,
      whose slices never overlap partially.  Formatting and hash order are parameters.
    - [RdmaVerbs], [RdmaSim]: the RDMA library as a class over a table of objects, and a small
      library that satisfies the laws.  [RdmaContext] (internal/rdma/rdma_context, rdma_device):
      opening adapters; a failure at any step leaves no object.  [RdmaQPair] (rdma_qpair,
      rdma_conn): the object's state is the device's for its whole life.  [RdmaMemory]
      (rdma_memory): the table of registered regions.  [RdmaChannel]
      (internal/channel/channel_rdma): a one-sided write returns, and success means that the
      payload is there.  [RdmaManager] (rdma_manager): the handshake of two processes through the
      control plane; every connection is complete at both ends.
    - [HostInfo], [HostText], [ControlMessage] (internal/base, internal/control/message): host
      information, its text form, which is read back, and its conversion to control messages.
    - [Nic], [Route] (util/nic, internal/routing/route): the choice of an address to bind; the routing table
      read from netlink messages, whose parser ends on any bytes.
    - [PciTopology], [NicInventory] (internal/nic): distances in the PCI tree from sysfs paths
      and the grouping of network ports into rails.
    - [Ownership]: tables whose entries have one owner each.  [FdTable] (internal/event/poller and
      the event calls), [FdSim] (a small system that
      satisfies the laws), [FreePort] (util/util.cc: the search for a free port closes all it
      opened), [TcpManager] (internal/socket/tcp_manager): listeners, pending and
      active connections and the handlers of the event loop; a descriptor has one owner and
      failed calls release what they opened.  [TcpManagerLife]: the manager as a step relation
      of its threads; no interleaving of connects, events and shutdown faults, and [Stop] drains
      the connections.
    - [Control] (internal/control/control): life cycle, request handlers and the calls to peers,
      in a world of processes; cached host information stays what the peer published, the
      exchange of PSP tokens configures both sides.
    - [EngineHelper] (internal/engine/engine_helper): both managers of a process; creation is all
      or nothing, [Connect] returns working channels and counts its failures, and destruction
      leaves open exactly what was handed out.
    - [TransportCreate] (Engine::Create and its destructor and loops, TransportImpl::Create): a
      transport is created whole or not at all, whatever the threads did meanwhile.
      [PspTcpManager] (internal/socket/tcp_psp_manager): encrypted connections; the interface to the
      encryption is a class, and the exchange of tokens runs through [Control].
      [TransportUtil] (api/transport_util, transport_registry): the public constructor, and the
      slot of a transport that stands in for RDMA.
      [Transport] (internal/transport_impl): [Post] and [Poll].
    - [TcpSocketUtil] (internal/socket/tcp_socket_util, api/v1/socket_util.h): exact transfers with a
      deadline.  [RateLimiter] (internal/lib/rate_limiter): slots of a shared timeline.
      [ConnUtil], [ConnPool] (api/v1/conn_util, conn_pool): dialling with retries, and the pool of
      idle connections as a step system of its users.  [IpUtil] (api/v1/ip_util): the route check
      of the v1 API, whose parser agrees with that of [Route].
    - [Boundary]: evaluations of the model on inputs outside the protocol's assumptions.

    ** How the parts meet

    [Transfer] is proved against [Channel], so its delivery theorems hold for every instance
    with [StreamLaws]: [MemChannel.MemStreamChannel] and, by
    [SocketChannel.TcpChannel_is_stream], TCP.  [RequestTracker] uses [ChunkTracker] through
    its abstract status.  [EndToEnd] composes [Engine] (what is queued), [Worker] (what is
    sent, announcement first), [Header*] (what the bytes mean) and [MultiStream] (what is
    stored and reported).  [Control] is parametric in the object that its RDMA handler captures
    and asks of it an invariant ([ObjInv]); [RdmaManager] instantiates it with its host, so that
    a call of one process runs the handler of the other.  [EngineHelper] composes [TcpManager],
    [RdmaManager] and [Control]; the thread of the TCP manager acts between its calls, and
    [EngineHelper.serve_quiet] shows that a round of the event loop is such an action.

    ** Bounds and fuel

    [drainStream] reads at most 10240 bytes per iteration; [S (left / 10240)] iterations are
    enough and given.  The loops of [Socket] retry while the system interrupts; [effort] bounds
    the iterations from what the kernel instance promises ([patience]) and the bytes left, and
    the theorems prove that any fuel above it gives a result.  Exhausted fuel is the fault
    [Blocked], as is waiting for data that has not arrived.  The polling loop of [RdmaChannel] gets
    enough fuel from [WireLaws] ([patience]: a posted request is reported after finitely many
    polls).  [TcpSocketUtil] has [io_effort] in the same way.  Buffers of one write are at most
    [IOV_MAX] pieces, as the sources check.

    ** What is not modelled

    The creation of threads (their bodies are steps); the gRPC library below the control plane;
    logging, and [checkPortStates], which only logs; hashing; the [ToString] of headers, bit sets
    and requests; the emulated application of util/app.h, for tests; the Python binding.  The
    release of the RDMA objects by a manager that has accepted connections is a definition
    ([RdmaManager_destroy]) without a theorem.  [MultiStream] takes one received message as one step; the finer
    interleavings of [Acquire] and [Release] on one chunk are covered in [ChunkTracker].  The
    order in which [OnReqComplete] lists request metadata is the unspecified order of a hash
    map; the model uses the order of its finite map, and no theorem depends on it.

    ** What could follow

    Delivery over message channels, with [UdpChannel] as an instance of [MessageLaws]; the
    scheduling of the engine's main loop between the processing of several posts. *)

From stdpp Require Import base tactics list list_numbers numbers gmap option.

Declare Scope peregrine_scope.
Delimit Scope peregrine_scope with pg.

(** * Outcomes of C++ code

    The sources state their preconditions with [DCHECK] and [CHECK] and use
    operations that are undefined or abort outside their domain ([vector::operator[]],
    [flat_hash_map::at]).  [res] makes each of them a value: a theorem that an
    operation returns [Ok] shows that none of its checks can fail there, so that
    debug and release builds agree. *)
Inductive fault : Type :=
  | DCheckFailed        (* DCHECK(...) is false *)
  | CheckFailed         (* CHECK(...) is false: the process crashes *)
  | OutOfRange          (* index or key outside a container *)
  | BadPointer          (* null or dangling pointer *)
  | Blocked.            (* waits for another thread or the peer *)

Inductive res (A : Type) : Type :=
  | Ok (a : A)
  | Fault (f : fault).
Arguments Ok {_} _.
Arguments Fault {_} _.

#[export] Instance fault_eq_dec : EqDecision fault.
Proof. solve_decision. Defined.

#[export] Instance res_ret : MRet res := λ A a, Ok a.
#[export] Instance res_bind : MBind res := λ A B f m,
  match m with Ok a => f a | Fault e => Fault e end.

Definition is_ok {A} (m : res A) : bool := match m with Ok _ => true | Fault _ => false end.

(** [DCHECK(b)] and [CHECK(b)]. *)
Definition dcheck (b : bool) : res unit := if b then Ok () else Fault DCheckFailed.
Definition check (b : bool) : res unit := if b then Ok () else Fault CheckFailed.

(** [v[i]] and [m.at(k)]. *)
Definition at_or {A} (e : fault) (o : option A) : res A :=
  match o with Some a => Ok a | None => Fault e end.

Notation "'let*' x ':=' m 'in' k" := (mbind (M:=res) (λ x, k) m)
  (at level 10, x binder, m at level 100, k at level 200)
  : peregrine_scope.
Notation "'do*' m ';' k" := (mbind (M:=res) (λ _ : unit, k) m)
  (at level 10, m at level 100, k at level 200)
  : peregrine_scope.
Open Scope peregrine_scope.

Section Res.
Context {A B : Type}.

Lemma bind_Ok (a : A) (f : A → res B) : (let* x := Ok a in f x) = f a.
Proof. reflexivity. Qed.

Lemma bind_Ok_inv (m : res A) (f : A → res B) b :
  (let* x := m in f x) = Ok b → ∃ a, m = Ok a ∧ f a = Ok b.
Proof. destruct m; simpl; [eauto | discriminate]. Qed.

Lemma at_or_Ok_inv e (o : option A) a : at_or e o = Ok a → o = Some a.
Proof. destruct o; simpl; congruence. Qed.
End Res.

Lemma dcheck_Ok_inv b u : dcheck b = Ok u → b = true.
Proof. destruct b; [done | discriminate]. Qed.
Lemma check_Ok_inv b u : check b = Ok u → b = true.
Proof. destruct b; [done | discriminate]. Qed.
Lemma dcheck_true b : b = true → dcheck b = Ok ().
Proof. intros ->. reflexivity. Qed.
Lemma check_true b : b = true → check b = Ok ().
Proof. intros ->. reflexivity. Qed.

Lemma bind_dcheck {A} b (k : res A) : b = true → (do* dcheck b; k) = k.
Proof. intros ->. reflexivity. Qed.
Lemma bind_check {A} b (k : res A) : b = true → (do* check b; k) = k.
Proof. intros ->. reflexivity. Qed.

(** Decomposes hypotheses [(let* x := m in k) = Ok _] and the checks inside. *)
Ltac res_inv :=
  repeat match goal with
  | H : mbind (M:=res) _ _ = Ok _ |- _ =>
      let a := fresh "r" in let H1 := fresh "Hr" in
      apply bind_Ok_inv in H as (a & H1 & H)
  | H : dcheck _ = Ok ?u |- _ => apply dcheck_Ok_inv in H
  | H : check _ = Ok ?u |- _ => apply check_Ok_inv in H
  | H : at_or _ _ = Ok _ |- _ => apply at_or_Ok_inv in H
  | H : Ok _ = Ok _ |- _ => injection H as H
  | H : Fault _ = Ok _ |- _ => discriminate H
  | H : mret _ = Ok _ |- _ => unfold mret, res_ret in H
  end.

(** * Machine integers: [Z] with the wrap-around of each width. *)
Definition wrap (w z : Z) : Z := z `mod` 2 ^ w.
Abbreviation u8 := (wrap 8).
Abbreviation u16 := (wrap 16).
Abbreviation u32 := (wrap 32).
Abbreviation u64 := (wrap 64).

(** Conversion to a signed type of width [w]. *)
Definition swrap (w z : Z) : Z :=
  let m := wrap w z in if bool_decide (m < 2 ^ (w - 1))%Z then m else (m - 2 ^ w)%Z.

Definition fits (w z : Z) : Prop := (0 ≤ z < 2 ^ w)%Z.
#[export] Instance fits_dec w z : Decision (fits w z).
Proof. unfold fits. apply _. Defined.

Lemma wrap_small w z : fits w z → wrap w z = z.
Proof. intros. by apply Z.mod_small. Qed.
Lemma wrap_fits w z : (0 ≤ w)%Z → fits w (wrap w z).
Proof. intros. apply Z.mod_pos_bound. lia. Qed.
Lemma swrap_small w z : (1 ≤ w)%Z → (- 2 ^ (w - 1) ≤ z < 2 ^ (w - 1))%Z → swrap w z = z.
Proof.
  intros Hw Hz. unfold swrap, wrap.
  assert (2 ^ w = 2 * 2 ^ (w - 1))%Z as Hp.
  { rewrite <- Z.pow_succ_r by lia. f_equal. lia. }
  destruct (decide (0 ≤ z)%Z).
  - rewrite Z.mod_small by lia. case_bool_decide; lia.
  - rewrite <- (Z.mod_add z 1) by lia. rewrite Z.mod_small by lia. case_bool_decide; lia.
Qed.

Create HintDb peregrine discriminated.
#[export] Hint Resolve wrap_small wrap_fits : peregrine.
#[export] Hint Unfold fits : peregrine.

(** Closes boolean comparisons coming from translated guards. *)
Ltac to_prop :=
  repeat match goal with
  | H : _ && _ = true |- _ => apply andb_prop in H as [? ?]
  | H : bool_decide _ = true |- _ => apply bool_decide_eq_true in H
  | H : bool_decide _ = false |- _ => apply bool_decide_eq_false in H
  | H : negb _ = true |- _ => apply negb_true_iff in H
  | H : negb _ = false |- _ => apply negb_false_iff in H
  | H : (_ =? _)%Z = true |- _ => apply Z.eqb_eq in H
  | H : (_ =? _)%Z = false |- _ => apply Z.eqb_neq in H
  | H : (_ <? _)%Z = true |- _ => apply Z.ltb_lt in H
  | H : (_ <? _)%Z = false |- _ => apply Z.ltb_ge in H
  | H : (_ <=? _)%Z = true |- _ => apply Z.leb_le in H
  | H : (_ <=? _)%Z = false |- _ => apply Z.leb_gt in H
  end.

(** * Lists *)
Section Lists.
Context {A B : Type}.

Lemma filter_ext_elem (P Q : A → Prop) `{∀ x, Decision (P x), ∀ x, Decision (Q x)} (l : list A) :
  (∀ x, x ∈ l → P x ↔ Q x) → filter P l = filter Q l.
Proof.
  induction l as [|x l IH]; intros HPQ; [done|].
  rewrite !filter_cons, IH by set_solver.
  pose proof (HPQ x ltac:(left)). repeat case_decide; naive_solver.
Qed.

Lemma filter_all_elem (P : A → Prop) `{∀ x, Decision (P x)} (l : list A) :
  Forall P l → filter P l = l.
Proof. induction 1 as [|x l Hx _ IH]; [done|]. by rewrite filter_cons_True, IH. Qed.

Lemma filter_fmap_list (f : A → B) (P : B → Prop) `{∀ x, Decision (P x)} (l : list A) :
  filter P (f <$> l) = f <$> filter (P ∘ f) l.
Proof.
  induction l as [|x l IH]; [done|].
  rewrite fmap_cons, !filter_cons, IH. unfold compose. by case_decide.
Qed.
End Lists.

(** * Loops *)

(** A loop over a container. *)
Fixpoint foreach {A S} (f : S → A → res S) (st : S) (l : list A) : res S :=
  match l with
  | [] => Ok st
  | x :: l => let* st := f st x in foreach f st l
  end.

(** A loop keeps a property of the state and of the elements to come. *)
Lemma foreach_ok {A S} (f : S → A → res S) (P : list A → S → Prop) l st :
  (∀ x l st, P (x :: l) st → ∃ st', f st x = Ok st' ∧ P l st') → P l st →
  ∃ st', foreach f st l = Ok st' ∧ P [] st'.
Proof.
  intros Hf. revert st. induction l as [|x l IH]; intros st HP; cbn [foreach]; [by exists st|].
  destruct (Hf x l st HP) as (st1 & -> & HP1). rewrite bind_Ok. by apply IH.
Qed.
