(* ===== verification/Containers.v ===== *)
(** Library containers and algorithms that several components use: [std::sort] with a
    comparator, the order of [std::string], and the iteration of hash containers, whose order
    is not specified and therefore a parameter ([HashOrder]). *)

From Stdlib Require Import Ascii.
From stdpp Require Import base tactics list list_numbers numbers gmap fin_maps sorting.
From S2P Require Import Prelude.
Local Open Scope Z_scope.

(** * Sorting *)

Definition not_after {A} (lt : A → A → bool) (a b : A) : Prop := lt b a = false.
#[export] Instance not_after_dec {A} (lt : A → A → bool) a b : Decision (not_after lt a b).
Proof. unfold not_after. apply _. Defined.

(** [std::sort(v.begin(), v.end(), lt)]. *)
Definition std_sort {A} (lt : A → A → bool) (l : list A) : list A := merge_sort (not_after lt) l.

Lemma std_sort_Permutation {A} (lt : A → A → bool) l : std_sort lt l ≡ₚ l.
Proof. apply merge_sort_Permutation. Qed.

(** A comparator that [std::sort] accepts: a strict weak order. *)
Class Comparator {A} (lt : A → A → bool) : Prop := {
  #[global] comparator_trans :: Transitive (not_after lt);
  #[global] comparator_total :: Total (not_after lt);
}.

Section Sort.
Context {A : Type} (lt : A → A → bool) {C : Comparator lt}.

Lemma std_sort_sorted l : StronglySorted (not_after lt) (std_sort lt l).
Proof. apply (StronglySorted_merge_sort _). Qed.

(** Without ties, the result depends on the elements only. *)
Lemma std_sort_unique l l' :
  (∀ a b, a ∈ l → b ∈ l → not_after lt a b → not_after lt b a → a = b) →
  l ≡ₚ l' → std_sort lt l = std_sort lt l'.
Proof.
  intros Hinj Hp. apply (StronglySorted_unique_strong (not_after lt)).
  - intros a b. rewrite !std_sort_Permutation, <-Hp. apply Hinj.
  - apply std_sort_sorted.
  - apply std_sort_sorted.
  - by rewrite !std_sort_Permutation.
Qed.
End Sort.

(** Comparators by an integer, by the first difference of two comparators, by a key. *)
Definition lex_lt {A} (lt1 lt2 : A → A → bool) (a b : A) : bool :=
  lt1 a b || (negb (lt1 b a) && lt2 a b).
Definition on_key {A B} (key : A → B) (lt : B → B → bool) (a b : A) : bool := lt (key a) (key b).

#[export] Instance Z_comparator : Comparator Z.ltb.
Proof.
  split; unfold not_after.
  - intros a b c. rewrite !Z.ltb_ge. lia.
  - intros a b. rewrite !Z.ltb_ge. lia.
Qed.
#[export] Instance key_comparator {A B} (key : A → B) lt : Comparator lt → Comparator (on_key key lt).
Proof.
  intros [Ht Htt]. split; unfold not_after, on_key in *.
  - intros a b c. apply Ht.
  - intros a b. apply Htt.
Qed.
Lemma lex_not_after {A} (lt1 lt2 : A → A → bool) a b :
  not_after (lex_lt lt1 lt2) a b ↔ not_after lt1 a b ∧ (not_after lt1 b a → not_after lt2 a b).
Proof. unfold not_after, lex_lt. destruct (lt1 b a), (lt1 a b), (lt2 b a); naive_solver. Qed.
#[export] Instance lex_comparator {A} (lt1 lt2 : A → A → bool) :
  Comparator lt1 → Comparator lt2 → Comparator (lex_lt lt1 lt2).
Proof.
  intros [T1 O1] [T2 O2]. split.
  - intros a b c. rewrite !lex_not_after. intros [H1 H2] [H3 H4]. split; [by etrans|].
    intros Hca. assert (not_after lt1 b a) by (by trans c). assert (not_after lt1 c b) by (by trans a).
    trans b; auto.
  - intros a b. rewrite !lex_not_after. pose proof (O1 a b). pose proof (O2 a b).
    unfold not_after in *. destruct (lt1 a b), (lt1 b a), (lt2 a b), (lt2 b a); naive_solver.
Qed.

(** [std::string::operator<]: bytes compared as unsigned characters. *)
Fixpoint str_lt (a b : list ascii) : bool :=
  match a, b with
  | [], [] => false
  | [], _ :: _ => true
  | _ :: _, [] => false
  | x :: a', y :: b' =>
      let '(m, n) := (Z.of_nat (nat_of_ascii x), Z.of_nat (nat_of_ascii y)) in
      if m <? n then true else if n <? m then false else str_lt a' b'
  end.
Lemma str_lt_total a b : str_lt a b = false → str_lt b a = false → a = b.
Proof.
  revert b. induction a as [|x a IH]; intros [|y b]; simpl; try done.
  destruct (Z.ltb_spec (Z.of_nat (nat_of_ascii x)) (Z.of_nat (nat_of_ascii y))); [done|].
  destruct (Z.ltb_spec (Z.of_nat (nat_of_ascii y)) (Z.of_nat (nat_of_ascii x))); [done|].
  intros Ha Hb. f_equal; [|by apply IH].
  rewrite <-(ascii_nat_embedding x), <-(ascii_nat_embedding y). f_equal. lia.
Qed.
#[export] Instance str_comparator : Comparator str_lt.
Proof.
  split; unfold not_after.
  - intros a. induction a as [|x a IH]; intros [|y b] [|z c]; simpl; try done.
    repeat match goal with |- context [(?m <? ?n)%Z] => destruct (Z.ltb_spec m n) end;
      try done; try lia. apply IH.
  - intros a. induction a as [|x a IH]; intros [|y b]; simpl; auto.
    repeat match goal with |- context [(?m <? ?n)%Z] => destruct (Z.ltb_spec m n) end; auto. lia.
Qed.

(** * Iteration of hash containers *)

Class HashOrder := {
  iter_map {K} `{Countable K} {A} : gmap K A → list (K * A);
  iter_set {K} `{Countable K} : gset K → list K;
}.
Class HashOrderLaws (O : HashOrder) : Prop := {
  iter_map_perm `{Countable K} {A} (m : gmap K A) : iter_map m ≡ₚ map_to_list m;
  iter_set_perm `{Countable K} (s : gset K) : iter_set s ≡ₚ elements s;
}.

(** Entries visited in the reverse of the order of the finite map. *)
#[export] Instance reversed : HashOrder :=
  {| iter_map K _ _ A m := reverse (map_to_list m); iter_set K _ _ s := reverse (elements s) |}.
#[export] Instance reversed_laws : HashOrderLaws reversed.
Proof. split; intros; apply reverse_Permutation. Qed.
