(* ===== verification/Bitset.v ===== *)
(** The dynamic bitset of [internal/lib/bitset.{h,cc}]: a vector of 64-bit units.
    Operations, representation invariant, and the refinement of the bit vector to
    the finite set of indices whose bit is 1. *)

From stdpp Require Import base tactics list list_numbers numbers gmap.
From S2P Require Import Prelude.
Local Open Scope Z_scope.

(** * Data *)

(** [static constexpr uint32_t kUnitSize, kUnitShift, kUnitBitMask]. *)
Definition kUnitSize : Z := 64.
Definition kUnitShift : Z := 6.
Definition kUnitBitMask : Z := kUnitSize - 1.

(** [class Bitset]: [size_] and [units_] (each [Unit] is a [std::bitset<64>]). *)
Record Bitset := mkBitset { bs_size : Z; bs_units : list Z }.

Definition bs_u (i : Z) : Z := Z.shiftr i kUnitShift.
Definition bs_b (i : Z) : Z := Z.land i kUnitBitMask.

(** [Bitset::numUnits]: computed in [size_t], returned as [uint32_t]. *)
Definition numUnits (size : Z) : Z := u32 (u64 (size + kUnitSize - 1) `div` kUnitSize).

(** [std::bitset<64>::count]. *)
Definition popcount (w : Z) : Z :=
  Z.of_nat (length (filter (λ k, Z.testbit w k = true) (seqZ 0 kUnitSize))).

(** * Operations *)

Definition Bitset_Count (b : Bitset) : Z :=
  foldl (λ sum w, u32 (sum + popcount w)) 0 (bs_units b).

Definition Bitset_IsEmpty (b : Bitset) : bool := forallb (λ w, w =? 0) (bs_units b).

Definition Bitset_IsFull (b : Bitset) : bool := Bitset_Count b =? bs_size b.

Definition Bitset_new (size : Z) : res Bitset :=
  let b := mkBitset size (replicate (Z.to_nat (numUnits size)) 0) in
  do* dcheck (0 <? bs_size b);
  do* dcheck (0 <? Z.of_nat (length (bs_units b)));
  do* dcheck (Bitset_IsEmpty b);
  Ok b.

Definition Bitset_Get (b : Bitset) (i : Z) : res bool :=
  do* dcheck (i <? bs_size b);
  let* w := at_or OutOfRange (bs_units b !! Z.to_nat (bs_u i)) in
  Ok (Z.testbit w (bs_b i)).

Definition Bitset_Set (b : Bitset) (i : Z) : res Bitset :=
  do* dcheck (i <? bs_size b);
  let* w := at_or OutOfRange (bs_units b !! Z.to_nat (bs_u i)) in
  Ok (mkBitset (bs_size b) (<[Z.to_nat (bs_u i) := Z.setbit w (bs_b i)]> (bs_units b))).

Definition Bitset_Reset (b : Bitset) (i : Z) : res Bitset :=
  do* dcheck (i <? bs_size b);
  let* w := at_or OutOfRange (bs_units b !! Z.to_nat (bs_u i)) in
  Ok (mkBitset (bs_size b) (<[Z.to_nat (bs_u i) := Z.clearbit w (bs_b i)]> (bs_units b))).

(** * Abstract view: the bit at an index, and the set of indices that are 1. *)

Definition bit (b : Bitset) (i : Z) : bool :=
  match bs_units b !! Z.to_nat (bs_u i) with
  | Some w => Z.testbit w (bs_b i)
  | None => false
  end.

Definition elems (b : Bitset) : gset Z :=
  list_to_set (filter (λ i, bit b i = true) (seqZ 0 (bs_size b))).

(** Representation invariant: the vector has the units of the size, every unit is a
    64-bit word, and the unused trailing bits are 0. *)
Record bitset_wf (b : Bitset) : Prop := {
  wf_size : 0 < bs_size b < 2 ^ 32;
  wf_units : Z.of_nat (length (bs_units b)) = (bs_size b + 63) `div` 64;
  wf_word : ∀ w, w ∈ bs_units b → fits 64 w;
  wf_tail : ∀ i, bs_size b ≤ i → bit b i = false;
}.

(** * Index arithmetic *)

Lemma bs_u_div i : bs_u i = i `div` 64.
Proof. unfold bs_u, kUnitShift. by rewrite Z.shiftr_div_pow2. Qed.
Lemma bs_b_mod i : bs_b i = i `mod` 64.
Proof. unfold bs_b. change kUnitBitMask with (Z.ones 6). by rewrite Z.land_ones. Qed.

Lemma bs_split i j : 0 ≤ i → 0 ≤ j →
  (Z.to_nat (bs_u i) = Z.to_nat (bs_u j) ∧ bs_b i = bs_b j) ↔ i = j.
Proof.
  intros. rewrite !bs_u_div, !bs_b_mod. split; [intros [H1 H2] | by intros ->].
  rewrite (Z.div_mod i 64), (Z.div_mod j 64) by lia.
  assert (i `div` 64 = j `div` 64) by (apply Z2Nat.inj; [apply Z.div_pos..|]; lia).
  lia.
Qed.

Lemma numUnits_spec n : 0 ≤ n < 2 ^ 32 → numUnits n = (n + 63) `div` 64.
Proof.
  intros. unfold numUnits, kUnitSize.
  replace (n + 64 - 1) with (n + 63) by lia.
  rewrite !wrap_small; [done| |]; unfold fits.
  - lia.
  - rewrite wrap_small by (unfold fits; lia).
    split; [apply Z.div_pos; lia | apply Z.div_lt_upper_bound; lia].
Qed.

Lemma unit_exists b i : bitset_wf b → 0 ≤ i < bs_size b →
  ∃ w, bs_units b !! Z.to_nat (bs_u i) = Some w.
Proof.
  intros Hwf Hi. apply lookup_lt_is_Some. rewrite bs_u_div.
  pose proof (wf_units b Hwf) as Hl.
  assert (0 ≤ i `div` 64) by (apply Z.div_pos; lia).
  assert (i `div` 64 < (bs_size b + 63) `div` 64); [|lia].
  apply Z.div_lt_upper_bound; [lia|].
  pose proof (Z.div_mod (bs_size b + 63) 64 ltac:(lia)).
  pose proof (Z.mod_pos_bound (bs_size b + 63) 64 ltac:(lia)). lia.
Qed.

Lemma bs_b_range i : 0 ≤ bs_b i < 64.
Proof. rewrite bs_b_mod. apply Z.mod_pos_bound. lia. Qed.

(** * Functional behaviour of the accessors *)

Lemma Bitset_Get_spec b i : bitset_wf b → 0 ≤ i < bs_size b →
  Bitset_Get b i = Ok (bit b i).
Proof.
  intros Hwf Hi. unfold Bitset_Get, bit.
  destruct (unit_exists b i Hwf Hi) as [w ->]. 
  rewrite dcheck_true; [done | lia].
Qed.

(** Writing one unit: the shape shared by [Set] and [Reset]. *)
Lemma write_bit_spec (op : Z → Z → Z) (v : bool) b i w :
  (∀ x n k, 0 ≤ n → 0 ≤ k → Z.testbit (op x n) k = if decide (k = n) then v else Z.testbit x k) →
  (∀ x n, fits 64 x → 0 ≤ n < 64 → fits 64 (op x n)) →
  bitset_wf b → 0 ≤ i < bs_size b → bs_units b !! Z.to_nat (bs_u i) = Some w →
  let b' := mkBitset (bs_size b) (<[Z.to_nat (bs_u i) := op w (bs_b i)]> (bs_units b)) in
  bitset_wf b' ∧ ∀ j, 0 ≤ j → bit b' j = if decide (j = i) then v else bit b j.
Proof.
  intros Hop Hfit Hwf Hi Hw b'. pose proof (lookup_lt_Some _ _ _ Hw) as Hlt.
  assert (∀ j, 0 ≤ j → bit b' j = if decide (j = i) then v else bit b j) as Hbit.
  { intros j Hj. unfold bit, b'. simpl.
    pose proof (bs_b_range i). pose proof (bs_b_range j).
    destruct (decide (Z.to_nat (bs_u j) = Z.to_nat (bs_u i))) as [E|E].
    - rewrite E, list_lookup_insert_eq, Hw by done. rewrite Hop by lia.
      destruct (decide (bs_b j = bs_b i)) as [F|F].
      + assert (j = i) as -> by (apply bs_split; [lia..|done]). by rewrite decide_True.
      + rewrite decide_False; [done | by intros ->].
    - rewrite list_lookup_insert_ne by done. rewrite decide_False; [done | by intros ->]. }
  split; [|done]. split.
  - apply Hwf.
  - simpl. rewrite length_insert. apply Hwf.
  - simpl. intros x [k Hk]%list_elem_of_lookup.
    destruct (decide (k = Z.to_nat (bs_u i))) as [->|].
    + rewrite list_lookup_insert_eq in Hk by done. simplify_eq.
      apply Hfit; [eapply wf_word; [done|]; apply list_elem_of_lookup; eauto | apply bs_b_range].
    + rewrite list_lookup_insert_ne in Hk by done.
      eapply wf_word; [done|]. apply list_elem_of_lookup. eauto.
  - intros j Hj. rewrite Hbit by (change (bs_size b') with (bs_size b) in Hj; lia).
    change (bs_size b') with (bs_size b) in Hj.
    rewrite decide_False by lia. by apply wf_tail.
Qed.

Lemma setbit_testbit x n k : 0 ≤ n → 0 ≤ k →
  Z.testbit (Z.setbit x n) k = if decide (k = n) then true else Z.testbit x k.
Proof.
  intros. rewrite Z.setbit_eqb by lia. case_decide; subst.
  - by rewrite Z.eqb_refl.
  - rewrite (proj2 (Z.eqb_neq n k)) by lia. done.
Qed.
Lemma clearbit_testbit x n k : 0 ≤ n → 0 ≤ k →
  Z.testbit (Z.clearbit x n) k = if decide (k = n) then false else Z.testbit x k.
Proof.
  intros. rewrite Z.clearbit_eqb by lia. case_decide; subst.
  - rewrite Z.eqb_refl. apply andb_false_r.
  - rewrite (proj2 (Z.eqb_neq n k)) by lia. apply andb_true_r.
Qed.

Lemma fits_by_bits w x : 0 ≤ w → 0 ≤ x → (∀ k, w ≤ k → Z.testbit x k = false) → fits w x.
Proof.
  intros Hw Hx Hb. split; [done|].
  destruct (decide (x = 0)) as [->|]; [lia|].
  apply Z.log2_lt_pow2; [lia|].
  destruct (decide (w ≤ Z.log2 x)) as [Hl|]; [|lia].
  specialize (Hb _ Hl). rewrite Z.bit_log2 in Hb by lia. discriminate.
Qed.
Lemma fits_high_bits w x k : 0 ≤ w ≤ k → fits w x → Z.testbit x k = false.
Proof.
  intros ? [? ?]. destruct (decide (x = 0)) as [->|]; [apply Z.testbit_0_l|].
  apply Z.bits_above_log2; [lia|].
  apply Z.lt_le_trans with w; [apply Z.log2_lt_pow2|]; lia.
Qed.

Lemma setbit_fits x n : fits 64 x → 0 ≤ n < 64 → fits 64 (Z.setbit x n).
Proof.
  intros Hx Hn. apply fits_by_bits; [lia| |].
  - unfold Z.setbit. apply Z.lor_nonneg. split; [apply Hx|]. apply Z.shiftl_nonneg. lia.
  - intros k Hk. rewrite setbit_testbit, decide_False by lia.
    apply (fits_high_bits 64); [lia|done].
Qed.
Lemma clearbit_fits x n : fits 64 x → 0 ≤ n < 64 → fits 64 (Z.clearbit x n).
Proof.
  intros Hx Hn. apply fits_by_bits; [lia| |].
  - unfold Z.clearbit. apply Z.ldiff_nonneg. left. apply Hx.
  - intros k Hk. rewrite clearbit_testbit, decide_False by lia.
    apply (fits_high_bits 64); [lia|done].
Qed.

Lemma elem_of_elems b i : i ∈ elems b ↔ 0 ≤ i < bs_size b ∧ bit b i = true.
Proof.
  unfold elems. rewrite elem_of_list_to_set, list_elem_of_filter, elem_of_seqZ.
  rewrite Z.add_0_l. tauto.
Qed.

Lemma bs_size_mk s u : bs_size (mkBitset s u) = s.
Proof. done. Qed.

(** [Set(i)] succeeds on a valid index, keeps the invariant and the size, and adds
    exactly [i] to the set of 1-bits. *)
Lemma Bitset_Set_spec b i : bitset_wf b → 0 ≤ i < bs_size b →
  ∃ b', Bitset_Set b i = Ok b' ∧ bitset_wf b' ∧ bs_size b' = bs_size b ∧
        elems b' = {[ i ]} ∪ elems b.
Proof.
  intros Hwf Hi. destruct (unit_exists b i Hwf Hi) as [w Hw].
  destruct (write_bit_spec Z.setbit true b i w) as [Hwf' Hbit];
    auto using setbit_testbit, setbit_fits.
  eexists. unfold Bitset_Set. rewrite Hw, dcheck_true by lia. split; [reflexivity|].
  split; [done|]. split; [done|]. apply set_eq. intros j.
  rewrite elem_of_union, elem_of_singleton, !elem_of_elems, bs_size_mk.
  split.
  - intros [? Hb]. rewrite Hbit in Hb by lia. case_decide; auto.
  - intros [->|[? Hb]]; (split; [lia|]); rewrite Hbit by lia; case_decide; congruence.
Qed.

Lemma Bitset_Reset_spec b i : bitset_wf b → 0 ≤ i < bs_size b →
  ∃ b', Bitset_Reset b i = Ok b' ∧ bitset_wf b' ∧ bs_size b' = bs_size b ∧
        elems b' = elems b ∖ {[ i ]}.
Proof.
  intros Hwf Hi. destruct (unit_exists b i Hwf Hi) as [w Hw].
  destruct (write_bit_spec Z.clearbit false b i w) as [Hwf' Hbit];
    auto using clearbit_testbit, clearbit_fits.
  eexists. unfold Bitset_Reset. rewrite Hw, dcheck_true by lia. split; [reflexivity|].
  split; [done|]. split; [done|]. apply set_eq. intros j.
  rewrite elem_of_difference, elem_of_singleton, !elem_of_elems, bs_size_mk.
  split.
  - intros [? Hb]. rewrite Hbit in Hb by lia. case_decide; [discriminate|auto].
  - intros [[? Hb] ?]. split; [lia|]. rewrite Hbit, decide_False by lia. done.
Qed.

Lemma Bitset_Get_elems b i : bitset_wf b → 0 ≤ i < bs_size b →
  Bitset_Get b i = Ok (bool_decide (i ∈ elems b)).
Proof.
  intros. rewrite Bitset_Get_spec by done. f_equal. symmetry.
  destruct (bit b i) eqn:E; [apply bool_decide_eq_true | apply bool_decide_eq_false];
    rewrite elem_of_elems; [by split | intros [_ ?]; congruence].
Qed.

(** * Counting *)

Definition sum_popcount (l : list Z) : Z := foldr (λ w s, popcount w + s) 0 l.

Lemma popcount_nonneg w : 0 ≤ popcount w.
Proof. unfold popcount. lia. Qed.

Lemma count_foldl l acc : fits 32 acc →
  foldl (λ sum w, u32 (sum + popcount w)) acc l = u32 (acc + sum_popcount l).
Proof.
  revert acc. induction l as [|w l IH]; intros acc Hacc; simpl.
  - rewrite Z.add_0_r. by rewrite wrap_small.
  - rewrite IH by (apply wrap_fits; lia). unfold wrap.
    rewrite Zplus_mod_idemp_l. f_equal. lia.
Qed.

Definition bit_of (l : list Z) (i : Z) : bool := bit (mkBitset 0 l) i.

Lemma bit_of_cons_lo w l i : 0 ≤ i < 64 → bit_of (w :: l) i = Z.testbit w i.
Proof.
  intros. unfold bit_of, bit. simpl. rewrite bs_u_div, bs_b_mod.
  rewrite Z.div_small, Z.mod_small by lia. done.
Qed.
Lemma bit_of_cons_hi w l i : 0 ≤ i → bit_of (w :: l) (64 + i) = bit_of l i.
Proof.
  intros. unfold bit_of, bit. simpl. rewrite !bs_u_div, !bs_b_mod.
  replace (64 + i) with (i + 1 * 64) by lia.
  rewrite Z.div_add, Z.mod_add by lia.
  rewrite Z2Nat.inj_add by (try apply Z.div_pos; lia).
  rewrite Nat.add_comm. done.
Qed.

Lemma sum_popcount_bits l :
  sum_popcount l =
  Z.of_nat (length (filter (λ i, bit_of l i = true) (seqZ 0 (64 * Z.of_nat (length l))))).
Proof.
  induction l as [|w l IH]; [done|].
  change (length (w :: l)) with (S (length l)). rewrite Nat2Z.inj_succ, Z.mul_succ_r, Z.add_comm.
  rewrite seqZ_app by lia. rewrite filter_app, length_app, Nat2Z.inj_add.
  change (sum_popcount (w :: l)) with (popcount w + sum_popcount l).
  apply (f_equal2 Z.add).
  - unfold popcount, kUnitSize. apply (f_equal (λ k, Z.of_nat (length k))). apply filter_ext_elem. intros i [? ?]%elem_of_seqZ. by rewrite bit_of_cons_lo by lia.
  - rewrite IH. rewrite (Z.add_comm 0 64), <- (fmap_add_seqZ 64 0).
    rewrite filter_fmap_list, length_fmap. apply (f_equal (λ k, Z.of_nat (length k))).
    apply filter_ext_elem. intros i [? ?]%elem_of_seqZ.
    unfold compose. by rewrite bit_of_cons_hi by lia.
Qed.

Lemma filter_nil_elem {A} (P : A → Prop) `{∀ x, Decision (P x)} (l : list A) :
  (∀ x, x ∈ l → ¬ P x) → filter P l = [].
Proof.
  induction l as [|x l IH]; intros HP; [done|].
  rewrite filter_cons, decide_False by (apply HP; left). apply IH. intros y Hy.
  apply HP. by right.
Qed.

Lemma size_elems b : Z.of_nat (size (elems b)) =
  Z.of_nat (length (filter (λ i, bit b i = true) (seqZ 0 (bs_size b)))).
Proof. unfold elems. rewrite size_list_to_set; [done|]. apply NoDup_filter, NoDup_seqZ. Qed.

Lemma elems_subset b : elems b ⊆ list_to_set (seqZ 0 (bs_size b)).
Proof. intros i. rewrite elem_of_elems, elem_of_list_to_set, elem_of_seqZ. lia. Qed.

Lemma size_range n : 0 ≤ n → Z.of_nat (size (list_to_set (seqZ 0 n) : gset Z)) = n.
Proof.
  intros. rewrite size_list_to_set by apply NoDup_seqZ. rewrite length_seqZ. lia.
Qed.

Lemma size_elems_le b : bitset_wf b → Z.of_nat (size (elems b)) ≤ bs_size b.
Proof.
  intros Hwf. pose proof (wf_size b Hwf).
  rewrite <- (size_range (bs_size b)) by lia.
  apply inj_le. apply subseteq_size, elems_subset.
Qed.

(** [Count()] never overflows its [uint32_t] accumulator and is the number of 1-bits. *)
Lemma Bitset_Count_spec b : bitset_wf b → Bitset_Count b = Z.of_nat (size (elems b)).
Proof.
  intros Hwf. unfold Bitset_Count. rewrite count_foldl by (unfold fits; lia).
  rewrite Z.add_0_l, sum_popcount_bits.
  pose proof (wf_size b Hwf). pose proof (size_elems_le b Hwf).
  assert (bs_size b ≤ 64 * Z.of_nat (length (bs_units b))) as Hle.
  { rewrite (wf_units b Hwf). pose proof (Z.div_mod (bs_size b + 63) 64 ltac:(lia)).
    pose proof (Z.mod_pos_bound (bs_size b + 63) 64 ltac:(lia)). lia. }
  replace (64 * Z.of_nat (length (bs_units b)))
    with (bs_size b + (64 * Z.of_nat (length (bs_units b)) - bs_size b)) by lia.
  rewrite seqZ_app by lia. rewrite filter_app, (filter_nil_elem _ (seqZ (0 + _) _)), app_nil_r.
  - change (u32 (Z.of_nat (length (filter (λ i, bit b i = true) (seqZ 0 (bs_size b))))) =
      Z.of_nat (size (elems b))).
    rewrite <- size_elems. apply wrap_small. unfold fits. lia.
  - intros i [Hi _]%elem_of_seqZ. 
    change (bit_of (bs_units b) i) with (bit b i). rewrite wf_tail by (try done; lia).
    discriminate.
Qed.

(** [IsFull()] iff every index below the size is set. *)
Lemma Bitset_IsFull_spec b : bitset_wf b →
  Bitset_IsFull b = true ↔ elems b = list_to_set (seqZ 0 (bs_size b)).
Proof.
  intros Hwf. unfold Bitset_IsFull. rewrite Bitset_Count_spec, Z.eqb_eq by done.
  pose proof (wf_size b Hwf). split.
  - intros E. apply set_subseteq_size_eq; [apply elems_subset|].
    apply Nat2Z.inj_le. rewrite E, size_range; lia.
  - intros ->. rewrite size_range; lia.
Qed.

Lemma Bitset_IsEmpty_spec b : bitset_wf b → Bitset_IsEmpty b = true ↔ elems b = ∅.
Proof.
  intros Hwf. unfold Bitset_IsEmpty. rewrite forallb_forall. split.
  - intros Hz. apply set_eq. intros i. rewrite elem_of_elems, elem_of_empty.
    split; [|done]. intros [Hi Hb]. unfold bit in Hb.
    destruct (bs_units b !! _) as [w|] eqn:E; [|done].
    assert (w = 0) as -> by (apply Z.eqb_eq, Hz, list_elem_of_In, list_elem_of_lookup; eauto).
    by rewrite Z.testbit_0_l in Hb.
  - intros Hem w Hw%list_elem_of_In. apply Z.eqb_eq. pose proof (wf_word b Hwf w Hw) as Hfit.
    apply list_elem_of_lookup in Hw as [k Hk]. pose proof (wf_size b Hwf).
    apply Z.bits_inj_0. intros n. destruct (decide (0 ≤ n < 64)) as [Hn|Hn].
    + assert (bit b (64 * Z.of_nat k + n) = Z.testbit w n) as Hb.
      { unfold bit. rewrite bs_u_div, bs_b_mod.
        replace (64 * Z.of_nat k + n) with (n + Z.of_nat k * 64) by lia.
        rewrite Z.div_add, Z.mod_add, Z.div_small, Z.mod_small, Z.add_0_l, Nat2Z.id by lia.
        by rewrite Hk. }
      destruct (Z.testbit w n) eqn:E; [|done]. exfalso.
      assert (64 * Z.of_nat k + n ∈ elems b); [|set_solver].
      apply elem_of_elems. split; [|done]. split; [lia|].
      destruct (decide (64 * Z.of_nat k + n < bs_size b)); [done|].
      rewrite (wf_tail b Hwf) in Hb by lia. done.
    + destruct (decide (n < 0)); [by apply Z.testbit_neg_r|].
      apply (fits_high_bits 64); [lia|done].
Qed.

(** The constructor accepts exactly the sizes of [uint32_t] that are positive. *)
Lemma Bitset_new_spec n : 0 < n < 2 ^ 32 →
  ∃ b, Bitset_new n = Ok b ∧ bitset_wf b ∧ bs_size b = n ∧ elems b = ∅.
Proof.
  intros Hn. set (b := mkBitset n (replicate (Z.to_nat (numUnits n)) 0)).
  assert (0 < (n + 63) `div` 64) by (apply Z.div_str_pos; lia).
  assert (∀ w, w ∈ bs_units b → w = 0) as Hz.
  { intros w Hw. by apply elem_of_replicate in Hw as [-> _]. }
  assert (bitset_wf b) as Hwf.
  { split; simpl.
    - done.
    - rewrite length_replicate, numUnits_spec by lia. lia.
    - intros w Hw. rewrite (Hz w Hw). unfold fits. lia.
    - intros i _. unfold bit. destruct (bs_units b !! _) as [w|] eqn:E; [|done].
      rewrite (Hz w), Z.testbit_0_l; [done|]. apply list_elem_of_lookup. eauto. }
  assert (Bitset_IsEmpty b = true) as He.
  { apply forallb_forall. intros w Hw%list_elem_of_In. rewrite (Hz w Hw). done. }
  exists b. split; [|split; [done|split; [done|by apply Bitset_IsEmpty_spec]]].
  unfold Bitset_new. fold b. rewrite He.
  rewrite (dcheck_true (0 <? bs_size b)) by (simpl; lia).
  rewrite (dcheck_true (0 <? Z.of_nat _)) by (rewrite (wf_units b Hwf); simpl; lia). done.
Qed.

#[export] Hint Resolve wf_size : peregrine.
