(* ===== verification/ChunkTracker.v ===== *)
(** The per-buffer chunk state machine of [internal/chunk/chunk_tracker.{h,cc}]:
    operations (each one is a critical section of [mu_], hence one atomic step), the
    invariant, the refinement to the state machine drawn in the class comment, and
    the guarantees for any interleaving of writers. *)

From stdpp Require Import base tactics list list_numbers numbers gmap.
From S2P Require Import Prelude Bitset.
Local Open Scope Z_scope.

(** * Data *)

Inductive ChunkStatus : Type := kEmpty | kBusy | kDone.

#[export] Instance ChunkStatus_eq_dec : EqDecision ChunkStatus.
Proof. solve_decision. Defined.

(** [static_cast<uint8_t>(ChunkStatus)]. *)
Definition ChunkStatus_u8 (s : ChunkStatus) : Z :=
  match s with kEmpty => 0 | kBusy => 1 | kDone => 2 end.

Record ChunkTracker := mkChunkTracker {
  ct_total : Z;              (* total_num_chunks_ *)
  ct_dup : Z;                (* num_chunks_dup_ *)
  ct_chunks : Bitset;        (* chunks_ *)
  ct_busy : gset Z;          (* busy_chunks_ *)
}.

(** * Operations *)

Definition isValidChunk (t : ChunkTracker) (index : Z) : bool :=
  (0 <=? index) && (index <? ct_total t).

Definition ct_invariant (t : ChunkTracker) : bool := bs_size (ct_chunks t) =? ct_total t.

Definition ChunkTracker_new (total_num_chunks : Z) : res ChunkTracker :=
  let* chunks := Bitset_new total_num_chunks in
  let t := mkChunkTracker total_num_chunks 0 chunks ∅ in
  do* dcheck (ct_invariant t);
  do* dcheck (1 <=? ct_total t);
  Ok t.

Definition ChunkTracker_IsEmpty (t : ChunkTracker) : bool := Bitset_IsEmpty (ct_chunks t).
Definition ChunkTracker_IsDone (t : ChunkTracker) : bool := Bitset_IsFull (ct_chunks t).
Definition ChunkTracker_IsBusy (t : ChunkTracker) (index : Z) : bool :=
  bool_decide (index ∈ ct_busy t).

Definition ChunkTracker_Set (t : ChunkTracker) (index : Z) : res ChunkTracker :=
  do* dcheck (isValidChunk t index);
  do* dcheck (negb (ChunkTracker_IsBusy t index));
  let* chunks := Bitset_Set (ct_chunks t) index in
  Ok (mkChunkTracker (ct_total t) (ct_dup t) chunks (ct_busy t)).

Definition ChunkTracker_Acquire (t : ChunkTracker) (index : Z)
    : res (ChunkTracker * ChunkStatus) :=
  do* dcheck (isValidChunk t index);
  do* dcheck (ct_invariant t);
  let* done := Bitset_Get (ct_chunks t) index in
  if done : bool then Ok (t, kDone)
  else if ChunkTracker_IsBusy t index
  then Ok (mkChunkTracker (ct_total t) (u32 (ct_dup t + 1)) (ct_chunks t) (ct_busy t), kBusy)
  else Ok (mkChunkTracker (ct_total t) (ct_dup t) (ct_chunks t) ({[index]} ∪ ct_busy t), kEmpty).

Definition ChunkTracker_Release (t : ChunkTracker) (index : Z) (success : bool)
    : res (ChunkTracker * bool) :=
  do* dcheck (isValidChunk t index);
  do* dcheck (ct_invariant t);
  do* dcheck (ChunkTracker_IsBusy t index);
  let* done := Bitset_Get (ct_chunks t) index in
  do* dcheck (negb done);
  let busy := ct_busy t ∖ {[index]} in
  if success
  then let* chunks := Bitset_Set (ct_chunks t) index in
       Ok (mkChunkTracker (ct_total t) (ct_dup t) chunks busy, Bitset_IsFull chunks)
  else Ok (mkChunkTracker (ct_total t) (ct_dup t) (ct_chunks t) busy, false).

(** * Abstract state machine: the status of each chunk *)

Definition ct_status (t : ChunkTracker) (i : Z) : ChunkStatus :=
  if decide (i ∈ elems (ct_chunks t)) then kDone
  else if decide (i ∈ ct_busy t) then kBusy else kEmpty.

Definition all_done (t : ChunkTracker) : Prop :=
  ∀ i, 0 ≤ i < ct_total t → ct_status t i = kDone.

Record ct_wf (t : ChunkTracker) : Prop := {
  ctwf_bits : bitset_wf (ct_chunks t);
  ctwf_size : bs_size (ct_chunks t) = ct_total t;
  ctwf_busy : ∀ i, i ∈ ct_busy t → 0 ≤ i < ct_total t;
  ctwf_disj : ct_busy t ## elems (ct_chunks t);
}.

(** The transitions of the class comment.  [m] is the status of every chunk of the
    tracker, [n] the number of chunks. *)
Definition upd (m : Z → ChunkStatus) (i : Z) (s : ChunkStatus) : Z → ChunkStatus :=
  λ j, if decide (j = i) then s else m j.

Inductive ct_label : Type :=
  | LAcquire (i : Z) (r : ChunkStatus)
  | LRelease (i : Z) (success : bool) (last : bool)
  | LSet (i : Z).

Inductive spec_step (n : Z) : (Z → ChunkStatus) → ct_label → (Z → ChunkStatus) → Prop :=
  | spec_acquire m i : m i = kEmpty → spec_step n m (LAcquire i kEmpty) (upd m i kBusy)
  | spec_acquire_busy m i : m i = kBusy → spec_step n m (LAcquire i kBusy) m
  | spec_acquire_done m i : m i = kDone → spec_step n m (LAcquire i kDone) m
  | spec_release_fail m i : m i = kBusy → spec_step n m (LRelease i false false) (upd m i kEmpty)
  | spec_release_ok m i last : m i = kBusy →
      (last = true ↔ ∀ j, 0 ≤ j < n → upd m i kDone j = kDone) →
      spec_step n m (LRelease i true last) (upd m i kDone)
  | spec_set m i : m i ≠ kBusy → spec_step n m (LSet i) (upd m i kDone).

(** The concrete operation of a label, [None] when it faults or returns another result. *)
Definition ct_exec (t : ChunkTracker) (l : ct_label) : option ChunkTracker :=
  match l with
  | LAcquire i r => match ChunkTracker_Acquire t i with
                    | Ok (t', r') => if decide (r' = r) then Some t' else None
                    | Fault _ => None end
  | LRelease i s last => match ChunkTracker_Release t i s with
                    | Ok (t', l') => if decide (l' = last) then Some t' else None
                    | Fault _ => None end
  | LSet i => match ChunkTracker_Set t i with Ok t' => Some t' | Fault _ => None end
  end.

(** * Lemmas *)

Lemma isValidChunk_spec t i : isValidChunk t i = true ↔ 0 ≤ i < ct_total t.
Proof. unfold isValidChunk. rewrite andb_true_iff, Z.leb_le, Z.ltb_lt. done. Qed.

Lemma ct_invariant_wf t : ct_wf t → ct_invariant t = true.
Proof. intros Hwf. apply Z.eqb_eq, (ctwf_size t Hwf). Qed.

Lemma ct_get t i : ct_wf t → 0 ≤ i < ct_total t →
  Bitset_Get (ct_chunks t) i = Ok (bool_decide (ct_status t i = kDone)).
Proof.
  intros Hwf Hi. rewrite Bitset_Get_elems;
    [|apply Hwf|by rewrite (ctwf_size t Hwf)].
  f_equal. apply bool_decide_ext. unfold ct_status. repeat case_decide; naive_solver.
Qed.

Lemma ct_status_done t i : ct_status t i = kDone ↔ i ∈ elems (ct_chunks t).
Proof. unfold ct_status. repeat case_decide; naive_solver. Qed.
Lemma ct_status_busy t i : ct_wf t → ct_status t i = kBusy ↔ i ∈ ct_busy t.
Proof.
  intros Hwf. pose proof (ctwf_disj t Hwf).
  unfold ct_status. repeat case_decide; set_solver.
Qed.
Lemma ct_busy_bool t i : ct_wf t → ChunkTracker_IsBusy t i = bool_decide (ct_status t i = kBusy).
Proof. intros. apply bool_decide_ext. by rewrite ct_status_busy. Qed.

Lemma ChunkTracker_IsDone_spec t : ct_wf t → ChunkTracker_IsDone t = true ↔ all_done t.
Proof.
  intros Hwf. unfold ChunkTracker_IsDone.
  rewrite Bitset_IsFull_spec, (ctwf_size t Hwf) by apply Hwf. unfold all_done.
  setoid_rewrite ct_status_done. split.
  - intros -> i Hi. rewrite elem_of_list_to_set, elem_of_seqZ. lia.
  - intros Hall. apply set_eq. intros i. rewrite elem_of_list_to_set, elem_of_seqZ.
    split.
    + rewrite elem_of_elems, (ctwf_size t Hwf). lia.
    + intros ?. apply Hall. lia.
Qed.

Lemma ct_status_ext t t' :
  elems (ct_chunks t') = elems (ct_chunks t) → ct_busy t' = ct_busy t →
  ∀ i, ct_status t' i = ct_status t i.
Proof. intros H1 H2 i. unfold ct_status. by rewrite H1, H2. Qed.

(** ** One lemma per operation: no fault, the new status map, the invariant. *)

Lemma ChunkTracker_new_spec n : 0 < n < 2 ^ 32 →
  ∃ t, ChunkTracker_new n = Ok t ∧ ct_wf t ∧ ct_total t = n ∧ ∀ i, ct_status t i = kEmpty.
Proof.
  intros Hn. destruct (Bitset_new_spec n Hn) as (b & Hb & Hwf & Hs & He).
  unfold ChunkTracker_new. rewrite Hb, bind_Ok.
  unfold ct_invariant. simpl. rewrite (dcheck_true (bs_size b =? n)), (dcheck_true (1 <=? n)) by lia.
  simpl. eexists. split; [done|]. split; [|split; [done|]].
  - split; simpl; [done|done|set_solver|set_solver].
  - intros i. unfold ct_status. simpl. rewrite He. repeat case_decide; set_solver.
Qed.

Lemma ChunkTracker_Acquire_spec t i : ct_wf t → 0 ≤ i < ct_total t →
  ∃ t', ChunkTracker_Acquire t i = Ok (t', ct_status t i) ∧ ct_wf t' ∧ ct_total t' = ct_total t ∧
    ∀ j, ct_status t' j = (if decide (ct_status t i = kEmpty) then upd (ct_status t) i kBusy
                           else ct_status t) j.
Proof.
  intros Hwf Hi. unfold ChunkTracker_Acquire.
  rewrite bind_dcheck by by apply isValidChunk_spec.
  rewrite bind_dcheck by by apply ct_invariant_wf.
  rewrite ct_get, bind_Ok, ct_busy_bool by done.
  destruct (ct_status t i) eqn:E; repeat (rewrite bool_decide_true by done || rewrite bool_decide_false by done);
    (eexists; split; [done|]; split; [|split; [done|]]).
  - split; simpl; [apply Hwf|apply Hwf| |].
    + intros j [->%elem_of_singleton|?]%elem_of_union; [done|by apply Hwf].
    + pose proof (ctwf_disj t Hwf).
      assert (i ∉ elems (ct_chunks t)) by (rewrite <- ct_status_done; congruence). set_solver.
  - intros j. rewrite decide_True by done. unfold upd, ct_status. simpl.
    assert (i ∉ elems (ct_chunks t)) by (rewrite <- ct_status_done; congruence).
    repeat case_decide; set_solver.
  - split; simpl; apply Hwf.
  - intros j. rewrite decide_False by done. by apply ct_status_ext.
  - done.
  - intros j. by rewrite decide_False.
Qed.

(** Setting the bit of [i] while removing it from [busy]: shared by [Set] and [Release]. *)
Lemma ct_mark_done t i busy : ct_wf t → 0 ≤ i < ct_total t → busy = ct_busy t ∖ {[i]} →
  ∃ chunks, Bitset_Set (ct_chunks t) i = Ok chunks ∧
    let t' := mkChunkTracker (ct_total t) (ct_dup t) chunks busy in
    ct_wf t' ∧ ∀ j, ct_status t' j = upd (ct_status t) i kDone j.
Proof.
  intros Hwf Hi ->.
  destruct (Bitset_Set_spec (ct_chunks t) i) as (b' & -> & Hwf' & Hs & He);
    [apply Hwf|by rewrite (ctwf_size t Hwf)|].
  exists b'. split; [done|]. pose proof (ctwf_disj t Hwf). split.
  - split; simpl; [done|by rewrite Hs, (ctwf_size t Hwf)| |rewrite He; set_solver].
    intros j [? _]%elem_of_difference. by apply Hwf.
  - intros j. unfold upd, ct_status. simpl. rewrite He. repeat case_decide; set_solver.
Qed.

Lemma ChunkTracker_Set_spec t i : ct_wf t → 0 ≤ i < ct_total t → ct_status t i ≠ kBusy →
  ∃ t', ChunkTracker_Set t i = Ok t' ∧ ct_wf t' ∧ ct_total t' = ct_total t ∧
        ct_busy t' = ct_busy t ∧ ∀ j, ct_status t' j = upd (ct_status t) i kDone j.
Proof.
  intros Hwf Hi Hnb. unfold ChunkTracker_Set.
  rewrite bind_dcheck by by apply isValidChunk_spec.
  rewrite bind_dcheck by by rewrite ct_busy_bool, bool_decide_false.
  destruct (ct_mark_done t i (ct_busy t)) as (b' & -> & ? & ?); [done|done| |by eexists].
  rewrite ct_status_busy in Hnb by done. set_solver.
Qed.

Lemma ChunkTracker_Release_spec t i success : ct_wf t → 0 ≤ i < ct_total t →
  ct_status t i = kBusy →
  ∃ t' last, ChunkTracker_Release t i success = Ok (t', last) ∧ ct_wf t' ∧
    ct_total t' = ct_total t ∧
    (∀ j, ct_status t' j = upd (ct_status t) i (if success then kDone else kEmpty) j) ∧
    (last = true ↔ success = true ∧ all_done t').
Proof.
  intros Hwf Hi Hb. unfold ChunkTracker_Release.
  rewrite bind_dcheck by by apply isValidChunk_spec.
  rewrite bind_dcheck by by apply ct_invariant_wf.
  rewrite bind_dcheck by by rewrite ct_busy_bool, bool_decide_true.
  rewrite ct_get, bind_Ok, Hb by done. rewrite bind_dcheck by done.
  destruct success.
  - destruct (ct_mark_done t i (ct_busy t ∖ {[i]})) as (b' & -> & Hwf' & Hst); [done..|].
    rewrite bind_Ok. do 2 eexists. split; [done|]. split; [done|]. split; [done|].
    split; [done|]. rewrite <- ChunkTracker_IsDone_spec by done. unfold ChunkTracker_IsDone.
    simpl. naive_solver.
  - do 2 eexists. split; [done|]. pose proof (ctwf_disj t Hwf).
    split; [|split; [done|split; [|naive_solver]]].
    + split; simpl; [apply Hwf|apply Hwf| |set_solver].
      intros j [? _]%elem_of_difference. by apply Hwf.
    + rewrite ct_status_busy in Hb by done.
      intros j. unfold upd, ct_status. simpl. repeat case_decide; set_solver.
Qed.

(** * Refinement: every operation is a transition of the documented state machine *)

Definition label_index (l : ct_label) : Z :=
  match l with LAcquire i _ | LRelease i _ _ | LSet i => i end.

Lemma ct_exec_wf t l t' : ct_wf t → 0 ≤ label_index l < ct_total t →
  ct_exec t l = Some t' →
  ct_wf t' ∧ ct_total t' = ct_total t ∧
  ∃ m', spec_step (ct_total t) (ct_status t) l m' ∧ ∀ j, ct_status t' j = m' j.
Proof.
  intros Hwf Hi He. destruct l as [i r|i s last|i]; simpl in *.
  - destruct (ChunkTracker_Acquire_spec t i Hwf Hi) as (t1 & E & Hwf1 & Hn & Hst).
    rewrite E in He. destruct (decide (ct_status t i = r)) as [<-|]; simplify_eq.
    split; [done|]. split; [done|]. destruct (ct_status t i) eqn:Es.
    + exists (upd (ct_status t) i kBusy). split; [by constructor|].
      intros j. rewrite Hst. by rewrite decide_True.
    + exists (ct_status t). split; [by constructor|]. intros j. by rewrite Hst, decide_False.
    + exists (ct_status t). split; [by constructor|]. intros j. by rewrite Hst, decide_False.
  - assert (ct_status t i = kBusy) as Hb.
    { destruct (ChunkTracker_Release t i s) as [[]|] eqn:E; [|done].
      unfold ChunkTracker_Release in E. res_inv.
      rewrite ct_busy_bool in Hr1 by done. by to_prop. }
    destruct (ChunkTracker_Release_spec t i s Hwf Hi Hb) as (t1 & l1 & E & Hwf1 & Hn & Hst & Hl).
    rewrite E in He. case_decide; simplify_eq. split; [done|]. split; [done|].
    destruct s.
    + exists (upd (ct_status t) i kDone). split; [|done]. constructor; [done|].
      rewrite Hl. unfold all_done. rewrite Hn. setoid_rewrite Hst. tauto.
    + exists (upd (ct_status t) i kEmpty). split; [|done].
      destruct last; [naive_solver|]. by constructor.
  - assert (ct_status t i ≠ kBusy) as Hb.
    { destruct (ChunkTracker_Set t i) as [|] eqn:E; [|done].
      unfold ChunkTracker_Set in E. res_inv.
      rewrite ct_busy_bool in Hr0 by done. by to_prop. }
    destruct (ChunkTracker_Set_spec t i Hwf Hi Hb) as (t1 & E & Hwf1 & Hn & _ & Hst).
    rewrite E in He. simplify_eq. split; [done|]. split; [done|].
    exists (upd (ct_status t) i kDone). split; [by constructor|done].
Qed.

(** * Writers: any interleaving of [Acquire]/[Release] calls by any number of threads

    A writer follows the protocol of the class comment: it may call [Acquire] on any
    valid chunk at any time, owns the chunk iff the call returned [kEmpty], and calls
    [Release] only on a chunk it owns.  [H] records the grants (writer, chunk). *)
Definition wstate : Type := ChunkTracker * gset (Z * Z).

Inductive writers_step : wstate → ct_label → wstate → Prop :=
  | ws_acquire t H w i t' r :
      0 ≤ i < ct_total t → ChunkTracker_Acquire t i = Ok (t', r) →
      writers_step (t, H) (LAcquire i r) (t', if decide (r = kEmpty) then {[(w, i)]} ∪ H else H)
  | ws_release t H w i success t' last :
      (w, i) ∈ H → ChunkTracker_Release t i success = Ok (t', last) →
      writers_step (t, H) (LRelease i success last) (t', H ∖ {[(w, i)]}).

Inductive writers_run (s : wstate) : list ct_label → wstate → Prop :=
  | wr_nil : writers_run s [] s
  | wr_snoc ls s1 l s2 : writers_run s ls s1 → writers_step s1 l s2 →
      writers_run s (ls ++ [l]) s2.

Definition completes (l : ct_label) : bool :=
  match l with LRelease _ _ true => true | _ => false end.

Record winv (n : Z) (s : wstate) : Prop := {
  winv_wf : ct_wf s.1;
  winv_total : ct_total s.1 = n;
  winv_holder : ∀ i, ct_status s.1 i = kBusy ↔ ∃ w, (w, i) ∈ s.2;
  winv_unique : ∀ w1 w2 i, (w1, i) ∈ s.2 → (w2, i) ∈ s.2 → w1 = w2;
}.

Lemma winv_valid n s w i : winv n s → (w, i) ∈ s.2 → 0 ≤ i < ct_total s.1 ∧ ct_status s.1 i = kBusy.
Proof.
  intros Hinv Hin. assert (ct_status s.1 i = kBusy) as Hb by (apply (winv_holder n s Hinv); eauto).
  split; [|done]. apply (ctwf_busy s.1 (winv_wf n s Hinv)).
  by rewrite <- ct_status_busy by apply Hinv.
Qed.

(** One step: the invariant, and how the completion state changes. *)
Lemma winv_step n s l s' : winv n s → writers_step s l s' →
  winv n s' ∧
  (if completes l then ¬ all_done s.1 ∧ all_done s'.1 else all_done s'.1 ↔ all_done s.1).
Proof.
  intros Hinv Hstep. destruct Hstep as [t H w i t' r Hi E | t H w i sc t' last Hin E].
  - destruct Hinv as [Hwf Hn Hh Hu]; simpl in *.
    destruct (ChunkTracker_Acquire_spec t i Hwf Hi) as (t1 & E1 & Hwf1 & Hn1 & Hst).
    rewrite E in E1. simplify_eq. split.
    + split; simpl; [done|done| |].
      * intros j. rewrite Hst. destruct (decide (ct_status t i = kEmpty)) as [He|He].
        -- unfold upd. destruct (decide (j = i)) as [->|].
           ++ split; [|done]. intros _. exists w. set_solver.
           ++ rewrite Hh. set_solver.
        -- apply Hh.
      * destruct (decide (ct_status t i = kEmpty)) as [He|He]; [|done].
        assert (∀ w', (w', i) ∉ H) as Hno.
        { intros w' Hw'. assert (ct_status t i = kBusy) by (apply Hh; eauto). congruence. }
        intros w1 w2 j. rewrite !elem_of_union, !elem_of_singleton. naive_solver.
    + unfold all_done. rewrite Hn1. simpl.
      split; intros Hd j Hj; specialize (Hd j Hj); rewrite Hst in *; revert Hd;
        (destruct (decide (ct_status t i = kEmpty)) as [He|He]; [|done]); unfold upd;
        case_decide; congruence.
  - destruct (winv_valid n (t, H) w i Hinv Hin) as [Hi Hb].
    destruct Hinv as [Hwf Hn Hh Hu]; simpl in *.
    destruct (ChunkTracker_Release_spec t i sc Hwf Hi Hb) as (t1 & l1 & E1 & Hwf1 & Hn1 & Hst & Hl).
    rewrite E in E1. simplify_eq. split.
    + split; simpl; [done|done| |].
      * intros j. rewrite Hst. unfold upd. destruct (decide (j = i)) as [->|Hne].
        -- split; [destruct sc; discriminate|]. intros [w' [Hw' Hne]%elem_of_difference].
           assert (w' = w) as -> by (by eapply Hu). set_solver.
        -- rewrite Hh. split; intros [w' Hw']; exists w'; set_solver.
      * set_solver.
    + assert (¬ all_done t) as Hnd.
      { intros Hd. specialize (Hd i Hi). congruence. }
      destruct l1; simpl; [naive_solver|].
      split; [|done]. intros Hd. exfalso. destruct sc; [naive_solver|].
      specialize (Hd i ltac:(lia)). rewrite Hst in Hd. unfold upd in Hd.
      by rewrite decide_True in Hd.
Qed.

Definition b2n (b : bool) : nat := if b then 1%nat else 0%nat.

Lemma winv_run n t ls s : ct_wf t → ct_total t = n → (∀ i, ct_status t i = kEmpty) →
  writers_run (t, ∅) ls s →
  winv n s ∧ length (filter (λ l, completes l = true) ls) = b2n (ChunkTracker_IsDone s.1).
Proof.
  intros Hwf Hn He. assert (winv n (t, ∅)) as H0.
  { split; simpl; [done|done| |set_solver]. intros i. rewrite He. set_solver. }
  induction 1 as [|ls s1 l s2 Hrun [IH Hc] Hstep].
  - split; [done|]. simpl. destruct (ChunkTracker_IsDone t) eqn:E; [|done].
    rewrite ChunkTracker_IsDone_spec in E by done.
    pose proof (wf_size _ (ctwf_bits t Hwf)). rewrite (ctwf_size t Hwf) in *.
    specialize (E 0 ltac:(lia)). rewrite He in E. done.
  - destruct (winv_step n s1 l s2 IH Hstep) as [Hinv' Hd]. split; [done|].
    rewrite filter_app, length_app, Hc.
    assert (∀ s, winv n s → ChunkTracker_IsDone s.1 = true ↔ all_done s.1) as Hsp.
    { intros s Hs. apply ChunkTracker_IsDone_spec, Hs. }
    pose proof (Hsp s1 IH). pose proof (Hsp s2 Hinv').
    destruct (completes l) eqn:Ec;
      [rewrite filter_cons_True by done | rewrite filter_cons_False by congruence];
      destruct (ChunkTracker_IsDone s1.1), (ChunkTracker_IsDone s2.1); simpl; naive_solver.
Qed.

(** * Properties *)

(** C8: [ChunkTracker] implements the state machine of its class comment.  Whatever the
    state reached (any state satisfying the invariant), every operation on a valid
    chunk that does not violate its precondition is one transition of [spec_step], with
    the very result the state machine prescribes ([kEmpty]/[kBusy]/[kDone] for
    [Acquire], "was it the last pending chunk" for [Release]), and the invariant is
    preserved. *)
Theorem ChunkTracker_refines_state_machine (t : ChunkTracker) (l : ct_label) (t' : ChunkTracker) :
  ct_wf t → 0 ≤ label_index l < ct_total t → ct_exec t l = Some t' →
  ct_wf t' ∧ ct_total t' = ct_total t ∧
  ∃ m', spec_step (ct_total t) (ct_status t) l m' ∧ ∀ j, ct_status t' j = m' j.
Proof. apply ct_exec_wf. Qed.

Definition ct2 : ChunkTracker :=
  match ChunkTracker_new 2 with Ok t => t | Fault _ => mkChunkTracker 0 0 (mkBitset 0 []) ∅ end.

Lemma ct2_ok : ChunkTracker_new 2 = Ok ct2 ∧ ct_wf ct2 ∧ ct_total ct2 = 2 ∧
  ∀ i, ct_status ct2 i = kEmpty.
Proof.
  destruct (ChunkTracker_new_spec 2 ltac:(lia)) as (t & E & ? & ? & ?).
  unfold ct2. rewrite E. auto.
Qed.

Lemma ChunkTracker_refines_state_machine_witness :
  ∃ t', ct_exec ct2 (LAcquire 1 kEmpty) = Some t' ∧ ct_wf t' ∧
        ∃ m', spec_step 2 (ct_status ct2) (LAcquire 1 kEmpty) m' ∧ ∀ j, ct_status t' j = m' j.
Proof.
  eexists. split; [vm_compute; reflexivity|].
  edestruct (ChunkTracker_refines_state_machine ct2 (LAcquire 1 kEmpty)) as (H1 & _ & H2);
    [apply ct2_ok | split; vm_compute; done | vm_compute; reflexivity |].
  split; [exact H1|]. exact H2.
Defined.

(** C6: Chunk data writing is exclusive.  In every state reachable by any interleaving of
    writers that follow the protocol, two writers that both own a chunk are the same
    writer, a chunk is [BUSY] exactly while somebody owns it (no grant is lost or
    leaked), and no protocol call can fail an assertion or index out of range. *)
Theorem ChunkTracker_exclusive_writers (n : Z) (t : ChunkTracker) (ls : list ct_label) (s : wstate) :
  ChunkTracker_new n = Ok t → 0 < n < 2 ^ 32 → writers_run (t, ∅) ls s →
  (∀ w1 w2 i, (w1, i) ∈ s.2 → (w2, i) ∈ s.2 → w1 = w2) ∧
  (∀ i, ct_status s.1 i = kBusy ↔ ∃ w, (w, i) ∈ s.2) ∧
  (∀ i, 0 ≤ i < n → is_ok (ChunkTracker_Acquire s.1 i) = true) ∧
  (∀ w i success, (w, i) ∈ s.2 → is_ok (ChunkTracker_Release s.1 i success) = true).
Proof.
  intros E Hn Hrun. destruct (ChunkTracker_new_spec n Hn) as (t1 & E1 & Hwf & Ht & Hs).
  rewrite E in E1. simplify_eq. destruct (winv_run (ct_total t1) t1 ls s) as [Hinv _]; try done.
  split; [apply Hinv|]. split; [apply Hinv|]. split.
  - intros i Hi. destruct (ChunkTracker_Acquire_spec s.1 i) as (? & -> & _); [apply Hinv| |done].
    by rewrite (winv_total _ _ Hinv).
  - intros w i sc Hin. destruct (winv_valid _ _ _ _ Hinv Hin).
    destruct (ChunkTracker_Release_spec s.1 i sc) as (? & ? & -> & _); [apply Hinv|done|done|done].
Qed.

Lemma ChunkTracker_exclusive_writers_witness :
  ∃ s : wstate, (7, 1) ∈ s.2 ∧ ∀ w2, (w2, 1) ∈ s.2 → 7 = w2.
Proof.
  assert (∃ s : wstate, writers_run (ct2, ∅) ([] ++ [LAcquire 1 kEmpty]) s ∧ (7, 1) ∈ s.2)
    as (s & Hrun & Hin).
  { eexists. split.
    - eapply wr_snoc; [apply wr_nil|].
      eapply (ws_acquire _ _ 7 1 _ kEmpty); [split; vm_compute; done | vm_compute; reflexivity].
    - simpl. set_solver. }
  exists s. split; [exact Hin|]. intros w2.
  destruct (ChunkTracker_exclusive_writers 2 ct2 _ s (proj1 ct2_ok) ltac:(lia) Hrun) as [Hu _].
  exact (Hu 7 w2 1 Hin).
Defined.

(** C7: Completion is signalled exactly once.  Over any interleaving of writers starting
    from a fresh tracker, the number of [Release] calls that returned true is 1 if all
    the chunks have been written and 0 otherwise: the caller that gets true is unique
    and gets it only when the buffer is complete. *)
Theorem ChunkTracker_completes_exactly_once (n : Z) (t : ChunkTracker) (ls : list ct_label) (s : wstate) :
  ChunkTracker_new n = Ok t → 0 < n < 2 ^ 32 → writers_run (t, ∅) ls s →
  length (filter (λ l, completes l = true) ls) = b2n (ChunkTracker_IsDone s.1) ∧
  (ChunkTracker_IsDone s.1 = true ↔ ∀ i, 0 ≤ i < n → ct_status s.1 i = kDone).
Proof.
  intros E Hn Hrun. destruct (ChunkTracker_new_spec n Hn) as (t1 & E1 & Hwf & Ht & Hs).
  rewrite E in E1. simplify_eq. destruct (winv_run (ct_total t1) t1 ls s) as [Hinv Hc]; try done.
  split; [done|]. rewrite ChunkTracker_IsDone_spec by apply Hinv.
  unfold all_done. by rewrite (winv_total _ _ Hinv).
Qed.

Lemma ChunkTracker_completes_exactly_once_witness :
  ∃ ls (s : wstate), length (filter (λ l, completes l = true) ls) = 1%nat ∧ writers_run (ct2, ∅) ls s ∧
  ChunkTracker_IsDone s.1 = true.
Proof.
  assert (∃ s, writers_run (ct2, ∅) (((([] ++ [LAcquire 1 kEmpty]) ++ [LAcquire 0 kEmpty]) ++
       [LRelease 1 true false]) ++ [LRelease 0 true true]) s ∧ ChunkTracker_IsDone s.1 = true)
    as (s & Hrun & Hd).
  { eexists. split.
    - eapply wr_snoc; [eapply wr_snoc; [eapply wr_snoc; [eapply wr_snoc; [apply wr_nil|]|]|]|].
      + eapply (ws_acquire _ _ 7 1 _ kEmpty); [split; vm_compute; done | vm_compute; reflexivity].
      + eapply (ws_acquire _ _ 8 0 _ kEmpty); [split; vm_compute; done | vm_compute; reflexivity].
      + eapply (ws_release _ _ 7 1 true _ false); [vm_compute; set_solver | vm_compute; reflexivity].
      + eapply (ws_release _ _ 8 0 true _ true); [vm_compute; set_solver | vm_compute; reflexivity].
    - vm_compute. reflexivity. }
  eexists _, s. split; [|split; [exact Hrun|exact Hd]].
  destruct (ChunkTracker_completes_exactly_once 2 ct2 _ s (proj1 ct2_ok) ltac:(lia) Hrun) as [-> _].
  by rewrite Hd.
Defined.
