(* ===== verification/Endpoint.v ===== *)
(** Network endpoints of [internal/base/endpoint.{h,cc}].  Text conversions go through
    functions of libc ([inet_pton], [inet_ntop]) and Abseil ([SimpleAtoi], [StrCat]);
    they are the parameters of [NetText], whose laws [NetTextLaws] state what the code
    relies on. *)

From Stdlib Require Import Ascii String DecimalString Decimal DecimalN DecimalFacts.
From stdpp Require Import base tactics list list_numbers numbers gmap countable.
From S2P Require Import Prelude IpAddr.
Local Open Scope Z_scope.

(** Strings are lists of characters. *)
Abbreviation str := (list ascii).

(** * External text functions *)
Class NetText := {
  inet_pton4 : str → option (list Z);    (* inet_pton(AF_INET, ...) == 1 *)
  inet_pton6 : str → option (list Z);    (* inet_pton(AF_INET6, ...) == 1 *)
  inet_ntop4 : list Z → str;             (* inet_ntop(AF_INET, ...) *)
  inet_ntop6 : list Z → str;             (* inet_ntop(AF_INET6, ...) *)
  SimpleAtoi : str → option Z;           (* absl::SimpleAtoi(s, &int) *)
  StrCatInt : Z → str;                   (* absl::StrCat of an integer *)
}.

Class NetTextLaws (T : NetText) := {
  pton_ntop4 : ∀ b, is_bytes 4 b → inet_pton4 (inet_ntop4 b) = Some b;
  pton_ntop6 : ∀ b, is_bytes 16 b → inet_pton6 (inet_ntop6 b) = Some b;
  pton4_bytes : ∀ s b, inet_pton4 s = Some b → is_bytes 4 b;
  pton6_bytes : ∀ s b, inet_pton6 s = Some b → is_bytes 16 b;
  (* a dotted quad holds no bracket *)
  ntop4_chars : ∀ b, "["%char ∉ inet_ntop4 b;
  ntop4_colon : ∀ b, ":"%char ∉ inet_ntop4 b;
  ntop6_colon : ∀ b, is_bytes 16 b → ":"%char ∈ inet_ntop6 b;
  atoi_strcat : ∀ n, 0 ≤ n < 2 ^ 31 → SimpleAtoi (StrCatInt n) = Some n;
  (* decimal digits only *)
  strcat_no_colon : ∀ n, 0 ≤ n → ":"%char ∉ StrCatInt n;
}.

(** * Data *)

Record Endpoint := mkEndpoint { ep_ipaddr : IpAddr; ep_port : Z }.

#[export] Instance Endpoint_eq_dec : EqDecision Endpoint.
Proof. solve_decision. Defined.
#[export] Instance Endpoint_countable : Countable Endpoint.
Proof.
  apply (inj_countable' (λ e, (ep_ipaddr e, ep_port e)) (λ p, mkEndpoint p.1 p.2)).
  by intros [].
Defined.

Definition endpoint_wf (e : Endpoint) : Prop := ipaddr_wf (ep_ipaddr e) ∧ fits 16 (ep_port e).
#[export] Instance endpoint_wf_dec e : Decision (endpoint_wf e).
Proof. unfold endpoint_wf. apply _. Defined.

(** * Accessors *)

Definition Endpoint_default : Endpoint := mkEndpoint IpAddr_default 0.
Definition HasZeroIpAddr (e : Endpoint) : bool := IpAddr_IsZero (ep_ipaddr e).
Definition HasZeroPort (e : Endpoint) : bool := ep_port e =? 0.
Definition HasNonzeroIpPort (e : Endpoint) : bool :=
  negb (ep_port e =? 0) && negb (IpAddr_IsZero (ep_ipaddr e)).
Definition SetPort (e : Endpoint) (port : Z) : Endpoint := mkEndpoint (ep_ipaddr e) port.
Definition Endpoint_eqb (a b : Endpoint) : bool :=
  (ep_port a =? ep_port b) && IpAddr_eqb (ep_ipaddr a) (ep_ipaddr b).

(** * Socket addresses *)

(** [sockaddr_storage]: the family, the port in network order as the host reads it,
    and the address bytes. *)
Inductive sockaddr : Type :=
  | sockaddr_in (sin_port : Z) (sin_addr : list Z)
  | sockaddr_in6 (sin6_port : Z) (sin6_addr : list Z)
  | sockaddr_other (family : Z).

(** [htons] and [ntohs] on a little-endian host: swap the two bytes. *)
Definition bswap16 (x : Z) : Z := Z.lor (Z.shiftl (Z.land x 0xff) 8) (Z.shiftr x 8).

Definition Endpoint_of_sockaddr (ss : sockaddr) : Endpoint :=
  match ss with
  | sockaddr_in p a => mkEndpoint (IPv4 a) (bswap16 p)
  | sockaddr_in6 p a => mkEndpoint (IPv6 a) (bswap16 p)
  | sockaddr_other _ => Endpoint_default
  end.

Definition BuildIPv4Sockaddr (e : Endpoint) : res sockaddr :=
  match ep_ipaddr e with
  | IPv4 a => Ok (sockaddr_in (bswap16 (ep_port e)) a)
  | IPv6 _ => Fault DCheckFailed
  end.

Definition BuildIPv6Sockaddr (e : Endpoint) : res sockaddr :=
  match ep_ipaddr e with
  | IPv6 a => Ok (sockaddr_in6 (bswap16 (ep_port e)) a)
  | IPv4 _ => Fault DCheckFailed
  end.

(** * Text *)

(** [s.rfind(c)] with the two [substr] around the position found. *)
Fixpoint rsplit (c : ascii) (s : str) : option (str * str) :=
  match s with
  | [] => None
  | x :: s' => match rsplit c s' with
               | Some (a, p) => Some (x :: a, p)
               | None => if decide (x = c) then Some ([], s') else None
               end
  end.

Definition LooksLikeIPv6 (addr : str) : bool :=
  bool_decide (head addr = Some "["%char) && bool_decide (addr !! (length addr - 1)%nat = Some "]"%char).

Section Text.
Context `{NetText}.

Definition ParseIPv4Addr (ip : str) : option (list Z) := inet_pton4 ip.
Definition ParseIPv6Addr (ip : str) : option (list Z) := inet_pton6 ip.
(** [inet_ntop] fails only for an unknown family or a buffer that is too short. *)
Definition ToIPv4String (ip4 : list Z) : str := inet_ntop4 ip4.
Definition ToIPv6String (ip6 : list Z) : str := inet_ntop6 ip6.

(** [IpAddr::Create] of a text. *)
Definition IpAddr_Create (ip : str) : option IpAddr :=
  if bool_decide (":"%char ∈ ip) then IPv6 <$> ParseIPv6Addr ip else IPv4 <$> ParseIPv4Addr ip.

Definition IpAddr_ToString (a : IpAddr) : str :=
  match a with IPv4 b => ToIPv4String b | IPv6 b => ToIPv6String b end.

Definition Endpoint_Create (ipaddr_port : str) : Endpoint :=
  match rsplit ":"%char ipaddr_port with
  | None => Endpoint_default
  | Some (a, p) =>
    match SimpleAtoi p with
    | None => Endpoint_default
    | Some port =>
      if negb ((0 <=? port) && (port <=? 65535)) then Endpoint_default
      else if LooksLikeIPv6 a then
        match ParseIPv6Addr (take (length a - 2) (drop 1 a)) with
        | None => Endpoint_default
        | Some v6 => mkEndpoint (IPv6 v6) port
        end
      else
        match ParseIPv4Addr a with
        | None => Endpoint_default
        | Some v4 => mkEndpoint (IPv4 v4) port
        end
    end
  end.

Definition Endpoint_ToString (e : Endpoint) : str :=
  let addr := IpAddr_ToString (ep_ipaddr e) in
  match ep_ipaddr e with
  | IPv4 _ => addr ++ ":"%char :: StrCatInt (ep_port e)
  | IPv6 _ => "["%char :: addr ++ "]"%char :: ":"%char :: StrCatInt (ep_port e)
  end.
End Text.

(** * Lemmas *)

Lemma land_shifted_small a b n : 0 ≤ n → fits n b → Z.land (a * 2 ^ n) b = 0.
Proof.
  intros Hn Hb. apply Z.bits_inj_0. intros k. rewrite Z.land_spec.
  destruct (decide (k < n)); [by rewrite Z.mul_pow2_bits_low by lia|].
  apply andb_false_intro2. destruct Hb as [? ?].
  destruct (decide (b = 0)) as [->|]; [apply Z.testbit_0_l|].
  apply Z.bits_above_log2; [lia|]. apply Z.lt_le_trans with n; [apply Z.log2_lt_pow2|]; lia.
Qed.

Lemma bswap16_spec x : fits 16 x → bswap16 x = (x `mod` 256) * 256 + x `div` 256.
Proof.
  intros [? ?]. unfold bswap16.
  change 0xff with (Z.ones 8). rewrite Z.land_ones, Z.shiftr_div_pow2, Z.shiftl_mul_pow2 by lia.
  assert (fits 8 (x `div` 2 ^ 8)).
  { split; [apply Z.div_pos | apply Z.div_lt_upper_bound]; lia. }
  rewrite <- Z.lxor_lor, <- Z.add_nocarry_lxor by (by apply land_shifted_small). done.
Qed.

Lemma bswap16_involutive x : fits 16 x → bswap16 (bswap16 x) = x.
Proof.
  intros Hx. rewrite (bswap16_spec x) by done.
  pose proof (Z.mod_pos_bound x 256 ltac:(lia)). pose proof (Z.div_mod x 256 ltac:(lia)).
  assert (0 ≤ x `div` 256 < 256).
  { unfold fits in Hx. split; [apply Z.div_pos | apply Z.div_lt_upper_bound]; lia. }
  rewrite bswap16_spec by (unfold fits; lia).
  rewrite (Z.add_comm (x `mod` 256 * 256)), Z.mod_add, Z.div_add by lia.
  rewrite (Z.mod_small (x `div` 256)), (Z.div_small (x `div` 256)) by lia. lia.
Qed.

Lemma rsplit_None c s : c ∉ s → rsplit c s = None.
Proof.
  induction s as [|x s IH]; [done|]. rewrite not_elem_of_cons. intros [? ?]. simpl.
  rewrite IH by done. rewrite decide_False; congruence.
Qed.
Lemma rsplit_app c a p : c ∉ p → rsplit c (a ++ c :: p) = Some (a, p).
Proof.
  intros Hp. induction a as [|x a IH]; simpl.
  - rewrite rsplit_None, decide_True by done. done.
  - by rewrite IH.
Qed.

(** * Properties *)

Lemma Endpoint_eqb_refl e : Endpoint_eqb e e = true.
Proof.
  unfold Endpoint_eqb, IpAddr_eqb. rewrite Z.eqb_refl. destruct (ep_ipaddr e); cbn; [apply Z.eqb_refl|].
  by apply bool_decide_eq_true_2.
Qed.

(** [Endpoint::Create] of the sockaddr that [BuildIPv4Sockaddr] (IPv4) or
    [BuildIPv6Sockaddr] (IPv6) fills for an endpoint gives the endpoint back, and the
    builder of the other family is never applicable. *)
Theorem Endpoint_sockaddr_roundtrip (e : Endpoint) : endpoint_wf e →
  (let* sa := (if IsIPv4 (ep_ipaddr e) then BuildIPv4Sockaddr e else BuildIPv6Sockaddr e) in
   Ok (Endpoint_of_sockaddr sa)) = Ok e.
Proof.
  intros [_ Hp]. destruct e as [[b|b] p]; simpl in *; by rewrite bswap16_involutive.
Qed.

Section Roundtrip.
Context `{T : NetText} `{!NetTextLaws T}.

Lemma LooksLikeIPv6_bracketed a : LooksLikeIPv6 ("["%char :: a ++ ["]"%char]) = true.
Proof.
  unfold LooksLikeIPv6. simpl. rewrite length_app. simpl.
  apply bool_decide_eq_true. replace (length a + 1 - 0)%nat with (S (length a)) by lia.
  simpl. rewrite lookup_app_r by lia. by rewrite Nat.sub_diag.
Qed.

Lemma LooksLikeIPv6_ntop4 b : LooksLikeIPv6 (inet_ntop4 b) = false.
Proof.
  unfold LooksLikeIPv6. apply andb_false_intro1, bool_decide_eq_false. intros E.
  apply (ntop4_chars b). destruct (inet_ntop4 b); simplify_eq/=. left.
Qed.

Lemma Endpoint_Create_ToString e : endpoint_wf e →
  Endpoint_Create (Endpoint_ToString e) = e.
Proof.
  intros [Ha [? Hp]]. destruct e as [[b|b] p]; simpl in *;
    unfold Endpoint_Create, Endpoint_ToString; cbn [ep_ipaddr ep_port IpAddr_ToString].
  - rewrite rsplit_app by (apply strcat_no_colon; lia).
    rewrite atoi_strcat by lia. rewrite LooksLikeIPv6_ntop4, pton_ntop4 by done.
    rewrite (proj2 (negb_false_iff _)) by lia. done.
  - replace ("["%char :: inet_ntop6 b ++ "]"%char :: ":"%char :: StrCatInt p)
      with (("["%char :: inet_ntop6 b ++ ["]"%char]) ++ ":"%char :: StrCatInt p)
      by (simpl; by rewrite <- app_assoc).
    rewrite rsplit_app by (apply strcat_no_colon; lia).
    rewrite atoi_strcat by lia. rewrite LooksLikeIPv6_bracketed.
    rewrite (proj2 (negb_false_iff _)) by lia. simpl. rewrite length_app. simpl.
    rewrite drop_0. replace (length (inet_ntop6 b) + 1 - 1)%nat with (length (inet_ntop6 b)) by lia.
    rewrite take_app_length, pton_ntop6 by done. done.
Qed.

(** Whatever the text, the result is a well-formed endpoint. *)
Lemma Endpoint_Create_wf s : endpoint_wf (Endpoint_Create s).
Proof.
  assert (endpoint_wf Endpoint_default) as Hd by (vm_compute; repeat split; repeat constructor; done).
  unfold Endpoint_Create. destruct (rsplit _ s) as [[a p]|]; [|done].
  destruct (SimpleAtoi p) as [port|]; [|done].
  destruct (negb _) eqn:E; [done|]. to_prop.
  assert (fits 16 port) by (unfold fits; lia).
  destruct (LooksLikeIPv6 a).
  - destruct (ParseIPv6Addr _) eqn:E6; [|done]. split; [by eapply pton6_bytes|done].
  - destruct (ParseIPv4Addr _) eqn:E4; [|done]. split; [by eapply pton4_bytes|done].
Qed.

(** [IpAddr::Create] reads back what [ToString] prints, and yields well-formed addresses only. *)
Lemma IpAddr_Create_ToString a : ipaddr_wf a → IpAddr_Create (IpAddr_ToString a) = Some a.
Proof.
  destruct a as [b|b]; intros Hb; unfold IpAddr_Create, IpAddr_ToString.
  - rewrite bool_decide_eq_false_2 by apply ntop4_colon. unfold ParseIPv4Addr. by rewrite pton_ntop4.
  - rewrite bool_decide_eq_true_2 by by apply ntop6_colon. unfold ParseIPv6Addr. by rewrite pton_ntop6.
Qed.
Lemma IpAddr_Create_wf s a : IpAddr_Create s = Some a → ipaddr_wf a.
Proof.
  unfold IpAddr_Create. case_bool_decide; intros (b & E & ->)%fmap_Some; [by eapply pton6_bytes|by eapply pton4_bytes].
Qed.
End Roundtrip.

(** [Endpoint::Create(e.ToString()) == e] for every endpoint, IPv4 or IPv6: the text
    form used in control messages, host information and the [Post()] API loses
    nothing; and parsing arbitrary text always yields a well-formed endpoint. *)
Theorem Endpoint_text_roundtrip `{T : NetText} (L : NetTextLaws T) (e : Endpoint) (s : str) :
  endpoint_wf e →
  Endpoint_Create (Endpoint_ToString e) = e ∧ endpoint_wf (Endpoint_Create s).
Proof. intros. split; [by apply Endpoint_Create_ToString | apply Endpoint_Create_wf]. Qed.

(** * A concrete text format: the laws of [NetText] can hold

    Addresses as hexadecimal digits, IPv6 ones after a colon, integers in decimal. *)
Module HexText.
Definition digits : str := list_ascii_of_string "0123456789abcdef".
Definition hexd (v : Z) : ascii := default "0"%char (digits !! Z.to_nat v).
Definition unhex (c : ascii) : option Z :=
  Z.of_nat ∘ fst <$> list_find (λ d, d = c) digits.
Definition byte_text (b : Z) : str := [hexd (b `div` 16); hexd (b `mod` 16)].
Definition ntop (b : list Z) : str := concat (byte_text <$> b).
Fixpoint parse (s : str) : option (list Z) :=
  match s with
  | [] => Some []
  | c1 :: c2 :: s' =>
      h ← unhex c1; l ← unhex c2; r ← parse s'; Some ((h * 16 + l) :: r)
  | _ => None
  end.
Definition pton (n : nat) (s : str) : option (list Z) :=
  r ← parse s; if decide (length r = n) then Some r else None.
Definition pton6 (s : str) : option (list Z) :=
  match s with c :: s' => if decide (c = ":"%char) then pton 16 s' else None | [] => None end.
Definition dec (n : Z) : str :=
  list_ascii_of_string (NilZero.string_of_uint (N.to_uint (Z.to_N n))).
Definition atoi (s : str) : option Z :=
  u ← NilZero.uint_of_string (string_of_list_ascii s);
  let v := Z.of_N (N.of_uint u) in if decide (v < 2 ^ 31) then Some v else None.

#[export] Instance text : NetText :=
  {| inet_pton4 := pton 4; inet_pton6 := pton6; inet_ntop4 := ntop; inet_ntop6 b := ":"%char :: ntop b;
     SimpleAtoi := atoi; StrCatInt := dec |}.

Lemma unhex_range c v : unhex c = Some v → 0 ≤ v < 16.
Proof.
  unfold unhex. intros ([i x] & (Hl & _)%list_find_Some & ->)%fmap_Some.
  apply lookup_lt_Some in Hl. simpl in *. lia.
Qed.
Lemma unhex_hexd v : 0 ≤ v < 16 → unhex (hexd v) = Some v.
Proof.
  intros Hv.
  assert (Forall (λ v, unhex (hexd v) = Some v) (seqZ 0 16)) as HF by repeat constructor.
  rewrite List.Forall_forall in HF. apply HF, list_elem_of_In, elem_of_seqZ. lia.
Qed.
Lemma parse_ntop b : Forall (fits 8) b → parse (ntop b) = Some b.
Proof.
  induction 1 as [|x b [Hx Hx'] _ IH]; [done|].
  change (parse (ntop (x :: b))) with
    (h ← unhex (hexd (x `div` 16)); l ← unhex (hexd (x `mod` 16)); r ← parse (ntop b); Some ((h * 16 + l) :: r)).
  pose proof (Z.mod_pos_bound x 16 ltac:(lia)). pose proof (Z.div_mod x 16 ltac:(lia)).
  rewrite !unhex_hexd by (try split; try apply Z.div_pos; try apply Z.div_lt_upper_bound; lia).
  simpl. rewrite IH. simpl. do 2 f_equal. lia.
Qed.
Lemma parse_bytes n s b : (length s ≤ n)%nat → parse s = Some b → Forall (fits 8) b.
Proof.
  revert s b. induction n as [|n IH]; intros s b Hl E.
  - destruct s; simpl in *; [by simplify_eq | lia].
  - destruct s as [|c1 [|c2 s]]; simpl in *; [by simplify_eq|done|].
    apply bind_Some in E as (h & Hh & E). apply bind_Some in E as (l & Hlo & E).
    apply bind_Some in E as (r & Hr & E). simplify_eq.
    apply unhex_range in Hh, Hlo. constructor; [unfold fits; lia|]. apply (IH s); [lia|done].
Qed.
Lemma hexd_digit v : hexd v ∈ digits.
Proof.
  unfold hexd. destruct (digits !! _) eqn:E; simpl; [|by left].
  apply list_elem_of_lookup. eauto.
Qed.
Lemma ntop_digits b c : c ∈ ntop b → c ∈ digits.
Proof.
  unfold ntop. induction b as [|x b IH]; [by intros ?%elem_of_nil|].
  rewrite fmap_cons. simpl. rewrite !elem_of_cons. intros [->|[->|?]]; auto using hexd_digit.
Qed.
Lemma uint_no_colon u : ":"%char ∉ list_ascii_of_string (NilEmpty.string_of_uint u).
Proof. induction u; simpl; rewrite ?not_elem_of_cons; try split; auto; try done. by apply not_elem_of_nil. Qed.

#[export] Instance text_laws : NetTextLaws text.
Proof.
  assert (∀ n s b, pton n s = Some b → is_bytes n b) as Hp.
  { intros n s b (r & Hr & E)%bind_Some. case_decide; simplify_eq.
    split; [done|]. by eapply parse_bytes. }
  assert (∀ n b, is_bytes n b → pton n (ntop b) = Some b) as Hr.
  { intros n b [Hl Hf]. unfold pton. rewrite parse_ntop by done. simpl. by rewrite decide_True. }
  split; try apply Hr; try apply Hp.
  - intros s b E. destruct s as [|c s]; [done|]. cbn in E. case_decide; [by eapply Hp|done].
  - intros b Hin%ntop_digits. revert Hin. apply (bool_decide_eq_false _). reflexivity.
  - intros b Hin%ntop_digits. revert Hin. apply (bool_decide_eq_false _). reflexivity.
  - intros b _. cbn. left.
  - intros n Hn. simpl. unfold atoi, dec. rewrite string_of_list_ascii_of_string, NilZero.usu.
    + simpl. rewrite DecimalN.Unsigned.of_to, Z2N.id, decide_True by lia. done.
    + destruct (Z.to_N n); [done|]. simpl. apply DecimalPos.Unsigned.to_uint_nonnil.
  - intros n _. simpl. unfold dec, NilZero.string_of_uint.
    destruct (N.to_uint _) eqn:E; try (rewrite <- E; apply uint_no_colon).
    apply (bool_decide_eq_false _). reflexivity.
Qed.
End HexText.

Definition ep_sample : Endpoint := mkEndpoint (IPv4 [10; 0; 0; 1]) 56789.

Lemma Endpoint_sockaddr_roundtrip_witness : endpoint_wf ep_sample ∧
  (let* sa := BuildIPv4Sockaddr ep_sample in Ok (Endpoint_of_sockaddr sa)) = Ok ep_sample.
Proof.
  assert (endpoint_wf ep_sample) as H by (apply (bool_decide_eq_true _); vm_compute; reflexivity).
  split; [exact H|]. exact (Endpoint_sockaddr_roundtrip ep_sample H).
Defined.

Lemma Endpoint_text_roundtrip_witness :
  @Endpoint_Create HexText.text (@Endpoint_ToString HexText.text ep_sample) = ep_sample ∧
  endpoint_wf (@Endpoint_Create HexText.text []).
Proof.
  apply (Endpoint_text_roundtrip HexText.text_laws ep_sample []).
  apply (bool_decide_eq_true _). vm_compute. reflexivity.
Defined.
