(* ===== verification/Codec.v ===== *)
(** Fixed-layout binary structures: FlatBuffers structs as [chunk/*.fbs] declares them.
    A FlatBuffers struct is stored inline, its fields in declaration order, scalars in
    little-endian order; the structs of the two schemas have explicit paddings, so that
    no field needs implicit alignment bytes (the [static_assert]s on [sizeof] in
    [chunk/header_flatbuf.h] fix the sizes).  A [codec] is such a layout, [codec_laws]
    its interface: all that (de)serialization relies on. *)

From stdpp Require Import base tactics list list_numbers numbers.
From S2P Require Import Prelude.
Local Open Scope Z_scope.

Abbreviation bytes := (list Z).

Record codec (A : Type) : Type := Codec {
  c_size : nat;
  c_valid : A → Prop;          (* every field is in the range of its type *)
  c_store : A → bytes;         (* the object representation *)
  c_load : bytes → A;          (* the accessors applied to a buffer *)
}.
Arguments Codec {_} _ _ _ _.
Arguments c_size {_} _.
Arguments c_valid {_} _ _.
Arguments c_store {_} _ _.
Arguments c_load {_} _ _.

Record codec_laws {A} (c : codec A) : Prop := {
  store_length : ∀ a, length (c_store c a) = c_size c;
  store_bytes : ∀ a, c_valid c a → Forall (fits 8) (c_store c a);
  load_store : ∀ a rest, c_valid c a → c_load c (c_store c a ++ rest) = a;
  load_valid : ∀ bs, Forall (fits 8) bs → (c_size c ≤ length bs)%nat → c_valid c (c_load c bs);
}.

Create HintDb codec discriminated.

(** * Little-endian scalars *)

Fixpoint le_store (n : nat) (z : Z) : bytes :=
  match n with
  | O => []
  | S n' => z `mod` 256 :: le_store n' (z `div` 256)
  end.
Fixpoint le_load (bs : bytes) : Z :=
  match bs with [] => 0 | b :: bs' => b + 256 * le_load bs' end.

Lemma le_store_length n z : length (le_store n z) = n.
Proof. revert z. induction n; intros; simpl; auto. Qed.
Lemma le_store_bytes n z : Forall (fits 8) (le_store n z).
Proof.
  revert z. induction n; intros z; simpl; constructor; auto.
  apply Z.mod_pos_bound. lia.
Qed.
Lemma pow_256_succ n : 2 ^ (8 * Z.of_nat (S n)) = 256 * 2 ^ (8 * Z.of_nat n).
Proof. rewrite Nat2Z.inj_succ, Z.mul_succ_r, Z.add_comm, Z.pow_add_r by lia. done. Qed.
Lemma le_load_store n z : fits (8 * Z.of_nat n) z → le_load (le_store n z) = z.
Proof.
  revert z. induction n as [|n IH]; intros z [? Hz]; simpl.
  - rewrite Z.mul_0_r in Hz. lia.
  - rewrite pow_256_succ in Hz. rewrite IH.
    + pose proof (Z.div_mod z 256 ltac:(lia)). lia.
    + split; [apply Z.div_pos; lia | apply Z.div_lt_upper_bound; lia].
Qed.
Lemma le_load_fits bs : Forall (fits 8) bs → fits (8 * Z.of_nat (length bs)) (le_load bs).
Proof.
  induction 1 as [|b bs [? ?] _ [? IH]]; [done|].
  change (length (b :: bs)) with (S (length bs)). unfold fits.
  rewrite pow_256_succ. simpl. lia.
Qed.

(** [uint8/16/32/64]: [n] bytes. *)
Definition c_uint (n : nat) : codec Z :=
  Codec n (fits (8 * Z.of_nat n)) (le_store n) (λ bs, le_load (take n bs)).

Lemma c_uint_laws n : codec_laws (c_uint n).
Proof.
  split; simpl.
  - intros. apply le_store_length.
  - intros. apply le_store_bytes.
  - intros a rest Ha. rewrite take_app_length'; [by apply le_load_store | by rewrite le_store_length].
  - intros bs Hbs Hl. pose proof (le_load_fits (take n bs) ltac:(by apply Forall_take)) as Hf.
    by rewrite length_take_le in Hf.
Qed.

(** [int8]: two's complement. *)
Definition c_int8 : codec Z :=
  Codec 1 (λ z, -128 ≤ z < 128) (λ z, [u8 z]) (λ bs, swrap 8 (le_load (take 1 bs))).

Lemma swrap_u8 z : -128 ≤ z < 128 → swrap 8 (u8 z) = z.
Proof.
  intros Hz. rewrite <- (swrap_small 8 z) at 2 by (change (2 ^ (8 - 1)) with 128; lia).
  unfold swrap, wrap. by rewrite Z.mod_mod by lia.
Qed.

Lemma c_int8_laws : codec_laws c_int8.
Proof.
  split; simpl.
  - done.
  - intros. repeat constructor; apply wrap_fits; lia.
  - intros a rest Ha. rewrite Z.mul_0_r, Z.add_0_r. by apply swrap_u8.
  - intros bs Hbs Hl. unfold swrap. pose proof (wrap_fits 8 (le_load (take 1 bs)) ltac:(lia)) as [? ?].
    change (2 ^ 8) with 256 in *. change (2 ^ (8 - 1)) with 128. case_bool_decide; lia.
Qed.

(** [bool]: one byte, any nonzero value reads as true. *)
Definition c_bool : codec bool :=
  Codec 1 (λ _, True) (λ b, [if b : bool then 1 else 0]) (λ bs, negb (le_load (take 1 bs) =? 0)).

Lemma c_bool_laws : codec_laws c_bool.
Proof.
  split; simpl; [done| |by intros [] |done].
  intros [] _; repeat constructor; done.
Qed.

(** [[uint8:n]]. *)
Definition c_array (n : nat) : codec bytes :=
  Codec n (λ b, length b = n ∧ Forall (fits 8) b) (λ b, take n (b ++ replicate n 0)) (take n).

Lemma c_array_laws n : codec_laws (c_array n).
Proof.
  split; simpl.
  - intros. rewrite length_take, length_app, length_replicate. lia.
  - intros a [Hl Hf]. by rewrite take_app_length'.
  - intros a rest [Hl Hf]. rewrite (take_app_length' a (replicate n 0)) by done.
    by rewrite take_app_length'.
  - intros bs Hbs Hl. split; [by rewrite length_take_le | by apply Forall_take].
Qed.

(** Padding of [n] zero bytes, not read back. *)
Definition c_pad (n : nat) : codec unit :=
  Codec n (λ _, True) (λ _, replicate n 0) (λ _, ()).

Lemma c_pad_laws n : codec_laws (c_pad n).
Proof.
  split; simpl; [|intros; apply Forall_replicate; unfold fits; lia |by intros []|done].
  intros. apply length_replicate.
Qed.

(** Two consecutive fields. *)
Definition c_pair {A B} (ca : codec A) (cb : codec B) : codec (A * B) :=
  Codec (c_size ca + c_size cb) (λ p, c_valid ca p.1 ∧ c_valid cb p.2)
    (λ p, c_store ca p.1 ++ c_store cb p.2)
    (λ bs, (c_load ca bs, c_load cb (drop (c_size ca) bs))).

Lemma c_pair_laws {A B} (ca : codec A) (cb : codec B) :
  codec_laws ca → codec_laws cb → codec_laws (c_pair ca cb).
Proof.
  intros La Lb. split; simpl.
  - intros [a b]. rewrite length_app, (store_length ca La), (store_length cb Lb). done.
  - intros [a b] [Ha Hb]. apply Forall_app. split; [by apply La | by apply Lb].
  - intros [a b] rest [Ha Hb]. simpl in *. rewrite <- app_assoc. f_equal; [by apply La|].
    rewrite drop_app_length' by (symmetry; apply La). by apply Lb.
  - intros bs Hbs Hl. split; [apply La; [done|lia]|].
    apply Lb; [by apply Forall_drop | rewrite length_drop; lia].
Qed.

(** A struct: its fields through a bijection with the record. *)
Definition c_struct {A B} (to : A → B) (from : B → A) (c : codec A) : codec B :=
  Codec (c_size c) (c_valid c ∘ from) (c_store c ∘ from) (to ∘ c_load c).

Lemma c_struct_laws {A B} (to : A → B) (from : B → A) (c : codec A) :
  (∀ b, to (from b) = b) → (∀ a, from (to a) = a) → codec_laws c → codec_laws (c_struct to from c).
Proof.
  intros H1 H2 L. split; unfold c_struct, compose; simpl.
  - intros. apply L.
  - intros. by apply L.
  - intros. by rewrite (load_store c L).
  - intros. rewrite H2. by apply L.
Qed.

#[export] Hint Resolve c_uint_laws c_int8_laws c_bool_laws c_array_laws c_pad_laws
  c_pair_laws : codec.
#[export] Hint Extern 5 (codec_laws (c_struct _ _ _)) =>
  apply c_struct_laws; [by intros [] | | ] : codec.

Arguments c_load : simpl never.
Arguments c_store : simpl never.
