(* ===== verification/Types.v ===== *)
(** API data types of [api/transport_types.h], the integer types of
    [internal/base/types.h], and the small helpers of [internal/util/util.{h,cc}]. *)

From stdpp Require Import base tactics list list_numbers numbers.
From S2P Require Import Prelude Codec.
Local Open Scope Z_scope.

(** * API types *)

Definition kMetadataSize : nat := 32.
(** [std::array<Byte, 32>]. *)
Abbreviation Metadata := bytes.
Definition Metadata_zero : Metadata := replicate kMetadataSize 0.

(** [Handle] and [ReqId] are [StrongInt]s over [uint32_t]; 0 is invalid. *)
Abbreviation Handle := Z.
Abbreviation ReqId := Z.
Definition kInvalidHandle : Handle := 0.
Definition kInvalidReqId : ReqId := 0.

(** [enum class Op : uint8_t].  A byte received from the wire is cast to [Op] before it
    is validated, so the type is the underlying integer. *)
Abbreviation Op := Z.
Definition kRead : Op := 1.
Definition kWrite : Op := 2.

Inductive TransportType : Type := kAny | kTcp | kRdma.
#[export] Instance TransportType_eq_dec : EqDecision TransportType.
Proof. solve_decision. Defined.

(** [absl::Status] without its message: [None] is OK. *)
Inductive StatusCode : Type :=
  | InvalidArgument | NotFound | AlreadyExists | FailedPrecondition | Internal | Unavailable | Unimplemented
  | OtherCode (code : Z).    (* what a library reports *)
Definition absl_Status : Type := option StatusCode.
Definition StatusOr (A : Type) : Type := A + StatusCode.
#[export] Instance StatusCode_eq_dec : EqDecision StatusCode.
Proof. solve_decision. Defined.

Inductive Status : Type := kNotFound | kInProgress | kSuccess | kFailure.
#[export] Instance Status_eq_dec : EqDecision Status.
Proof. solve_decision. Defined.

(** [enum class Status : int]. *)
Definition Status_int (s : Status) : Z :=
  match s with kNotFound => 2 | kInProgress => 1 | kSuccess => 0 | kFailure => -1 end.
Definition IsInProgress (s : Status) : bool := bool_decide (s = kInProgress).
Definition IsCompleted (s : Status) : bool := Status_int s <=? 0.

(** [struct Request]; an address 0 is [nullptr]. *)
Record Request := mkRequest {
  rq_op : Op; rq_laddr : Z; rq_raddr : Z; rq_len : Z; rq_rkey : Z; rq_metadata : Metadata;
}.
Definition Request_IsValid (r : Request) : bool := negb (rq_laddr r =? 0) && (1 <=? rq_len r).
Definition Requests_IsValid (rs : list Request) : bool :=
  negb (bool_decide (rs = [])) && forallb Request_IsValid rs.
#[export] Instance Request_eq_dec : EqDecision Request.
Proof. solve_decision. Defined.

(** * Integer helpers *)

Definition ClampU16 (v : Z) : Z := u16 (Z.min v (2 ^ 16 - 1)).
Definition ClampU32 (v : Z) : Z := u32 (Z.min v (2 ^ 32 - 1)).
(** [std::clamp(v, lo, hi)]. *)
Definition clamp (v lo hi : Z) : Z := if v <? lo then lo else if hi <? v then hi else v.
Definition ClampI8 (v : Z) : Z := swrap 8 (clamp v (-128) 127).
Definition ClampI16 (v : Z) : Z := swrap 16 (clamp v (-32768) 32767).
Definition IsPowerOfTwo (n : Z) : bool := (0 <? n) && (Z.land n (n - 1) =? 0).

Lemma ClampU16_spec v : 0 ≤ v → ClampU16 v = Z.min v 65535.
Proof. intros. unfold ClampU16. rewrite wrap_small by (unfold fits; lia). lia. Qed.
Lemma ClampU32_spec v : 0 ≤ v → ClampU32 v = Z.min v 4294967295.
Proof. intros. unfold ClampU32. rewrite wrap_small by (unfold fits; lia). lia. Qed.
Lemma ClampI8_spec v : ClampI8 v = Z.max (-128) (Z.min v 127).
Proof.
  unfold ClampI8, clamp. rewrite swrap_small; [|lia|]; change (2 ^ (8 - 1)) with 128;
    repeat case_match; to_prop; lia.
Qed.
Lemma ClampI16_spec v : ClampI16 v = Z.max (-32768) (Z.min v 32767).
Proof.
  unfold ClampI16, clamp. rewrite swrap_small; [|lia|]; change (2 ^ (16 - 1)) with 32768;
    repeat case_match; to_prop; lia.
Qed.

(** * I/O vectors *)

(** [struct iovec]: base pointer and length. *)
Record IoVec := mkIoVec { iov_base : Z; iov_len : Z }.
Definition IoVec_IsValid (v : IoVec) : bool := negb (iov_base v =? 0) && (1 <=? iov_len v).
Definition IoVecs_IsValid (vs : list IoVec) : bool := forallb IoVec_IsValid vs.
Definition TotalLength (vs : list IoVec) : Z := foldl (λ sum v, u64 (sum + iov_len v)) 0 vs.

(** The length without wrap-around. *)
Definition iov_sum (vs : list IoVec) : Z := foldr (λ v s, iov_len v + s) 0 vs.

Lemma TotalLength_acc vs acc : fits 64 acc →
  foldl (λ sum v, u64 (sum + iov_len v)) acc vs = u64 (acc + iov_sum vs).
Proof.
  revert acc. induction vs as [|v vs IH]; intros acc Hacc; simpl.
  - by rewrite Z.add_0_r, wrap_small.
  - rewrite IH by (apply wrap_fits; lia). unfold wrap. rewrite Zplus_mod_idemp_l. f_equal. lia.
Qed.
Lemma TotalLength_sum vs : fits 64 (iov_sum vs) → TotalLength vs = iov_sum vs.
Proof.
  intros. unfold TotalLength. rewrite TotalLength_acc by (unfold fits; lia).
  rewrite Z.add_0_l. by apply wrap_small.
Qed.
