(* ===== verification/Header.v ===== *)
(** Chunk headers: the in-memory structs of [chunk/header.h] and
    [trace/chunk_trace_wire.h], the FlatBuffers structs of [chunk/header.fbs] and
    [chunk/chunk_trace_wire.fbs], and the (de)serialization of
    [chunk/header_flatbuf.{h,cc}]. *)

From stdpp Require Import base tactics list list_numbers numbers.
From S2P Require Import Prelude Codec Types IpAddr Endpoint ChunkTracker.
Local Open Scope Z_scope.

(** * In-memory structs *)

(** [enum class Opcode : uint8_t]; like [Op], cast from an unchecked byte. *)
Abbreviation Opcode := Z.
Definition kPostInfo : Opcode := 1.
Definition kData : Opcode := 2.
Definition kSerializedRequestInfoSize : Z := 128.

Record HeaderBase := mkHeaderBase { hb_opcode : Opcode; hb_handle : Handle; hb_len : Z }.

Definition HeaderBase_IsPostInfo (h : HeaderBase) : bool :=
  (hb_opcode h =? kPostInfo) && (0 <? hb_len h) && (hb_len h `mod` kSerializedRequestInfoSize =? 0).
Definition HeaderBase_IsData (h : HeaderBase) : bool := (hb_opcode h =? kData) && (0 <? hb_len h).
Definition HeaderBase_IsAck (h : HeaderBase) : bool := (hb_opcode h =? kData) && (hb_len h =? 0).
Definition HeaderBase_IsValid (h : HeaderBase) : bool :=
  HeaderBase_IsPostInfo h || HeaderBase_IsData h || HeaderBase_IsAck h.

Record PostInfoHeader := mkPostInfoHeader {
  pi_base : HeaderBase; pi_peer : Endpoint; pi_metadata : Metadata;
}.
Definition PostInfoHeader_IsValid (h : PostInfoHeader) : bool := HeaderBase_IsPostInfo (pi_base h).
Definition IsMatch_PostInfo (h : PostInfoHeader) (payload : bytes) : res bool :=
  do* dcheck (PostInfoHeader_IsValid h);
  Ok (hb_len (pi_base h) =? Z.of_nat (length payload)).

(** Per-chunk trace metadata. *)
Record ChunkTraceWire := mkChunkTraceWire {
  tx_send_us : Z; rx_payload_us : Z; rx_acquire_us : Z; rx_worker_id : Z; rx_chunk_status : Z;
}.
Definition ChunkTraceWire_default : ChunkTraceWire := mkChunkTraceWire 0 0 0 0 0.
Definition IsTraced (t : ChunkTraceWire) : bool := negb (tx_send_us t =? 0).
Definition SetTraced (t : ChunkTraceWire) : ChunkTraceWire :=
  mkChunkTraceWire 1 (rx_payload_us t) (rx_acquire_us t) (rx_worker_id t) (rx_chunk_status t).
Definition SetTxSend (t : ChunkTraceWire) (us : Z) : ChunkTraceWire :=
  mkChunkTraceWire us (rx_payload_us t) (rx_acquire_us t) (rx_worker_id t) (rx_chunk_status t).
Definition SetRx (t : ChunkTraceWire) (worker_id : Z) (s : ChunkStatus)
    (t_start_us t_acquired_us t_done_us : Z) : ChunkTraceWire :=
  mkChunkTraceWire (tx_send_us t)
    (ClampU32 (u64 (t_done_us - t_acquired_us)))
    (ClampU16 (u64 (t_acquired_us - t_start_us)))
    (ClampI8 worker_id) (ChunkStatus_u8 s).

Record DataHeader := mkDataHeader {
  dh_base : HeaderBase; dh_reqid : ReqId; dh_index : Z; dh_byte_offset : Z; dh_raddr : Z;
  dh_trace : ChunkTraceWire;
}.
Definition DataHeader_IsData (h : DataHeader) : bool := HeaderBase_IsData (dh_base h).
Definition DataHeader_IsAck (h : DataHeader) : bool := HeaderBase_IsAck (dh_base h).
Definition DataHeader_IsValid (h : DataHeader) : bool := DataHeader_IsData h || DataHeader_IsAck h.
Definition IsMatch_Data (h : DataHeader) (payload : bytes) : res bool :=
  do* dcheck (DataHeader_IsValid h);
  Ok (hb_len (dh_base h) =? Z.of_nat (length payload)).

Definition RecipeType_kContiguous : Z := 1.
Record Recipe := mkRecipe { rc_type : Z; rc_params : bytes }.
Definition Recipe_IsValid (r : Recipe) : bool := rc_type r =? RecipeType_kContiguous.

Record RequestInfo := mkRequestInfo {
  ri_reqid : ReqId; ri_nchunks : Z; ri_raddr : Z; ri_total_len : Z; ri_op : Op;
  ri_recipe : Recipe; ri_metadata : Metadata;
}.
Definition RequestInfo_IsValid (r : RequestInfo) : bool :=
  ((ri_op r =? kRead) || (ri_op r =? kWrite)) && (0 <? ri_total_len r) &&
  (0 <? ri_nchunks r) && Recipe_IsValid (ri_recipe r).

#[export] Instance HeaderBase_eq_dec : EqDecision HeaderBase.
Proof. solve_decision. Defined.
#[export] Instance PostInfoHeader_eq_dec : EqDecision PostInfoHeader.
Proof. solve_decision. Defined.
#[export] Instance ChunkTraceWire_eq_dec : EqDecision ChunkTraceWire.
Proof. solve_decision. Defined.
#[export] Instance DataHeader_eq_dec : EqDecision DataHeader.
Proof. solve_decision. Defined.
#[export] Instance Recipe_eq_dec : EqDecision Recipe.
Proof. solve_decision. Defined.
#[export] Instance RequestInfo_eq_dec : EqDecision RequestInfo.
Proof. solve_decision. Defined.

(** * FlatBuffers structs *)

Record FbHeaderBase := mkFbHeaderBase {
  fb_magic : Z; fb_ver : Z; fb_opcode : Z; fb_handle : Z; fb_len : Z;
}.
Definition FbHeaderBase_codec : codec FbHeaderBase :=
  c_struct (λ '(m, (v, (o, (h, l)))), mkFbHeaderBase m v o h l)
    (λ b, (fb_magic b, (fb_ver b, (fb_opcode b, (fb_handle b, fb_len b)))))
    (c_pair (c_uint 2) (c_pair (c_uint 1) (c_pair (c_uint 1) (c_pair (c_uint 4) (c_uint 4))))).

Record FbEndpoint := mkFbEndpoint { fb_ip : bytes; fb_port : Z; fb_is_ipv6 : bool }.
Definition FbEndpoint_codec : codec FbEndpoint :=
  c_struct (λ '(i, (p, (v6, _))), mkFbEndpoint i p v6)
    (λ e, (fb_ip e, (fb_port e, (fb_is_ipv6 e, ()))))
    (c_pair (c_array 16) (c_pair (c_uint 2) (c_pair c_bool (c_pad 1)))).

Record FbPostInfoHeader := mkFbPostInfoHeader {
  fbp_base : FbHeaderBase; fbp_peer : FbEndpoint; fbp_metadata : bytes;
}.
Definition FbPostInfoHeader_codec : codec FbPostInfoHeader :=
  c_struct (λ '(b, (p, m)), mkFbPostInfoHeader b p m)
    (λ h, (fbp_base h, (fbp_peer h, fbp_metadata h)))
    (c_pair FbHeaderBase_codec (c_pair FbEndpoint_codec (c_array 32))).

Definition FbChunkTraceWire_codec : codec ChunkTraceWire :=
  c_struct (λ '(a, (b, (c, (d, e)))), mkChunkTraceWire a b c d e)
    (λ t, (tx_send_us t, (rx_payload_us t, (rx_acquire_us t, (rx_worker_id t, rx_chunk_status t)))))
    (c_pair (c_uint 8) (c_pair (c_uint 4) (c_pair (c_uint 2) (c_pair c_int8 (c_uint 1))))).

Record FbDataHeader := mkFbDataHeader {
  fbd_base : FbHeaderBase; fbd_reqid : Z; fbd_index : Z; fbd_byte_offset : Z; fbd_raddr : Z;
  fbd_trace : ChunkTraceWire;
}.
Definition FbDataHeader_codec : codec FbDataHeader :=
  c_struct (λ '(b, (r, (i, (_, (o, (a, (t, _))))))), mkFbDataHeader b r i o a t)
    (λ h, (fbd_base h, (fbd_reqid h, (fbd_index h, ((), (fbd_byte_offset h, (fbd_raddr h,
           (fbd_trace h, ()))))))))
    (c_pair FbHeaderBase_codec (c_pair (c_uint 4) (c_pair (c_uint 4) (c_pair (c_pad 4)
      (c_pair (c_uint 8) (c_pair (c_uint 8) (c_pair FbChunkTraceWire_codec (c_pad 8)))))))).

Definition FbRecipe_codec : codec Recipe :=
  c_struct (λ '(t, (_, p)), mkRecipe t p) (λ r, (rc_type r, ((), rc_params r)))
    (c_pair (c_uint 1) (c_pair (c_pad 7) (c_array 32))).

Record FbRequestInfo := mkFbRequestInfo {
  fbr_reqid : Z; fbr_nchunks : Z; fbr_raddr : Z; fbr_total_len : Z; fbr_op : Z;
  fbr_recipe : Recipe; fbr_metadata : bytes;
}.
Definition FbRequestInfo_codec : codec FbRequestInfo :=
  c_struct (λ '(a, (b, (c, (d, (e, (_, (f, (g, _)))))))), mkFbRequestInfo a b c d e f g)
    (λ r, (fbr_reqid r, (fbr_nchunks r, (fbr_raddr r, (fbr_total_len r, (fbr_op r, ((),
           (fbr_recipe r, (fbr_metadata r, ())))))))))
    (c_pair (c_uint 4) (c_pair (c_uint 4) (c_pair (c_uint 8) (c_pair (c_uint 8) (c_pair (c_uint 1)
      (c_pair (c_pad 7) (c_pair FbRecipe_codec (c_pair (c_array 32) (c_pad 24))))))))).

(** The [static_assert]s on [sizeof] in [header_flatbuf.h]. *)
Lemma fb_sizes :
  c_size FbHeaderBase_codec = 12%nat ∧ c_size FbEndpoint_codec = 20%nat ∧
  c_size FbChunkTraceWire_codec = 16%nat ∧ c_size FbPostInfoHeader_codec = 64%nat ∧
  c_size FbDataHeader_codec = 64%nat ∧ c_size FbRecipe_codec = 40%nat ∧
  c_size FbRequestInfo_codec = 128%nat.
Proof. repeat split. Qed.

Lemma FbHeaderBase_laws : codec_laws FbHeaderBase_codec.
Proof. apply c_struct_laws; [by intros []|by intros (?&?&?&?&?)|auto 20 with codec]. Qed.
#[export] Hint Resolve FbHeaderBase_laws : codec.
Lemma FbEndpoint_laws : codec_laws FbEndpoint_codec.
Proof. apply c_struct_laws; [by intros []|by intros (?&?&?&[])|auto 20 with codec]. Qed.
#[export] Hint Resolve FbEndpoint_laws : codec.
Lemma FbPostInfoHeader_laws : codec_laws FbPostInfoHeader_codec.
Proof. apply c_struct_laws; [by intros []|by intros (?&?&?)|auto 20 with codec]. Qed.
Lemma FbChunkTraceWire_laws : codec_laws FbChunkTraceWire_codec.
Proof. apply c_struct_laws; [by intros []|by intros (?&?&?&?&?)|auto 20 with codec]. Qed.
#[export] Hint Resolve FbChunkTraceWire_laws : codec.
Lemma FbDataHeader_laws : codec_laws FbDataHeader_codec.
Proof. apply c_struct_laws; [by intros []|by intros (?&?&?&[]&?&?&?&[])|auto 20 with codec]. Qed.
Lemma FbRecipe_laws : codec_laws FbRecipe_codec.
Proof. apply c_struct_laws; [by intros []|by intros (?&[]&?)|auto 20 with codec]. Qed.
#[export] Hint Resolve FbRecipe_laws : codec.
Lemma FbRequestInfo_laws : codec_laws FbRequestInfo_codec.
Proof. apply c_struct_laws; [by intros []|by intros (?&?&?&?&?&[]&?&?&[])|auto 20 with codec]. Qed.
