(* ===== verification/HeaderFlatbuf.v ===== *)
(** [class HeaderUtil] of [chunk/header_flatbuf.{h,cc}]: serialization of the chunk
    headers to 64 bytes and of [RequestInfo] to 128 bytes, and their parsers.  A parser
    that returns false is [None] (its out-parameter is then not used by any caller);
    the [DCHECK_EQ(ver, 1)] of [deserializeV1] holds by the [switch] that calls it. *)

From stdpp Require Import base tactics list list_numbers numbers.
From S2P Require Import Prelude Codec Types IpAddr Endpoint ChunkTracker Header.
Local Open Scope Z_scope.

Definition kSize : Z := 64.
Definition kRequestInfoSize : Z := kSerializedRequestInfoSize.
Definition kMagic : Z := 0x4750.
Definition kVer : Z := 1.

(** * Serialization *)

(** The 16-byte address field: [ip = {}] then [memcpy(ip, raw_addr, raw_len)]. *)
Definition fb_ip_of (a : IpAddr) : bytes :=
  let '(raw, len) := RawAddrAndLen a in
  take (Z.to_nat len) raw ++ replicate (16 - Z.to_nat len) 0.

Definition fb_base_of (h : HeaderBase) : FbHeaderBase :=
  mkFbHeaderBase kMagic kVer (hb_opcode h) (hb_handle h) (hb_len h).

Definition serializeV1_PostInfo (h : PostInfoHeader) : res bytes :=
  do* dcheck (PostInfoHeader_IsValid h);
  do* dcheck ((RawAddrAndLen (ep_ipaddr (pi_peer h))).2 <=? 16);
  let peer := mkFbEndpoint (fb_ip_of (ep_ipaddr (pi_peer h))) (ep_port (pi_peer h))
                (IsIPv6 (ep_ipaddr (pi_peer h))) in
  Ok (c_store FbPostInfoHeader_codec
        (mkFbPostInfoHeader (fb_base_of (pi_base h)) peer (pi_metadata h))).

Definition serializeV1_Data (h : DataHeader) : res bytes :=
  do* dcheck (DataHeader_IsValid h);
  Ok (c_store FbDataHeader_codec
        (mkFbDataHeader (fb_base_of (dh_base h)) (dh_reqid h) (dh_index h) (dh_byte_offset h)
           (dh_raddr h) (dh_trace h))).

Definition Serialize_PostInfo (h : PostInfoHeader) (ver : Z) : res bytes :=
  do* dcheck (ver =? 1);
  let* s := serializeV1_PostInfo h in
  do* dcheck (Z.of_nat (length s) =? kSize);
  Ok s.

Definition Serialize_Data (h : DataHeader) (ver : Z) : res bytes :=
  do* dcheck (ver =? 1);
  let* s := serializeV1_Data h in
  do* dcheck (Z.of_nat (length s) =? kSize);
  Ok s.

Definition Serialize_RequestInfo (r : RequestInfo) : res bytes :=
  do* dcheck (RequestInfo_IsValid r);
  Ok (c_store FbRequestInfo_codec
        (mkFbRequestInfo (ri_reqid r) (ri_nchunks r) (ri_raddr r) (ri_total_len r) (ri_op r)
           (ri_recipe r) (ri_metadata r))).

(** The loop of [Serialize(absl::Span<const RequestInfo>)], appending to [out]. *)
Fixpoint Serialize_append (out : bytes) (reqs : list RequestInfo) : res bytes :=
  match reqs with
  | [] => Ok out
  | r :: reqs' => let* s := Serialize_RequestInfo r in Serialize_append (out ++ s) reqs'
  end.

Definition Serialize_Requests (reqs : list RequestInfo) : res bytes :=
  do* dcheck (negb (bool_decide (reqs = [])));
  let* out := Serialize_append [] reqs in
  do* dcheck (Z.of_nat (length out) =? Z.of_nat (length reqs) * kRequestInfoSize);
  Ok out.

(** * Parsing *)

Definition deserializeV1_Base (b : FbHeaderBase) : option HeaderBase :=
  let base := mkHeaderBase (fb_opcode b) (fb_handle b) (fb_len b) in
  if HeaderBase_IsValid base then Some base else None.

Definition deserializeV1_PostInfo (h : FbPostInfoHeader) : option PostInfoHeader :=
  let base := mkHeaderBase (fb_opcode (fbp_base h)) (fb_handle (fbp_base h)) (fb_len (fbp_base h)) in
  if negb (HeaderBase_IsPostInfo base) then None
  else
    let fb := fbp_peer h in
    let peer := if fb_is_ipv6 fb then mkEndpoint (IPv6 (take 16 (fb_ip fb))) (fb_port fb)
                else mkEndpoint (IPv4 (take 4 (fb_ip fb))) (fb_port fb) in
    Some (mkPostInfoHeader base peer (fbp_metadata h)).

Definition deserializeV1_Data (h : FbDataHeader) : option DataHeader :=
  let base := mkHeaderBase (fb_opcode (fbd_base h)) (fb_handle (fbd_base h)) (fb_len (fbd_base h)) in
  if negb (HeaderBase_IsData base || HeaderBase_IsAck base) then None
  else Some (mkDataHeader base (fbd_reqid h) (fbd_index h) (fbd_byte_offset h) (fbd_raddr h)
               (fbd_trace h)).

Definition Deserialize_Base (s : bytes) : option HeaderBase :=
  if negb (Z.of_nat (length s) =? kSize) then None
  else
    let b := c_load FbHeaderBase_codec (take 12 s) in
    if negb (fb_magic b =? kMagic) then None
    else if fb_ver b =? 1 then deserializeV1_Base b else None.

Definition Deserialize_PostInfo (s : bytes) : option PostInfoHeader :=
  if negb (Z.of_nat (length s) =? kSize) then None
  else
    let h := c_load FbPostInfoHeader_codec s in
    if negb (fb_magic (fbp_base h) =? kMagic) then None
    else if fb_ver (fbp_base h) =? 1 then deserializeV1_PostInfo h else None.

Definition Deserialize_Data (s : bytes) : option DataHeader :=
  if negb (Z.of_nat (length s) =? kSize) then None
  else
    let h := c_load FbDataHeader_codec s in
    if negb (fb_magic (fbd_base h) =? kMagic) then None
    else if fb_ver (fbd_base h) =? 1 then deserializeV1_Data h else None.

Definition Deserialize_RequestInfo (s : bytes) : option RequestInfo :=
  if negb (Z.of_nat (length s) =? kRequestInfoSize) then None
  else
    let f := c_load FbRequestInfo_codec s in
    let r := mkRequestInfo (fbr_reqid f) (fbr_nchunks f) (fbr_raddr f) (fbr_total_len f)
               (fbr_op f) (fbr_recipe f) (fbr_metadata f) in
    if RequestInfo_IsValid r then Some r else None.

(** The loop over [i] in [0, count): [s.substr(i * 128, 128)] is parsed in turn. *)
Fixpoint Deserialize_loop (count : nat) (s : bytes) : option (list RequestInfo) :=
  match count with
  | O => Some []
  | S n => r ← Deserialize_RequestInfo (take 128 s); rs ← Deserialize_loop n (drop 128 s); Some (r :: rs)
  end.

Definition Deserialize_Requests (s : bytes) : option (list RequestInfo) :=
  if bool_decide (s = []) || negb (Z.of_nat (length s) `mod` kRequestInfoSize =? 0) then None
  else Deserialize_loop (length s / 128)%nat s.

(** * Ranges of the in-memory structs *)

Definition headerbase_wf (h : HeaderBase) : Prop :=
  fits 8 (hb_opcode h) ∧ fits 32 (hb_handle h) ∧ fits 32 (hb_len h).
Definition postinfo_wf (h : PostInfoHeader) : Prop :=
  headerbase_wf (pi_base h) ∧ endpoint_wf (pi_peer h) ∧ is_bytes 32 (pi_metadata h).
Definition trace_wf (t : ChunkTraceWire) : Prop :=
  fits 64 (tx_send_us t) ∧ fits 32 (rx_payload_us t) ∧ fits 16 (rx_acquire_us t) ∧
  (-128 ≤ rx_worker_id t < 128) ∧ fits 8 (rx_chunk_status t).
Definition data_wf (h : DataHeader) : Prop :=
  headerbase_wf (dh_base h) ∧ fits 32 (dh_reqid h) ∧ fits 32 (dh_index h) ∧
  fits 64 (dh_byte_offset h) ∧ fits 64 (dh_raddr h) ∧ trace_wf (dh_trace h).
Definition reqinfo_wf (r : RequestInfo) : Prop :=
  fits 32 (ri_reqid r) ∧ fits 32 (ri_nchunks r) ∧ fits 64 (ri_raddr r) ∧ fits 64 (ri_total_len r) ∧
  fits 8 (ri_op r) ∧ (fits 8 (rc_type (ri_recipe r)) ∧ is_bytes 32 (rc_params (ri_recipe r))) ∧
  is_bytes 32 (ri_metadata r).

#[export] Instance headerbase_wf_dec h : Decision (headerbase_wf h).
Proof. unfold headerbase_wf. apply _. Defined.
#[export] Instance postinfo_wf_dec h : Decision (postinfo_wf h).
Proof. unfold postinfo_wf. apply _. Defined.
#[export] Instance trace_wf_dec t : Decision (trace_wf t).
Proof. unfold trace_wf. apply _. Defined.
#[export] Instance data_wf_dec h : Decision (data_wf h).
Proof. unfold data_wf. apply _. Defined.
#[export] Instance reqinfo_wf_dec r : Decision (reqinfo_wf r).
Proof. unfold reqinfo_wf. apply _. Defined.

(** * Lemmas *)

(** Both 64-byte headers start with the common prefix: the base fields read through
    either struct are those read through [HeaderBase]. *)
Lemma load_base_postinfo s : fbp_base (c_load FbPostInfoHeader_codec s) = c_load FbHeaderBase_codec s.
Proof. reflexivity. Qed.
Lemma load_base_data s : fbd_base (c_load FbDataHeader_codec s) = c_load FbHeaderBase_codec s.
Proof. reflexivity. Qed.

Lemma fb_ip_of_bytes a : ipaddr_wf a → is_bytes 16 (fb_ip_of a).
Proof.
  destruct a as [b|b]; intros [Hl Hf]; unfold fb_ip_of; simpl RawAddrAndLen; cbv iota; split.
  - rewrite length_app, length_take, Hl, length_replicate. done.
  - apply Forall_app. split; [by apply Forall_take|]. apply Forall_replicate. unfold fits. lia.
  - rewrite length_app, length_take, Hl, length_replicate. done.
  - apply Forall_app. split; [by apply Forall_take|]. apply Forall_replicate. unfold fits. lia.
Qed.

Lemma endpoint_of_fb e : endpoint_wf e →
  (if IsIPv6 (ep_ipaddr e) then mkEndpoint (IPv6 (take 16 (fb_ip_of (ep_ipaddr e)))) (ep_port e)
   else mkEndpoint (IPv4 (take 4 (fb_ip_of (ep_ipaddr e)))) (ep_port e)) = e.
Proof.
  destruct e as [[b|b] p]; intros [[Hl Hf] _]; cbn [ep_ipaddr ep_port IsIPv6] in *;
    do 2 f_equal; unfold fb_ip_of, RawAddrAndLen;
    change (Z.to_nat 4) with 4%nat; change (Z.to_nat 16) with 16%nat.
  - rewrite (take_ge b 4) by lia. by rewrite take_app_length'.
  - rewrite (take_ge b 16) by lia. by rewrite take_app_length'.
Qed.

Lemma fb_base_valid h : headerbase_wf h → c_valid FbHeaderBase_codec (fb_base_of h).
Proof. intros (? & ? & ?). repeat split; simpl; try done; unfold fits in *; lia. Qed.

Lemma HeaderBase_eta h : mkHeaderBase (hb_opcode h) (hb_handle h) (hb_len h) = h.
Proof. by destruct h. Qed.

Lemma load_store_all {A} (c : codec A) a : codec_laws c → c_valid c a → c_load c (c_store c a) = a.
Proof. intros L Ha. rewrite <- (app_nil_r (c_store c a)). by apply L. Qed.

(** The fields of a stored header base survive any later bytes. *)
Lemma load_base_prefix h rest : headerbase_wf h →
  c_load FbHeaderBase_codec (c_store FbHeaderBase_codec (fb_base_of h) ++ rest) = fb_base_of h.
Proof. intros. apply FbHeaderBase_laws. by apply fb_base_valid. Qed.

Definition fb_postinfo_of (h : PostInfoHeader) : FbPostInfoHeader :=
  mkFbPostInfoHeader (fb_base_of (pi_base h))
    (mkFbEndpoint (fb_ip_of (ep_ipaddr (pi_peer h))) (ep_port (pi_peer h)) (IsIPv6 (ep_ipaddr (pi_peer h))))
    (pi_metadata h).
Definition fb_data_of (h : DataHeader) : FbDataHeader :=
  mkFbDataHeader (fb_base_of (dh_base h)) (dh_reqid h) (dh_index h) (dh_byte_offset h)
    (dh_raddr h) (dh_trace h).
Definition fb_request_of (r : RequestInfo) : FbRequestInfo :=
  mkFbRequestInfo (ri_reqid r) (ri_nchunks r) (ri_raddr r) (ri_total_len r) (ri_op r)
    (ri_recipe r) (ri_metadata r).

Lemma fb_postinfo_valid h : postinfo_wf h → c_valid FbPostInfoHeader_codec (fb_postinfo_of h).
Proof.
  intros (Hb & [Ha Hp] & Hm). split; [by apply fb_base_valid|]. split; [|done].
  split; [by apply fb_ip_of_bytes|]. by repeat split; apply Hp.
Qed.
Lemma fb_data_valid h : data_wf h → c_valid FbDataHeader_codec (fb_data_of h).
Proof.
  intros (Hb & H1 & H2 & H3 & H4 & (H5 & H6 & H7 & H8 & H9)).
  split; [by apply fb_base_valid|].
  repeat split; simpl in *; try apply H1; try apply H2; try apply H3; try apply H4;
    try apply H5; try apply H6; try apply H7; try apply H8; try apply H9.
Qed.
Lemma fb_request_valid r : reqinfo_wf r → c_valid FbRequestInfo_codec (fb_request_of r).
Proof.
  intros (H1 & H2 & H3 & H4 & H5 & [H6 H7] & H8).
  repeat split; simpl in *; try apply H1; try apply H2; try apply H3; try apply H4;
    try apply H5; try apply H6; try apply H7; try apply H8.
Qed.

Lemma Serialize_PostInfo_Ok h : postinfo_wf h → PostInfoHeader_IsValid h = true →
  Serialize_PostInfo h 1 = Ok (c_store FbPostInfoHeader_codec (fb_postinfo_of h)).
Proof.
  intros _ Hv. unfold Serialize_PostInfo, serializeV1_PostInfo. rewrite bind_dcheck by done.
  rewrite Hv. rewrite bind_dcheck by done.
  rewrite (bind_dcheck (_ <=? 16)) by (by destruct (ep_ipaddr (pi_peer h))).
  rewrite bind_Ok, bind_dcheck; [done|]. by rewrite (store_length _ FbPostInfoHeader_laws).
Qed.
Lemma Serialize_Data_Ok h : DataHeader_IsValid h = true →
  Serialize_Data h 1 = Ok (c_store FbDataHeader_codec (fb_data_of h)).
Proof.
  intros Hv. unfold Serialize_Data, serializeV1_Data. rewrite bind_dcheck by done.
  rewrite Hv. rewrite bind_dcheck by done.
  rewrite bind_Ok, bind_dcheck; [done|]. by rewrite (store_length _ FbDataHeader_laws).
Qed.

Lemma postinfo_not_data h : PostInfoHeader_IsValid h = true →
  HeaderBase_IsData (pi_base h) || HeaderBase_IsAck (pi_base h) = false.
Proof.
  unfold PostInfoHeader_IsValid, HeaderBase_IsPostInfo, HeaderBase_IsData, HeaderBase_IsAck.
  intros Hv. to_prop. by rewrite H.
Qed.
Lemma data_not_postinfo h : DataHeader_IsValid h = true → HeaderBase_IsPostInfo (dh_base h) = false.
Proof.
  unfold DataHeader_IsValid, DataHeader_IsData, DataHeader_IsAck,
    HeaderBase_IsPostInfo, HeaderBase_IsData, HeaderBase_IsAck.
  destruct (hb_opcode (dh_base h) =? kData) eqn:E; [|done]. to_prop. by rewrite E.
Qed.

(** Parsing a stored header, as each of the three header types.  [s] is any 64 bytes
    whose prefix is the base. *)
Lemma load_prefix s h rest : headerbase_wf h →
  s = c_store FbHeaderBase_codec (fb_base_of h) ++ rest →
  c_load FbHeaderBase_codec s = fb_base_of h ∧ c_load FbHeaderBase_codec (take 12 s) = fb_base_of h.
Proof.
  intros Hwf ->. split; [by apply load_base_prefix|].
  rewrite take_app_length' by done. apply load_store_all; [apply FbHeaderBase_laws|].
  by apply fb_base_valid.
Qed.

Lemma Deserialize_Base_prefix s h : Z.of_nat (length s) = 64 →
  c_load FbHeaderBase_codec (take 12 s) = fb_base_of h → HeaderBase_IsValid h = true →
  Deserialize_Base s = Some h.
Proof.
  intros Hl Hb Hv. unfold Deserialize_Base. rewrite Hl, Hb. simpl.
  unfold deserializeV1_Base. simpl. by rewrite HeaderBase_eta, Hv.
Qed.

Lemma Deserialize_stored_postinfo h : postinfo_wf h → PostInfoHeader_IsValid h = true →
  let s := c_store FbPostInfoHeader_codec (fb_postinfo_of h) in
  Deserialize_PostInfo s = Some h ∧ Deserialize_Data s = None ∧
  Deserialize_Base s = Some (pi_base h).
Proof.
  intros Hwf Hv s. assert (Z.of_nat (length s) = 64) as Hl
    by (unfold s; by rewrite (store_length _ FbPostInfoHeader_laws)).
  assert (c_load FbPostInfoHeader_codec s = fb_postinfo_of h) as Hf
    by (apply load_store_all; [apply FbPostInfoHeader_laws | by apply fb_postinfo_valid]).
  destruct (load_prefix s (pi_base h) (drop 12 s)) as [Hb Hb'];
    [apply Hwf | by rewrite <- (take_drop 12 s) at 1 |].
  clearbody s. split; [|split].
  - unfold Deserialize_PostInfo. rewrite Hl, Hf. simpl.
    unfold deserializeV1_PostInfo. simpl. rewrite HeaderBase_eta.
    unfold PostInfoHeader_IsValid in Hv. rewrite Hv. simpl. rewrite endpoint_of_fb by apply Hwf.
    by destruct h.
  - unfold Deserialize_Data, deserializeV1_Data. rewrite Hl, load_base_data, Hb. simpl.
    by rewrite HeaderBase_eta, postinfo_not_data.
  - apply Deserialize_Base_prefix; [done..|].
    unfold PostInfoHeader_IsValid, HeaderBase_IsValid in *. by rewrite Hv.
Qed.

Lemma Deserialize_stored_data h : data_wf h → DataHeader_IsValid h = true →
  let s := c_store FbDataHeader_codec (fb_data_of h) in
  Deserialize_Data s = Some h ∧ Deserialize_PostInfo s = None ∧
  Deserialize_Base s = Some (dh_base h).
Proof.
  intros Hwf Hv s. assert (Z.of_nat (length s) = 64) as Hl
    by (unfold s; by rewrite (store_length _ FbDataHeader_laws)).
  assert (c_load FbDataHeader_codec s = fb_data_of h) as Hf
    by (apply load_store_all; [apply FbDataHeader_laws | by apply fb_data_valid]).
  destruct (load_prefix s (dh_base h) (drop 12 s)) as [Hb Hb'];
    [apply Hwf | by rewrite <- (take_drop 12 s) at 1 |].
  clearbody s. pose proof Hv as Hv'.
  unfold DataHeader_IsValid, DataHeader_IsData, DataHeader_IsAck in Hv. split; [|split].
  - unfold Deserialize_Data. rewrite Hl, Hf. simpl.
    unfold deserializeV1_Data. simpl. rewrite HeaderBase_eta, Hv. simpl. by destruct h.
  - unfold Deserialize_PostInfo, deserializeV1_PostInfo. rewrite Hl, load_base_postinfo, Hb. simpl.
    by rewrite HeaderBase_eta, data_not_postinfo.
  - apply Deserialize_Base_prefix; [done..|].
    unfold HeaderBase_IsValid. by rewrite <- orb_assoc, Hv, orb_true_r.
Qed.

(** ** Sequences of request descriptors *)

Lemma Serialize_RequestInfo_Ok r : RequestInfo_IsValid r = true →
  Serialize_RequestInfo r = Ok (c_store FbRequestInfo_codec (fb_request_of r)).
Proof. intros Hv. unfold Serialize_RequestInfo. by rewrite Hv. Qed.

Lemma Deserialize_stored_request r : reqinfo_wf r → RequestInfo_IsValid r = true →
  Deserialize_RequestInfo (c_store FbRequestInfo_codec (fb_request_of r)) = Some r.
Proof.
  intros Hwf Hv. unfold Deserialize_RequestInfo.
  rewrite (store_length _ FbRequestInfo_laws).
  rewrite load_store_all by (apply FbRequestInfo_laws || by apply fb_request_valid).
  simpl. destruct r; simpl in *. by rewrite Hv.
Qed.

Definition store_requests (reqs : list RequestInfo) : bytes :=
  concat ((λ r, c_store FbRequestInfo_codec (fb_request_of r)) <$> reqs).

Lemma store_requests_length reqs : length (store_requests reqs) = (length reqs * 128)%nat.
Proof.
  induction reqs as [|r reqs IH]; [done|]. unfold store_requests in *.
  rewrite fmap_cons. cbn [concat]. rewrite length_app, (store_length _ FbRequestInfo_laws), IH. done.
Qed.

Lemma Serialize_append_Ok reqs out : Forall (λ r, RequestInfo_IsValid r = true) reqs →
  Serialize_append out reqs = Ok (out ++ store_requests reqs).
Proof.
  intros Hf. revert out. induction Hf as [|r reqs Hv _ IH]; intros out; simpl.
  - by rewrite app_nil_r.
  - rewrite Serialize_RequestInfo_Ok by done. simpl. rewrite IH.
    unfold store_requests. rewrite fmap_cons. cbn [concat]. by rewrite app_assoc.
Qed.

Lemma Deserialize_loop_store reqs rest :
  Forall (λ r, reqinfo_wf r ∧ RequestInfo_IsValid r = true) reqs →
  Deserialize_loop (length reqs) (store_requests reqs ++ rest) = Some reqs.
Proof.
  induction 1 as [|r reqs [Hwf Hv] _ IH]; [done|].
  change (store_requests (r :: reqs)) with
    (c_store FbRequestInfo_codec (fb_request_of r) ++ store_requests reqs).
  rewrite <- app_assoc. cbn [length Deserialize_loop].
  pose proof (store_length _ FbRequestInfo_laws (fb_request_of r)) as Hl.
  rewrite take_app_length', drop_app_length' by by rewrite Hl.
  rewrite Deserialize_stored_request by done. simpl. by rewrite IH.
Qed.

Lemma Deserialize_loop_valid n s reqs : Deserialize_loop n s = Some reqs →
  length reqs = n ∧ Forall (λ r, RequestInfo_IsValid r = true) reqs.
Proof.
  revert s reqs. induction n as [|n IH]; intros s reqs E; simpl in E; [by simplify_eq|].
  apply bind_Some in E as (r & Hr & E). apply bind_Some in E as (rs & Hrs & E). simplify_eq.
  destruct (IH _ _ Hrs) as [Hl Hf]. split; [simpl; lia|]. constructor; [|done].
  unfold Deserialize_RequestInfo in Hr. repeat case_match; simplify_eq. done.
Qed.

(** * Properties *)

(** C9: Wire headers round-trip and are never confused.  A valid [DataHeader] (or ACK)
    serializes, without failing any assertion, to exactly 64 bytes that parse back to
    the same header, are rejected as a [PostInfoHeader], and show the same base fields
    to a reader of the common prefix; symmetrically for [PostInfoHeader]. *)
Theorem header_roundtrip (d : DataHeader) (p : PostInfoHeader) :
  data_wf d → DataHeader_IsValid d = true → postinfo_wf p → PostInfoHeader_IsValid p = true →
  (∃ s, Serialize_Data d 1 = Ok s ∧ Z.of_nat (length s) = kSize ∧
        Deserialize_Data s = Some d ∧ Deserialize_PostInfo s = None ∧
        Deserialize_Base s = Some (dh_base d)) ∧
  (∃ s, Serialize_PostInfo p 1 = Ok s ∧ Z.of_nat (length s) = kSize ∧
        Deserialize_PostInfo s = Some p ∧ Deserialize_Data s = None ∧
        Deserialize_Base s = Some (pi_base p)).
Proof.
  intros Hd Hdv Hp Hpv. split; eexists; (split; [by (apply Serialize_Data_Ok || apply Serialize_PostInfo_Ok)|]).
  - split; [by rewrite (store_length _ FbDataHeader_laws)|]. by apply Deserialize_stored_data.
  - split; [by rewrite (store_length _ FbPostInfoHeader_laws)|]. by apply Deserialize_stored_postinfo.
Qed.

Definition dh_sample : DataHeader :=
  mkDataHeader (mkHeaderBase kData 7 1000) 9 3 3000 (2 ^ 40) (mkChunkTraceWire 1 2 3 (-4) 0).
Definition pi_sample : PostInfoHeader :=
  mkPostInfoHeader (mkHeaderBase kPostInfo 7 256) ep_sample Metadata_zero.

Lemma header_roundtrip_witness :
  (∃ s, Serialize_Data dh_sample 1 = Ok s ∧ Deserialize_Data s = Some dh_sample) ∧
  (∃ s, Serialize_PostInfo pi_sample 1 = Ok s ∧ Deserialize_PostInfo s = Some pi_sample).
Proof.
  destruct (header_roundtrip dh_sample pi_sample) as [(s & ? & _ & ? & _) (s' & ? & _ & ? & _)];
    [apply (bool_decide_eq_true _); vm_compute; reflexivity | reflexivity
    | apply (bool_decide_eq_true _); vm_compute; reflexivity | reflexivity |].
  split; [exists s | exists s']; auto.
Defined.

(** The [PostInfo] payload round-trips: any non-empty sequence of valid request
    descriptors serializes to 128 bytes each and parses back to the same sequence.
    On arbitrary bytes the parser accepts only a non-empty whole number of 128-byte
    records, returns as many descriptors as there are records, and every one of them
    is valid. *)
Theorem requests_roundtrip (reqs : list RequestInfo) (s : bytes) (parsed : list RequestInfo) :
  reqs ≠ [] → Forall (λ r, reqinfo_wf r ∧ RequestInfo_IsValid r = true) reqs →
  Deserialize_Requests s = Some parsed →
  (∃ out, Serialize_Requests reqs = Ok out ∧
     Z.of_nat (length out) = Z.of_nat (length reqs) * kRequestInfoSize ∧
     Deserialize_Requests out = Some reqs) ∧
  parsed ≠ [] ∧ Z.of_nat (length s) = Z.of_nat (length parsed) * kRequestInfoSize ∧
  Forall (λ r, RequestInfo_IsValid r = true) parsed.
Proof.
  intros Hne Hf Hs. split.
  - assert (Z.of_nat (length (store_requests reqs)) = Z.of_nat (length reqs) * kRequestInfoSize) as Hl.
    { rewrite store_requests_length. unfold kRequestInfoSize, kSerializedRequestInfoSize. lia. }
    exists (store_requests reqs). split; [|split; [done|]].
    + unfold Serialize_Requests. rewrite bind_dcheck by by rewrite bool_decide_false.
      rewrite Serialize_append_Ok by (eapply List.Forall_impl; [|exact Hf]; naive_solver).
      rewrite bind_Ok, bind_dcheck by by apply Z.eqb_eq. done.
    + unfold Deserialize_Requests. rewrite Hl, Z.mod_mul by done.
      rewrite bool_decide_false by (intros E; apply Hne, length_zero_iff_nil;
        pose proof (store_requests_length reqs); rewrite E in *; simpl in *; lia).
      rewrite store_requests_length, Nat.div_mul by lia.
      rewrite <- (app_nil_r (store_requests reqs)). by apply Deserialize_loop_store.
  - unfold Deserialize_Requests in Hs. case_bool_decide; cbn [orb] in Hs; [done|].
    destruct (negb _) eqn:E; [done|]. apply negb_false_iff, Z.eqb_eq in E.
    unfold kRequestInfoSize, kSerializedRequestInfoSize in *.
    destruct (Deserialize_loop_valid _ _ _ Hs) as [Hl Hv].
    apply Z.mod_divide in E as [k Hk]; [|done].
    assert (length s = (Z.to_nat k * 128)%nat) as Hk' by lia.
    replace (length s `div` 128)%nat with (Z.to_nat k) in Hl by
      (rewrite Hk'; symmetry; apply (Nat.div_mul _ 128); lia).
    assert (s ≠ []) as Hs0 by done. rewrite <- length_zero_iff_nil in Hs0.
    split; [|split; [lia|done]]. intros ->. simpl in Hl. lia.
Qed.

Definition ri_sample : RequestInfo :=
  mkRequestInfo 9 4 (2 ^ 40) 4000 kWrite (mkRecipe 1 (replicate 32 0)) Metadata_zero.

Lemma requests_roundtrip_witness :
  ∃ out, Serialize_Requests [ri_sample; ri_sample] = Ok out ∧
         Deserialize_Requests out = Some [ri_sample; ri_sample].
Proof.
  destruct (requests_roundtrip [ri_sample; ri_sample]
    (c_store FbRequestInfo_codec (fb_request_of ri_sample)) [ri_sample]) as [(out & ? & _ & ?) _].
  - done.
  - repeat constructor; try (apply (bool_decide_eq_true _); vm_compute; reflexivity); reflexivity.
  - vm_compute. reflexivity.
  - exists out. auto.
Defined.

(** C10: Parsers of untrusted bytes are total and strict.  Whatever 8-bit bytes arrive, an
    accepted header has 64 bytes, the magic number, version 1, field values inside the
    range of their C++ types, and satisfies [IsValid()]; in particular an accepted data
    header is either data or an ACK, never both. *)
Theorem header_parse_sound (s : bytes) (d : DataHeader) :
  Forall (fits 8) s → Deserialize_Data s = Some d →
  Z.of_nat (length s) = kSize ∧ le_load (take 2 s) = kMagic ∧ byte_at s 2 = 1 ∧
  data_wf d ∧ DataHeader_IsData d = negb (DataHeader_IsAck d).
Proof.
  unfold Deserialize_Data. intros Hb E.
  destruct (negb _) eqn:El; [done|]. apply negb_false_iff, Z.eqb_eq in El.
  destruct (negb _) eqn:Em in E; [done|]. apply negb_false_iff, Z.eqb_eq in Em.
  destruct (_ =? 1) eqn:Ev in E; [|done]. apply Z.eqb_eq in Ev.
  unfold deserializeV1_Data in E. destruct (negb _) eqn:Evd in E; [done|].
  apply negb_false_iff in Evd. simplify_eq. split; [done|]. split; [done|]. split.
  { unfold kSize in El. do 3 (destruct s as [|? s]; [simpl in El; lia|]).
    change (le_load [z1] = 1) in Ev. revert Ev. unfold byte_at, le_load. cbn. lia. }
  assert (c_valid FbDataHeader_codec (c_load FbDataHeader_codec s)) as Hv.
  { apply FbDataHeader_laws; [done|]. unfold kSize in El. simpl. lia. }
  destruct (c_load FbDataHeader_codec s) as [[mg vr op hd len] ? ? ? ? []]. clear Em Ev.
  split; [cbn in Hv; unfold data_wf, headerbase_wf, trace_wf; simpl; tauto|].
  revert Evd. unfold DataHeader_IsData, DataHeader_IsAck, HeaderBase_IsData, HeaderBase_IsAck. simpl.
  destruct (_ =? kData); [|done]. simpl.
  destruct (0 <? len) eqn:E1, (len =? 0) eqn:E2; simpl; try done. to_prop. lia.
Qed.

Lemma header_parse_sound_witness : ∃ d,
  Deserialize_Data (c_store FbDataHeader_codec (fb_data_of dh_sample)) = Some d ∧ data_wf d.
Proof.
  exists dh_sample. split; [vm_compute; reflexivity|].
  apply (header_parse_sound (c_store FbDataHeader_codec (fb_data_of dh_sample)) dh_sample);
    [apply (bool_decide_eq_true _); vm_compute; reflexivity | vm_compute; reflexivity].
Defined.
