(* ===== verification/IoVecCursor.v ===== *)
(** The scatter/gather cursor of [internal/lib/iovec_cursor.h].  The vector [iovs_] is a
    list, the pointers [cur_] and [end_] are indices into it, and [Advance] updates the
    items in place.  A cursor denotes the queue of byte addresses still to be
    transferred; the operations are proved against that view. *)

From stdpp Require Import base tactics list list_numbers numbers.
From S2P Require Import Prelude Types.
Local Open Scope Z_scope.

(** * Data *)

Record IoVecCursor := mkIoVecCursor {
  cu_iovs : list IoVec;      (* iovs_ *)
  cu_cur : nat;              (* cur_ - iovs_.data() *)
  cu_left : Z;               (* bytes_left_ *)
  cu_total : Z;              (* bytes_total_ *)
}.

(** * Operations *)

Definition TotalItems (c : IoVecCursor) : nat := length (cu_iovs c).
Definition RemainingItems (c : IoVecCursor) : nat := (length (cu_iovs c) - cu_cur c)%nat.
Definition Head (c : IoVecCursor) : option IoVec := cu_iovs c !! cu_cur c.
Definition RemainingSpan (c : IoVecCursor) : list IoVec := drop (cu_cur c) (cu_iovs c).

Definition cu_invariant (c : IoVecCursor) : bool :=
  IoVecs_IsValid (cu_iovs c) && (cu_cur c <=? length (cu_iovs c))%nat &&
  (cu_left c <=? cu_total c) && (cu_left c =? TotalLength (RemainingSpan c)) &&
  (cu_left c <=? 2 ^ 63 - 1).

Definition IoVecCursor_new (iovs : list IoVec) : res IoVecCursor :=
  let c := mkIoVecCursor iovs 0 (TotalLength iovs) (TotalLength iovs) in
  do* dcheck (1 <=? TotalLength iovs);
  do* dcheck (TotalLength iovs <? 2 ^ 63);
  do* dcheck (cu_invariant c);
  Ok c.

(** The slow path: how many items the [while] loop passes and the items from [cur_] on,
    with the one it stops at trimmed. *)
Fixpoint Advance_loop (items : list IoVec) (bytes : Z) : nat * list IoVec :=
  match items with
  | [] => (O, [])
  | v :: items' =>
      if bytes <? iov_len v
      then (O, mkIoVec (iov_base v + bytes) (iov_len v - bytes) :: items')
      else let '(n, rest) := Advance_loop items' (bytes - iov_len v) in (S n, v :: rest)
  end.

Definition Advance (c : IoVecCursor) (bytes : Z) : res (IoVecCursor * bool) :=
  do* dcheck (1 <=? bytes);
  do* dcheck (bytes <=? cu_left c);
  do* dcheck (cu_invariant c);
  let left := cu_left c - bytes in
  if left =? 0 then Ok (mkIoVecCursor (cu_iovs c) (length (cu_iovs c)) left (cu_total c), true)
  else
    let '(n, items) := Advance_loop (RemainingSpan c) bytes in
    let c' := mkIoVecCursor (take (cu_cur c) (cu_iovs c) ++ items) (cu_cur c + n) left (cu_total c) in
    do* dcheck (cu_invariant c');
    do* dcheck (cu_cur c' <? length (cu_iovs c'))%nat;
    Ok (c', (length (cu_iovs c') <=? cu_cur c')%nat).

(** * Specification: the queue of byte addresses left to transfer *)

Definition iov_addrs (v : IoVec) : list Z := seqZ (iov_base v) (iov_len v).
Definition span_addrs (vs : list IoVec) : list Z := concat (iov_addrs <$> vs).
Definition pending (c : IoVecCursor) : list Z := span_addrs (RemainingSpan c).

(** A buffer of the address space: non-null, non-empty. *)
Definition iov_ok (v : IoVec) : Prop := 0 < iov_base v ∧ 0 < iov_len v.
#[export] Instance iov_ok_dec v : Decision (iov_ok v).
Proof. unfold iov_ok. apply _. Defined.

Record cursor_wf (c : IoVecCursor) : Prop := {
  cuwf_items : Forall iov_ok (cu_iovs c);
  cuwf_cur : (cu_cur c ≤ length (cu_iovs c))%nat;
  cuwf_left : cu_left c = iov_sum (RemainingSpan c);
  cuwf_total : cu_left c ≤ cu_total c;
  cuwf_bound : cu_left c < 2 ^ 63;
}.

(** * Lemmas *)

Lemma iov_sum_app vs ws : iov_sum (vs ++ ws) = iov_sum vs + iov_sum ws.
Proof. induction vs; simpl; lia. Qed.
Lemma iov_sum_nonneg vs : Forall iov_ok vs → 0 ≤ iov_sum vs.
Proof. induction 1 as [|v vs [_ ?] _ IH]; simpl; lia. Qed.
Lemma iov_valid vs : Forall iov_ok vs → IoVecs_IsValid vs = true.
Proof.
  intros Hf. apply forallb_forall. intros v Hv.
  rewrite <- list_elem_of_In in Hv. rewrite List.Forall_forall in Hf.
  destruct (Hf v) as [Hb Hl]; [by apply list_elem_of_In|]. unfold IoVec_IsValid.
  apply andb_true_intro. split; [apply negb_true_iff, Z.eqb_neq|apply Z.leb_le]; lia.
Qed.

Lemma span_addrs_length vs : Forall iov_ok vs → Z.of_nat (length (span_addrs vs)) = iov_sum vs.
Proof.
  induction 1 as [|v vs [_ Hv] _ IH]; [done|]. unfold span_addrs in *.
  rewrite fmap_cons. cbn [concat iov_sum foldr]. unfold iov_sum in IH.
  rewrite length_app, Nat2Z.inj_add, IH. unfold iov_addrs. rewrite length_seqZ. lia.
Qed.

Lemma drop_seqZ n a l : 0 ≤ n ≤ l → drop (Z.to_nat n) (seqZ a l) = seqZ (a + n) (l - n).
Proof.
  intros Hn. replace l with (n + (l - n)) at 1 by lia.
  rewrite seqZ_app by lia. apply drop_app_length'. rewrite length_seqZ. lia.
Qed.

(** The slow path drops exactly [bytes] addresses and keeps the items valid. *)
Lemma Advance_loop_spec items bytes : Forall iov_ok items → 0 ≤ bytes < iov_sum items →
  let '(n, items') := Advance_loop items bytes in
  (n < length items)%nat ∧ length items' = length items ∧ Forall iov_ok items' ∧
  iov_sum (drop n items') = iov_sum items - bytes ∧
  span_addrs (drop n items') = drop (Z.to_nat bytes) (span_addrs items).
Proof.
  intros Hf. revert bytes. induction Hf as [|v vs [Hb Hl] Hf IH]; intros bytes Hbytes; simpl in *; [lia|].
  destruct (bytes <? iov_len v) eqn:E; to_prop.
  - cbn [drop length]. split; [lia|]. split; [done|].
    split; [constructor; [split; simpl; lia|done]|]. split; [simpl; lia|].
    unfold span_addrs. rewrite !fmap_cons. cbn [concat]. unfold iov_addrs at 1 3. cbn [iov_base iov_len].
    rewrite drop_app_le by (rewrite length_seqZ; lia). by rewrite drop_seqZ by lia.
  - specialize (IH (bytes - iov_len v) ltac:(lia)).
    destruct (Advance_loop vs (bytes - iov_len v)) as [n items'].
    destruct IH as (Hn & Hlen & Hok & Hsum & Hsp). cbn [drop length].
    split; [lia|]. split; [lia|]. split; [constructor; [by split|done]|]. split; [lia|].
    rewrite Hsp. unfold span_addrs. rewrite fmap_cons. cbn [concat].
    rewrite drop_app_ge by (unfold iov_addrs; rewrite length_seqZ; lia).
    f_equal. unfold iov_addrs. rewrite length_seqZ. lia.
Qed.

Lemma cursor_wf_invariant c : cursor_wf c → cu_invariant c = true.
Proof.
  intros [Hi Hc Hl Ht Hb]. unfold cu_invariant.
  assert (Forall iov_ok (RemainingSpan c)) as Hr by by apply Forall_drop.
  pose proof (iov_sum_nonneg _ Hr).
  rewrite iov_valid, TotalLength_sum by (done || unfold fits; lia).
  repeat (apply andb_true_intro; split); try apply Z.leb_le; try apply Z.eqb_eq;
    try apply Nat.leb_le; done || lia.
Qed.

Lemma pending_length c : cursor_wf c → Z.of_nat (length (pending c)) = cu_left c.
Proof.
  intros [Hi Hc Hl Ht Hb]. rewrite Hl. apply span_addrs_length. by apply Forall_drop.
Qed.

Lemma IoVecCursor_new_spec iovs : Forall iov_ok iovs → 1 ≤ iov_sum iovs < 2 ^ 63 →
  ∃ c, IoVecCursor_new iovs = Ok c ∧ cursor_wf c ∧ pending c = span_addrs iovs ∧
       cu_left c = iov_sum iovs.
Proof.
  intros Hf Hs. unfold IoVecCursor_new.
  rewrite TotalLength_sum by (unfold fits; lia).
  assert (cursor_wf (mkIoVecCursor iovs 0 (iov_sum iovs) (iov_sum iovs))) as Hwf
    by (split; simpl; [done|lia|done|lia|lia]).
  rewrite !bind_dcheck by (first [by apply cursor_wf_invariant | apply Z.leb_le; lia | apply Z.ltb_lt; lia]).
  eauto.
Qed.

Lemma Advance_spec c bytes : cursor_wf c → 1 ≤ bytes ≤ cu_left c →
  ∃ c', Advance c bytes = Ok (c', bool_decide (pending c' = [])) ∧ cursor_wf c' ∧
    pending c' = drop (Z.to_nat bytes) (pending c) ∧
    cu_left c' = cu_left c - bytes ∧ TotalItems c' = TotalItems c ∧ cu_total c' = cu_total c.
Proof.
  intros Hwf Hb. pose proof (pending_length c Hwf) as Hpl. unfold Advance.
  rewrite 2!bind_dcheck by (apply Z.leb_le; lia).
  rewrite bind_dcheck by by apply cursor_wf_invariant.
  pose proof Hwf as [Hi Hc Hl Ht Hbd].
  destruct (cu_left c - bytes =? 0) eqn:E; to_prop.
  - assert (pending (mkIoVecCursor (cu_iovs c) (length (cu_iovs c)) (cu_left c - bytes) (cu_total c)) = [])
      as Hp by (unfold pending, RemainingSpan; simpl; by rewrite drop_all).
    eexists. split; [by rewrite bool_decide_true by exact Hp|]. split; [|split; [|split; [done|split; done]]].
    + split; simpl; [done|lia| |lia|lia]. unfold RemainingSpan. simpl. rewrite drop_all. simpl. lia.
    + rewrite Hp. symmetry. apply drop_ge. lia.
  - assert (Forall iov_ok (RemainingSpan c)) as Hr by by apply Forall_drop.
    pose proof (Advance_loop_spec (RemainingSpan c) bytes Hr ltac:(lia)) as Hloop.
    destruct (Advance_loop (RemainingSpan c) bytes) as [n items].
    destruct Hloop as (Hn & Hlen & Hok & Hsum & Hsp).
    unfold RemainingSpan in Hlen, Hn. rewrite length_drop in Hlen, Hn.
    set (c' := mkIoVecCursor _ _ _ _).
    assert (RemainingSpan c' = drop n items) as Hrs.
    { unfold RemainingSpan, c'. simpl. rewrite drop_app_ge by (rewrite length_take; lia).
      f_equal. rewrite length_take. lia. }
    assert (length (cu_iovs c') = length (cu_iovs c)) as Hlc
      by (simpl; rewrite length_app, length_take; lia).
    assert (cursor_wf c') as Hwf'.
    { split; [|rewrite Hlc; simpl; lia|rewrite Hrs; simpl; lia|simpl; lia|simpl; lia].
      apply Forall_app. split; [by apply Forall_take|done]. }
    pose proof (pending_length c' Hwf') as Hpl'. simpl in Hpl'.
    rewrite bind_dcheck by by apply cursor_wf_invariant.
    rewrite bind_dcheck by (apply Nat.ltb_lt; rewrite Hlc; simpl; lia).
    exists c'. split.
    { f_equal. f_equal. rewrite bool_decide_false by (intros Hp; rewrite Hp in Hpl'; simpl in Hpl'; lia).
      apply Nat.leb_gt. rewrite Hlc. simpl. lia. }
    split; [done|]. split; [unfold pending; by rewrite Hrs|]. done.
Qed.

(** * Properties *)

(** A sequence of [Advance] calls; stops at the first fault. *)
Fixpoint advance_all (c : IoVecCursor) (ns : list Z) : res IoVecCursor :=
  match ns with
  | [] => Ok c
  | n :: ns' => let* r := Advance c n in advance_all r.1 ns'
  end.

Definition zsum (ns : list Z) : Z := foldr Z.add 0 ns.

Lemma zsum_nonneg ns : Forall (λ n, 1 ≤ n) ns → 0 ≤ zsum ns.
Proof. induction 1 as [|n ns Hn _ IH]; simpl; lia. Qed.

Lemma advance_all_spec ns : ∀ c, cursor_wf c → Forall (λ n, 1 ≤ n) ns → zsum ns ≤ cu_left c →
  ∃ c', advance_all c ns = Ok c' ∧ cursor_wf c' ∧
    pending c' = drop (Z.to_nat (zsum ns)) (pending c) ∧ cu_left c' = cu_left c - zsum ns.
Proof.
  induction ns as [|n ns IH]; intros c Hwf Hn Hs; simpl in *.
  - exists c. rewrite drop_0. split; [done|]. split; [done|]. split; [done|lia].
  - inversion Hn as [|? ? Hn1 Hn2]; subst. clear Hn. rename Hn2 into Hn. pose proof (zsum_nonneg ns Hn).
    destruct (Advance_spec c n Hwf ltac:(lia)) as (c1 & -> & Hwf1 & Hp & Hl & _). simpl.
    destruct (IH c1 Hwf1 Hn ltac:(lia)) as (c' & -> & Hwf' & Hp' & Hl').
    exists c'. split; [done|]. split; [done|]. split; [|lia].
    rewrite Hp', Hp, drop_drop. f_equal. lia.
Qed.

(** The cursor is a queue of byte addresses.  From any sequence of non-empty buffers of
    fewer than 2^63 bytes, any sequence of [Advance] calls that stays within the total
    passes every assertion and leaves exactly the addresses after the first [sum]
    bytes, in order; a further legal [Advance] returns true exactly when it consumes
    the rest. *)
Theorem IoVecCursor_advance_exact (iovs : list IoVec) (ns : list Z) (n : Z) :
  Forall iov_ok iovs → 1 ≤ iov_sum iovs < 2 ^ 63 →
  Forall (λ k, 1 ≤ k) ns → 1 ≤ n → zsum ns + n ≤ iov_sum iovs →
  ∃ c c1 c2 last, IoVecCursor_new iovs = Ok c ∧ advance_all c ns = Ok c1 ∧
    pending c1 = drop (Z.to_nat (zsum ns)) (span_addrs iovs) ∧
    Advance c1 n = Ok (c2, last) ∧
    pending c2 = drop (Z.to_nat (zsum ns + n)) (span_addrs iovs) ∧
    (last = true ↔ zsum ns + n = iov_sum iovs).
Proof.
  intros Hf Hs Hns Hn Hle.
  destruct (IoVecCursor_new_spec iovs Hf Hs) as (c & Hc & Hwf & Hp & Hl).
  destruct (advance_all_spec ns c Hwf Hns ltac:(lia)) as (c1 & H1 & Hwf1 & Hp1 & Hl1).
  destruct (Advance_spec c1 n Hwf1 ltac:(lia)) as (c2 & H2 & Hwf2 & Hp2 & Hl2 & _).
  exists c, c1, c2. eexists. split; [done|]. split; [done|]. split; [by rewrite Hp1, Hp|].
  split; [exact H2|]. pose proof (zsum_nonneg ns Hns).
  split; [rewrite Hp2, Hp1, Hp, drop_drop; f_equal; lia|].
  pose proof (pending_length c2 Hwf2) as Hpl.
  rewrite bool_decide_eq_true, <- length_zero_iff_nil. lia.
Qed.

Lemma IoVecCursor_advance_exact_witness : ∃ c c1 c2,
  IoVecCursor_new [mkIoVec 100 3; mkIoVec 200 2] = Ok c ∧ advance_all c [2; 2] = Ok c1 ∧
  pending c1 = [201] ∧ Advance c1 1 = Ok (c2, true).
Proof.
  edestruct (IoVecCursor_advance_exact [mkIoVec 100 3; mkIoVec 200 2] [2; 2] 1)
    as (c & c1 & c2 & l & H1 & H2 & H3 & H4 & _ & H5);
    [repeat constructor; done | done | repeat constructor; done | done | done |].
  exists c, c1, c2. split; [done|]. split; [done|]. split; [done|].
  rewrite H4. by rewrite (proj2 H5).
Defined.
