(* ===== verification/Channel.v ===== *)
(** The channel abstraction: the type flags of [channel/channel_type.h], the interface of
    [channel/channel.h] as a class of operations, and its contract for a reliable stream
    and for a message channel.  Clients ([Transfer]) are proved against the contract;
    [MemChannel] discharges it.

    A [Write] gathers the buffers of its iovecs, so it takes their contents; a [Read]
    scatters what it reads over the iovecs in order, so it takes their lengths and
    returns the bytes it stored beside the [ssize_t] result. *)

From stdpp Require Import base tactics list list_numbers numbers.
From S2P Require Import Prelude Codec Types IpAddr Endpoint.
Local Open Scope Z_scope.

(** * Channel types *)

(** [t_]: bits 3..0 are fake, two-sided, message and lossy. *)
Record ChannelType := mkChannelType { t_ : Z }.
#[export] Instance ChannelType_eq_dec : EqDecision ChannelType.
Proof. solve_decision. Defined.

Definition Property_kFake : Z := Z.shiftl 1 3.
Definition Property_kSide : Z := Z.shiftl 1 2.
Definition Property_kBoundary : Z := Z.shiftl 1 1.
Definition Property_kLoss : Z := Z.shiftl 1 0.

Definition IsLosslessChannel (t : ChannelType) : bool := Z.land (t_ t) Property_kLoss =? 0.
Definition IsLossyChannel (t : ChannelType) : bool := negb (IsLosslessChannel t).
Definition IsStreamChannel (t : ChannelType) : bool := Z.land (t_ t) Property_kBoundary =? 0.
Definition IsMessageChannel (t : ChannelType) : bool := negb (IsStreamChannel t).
Definition IsOneSidedChannel (t : ChannelType) : bool := Z.land (t_ t) Property_kSide =? 0.
Definition IsTwoSidedChannel (t : ChannelType) : bool := negb (IsOneSidedChannel t).
Definition IsRealChannel (t : ChannelType) : bool := Z.land (t_ t) Property_kFake =? 0.
Definition IsFakeChannel (t : ChannelType) : bool := negb (IsRealChannel t).

Definition kTCP : ChannelType := mkChannelType (Z.lor (Z.lor (Z.lor 0 4) 0) 0).
Definition kUDP : ChannelType := mkChannelType (Z.lor (Z.lor (Z.lor 0 4) 2) 1).
Definition kRDMA : ChannelType := mkChannelType (Z.lor (Z.lor (Z.lor 0 0) 2) 0).
Definition kMemMsg : ChannelType := mkChannelType (Z.lor (Z.lor (Z.lor 8 4) 2) 1).
Definition kMemStream : ChannelType := mkChannelType (Z.lor (Z.lor (Z.lor 8 4) 0) 0).

(** * Interface *)

Class Channel (C : Type) := {
  Type_ : C → ChannelType;
  GetPeer : C → Endpoint;
  SetPeer : C → Endpoint → C;
  Write : C → list bytes → res (C * Z);
  Read : C → list Z → res (C * Z * bytes);
  Shutdown : C → C;
}.

(** [IOV_MAX] of <limits.h>: the longest vector of buffers the socket channels take. *)
Definition IOV_MAX : Z := 1024.

Definition total (segs : list bytes) : Z := Z.of_nat (length (concat segs)).
Definition lsum (lens : list Z) : Z := foldr Z.add 0 lens.

(** * Contract of a reliable stream

    [inbound c] are the bytes that have arrived and are not read yet, [outbound c] the
    bytes written so far and not yet taken by the peer, in order; [usable c] says the
    channel is open. *)
Class StreamChannel (C : Type) `{Channel C} := {
  inbound : C → bytes;
  outbound : C → bytes;
  usable : C → Prop;
}.

Class StreamLaws (C : Type) `{StreamChannel C} := {
  st_type : ∀ c, IsStreamChannel (Type_ c) = true ∧ IsLosslessChannel (Type_ c) = true ∧
                 IsTwoSidedChannel (Type_ c) = true;
  st_get_set : ∀ c p, GetPeer (SetPeer c p) = p;
  st_set : ∀ c p, inbound (SetPeer c p) = inbound c ∧ outbound (SetPeer c p) = outbound c ∧
                  (usable c → usable (SetPeer c p));
  (* every buffer is non-empty and there are not too many, as the channels assert *)
  st_write : ∀ c segs, usable c → segs ≠ [] → Forall (λ s, s ≠ []) segs →
    Z.of_nat (length segs) ≤ IOV_MAX → total segs < 2 ^ 63 →
    ∃ c', Write c segs = Ok (c', total segs) ∧ usable c' ∧ GetPeer c' = GetPeer c ∧
          inbound c' = inbound c ∧ outbound c' = outbound c ++ concat segs;
  st_read : ∀ c n, usable c → 0 < n < 2 ^ 63 → n ≤ Z.of_nat (length (inbound c)) →
    ∃ c', Read c [n] = Ok (c', n, take (Z.to_nat n) (inbound c)) ∧ usable c' ∧
          GetPeer c' = GetPeer c ∧
          inbound c' = drop (Z.to_nat n) (inbound c) ∧ outbound c' = outbound c;
}.

(** * Contract of a message channel: packets keep their boundaries *)
Class MessageChannel (C : Type) `{Channel C} := {
  in_packets : C → list bytes;
  out_packets : C → list bytes;
  msg_usable : C → Prop;
}.

Class MessageLaws (C : Type) `{MessageChannel C} := {
  ms_type : ∀ c, IsMessageChannel (Type_ c) = true;
  ms_get_set : ∀ c p, GetPeer (SetPeer c p) = p;
  ms_set : ∀ c p, in_packets (SetPeer c p) = in_packets c ∧
     out_packets (SetPeer c p) = out_packets c ∧ (msg_usable c → msg_usable (SetPeer c p));
  ms_write : ∀ c segs, msg_usable c → segs ≠ [] → Forall (λ s, s ≠ []) segs →
    Z.of_nat (length segs) ≤ IOV_MAX → total segs < 2 ^ 63 →
    ∃ c', Write c segs = Ok (c', total segs) ∧ msg_usable c' ∧ GetPeer c' = GetPeer c ∧
          in_packets c' = in_packets c ∧ out_packets c' = out_packets c ++ [concat segs];
  ms_read : ∀ c n p ps, msg_usable c → 0 < n < 2 ^ 63 → in_packets c = p :: ps → p ≠ [] →
    Z.of_nat (length p) ≤ n →
    ∃ c', Read c [n] = Ok (c', Z.of_nat (length p), p) ∧ msg_usable c' ∧
          GetPeer c' = GetPeer c ∧ in_packets c' = ps ∧ out_packets c' = out_packets c;
}.
