(* ===== verification/MemChannel.v ===== *)
(** In-process channels: [channel/pipe.{h,cc}], [channel/channel_stream.{h,cc}] and
    [channel/channel_msg.{h,cc}].  The two ends of a [BidiPipe] share their pipes, so the
    state of a pair of channels is one store, [Duplex], and each end is an instance of
    [Channel] on it.  [error()] draws from a random source, a list of the values still
    to be drawn.  Waiting on a pipe that has no data and is not shut down is [Blocked]. *)

From stdpp Require Import base tactics list list_numbers numbers.
From S2P Require Import Prelude Codec Types IpAddr Endpoint Channel.
Local Open Scope Z_scope.

(** * Pipes *)

Record MemPipe := mkMemPipe { mp_shutdown : bool; mp_queue : list bytes }.
Definition MemPipe_new : MemPipe := mkMemPipe false [].
Definition MemPipe_HasData (p : MemPipe) : bool :=
  negb (bool_decide (mp_queue p = [])) || mp_shutdown p.
Definition MemPipe_Shutdown (p : MemPipe) : MemPipe := mkMemPipe true (mp_queue p).

(** One end: what each [Channel] object keeps beside its two pipes. *)
Record MemEnd := mkMemEnd { me_error_rate : Z; me_random : list Z; me_peer : Endpoint }.

Definition MemEnd_new (error_rate : Z) (random : list Z) : MemEnd :=
  mkMemEnd (clamp error_rate 0 100) random Endpoint_default.

(** The pair of crossed pipes of [BidiPipe::Create] with both channel objects. *)
Record Duplex := mkDuplex { dx_p1 : MemPipe; dx_p2 : MemPipe; dx_e1 : MemEnd; dx_e2 : MemEnd }.
Definition BidiPipe_Create (e1 e2 : MemEnd) : Duplex := mkDuplex MemPipe_new MemPipe_new e1 e2.

(** Side [true] reads [p1] and writes [p2]; side [false] the other way round. *)
Definition in_pipe (side : bool) (d : Duplex) : MemPipe := if side then dx_p1 d else dx_p2 d.
Definition out_pipe (side : bool) (d : Duplex) : MemPipe := in_pipe (negb side) d.
Definition set_in (side : bool) (d : Duplex) (p : MemPipe) : Duplex :=
  if side then mkDuplex p (dx_p2 d) (dx_e1 d) (dx_e2 d)
  else mkDuplex (dx_p1 d) p (dx_e1 d) (dx_e2 d).
Definition set_out (side : bool) (d : Duplex) (p : MemPipe) : Duplex := set_in (negb side) d p.
Definition endpoint_of (side : bool) (d : Duplex) : MemEnd := if side then dx_e1 d else dx_e2 d.
Definition set_end (side : bool) (d : Duplex) (e : MemEnd) : Duplex :=
  if side then mkDuplex (dx_p1 d) (dx_p2 d) e (dx_e2 d)
  else mkDuplex (dx_p1 d) (dx_p2 d) (dx_e1 d) e.

Definition mem_GetPeer (side : bool) (d : Duplex) : Endpoint := me_peer (endpoint_of side d).
Definition mem_SetPeer (side : bool) (d : Duplex) (p : Endpoint) : Duplex :=
  let e := endpoint_of side d in
  set_end side d (mkMemEnd (me_error_rate e) (me_random e) p).
Definition mem_Shutdown (side : bool) (d : Duplex) : Duplex :=
  let d1 := set_in side d (MemPipe_Shutdown (in_pipe side d)) in
  set_out side d1 (MemPipe_Shutdown (out_pipe side d1)).

(** [error()]; the random source is left alone at rate 0. *)
Definition mem_error (rate : Z) (rnd : list Z) : bool * list Z :=
  if rate <=? 0 then (false, rnd)
  else match rnd with [] => (false, []) | r :: rnd' => (r <=? rate, rnd') end.

Definition set_random (side : bool) (d : Duplex) (rnd : list Z) : Duplex :=
  let e := endpoint_of side d in set_end side d (mkMemEnd (me_error_rate e) rnd (me_peer e)).

Definition valid_segs (segs : list bytes) : bool := forallb (λ s, 1 <=? Z.of_nat (length s)) segs.

(** * [MemStreamChannel] *)

Definition stream_Write (side : bool) (d : Duplex) (segs : list bytes) : res (Duplex * Z) :=
  do* dcheck (valid_segs segs);
  do* dcheck (1 <=? total segs);
  let p := out_pipe side d in
  if mp_shutdown p then Ok (d, -1)
  else Ok (set_out side d (mkMemPipe false (mp_queue p ++ segs)), total segs).

(** [rcvd ?: -1] *)
Definition or_minus_one (rcvd : Z) : Z := if rcvd =? 0 then -1 else rcvd.

(** The loop of [read]: queue, random source, result and the bytes stored in [buf]. *)
Fixpoint stream_read_loop (rate : Z) (rnd : list Z) (q : list bytes) (left : Z) (got : bytes)
    : list bytes * list Z * Z * bytes :=
  if left =? 0 then (q, rnd, Z.of_nat (length got), got)
  else match q with
  | [] => ([], rnd, or_minus_one (Z.of_nat (length got)), got)
  | b :: q' =>
      let '(err, rnd') := mem_error rate rnd in
      let size := Z.of_nat (length b) in
      if err : bool then (q', rnd', or_minus_one (Z.of_nat (length got)), got)
      else if size =? 0 then stream_read_loop rate rnd' q' left got
      else if size <=? left then stream_read_loop rate rnd' q' (left - size) (got ++ b)
      else (drop (Z.to_nat left) b :: q', rnd', Z.of_nat (length got) + left,
            got ++ take (Z.to_nat left) b)
  end.

Definition stream_read (side : bool) (d : Duplex) (len : Z) : res (Duplex * Z * bytes) :=
  do* dcheck (1 <=? len);
  let p := in_pipe side d in
  if negb (MemPipe_HasData p) then Fault Blocked
  else if bool_decide (mp_queue p = []) then
    do* dcheck (mp_shutdown p); Ok (d, 0, [])
  else
    let e := endpoint_of side d in
    let '(q, rnd, n, got) := stream_read_loop (me_error_rate e) (me_random e) (mp_queue p) len [] in
    Ok (set_random side (set_in side d (mkMemPipe (mp_shutdown p) q)) rnd, n, got).

Fixpoint stream_Read_loop (side : bool) (d : Duplex) (lens : list Z) (total : Z) (got : bytes)
    : res (Duplex * Z * bytes) :=
  match lens with
  | [] => Ok (d, total, got)
  | len :: lens' =>
      let* '(d', n, b) := stream_read side d len in
      if n <=? 0 then Ok (d', if total =? 0 then n else total, got ++ b)
      else if n <? len then Ok (d', total + n, got ++ b)
      else stream_Read_loop side d' lens' (total + n) (got ++ b)
  end.

Definition stream_Read (side : bool) (d : Duplex) (lens : list Z) : res (Duplex * Z * bytes) :=
  do* dcheck (forallb (λ n, 1 <=? n) lens);
  do* dcheck (1 <=? u64 (lsum lens));
  stream_Read_loop side d lens 0 [].

Definition MemStreamChannel (side : bool) : Channel Duplex := {|
  Type_ := λ _, kMemStream; GetPeer := mem_GetPeer side; SetPeer := mem_SetPeer side;
  Write := stream_Write side; Read := stream_Read side; Shutdown := mem_Shutdown side |}.

(** * [MemMsgChannel] *)

Definition msg_Write (side : bool) (d : Duplex) (segs : list bytes) : res (Duplex * Z) :=
  do* dcheck (valid_segs segs);
  do* dcheck (1 <=? total segs);
  let p := out_pipe side d in
  if mp_shutdown p then Ok (d, -1)
  else Ok (set_out side d (mkMemPipe false (mp_queue p ++ [concat segs])), total segs).

(** The scatter loop: size left to place, offset. *)
Fixpoint msg_scatter (lens : list Z) (size offset : Z) : Z * Z :=
  match lens with
  | [] => (size, offset)
  | len :: lens' => if size <=? len then (0, offset + size)
                    else msg_scatter lens' (size - len) (offset + len)
  end.

Definition msg_Read (side : bool) (d : Duplex) (lens : list Z) : res (Duplex * Z * bytes) :=
  do* dcheck (forallb (λ n, 1 <=? n) lens);
  do* dcheck (1 <=? u64 (lsum lens));
  let p := in_pipe side d in
  if negb (MemPipe_HasData p) then Fault Blocked
  else match mp_queue p with
  | [] => do* dcheck (mp_shutdown p); Ok (d, 0, [])
  | b :: q =>
      let e := endpoint_of side d in
      let '(err, rnd) := mem_error (me_error_rate e) (me_random e) in
      let d' := set_random side (set_in side d (mkMemPipe (mp_shutdown p) q)) rnd in
      let size := Z.of_nat (length b) in
      if err : bool then Ok (d', -1, [])
      else if size =? 0 then Ok (d', 0, [])
      else if u64 (lsum lens) <? size then Ok (d', -1, [])
      else
        let '(rest, offset) := msg_scatter lens size 0 in
        do* dcheck (rest =? 0);
        Ok (d', offset, take (Z.to_nat offset) b)
  end.

Definition MemMsgChannel (side : bool) : Channel Duplex := {|
  Type_ := λ _, kMemMsg; GetPeer := mem_GetPeer side; SetPeer := mem_SetPeer side;
  Write := msg_Write side; Read := msg_Read side; Shutdown := mem_Shutdown side |}.

(** * The contracts *)

(** The writing direction is open and reads never draw an error. *)
Definition mem_usable (side : bool) (d : Duplex) : Prop :=
  mp_shutdown (out_pipe side d) = false ∧ me_error_rate (endpoint_of side d) ≤ 0.

Definition mem_stream (side : bool) : @StreamChannel Duplex (MemStreamChannel side) :=
  Build_StreamChannel Duplex (MemStreamChannel side)
    (λ d, concat (mp_queue (in_pipe side d))) (λ d, concat (mp_queue (out_pipe side d)))
    (mem_usable side).

Definition mem_msg (side : bool) : @MessageChannel Duplex (MemMsgChannel side) :=
  Build_MessageChannel Duplex (MemMsgChannel side)
    (λ d, mp_queue (in_pipe side d)) (λ d, mp_queue (out_pipe side d)) (mem_usable side).

Lemma valid_segs_ok segs : Forall (λ s, s ≠ []) segs → valid_segs segs = true.
Proof.
  induction 1 as [|s segs Hs _ IH]; [done|]. unfold valid_segs in *. cbn [forallb]. rewrite IH.
  destruct s; [done|]. simpl. apply andb_true_intro. split; [apply Z.leb_le; lia|done].
Qed.

Lemma total_pos segs : segs ≠ [] → Forall (λ s, s ≠ []) segs → 1 ≤ total segs.
Proof.
  intros Hne Hf. destruct segs as [|s segs]; [done|]. inversion Hf as [|? ? Hs _]; subst.
  unfold total. cbn [concat]. rewrite length_app. destruct s; [done|]. simpl. lia.
Qed.

(** The loop reads the next [left] bytes of the stream when they are there. *)
Lemma stream_read_loop_spec rate rnd q left got : rate ≤ 0 → 0 ≤ left →
  left ≤ Z.of_nat (length (concat q)) →
  ∃ q', stream_read_loop rate rnd q left got =
    (q', rnd, Z.of_nat (length got) + left, got ++ take (Z.to_nat left) (concat q)) ∧
    concat q' = drop (Z.to_nat left) (concat q).
Proof.
  intros Hr. revert left got.
  induction q as [|b q IH]; intros left got Hl Hle; cbn [stream_read_loop concat] in *.
  - simpl in Hle. assert (left = 0) as -> by lia. exists []. rewrite app_nil_r, Z.add_0_r. done.
  - destruct (left =? 0) eqn:E0; to_prop.
    { subst. exists (b :: q). rewrite app_nil_r, Z.add_0_r. done. }
    unfold mem_error. rewrite (proj2 (Z.leb_le rate 0)) by lia.
    rewrite length_app in Hle.
    destruct (Z.of_nat (length b) =? 0) eqn:Es; to_prop.
    { destruct b; [|simpl in Es; lia]. apply IH; simpl in *; lia. }
    destruct (Z.of_nat (length b) <=? left) eqn:El; to_prop.
    + destruct (IH (left - Z.of_nat (length b)) (got ++ b)) as (q' & -> & Hq'); [lia..|].
      exists q'. split.
      * rewrite length_app, <- app_assoc, take_app_ge by lia.
        f_equal; [f_equal; lia|]. do 3 f_equal. lia.
      * rewrite Hq', drop_app_ge by lia. f_equal. lia.
    + eexists. split; [by rewrite take_app_le by lia|].
      cbn [concat]. by rewrite drop_app_le by lia.
Qed.

Lemma MemStreamChannel_laws side : @StreamLaws Duplex _ (mem_stream side).
Proof.
  split.
  - done.
  - intros c p. by destruct side.
  - intros c p. by destruct side.
  - intros c segs [Ho He] Hne Hf Ht. simpl in *. unfold stream_Write.
    rewrite bind_dcheck by by apply valid_segs_ok.
    rewrite bind_dcheck by by apply Z.leb_le, total_pos. rewrite Ho.
    eexists. split; [done|]. destruct side; simpl in *; (split; [done|]; split; [done|]; split; [done|]);
      by rewrite concat_app.
  - intros c n [Ho He] Hn Hl. simpl in *. unfold stream_Read. cbn [forallb lsum foldr].
    rewrite bind_dcheck by (rewrite andb_true_r; apply Z.leb_le; lia).
    rewrite bind_dcheck by (rewrite Z.add_0_r, wrap_small by (unfold fits; lia); apply Z.leb_le; lia).
    cbn [stream_Read_loop]. unfold stream_read. rewrite bind_dcheck by (apply Z.leb_le; lia).
    assert (mp_queue (in_pipe side c) ≠ []) as Hq by (intros E; rewrite E in Hl; simpl in Hl; lia).
    unfold MemPipe_HasData. rewrite bool_decide_false by done. cbn [negb orb].
    destruct (stream_read_loop_spec (me_error_rate (endpoint_of side c)) (me_random (endpoint_of side c))
      (mp_queue (in_pipe side c)) n []) as (q' & -> & Hq'); [lia..|].
    rewrite bind_Ok. cbn [length app]. rewrite (proj2 (Z.leb_gt _ 0)) by lia.
    rewrite Z.add_0_l, Z.ltb_irrefl.
    eexists. split; [done|]. destruct side; simpl; done.
Qed.

Lemma MemMsgChannel_laws side : @MessageLaws Duplex _ (mem_msg side).
Proof.
  split.
  - done.
  - intros c p. by destruct side.
  - intros c p. by destruct side.
  - intros c segs [Ho He] Hne Hf Ht. simpl in *. unfold msg_Write.
    rewrite bind_dcheck by by apply valid_segs_ok.
    rewrite bind_dcheck by by apply Z.leb_le, total_pos. rewrite Ho.
    eexists. split; [done|]. by destruct side.
  - intros c n p ps [Ho He] Hn Hq Hp Hl. simpl in *. unfold msg_Read. cbn [forallb lsum foldr].
    rewrite bind_dcheck by (rewrite andb_true_r; apply Z.leb_le; lia).
    rewrite bind_dcheck by (rewrite Z.add_0_r, wrap_small by (unfold fits; lia); apply Z.leb_le; lia).
    unfold MemPipe_HasData. rewrite Hq, bool_decide_false by done. cbn [negb orb].
    unfold mem_error. rewrite (proj2 (Z.leb_le _ 0)) by lia.
    destruct p as [|x p]; [done|].
    rewrite (proj2 (Z.eqb_neq (Z.of_nat (length (x :: p))) 0)) by (simpl; lia).
    rewrite Z.add_0_r, wrap_small by (unfold fits; lia). rewrite (proj2 (Z.ltb_ge n _)) by lia.
    cbn [msg_scatter]. rewrite (proj2 (Z.leb_le _ n)) by lia. rewrite bind_dcheck by done.
    rewrite Z.add_0_l, Nat2Z.id, firstn_all. eexists. split; [done|]. by destruct side.
Qed.

(** What one side writes is what the other side reads: the two views are one queue. *)
Lemma mem_stream_crossed side d :
  @outbound _ _ (mem_stream side) d = @inbound _ _ (mem_stream (negb side)) d.
Proof. done. Qed.

(** * Properties *)

(** Bytes written to one end of an in-memory stream are read at the other end, in
    order and none missing: after any two writes at one end, reading any positive number
    of bytes up to their total at the other end stores exactly that prefix, and leaves
    the rest to be read. *)
Theorem MemStream_fifo (side : bool) (d d1 d2 : Duplex) (a b : list bytes) (n1 n2 : Z) (n : Z) :
  in_pipe (negb side) d = MemPipe_new → me_error_rate (endpoint_of (negb side) d) ≤ 0 →
  stream_Write side d a = Ok (d1, n1) → stream_Write side d1 b = Ok (d2, n2) →
  0 < n ≤ total (a ++ b) → total (a ++ b) < 2 ^ 63 → mp_shutdown (in_pipe side d) = false →
  n1 + n2 = total (a ++ b) ∧
  ∃ d3, stream_Read (negb side) d2 [n] = Ok (d3, n, take (Z.to_nat n) (concat (a ++ b))) ∧
        concat (mp_queue (in_pipe (negb side) d3)) = drop (Z.to_nat n) (concat (a ++ b)).
Proof.
  intros Hin He Ha Hb Hn Hmax Hsd. unfold stream_Write, out_pipe in Ha. rewrite Hin in Ha.
  res_inv. cbn [mp_shutdown MemPipe_new] in Ha. simplify_eq.
  unfold stream_Write, out_pipe, set_out in Hb.
  assert (in_pipe (negb side) (set_in (negb side) d (mkMemPipe false a)) = mkMemPipe false a)
    as E by (by destruct side).
  rewrite E in Hb. res_inv. cbn [mp_shutdown mp_queue] in Hb. simplify_eq.
  split; [unfold total; rewrite concat_app, length_app; lia|].
  edestruct (@st_read _ _ _ (MemStreamChannel_laws (negb side))) as (d3 & E3 & _ & _ & Hq & _);
    [..|exists d3; split].
  4: { etransitivity; [exact E3|]. do 2 f_equal. simpl. by destruct side. }
  - destruct side; simpl in *; split; done.
  - lia.
  - unfold total in Hn. destruct side; simpl in *; lia.
  - etransitivity; [exact Hq|]. by destruct side.
Qed.

Definition dx_sample : Duplex := BidiPipe_Create (MemEnd_new 0 []) (MemEnd_new 0 []).

Definition dx_sample1 : Duplex := set_in false dx_sample (mkMemPipe false [[1; 2]]).
Definition dx_sample2 : Duplex := set_in false dx_sample (mkMemPipe false [[1; 2]; [3]; [4; 5]]).

Lemma MemStream_fifo_witness : ∃ d3,
  stream_Write true dx_sample [[1; 2]] = Ok (dx_sample1, 2) ∧
  stream_Write true dx_sample1 [[3]; [4; 5]] = Ok (dx_sample2, 3) ∧
  stream_Read false dx_sample2 [4] = Ok (d3, 4, [1; 2; 3; 4]).
Proof.
  destruct (MemStream_fifo true dx_sample dx_sample1 dx_sample2 [[1; 2]] [[3]; [4; 5]] 2 3 4)
    as [_ (d3 & E & _)];
    [done | done | vm_compute; reflexivity | vm_compute; reflexivity
    | split; vm_compute; done | vm_compute; done | done |].
  exists d3. split; [vm_compute; reflexivity|]. split; [vm_compute; reflexivity|]. exact E.
Defined.
