(* ===== verification/RequestTracker.v ===== *)
(** [class RequestTracker] of [request/request_tracker.{h,cc}]: progress of every chunk of
    every request, per (peer, handle).

    Each public method is one critical section of [trackers_mu_] followed by calls made
    without the lock; a method here returns the new tracker, its result, and the list of
    those calls in order ([event]): user callbacks, latency metrics and trace records.
    [util::MonoNowUs()] is an argument.  User callbacks are identified by an integer;
    [resolve_addr_callback_] is a function.  The hash map that the code iterates over is a
    [gmap], whose order stands for the unspecified order of [flat_hash_map].  The
    [nullptr] that [req_map[reqid]] holds for a moment in [FindOrCreate] is never visible
    outside its critical section, so a mapped request always exists. *)

From stdpp Require Import base tactics list list_numbers numbers gmap fin_maps.
From S2P Require Import Prelude Codec Types IpAddr Endpoint Bitset ChunkTracker Header.
Local Open Scope Z_scope.

(** * Data *)

Record ReqTracker := mkReqTracker {
  rt_chunks : ChunkTracker; rt_raddr : Z; rt_metadata : Metadata;
}.
Abbreviation ReqMap := (gmap ReqId ReqTracker).

Record PostTracker := mkPostTracker {
  pt_req_map : ReqMap;
  pt_pending_reqs : Z;
  pt_metadata : Metadata;
  pt_start_mono_us : Z;
  pt_on_complete : option Z;         (* the callback's identity *)
  pt_trace_ctx : bool;               (* TraceContext::is_traced *)
  pt_is_initiator : bool;
}.
Definition PostTracker_default : PostTracker :=
  mkPostTracker ∅ 0 Metadata_zero 0 None false false.

Abbreviation Key := (Endpoint * Handle)%type.

Record RequestTracker := mkRequestTracker {
  rk_trackers : gmap Key PostTracker;
  rk_recv_post : bool;                                  (* recv_post_callback_ != nullptr *)
  rk_resolve : option (Metadata → Metadata → Z);        (* resolve_addr_callback_ *)
  rk_on_recv_read : bool;                               (* on_recv_read_ != nullptr *)
}.
Definition RequestTracker_new (recv_post : bool) (resolve : option (Metadata → Metadata → Z))
    (on_recv_read : bool) : RequestTracker :=
  mkRequestTracker ∅ recv_post resolve on_recv_read.

(** Calls made by a method, in order. *)
Inductive event : Type :=
  | EvComplete (callback : Z) (s : Status)
  | EvRecvPost (s : Status) (post_meta : Metadata) (req_metas : list Metadata)
  | EvRecvRead (peer : Endpoint) (h : Handle) (reqs : list RequestInfo)
  | EvReadLatency (us : Z)
  | EvWriteLatency (us : Z)
  | EvRecvPostLatency (us : Z)
  | EvPollReaped (traced : bool) (h : Handle)
  | EvRequestDone (traced : bool) (h : Handle) (reqid : ReqId) (index worker_id : Z)
  | EvAllRequestsDone (traced : bool) (h : Handle) (reqid : ReqId) (index worker_id : Z)
  | EvCallbackDone (traced : bool) (h : Handle) (worker_id : Z)
  | EvTxAckRcvd (h : DataHeader)
  (* calls of the worker and the engine *)
  | EvWorkerEnqueued (h : DataHeader) (worker_id : Z)
  | EvWorkerDequeued (h : DataHeader) (worker_id : Z)
  | EvTxWriteDone (h : DataHeader) (worker_id : Z)
  | EvWriteBytes (n : Z)
  | EvErrors (is_write : bool)
  | EvRequestSize (is_write : bool) (len : Z)
  | EvEngineEnqueued (traced : bool) (h : Handle) (start_us num_reqs : Z) (op : Op)
  | EvEngineDequeued (traced : bool) (h : Handle) (reqid : ReqId) (req : Request).

(** ** Field updates *)

Definition with_trackers (rk : RequestTracker) (m : gmap Key PostTracker) : RequestTracker :=
  mkRequestTracker m (rk_recv_post rk) (rk_resolve rk) (rk_on_recv_read rk).
Definition with_req_map (pt : PostTracker) (m : ReqMap) : PostTracker :=
  mkPostTracker m (pt_pending_reqs pt) (pt_metadata pt) (pt_start_mono_us pt)
    (pt_on_complete pt) (pt_trace_ctx pt) (pt_is_initiator pt).
Definition with_pending (pt : PostTracker) (n : Z) : PostTracker :=
  mkPostTracker (pt_req_map pt) n (pt_metadata pt) (pt_start_mono_us pt)
    (pt_on_complete pt) (pt_trace_ctx pt) (pt_is_initiator pt).
Definition with_chunks (r : ReqTracker) (t : ChunkTracker) : ReqTracker :=
  mkReqTracker t (rt_raddr r) (rt_metadata r).
Definition put (rk : RequestTracker) (k : Key) (pt : PostTracker) : RequestTracker :=
  with_trackers rk (<[k := pt]> (rk_trackers rk)).
Definition erase (rk : RequestTracker) (k : Key) : RequestTracker :=
  with_trackers rk (delete k (rk_trackers rk)).

(** * Operations *)

Definition RequestTracker_IsEmpty (rk : RequestTracker) : bool := bool_decide (rk_trackers rk = ∅).

Definition isComplete (pt : PostTracker) : bool :=
  negb (bool_decide (pt_req_map pt = ∅)) &&
  forallb (λ kv, ChunkTracker_IsDone (rt_chunks kv.2)) (map_to_list (pt_req_map pt)).

Definition Check_ (rk : RequestTracker) (handle : Handle) (peer : Endpoint) : Status :=
  match rk_trackers rk !! (peer, handle) with
  | None => kNotFound
  | Some pt => if negb (isComplete pt) then kInProgress else kSuccess
  end.

(** [Add(handle, start_mono_us, on_complete, trace_ctx)]. *)
Definition Add_handle (rk : RequestTracker) (handle : Handle) (start_mono_us : Z)
    (on_complete : option Z) (trace_ctx : bool) : RequestTracker * bool :=
  let pt := mkPostTracker ∅ 0 Metadata_zero start_mono_us on_complete trace_ctx true in
  match rk_trackers rk !! (Endpoint_default, handle) with
  | Some _ => (rk, false)
  | None => (put rk (Endpoint_default, handle) pt, true)
  end.

Definition resolve_raddr (rk : RequestTracker) (metadata : Metadata) (req : RequestInfo) : Z :=
  if ri_raddr req =? 0 then
    match rk_resolve rk with Some f => f metadata (ri_metadata req) | None => ri_raddr req end
  else ri_raddr req.

Definition with_raddr (req : RequestInfo) (raddr : Z) : RequestInfo :=
  mkRequestInfo (ri_reqid req) (ri_nchunks req) raddr (ri_total_len req) (ri_op req)
    (ri_recipe req) (ri_metadata req).

(** The loop of [Add]: [None] when a request's address is unresolved. *)
Fixpoint Add_loop (rk : RequestTracker) (metadata : Metadata) (is_responder_read : bool)
    (reqs : list RequestInfo) (pt : PostTracker) (resolved : list RequestInfo)
    : res (option (PostTracker * list RequestInfo)) :=
  match reqs with
  | [] => Ok (Some (pt, resolved))
  | req :: reqs' =>
      do* dcheck (RequestInfo_IsValid req);
      let raddr := resolve_raddr rk metadata req in
      if negb (pt_is_initiator pt) && (raddr =? 0) then Ok None
      else
        let* chunks := ChunkTracker_new (ri_nchunks req) in
        let r := mkReqTracker chunks raddr (ri_metadata req) in
        let pt' := with_req_map pt (<[ri_reqid req := r]> (pt_req_map pt)) in
        let resolved' := if is_responder_read then resolved ++ [with_raddr req raddr] else resolved in
        Add_loop rk metadata is_responder_read reqs' pt' resolved'
  end.

(** [Add(handle, reqs, start_us, metadata, peer)]. *)
Definition Add_reqs (rk : RequestTracker) (handle : Handle) (reqs : list RequestInfo)
    (start_us : Z) (metadata : Metadata) (peer : Endpoint)
    : res (RequestTracker * bool * list event) :=
  do* dcheck (negb (bool_decide (reqs = [])));
  let key := (peer, handle) in
  let inserted := bool_decide (rk_trackers rk !! key = None) in
  let pt := default PostTracker_default (rk_trackers rk !! key) in
  if negb (bool_decide (pt_req_map pt = ∅)) then Ok (rk, true, [])
  else
    let* req0 := at_or OutOfRange (head reqs) in
    let start := if negb (pt_is_initiator pt) && (ri_op req0 =? kWrite)
                 then start_us else pt_start_mono_us pt in
    let is_responder_read := (ri_op req0 =? kRead) && negb (pt_is_initiator pt) in
    let pending := if is_responder_read then 1 else Z.of_nat (length reqs) in
    let pt0 := mkPostTracker (pt_req_map pt) pending metadata start (pt_on_complete pt)
                 (pt_trace_ctx pt) (pt_is_initiator pt) in
    let* out := Add_loop rk metadata is_responder_read reqs pt0 [] in
    match out with
    | None =>
        if inserted then Ok (erase rk key, false, [])
        else Ok (put rk key (mkPostTracker ∅ 0 metadata 0 (pt_on_complete pt) (pt_trace_ctx pt)
                               (pt_is_initiator pt)), false, [])
    | Some (pt1, resolved) =>
        let evs := if is_responder_read && rk_on_recv_read rk
                   then [EvRecvRead peer handle resolved] else [] in
        Ok (put rk key pt1, true, evs)
    end.

Definition Remove (rk : RequestTracker) (handle : Handle) (peer : Endpoint)
    : RequestTracker * list event :=
  match rk_trackers rk !! (peer, handle) with
  | None => (rk, [])
  | Some pt => (erase rk (peer, handle), [EvPollReaped (pt_trace_ctx pt) handle])
  end.

Definition OnReqComplete (rk : RequestTracker) (handle : Handle) (peer : Endpoint) (now : Z)
    : res (RequestTracker * list event) :=
  let key := (peer, handle) in
  match rk_trackers rk !! key with
  | None => Ok (rk, [])
  | Some pt =>
      do* dcheck (0 <? pt_pending_reqs pt);
      let pt1 := with_pending pt (u64 (pt_pending_reqs pt - 1)) in
      if negb (pt_pending_reqs pt1 =? 0) then Ok (put rk key pt1, [])
      else if pt_is_initiator pt then
        let lat := if negb (pt_start_mono_us pt =? 0)
                   then [EvReadLatency (u64 (now - pt_start_mono_us pt))] else [] in
        match pt_on_complete pt with
        | Some cb => Ok (erase rk key, lat ++ [EvComplete cb kSuccess])
        | None => Ok (put rk key pt1, lat)
        end
      else
        let lat := if negb (pt_start_mono_us pt =? 0)
                   then [EvRecvPostLatency (u64 (now - pt_start_mono_us pt))] else [] in
        let cb := if rk_recv_post rk
                  then [EvRecvPost kSuccess (pt_metadata pt)
                          ((λ kv, rt_metadata kv.2) <$> map_to_list (pt_req_map pt))]
                  else [] in
        Ok (put rk key pt1, lat ++ cb)
  end.

Definition Update (rk : RequestTracker) (handle : Handle) (reqid : ReqId) (index worker_id : Z)
    (peer : Endpoint) (now : Z) : res (RequestTracker * list event) :=
  let key := (peer, handle) in
  match rk_trackers rk !! key with
  | None => Ok (rk, [])
  | Some pt =>
      let* r := at_or OutOfRange (pt_req_map pt !! reqid) in
      let* tracker := ChunkTracker_Set (rt_chunks r) index in
      let pt1 := with_req_map pt (<[reqid := with_chunks r tracker]> (pt_req_map pt)) in
      if negb (ChunkTracker_IsDone tracker) then Ok (put rk key pt1, [])
      else
        let ev1 := [EvRequestDone (pt_trace_ctx pt) handle reqid index worker_id] in
        if negb (isComplete pt1) then Ok (put rk key pt1, ev1)
        else
          let ev2 := ev1 ++ [EvAllRequestsDone (pt_trace_ctx pt) handle reqid index worker_id] in
          let lat := if negb (pt_start_mono_us pt =? 0)
                     then [EvWriteLatency (u64 (now - pt_start_mono_us pt))] else [] in
          match pt_on_complete pt with
          | Some cb => Ok (erase rk key,
              ev2 ++ lat ++ [EvComplete cb kSuccess; EvCallbackDone (pt_trace_ctx pt) handle worker_id])
          | None => Ok (put rk key pt1, ev2 ++ lat)
          end
  end.

(** 0 is [nullptr]. *)
Definition GetChunkAddr (rk : RequestTracker) (handle : Handle) (reqid : ReqId)
    (byte_offset : Z) (peer : Endpoint) : Z :=
  match rk_trackers rk !! (peer, handle) with
  | None => 0
  | Some pt => match pt_req_map pt !! reqid with
    | None => 0
    | Some r => if rt_raddr r =? 0 then 0 else u64 (rt_raddr r + byte_offset)
    end
  end.

(** [Find] returns a reference; [Find_put] is a mutation made through it. *)
Definition Find (rk : RequestTracker) (handle : Handle) (reqid : ReqId) (peer : Endpoint)
    : res ChunkTracker :=
  let* pt := at_or OutOfRange (rk_trackers rk !! (peer, handle)) in
  let* r := at_or OutOfRange (pt_req_map pt !! reqid) in
  Ok (rt_chunks r).

Definition Find_put (rk : RequestTracker) (handle : Handle) (reqid : ReqId) (peer : Endpoint)
    (t : ChunkTracker) : RequestTracker :=
  with_trackers rk (alter (λ pt, with_req_map pt
    (alter (λ r, with_chunks r t) reqid (pt_req_map pt))) (peer, handle) (rk_trackers rk)).

Definition FindOrCreate (rk : RequestTracker) (handle : Handle) (reqid : ReqId)
    (num_chunks : Z) (peer : Endpoint) : res (RequestTracker * ChunkTracker) :=
  let key := (peer, handle) in
  let pt := default PostTracker_default (rk_trackers rk !! key) in
  match pt_req_map pt !! reqid with
  | Some r => Ok (put rk key pt, rt_chunks r)
  | None =>
      let* chunks := ChunkTracker_new num_chunks in
      let r := mkReqTracker chunks 0 Metadata_zero in
      let pt1 := with_pending (with_req_map pt (<[reqid := r]> (pt_req_map pt)))
                   (u64 (pt_pending_reqs pt + 1)) in
      Ok (put rk key pt1, chunks)
  end.

(** * Well-formedness *)

Definition req_wf (r : ReqTracker) : Prop := ct_wf (rt_chunks r).

Record pt_wf (pt : PostTracker) : Prop := {
  ptwf_reqs : map_Forall (λ _ r, req_wf r) (pt_req_map pt);
  (* only a local [Post()] may wait for its requests *)
  ptwf_nonempty : pt_is_initiator pt = false → pt_req_map pt ≠ ∅;
}.
Definition rk_wf (rk : RequestTracker) : Prop := map_Forall (λ _ pt, pt_wf pt) (rk_trackers rk).

(** A descriptor that the parser can produce, or the engine builds. *)
Definition req_ok (r : RequestInfo) : Prop := RequestInfo_IsValid r = true ∧ fits 32 (ri_nchunks r).

(** The tracker of a request none of whose chunks has been seen. *)
Definition init_chunks (n : Z) : ChunkTracker :=
  mkChunkTracker n 0 (mkBitset n (replicate (Z.to_nat (numUnits n)) 0)) ∅.
Definition init_req (rk : RequestTracker) (metadata : Metadata) (r : RequestInfo) : ReqTracker :=
  mkReqTracker (init_chunks (ri_nchunks r)) (resolve_raddr rk metadata r) (ri_metadata r).
Definition load_reqs (rk : RequestTracker) (metadata : Metadata) (m : ReqMap)
    (reqs : list RequestInfo) : ReqMap :=
  foldl (λ m r, <[ri_reqid r := init_req rk metadata r]> m) m reqs.

(** * Lemmas *)

Lemma with_trackers_id rk : with_trackers rk (rk_trackers rk) = rk.
Proof. by destruct rk. Qed.
Lemma erase_absent rk k : rk_trackers rk !! k = None → erase rk k = rk.
Proof. intros. unfold erase. rewrite delete_id by done. apply with_trackers_id. Qed.

Lemma isComplete_spec pt : map_Forall (λ _ r, req_wf r) (pt_req_map pt) →
  isComplete pt = true ↔
  pt_req_map pt ≠ ∅ ∧ map_Forall (λ _ r, all_done (rt_chunks r)) (pt_req_map pt).
Proof.
  intros Hwf. unfold isComplete. rewrite andb_true_iff, negb_true_iff, bool_decide_eq_false.
  apply and_iff_compat_l. rewrite forallb_forall, map_Forall_lookup. split.
  - intros Hall i r Hr. apply ChunkTracker_IsDone_spec; [by apply (Hwf i)|].
    apply (Hall (i, r)). apply list_elem_of_In. by apply elem_of_map_to_list.
  - intros Hall [i r] Hin. apply list_elem_of_In, elem_of_map_to_list in Hin. simpl.
    apply ChunkTracker_IsDone_spec; [by apply (Hwf i)|by apply (Hall i)].
Qed.

Lemma ChunkTracker_new_init n : 0 < n < 2 ^ 32 → ChunkTracker_new n = Ok (init_chunks n).
Proof.
  intros Hn. destruct (ChunkTracker_new_spec n Hn) as (t & E & _).
  rewrite E. f_equal. revert E. unfold ChunkTracker_new, Bitset_new. intros E. res_inv.
  subst. done.
Qed.

Lemma init_chunks_spec n : 0 < n < 2 ^ 32 →
  ct_wf (init_chunks n) ∧ ∀ i, ct_status (init_chunks n) i = kEmpty.
Proof.
  intros Hn. destruct (ChunkTracker_new_spec n Hn) as (t & E & Hwf & _ & Hs).
  rewrite ChunkTracker_new_init in E by done. simplify_eq. done.
Qed.

Lemma req_ok_nchunks r : req_ok r → 0 < ri_nchunks r < 2 ^ 32.
Proof.
  intros [Hv [_ Hf]]. unfold RequestInfo_IsValid in Hv. to_prop. lia.
Qed.

Lemma load_reqs_wf rk metadata m reqs : Forall req_ok reqs →
  map_Forall (λ _ r, req_wf r) m → map_Forall (λ _ r, req_wf r) (load_reqs rk metadata m reqs).
Proof.
  intros Hf. revert m. induction Hf as [|r reqs Hr _ IH]; intros m Hm; [done|].
  simpl. apply IH. apply map_Forall_insert_2; [|done].
  apply init_chunks_spec. by apply req_ok_nchunks.
Qed.

Lemma load_reqs_nonempty rk metadata m reqs : reqs ≠ [] → load_reqs rk metadata m reqs ≠ ∅.
Proof.
  assert (∀ reqs m, m ≠ ∅ → load_reqs rk metadata m reqs ≠ ∅) as Hne.
  { induction reqs0 as [|r rs IH]; intros m0 Hm0; [done|]. simpl. apply IH, insert_non_empty. }
  destruct reqs as [|r reqs]; [done|]. intros _. simpl. apply Hne, insert_non_empty.
Qed.

Lemma with_req_map_twice pt m m' : with_req_map (with_req_map pt m) m' = with_req_map pt m'.
Proof. done. Qed.

(** The loop registers every request, or stops at one without an address. *)
Lemma Add_loop_spec rk metadata irr reqs : ∀ pt resolved, Forall req_ok reqs →
  Add_loop rk metadata irr reqs pt resolved =
  Ok (if bool_decide (pt_is_initiator pt = false ∧ Exists (λ r, resolve_raddr rk metadata r = 0) reqs)
      then None
      else Some (with_req_map pt (load_reqs rk metadata (pt_req_map pt) reqs),
        resolved ++ if irr : bool
          then (λ r, with_raddr r (resolve_raddr rk metadata r)) <$> reqs else [])).
Proof.
  induction reqs as [|r reqs IH]; intros pt resolved Hf; cbn [Add_loop].
  - rewrite bool_decide_false by (intros [_ H]; by apply Exists_nil in H).
    destruct irr; rewrite app_nil_r; by destruct pt.
  - inversion Hf as [|? ? Hr Hf']; subst.
    rewrite bind_dcheck by apply Hr.
    destruct (negb (pt_is_initiator pt) && (resolve_raddr rk metadata r =? 0)) eqn:E.
    + to_prop. rewrite bool_decide_true by (split; [done|by left]). done.
    + rewrite ChunkTracker_new_init by by apply req_ok_nchunks.
      rewrite bind_Ok, IH by done. cbn [pt_is_initiator with_req_map pt_req_map].
      rewrite with_req_map_twice. f_equal.
      assert (Exists (λ r, resolve_raddr rk metadata r = 0) (r :: reqs) ∧ pt_is_initiator pt = false
        ↔ Exists (λ r, resolve_raddr rk metadata r = 0) reqs ∧ pt_is_initiator pt = false) as Hiff.
      { rewrite Exists_cons. apply andb_false_iff in E as [E|E]; to_prop; [|tauto].
        rewrite E. naive_solver. }
      repeat case_bool_decide; [done|tauto..|].
      do 2 f_equal. destruct irr; [|done]. by rewrite <- app_assoc.
Qed.

Lemma rk_wf_put rk k pt : rk_wf rk → pt_wf pt → rk_wf (put rk k pt).
Proof. intros Hrk Hpt. unfold rk_wf, put. simpl. by apply map_Forall_insert_2. Qed.
Lemma rk_wf_erase rk k : rk_wf rk → rk_wf (erase rk k).
Proof. intros Hrk. unfold rk_wf, erase. simpl. by apply map_Forall_delete. Qed.
#[export] Hint Resolve rk_wf_put rk_wf_erase : peregrine.

(** What [Add] leaves for a (peer, handle) whose requests were not registered yet. *)
Definition added (rk : RequestTracker) (old : option PostTracker) (reqs : list RequestInfo)
    (start_us : Z) (metadata : Metadata) : PostTracker :=
  let pt := default PostTracker_default old in
  let op0 := from_option ri_op 0 (head reqs) in
  mkPostTracker (load_reqs rk metadata ∅ reqs)
    (if (op0 =? kRead) && negb (pt_is_initiator pt) then 1 else Z.of_nat (length reqs))
    metadata
    (if negb (pt_is_initiator pt) && (op0 =? kWrite) then start_us else pt_start_mono_us pt)
    (pt_on_complete pt) (pt_trace_ctx pt) (pt_is_initiator pt).

Definition populated (old : option PostTracker) : Prop :=
  match old with Some pt => pt_req_map pt ≠ ∅ | None => False end.
#[export] Instance populated_dec old : Decision (populated old).
Proof. destruct old; simpl; apply _. Defined.

Definition is_local (old : option PostTracker) : bool := from_option pt_is_initiator false old.

Definition read_event (rk : RequestTracker) (old : option PostTracker) (peer : Endpoint)
    (h : Handle) (reqs : list RequestInfo) (metadata : Metadata) : list event :=
  if (from_option ri_op 0 (head reqs) =? kRead) && negb (is_local old) && rk_on_recv_read rk
  then [EvRecvRead peer h ((λ r, with_raddr r (resolve_raddr rk metadata r)) <$> reqs)] else [].

Lemma Add_reqs_spec rk h reqs start_us metadata peer : rk_wf rk → reqs ≠ [] → Forall req_ok reqs →
  let old := rk_trackers rk !! (peer, h) in
  Add_reqs rk h reqs start_us metadata peer =
  Ok (if decide (populated old) then (rk, true, [])
      else if decide (is_local old = false ∧ Exists (λ r, resolve_raddr rk metadata r = 0) reqs)
      then (rk, false, [])
      else (put rk (peer, h) (added rk old reqs start_us metadata), true,
            read_event rk old peer h reqs metadata)).
Proof.
  intros Hwf Hne Hf old. unfold Add_reqs. fold old.
  rewrite bind_dcheck by by rewrite bool_decide_false.
  assert (bool_decide (pt_req_map (default PostTracker_default old) = ∅) = bool_decide (¬ populated old))
    as ->.
  { apply bool_decide_ext. destruct old as [pt|]; simpl; [|tauto].
    destruct (decide (pt_req_map pt = ∅)); tauto. }
  destruct (decide (populated old)) as [Hp|Hp].
  { rewrite bool_decide_false by tauto. done. }
  rewrite bool_decide_true by done. cbn [negb].
  destruct reqs as [|r0 reqs]; [done|]. cbn [head at_or]. rewrite bind_Ok.
  set (reqs0 := r0 :: reqs) in *.
  rewrite Add_loop_spec by done. rewrite bind_Ok. cbn [pt_is_initiator].
  assert (pt_is_initiator (default PostTracker_default old) = is_local old) as Hl by by destruct old.
  rewrite Hl.
  assert (pt_req_map (default PostTracker_default old) = ∅) as Hm.
  { destruct old as [pt|]; simpl in *; [|done]. by destruct (decide (pt_req_map pt = ∅)). }
  destruct (decide _) as [[Hi Hx]|Hn].
  - rewrite bool_decide_true by done.
    assert (old = None) as Hold.
    { destruct old as [pt|] eqn:E; [|done]. exfalso.
      by apply (ptwf_nonempty pt (Hwf _ _ E) Hi). }
    fold old. rewrite Hold, bool_decide_true by done. by rewrite erase_absent.
  - rewrite bool_decide_false by done. f_equal. f_equal; [f_equal|].
    + unfold added. rewrite <- Hl. cbn [head reqs0]. unfold with_req_map. simpl. by rewrite Hm.
    + unfold read_event. cbn [head reqs0 from_option].
      by destruct ((ri_op r0 =? kRead) && negb (is_local old)).
Qed.

Lemma added_wf rk old reqs start_us metadata : reqs ≠ [] → Forall req_ok reqs →
  pt_wf (added rk old reqs start_us metadata).
Proof.
  intros Hne Hf. split; simpl.
  - apply load_reqs_wf; [done|]. apply map_Forall_empty.
  - intros _. by apply load_reqs_nonempty.
Qed.

(** ** One chunk of one request *)

Lemma put_req_wf pt reqid r : pt_wf pt → req_wf r →
  pt_wf (with_req_map pt (<[reqid := r]> (pt_req_map pt))).
Proof.
  intros [Hr Hn] Hw. split; simpl; [by apply map_Forall_insert_2|].
  intros _. apply insert_non_empty.
Qed.

Lemma with_pending_wf pt n : pt_wf pt → pt_wf (with_pending pt n).
Proof. by intros [? ?]. Qed.
#[export] Hint Resolve put_req_wf with_pending_wf : peregrine.

Lemma ChunkTracker_Set_inv t i t' : ct_wf t → ChunkTracker_Set t i = Ok t' →
  0 ≤ i < ct_total t ∧ ct_status t i ≠ kBusy ∧ ct_wf t' ∧ ct_total t' = ct_total t ∧
  ∀ j, ct_status t' j = upd (ct_status t) i kDone j.
Proof.
  intros Hwf Hs. pose proof Hs as Hs'. unfold ChunkTracker_Set in Hs'. res_inv.
  apply isValidChunk_spec in Hr. apply negb_true_iff in Hr0.
  rewrite ct_busy_bool in Hr0 by done. apply bool_decide_eq_false in Hr0.
  destruct (ChunkTracker_Set_spec t i Hwf Hr Hr0) as (t1 & Es & Hw & Ht & _ & Hst).
  rewrite Hs in Es. by simplify_eq.
Qed.

Lemma Update_wf rk h reqid index w peer now rk' evs : rk_wf rk →
  Update rk h reqid index w peer now = Ok (rk', evs) → rk_wf rk'.
Proof.
  intros Hwf. unfold Update. destruct (rk_trackers rk !! (peer, h)) as [pt|] eqn:E;
    [|intros; by simplify_eq].
  pose proof (Hwf _ _ E) as Hpt. intros Hu. res_inv.
  destruct (ChunkTracker_Set_inv (rt_chunks r) index r0) as (_ & _ & Hw' & _);
    [by apply (ptwf_reqs pt Hpt reqid)|done|].
  repeat case_match; simplify_eq; eauto with peregrine.
Qed.

(** * Sequences of operations

    Every public method, and the chunk operations that [Transfer] performs through the
    reference returned by [Find]. *)
Inductive rk_op : Type :=
  | OpAddHandle (h : Handle) (start : Z) (cb : option Z) (ctx : bool)
  | OpAddReqs (h : Handle) (reqs : list RequestInfo) (start : Z) (md : Metadata) (peer : Endpoint)
  | OpRemove (h : Handle) (peer : Endpoint)
  | OpReqComplete (h : Handle) (peer : Endpoint) (now : Z)
  | OpUpdate (h : Handle) (reqid : ReqId) (index worker : Z) (peer : Endpoint) (now : Z)
  | OpAcquire (h : Handle) (reqid : ReqId) (peer : Endpoint) (index : Z)
  | OpRelease (h : Handle) (reqid : ReqId) (peer : Endpoint) (index : Z) (success : bool)
  | OpFindOrCreate (h : Handle) (reqid : ReqId) (num_chunks : Z) (peer : Endpoint).

Definition rk_exec (rk : RequestTracker) (op : rk_op) : res (RequestTracker * list event) :=
  match op with
  | OpAddHandle h start cb ctx => Ok ((Add_handle rk h start cb ctx).1, [])
  | OpAddReqs h reqs start md peer =>
      let* r := Add_reqs rk h reqs start md peer in Ok (r.1.1, r.2)
  | OpRemove h peer => Ok (Remove rk h peer)
  | OpReqComplete h peer now => OnReqComplete rk h peer now
  | OpUpdate h reqid index w peer now => Update rk h reqid index w peer now
  | OpAcquire h reqid peer index =>
      let* t := Find rk h reqid peer in
      let* r := ChunkTracker_Acquire t index in Ok (Find_put rk h reqid peer r.1, [])
  | OpRelease h reqid peer index success =>
      let* t := Find rk h reqid peer in
      let* r := ChunkTracker_Release t index success in Ok (Find_put rk h reqid peer r.1, [])
  | OpFindOrCreate h reqid n peer =>
      let* r := FindOrCreate rk h reqid n peer in Ok (r.1, [])
  end.

Fixpoint rk_run (rk : RequestTracker) (ops : list rk_op) : res (RequestTracker * list event) :=
  match ops with
  | [] => Ok (rk, [])
  | op :: ops' =>
      let* r := rk_exec rk op in
      let* r' := rk_run r.1 ops' in
      Ok (r'.1, r.2 ++ r'.2)
  end.

(** ** Completion callbacks

    [live rk k] is the callback registered and not yet invoked for key [k]. *)
Definition live (rk : RequestTracker) (k : Key) : option Z := rk_trackers rk !! k ≫= pt_on_complete.

Definition completed (evs : list event) : list Z :=
  omap (λ e, match e with EvComplete cb _ => Some cb | _ => None end) evs.
Definition registered (ops : list rk_op) : list Z :=
  omap (λ op, match op with OpAddHandle _ _ cb _ => cb | _ => None end) ops.

(** What one operation may do to the live callbacks; [c] are the callbacks it invokes. *)
Inductive cb_step (f : Key → option Z) (reg : option Z) : list Z → (Key → option Z) → Prop :=
  | cb_same f' : (∀ k, f' k = f k) → cb_step f reg [] f'
  | cb_add k cb f' : f k = None → reg = Some cb →
      (∀ k', f' k' = if decide (k' = k) then Some cb else f k') → cb_step f reg [] f'
  | cb_drop k f' : (∀ k', f' k' = if decide (k' = k) then None else f k') → cb_step f reg [] f'
  | cb_fire k cb f' : f k = Some cb →
      (∀ k', f' k' = if decide (k' = k) then None else f k') → cb_step f reg [cb] f'.

Definition op_cb (op : rk_op) : option Z :=
  match op with OpAddHandle _ _ cb _ => cb | _ => None end.

Lemma live_put_same rk k pt pt' : rk_trackers rk !! k = Some pt →
  pt_on_complete pt' = pt_on_complete pt → ∀ k', live (put rk k pt') k' = live rk k'.
Proof.
  intros E Hcb k'. unfold live, put. simpl. destruct (decide (k = k')) as [->|Hne].
  - rewrite lookup_insert_eq, E. simpl. done.
  - by rewrite lookup_insert_ne.
Qed.
Lemma live_put_new rk k pt' : rk_trackers rk !! k = None →
  ∀ k', live (put rk k pt') k' = if decide (k' = k) then pt_on_complete pt' else live rk k'.
Proof.
  intros E k'. unfold live, put. simpl. destruct (decide (k' = k)) as [->|Hne].
  - by rewrite lookup_insert_eq.
  - by rewrite lookup_insert_ne.
Qed.
Lemma live_erase rk k : ∀ k', live (erase rk k) k' = if decide (k' = k) then None else live rk k'.
Proof.
  intros k'. unfold live, erase. simpl. destruct (decide (k' = k)) as [->|Hne].
  - by rewrite lookup_delete_eq.
  - by rewrite lookup_delete_ne.
Qed.
(** An entry that is created without a callback. *)
Lemma live_put_default rk k pt' :
  pt_on_complete pt' = pt_on_complete (default PostTracker_default (rk_trackers rk !! k)) →
  ∀ k', live (put rk k pt') k' = live rk k'.
Proof.
  intros Hcb k'. destruct (rk_trackers rk !! k) as [pt|] eqn:E; [by eapply live_put_same|].
  rewrite live_put_new by done. case_decide; subst; [|done].
  unfold live. rewrite E. simpl in *. congruence.
Qed.
Lemma live_find_put rk h reqid peer t : ∀ k, live (Find_put rk h reqid peer t) k = live rk k.
Proof.
  intros k. unfold live, Find_put. simpl. destruct (decide (k = (peer, h))) as [->|Hne].
  - rewrite lookup_alter_eq. by destruct (rk_trackers rk !! _).
  - by rewrite lookup_alter_ne.
Qed.

Lemma Add_loop_cb rk md irr reqs : ∀ pt resolved pt' resolved',
  Add_loop rk md irr reqs pt resolved = Ok (Some (pt', resolved')) →
  pt_on_complete pt' = pt_on_complete pt.
Proof.
  induction reqs as [|r reqs IH]; intros pt resolved pt' resolved' H; cbn [Add_loop] in H;
    [by simplify_eq|].
  res_inv. destruct (negb _ && _); [done|]. res_inv. apply IH in H. done.
Qed.

Lemma completed_app a b : completed (a ++ b) = completed a ++ completed b.
Proof. unfold completed. by rewrite omap_app. Qed.

Lemma Update_cb_step rk h reqid index w peer now rk' evs :
  Update rk h reqid index w peer now = Ok (rk', evs) →
  cb_step (live rk) None (completed evs) (live rk').
Proof.
  unfold Update. destruct (rk_trackers rk !! (peer, h)) as [pt|] eqn:E; intros Hu;
    [|simplify_eq; by apply cb_same].
  res_inv. destruct (negb _); [|destruct (negb _)];
    [simplify_eq; apply cb_same; by eapply live_put_same..|].
  destruct (pt_on_complete pt) as [cb|] eqn:Ecb; simplify_eq.
  - assert (live rk (peer, h) = Some cb) as Hl by (unfold live; by rewrite E).
    destruct (negb _); simpl; apply (cb_fire _ _ (peer, h) cb); auto using live_erase.
  - destruct (negb _); simpl; apply cb_same; eapply live_put_same; eauto; simpl; congruence.
Qed.

Lemma OnReqComplete_cb_step rk h peer now rk' evs :
  OnReqComplete rk h peer now = Ok (rk', evs) →
  cb_step (live rk) None (completed evs) (live rk').
Proof.
  unfold OnReqComplete. destruct (rk_trackers rk !! (peer, h)) as [pt|] eqn:E; intros Hu;
    [|simplify_eq; by apply cb_same].
  res_inv. destruct (negb _); [simplify_eq; apply cb_same; by eapply live_put_same|].
  destruct (pt_is_initiator pt).
  - destruct (pt_on_complete pt) as [cb|] eqn:Ecb; simplify_eq.
    + assert (live rk (peer, h) = Some cb) as Hl by (unfold live; by rewrite E).
      destruct (negb _); simpl; apply (cb_fire _ _ (peer, h) cb); auto using live_erase.
    + destruct (negb _); simpl; apply cb_same; eapply live_put_same; eauto; simpl; congruence.
  - simplify_eq. destruct (negb _), (rk_recv_post rk); simpl; apply cb_same; by eapply live_put_same.
Qed.

Lemma Add_reqs_cb_step rk h reqs start md peer rk' b evs :
  Add_reqs rk h reqs start md peer = Ok (rk', b, evs) →
  cb_step (live rk) None (completed evs) (live rk').
Proof.
  unfold Add_reqs. intros Hu. res_inv.
  destruct (bool_decide (pt_req_map _ = ∅)); cbn [negb] in Hu; [|simplify_eq; by apply cb_same].
  res_inv.
  destruct r1 as [[pt1 resolved]|].
  - apply Add_loop_cb in Hr1. simplify_eq. destruct (_ && rk_on_recv_read rk); simpl;
      apply cb_same; by apply live_put_default.
  - case_bool_decide; simplify_eq; [by rewrite erase_absent; [apply cb_same|]|].
    apply cb_same. by apply live_put_default.
Qed.

Lemma rk_exec_cb_step rk op rk' evs : rk_exec rk op = Ok (rk', evs) →
  cb_step (live rk) (op_cb op) (completed evs) (live rk').
Proof.
  destruct op; simpl; intros H; res_inv.
  - simplify_eq. unfold Add_handle.
    destruct (rk_trackers rk !! _) eqn:E; simpl; [by apply cb_same|].
    destruct cb as [cb|].
    + apply (cb_add _ _ (Endpoint_default, h) cb); [unfold live; by rewrite E|done|].
      by apply live_put_new.
    + apply cb_same. apply live_put_default. by rewrite E.
  - destruct r as [[rk1 b] evs1]. simplify_eq. by eapply Add_reqs_cb_step.
  - unfold Remove in H. destruct (rk_trackers rk !! _); simplify_eq; [|by apply cb_same].
    apply (cb_drop _ _ (peer, h)). apply live_erase.
  - by eapply OnReqComplete_cb_step.
  - by eapply Update_cb_step.
  - simplify_eq. apply cb_same, live_find_put.
  - simplify_eq. apply cb_same, live_find_put.
  - simplify_eq. unfold FindOrCreate in Hr.
    apply cb_same. destruct (pt_req_map _ !! reqid); res_inv; simplify_eq; simpl;
      by apply live_put_default.
Qed.

(** ** Reachable trackers are well formed *)

Definition op_ok (op : rk_op) : Prop :=
  match op with
  | OpAddReqs _ reqs _ _ _ => reqs ≠ [] ∧ Forall req_ok reqs
  | OpFindOrCreate _ _ n _ => 0 < n < 2 ^ 32
  | _ => True
  end.

Lemma Find_put_wf rk h reqid peer t : rk_wf rk → ct_wf t → rk_wf (Find_put rk h reqid peer t).
Proof.
  intros Hwf Ht k pt. unfold Find_put. simpl. destruct (decide (k = (peer, h))) as [->|Hne].
  - rewrite lookup_alter_eq, fmap_Some. intros (pt0 & E & ->).
    destruct (Hwf _ _ E) as [Hr Hn]. split; simpl.
    + intros i r. destruct (decide (i = reqid)) as [->|].
      * rewrite lookup_alter_eq, fmap_Some. by intros (r0 & _ & ->).
      * rewrite lookup_alter_ne by done. apply Hr.
    + intros Hi Hz. apply (Hn Hi), map_empty. intros i.
      pose proof (f_equal (lookup i) Hz) as Hzi. rewrite lookup_empty in Hzi.
      destruct (decide (i = reqid)) as [->|].
      * by rewrite lookup_alter_eq, fmap_None in Hzi.
      * by rewrite lookup_alter_ne in Hzi.
  - rewrite lookup_alter_ne by done. apply Hwf.
Qed.

Lemma ChunkTracker_Acquire_wf t i r : ct_wf t → ChunkTracker_Acquire t i = Ok r → ct_wf r.1.
Proof.
  intros Hwf E. pose proof E as E'. unfold ChunkTracker_Acquire in E'. res_inv.
  apply isValidChunk_spec in Hr.
  destruct (ChunkTracker_Acquire_spec t i Hwf Hr) as (t' & E1 & Hw & _).
  rewrite E in E1. by simplify_eq.
Qed.
Lemma ChunkTracker_Release_wf t i s r : ct_wf t → ChunkTracker_Release t i s = Ok r → ct_wf r.1.
Proof.
  intros Hwf E. pose proof E as E'. unfold ChunkTracker_Release in E'. res_inv.
  apply isValidChunk_spec in Hr. rewrite ct_busy_bool in Hr1 by done.
  apply bool_decide_eq_true in Hr1.
  destruct (ChunkTracker_Release_spec t i s Hwf Hr Hr1) as (t' & l & E1 & Hw & _).
  rewrite E in E1. by simplify_eq.
Qed.

Lemma Find_wf rk h reqid peer t : rk_wf rk → Find rk h reqid peer = Ok t → ct_wf t.
Proof.
  intros Hwf E. unfold Find in E. res_inv. subst. by apply (ptwf_reqs r (Hwf _ _ Hr) reqid).
Qed.

Lemma OnReqComplete_wf rk h peer now rk' evs : rk_wf rk →
  OnReqComplete rk h peer now = Ok (rk', evs) → rk_wf rk'.
Proof.
  intros Hwf. unfold OnReqComplete. destruct (rk_trackers rk !! (peer, h)) as [pt|] eqn:E;
    [|intros; by simplify_eq].
  pose proof (Hwf _ _ E) as Hpt. intros Hu. res_inv.
  repeat case_match; simplify_eq; eauto with peregrine.
Qed.

Lemma rk_exec_wf rk op rk' evs : rk_wf rk → op_ok op → rk_exec rk op = Ok (rk', evs) → rk_wf rk'.
Proof.
  intros Hwf Hop H. destruct op; simpl in *; res_inv.
  - simplify_eq. unfold Add_handle. destruct (rk_trackers rk !! _); simpl; [done|].
    apply rk_wf_put; [done|]. split; simpl; [apply map_Forall_empty|done].
  - destruct Hop. rewrite Add_reqs_spec in Hr by done.
    repeat case_decide; simplify_eq; simpl; auto using rk_wf_put, added_wf.
  - unfold Remove in H. case_match; simplify_eq; eauto with peregrine.
  - by eapply OnReqComplete_wf.
  - by eapply Update_wf.
  - simplify_eq. apply Find_put_wf; [done|].
    eapply ChunkTracker_Acquire_wf; [by eapply Find_wf|done].
  - simplify_eq. apply Find_put_wf; [done|].
    eapply ChunkTracker_Release_wf; [by eapply Find_wf|done].
  - simplify_eq. unfold FindOrCreate in Hr.
    destruct (rk_trackers rk !! (peer, h)) as [pt|] eqn:E; simpl in Hr.
    + pose proof (Hwf _ _ E). destruct (pt_req_map pt !! reqid); res_inv; simplify_eq; simpl;
        [eauto with peregrine|].
      apply rk_wf_put; [done|]. apply with_pending_wf, put_req_wf; [done|].
      rewrite ChunkTracker_new_init in Hr0 by done. simplify_eq. by apply init_chunks_spec.
    + rewrite lookup_empty in Hr. res_inv. simplify_eq. simpl.
      apply rk_wf_put; [done|]. rewrite ChunkTracker_new_init in Hr0 by done. simplify_eq.
      split; simpl; [|intros _; apply insert_non_empty].
      apply map_Forall_insert_2; [by apply init_chunks_spec|apply map_Forall_empty].
Qed.

Lemma rk_run_wf ops : ∀ rk rk' evs, rk_wf rk → Forall op_ok ops →
  rk_run rk ops = Ok (rk', evs) → rk_wf rk'.
Proof.
  induction ops as [|op ops IH]; intros rk rk' evs Hwf Hf H; cbn [rk_run] in H; [by simplify_eq|].
  inversion Hf; subst. res_inv. simplify_eq. destruct r as [rk1 ev1], r0 as [rk2 ev2]. simpl in *.
  eapply IH; [|done..]. by eapply rk_exec_wf.
Qed.

Lemma new_wf a b c : rk_wf (RequestTracker_new a b c).
Proof. apply map_Forall_empty. Qed.

(** ** The callback invariant over a run *)

Record cb_inv (f : Key → option Z) (reg comp : list Z) : Prop := {
  cbi_nodup : NoDup comp;
  cbi_reg : ∀ cb, cb ∈ comp → cb ∈ reg;
  cbi_live : ∀ k cb, f k = Some cb → cb ∈ reg ∧ cb ∉ comp;
  cbi_inj : ∀ k1 k2 cb, f k1 = Some cb → f k2 = Some cb → k1 = k2;
}.

Lemma cb_inv_step f r c f' reg comp : cb_inv f reg comp → cb_step f r c f' →
  (∀ cb, r = Some cb → cb ∉ reg) → cb_inv f' (option_list r ++ reg) (comp ++ c).
Proof.
  intros [Hn Hr Hl Hi] Hs Hfresh. destruct Hs as [f' Hf|k cb f' Hk Hr' Hf|k f' Hf|k cb f' Hk Hf].
  - rewrite app_nil_r. split; [done|set_solver| |].
    + intros k cb. rewrite Hf. intros E. apply Hl in E. set_solver.
    + intros k1 k2 cb. rewrite !Hf. apply Hi.
  - rewrite app_nil_r. subst. specialize (Hfresh cb eq_refl). split; [done|set_solver| |].
    + intros k' cb'. rewrite Hf. case_decide; intros E; [simplify_eq; set_solver|].
      apply Hl in E. set_solver.
    + intros k1 k2 cb'. rewrite !Hf. repeat case_decide; intros E1 E2; simplify_eq; try done.
      * by apply Hl in E2 as [? _].
      * by apply Hl in E1 as [? _].
      * by eapply Hi.
  - rewrite app_nil_r. split; [done|set_solver| |].
    + intros k' cb. rewrite Hf. case_decide; [done|]. intros E. apply Hl in E. set_solver.
    + intros k1 k2 cb. rewrite !Hf. repeat case_decide; try done. apply Hi.
  - destruct (Hl _ _ Hk) as [Hin Hnin]. split.
    + apply NoDup_app. split; [done|]. split; [set_solver|apply NoDup_singleton].
    + intros cb'. rewrite elem_of_app, list_elem_of_singleton. set_solver.
    + intros k' cb'. rewrite Hf. case_decide as Hkk; [done|]. intros E.
      destruct (Hl _ _ E) as [? ?]. split; [set_solver|].
      rewrite elem_of_app, list_elem_of_singleton. intros [?|?]; [done|]. subst.
      by destruct (Hi _ _ _ E Hk).
    + intros k1 k2 cb'. rewrite !Hf. repeat case_decide; try done. apply Hi.
Qed.

Lemma rk_run_cb ops : ∀ rk rk' evs reg comp, cb_inv (live rk) reg comp →
  rk_run rk ops = Ok (rk', evs) → NoDup (registered ops) →
  (∀ cb, cb ∈ registered ops → cb ∉ reg) →
  ∃ reg', cb_inv (live rk') reg' (comp ++ completed evs) ∧
    ∀ cb, cb ∈ reg' ↔ cb ∈ reg ∨ cb ∈ registered ops.
Proof.
  induction ops as [|op ops IH]; intros rk rk' evs reg comp Hinv H Hnd Hfr; cbn [rk_run] in H.
  - simplify_eq. exists reg. rewrite app_nil_r. split; [done|]. set_solver.
  - res_inv. destruct r as [rk1 ev1], r0 as [rk2 ev2]. simplify_eq. cbn [fst snd] in *.
    pose proof (rk_exec_cb_step _ _ _ _ Hr) as Hs.
    assert (registered (op :: ops) = option_list (op_cb op) ++ registered ops) as Hreg.
    { unfold registered. simpl. destruct op; try done. by destruct cb. }
    rewrite Hreg in Hnd, Hfr |- *. apply NoDup_app in Hnd as (_ & Hdis & Hnd).
    eapply cb_inv_step in Hs; [|exact Hinv|].
    + destruct (IH _ _ _ _ _ Hs Hr0 Hnd) as (reg' & Hinv' & Hreg').
      { intros cb Hcb Hin. apply elem_of_app in Hin as [Hin|Hin]; [by apply (Hdis cb)|].
        apply (Hfr cb); [set_solver|done]. }
      exists reg'. rewrite completed_app, app_assoc. split; [done|]. intros cb. rewrite Hreg'. set_solver.
    + intros cb E. apply Hfr. rewrite E. set_solver.
Qed.

(** ** Marking a chunk done *)

(** Every chunk of every request of [pt] except chunk [i] of request [reqid]. *)
Definition others_done (pt : PostTracker) (reqid : ReqId) (i : Z) : Prop :=
  ∀ id r j, pt_req_map pt !! id = Some r → 0 ≤ j < ct_total (rt_chunks r) →
    (id, j) ≠ (reqid, i) → ct_status (rt_chunks r) j = kDone.

Lemma isComplete_after_set pt reqid r i t' : pt_wf pt → pt_req_map pt !! reqid = Some r →
  ChunkTracker_Set (rt_chunks r) i = Ok t' →
  isComplete (with_req_map pt (<[reqid := with_chunks r t']> (pt_req_map pt))) = true ↔
  others_done pt reqid i.
Proof.
  intros Hwf Hr Hs.
  destruct (ChunkTracker_Set_inv _ _ _ (ptwf_reqs pt Hwf _ _ Hr) Hs) as (Hi & _ & Hw & Ht & Hst).
  assert (req_wf (with_chunks r t')) as Hw' by done.
  rewrite isComplete_spec by apply (ptwf_reqs _ (put_req_wf pt reqid _ Hwf Hw')). simpl. split.
  - intros [_ Hall] id r' j Hl Hj Hne. destruct (decide (id = reqid)) as [->|Hid].
    + assert (r' = r) as -> by congruence.
      specialize (Hall reqid (with_chunks r t') ltac:(apply lookup_insert_eq) j).
      simpl in Hall. rewrite Ht, Hst in Hall. specialize (Hall Hj). unfold upd in Hall.
      case_decide; congruence.
    + apply (Hall id r'); [by rewrite lookup_insert_ne|done].
  - intros Ho. split; [apply insert_non_empty|]. apply map_Forall_lookup_2. intros id r' Hl.
    destruct (decide (id = reqid)) as [->|Hid].
    + rewrite lookup_insert_eq in Hl. simplify_eq. intros j Hj. simpl in *. rewrite Ht in Hj.
      rewrite Hst. unfold upd. case_decide; [done|]. apply (Ho reqid r); congruence || done.
    + rewrite lookup_insert_ne in Hl by done. intros j Hj. apply (Ho id r'); congruence || done.
Qed.

Lemma isDone_of_isComplete pt reqid r i t' : pt_wf pt → pt_req_map pt !! reqid = Some r →
  ChunkTracker_Set (rt_chunks r) i = Ok t' → others_done pt reqid i → ChunkTracker_IsDone t' = true.
Proof.
  intros Hwf Hr Hs Ho.
  destruct (ChunkTracker_Set_inv _ _ _ (ptwf_reqs pt Hwf _ _ Hr) Hs) as (Hi & _ & Hw & Ht & Hst).
  apply ChunkTracker_IsDone_spec; [done|]. intros j Hj. rewrite Ht in Hj. rewrite Hst.
  unfold upd. case_decide; [done|]. apply (Ho reqid r); congruence || done.
Qed.

(** [Update] on a registered handle never faults, and its effect is decided by whether
    the other chunks are done. *)
Lemma Update_spec rk h reqid i w peer now pt r : rk_wf rk →
  rk_trackers rk !! (peer, h) = Some pt → pt_req_map pt !! reqid = Some r →
  0 ≤ i < ct_total (rt_chunks r) → ct_status (rt_chunks r) i ≠ kBusy →
  ∃ t' evs, ChunkTracker_Set (rt_chunks r) i = Ok t' ∧
    let pt1 := with_req_map pt (<[reqid := with_chunks r t']> (pt_req_map pt)) in
    Update rk h reqid i w peer now =
      Ok (match pt_on_complete pt with
          | Some _ => if isComplete pt1 then erase rk (peer, h) else put rk (peer, h) pt1
          | None => put rk (peer, h) pt1 end, evs) ∧
    completed evs = if isComplete pt1 then option_list (pt_on_complete pt) else [].
Proof.
  intros Hwf Hpt Hr Hi Hb. pose proof (Hwf _ _ Hpt) as Hptw.
  destruct (ChunkTracker_Set_spec (rt_chunks r) i (ptwf_reqs pt Hptw _ _ Hr) Hi Hb) as (t' & Hs & _).
  exists t'. unfold Update. rewrite Hpt, Hr. cbn [at_or]. rewrite bind_Ok, Hs, bind_Ok.
  pose proof (isComplete_after_set _ _ _ _ _ Hptw Hr Hs) as Hc.
  destruct (isComplete (with_req_map pt _)) eqn:Ec.
  - rewrite (isDone_of_isComplete _ _ _ _ _ Hptw Hr Hs) by by apply Hc. cbn [negb].
    destruct (pt_on_complete pt) as [cb|]; eexists; (split; [done|]; split; [done|]);
      rewrite ?completed_app; by destruct (pt_start_mono_us pt =? 0).
  - destruct (ChunkTracker_IsDone t'); cbn [negb]; eexists; (split; [done|]; split;
      [by destruct (pt_on_complete pt)|done]).
Qed.

(** * Properties *)

(** C5: Completion callbacks fire at most once.  In every sequence of tracker operations
    from an empty tracker that passes its assertions, with each callback registered
    once, no callback is invoked twice, only registered callbacks are invoked, and a
    callback that has been invoked is no longer stored anywhere. *)
Theorem RequestTracker_callback_once (a : bool) (b : option (Metadata → Metadata → Z)) (c : bool)
    (ops : list rk_op) (rk : RequestTracker) (evs : list event) :
  rk_run (RequestTracker_new a b c) ops = Ok (rk, evs) → NoDup (registered ops) →
  NoDup (completed evs) ∧ (∀ cb, cb ∈ completed evs → cb ∈ registered ops) ∧
  (∀ k pt cb, rk_trackers rk !! k = Some pt → pt_on_complete pt = Some cb →
     cb ∈ registered ops ∧ cb ∉ completed evs).
Proof.
  intros Hrun Hnd.
  destruct (rk_run_cb ops (RequestTracker_new a b c) rk evs [] []) as (reg & [Hn Hr Hl _] & Hreg).
  - split; [constructor|set_solver| |]; unfold live; simpl;
      [intros ? ?|intros ? ? ?]; rewrite lookup_empty; done.
  - done.
  - done.
  - set_solver.
  - simpl in *. split; [done|]. split.
    + intros cb Hcb. apply Hr, Hreg in Hcb. set_solver.
    + intros k pt cb Hk Hcb. destruct (Hl k cb) as [H1 H2].
      { unfold live. rewrite Hk. done. }
      apply Hreg in H1. set_solver.
Qed.

Definition rinfo (reqid nchunks raddr : Z) (op : Op) : RequestInfo :=
  mkRequestInfo reqid nchunks raddr (100 * nchunks) op (mkRecipe 1 (replicate 32 0)) Metadata_zero.

Definition ops_sample : list rk_op :=
  [OpAddHandle 5 1000 (Some 77) false;
   OpAddReqs 5 [rinfo 1 2 4096 kWrite; rinfo 2 1 8192 kWrite] 0 Metadata_zero Endpoint_default;
   OpUpdate 5 1 0 1 Endpoint_default 2000; OpUpdate 5 2 0 1 Endpoint_default 2000;
   OpUpdate 5 1 1 1 Endpoint_default 3000].

Lemma RequestTracker_callback_once_witness : ∃ rk evs,
  rk_run (RequestTracker_new true None true) ops_sample = Ok (rk, evs) ∧
  completed evs = [77] ∧ NoDup (completed evs).
Proof.
  eexists _, _. split; [vm_compute; reflexivity|]. split; [vm_compute; reflexivity|].
  eapply (RequestTracker_callback_once true None true ops_sample);
    [vm_compute; reflexivity | apply (bool_decide_eq_true _); vm_compute; reflexivity].
Defined.

(** [Check] reports success exactly when every chunk of every request of the post has
    arrived.  In every reachable tracker state, [kNotFound] means the key is not tracked
    and [kSuccess] means that at least one request is registered and each chunk of each
    registered request is done. *)
Theorem RequestTracker_Check_exact (a : bool) (b : option (Metadata → Metadata → Z)) (c : bool)
    (ops : list rk_op) (rk : RequestTracker) (evs : list event) (h : Handle) (peer : Endpoint) :
  rk_run (RequestTracker_new a b c) ops = Ok (rk, evs) → Forall op_ok ops →
  (Check_ rk h peer = kNotFound ↔ rk_trackers rk !! (peer, h) = None) ∧
  (Check_ rk h peer = kSuccess ↔ ∃ pt, rk_trackers rk !! (peer, h) = Some pt ∧ pt_req_map pt ≠ ∅ ∧
     ∀ reqid r i, pt_req_map pt !! reqid = Some r → 0 ≤ i < ct_total (rt_chunks r) →
       ct_status (rt_chunks r) i = kDone) ∧
  Check_ rk h peer ≠ kFailure.
Proof.
  intros Hrun Hok. pose proof (rk_run_wf _ _ _ _ (new_wf a b c) Hok Hrun) as Hwf.
  unfold Check_. destruct (rk_trackers rk !! (peer, h)) as [pt|] eqn:E.
  2: { split; [done|]. split; [|done]. split; [done|]. by intros (? & ? & _). }
  pose proof (isComplete_spec pt (ptwf_reqs pt (Hwf _ _ E))) as Hc.
  split; [by destruct (isComplete pt)|]. split; [|by destruct (isComplete pt)].
  transitivity (isComplete pt = true); [by destruct (isComplete pt)|]. rewrite Hc. split.
  - intros [Hne Hall]. exists pt. split; [done|]. split; [done|].
    intros reqid r i Hr Hi. by apply (Hall reqid r Hr).
  - intros (pt' & Hp & Hne & Hall). simplify_eq. split; [done|].
    apply map_Forall_lookup_2. intros id r Hr i Hi. by apply (Hall id r).
Qed.

Lemma RequestTracker_Check_exact_witness : ∃ rk evs,
  rk_run (RequestTracker_new true None true) (take 4 ops_sample) = Ok (rk, evs) ∧
  Check_ rk 5 Endpoint_default ≠ kFailure.
Proof.
  eexists _, _. split; [vm_compute; reflexivity|].
  eapply (RequestTracker_Check_exact true None true (take 4 ops_sample));
    [vm_compute; reflexivity|].
  repeat constructor; try (intros E; discriminate E); simpl; try done.
Defined.

(** ** Contents of a freshly registered post *)

Lemma load_reqs_other rk md reqs : ∀ m id, (∀ r, r ∈ reqs → ri_reqid r ≠ id) →
  load_reqs rk md m reqs !! id = m !! id.
Proof.
  induction reqs as [|r reqs IH]; intros m id Hid; [done|]. simpl.
  rewrite IH by set_solver. apply lookup_insert_ne. apply Hid. set_solver.
Qed.

Lemma load_reqs_lookup rk md reqs m r : NoDup (ri_reqid <$> reqs) → r ∈ reqs →
  load_reqs rk md m reqs !! ri_reqid r = Some (init_req rk md r).
Proof.
  revert m. induction reqs as [|r0 reqs IH]; intros m Hnd Hin; [set_solver|].
  rewrite fmap_cons in Hnd. apply NoDup_cons in Hnd as [Hn Hnd]. simpl.
  apply elem_of_cons in Hin as [->|Hin]; [|by apply IH].
  rewrite load_reqs_other; [by rewrite lookup_insert_eq|].
  intros r' Hr' E. apply Hn. rewrite <- E. by apply list_elem_of_fmap_2.
Qed.

Lemma init_not_done n : 0 < n < 2 ^ 32 → ¬ all_done (init_chunks n).
Proof.
  intros Hn Hall. destruct (init_chunks_spec n Hn) as [_ He].
  specialize (Hall 0 ltac:(simpl; lia)). by rewrite He in Hall.
Qed.

Lemma added_not_complete rk old reqs start md : reqs ≠ [] → Forall req_ok reqs →
  NoDup (ri_reqid <$> reqs) → isComplete (added rk old reqs start md) = false.
Proof.
  intros Hne Hf Hnd. apply not_true_iff_false. intros Hc.
  apply isComplete_spec in Hc as [_ Hall]; [|by apply ptwf_reqs, added_wf].
  destruct reqs as [|r reqs]; [done|]. inversion Hf as [|? ? Hr _]; subst.
  apply (init_not_done (ri_nchunks r)); [by apply req_ok_nchunks|].
  change (all_done (rt_chunks (init_req rk md r))). eapply Hall.
  apply (load_reqs_lookup rk md (r :: reqs) ∅ r); [done|by left].
Qed.

(** Registering the requests of a post is atomic and idempotent.  For valid requests with
    distinct ids and any well-formed tracker, [Add] passes its assertions, and either
    fails without changing anything (exactly when a request of a remote post has no
    address), or succeeds; after success the handle is known, each chunk address is the
    request's resolved base plus the offset, and a second [Add] of anything for the same
    key succeeds without any effect. *)
Theorem RequestTracker_Add_atomic (rk : RequestTracker) (h : Handle) (reqs reqs' : list RequestInfo)
    (start : Z) (md md' : Metadata) (peer : Endpoint) :
  rk_wf rk → reqs ≠ [] → Forall req_ok reqs → reqs' ≠ [] → Forall req_ok reqs' →
  NoDup (ri_reqid <$> reqs) → ¬ populated (rk_trackers rk !! (peer, h)) →
  ∃ rk' ok evs, Add_reqs rk h reqs start md peer = Ok (rk', ok, evs) ∧
    (ok = false ↔ is_local (rk_trackers rk !! (peer, h)) = false ∧
                  ∃ r, r ∈ reqs ∧ resolve_raddr rk md r = 0) ∧
    (ok = false → rk' = rk ∧ evs = []) ∧
    (ok = true → Check_ rk' h peer = kInProgress ∧
       (∀ r off, r ∈ reqs → resolve_raddr rk md r ≠ 0 →
          GetChunkAddr rk' h (ri_reqid r) off peer = u64 (resolve_raddr rk md r + off)) ∧
       Add_reqs rk' h reqs' start md' peer = Ok (rk', true, [])).
Proof.
  intros Hwf Hne Hf Hne' Hf' Hnd Hp. rewrite Add_reqs_spec by done.
  rewrite decide_False by done. case_decide as Hd.
  - eexists _, _, _. split; [done|]. split; [|done]. rewrite <- list.Exists_exists. tauto.
  - eexists _, _, _. split; [done|]. split; [|split; [done|]].
    + split; [done|]. rewrite <- list.Exists_exists. tauto.
    + intros _. set (old := rk_trackers rk !! (peer, h)) in *.
      assert (rk_trackers (put rk (peer, h) (added rk old reqs start md)) !! (peer, h)
              = Some (added rk old reqs start md)) as Hl by apply lookup_insert_eq.
      split; [|split].
      * unfold Check_. rewrite Hl. by rewrite added_not_complete.
      * intros r off Hr Ha. unfold GetChunkAddr. rewrite Hl. simpl.
        rewrite load_reqs_lookup by done. simpl. by rewrite (proj2 (Z.eqb_neq _ 0)).
      * rewrite Add_reqs_spec; [|by apply rk_wf_put, added_wf|done..].
        rewrite Hl. rewrite decide_True; [done|]. simpl. by apply load_reqs_nonempty.
Qed.

Lemma RequestTracker_Add_atomic_witness : ∃ rk' ok evs,
  Add_reqs (RequestTracker_new true None true) 5 [rinfo 1 2 4096 kWrite] 0 Metadata_zero ep_sample
    = Ok (rk', ok, evs) ∧ GetChunkAddr rk' 5 1 100 ep_sample = 4196.
Proof.
  destruct (RequestTracker_Add_atomic (RequestTracker_new true None true) 5
    [rinfo 1 2 4096 kWrite] [rinfo 1 2 4096 kWrite] 0 Metadata_zero Metadata_zero ep_sample)
    as (rk' & ok & evs & E & H1 & _ & H2).
  - apply new_wf.
  - done.
  - repeat constructor; done.
  - done.
  - repeat constructor; done.
  - apply NoDup_singleton.
  - intros [].
  - exists rk', ok, evs. split; [exact E|]. destruct ok.
    + destruct H2 as (_ & H2 & _); [done|].
      apply (H2 (rinfo 1 2 4096 kWrite) 100); [by left|done].
    + destruct (proj1 H1 eq_refl) as (_ & r & Hr & Hz).
      apply list_elem_of_singleton in Hr. subst. discriminate Hz.
Defined.

(** [Update] invokes the completion callback exactly on the last chunk.  For a tracked
    post with a callback and a chunk that nobody is writing, [Update] passes its
    assertions; if every other chunk of the post is done it invokes that callback once,
    with success, and forgets the post; otherwise it invokes nothing and the post stays
    in progress with this chunk marked done. *)
Theorem RequestTracker_Update_completes (rk : RequestTracker) (h : Handle) (reqid : ReqId)
    (i w : Z) (peer : Endpoint) (now : Z) (pt : PostTracker) (r : ReqTracker) (cb : Z) :
  rk_wf rk → rk_trackers rk !! (peer, h) = Some pt → pt_req_map pt !! reqid = Some r →
  pt_on_complete pt = Some cb →
  0 ≤ i < ct_total (rt_chunks r) → ct_status (rt_chunks r) i ≠ kBusy →
  ∃ rk' evs, Update rk h reqid i w peer now = Ok (rk', evs) ∧ rk_wf rk' ∧
    (others_done pt reqid i → completed evs = [cb] ∧ Check_ rk' h peer = kNotFound) ∧
    (¬ others_done pt reqid i → completed evs = [] ∧ Check_ rk' h peer = kInProgress ∧
       ∃ t', Find rk' h reqid peer = Ok t' ∧
         ∀ j, ct_status t' j = upd (ct_status (rt_chunks r)) i kDone j).
Proof.
  intros Hwf Hpt Hr Hcb Hi Hb. pose proof (Hwf _ _ Hpt) as Hptw.
  destruct (Update_spec rk h reqid i w peer now pt r Hwf Hpt Hr Hi Hb) as (t' & evs & Hs & Hu & Hev).
  rewrite Hcb in Hu, Hev. cbn zeta in *. eexists _, evs. split; [exact Hu|].
  split; [by eapply Update_wf|].
  pose proof (isComplete_after_set _ _ _ _ _ Hptw Hr Hs) as Hc.
  set (pt1 := with_req_map pt _) in *. destruct (isComplete pt1) eqn:Ec.
  - split; [|intros Hn; destruct Hn; by apply Hc]. intros _. split; [done|].
    unfold Check_, erase. simpl. by rewrite lookup_delete_eq.
  - split; [intros Ho; apply Hc in Ho; congruence|]. intros _. split; [done|].
    assert (rk_trackers (put rk (peer, h) pt1) !! (peer, h) = Some pt1) as Hl by apply lookup_insert_eq.
    split; [unfold Check_; by rewrite Hl, Ec|]. exists t'. split.
    + unfold Find. rewrite Hl. cbn [at_or]. rewrite bind_Ok. unfold pt1. simpl.
      by rewrite lookup_insert_eq.
    + by apply (ChunkTracker_Set_inv _ _ _ (ptwf_reqs pt Hptw _ _ Hr) Hs).
Qed.

Lemma RequestTracker_Update_completes_witness : ∃ rk evs,
  rk_run (RequestTracker_new true None true) (take 2 ops_sample) = Ok (rk, evs) ∧
  ∃ rk' evs', Update rk 5 1 0 1 Endpoint_default 2000 = Ok (rk', evs') ∧ rk_wf rk'.
Proof.
  eexists _, _. split; [vm_compute; reflexivity|].
  edestruct (RequestTracker_Update_completes) as (rk' & evs' & E & Hw & _);
    [..|exists rk', evs'; split; [exact E|exact Hw]].
  - eapply (rk_run_wf (take 2 ops_sample) (RequestTracker_new true None true));
      [apply new_wf| |vm_compute; reflexivity].
    repeat constructor; try (intros E; discriminate E); simpl; try done.
  - vm_compute; reflexivity.
  - vm_compute; reflexivity.
  - vm_compute; reflexivity.
  - split; vm_compute; done.
  - vm_compute. done.
Defined.
