(* ===== verification/Transfer.v ===== *)
(** [class Transfer] of [transfer/transfer.{h,cc}]: the chunk protocol over one channel.

    A handler runs on the state [world]: its channel, the two request trackers, the bytes
    of memory it may write, and the calls made so far.  The handlers are written against
    the [Channel] interface; their behaviour on a reliable stream and on a message
    channel is proved from the contracts of [Channel]. *)

From stdpp Require Import base tactics list list_numbers numbers gmap fin_maps.
From S2P Require Import Prelude Codec Types IpAddr Endpoint Bitset ChunkTracker Header.
From S2P Require Import HeaderFlatbuf RequestTracker Channel.
Local Open Scope Z_scope.

(** * Memory *)

Abbreviation mem := (gmap Z Z).

(** [memcpy(addr, data, len(data))]. *)
Fixpoint write_mem (m : mem) (addr : Z) (data : bytes) : mem :=
  match data with [] => m | b :: data' => write_mem (<[addr := b]> m) (addr + 1) data' end.

(** The bytes at [addr, addr + len). *)
Definition read_mem (m : mem) (addr len : Z) : list (option Z) :=
  (λ a, m !! a) <$> seqZ addr len.

(** * State *)

Record world (C : Type) := mkWorld {
  w_ch : C; w_out : RequestTracker; w_in : RequestTracker; w_mem : mem; w_evs : list event;
}.
Arguments mkWorld {_} _ _ _ _ _.
Arguments w_ch {_} _.
Arguments w_out {_} _.
Arguments w_in {_} _.
Arguments w_mem {_} _.
Arguments w_evs {_} _.

Definition with_ch {C} (w : world C) (c : C) : world C :=
  mkWorld c (w_out w) (w_in w) (w_mem w) (w_evs w).
Definition with_in {C} (w : world C) (r : RequestTracker * list event) : world C :=
  mkWorld (w_ch w) (w_out w) r.1 (w_mem w) (w_evs w ++ r.2).
Definition with_out {C} (w : world C) (r : RequestTracker * list event) : world C :=
  mkWorld (w_ch w) r.1 (w_in w) (w_mem w) (w_evs w ++ r.2).
Definition with_mem {C} (w : world C) (m : mem) : world C :=
  mkWorld (w_ch w) (w_out w) (w_in w) m (w_evs w).

(** The values [util::MonoNowUs()] returns at the points where a handler reads it. *)
Record clock := mkClock { ck_start : Z; ck_acquired : Z; ck_done : Z; ck_now : Z }.

Definition kTmpBufSize : Z := Z.shiftl 10 10.

Inductive AnyHeader : Type := HPostInfo (h : PostInfoHeader) | HData (h : DataHeader).

(** * Operations *)

Definition StampRxTrace (chunk : DataHeader) (worker_id : Z) (s : ChunkStatus)
    (t_start_us t_acquired_us now : Z) : DataHeader :=
  if negb (IsTraced (dh_trace chunk)) then chunk
  else mkDataHeader (dh_base chunk) (dh_reqid chunk) (dh_index chunk) (dh_byte_offset chunk)
         (dh_raddr chunk) (SetRx (dh_trace chunk) worker_id s t_start_us t_acquired_us now).

Definition deserialize (buf : bytes) : option AnyHeader :=
  let s := take (Z.to_nat kSize) buf in
  match Deserialize_Data s with
  | Some chunk => Some (HData chunk)
  | None => HPostInfo <$> Deserialize_PostInfo s
  end.

Definition with_len (h : DataHeader) (len : Z) : DataHeader :=
  mkDataHeader (mkHeaderBase (hb_opcode (dh_base h)) (hb_handle (dh_base h)) len)
    (dh_reqid h) (dh_index h) (dh_byte_offset h) (dh_raddr h) (dh_trace h).

Section Ops.
Context {C : Type} `{Channel C}.

Definition SendInfo (c : C) (info : PostInfoHeader) (reqs : list RequestInfo) : res (C * bool) :=
  do* dcheck (PostInfoHeader_IsValid info);
  do* dcheck (negb (bool_decide (reqs = [])));
  let* header := Serialize_PostInfo info kVer in
  let* payload := Serialize_Requests reqs in
  let* matches := IsMatch_PostInfo info payload in
  do* dcheck matches;
  let* r := Write c [header; payload] in
  Ok (r.1, r.2 =? Z.of_nat (length header) + Z.of_nat (length payload)).

Definition SendChunk (c : C) (chunk : DataHeader) (payload : bytes) : res (C * bool) :=
  let* matches := IsMatch_Data chunk payload in
  do* dcheck matches;
  let* header := Serialize_Data chunk kVer in
  let* r := Write c [header; payload] in
  Ok (r.1, r.2 =? Z.of_nat (length header) + Z.of_nat (length payload)).

Definition sendAck (c : C) (chunk : DataHeader) : res (C * bool) :=
  let ack := with_len chunk 0 in
  do* dcheck (DataHeader_IsAck ack);
  let* header := Serialize_Data ack kVer in
  let* r := Write c [header] in
  Ok (r.1, r.2 =? Z.of_nat (length header)).

(** The loop of [drainStream]; each iteration takes [kTmpBufSize] bytes or the rest, so
    [S (left / kTmpBufSize)] iterations are enough. *)
Fixpoint drain_loop (fuel : nat) (c : C) (left : Z) : res (C * bool) :=
  match fuel with
  | O => Ok (c, left =? 0)
  | S fuel' =>
      if 0 <? left then
        let size := Z.min left kTmpBufSize in
        let* '(c', len, _) := Read c [size] in
        if negb (len =? size) then Ok (c', false) else drain_loop fuel' c' (left - size)
      else Ok (c, left =? 0)
  end.
Definition drainStream (c : C) (chunk_size : Z) : res (C * bool) :=
  drain_loop (S (Z.to_nat (chunk_size / kTmpBufSize))) c chunk_size.

(** Registers the requests of a [PostInfo]; shared by the two receive paths. *)
Definition addPost (w : world C) (info : PostInfoHeader) (reqs : list RequestInfo) (start_us : Z)
    : res (world C * bool) :=
  let c := if HasNonzeroIpPort (pi_peer info) then SetPeer (w_ch w) (pi_peer info) else w_ch w in
  let* '(rk, ok, evs) :=
    Add_reqs (w_in w) (hb_handle (pi_base info)) reqs start_us (pi_metadata info) (pi_peer info) in
  Ok (with_in (with_ch w c) (rk, evs), ok).

Definition recvPostInfoStream (w : world C) (info : PostInfoHeader) (ck : clock)
    : res (world C * bool) :=
  let* '(c, len, payload) := Read (w_ch w) [hb_len (pi_base info)] in
  let w := with_ch w c in
  if negb (len =? hb_len (pi_base info)) then Ok (w, false)
  else match Deserialize_Requests payload with
  | None => Ok (w, false)
  | Some reqs => addPost w info reqs (ck_start ck)
  end.

Definition recvAck (w : world C) (chunk : DataHeader) (worker_id : Z) (ck : clock)
    : res (world C * bool) :=
  let* r := Update (w_out w) (hb_handle (dh_base chunk)) (dh_reqid chunk) (dh_index chunk)
              worker_id Endpoint_default (ck_now ck) in
  Ok (with_out w (r.1, EvTxAckRcvd chunk :: r.2), true).

(** [tracker.Release(index, success)] and, when it completes the request,
    [incoming.OnReqComplete(handle, peer)]. *)
Definition releaseChunk (w : world C) (chunk : DataHeader) (peer : Endpoint) (success : bool)
    (ck : clock) : res (world C) :=
  let h := hb_handle (dh_base chunk) in
  let* tracker := Find (w_in w) h (dh_reqid chunk) peer in
  let* '(tracker', last) := ChunkTracker_Release tracker (dh_index chunk) success in
  let w := with_in w (Find_put (w_in w) h (dh_reqid chunk) peer tracker', []) in
  if last : bool
  then let* r := OnReqComplete (w_in w) h peer (ck_now ck) in Ok (with_in w r)
  else Ok w.

Definition recvDataStream (w : world C) (chunk : DataHeader) (worker_id : Z) (ck : clock)
    : res (world C * bool) :=
  let h := hb_handle (dh_base chunk) in
  if DataHeader_IsAck chunk then recvAck w chunk worker_id ck
  else
    let is_traced := IsTraced (dh_trace chunk) in
    let t_start_us := if is_traced then ck_start ck else 0 in
    let peer := GetPeer (w_ch w) in
    let size := hb_len (dh_base chunk) in
    if bool_decide (Check_ (w_in w) h peer = kNotFound) then
      let* '(c, _) := drainStream (w_ch w) size in Ok (with_ch w c, false)
    else
      let dst_addr := GetChunkAddr (w_in w) h (dh_reqid chunk) (dh_byte_offset chunk) peer in
      if dst_addr =? 0 then
        let* '(c, _) := drainStream (w_ch w) size in Ok (with_ch w c, false)
      else
        let* tracker := Find (w_in w) h (dh_reqid chunk) peer in
        let index := dh_index chunk in
        let* '(tracker', s) := ChunkTracker_Acquire tracker index in
        let w := with_in w (Find_put (w_in w) h (dh_reqid chunk) peer tracker', []) in
        let t_acquired_us := if is_traced then ck_acquired ck else 0 in
        match s with
        | kEmpty =>
            let* '(c, len, data) := Read (w_ch w) [size] in
            let w := with_mem (with_ch w c) (write_mem (w_mem w) dst_addr data) in
            let success := len =? size in
            let* w := releaseChunk w chunk peer success ck in
            if negb success then Ok (w, false)
            else
              let chunk := StampRxTrace chunk worker_id s t_start_us t_acquired_us (ck_done ck) in
              let* '(c, ok) := sendAck (w_ch w) chunk in Ok (with_ch w c, ok)
        | kDone =>
            let* '(c, drained) := drainStream (w_ch w) size in
            let chunk := StampRxTrace chunk worker_id s t_start_us t_acquired_us (ck_done ck) in
            let* '(c, success) := sendAck c chunk in
            Ok (with_ch w c, if negb drained then false else success)
        | kBusy =>
            let* '(c, drained) := drainStream (w_ch w) size in
            Ok (with_ch w c, if negb drained then false else true)
        end.

Definition recvStream (w : world C) (worker_id : Z) (ck : clock) : res (world C * bool) :=
  do* dcheck (IsStreamChannel (Type_ (w_ch w)));
  do* dcheck (IsLosslessChannel (Type_ (w_ch w)));
  let* '(c, len, buf) := Read (w_ch w) [kSize] in
  let w := with_ch w c in
  if negb (len =? kSize) then Ok (w, false)
  else match deserialize buf with
  | None => Ok (w, false)
  | Some (HData chunk) => recvDataStream w chunk worker_id ck
  | Some (HPostInfo info) => recvPostInfoStream w info ck
  end.

Definition recvPostInfoMsg (w : world C) (info : PostInfoHeader) (payload : bytes) (ck : clock)
    : res (world C * bool) :=
  let* matches := IsMatch_PostInfo info payload in
  if negb matches then Ok (w, false)
  else match Deserialize_Requests payload with
  | None => Ok (w, false)
  | Some reqs => addPost w info reqs (ck_start ck)
  end.

Definition recvDataMsg (w : world C) (chunk : DataHeader) (payload : bytes) (worker_id : Z)
    (ck : clock) : res (world C * bool) :=
  let h := hb_handle (dh_base chunk) in
  let* matches := IsMatch_Data chunk payload in
  if negb matches then Ok (w, false)
  else if DataHeader_IsAck chunk then recvAck w chunk worker_id ck
  else
    let is_traced := IsTraced (dh_trace chunk) in
    let t_start_us := if is_traced then ck_start ck else 0 in
    let peer := GetPeer (w_ch w) in
    if bool_decide (Check_ (w_in w) h peer = kNotFound) then Ok (w, false)
    else
      let dst_addr := GetChunkAddr (w_in w) h (dh_reqid chunk) (dh_byte_offset chunk) peer in
      if dst_addr =? 0 then Ok (w, false)
      else
        let* tracker := Find (w_in w) h (dh_reqid chunk) peer in
        let index := dh_index chunk in
        let* '(tracker', s) := ChunkTracker_Acquire tracker index in
        let w := with_in w (Find_put (w_in w) h (dh_reqid chunk) peer tracker', []) in
        let t_acquired_us := if is_traced then ck_acquired ck else 0 in
        let chunk' := StampRxTrace chunk worker_id s t_start_us t_acquired_us (ck_done ck) in
        match s with
        | kEmpty =>
            let w := with_mem w (write_mem (w_mem w) dst_addr payload) in
            let* w := releaseChunk w chunk peer true ck in
            let* '(c, ok) := sendAck (w_ch w) chunk' in Ok (with_ch w c, ok)
        | kDone => let* '(c, ok) := sendAck (w_ch w) chunk' in Ok (with_ch w c, ok)
        | kBusy => Ok (w, true)
        end.

Definition recvMsg (w : world C) (worker_id : Z) (ck : clock) : res (world C * bool) :=
  do* dcheck (IsMessageChannel (Type_ (w_ch w)));
  let* '(c, len, buf) := Read (w_ch w) [kTmpBufSize] in
  let w := with_ch w c in
  if len <? kSize then Ok (w, false)
  else match deserialize buf with
  | None => Ok (w, false)
  | Some hd =>
      let payload := take (Z.to_nat (len - kSize)) (drop (Z.to_nat kSize) buf) in
      match hd with
      | HData chunk => recvDataMsg w chunk payload worker_id ck
      | HPostInfo info => recvPostInfoMsg w info payload ck
      end
  end.

Definition Recv (w : world C) (worker_id : Z) (ck : clock) : res (world C * bool) :=
  if IsStreamChannel (Type_ (w_ch w)) then recvStream w worker_id ck
  else do* dcheck (IsMessageChannel (Type_ (w_ch w))); recvMsg w worker_id ck.
End Ops.
