(* ===== verification/Socket.v ===== *)
(** Sockets: [internal/socket/socket_error.h], [socket_util], [socket_base], [socket_tcp] and
    [socket_udp].  The operating system is a parameter: [Kernel] lists the system calls
    the code makes, [StreamKernel] and [DatagramKernel] what their manual pages promise.
    A call that would wait forever (for data, or because every attempt is interrupted)
    is the fault [Blocked]. *)

From stdpp Require Import base tactics list list_numbers numbers gmap fin_maps.
From S2P Require Import Prelude Codec Types IpAddr Endpoint IoVecCursor Channel Transfer.
Local Open Scope Z_scope.

(** * Error codes *)

Definition EINTR : Z := 4.
Definition EAGAIN : Z := 11.
Definition EWOULDBLOCK : Z := EAGAIN.
Definition ENOMEM : Z := 12.
Definition EINVAL : Z := 22.
Definition ENFILE : Z := 23.
Definition EMFILE : Z := 24.
Definition EPROTO : Z := 71.
Definition ECONNABORTED : Z := 103.
Definition ENOBUFS : Z := 105.
Definition EINPROGRESS : Z := 115.

Definition Interrupted (err : Z) : bool := err =? EINTR.
Definition InProgress (err : Z) : bool := err =? EINPROGRESS.
Definition WouldBlock (err : Z) : bool := (err =? EAGAIN) || (err =? EWOULDBLOCK).
Definition OutOfResource (err : Z) : bool :=
  (err =? EMFILE) || (err =? ENFILE) || (err =? ENOBUFS) || (err =? ENOMEM).

Definition kAcceptError : Z := -1.
Definition kAcceptWouldBlock : Z := -2.
Definition kAcceptShutdown : Z := -10.
Definition kAcceptOutOfResource : Z := -11.
Definition kConnectInProgress : Z := 1.
Definition kConnectSuccess : Z := 0.
Definition kConnectError : Z := -1.

Definition O_NONBLOCK : Z := 2048.
Definition SOCK_STREAM : Z := 1.
Definition SOCK_DGRAM : Z := 2.
Definition SOCK_NONBLOCK : Z := 2048.
Definition SOCK_CLOEXEC : Z := 524288.
Definition SOL_SOCKET : Z := 1.
Definition SO_REUSEADDR : Z := 2.
Definition IPPROTO_TCP : Z := 6.
Definition TCP_NODELAY : Z := 1.

(** * System calls

    Each returns the new state of the system, the result and [errno] (meaningful when the
    result is negative).  The gather calls see the bytes of the buffers, the scatter
    call gets their total size and returns the bytes it stored. *)
Class Kernel (K : Type) := {
  fcntl_getfd : K → Z → Z;
  fcntl_getfl : K → Z → Z;
  fcntl_setfl : K → Z → Z → K * Z;
  getsockname : K → Z → option sockaddr;
  socket_ : K → Z → Z → K * Z * Z;
  setsockopt : K → Z → Z → Z → Z → K * Z * Z;
  bind_ : K → Z → sockaddr → K * Z * Z;
  listen_ : K → Z → Z → K * Z * Z;
  accept4 : K → Z → Z → K * Z * Z;
  connect_ : K → Z → sockaddr → K * Z * Z;
  shutdown_ : K → Z → K;
  close_ : K → Z → K;
  sendmsg : K → Z → bytes → K * Z * Z;
  writev : K → Z → bytes → K * Z * Z;
  readv : K → Z → Z → K * Z * Z * bytes;
}.

(** [SocketBase]; [TcpSocket] and [UdpSocket] add no data. *)
Record SocketBase := mkSocketBase {
  sk_fd : Z; sk_family : Z; sk_blocking : bool; sk_connected : bool;
}.

Definition set_connected (s : SocketBase) (b : bool) : SocketBase :=
  mkSocketBase (sk_fd s) (sk_family s) (sk_blocking s) b.
Definition set_blocking (s : SocketBase) (b : bool) : SocketBase :=
  mkSocketBase (sk_fd s) (sk_family s) b (sk_connected s).

(** The bytes a cursor's buffers hold, and storing bytes at the front of them. *)
Definition gather (m : mem) (c : IoVecCursor) : bytes := (λ a, default 0 (m !! a)) <$> pending c.
Definition scatter (m : mem) (c : IoVecCursor) (data : bytes) : mem :=
  foldl (λ m ab, <[ab.1 := ab.2]> m) m (zip (pending c) data).

Section Ops.
Context {K : Type} `{Kernel K}.

(** * [socket_util] *)

Definition IsValidSocket (k : K) (fd : Z) : bool := 0 <=? fcntl_getfd k fd.
Definition IsBlockingMode (k : K) (fd : Z) : bool :=
  (0 <=? fcntl_getfl k fd) && (Z.land (fcntl_getfl k fd) O_NONBLOCK =? 0).
Definition IsNonBlockingMode (k : K) (fd : Z) : bool :=
  (0 <=? fcntl_getfl k fd) && negb (Z.land (fcntl_getfl k fd) O_NONBLOCK =? 0).
Definition MatchesBlockingMode (k : K) (fd : Z) (blocking : bool) : bool :=
  if blocking then IsBlockingMode k fd else IsNonBlockingMode k fd.

Definition sa_family (ss : sockaddr) : Z :=
  match ss with sockaddr_in _ _ => AF_INET | sockaddr_in6 _ _ => AF_INET6 | sockaddr_other f => f end.
(** [AF_UNSPEC] is 0. *)
Definition AddrFamily (k : K) (fd : Z) : Z := from_option sa_family 0 (getsockname k fd).
Definition SelfEndpoint (k : K) (fd : Z) : Endpoint :=
  from_option Endpoint_of_sockaddr Endpoint_default (getsockname k fd).

Definition CreateSocket (k : K) (family type : Z) (blocking : bool) : res (K * Z) :=
  do* dcheck ((family =? AF_INET) || (family =? AF_INET6));
  do* dcheck ((type =? SOCK_STREAM) || (type =? SOCK_DGRAM));
  let t := Z.lor (Z.lor type (if blocking then 0 else SOCK_NONBLOCK)) SOCK_CLOEXEC in
  let '(k, ret, err) := socket_ k family t in
  if ret <? 0 then Ok (k, -1)
  else do* dcheck (MatchesBlockingMode k ret blocking); Ok (k, ret).

(** * [SocketBase] *)

Definition MatchesBlocking (k : K) (s : SocketBase) : bool :=
  if sk_blocking s then IsBlockingMode k (sk_fd s) else IsNonBlockingMode k (sk_fd s).

Definition sk_invariant (k : K) (s : SocketBase) : bool :=
  (0 <=? sk_fd s) && IsValidSocket k (sk_fd s) &&
  ((sk_family s =? AF_INET) || (sk_family s =? AF_INET6)) &&
  (AddrFamily k (sk_fd s) =? sk_family s) && MatchesBlocking k s.

Definition SocketBase_new (k : K) (fd family : Z) (blocking connected : bool) : res SocketBase :=
  let s := mkSocketBase fd family blocking connected in
  do* dcheck (0 <=? fd);
  do* dcheck ((family =? AF_INET) || (family =? AF_INET6));
  do* dcheck (sk_invariant k s);
  Ok s.

Definition IsBlocking (k : K) (s : SocketBase) : res bool :=
  do* dcheck (MatchesBlocking k s); Ok (sk_blocking s).
Definition IsNonBlocking (k : K) (s : SocketBase) : res bool :=
  do* dcheck (MatchesBlocking k s); Ok (negb (sk_blocking s)).

Definition SetSocketBlockingMode (k : K) (fd : Z) (blocking : bool) : K * Z :=
  let flags := fcntl_getfl k fd in
  if flags <? 0 then (k, -1)
  else
    let cmd := if blocking then Z.land flags (Z.lnot O_NONBLOCK) else Z.lor flags O_NONBLOCK in
    fcntl_setfl k fd cmd.

Definition SetBlocking (k : K) (s : SocketBase) (blocking : bool) : res (K * SocketBase * Z) :=
  if Bool.eqb blocking (sk_blocking s) then do* dcheck (MatchesBlocking k s); Ok (k, s, 0)
  else
    let '(k, ret) := SetSocketBlockingMode k (sk_fd s) blocking in
    if ret =? 0 then
      let s := set_blocking s blocking in
      do* dcheck (MatchesBlocking k s); Ok (k, s, 0)
    else do* dcheck (MatchesBlocking k s); Ok (k, s, -1).

(** The socket address of an endpoint, of its own family. *)
Definition BuildSockaddr (e : Endpoint) : res sockaddr :=
  if IsIPv4 (ep_ipaddr e) then BuildIPv4Sockaddr e
  else do* dcheck (IsIPv6 (ep_ipaddr e)); BuildIPv6Sockaddr e.

Definition Base_Bind (k : K) (fd : Z) (local : Endpoint) : res (K * Z * Z) :=
  do* dcheck (IsValidSocket k fd);
  let* sa := BuildSockaddr local in
  Ok (bind_ k fd sa).

Definition Base_Connect (k : K) (fd : Z) (peer : Endpoint) : res (K * Z * Z) :=
  do* dcheck (IsValidSocket k fd);
  do* dcheck (HasNonzeroIpPort peer);
  let* sa := BuildSockaddr peer in
  Ok (connect_ k fd sa).

(** [Bind] of both socket classes: 0 or -1. *)
Definition Socket_Bind (k : K) (s : SocketBase) (local : Endpoint) : res (K * Z) :=
  do* dcheck (sk_invariant k s);
  let* '(k, ret, _) := Base_Bind k (sk_fd s) local in
  Ok (k, if ret <? 0 then -1 else 0).

Definition Socket_Shutdown (k : K) (s : SocketBase) : res (K * SocketBase) :=
  do* dcheck (sk_invariant k s);
  let k := shutdown_ k (sk_fd s) in
  let s := set_connected s false in
  do* dcheck (sk_invariant k s);
  Ok (k, s).

(** The destructors. *)
Definition Socket_destroy (k : K) (s : SocketBase) : res K :=
  do* dcheck (sk_invariant k s);
  let* '(k, s) := if sk_connected s then Socket_Shutdown k s else Ok (k, s) in
  do* dcheck (negb (sk_connected s));
  do* dcheck (sk_invariant k s);
  Ok (close_ k (sk_fd s)).

(** * [TcpSocket] *)

Definition setNoDelay (k : K) (s : SocketBase) : res (K * Z) :=
  do* dcheck (sk_invariant k s);
  let '(k, ret, _) := setsockopt k (sk_fd s) IPPROTO_TCP TCP_NODELAY 1 in
  Ok (k, if ret <? 0 then -1 else 0).

(** Common end of the two [Create]s; a failure drops the socket. *)
Definition Tcp_init (k : K) (fd family : Z) (blocking connected : bool) : res (K * option SocketBase) :=
  let* s := SocketBase_new k fd family blocking connected in
  let* '(k, ret) := setNoDelay k s in
  if ret <? 0 then let* k := Socket_destroy k s in Ok (k, None) else Ok (k, Some s).

Definition Tcp_Create (k : K) (family : Z) (blocking : bool) : res (K * option SocketBase) :=
  let* '(k, fd) := CreateSocket k family SOCK_STREAM blocking in
  if fd <? 0 then Ok (k, None) else Tcp_init k fd family blocking false.

Definition Tcp_Create_accepted (k : K) (fd family : Z) (blocking : bool) : res (K * option SocketBase) :=
  Tcp_init k fd family blocking true.

Definition Tcp_Listen (k : K) (s : SocketBase) (local : Endpoint) (backlog : Z) : res (K * Z) :=
  do* dcheck (sk_invariant k s);
  let '(k, ret, _) := setsockopt k (sk_fd s) SOL_SOCKET SO_REUSEADDR 1 in
  if negb (ret =? 0) then Ok (k, -1)
  else
    let* '(k, ret, _) := Base_Bind k (sk_fd s) local in
    if ret <? 0 then Ok (k, -1)
    else
      let '(k, ret, _) := listen_ k (sk_fd s) backlog in
      Ok (k, if ret <? 0 then -1 else 0).

Fixpoint Accept_loop (fuel : nat) (k : K) (s : SocketBase) (gen_blocking : bool) : res (K * Z) :=
  match fuel with
  | O => Fault Blocked
  | S fuel' =>
      let flags := Z.lor (if gen_blocking then 0 else SOCK_NONBLOCK) SOCK_CLOEXEC in
      let '(k, ret, err) := accept4 k (sk_fd s) flags in
      if ret <? 0 then
        if WouldBlock err then Ok (k, kAcceptWouldBlock)
        else if Interrupted err || (err =? EPROTO) || (err =? ECONNABORTED)
          then Accept_loop fuel' k s gen_blocking
        else if err =? EINVAL then Ok (k, kAcceptShutdown)
        else if OutOfResource err then Ok (k, kAcceptOutOfResource)
        else Ok (k, kAcceptError)
      else do* dcheck (MatchesBlockingMode k ret gen_blocking); Ok (k, ret)
  end.

Definition Tcp_Accept (fuel : nat) (k : K) (s : SocketBase) (gen_blocking : bool) : res (K * Z) :=
  do* dcheck (sk_invariant k s);
  let* nb := IsNonBlocking k s in
  let* b := IsBlocking k s in
  do* dcheck (nb || b);
  Accept_loop fuel k s gen_blocking.

Definition Tcp_Connect (k : K) (s : SocketBase) (peer : Endpoint) : res (K * SocketBase * Z) :=
  do* dcheck (sk_invariant k s);
  do* dcheck (negb (sk_connected s));
  let* nb := IsNonBlocking k s in
  let* b := IsBlocking k s in
  do* dcheck (nb || b);
  let* '(k, ret, err) := Base_Connect k (sk_fd s) peer in
  if ret <? 0 then Ok (k, s, if InProgress err then kConnectInProgress else kConnectError)
  else Ok (k, set_connected s true, kConnectSuccess).

(** The entry assertions shared by the four transfer functions. *)
Definition transfer_entry (k : K) (s : SocketBase) (iovs : IoVecCursor) : res unit :=
  do* dcheck (sk_invariant k s);
  let* nb := IsNonBlocking k s in
  let* b := IsBlocking k s in
  do* dcheck (nb || b);
  do* dcheck (Z.of_nat (TotalItems iovs) <=? IOV_MAX);
  dcheck (1 <=? cu_left iovs).

(** The exit assertion of [TcpSocket::Send] and [Recv]. *)
Definition transfer_exit (k : K) (s : SocketBase) (all done : Z) : res unit :=
  let* b := IsBlocking k s in
  if b && (done =? all) then Ok ()
  else
    let* nb := IsNonBlocking k s in
    dcheck (nb && (0 <=? done) && (done <=? all)).

(** The loop: [None] is an error return, [Some n] that [n] bytes were sent. *)
Fixpoint Send_loop (fuel : nat) (k : K) (s : SocketBase) (m : mem) (iovs : IoVecCursor) (sent : Z)
    : res (K * IoVecCursor * option Z) :=
  match fuel with
  | O => Fault Blocked
  | S fuel' =>
      do* dcheck (1 <=? cu_left iovs);
      let '(k, bytes, err) := sendmsg k (sk_fd s) (gather m iovs) in
      if 0 <? bytes then
        let* '(iovs, fin) := Advance iovs bytes in
        if fin : bool then Ok (k, iovs, Some (sent + bytes))
        else Send_loop fuel' k s m iovs (sent + bytes)
      else if bytes <? 0 then
        if Interrupted err then Send_loop fuel' k s m iovs sent
        else if WouldBlock err then Ok (k, iovs, Some sent)
        else Ok (k, iovs, None)
      else Ok (k, iovs, None)
  end.

Definition Tcp_Send (fuel : nat) (k : K) (s : SocketBase) (m : mem) (iovs : IoVecCursor)
    : res (K * IoVecCursor * Z) :=
  do* transfer_entry k s iovs;
  let all := cu_left iovs in
  let* '(k, iovs, sent) := Send_loop fuel k s m iovs 0 in
  match sent with
  | None => Ok (k, iovs, -1)
  | Some sent => do* transfer_exit k s all sent; Ok (k, iovs, sent)
  end.

(** [Some (n, true)] is the early return at end of file. *)
Fixpoint Recv_loop (fuel : nat) (k : K) (s : SocketBase) (m : mem) (iovs : IoVecCursor) (rcvd : Z)
    : res (K * mem * IoVecCursor * option (Z * bool)) :=
  match fuel with
  | O => Fault Blocked
  | S fuel' =>
      do* dcheck (1 <=? cu_left iovs);
      let '(k, bytes, err, data) := readv k (sk_fd s) (cu_left iovs) in
      let m := scatter m iovs data in
      if 0 <? bytes then
        let* '(iovs, fin) := Advance iovs bytes in
        if fin : bool then Ok (k, m, iovs, Some (rcvd + bytes, false))
        else Recv_loop fuel' k s m iovs (rcvd + bytes)
      else if bytes =? 0 then Ok (k, m, iovs, Some (rcvd, true))
      else if Interrupted err then Recv_loop fuel' k s m iovs rcvd
      else if WouldBlock err then Ok (k, m, iovs, Some (rcvd, false))
      else Ok (k, m, iovs, None)
  end.

Definition Tcp_Recv (fuel : nat) (k : K) (s : SocketBase) (m : mem) (iovs : IoVecCursor)
    : res (K * mem * IoVecCursor * Z) :=
  do* transfer_entry k s iovs;
  let all := cu_left iovs in
  let* '(k, m, iovs, rcvd) := Recv_loop fuel k s m iovs 0 in
  match rcvd with
  | None => Ok (k, m, iovs, -1)
  | Some (rcvd, true) => Ok (k, m, iovs, rcvd)
  | Some (rcvd, false) => do* transfer_exit k s all rcvd; Ok (k, m, iovs, rcvd)
  end.

(** * [UdpSocket] *)

Definition Udp_Create (k : K) (family : Z) (blocking : bool) : res (K * option SocketBase) :=
  let* '(k, fd) := CreateSocket k family SOCK_DGRAM blocking in
  if fd <? 0 then Ok (k, None)
  else let* s := SocketBase_new k fd family blocking false in Ok (k, Some s).

(** The class's own copies of the three operations above. *)
Definition Udp_destroy : K → SocketBase → res K := Socket_destroy.
Definition Udp_Shutdown : K → SocketBase → res (K * SocketBase) := Socket_Shutdown.
Definition Udp_Bind : K → SocketBase → Endpoint → res (K * Z) := Socket_Bind.

Definition Udp_Connect (k : K) (s : SocketBase) (peer : Endpoint) : res (K * SocketBase * Z) :=
  do* dcheck (sk_invariant k s);
  let* '(k, ret, _) := Base_Connect k (sk_fd s) peer in
  if ret <? 0 then Ok (k, s, -1) else Ok (k, set_connected s true, 0).

Fixpoint Udp_Send_loop (fuel : nat) (k : K) (s : SocketBase) (m : mem) (iovs : IoVecCursor) (all : Z)
    : res (K * IoVecCursor * Z) :=
  match fuel with
  | O => Fault Blocked
  | S fuel' =>
      let '(k, bytes, err) := writev k (sk_fd s) (gather m iovs) in
      if 0 <? bytes then
        do* dcheck (bytes =? all);
        let* '(iovs, _) := Advance iovs bytes in
        Ok (k, iovs, bytes)
      else
        do* dcheck (bytes <? 0);
        if Interrupted err then Udp_Send_loop fuel' k s m iovs all
        else if WouldBlock err then Ok (k, iovs, 0)
        else Ok (k, iovs, -1)
  end.

Definition Udp_Send (fuel : nat) (k : K) (s : SocketBase) (m : mem) (iovs : IoVecCursor)
    : res (K * IoVecCursor * Z) :=
  do* transfer_entry k s iovs;
  Udp_Send_loop fuel k s m iovs (cu_left iovs).

Fixpoint Udp_Recv_loop (fuel : nat) (k : K) (s : SocketBase) (m : mem) (iovs : IoVecCursor) (all : Z)
    : res (K * mem * IoVecCursor * Z) :=
  match fuel with
  | O => Fault Blocked
  | S fuel' =>
      let '(k, bytes, err, data) := readv k (sk_fd s) (cu_left iovs) in
      let m := scatter m iovs data in
      if 0 <? bytes then
        do* dcheck (bytes <=? all);
        let* '(iovs, _) := Advance iovs bytes in
        Ok (k, m, iovs, bytes)
      else if bytes <? 0 then
        if Interrupted err then Udp_Recv_loop fuel' k s m iovs all
        else if WouldBlock err then Ok (k, m, iovs, 0)
        else Ok (k, m, iovs, -1)
      else Ok (k, m, iovs, 0)
  end.

Definition Udp_Recv (fuel : nat) (k : K) (s : SocketBase) (m : mem) (iovs : IoVecCursor)
    : res (K * mem * IoVecCursor * Z) :=
  do* transfer_entry k s iovs;
  Udp_Recv_loop fuel k s m iovs (cu_left iovs).
End Ops.

(** * What the system promises about a connected TCP socket

    [k_out k fd] are the bytes the socket has accepted for sending, [k_in k fd] the bytes
    the peer sends that have not been read; a blocking read waits for them, and reads
    end of file once there are none.  A transfer call takes or delivers a prefix of
    what it is offered, or fails without effect; a blocking socket never reports that it
    would block (no code sets a timeout); calls are interrupted at most [k_signals]
    times in a row; and while the connection is up, [k_up], nothing else fails. *)
Class StreamKernel (K : Type) `{Kernel K} := {
  k_in : K → Z → bytes;
  k_out : K → Z → bytes;
  k_up : K → Z → Prop;
  k_patience : K → nat;
  k_signals : nat;
}.

Definition same_socks {K} `{Kernel K} (k k' : K) : Prop := ∀ fd,
  fcntl_getfd k' fd = fcntl_getfd k fd ∧ fcntl_getfl k' fd = fcntl_getfl k fd ∧
  getsockname k' fd = getsockname k fd.

Class StreamKernelLaws (K : Type) `{StreamKernel K} := {
  sl_patience : ∀ k : K, (k_patience k ≤ k_signals (K := K))%nat;
  sl_send : ∀ (k : K) fd data k' n err, data ≠ [] → sendmsg k fd data = (k', n, err) →
    same_socks k k' ∧ n ≤ Z.of_nat (length data) ∧
    k_in k' fd = k_in k fd ∧ k_out k' fd = k_out k fd ++ take (Z.to_nat n) data ∧
    (n < 0 → err = EINTR → (k_patience k' < k_patience k)%nat) ∧
    (n < 0 → IsBlockingMode k fd = true → WouldBlock err = false) ∧
    (k_up k fd → k_up k' fd ∧ n ≠ 0 ∧ (n < 0 → err = EINTR ∨ WouldBlock err = true));
  sl_recv : ∀ (k : K) fd cap k' n err data, 0 < cap → readv k fd cap = (k', n, err, data) →
    same_socks k k' ∧ n ≤ cap ∧ length data = Z.to_nat n ∧
    k_in k fd = data ++ k_in k' fd ∧ k_out k' fd = k_out k fd ∧ (n = 0 → k_in k fd = []) ∧
    (n < 0 → err = EINTR → (k_patience k' < k_patience k)%nat) ∧
    (n < 0 → IsBlockingMode k fd = true → WouldBlock err = false) ∧
    (k_up k fd → k_up k' fd ∧ (n < 0 → err = EINTR ∨ WouldBlock err = true));
}.

Lemma same_socks_refl {K} `{Kernel K} (k : K) : same_socks k k.
Proof. by intros fd. Qed.
Lemma same_socks_trans {K} `{Kernel K} (k1 k2 k3 : K) :
  same_socks k1 k2 → same_socks k2 k3 → same_socks k1 k3.
Proof.
  intros H1 H2 fd. destruct (H1 fd) as (? & ? & ?), (H2 fd) as (? & ? & ?). split_and!; congruence.
Qed.
#[export] Hint Resolve same_socks_refl : core.

(** The socket's own predicates only depend on the table of sockets. *)
Lemma same_matches {K} `{Kernel K} (k k' : K) s : same_socks k k' →
  MatchesBlocking k' s = MatchesBlocking k s.
Proof.
  intros Hs. destruct (Hs (sk_fd s)) as (_ & E & _).
  unfold MatchesBlocking, IsBlockingMode, IsNonBlockingMode. by rewrite E.
Qed.
Lemma same_invariant {K} `{Kernel K} (k k' : K) s : same_socks k k' →
  sk_invariant k' s = sk_invariant k s.
Proof.
  intros Hs. unfold sk_invariant, IsValidSocket, AddrFamily. rewrite (same_matches k k' s Hs).
  destruct (Hs (sk_fd s)) as (-> & _ & ->). done.
Qed.
Lemma invariant_matches {K} `{Kernel K} (k : K) s : sk_invariant k s = true → MatchesBlocking k s = true.
Proof. unfold sk_invariant. intros Hi. by apply andb_prop in Hi as [_ ?]. Qed.
Lemma transfer_entry_ok {K} `{Kernel K} (k : K) s iovs : sk_invariant k s = true →
  Z.of_nat (TotalItems iovs) ≤ IOV_MAX → 1 ≤ cu_left iovs → transfer_entry k s iovs = Ok ().
Proof.
  intros Hi Ht Hl. pose proof (invariant_matches _ _ Hi) as Hm.
  unfold transfer_entry, IsBlocking, IsNonBlocking. rewrite Hi, Hm.
  change (dcheck true) with (Ok ()). rewrite !bind_Ok.
  rewrite bind_dcheck by by destruct (sk_blocking s).
  rewrite bind_dcheck by (apply Z.leb_le; lia). apply dcheck_true. apply Z.leb_le. lia.
Qed.
Lemma transfer_exit_ok {K} `{Kernel K} (k : K) s all done : MatchesBlocking k s = true →
  (if sk_blocking s then done = all else 0 ≤ done ≤ all) → transfer_exit k s all done = Ok ().
Proof.
  intros Hm Hd. unfold transfer_exit, IsBlocking, IsNonBlocking. rewrite Hm.
  change (dcheck true) with (Ok ()). rewrite !bind_Ok. destruct (sk_blocking s).
  - subst. by rewrite Z.eqb_refl.
  - cbn [andb negb]. apply dcheck_true. cbn [andb].
    apply andb_true_intro. split; apply Z.leb_le; lia.
Qed.

Lemma gather_length m c : cursor_wf c → Z.of_nat (length (gather m c)) = cu_left c.
Proof. intros Hwf. unfold gather. rewrite length_fmap. by apply pending_length. Qed.

(** Storing at distinct addresses. *)
Lemma scatter_outside m ads (data : bytes) x : x ∉ ads →
  foldl (λ m ab, <[ab.1 := ab.2]> m) m (zip ads data) !! x = (m : mem) !! x.
Proof.
  revert m data. induction ads as [|a ads IH]; intros m [|b data] Hx; try done. cbn [zip zip_with foldl].
  rewrite IH by set_solver. apply lookup_insert_ne. set_solver.
Qed.
Lemma scatter_inside m ads (data : bytes) : NoDup ads → (length data ≤ length ads)%nat →
  (λ a, foldl (λ m ab, <[ab.1 := ab.2]> m) (m : mem) (zip ads data) !! a) <$> take (length data) ads
  = Some <$> data.
Proof.
  intros Hnd. revert m data. induction Hnd as [|a ads Ha Hnd IH]; intros m [|b data] Hl; try done.
  { simpl in Hl. lia. }
  cbn [length take zip zip_with foldl]. rewrite !fmap_cons. f_equal; [|apply IH; simpl in Hl; lia].
  rewrite scatter_outside by done. apply lookup_insert_eq.
Qed.

Section Stream.
Context {K : Type} `{StreamKernelLaws K}.

(** Progress consumes bytes, interruptions consume patience. *)
Definition effort (k : K) (iovs : IoVecCursor) : nat :=
  (Z.to_nat (cu_left iovs) * S (k_signals (K := K)) + k_patience k)%nat.

Lemma effort_progress (k k' : K) iovs iovs' n : 0 < n → cu_left iovs' = cu_left iovs - n →
  n ≤ cu_left iovs → (effort k' iovs' < effort k iovs)%nat.
Proof.
  intros Hn Hl Hle. unfold effort. pose proof (sl_patience k').
  replace (Z.to_nat (cu_left iovs)) with (Z.to_nat n + Z.to_nat (cu_left iovs'))%nat by lia.
  assert (1 ≤ Z.to_nat n)%nat by lia. nia.
Qed.
Lemma effort_interrupted (k k' : K) iovs : (k_patience k' < k_patience k)%nat →
  (effort k' iovs < effort k iovs)%nat.
Proof. unfold effort. lia. Qed.

(** The socket has accepted the next [n] bytes. *)
Record sends (s : SocketBase) (m : mem) (k k' : K) (iovs iovs' : IoVecCursor) (n : Z) : Prop := {
  sd_socks : same_socks k k';
  sd_range : 0 ≤ n ≤ cu_left iovs;
  sd_in : k_in k' (sk_fd s) = k_in k (sk_fd s);
  sd_out : k_out k' (sk_fd s) = k_out k (sk_fd s) ++ take (Z.to_nat n) (gather m iovs);
  sd_pending : pending iovs' = drop (Z.to_nat n) (pending iovs);
  sd_up : k_up k (sk_fd s) → k_up k' (sk_fd s);
}.

Lemma sends_trans s m (k1 k2 k3 : K) i1 i2 i3 n n' : cu_left i2 = cu_left i1 - n →
  sends s m k1 k2 i1 i2 n → sends s m k2 k3 i2 i3 n' → sends s m k1 k3 i1 i3 (n + n').
Proof.
  intros Hl [Hs Hn Hin Hout Hp Hu] [Hs' Hn' Hin' Hout' Hp' Hu']. split.
  - by eapply same_socks_trans.
  - lia.
  - congruence.
  - rewrite Hout', Hout, <- app_assoc, Z2Nat.inj_add by lia. f_equal.
    unfold gather. rewrite Hp, fmap_drop. apply take_take_drop.
  - rewrite Hp', Hp, drop_drop. f_equal. lia.
  - auto.
Qed.

Lemma sends_nothing s m (k k' : K) iovs n err : cursor_wf iovs → 1 ≤ cu_left iovs → n ≤ 0 →
  sendmsg k (sk_fd s) (gather m iovs) = (k', n, err) → sends s m k k' iovs iovs 0.
Proof.
  intros Hwf Hl Hn Es. pose proof (gather_length m iovs Hwf) as Hg.
  assert (gather m iovs ≠ []) as Hne by (intros E; rewrite E in Hg; simpl in Hg; lia).
  destruct (sl_send _ _ _ _ _ _ Hne Es) as (Hs & _ & Hin & Hout & _ & _ & Hup).
  replace (Z.to_nat n) with O in Hout by lia. split; try done; [lia|]. intros Hu. by destruct (Hup Hu).
Qed.

(** The loop ends with an error, or with [n] more bytes sent. *)
Lemma Send_loop_spec s m fuel : ∀ (k : K) iovs sent, cursor_wf iovs → 1 ≤ cu_left iovs →
  MatchesBlocking k s = true → (effort k iovs < fuel)%nat →
  ∃ k' iovs' o n, Send_loop fuel k s m iovs sent = Ok (k', iovs', o) ∧ sends s m k k' iovs iovs' n ∧
    (k_up k (sk_fd s) → o ≠ None) ∧
    (o = None ∨ o = Some (sent + n) ∧ (sk_blocking s = true → n = cu_left iovs)).
Proof.
  induction fuel as [|fuel IH]; intros k iovs sent Hwf Hl Hm Hf; [lia|]. cbn [Send_loop].
  rewrite bind_dcheck by (apply Z.leb_le; lia).
  pose proof (gather_length m iovs Hwf) as Hg.
  destruct (sendmsg k (sk_fd s) (gather m iovs)) as [[k1 n] err] eqn:Es.
  assert (gather m iovs ≠ []) as Hne by (intros E; rewrite E in Hg; simpl in Hg; lia).
  destruct (sl_send _ _ _ _ _ _ Hne Es) as (Hs & Hn & Hin & Hout & Hi & Hw & Hup).
  rewrite <- (same_matches _ _ s Hs) in Hm.
  destruct (0 <? n) eqn:En; to_prop; [|pose proof (sends_nothing s m k k1 iovs n err Hwf Hl En Es) as Hstep;
    destruct (n <? 0) eqn:En0; to_prop].
  - destruct (Advance_spec iovs n Hwf ltac:(lia)) as (iovs1 & Ea & Hwf1 & Hp1 & Hl1 & _).
    rewrite Ea, bind_Ok. pose proof (pending_length _ Hwf1) as Hpl1.
    assert (sends s m k k1 iovs iovs1 n) as Hstep by (split; try done; [lia|]; intros Hu; by destruct (Hup Hu)).
    destruct (bool_decide (pending iovs1 = [])) eqn:Ed; to_prop.
    + rewrite Ed in Hpl1. simpl in Hpl1. exists k1, iovs1, (Some (sent + n)), n.
      split_and!; try done. right. split; [done|]. intros _. lia.
    + assert (1 ≤ cu_left iovs1) as Hl1' by (destruct (pending iovs1); [done|simpl in Hpl1; lia]).
      destruct (IH k1 iovs1 (sent + n) Hwf1 Hl1' Hm) as (k2 & iovs2 & o & n2 & E & Hsd & Hno & Ho).
      { pose proof (effort_progress k k1 iovs iovs1 n ltac:(lia) Hl1 ltac:(lia)). lia. }
      exists k2, iovs2, o, (n + n2). split; [done|]. split; [by eapply sends_trans|].
      split; [intros Hu; by apply Hno, (sd_up _ _ _ _ _ _ _ Hstep)|].
      destruct Ho as [->|[-> Hb]]; [by left|right]. split; [f_equal; lia|].
      intros Hb'. specialize (Hb Hb'). lia.
  - unfold Interrupted. destruct (err =? EINTR) eqn:Ee; to_prop.
    + pose proof (effort_interrupted k k1 iovs (Hi En0 Ee)).
      destruct (IH k1 iovs sent Hwf Hl Hm ltac:(lia)) as (k2 & iovs2 & o & n2 & E & Hsd & Hno & Ho).
      exists k2, iovs2, o, n2. split; [done|].
      split; [apply (sends_trans s m k k1 k2 iovs iovs iovs2 0 n2); [lia|done..]|].
      split; [|done]. intros Hu. by apply Hno, (sd_up _ _ _ _ _ _ _ Hstep).
    + destruct (WouldBlock err) eqn:Ew.
      * exists k1, iovs, (Some sent), 0. split_and!; try done.
        right. split; [f_equal; lia|]. intros Hb. rewrite (same_matches _ _ s Hs) in Hm.
        unfold MatchesBlocking in Hm. rewrite Hb in Hm. by specialize (Hw En0 Hm).
      * exists k1, iovs, None, 0. split_and!; try done; [|by left].
        intros Hu. destruct (Hup Hu) as (_ & _ & Hx). by destruct (Hx En0).
  - exists k1, iovs, None, 0. split_and!; try done; [|by left].
    intros Hu. destruct (Hup Hu) as (_ & Hx & _). lia.
Qed.

(** The next [n] bytes [got] of the stream are in the buffers. *)
Record receives (s : SocketBase) (k k' : K) (m m' : mem) (iovs iovs' : IoVecCursor) (n : Z) (got : bytes) : Prop := {
  rv_socks : same_socks k k';
  rv_range : 0 ≤ n ≤ cu_left iovs;
  rv_out : k_out k' (sk_fd s) = k_out k (sk_fd s);
  rv_length : length got = Z.to_nat n;
  rv_in : k_in k (sk_fd s) = got ++ k_in k' (sk_fd s);
  rv_got : (λ a, m' !! a) <$> take (Z.to_nat n) (pending iovs) = Some <$> got;
  rv_frame : ∀ x, x ∉ take (Z.to_nat n) (pending iovs) → m' !! x = m !! x;
  rv_pending : pending iovs' = drop (Z.to_nat n) (pending iovs);
  rv_up : k_up k (sk_fd s) → k_up k' (sk_fd s);
}.

Lemma receives_trans s (k1 k2 k3 : K) m1 m2 m3 i1 i2 i3 n n' got got' :
  NoDup (pending i1) → cu_left i2 = cu_left i1 - n →
  receives s k1 k2 m1 m2 i1 i2 n got → receives s k2 k3 m2 m3 i2 i3 n' got' →
  receives s k1 k3 m1 m3 i1 i3 (n + n') (got ++ got').
Proof.
  intros Hnd Hl [Hs Hn Hout Hlen Hin Hg Hf Hp Hu] [Hs' Hn' Hout' Hlen' Hin' Hg' Hf' Hp' Hu'].
  rewrite <- (take_drop (Z.to_nat n) (pending i1)), NoDup_app, <- Hp in Hnd. destruct Hnd as (_ & Hdisj & _).
  assert (take (Z.to_nat (n + n')) (pending i1)
          = take (Z.to_nat n) (pending i1) ++ take (Z.to_nat n') (pending i2)) as Htk
    by (rewrite Z2Nat.inj_add, Hp, take_take_drop by lia; done).
  split; rewrite ?Htk.
  - by eapply same_socks_trans.
  - lia.
  - congruence.
  - rewrite length_app. lia.
  - rewrite Hin, Hin'. apply app_assoc.
  - rewrite !fmap_app, Hg'. f_equal. rewrite <- Hg. apply list_fmap_ext. intros i x Hx.
    apply Hf'. intros Hx2. apply (Hdisj x); [by eapply list_elem_of_lookup_2|]. by eapply subseteq_take.
  - intros x Hx. rewrite not_elem_of_app in Hx. rewrite Hf' by apply Hx. apply Hf, Hx.
  - rewrite Hp', Hp, drop_drop. f_equal. lia.
  - auto.
Qed.

Lemma receives_nothing s (k k' : K) m iovs n err data : 1 ≤ cu_left iovs → n ≤ 0 →
  readv k (sk_fd s) (cu_left iovs) = (k', n, err, data) →
  scatter m iovs data = m ∧ receives s k k' m m iovs iovs 0 [].
Proof.
  intros Hl Hn Er. assert (0 < cu_left iovs) as Hpos by lia.
  destruct (sl_recv _ _ _ _ _ _ _ Hpos Er) as (Hs & _ & Hdl & Hin & Hout & _ & _ & _ & Hup).
  assert (data = []) as -> by (apply length_zero_iff_nil; lia).
  split; [unfold scatter; by rewrite (zip_with_nil_r pair)|]. split; try done; [lia|].
  intros Hu. by destruct (Hup Hu).
Qed.

Lemma receives_some s (k k' : K) m iovs iovs' n err data : cursor_wf iovs → NoDup (pending iovs) → 0 < n →
  readv k (sk_fd s) (cu_left iovs) = (k', n, err, data) → 1 ≤ cu_left iovs →
  pending iovs' = drop (Z.to_nat n) (pending iovs) →
  receives s k k' m (scatter m iovs data) iovs iovs' n data.
Proof.
  intros Hwf Hnd Hn Er Hl Hp. assert (0 < cu_left iovs) as Hpos by lia.
  pose proof (pending_length iovs Hwf) as Hpl.
  destruct (sl_recv _ _ _ _ _ _ _ Hpos Er) as (Hs & Hle & Hdl & Hin & Hout & _ & _ & _ & Hup).
  split; try done; [lia| | |].
  - rewrite <- Hdl. apply scatter_inside; [done|lia].
  - intros x Hx. unfold scatter.
    rewrite <- (zip_with_take_l' pair (Z.to_nat n)) by lia. by apply scatter_outside.
  - intros Hu. by destruct (Hup Hu).
Qed.

(** The loop ends with an error, at the end of the stream ([true]), or with [n] more bytes. *)
Lemma Recv_loop_spec s fuel : ∀ (k : K) m iovs rcvd, cursor_wf iovs → 1 ≤ cu_left iovs →
  NoDup (pending iovs) → MatchesBlocking k s = true → (effort k iovs < fuel)%nat →
  ∃ k' m' iovs' o n got, Recv_loop fuel k s m iovs rcvd = Ok (k', m', iovs', o) ∧
    receives s k k' m m' iovs iovs' n got ∧ (k_up k (sk_fd s) → o ≠ None) ∧
    (o = None ∨ (o = Some (rcvd + n, true) ∧ k_in k' (sk_fd s) = []) ∨
     o = Some (rcvd + n, false) ∧ (sk_blocking s = true → n = cu_left iovs)).
Proof.
  induction fuel as [|fuel IH]; intros k m iovs rcvd Hwf Hl Hnd Hm Hf; [lia|]. cbn [Recv_loop].
  rewrite bind_dcheck by (apply Z.leb_le; lia).
  destruct (readv k (sk_fd s) (cu_left iovs)) as [[[k1 n] err] data] eqn:Er.
  assert (0 < cu_left iovs) as Hpos by lia.
  destruct (sl_recv _ _ _ _ _ _ _ Hpos Er) as (Hs & Hn & Hdl & Hin & Hout & He & Hi & Hw & Hup).
  rewrite <- (same_matches _ _ s Hs) in Hm.
  destruct (0 <? n) eqn:En; to_prop.
  - destruct (Advance_spec iovs n Hwf ltac:(lia)) as (iovs1 & Ea & Hwf1 & Hp1 & Hl1 & _).
    rewrite Ea, bind_Ok. pose proof (pending_length _ Hwf1) as Hpl1.
    pose proof (receives_some s k k1 m iovs iovs1 n err data Hwf Hnd En Er Hl Hp1) as Hstep.
    destruct (bool_decide (pending iovs1 = [])) eqn:Ed; to_prop.
    + rewrite Ed in Hpl1. simpl in Hpl1.
      exists k1, (scatter m iovs data), iovs1, (Some (rcvd + n, false)), n, data.
      split_and!; try done. right. right. split; [done|]. intros _. lia.
    + assert (1 ≤ cu_left iovs1) as Hl1' by (destruct (pending iovs1); [done|simpl in Hpl1; lia]).
      assert (NoDup (pending iovs1)) as Hnd1 by (rewrite Hp1; eapply sublist_NoDup; [done|apply sublist_drop]).
      destruct (IH k1 (scatter m iovs data) iovs1 (rcvd + n) Hwf1 Hl1' Hnd1 Hm)
        as (k2 & m2 & iovs2 & o & n2 & got & E & Hrv & Hno & Ho).
      { pose proof (effort_progress k k1 iovs iovs1 n ltac:(lia) Hl1 ltac:(lia)). lia. }
      exists k2, m2, iovs2, o, (n + n2), (data ++ got). split; [done|].
      split; [by eapply receives_trans|]. split; [intros Hu; by apply Hno, (rv_up _ _ _ _ _ _ _ _ _ Hstep)|].
      destruct Ho as [->|[[-> Hb]|[-> Hb]]]; [by left|right; left|right; right];
        (split; [do 2 f_equal; lia|]); [done|]. intros Hb'. specialize (Hb Hb'). lia.
  - destruct (receives_nothing s k k1 m iovs n err data Hl En Er) as [-> Hstep].
    destruct (n =? 0) eqn:En0; to_prop.
    { exists k1, m, iovs, (Some (rcvd, true)), 0, []. split_and!; try done. right. left.
      split; [do 2 f_equal; lia|]. rewrite (rv_in _ _ _ _ _ _ _ _ _ Hstep) in He. by apply He. }
    assert (n < 0) as Hneg by lia. unfold Interrupted. destruct (err =? EINTR) eqn:Ee; to_prop.
    + pose proof (effort_interrupted k k1 iovs (Hi Hneg Ee)).
      destruct (IH k1 m iovs rcvd Hwf Hl Hnd Hm ltac:(lia))
        as (k2 & m2 & iovs2 & o & n2 & got & E & Hrv & Hno & Ho).
      exists k2, m2, iovs2, o, n2, got. split; [done|].
      split; [apply (receives_trans s k k1 k2 m m m2 iovs iovs iovs2 0 n2 [] got); [done|lia|done..]|].
      split; [|done]. intros Hu. by apply Hno, (rv_up _ _ _ _ _ _ _ _ _ Hstep).
    + destruct (WouldBlock err) eqn:Ew.
      * exists k1, m, iovs, (Some (rcvd, false)), 0, []. split_and!; try done.
        right. right. split; [do 2 f_equal; lia|]. intros Hb. rewrite (same_matches _ _ s Hs) in Hm.
        unfold MatchesBlocking in Hm. rewrite Hb in Hm. by specialize (Hw Hneg Hm).
      * exists k1, m, iovs, None, 0, []. split_and!; try done; [|by left].
        intros Hu. destruct (Hup Hu) as (_ & Hx). by destruct (Hx Hneg).
Qed.
End Stream.

(** * Datagram sockets

    [d_out k fd] are the packets sent, [d_in k fd] the packets that have arrived or will
    arrive. *)
Class DatagramKernel (K : Type) `{Kernel K} := {
  d_in : K → Z → list bytes;
  d_out : K → Z → list bytes;
  d_patience : K → nat;
}.

Class DatagramKernelLaws (K : Type) `{DatagramKernel K} := {
  dl_send : ∀ (k : K) fd data k' n err, data ≠ [] → writev k fd data = (k', n, err) →
    same_socks k k' ∧ d_in k' fd = d_in k fd ∧
    (n = Z.of_nat (length data) ∧ d_out k' fd = d_out k fd ++ [data] ∨
     n < 0 ∧ d_out k' fd = d_out k fd ∧ (err = EINTR → (d_patience k' < d_patience k)%nat));
  dl_recv : ∀ (k : K) fd cap k' n err data, 0 < cap → readv k fd cap = (k', n, err, data) →
    same_socks k k' ∧ d_out k' fd = d_out k fd ∧ length data = Z.to_nat n ∧
    (0 ≤ n ∧ (∃ p, d_in k fd = p :: d_in k' fd ∧ data = take (Z.to_nat cap) p) ∨
     n < 0 ∧ d_in k' fd = d_in k fd ∧ (err = EINTR → (d_patience k' < d_patience k)%nat));
}.

Section Datagram.
Context {K : Type} `{DatagramKernelLaws K}.

Lemma Udp_Send_loop_spec s m iovs fuel : cursor_wf iovs → 1 ≤ cu_left iovs →
  ∀ k : K, (d_patience k < fuel)%nat →
  ∃ k' iovs' r, Udp_Send_loop fuel k s m iovs (cu_left iovs) = Ok (k', iovs', r) ∧ same_socks k k' ∧
    d_in k' (sk_fd s) = d_in k (sk_fd s) ∧
    (r = cu_left iovs ∧ pending iovs' = [] ∧
       d_out k' (sk_fd s) = d_out k (sk_fd s) ++ [gather m iovs] ∨
     (r = 0 ∨ r = -1) ∧ iovs' = iovs ∧ d_out k' (sk_fd s) = d_out k (sk_fd s)).
Proof.
  intros Hwf Hl. pose proof (gather_length m iovs Hwf) as Hg. pose proof (pending_length _ Hwf) as Hpl.
  assert (gather m iovs ≠ []) as Hne by (intros E; rewrite E in Hg; simpl in Hg; lia).
  induction fuel as [|fuel IH]; intros k Hf; [lia|]. cbn [Udp_Send_loop].
  destruct (writev k (sk_fd s) (gather m iovs)) as [[k1 n] err] eqn:Ew.
  destruct (dl_send _ _ _ _ _ _ Hne Ew) as (Hs & Hin & [[-> Hout]|(Hn & Hout & Hi)]).
  - rewrite (proj2 (Z.ltb_lt _ _)), Hg, bind_dcheck by (lia || by apply Z.eqb_eq).
    destruct (Advance_spec iovs (cu_left iovs) Hwf ltac:(lia)) as (iovs1 & Ea & _ & Hp & _).
    rewrite Ea, bind_Ok. exists k1, iovs1, (cu_left iovs). split; [done|]. split; [done|].
    split; [done|]. left. split; [done|]. split; [|done]. rewrite Hp. apply drop_ge. lia.
  - rewrite (proj2 (Z.ltb_ge 0 n)), (bind_dcheck (n <? 0)) by (lia || by apply Z.ltb_lt).
    unfold Interrupted. destruct (err =? EINTR) eqn:Ee; to_prop.
    + destruct (IH k1) as (k2 & iovs2 & r & E & Hs2 & Hin2 & Hr); [specialize (Hi Ee); lia|].
      exists k2, iovs2, r. split; [done|]. split; [by eapply same_socks_trans|].
      rewrite Hin2, Hin, <- Hout. done.
    + destruct (WouldBlock err); eexists k1, iovs, _; (split; [done|]; split; [done|]; split; [done|]);
        right; auto.
Qed.

Lemma Udp_Recv_loop_spec s m iovs fuel : cursor_wf iovs → 1 ≤ cu_left iovs → NoDup (pending iovs) →
  ∀ k : K, (d_patience k < fuel)%nat →
  ∃ k' m' iovs' r, Udp_Recv_loop fuel k s m iovs (cu_left iovs) = Ok (k', m', iovs', r) ∧ same_socks k k' ∧
    d_out k' (sk_fd s) = d_out k (sk_fd s) ∧
    ((∃ p, d_in k (sk_fd s) = p :: d_in k' (sk_fd s) ∧
        let got := take (Z.to_nat (cu_left iovs)) p in
        r = Z.of_nat (length got) ∧ (λ a, m' !! a) <$> take (length got) (pending iovs) = Some <$> got) ∨
     (r = 0 ∨ r = -1) ∧ m' = m ∧ iovs' = iovs ∧ d_in k' (sk_fd s) = d_in k (sk_fd s)).
Proof.
  intros Hwf Hl Hnd. pose proof (pending_length _ Hwf) as Hpl.
  induction fuel as [|fuel IH]; intros k Hf; [lia|]. cbn [Udp_Recv_loop].
  destruct (readv k (sk_fd s) (cu_left iovs)) as [[[k1 n] err] data] eqn:Er.
  assert (0 < cu_left iovs) as Hpos by lia.
  destruct (dl_recv _ _ _ _ _ _ _ Hpos Er) as (Hs & Hout & Hdl & [(Hn & p & Hp & ->)|(Hn & Hin & Hi)]).
  - assert (n = Z.of_nat (length (take (Z.to_nat (cu_left iovs)) p))) as -> by lia.
    set (got := take (Z.to_nat (cu_left iovs)) p) in *.
    assert (Z.of_nat (length got) ≤ cu_left iovs) as Hgl by (unfold got; rewrite length_take; lia).
    assert ((λ a, scatter m iovs got !! a) <$> take (length got) (pending iovs) = Some <$> got) as Hsc
      by (apply scatter_inside; [done|lia]).
    destruct (0 <? Z.of_nat (length got)) eqn:En; to_prop.
    + rewrite bind_dcheck by (apply Z.leb_le; lia).
      destruct (Advance_spec iovs (Z.of_nat (length got)) Hwf ltac:(lia)) as (iovs1 & Ea & _).
      rewrite Ea, bind_Ok. eexists k1, _, iovs1, _. split; [done|]. split; [done|]. split; [done|].
      left. exists p. done.
    + rewrite (proj2 (Z.ltb_ge _ 0)) by lia. eexists k1, _, iovs, _. split; [done|]. split; [done|].
      split; [done|]. left. exists p. split; [done|]. split; [fold got; lia|]. done.
  - assert (data = []) as -> by (apply length_zero_iff_nil; lia).
    replace (scatter m iovs []) with m by (unfold scatter; by rewrite (zip_with_nil_r pair)).
    rewrite (proj2 (Z.ltb_ge 0 n)), (proj2 (Z.ltb_lt n 0)) by lia.
    unfold Interrupted. destruct (err =? EINTR) eqn:Ee; to_prop.
    + destruct (IH k1) as (k2 & m2 & iovs2 & r & E & Hs2 & Hout2 & Hr); [specialize (Hi Ee); lia|].
      exists k2, m2, iovs2, r. split; [done|]. split; [by eapply same_socks_trans|].
      rewrite Hout2, <- Hin. done.
    + destruct (WouldBlock err); eexists k1, m, iovs, _;
        (split; [done|]; split; [done|]; split; [done|]); right; auto.
Qed.
End Datagram.

Lemma Tcp_Send_spec {K} `{StreamKernelLaws K} (fuel : nat) (k : K) (s : SocketBase) (m : mem)
    (iovs : IoVecCursor) :
  sk_invariant k s = true → cursor_wf iovs → 1 ≤ cu_left iovs → Z.of_nat (TotalItems iovs) ≤ IOV_MAX →
  (effort k iovs < fuel)%nat →
  ∃ k' iovs' r n, Tcp_Send fuel k s m iovs = Ok (k', iovs', r) ∧ 0 ≤ n ≤ cu_left iovs ∧
    k_out k' (sk_fd s) = k_out k (sk_fd s) ++ take (Z.to_nat n) (gather m iovs) ∧
    k_in k' (sk_fd s) = k_in k (sk_fd s) ∧ pending iovs' = drop (Z.to_nat n) (pending iovs) ∧
    sk_invariant k' s = true ∧ (k_up k (sk_fd s) → k_up k' (sk_fd s) ∧ r ≠ -1) ∧
    (r = -1 ∨ r = n ∧ (sk_blocking s = true → n = cu_left iovs)).
Proof.
  intros Hi Hwf Hl Ht Hf. pose proof (invariant_matches _ _ Hi) as Hm. unfold Tcp_Send.
  rewrite transfer_entry_ok, bind_Ok by done.
  destruct (Send_loop_spec s m fuel k iovs 0 Hwf Hl Hm Hf)
    as (k' & iovs' & o & n & E & [Hs Hn Hin Hout Hp Hup] & Hno & Ho).
  rewrite E, bind_Ok. rewrite <- (same_invariant _ _ s Hs) in Hi.
  destruct Ho as [->|[-> Hb]].
  { eexists k', iovs', (-1), n. split_and!; try done; try lia. intros Hu. by destruct (Hno Hu). }
  rewrite Z.add_0_l, transfer_exit_ok, bind_Ok.
  - eexists k', iovs', n, n. split_and!; try done; try lia; [|by right].
    intros Hu. split; [by apply Hup|lia].
  - by rewrite (same_matches _ _ s Hs).
  - destruct (sk_blocking s); [by apply Hb|done].
Qed.

Lemma Tcp_Recv_spec {K} `{StreamKernelLaws K} (fuel : nat) (k : K) (s : SocketBase) (m : mem)
    (iovs : IoVecCursor) :
  sk_invariant k s = true → cursor_wf iovs → 1 ≤ cu_left iovs → NoDup (pending iovs) →
  Z.of_nat (TotalItems iovs) ≤ IOV_MAX → (effort k iovs < fuel)%nat →
  ∃ k' m' iovs' r n got, Tcp_Recv fuel k s m iovs = Ok (k', m', iovs', r) ∧ 0 ≤ n ≤ cu_left iovs ∧
    k_in k (sk_fd s) = got ++ k_in k' (sk_fd s) ∧ length got = Z.to_nat n ∧
    (λ a, m' !! a) <$> take (Z.to_nat n) (pending iovs) = Some <$> got ∧
    (∀ x, x ∉ take (Z.to_nat n) (pending iovs) → m' !! x = m !! x) ∧
    k_out k' (sk_fd s) = k_out k (sk_fd s) ∧ pending iovs' = drop (Z.to_nat n) (pending iovs) ∧
    sk_invariant k' s = true ∧ (k_up k (sk_fd s) → k_up k' (sk_fd s) ∧ r ≠ -1) ∧
    (r = -1 ∨ r = n ∧ (sk_blocking s = true → n = cu_left iovs ∨ k_in k' (sk_fd s) = [])).
Proof.
  intros Hi Hwf Hl Hnd Ht Hf. pose proof (invariant_matches _ _ Hi) as Hm. unfold Tcp_Recv.
  rewrite transfer_entry_ok, bind_Ok by done.
  destruct (Recv_loop_spec s fuel k m iovs 0 Hwf Hl Hnd Hm Hf)
    as (k' & m' & iovs' & o & n & got & E & [Hs Hn Hout Hgl Hin Hg Hfr Hp Hup] & Hno & Ho).
  rewrite E, bind_Ok. rewrite <- (same_invariant _ _ s Hs) in Hi.
  destruct Ho as [->|[[-> He]|[-> Hb]]].
  - eexists k', m', iovs', (-1), n, got. split_and!; try done; try lia. intros Hu. by destruct (Hno Hu).
  - eexists k', m', iovs', _, n, got. split; [done|].
    split_and!; try done; try lia; [intros Hu; split; [by apply Hup|lia]|].
    right. split; [lia|]. by right.
  - rewrite Z.add_0_l, transfer_exit_ok, bind_Ok.
    + eexists k', m', iovs', _, n, got. split; [done|].
      split_and!; try done; try lia; [intros Hu; split; [by apply Hup|lia]|].
      right. split; [done|]. intros Hb'. left. by apply Hb.
    + by rewrite (same_matches _ _ s Hs).
    + destruct (sk_blocking s); [by apply Hb|done].
Qed.

Lemma Udp_spec {K} `{DatagramKernelLaws K} (fuel : nat) (k : K) (s : SocketBase) (m : mem)
    (iovs : IoVecCursor) :
  sk_invariant k s = true → cursor_wf iovs → 1 ≤ cu_left iovs → NoDup (pending iovs) →
  Z.of_nat (TotalItems iovs) ≤ IOV_MAX → (d_patience k < fuel)%nat →
  (∃ k' iovs' r, Udp_Send fuel k s m iovs = Ok (k', iovs', r) ∧
    (r = cu_left iovs ∧ pending iovs' = [] ∧
       d_out k' (sk_fd s) = d_out k (sk_fd s) ++ [gather m iovs] ∨
     (r = 0 ∨ r = -1) ∧ iovs' = iovs ∧ d_out k' (sk_fd s) = d_out k (sk_fd s))) ∧
  (∃ k' m' iovs' r, Udp_Recv fuel k s m iovs = Ok (k', m', iovs', r) ∧
    ((∃ p, d_in k (sk_fd s) = p :: d_in k' (sk_fd s) ∧
        let got := take (Z.to_nat (cu_left iovs)) p in
        r = Z.of_nat (length got) ∧ (λ a, m' !! a) <$> take (length got) (pending iovs) = Some <$> got) ∨
     (r = 0 ∨ r = -1) ∧ m' = m ∧ iovs' = iovs ∧ d_in k' (sk_fd s) = d_in k (sk_fd s))).
Proof.
  intros Hi Hwf Hl Hnd Ht Hf. unfold Udp_Send, Udp_Recv. rewrite transfer_entry_ok, !bind_Ok by done.
  split.
  - destruct (Udp_Send_loop_spec s m iovs fuel Hwf Hl k Hf) as (k' & iovs' & r & E & _ & _ & Hr).
    exists k', iovs', r. done.
  - destruct (Udp_Recv_loop_spec s m iovs fuel Hwf Hl Hnd k Hf) as (k' & m' & iovs' & r & E & _ & _ & Hr).
    exists k', m', iovs', r. done.
Qed.

(** * Properties *)

(** [TcpSocket::Send] transfers exactly the prefix it reports.  On any socket, blocking or
    not, whatever partial sends, interruptions and errors the system produces, [Send]
    returns without failing an assertion; the socket has then accepted exactly the first
    [n] bytes of the buffers, in order, and the cursor stands after them, also when the
    result is the error -1; a non-negative result is [n], and on a blocking socket it is
    everything; while the connection is up the result is not -1. *)
Theorem TcpSocket_Send_exact {K} `{StreamKernelLaws K} (fuel : nat) (k : K) (s : SocketBase) (m : mem)
    (iovs : IoVecCursor) :
  sk_invariant k s = true → cursor_wf iovs → 1 ≤ cu_left iovs → Z.of_nat (TotalItems iovs) ≤ IOV_MAX →
  (effort k iovs < fuel)%nat →
  ∃ k' iovs' r n, Tcp_Send fuel k s m iovs = Ok (k', iovs', r) ∧ 0 ≤ n ≤ cu_left iovs ∧
    k_out k' (sk_fd s) = k_out k (sk_fd s) ++ take (Z.to_nat n) (gather m iovs) ∧
    k_in k' (sk_fd s) = k_in k (sk_fd s) ∧ pending iovs' = drop (Z.to_nat n) (pending iovs) ∧
    sk_invariant k' s = true ∧ (k_up k (sk_fd s) → k_up k' (sk_fd s) ∧ r ≠ -1) ∧
    (r = -1 ∨ r = n ∧ (sk_blocking s = true → n = cu_left iovs)).
Proof. apply Tcp_Send_spec. Qed.

(** [TcpSocket::Recv] fills the buffers with the stream.  Whatever the system does, [Recv]
    returns without failing an assertion; the first [n] bytes of the stream are then at
    the first [n] addresses of the buffers and gone from the stream, no other memory
    changed, and the cursor stands after them, also on error; a non-negative result is
    [n], and on a blocking socket it is everything unless the stream has ended; while
    the connection is up the result is not -1. *)
Theorem TcpSocket_Recv_exact {K} `{StreamKernelLaws K} (fuel : nat) (k : K) (s : SocketBase) (m : mem)
    (iovs : IoVecCursor) :
  sk_invariant k s = true → cursor_wf iovs → 1 ≤ cu_left iovs → NoDup (pending iovs) →
  Z.of_nat (TotalItems iovs) ≤ IOV_MAX → (effort k iovs < fuel)%nat →
  ∃ k' m' iovs' r n got, Tcp_Recv fuel k s m iovs = Ok (k', m', iovs', r) ∧ 0 ≤ n ≤ cu_left iovs ∧
    k_in k (sk_fd s) = got ++ k_in k' (sk_fd s) ∧ length got = Z.to_nat n ∧
    (λ a, m' !! a) <$> take (Z.to_nat n) (pending iovs) = Some <$> got ∧
    (∀ x, x ∉ take (Z.to_nat n) (pending iovs) → m' !! x = m !! x) ∧
    k_out k' (sk_fd s) = k_out k (sk_fd s) ∧ pending iovs' = drop (Z.to_nat n) (pending iovs) ∧
    sk_invariant k' s = true ∧ (k_up k (sk_fd s) → k_up k' (sk_fd s) ∧ r ≠ -1) ∧
    (r = -1 ∨ r = n ∧ (sk_blocking s = true → n = cu_left iovs ∨ k_in k' (sk_fd s) = [])).
Proof. apply Tcp_Recv_spec. Qed.

(** UDP keeps packet boundaries.  [UdpSocket::Send] either sends the buffers as one packet
    and returns its length with the cursor exhausted, or sends nothing and leaves the
    cursor alone (result 0 or -1); [Recv] takes exactly one packet, stores as much of it
    as fits and returns that length, or takes nothing and changes nothing. *)
Theorem UdpSocket_packets {K} `{DatagramKernelLaws K} (fuel : nat) (k : K) (s : SocketBase) (m : mem)
    (iovs : IoVecCursor) :
  sk_invariant k s = true → cursor_wf iovs → 1 ≤ cu_left iovs → NoDup (pending iovs) →
  Z.of_nat (TotalItems iovs) ≤ IOV_MAX → (d_patience k < fuel)%nat →
  (∃ k' iovs' r, Udp_Send fuel k s m iovs = Ok (k', iovs', r) ∧
    (r = cu_left iovs ∧ pending iovs' = [] ∧
       d_out k' (sk_fd s) = d_out k (sk_fd s) ++ [gather m iovs] ∨
     (r = 0 ∨ r = -1) ∧ iovs' = iovs ∧ d_out k' (sk_fd s) = d_out k (sk_fd s))) ∧
  (∃ k' m' iovs' r, Udp_Recv fuel k s m iovs = Ok (k', m', iovs', r) ∧
    ((∃ p, d_in k (sk_fd s) = p :: d_in k' (sk_fd s) ∧
        let got := take (Z.to_nat (cu_left iovs)) p in
        r = Z.of_nat (length got) ∧ (λ a, m' !! a) <$> take (length got) (pending iovs) = Some <$> got) ∨
     (r = 0 ∨ r = -1) ∧ m' = m ∧ iovs' = iovs ∧ d_in k' (sk_fd s) = d_in k (sk_fd s))).
Proof. apply Udp_spec. Qed.

(** * Small systems: one blocking socket, short transfers, every other call interrupted *)

Definition sim_fd : Z := 3.

(** Everything but the transfer calls. *)
Definition sim_kernel {A} (snd wrv : A → Z → bytes → A * Z * Z) (rdv : A → Z → Z → A * Z * Z * bytes)
    : Kernel A := {|
  fcntl_getfd := λ _ fd, if fd =? sim_fd then 0 else -1;
  fcntl_getfl := λ _ fd, if fd =? sim_fd then 2 else -1;
  fcntl_setfl := λ k _ _, (k, -1);
  getsockname := λ _ fd, if fd =? sim_fd then Some (sockaddr_in 0 [10; 0; 0; 1]) else None;
  socket_ := λ k _ _, (k, -1, EMFILE);
  setsockopt := λ k _ _ _ _, (k, 0, 0);
  bind_ := λ k _ _, (k, 0, 0);
  listen_ := λ k _ _, (k, 0, 0);
  accept4 := λ k _ _, (k, -1, EINVAL);
  connect_ := λ k _ _, (k, 0, 0);
  shutdown_ := λ k _, k;
  close_ := λ k _, k;
  sendmsg := snd; writev := wrv; readv := rdv;
|}.
Definition sim_socket : SocketBase := mkSocketBase sim_fd AF_INET true true.

Record tcp_sim := mkTcpSim { ts_in : bytes; ts_out : bytes; ts_step : Z; ts_eintr : bool }.

Definition tcp_sim_send (k : tcp_sim) (fd : Z) (data : bytes) : tcp_sim * Z * Z :=
  if ts_eintr k then (mkTcpSim (ts_in k) (ts_out k) (ts_step k) false, -1, EINTR)
  else
    let n := Z.min (Z.of_nat (length data)) (Z.max 1 (ts_step k)) in
    (mkTcpSim (ts_in k) (ts_out k ++ take (Z.to_nat n) data) (ts_step k) true, n, 0).
Definition tcp_sim_recv (k : tcp_sim) (fd cap : Z) : tcp_sim * Z * Z * bytes :=
  if ts_eintr k then (mkTcpSim (ts_in k) (ts_out k) (ts_step k) false, -1, EINTR, [])
  else
    let n := Z.min (Z.min cap (Z.of_nat (length (ts_in k)))) (Z.max 1 (ts_step k)) in
    (mkTcpSim (drop (Z.to_nat n) (ts_in k)) (ts_out k) (ts_step k) true, n, 0,
     take (Z.to_nat n) (ts_in k)).
#[export] Instance tcp_sim_kernel : Kernel tcp_sim := sim_kernel tcp_sim_send tcp_sim_send tcp_sim_recv.
#[export] Instance tcp_sim_stream : StreamKernel tcp_sim := {|
  k_in := λ k _, ts_in k; k_out := λ k _, ts_out k; k_up := λ _ _, True;
  k_patience := λ k, if ts_eintr k then 1%nat else 0%nat; k_signals := 1%nat;
|}.
#[export] Instance tcp_sim_laws : StreamKernelLaws tcp_sim.
Proof.
  split.
  - intros k. simpl. destruct (ts_eintr k); lia.
  - intros k fd data k' n err Hne E. simpl in E. unfold tcp_sim_send in E.
    destruct (ts_eintr k) eqn:Ee; injection E as <- <- <-; simpl; rewrite ?Ee.
    + rewrite take_0, app_nil_r. split_and!; try done; lia.
    + assert (0 < length data)%nat by (destruct data; [done|simpl; lia]).
      split_and!; try done; try lia.
  - intros k fd cap k' n err data Hc E. simpl in E. unfold tcp_sim_recv in E.
    destruct (ts_eintr k) eqn:Ee; injection E as <- <- <- <-; simpl; rewrite ?Ee.
    + split_and!; try done; lia.
    + rewrite take_drop, length_take. split_and!; try done; try lia.
      intros Hz. apply length_zero_iff_nil. lia.
Qed.

Record udp_sim := mkUdpSim { us_in : list bytes; us_out : list bytes; us_eintr : bool }.

Definition udp_sim_send (k : udp_sim) (fd : Z) (data : bytes) : udp_sim * Z * Z :=
  if us_eintr k then (mkUdpSim (us_in k) (us_out k) false, -1, EINTR)
  else (mkUdpSim (us_in k) (us_out k ++ [data]) true, Z.of_nat (length data), 0).
Definition udp_sim_recv (k : udp_sim) (fd cap : Z) : udp_sim * Z * Z * bytes :=
  if us_eintr k then (mkUdpSim (us_in k) (us_out k) false, -1, EINTR, [])
  else match us_in k with
  | [] => (k, -1, EAGAIN, [])
  | p :: ps => (mkUdpSim ps (us_out k) true, Z.of_nat (length (take (Z.to_nat cap) p)), 0,
                take (Z.to_nat cap) p)
  end.
#[export] Instance udp_sim_kernel : Kernel udp_sim := sim_kernel udp_sim_send udp_sim_send udp_sim_recv.
#[export] Instance udp_sim_dgram : DatagramKernel udp_sim := {|
  d_in := λ k _, us_in k; d_out := λ k _, us_out k;
  d_patience := λ k, if us_eintr k then 1%nat else 0%nat;
|}.
#[export] Instance udp_sim_laws : DatagramKernelLaws udp_sim.
Proof.
  split.
  - intros k fd data k' n err Hne E. simpl in E. unfold udp_sim_send in E.
    destruct (us_eintr k) eqn:Ee; injection E as <- <- <-; simpl; rewrite ?Ee;
      (split; [done|]; split; [done|]); [right|left]; split_and!; try done; lia.
  - intros k fd cap k' n err data Hc E. simpl in E. unfold udp_sim_recv in E.
    destruct (us_eintr k) eqn:Ee; [|destruct (us_in k) as [|p ps] eqn:Ep];
      injection E as <- <- <- <-; simpl; rewrite ?Ee, ?Ep; (split; [done|]; split; [done|]).
    + split; [done|]. right. split_and!; try done; lia.
    + split; [done|]. right. split_and!; try done; lia.
    + split; [lia|]. left. split; [lia|]. by exists p.
Qed.

(** Two buffers of three and two bytes. *)
Definition sim_iovs : list IoVec := [mkIoVec 100 3; mkIoVec 200 2].
Definition sim_cursor : IoVecCursor := mkIoVecCursor sim_iovs 0 5 5.
Definition sim_mem : mem := list_to_map (zip [100; 101; 102; 200; 201] [1; 2; 3; 4; 5]).
Lemma sim_cursor_wf : cursor_wf sim_cursor.
Proof. split; [by repeat constructor|simpl; lia|done|simpl; lia|done]. Qed.
Lemma sim_cursor_nodup : NoDup (pending sim_cursor).
Proof. apply (bool_decide_eq_true _). vm_compute. reflexivity. Qed.

Lemma TcpSocket_Send_exact_witness : ∃ k' iovs' r,
  Tcp_Send 20 (mkTcpSim [] [9] 2 true) sim_socket sim_mem sim_cursor = Ok (k', iovs', r) ∧
  ts_out k' = [9; 1; 2; 3; 4; 5] ∧ r = 5.
Proof.
  destruct (TcpSocket_Send_exact 20 (mkTcpSim [] [9] 2 true) sim_socket sim_mem sim_cursor)
    as (k' & iovs' & r & n & E & _ & Hout & _ & _ & _ & _ & Hr);
    [reflexivity|exact sim_cursor_wf|vm_compute; done|vm_compute; done|vm_compute; lia|].
  exists k', iovs', r. split; [exact E|].
  destruct Hr as [->|[-> Hb]]; [vm_compute in E; discriminate E|].
  rewrite (Hb eq_refl) in Hout. split; [|exact (Hb eq_refl)].
  exact Hout.
Defined.

Lemma TcpSocket_Recv_exact_witness : ∃ k' m' iovs' r n,
  Tcp_Recv 20 (mkTcpSim [7; 8; 9] [] 2 true) sim_socket ∅ sim_cursor = Ok (k', m', iovs', r) ∧
  r = n ∧ n = 3.
Proof.
  destruct (TcpSocket_Recv_exact 20 (mkTcpSim [7; 8; 9] [] 2 true) sim_socket ∅ sim_cursor)
    as (k' & m' & iovs' & r & n & got & E & _ & _ & _ & _ & _ & _ & _ & _ & _ & Hr);
    [reflexivity|exact sim_cursor_wf|vm_compute; done|exact sim_cursor_nodup|vm_compute; done
    |vm_compute; lia|].
  exists k', m', iovs', r, n. split; [exact E|].
  assert (r = 3) as -> by (vm_compute in E; by injection E).
  destruct Hr as [Hr|[Hr _]]; [discriminate Hr|]. split; [exact Hr|by rewrite <- Hr].
Defined.

Lemma UdpSocket_packets_witness : ∃ k' iovs' r,
  Udp_Send 5 (mkUdpSim [] [] true) sim_socket sim_mem sim_cursor = Ok (k', iovs', r) ∧ r = 5 ∧
  pending iovs' = [].
Proof.
  destruct (UdpSocket_packets 5 (mkUdpSim [] [] true) sim_socket sim_mem sim_cursor)
    as [(k' & iovs' & r & E & Hr) _];
    [reflexivity|exact sim_cursor_wf|vm_compute; done|exact sim_cursor_nodup|vm_compute; done
    |vm_compute; lia|].
  exists k', iovs', r. split; [exact E|]. destruct Hr as [(-> & Hp & _)|([->| ->] & _)];
    [by split|vm_compute in E; discriminate E|vm_compute in E; discriminate E].
Defined.
