(* ===== verification/SocketChannel.v ===== *)
(** The socket channels, [internal/channel/channel_tcp.h] and [channel_udp.h]: a TCP channel over
    any system that keeps the promises of [StreamKernel] is a reliable stream, so the
    transfer theorems hold over TCP, and a UDP channel is a message channel. *)

From stdpp Require Import base tactics list list_numbers numbers gmap fin_maps.
From S2P Require Import Prelude Codec Types IpAddr Endpoint IoVecCursor Channel Transfer Socket.
Local Open Scope Z_scope.

(** A channel owns its socket; [sc_calls] bounds the system calls of one transfer of [n]
    bytes.  The caller's buffers lie one after the other from address 1. *)
Record SocketChan (K : Type) := mkSocketChan {
  sc_sock : SocketBase; sc_peer : Endpoint; sc_k : K; sc_calls : Z → nat;
}.
Arguments mkSocketChan {_} _ _ _ _.
Arguments sc_sock {_} _.
Arguments sc_peer {_} _.
Arguments sc_k {_} _.
Arguments sc_calls {_} _ _.

Fixpoint layout (base : Z) (lens : list Z) : list IoVec :=
  match lens with [] => [] | n :: lens' => mkIoVec base n :: layout (base + n) lens' end.
Definition lens_of (segs : list bytes) : list Z := (λ s, Z.of_nat (length s)) <$> segs.
Definition buffers (segs : list bytes) : mem := list_to_map (zip (seqZ 1 (total segs)) (concat segs)).

(** The bytes received so far: those at the addresses the cursor has passed. *)
Definition received_bytes (m : mem) (all : Z) (iovs : IoVecCursor) : bytes :=
  omap (λ a, m !! a) (seqZ 1 (all - Z.of_nat (length (pending iovs)))).

Section Chan.
Context {K : Type} `{Kernel K}.

Definition with_kernel (c : SocketChan K) (k : K) : SocketChan K :=
  mkSocketChan (sc_sock c) (sc_peer c) k (sc_calls c).
Definition sc_SetPeer (c : SocketChan K) (p : Endpoint) : SocketChan K :=
  mkSocketChan (sc_sock c) p (sc_k c) (sc_calls c).

(** The assertions at the start of [Write] and [Read], and the cursor. *)
Definition chan_cursor (iovs : list IoVec) : res IoVecCursor :=
  do* dcheck (IoVecs_IsValid iovs);
  do* dcheck (1 <=? Z.of_nat (length iovs));
  do* dcheck (Z.of_nat (length iovs) <=? IOV_MAX);
  do* dcheck (1 <=? TotalLength iovs);
  IoVecCursor_new iovs.

Definition Tcp_Write (c : SocketChan K) (segs : list bytes) : res (SocketChan K * Z) :=
  let* cursor := chan_cursor (layout 1 (lens_of segs)) in
  let* '(k, _, r) := Tcp_Send (sc_calls c (total segs)) (sc_k c) (sc_sock c) (buffers segs) cursor in
  Ok (with_kernel c k, r).

Definition Tcp_Read (c : SocketChan K) (lens : list Z) : res (SocketChan K * Z * bytes) :=
  let* cursor := chan_cursor (layout 1 lens) in
  let* '(k, m, cursor, r) := Tcp_Recv (sc_calls c (lsum lens)) (sc_k c) (sc_sock c) ∅ cursor in
  Ok (with_kernel c k, r, received_bytes m (lsum lens) cursor).

Definition Udp_Write (c : SocketChan K) (segs : list bytes) : res (SocketChan K * Z) :=
  let* cursor := chan_cursor (layout 1 (lens_of segs)) in
  let* '(k, _, r) := Udp_Send (sc_calls c (total segs)) (sc_k c) (sc_sock c) (buffers segs) cursor in
  Ok (with_kernel c k, r).

Definition Udp_Read (c : SocketChan K) (lens : list Z) : res (SocketChan K * Z * bytes) :=
  let* cursor := chan_cursor (layout 1 lens) in
  let* '(k, m, cursor, r) := Udp_Recv (sc_calls c (lsum lens)) (sc_k c) (sc_sock c) ∅ cursor in
  Ok (with_kernel c k, r, received_bytes m (lsum lens) cursor).

(** [Shutdown] returns nothing; a socket that breaks its invariant keeps its state here. *)
Definition sc_Shutdown (c : SocketChan K) : SocketChan K :=
  match Socket_Shutdown (sc_k c) (sc_sock c) with
  | Ok (k, s) => mkSocketChan s (sc_peer c) k (sc_calls c)
  | Fault _ => c
  end.

Definition TcpChannel : Channel (SocketChan K) := {|
  Type_ := λ _, kTCP; GetPeer := sc_peer; SetPeer := sc_SetPeer;
  Write := Tcp_Write; Read := Tcp_Read; Shutdown := sc_Shutdown;
|}.
Definition UdpChannel : Channel (SocketChan K) := {|
  Type_ := λ _, kUDP; GetPeer := sc_peer; SetPeer := sc_SetPeer;
  Write := Udp_Write; Read := Udp_Read; Shutdown := sc_Shutdown;
|}.
End Chan.

(** * Buffers *)

Lemma lsum_nonneg lens : Forall (λ n, 0 < n) lens → 0 ≤ lsum lens.
Proof. unfold lsum. induction 1; simpl; lia. Qed.

Lemma layout_addrs lens : ∀ base, Forall (λ n, 0 < n) lens →
  span_addrs (layout base lens) = seqZ base (lsum lens).
Proof.
  induction lens as [|n lens IH]; intros base Hf; [done|]. inversion Hf; subst.
  cbn [layout]. unfold span_addrs in *. rewrite fmap_cons. cbn [concat]. rewrite IH by done.
  cbn [lsum foldr]. fold (lsum lens). unfold iov_addrs. cbn [iov_base iov_len].
  rewrite seqZ_app; [done|lia|]. by apply lsum_nonneg.
Qed.
Lemma layout_sum lens : ∀ base, iov_sum (layout base lens) = lsum lens.
Proof. induction lens as [|n lens IH]; intros base; [done|]. cbn. unfold iov_sum, lsum in IH. by rewrite IH. Qed.
Lemma layout_length lens : ∀ base, length (layout base lens) = length lens.
Proof. induction lens as [|n lens IH]; intros base; [done|]. cbn. by rewrite IH. Qed.
Lemma layout_ok lens : ∀ base, 0 < base → Forall (λ n, 0 < n) lens → Forall iov_ok (layout base lens).
Proof.
  induction lens as [|n lens IH]; intros base Hb Hf; [constructor|]. inversion Hf; subst.
  constructor; [split; simpl; lia|]. apply IH; [lia|done].
Qed.
Lemma lens_of_sum segs : lsum (lens_of segs) = total segs.
Proof.
  unfold lsum, lens_of, total. induction segs as [|s segs IH]; [done|].
  rewrite fmap_cons. cbn [foldr concat]. rewrite length_app, IH. lia.
Qed.
Lemma lens_of_pos segs : Forall (λ s : bytes, s ≠ []) segs → Forall (λ n, 0 < n) (lens_of segs).
Proof.
  intros Hf. unfold lens_of. apply Forall_fmap. eapply Forall_impl; [exact Hf|].
  intros s Hs. simpl. destruct s; [done|simpl; lia].
Qed.

Lemma lookup_buffers (data : bytes) : ∀ base,
  (λ a, default 0 ((list_to_map (zip (seqZ base (Z.of_nat (length data))) data) : mem) !! a))
    <$> seqZ base (Z.of_nat (length data)) = data.
Proof.
  induction data as [|b data IH]; intros base; [done|].
  cbn [length]. rewrite Nat2Z.inj_succ, seqZ_cons, Z.pred_succ by lia.
  cbn [zip zip_with list_to_map foldr]. rewrite fmap_cons. f_equal.
  - cbn [fst snd]. by rewrite lookup_insert_eq.
  - transitivity ((λ a, default 0 ((list_to_map (zip (seqZ (Z.succ base) (Z.of_nat (length data))) data)
      : mem) !! a)) <$> seqZ (Z.succ base) (Z.of_nat (length data))); [|apply IH]. apply list_fmap_ext. intros i a Ha. apply lookup_seqZ in Ha as [-> _].
    cbn [fst snd]. by rewrite lookup_insert_ne by lia.
Qed.

Lemma chan_cursor_spec lens : lens ≠ [] → Forall (λ n, 0 < n) lens →
  Z.of_nat (length lens) ≤ IOV_MAX → lsum lens < 2 ^ 63 →
  ∃ c, chan_cursor (layout 1 lens) = Ok c ∧ cursor_wf c ∧ pending c = seqZ 1 (lsum lens) ∧
    cu_left c = lsum lens ∧ TotalItems c = length lens ∧ 1 ≤ lsum lens.
Proof.
  intros Hne Hf Hm Hs.
  assert (1 ≤ lsum lens) as Hpos.
  { destruct Hf as [|n lens Hn Hf]; [done|]. pose proof (lsum_nonneg _ Hf). unfold lsum in *. simpl. lia. }
  pose proof (layout_ok lens 1 ltac:(lia) Hf) as Hok.
  destruct (IoVecCursor_new_spec (layout 1 lens) Hok) as (c & Hc & Hwf & Hp & Hl);
    [rewrite layout_sum; lia|].
  exists c. unfold chan_cursor. rewrite layout_length, iov_valid, (bind_dcheck true) by done.
  rewrite bind_dcheck by (apply Z.leb_le; destruct lens; [done|simpl; lia]).
  rewrite bind_dcheck by (apply Z.leb_le; lia).
  rewrite bind_dcheck by (rewrite TotalLength_sum, layout_sum by (rewrite layout_sum; unfold fits; lia);
    apply Z.leb_le; lia).
  split; [done|]. split; [done|]. split; [by rewrite Hp, layout_addrs|].
  rewrite Hl, layout_sum. split; [done|]. split; [|done].
  unfold IoVecCursor_new in Hc. res_inv. simplify_eq. unfold TotalItems. simpl. apply layout_length.
Qed.

Lemma omap_all {A B} (f : A → option B) (l : list A) got : f <$> l = Some <$> got → omap f l = got.
Proof.
  revert got. induction l as [|x l IH]; intros [|y got] E; try done.
  rewrite !fmap_cons in E. injection E as E1 E2. cbn. by rewrite E1, (IH got E2).
Qed.

(** * A TCP channel is a reliable stream *)

Section Tcp.
Context {K : Type} `{StreamKernelLaws K}.

(** Enough system calls for every transfer of [n] bytes. *)
Definition patient (c : SocketChan K) : Prop :=
  ∀ n, 0 ≤ n → (Z.to_nat n * S (k_signals (K := K)) + k_signals (K := K) < sc_calls c n)%nat.

Definition tcp_usable (c : SocketChan K) : Prop :=
  sk_invariant (sc_k c) (sc_sock c) = true ∧ sk_blocking (sc_sock c) = true ∧
  k_up (sc_k c) (sk_fd (sc_sock c)) ∧ patient c.

Definition tcp_stream : @StreamChannel (SocketChan K) TcpChannel := {|
  inbound := λ c : SocketChan K, k_in (sc_k c) (sk_fd (sc_sock c));
  outbound := λ c : SocketChan K, k_out (sc_k c) (sk_fd (sc_sock c));
  usable := tcp_usable;
|}.

Lemma patient_effort c cursor n : patient c → 0 ≤ n → cu_left cursor = n →
  (effort (sc_k c) cursor < sc_calls c n)%nat.
Proof.
  intros Hp Hn Hl. unfold effort. rewrite Hl. specialize (Hp n Hn).
  pose proof (sl_patience (sc_k c)). lia.
Qed.

Lemma gather_buffers segs cursor : pending cursor = seqZ 1 (total segs) →
  gather (buffers segs) cursor = concat segs.
Proof. intros Hp. unfold gather, buffers. rewrite Hp. apply lookup_buffers. Qed.

Lemma Tcp_Write_all c segs : tcp_usable c → segs ≠ [] → Forall (λ s, s ≠ []) segs →
  Z.of_nat (length segs) ≤ IOV_MAX → total segs < 2 ^ 63 →
  ∃ k, Tcp_Write c segs = Ok (with_kernel c k, total segs) ∧ tcp_usable (with_kernel c k) ∧
    k_in k (sk_fd (sc_sock c)) = k_in (sc_k c) (sk_fd (sc_sock c)) ∧
    k_out k (sk_fd (sc_sock c)) = k_out (sc_k c) (sk_fd (sc_sock c)) ++ concat segs.
Proof.
  intros (Hi & Hb & Hu & Hp) Hne Hf Hm Ht. unfold Tcp_Write.
  destruct (chan_cursor_spec (lens_of segs)) as (cur & -> & Hwf & Hpe & Hl & Hti & Hpos).
  { unfold lens_of. by intros E%fmap_nil_inv. }
  { by apply lens_of_pos. }
  { unfold lens_of. by rewrite length_fmap. }
  { by rewrite lens_of_sum. }
  rewrite lens_of_sum in Hpe, Hl, Hpos. rewrite bind_Ok.
  destruct (Tcp_Send_spec (sc_calls c (total segs)) (sc_k c) (sc_sock c) (buffers segs) cur)
    as (k & cur' & r & n & E & Hn & Hout & Hin & _ & Hi' & Hup & Hr); [done|done|lia| | |].
  { rewrite Hti. unfold lens_of. by rewrite length_fmap. }
  { by apply patient_effort; [|lia|]. }
  rewrite E, bind_Ok. destruct (Hup Hu) as [Hu' Hr1]. destruct Hr as [|[-> Hall]]; [done|].
  specialize (Hall Hb). rewrite Hall, Hl. exists k. split; [done|]. split; [by split|]. split; [done|].
  rewrite Hout, (gather_buffers segs cur Hpe). f_equal. apply take_ge. unfold total in Hl. lia.
Qed.

Lemma Tcp_Read_all c n : tcp_usable c → 0 < n < 2 ^ 63 →
  n ≤ Z.of_nat (length (k_in (sc_k c) (sk_fd (sc_sock c)))) →
  ∃ k, Tcp_Read c [n] = Ok (with_kernel c k, n, take (Z.to_nat n) (k_in (sc_k c) (sk_fd (sc_sock c)))) ∧
    tcp_usable (with_kernel c k) ∧
    k_in k (sk_fd (sc_sock c)) = drop (Z.to_nat n) (k_in (sc_k c) (sk_fd (sc_sock c))) ∧
    k_out k (sk_fd (sc_sock c)) = k_out (sc_k c) (sk_fd (sc_sock c)).
Proof.
  intros (Hi & Hb & Hu & Hp) Hn Havail. unfold Tcp_Read.
  assert (lsum [n] = n) as Hs by (unfold lsum; simpl; lia).
  destruct (chan_cursor_spec [n]) as (cur & -> & Hwf & Hpe & Hl & Hti & Hpos).
  { done. } { constructor; [lia|constructor]. } { done. } { lia. }
  rewrite Hs in *. rewrite bind_Ok.
  destruct (Tcp_Recv_spec (sc_calls c n) (sc_k c) (sc_sock c) ∅ cur)
    as (k & m' & cur' & r & n' & got & E & Hn' & Hin & Hgl & Hg & _ & Hout & Hp' & Hi' & Hup & Hr);
    [done|done|lia|rewrite Hpe; apply NoDup_seqZ|by rewrite Hti|by apply patient_effort; [|lia|]|].
  rewrite E, bind_Ok. destruct (Hup Hu) as [Hu' Hr1]. destruct Hr as [|[-> Hall]]; [done|].
  assert (n' = n) as ->.
  { destruct (Hall Hb) as [->|He]; [done|]. rewrite Hin, He, app_nil_r in Havail. lia. }
  exists k. split.
  - do 3 f_equal. rewrite Hin, take_app_length' by lia. unfold received_bytes.
    rewrite Hp', Hpe, (drop_ge (seqZ 1 n)), Z.sub_0_r by (rewrite length_seqZ; lia).
    rewrite Hpe, take_ge in Hg by (rewrite length_seqZ; lia). by apply omap_all.
  - split; [by split|]. split; [|done]. rewrite Hin. symmetry. apply drop_app_length'. lia.
Qed.

(** C20: A TCP channel implements the reliable-stream contract.  Over any system that keeps its
    promises about connected sockets, with a blocking socket whose connection is up,
    [Write] of any buffers sends exactly their bytes in order, [Read] of [n] bytes that
    are on their way returns exactly the next [n], and the channel stays usable; so
    every theorem proved for reliable streams holds over TCP. *)
Theorem TcpChannel_is_stream : @StreamLaws (SocketChan K) TcpChannel tcp_stream.
Proof.
  split.
  - done.
  - done.
  - intros c p. split; [done|]. split; [done|]. intros (Hi & Hb & Hu & Hp). done.
  - intros c segs Hu Hne Hf Hm Ht.
    destruct (Tcp_Write_all c segs Hu Hne Hf Hm Ht) as (k & E & Hu' & Hin & Hout).
    exists (with_kernel c k). done.
  - intros c n Hu Hn Hav. destruct (Tcp_Read_all c n Hu Hn Hav) as (k & E & Hu' & Hin & Hout).
    exists (with_kernel c k). done.
Qed.
End Tcp.

(** ** A channel over the small system *)

Definition tcp_chan (incoming : bytes) : SocketChan tcp_sim :=
  mkSocketChan sim_socket Endpoint_default (mkTcpSim incoming [] 2 true) (λ n, Z.to_nat (3 * n + 5)).

Lemma TcpChannel_is_stream_witness : ∃ c', Tcp_Write (tcp_chan []) [[1; 2; 3]; [4; 5]] = Ok (c', 5) ∧
  ts_out (sc_k c') = [1; 2; 3; 4; 5].
Proof.
  destruct (@st_write _ _ _ (TcpChannel_is_stream (K := tcp_sim)) (tcp_chan []) [[1; 2; 3]; [4; 5]])
    as (c' & E & _ & _ & _ & Hout).
  - split; [reflexivity|]. split; [reflexivity|]. split; [exact I|]. intros n Hn. simpl. lia.
  - done.
  - repeat constructor; done.
  - done.
  - done.
  - exists c'. split; [exact E|exact Hout].
Defined.
