(* ===== verification/Trace.v ===== *)
(** Tracing: [trace/trace_event.h], [trace/trace_buffer.{h,cc}], [trace/trace_sampler.h],
    [trace/trace_context.h] and [trace/trace_recorder.{h,cc}].  [util::MonoNowUs()] is an
    argument [now].  A slot of the ring buffer holds one event: its four atomic words are
    written and read by one [memcpy] each way. *)

From stdpp Require Import base tactics list list_numbers numbers.
From S2P Require Import Prelude Codec Types IpAddr Endpoint ChunkTracker Header.
Local Open Scope Z_scope.

(** * Events *)

Inductive TraceStage : Type :=
  | kPostEntry | kEngineEnqueued | kAllRequestsDone | kCallbackDone | kPollReaped
  | kEngineDequeued | kConnSetupStart | kGetPeerHostInfoDone | kConnSetupDone
  | kWorkerEnqueued | kRequestDone
  | kWorkerDequeued | kTxWriteDone | kRdmaPostSend | kRdmaCqeReaped | kTxAckRcvd.
#[export] Instance TraceStage_eq_dec : EqDecision TraceStage.
Proof. solve_decision. Defined.

Definition TraceStage_u8 (s : TraceStage) : Z :=
  match s with
  | kPostEntry => 1 | kEngineEnqueued => 2 | kAllRequestsDone => 3 | kCallbackDone => 4
  | kPollReaped => 5 | kEngineDequeued => 20 | kConnSetupStart => 21
  | kGetPeerHostInfoDone => 22 | kConnSetupDone => 23 | kWorkerEnqueued => 24
  | kRequestDone => 25 | kWorkerDequeued => 40 | kTxWriteDone => 41 | kRdmaPostSend => 42
  | kRdmaCqeReaped => 43 | kTxAckRcvd => 44
  end.

Record TraceEvent := mkTraceEvent {
  te_timestamp_us : Z; te_handle : Z; te_reqid : Z; te_stage : TraceStage; te_metadata : Z;
  te_worker_id : Z; te_chunk_idx : Z; te_metric1 : Z; te_metric2 : Z;
}.
Definition kNoChunk : Z := 2 ^ 32 - 1.
Definition TraceEvent_default : TraceEvent := mkTraceEvent 0 0 0 kPostEntry 0 0 kNoChunk 0 0.
#[export] Instance TraceEvent_eq_dec : EqDecision TraceEvent.
Proof. solve_decision. Defined.

(** * Ring buffer *)

Definition kCapacity : Z := 32768.
Definition kMask : Z := kCapacity - 1.

Record TraceBuffer := mkTraceBuffer { tb_events : list TraceEvent; tb_write_idx : Z }.
Definition TraceBuffer_new : TraceBuffer :=
  mkTraceBuffer (replicate (Z.to_nat kCapacity) TraceEvent_default) 0.
Definition TotalRecorded (b : TraceBuffer) : Z := tb_write_idx b.

Definition TraceBuffer_Record (b : TraceBuffer) (ev : TraceEvent) : TraceBuffer :=
  let idx := tb_write_idx b in
  mkTraceBuffer (<[Z.to_nat (Z.land idx kMask) := ev]> (tb_events b)) (u64 (idx + 1)).

Definition TraceBuffer_Snapshot (b : TraceBuffer) : list TraceEvent :=
  let n := tb_write_idx b in
  if n =? 0 then []
  else
    let count := Z.min n kCapacity in
    let start := n - count in
    (λ i, default TraceEvent_default (tb_events b !! Z.to_nat (Z.land (start + i) kMask)))
      <$> seqZ 0 count.

Definition TraceBuffer_Clear (b : TraceBuffer) : TraceBuffer :=
  mkTraceBuffer ((λ _, TraceEvent_default) <$> tb_events b) 0.

(** * Sampler *)

Record TraceSampler := mkTraceSampler { ts_sample_every_n : Z; ts_counter : Z }.
Definition TraceSampler_new (n : Z) : TraceSampler := mkTraceSampler n 0.
Definition SetSampleEveryN (s : TraceSampler) (n : Z) : TraceSampler := mkTraceSampler n (ts_counter s).
Definition IsEnabled (s : TraceSampler) : bool := 0 <? ts_sample_every_n s.
Definition ShouldSample (s : TraceSampler) : TraceSampler * bool :=
  let n := ts_sample_every_n s in
  if n =? 0 then (s, false)
  else if n =? 1 then (s, true)
  else (mkTraceSampler n (u64 (ts_counter s + 1)), ts_counter s `mod` n =? 0).

(** * Recorder *)

Record TraceRecorder := mkTraceRecorder { tr_sampler : TraceSampler; tr_buffer : TraceBuffer }.
Definition TraceRecorder_new (sample_every_n : Z) : TraceRecorder :=
  mkTraceRecorder (TraceSampler_new sample_every_n) TraceBuffer_new.

Definition record (r : TraceRecorder) (ev : TraceEvent) : TraceRecorder :=
  mkTraceRecorder (tr_sampler r) (TraceBuffer_Record (tr_buffer r) ev).
Definition Configure (r : TraceRecorder) (sample_every_n : Z) : TraceRecorder :=
  mkTraceRecorder (SetSampleEveryN (tr_sampler r) sample_every_n) (tr_buffer r).
Definition TraceRecorder_Clear (r : TraceRecorder) : TraceRecorder :=
  mkTraceRecorder (tr_sampler r) (TraceBuffer_Clear (tr_buffer r)).

(** The context is [is_traced]. *)
Definition MaybeStartTrace (r : TraceRecorder) : TraceRecorder * bool :=
  let '(s, b) := ShouldSample (tr_sampler r) in
  (mkTraceRecorder s (tr_buffer r), if negb b then false else true).

Definition RecordConnSetupStage (r : TraceRecorder) (traced : bool) (h metric1 : Z) (stage : TraceStage)
    (now : Z) : TraceRecorder :=
  if negb traced then r
  else record r (mkTraceEvent now h 0 stage 0 0 kNoChunk metric1 0).
Definition RecordSendChunkStage (r : TraceRecorder) (chunk : DataHeader) (worker ts : Z)
    (stage : TraceStage) : TraceRecorder :=
  record r (mkTraceEvent ts (hb_handle (dh_base chunk)) (dh_reqid chunk) stage 0 (ClampI16 worker)
              (dh_index chunk) (hb_len (dh_base chunk)) 0).
Definition RecordCompletionStage (r : TraceRecorder) (traced : bool) (h reqid index worker : Z)
    (stage : TraceStage) (now : Z) : TraceRecorder :=
  if negb traced then r
  else record r (mkTraceEvent now h reqid stage 0 (ClampI16 worker) index 0 0).

Definition RecordEngineEnqueued (r : TraceRecorder) (traced : bool) (h start_mono_us num_requests : Z)
    (op : Op) (now : Z) : TraceRecorder :=
  if negb traced then r
  else
    let r := record r (mkTraceEvent start_mono_us h 0 kPostEntry op 0 kNoChunk (ClampU32 num_requests) 0) in
    record r (mkTraceEvent now h 0 kEngineEnqueued op 0 kNoChunk (ClampU32 num_requests) 0).
Definition RecordEngineDequeued (r : TraceRecorder) (traced : bool) (h reqid : Z) (req : Request)
    (now : Z) : TraceRecorder :=
  if negb traced then r
  else record r (mkTraceEvent now h reqid kEngineDequeued (rq_op req) 0 kNoChunk (ClampU32 (rq_len req)) 0).
Definition RecordConnSetupStart (r : TraceRecorder) (traced : bool) (h num_conns now : Z) : TraceRecorder :=
  RecordConnSetupStage r traced h (u32 (Z.max 0 num_conns)) kConnSetupStart now.
Definition RecordGetPeerHostInfoDone (r : TraceRecorder) (traced : bool) (h now : Z) : TraceRecorder :=
  RecordConnSetupStage r traced h 0 kGetPeerHostInfoDone now.
Definition RecordConnSetupDone (r : TraceRecorder) (traced : bool) (h num_workers now : Z) : TraceRecorder :=
  RecordConnSetupStage r traced h (ClampU32 num_workers) kConnSetupDone now.
Definition RecordWorkerEnqueued (r : TraceRecorder) (chunk : DataHeader) (worker now : Z) : TraceRecorder :=
  if negb (IsTraced (dh_trace chunk)) then r
  else RecordSendChunkStage r chunk worker now kWorkerEnqueued.

(** Stamps [chunk.trace.tx_send_us] in place. *)
Definition stamp_tx (chunk : DataHeader) (now : Z) : DataHeader :=
  if negb (IsTraced (dh_trace chunk)) then chunk
  else mkDataHeader (dh_base chunk) (dh_reqid chunk) (dh_index chunk) (dh_byte_offset chunk)
         (dh_raddr chunk) (SetTxSend (dh_trace chunk) now).
Definition RecordWorkerDequeued (r : TraceRecorder) (chunk : DataHeader) (worker now : Z)
    : TraceRecorder * DataHeader :=
  if negb (IsTraced (dh_trace chunk)) then (r, chunk)
  else
    let chunk := stamp_tx chunk now in
    (RecordSendChunkStage r chunk worker now kWorkerDequeued, chunk).
Definition RecordTxWriteDone (r : TraceRecorder) (chunk : DataHeader) (worker now : Z) : TraceRecorder :=
  if negb (IsTraced (dh_trace chunk)) then r
  else RecordSendChunkStage r chunk worker now kTxWriteDone.
Definition RecordTxAckRcvd (r : TraceRecorder) (chunk : DataHeader) (now : Z) : TraceRecorder :=
  let t := dh_trace chunk in
  if negb (IsTraced t) then r
  else record r (mkTraceEvent now (hb_handle (dh_base chunk)) (dh_reqid chunk) kTxAckRcvd
                   (rx_chunk_status t) (rx_worker_id t) (dh_index chunk) (rx_payload_us t)
                   (rx_acquire_us t)).
Definition RecordRequestDone (r : TraceRecorder) (traced : bool) (h reqid index worker now : Z) : TraceRecorder :=
  RecordCompletionStage r traced h reqid index worker kRequestDone now.
Definition RecordAllRequestsDone (r : TraceRecorder) (traced : bool) (h reqid index worker now : Z) : TraceRecorder :=
  RecordCompletionStage r traced h reqid index worker kAllRequestsDone now.
Definition RecordCallbackDone (r : TraceRecorder) (traced : bool) (h worker now : Z) : TraceRecorder :=
  if negb traced then r
  else record r (mkTraceEvent now h 0 kCallbackDone 0 (ClampI16 worker) kNoChunk 0 0).
Definition RecordPollReaped (r : TraceRecorder) (traced : bool) (h now : Z) : TraceRecorder :=
  if negb traced then r else record r (mkTraceEvent now h 0 kPollReaped 0 0 kNoChunk 0 0).

(** * Lemmas *)

Definition record_all (b : TraceBuffer) (evs : list TraceEvent) : TraceBuffer :=
  foldl TraceBuffer_Record b evs.

Lemma land_mask x : 0 ≤ x → Z.land x kMask = x `mod` kCapacity.
Proof. intros. change kMask with (Z.ones 15). rewrite Z.land_ones by lia. done. Qed.

(** The slots hold the last [kCapacity] events, the event [k] at [k mod kCapacity]. *)
Record holds (b : TraceBuffer) (evs : list TraceEvent) : Prop := {
  ho_len : Z.of_nat (length (tb_events b)) = kCapacity;
  ho_idx : tb_write_idx b = Z.of_nat (length evs);
  ho_ev : ∀ k, Z.of_nat (length evs) - kCapacity ≤ k < Z.of_nat (length evs) → 0 ≤ k →
    tb_events b !! Z.to_nat (k `mod` kCapacity) = evs !! Z.to_nat k;
}.

Lemma mod_inj_window a b : 0 ≤ b → a - kCapacity < b < a → a `mod` kCapacity ≠ b `mod` kCapacity.
Proof.
  intros Hb Hab E. assert (0 < kCapacity) as Hc by done.
  assert ((a - b) `mod` kCapacity = 0) as Hm by (rewrite Zminus_mod, E, Z.sub_diag; done).
  rewrite Z.mod_small in Hm by lia. lia.
Qed.

Lemma holds_record b evs ev : holds b evs → Z.of_nat (length evs) + 1 < 2 ^ 64 →
  holds (TraceBuffer_Record b ev) (evs ++ [ev]).
Proof.
  intros [Hl Hi He] Hb. assert (0 < kCapacity) as Hc by done.
  unfold TraceBuffer_Record. rewrite land_mask by lia. split; simpl.
  - by rewrite length_insert.
  - rewrite Hi, wrap_small by (unfold fits; lia). rewrite length_app. simpl. lia.
  - rewrite length_app. cbn [length]. intros k Hk Hk0. rewrite Hi.
    pose proof (Z.mod_pos_bound (Z.of_nat (length evs)) kCapacity Hc).
    destruct (decide (k = Z.of_nat (length evs))) as [->|Hne].
    + rewrite list_lookup_insert_eq by lia. rewrite Nat2Z.id, lookup_app_r by lia.
      by rewrite Nat.sub_diag.
    + rewrite list_lookup_insert_ne.
      * rewrite He by lia. by rewrite lookup_app_l by lia.
      * pose proof (mod_inj_window (Z.of_nat (length evs)) k Hk0 ltac:(lia)).
        pose proof (Z.mod_pos_bound k kCapacity Hc). lia.
Qed.

Lemma holds_record_all evs : ∀ b pre, holds b pre → Z.of_nat (length pre + length evs) < 2 ^ 64 →
  holds (record_all b evs) (pre ++ evs).
Proof.
  induction evs as [|ev evs IH]; intros b pre Hb Hl; simpl in *; [by rewrite app_nil_r|].
  replace (pre ++ ev :: evs) with ((pre ++ [ev]) ++ evs) by by rewrite <- app_assoc.
  apply IH; [apply holds_record; [done|lia]|]. rewrite length_app. simpl. lia.
Qed.

Lemma holds_new b : Z.of_nat (length (tb_events b)) = kCapacity → tb_write_idx b = 0 → holds b [].
Proof. intros Hl Hi. split; [done|done|]. simpl. lia. Qed.

Lemma holds_snapshot b evs : holds b evs →
  TraceBuffer_Snapshot b = drop (length evs - Z.to_nat kCapacity) evs.
Proof.
  intros [Hl Hi He]. unfold TraceBuffer_Snapshot. rewrite Hi.
  assert (0 < kCapacity) as Hc by done.
  destruct (Z.of_nat (length evs) =? 0) eqn:E; to_prop.
  - destruct evs; [done|simpl in E; lia].
  - apply list_eq. intros i. rewrite list_lookup_fmap, lookup_drop.
    destruct (decide (Z.of_nat i < Z.min (Z.of_nat (length evs)) kCapacity)) as [Hlt|Hge].
    + rewrite (lookup_seqZ_lt 0) by lia. simpl. rewrite land_mask by lia.
      rewrite He by lia. rewrite Z.add_0_l.
      replace (Z.to_nat (Z.of_nat (length evs) - Z.min (Z.of_nat (length evs)) kCapacity + Z.of_nat i))
        with (length evs - Z.to_nat kCapacity + i)%nat by lia.
      destruct (lookup_lt_is_Some_2 evs (length evs - Z.to_nat kCapacity + i)%nat) as [x ->]; [lia|done].
    + rewrite (lookup_seqZ_ge 0) by lia. simpl. symmetry. apply lookup_ge_None. lia.
Qed.

(** * Properties *)

(** The trace ring buffer keeps the most recent events.  After any sequence of fewer
    than 2^64 records, [TotalRecorded] counts them all and [Snapshot] returns exactly the
    last 32768 (or all, if fewer) in recording order; after [Clear] the same holds of the
    events recorded since. *)
Theorem TraceBuffer_keeps_latest (evs evs' : list TraceEvent) :
  Z.of_nat (length evs) < 2 ^ 64 → Z.of_nat (length evs') < 2 ^ 64 →
  let b := record_all TraceBuffer_new evs in
  let b' := record_all (TraceBuffer_Clear b) evs' in
  TotalRecorded b = Z.of_nat (length evs) ∧
  TraceBuffer_Snapshot b = drop (length evs - Z.to_nat kCapacity) evs ∧
  TotalRecorded b' = Z.of_nat (length evs') ∧
  TraceBuffer_Snapshot b' = drop (length evs' - Z.to_nat kCapacity) evs'.
Proof.
  intros Hl Hl' b b'.
  assert (holds TraceBuffer_new []) as H0
    by (apply holds_new; [unfold TraceBuffer_new; cbn [tb_events]; rewrite length_replicate, Z2Nat.id; done|done]).
  pose proof (holds_record_all evs _ _ H0 Hl) as Hb.
  assert (holds (TraceBuffer_Clear b) []) as H1.
  { apply holds_new; [|done]. unfold TraceBuffer_Clear. cbn [tb_events]. rewrite length_fmap. apply Hb. }
  pose proof (holds_record_all evs' _ _ H1 Hl') as Hb'.
  split; [apply Hb|]. split; [by apply holds_snapshot|]. split; [apply Hb'|]. by apply holds_snapshot.
Qed.

Lemma TraceBuffer_keeps_latest_witness :
  TraceBuffer_Snapshot (record_all TraceBuffer_new [TraceEvent_default; TraceEvent_default])
  = [TraceEvent_default; TraceEvent_default].
Proof.
  destruct (TraceBuffer_keeps_latest [TraceEvent_default; TraceEvent_default] []) as (_ & E & _);
    [done|done|exact E].
Defined.

(** The results of [n] consecutive calls of [ShouldSample]. *)
Fixpoint samples (n : nat) (s : TraceSampler) : list bool :=
  match n with O => [] | S n' => let '(s', b) := ShouldSample s in b :: samples n' s' end.

Lemma samples_spec n : ∀ s k, 2 ≤ ts_sample_every_n s → ts_counter s = Z.of_nat k →
  Z.of_nat (k + n) < 2 ^ 64 →
  samples n s = (λ i, Z.of_nat i `mod` ts_sample_every_n s =? 0) <$> seq k n.
Proof.
  induction n as [|n IH]; intros s k Hn Hk Hb; [done|]. cbn [samples seq]. unfold ShouldSample.
  rewrite (proj2 (Z.eqb_neq _ 0)), (proj2 (Z.eqb_neq _ 1)) by lia.
  rewrite fmap_cons, Hk, (IH _ (S k)); simpl; [done|done| |lia].
  rewrite wrap_small by (unfold fits; lia). lia.
Qed.

(** The sampler traces exactly one call in [n].  From a fresh sampler with interval
    [n >= 2], the [i]-th call of any sequence of fewer than 2^64 calls is sampled exactly
    when [i] is a multiple of [n]; interval 0 samples nothing and interval 1 everything. *)
Theorem TraceSampler_every_nth (n : Z) (calls : nat) (i : nat) :
  0 ≤ n → Z.of_nat calls < 2 ^ 64 → (i < calls)%nat →
  samples calls (TraceSampler_new n) !! i =
  Some (if n =? 0 then false else Z.of_nat i `mod` n =? 0).
Proof.
  intros Hn Hc Hi. destruct (decide (2 ≤ n)) as [H2|H2].
  - rewrite (samples_spec calls _ 0) by (done || simpl; lia).
    rewrite list_lookup_fmap, lookup_seq_lt by done. simpl.
    by rewrite (proj2 (Z.eqb_neq n 0)) by lia.
  - assert (∀ b s, ShouldSample s = (s, b) → samples calls s !! i = Some b) as Hconst.
    { intros b s Hs. clear Hc. revert i Hi. induction calls as [|c IH]; intros i Hi; [lia|].
      cbn [samples]. rewrite Hs. destruct i; [done|]. simpl. apply IH. lia. }
    assert (n = 0 ∨ n = 1) as [E|E] by lia; subst n; [by apply Hconst|].
    rewrite Z.mod_1_r. by apply Hconst.
Qed.

Lemma TraceSampler_every_nth_witness : samples 7 (TraceSampler_new 3) !! 6%nat = Some true.
Proof. rewrite (TraceSampler_every_nth 3 7 6); [reflexivity|lia|lia|lia]. Defined.
