(* ===== verification/ChromeTrace.v ===== *)
(** Assembly of trace timelines: the first half of [trace/chrome_trace_exporter.cc], up to
    [AssembleTimelines].  The snapshot of the ring buffer is one list of events of many posts;
    the exporter groups it by handle, request and chunk, keeping the latest time of each stage
    (the earliest, for stages that a duplicate acknowledgement repeats), and sorts the result.

    The order in which a hash map is iterated is not specified: it is a parameter
    ([HashOrder]), with the law that every entry is visited once.  The theorem says that the
    timelines do not depend on it and are those of a reference definition that looks up each
    field by a query over the whole snapshot. *)

From stdpp Require Import base tactics list list_numbers numbers gmap fin_maps sorting.
From S2P Require Import Prelude Containers Types Trace.
Local Open Scope Z_scope.

(** * Timelines *)

Inductive CompletionMode : Type := kModeUnknown | kModeCallback | kModePoll.

Record ChunkTimeline := mkChunkTimeline {
  ct_index : Z; ct_size_bytes : Z; ct_send_worker_id : Z; ct_recv_worker_id : Z;
  ct_t_enqueued_us : Z; ct_t_dequeued_us : Z; ct_t_tx_done_us : Z; ct_t_ack_us : Z;
  ct_rx_acquire_us : Z; ct_rx_payload_us : Z; ct_rx_chunk_status : Z;
}.
Definition ChunkTimeline_default : ChunkTimeline := mkChunkTimeline 0 0 0 0 0 0 0 0 0 0 0.

Record RequestTimeline := mkRequestTimeline {
  rt_reqid : Z; rt_op : Op; rt_len : Z; rt_t_dequeued_us : Z; rt_t_done_us : Z;
  rt_done_worker_id : Z; rt_chunks : list ChunkTimeline;
}.
Definition RequestTimeline_default : RequestTimeline := mkRequestTimeline 0 kWrite 0 0 0 0 [].

Record PostTimeline := mkPostTimeline {
  pt_handle : Z; pt_t_entry_us : Z; pt_t_enqueued_us : Z; pt_t_conn_start_us : Z;
  pt_t_host_info_done_us : Z; pt_t_conn_done_us : Z; pt_num_channels : Z; pt_t_all_done_us : Z;
  pt_all_done_worker_id : Z; pt_t_completed_us : Z; pt_completion_mode : CompletionMode;
  pt_requests : list RequestTimeline;
}.
Definition PostTimeline_default : PostTimeline :=
  mkPostTimeline 0 0 0 0 0 0 0 0 0 0 kModeUnknown [].

Record RequestState := mkRequestState {
  rs_timeline : RequestTimeline; rs_chunks : gmap Z ChunkTimeline }.
Record PostState := mkPostState {
  ps_timeline : PostTimeline; ps_requests : gmap Z RequestState }.
Definition RequestState_default : RequestState := mkRequestState RequestTimeline_default ∅.
Definition PostState_default : PostState := mkPostState PostTimeline_default ∅.

(** * Times *)

Definition Elapsed (start_us end_us : Z) : Z :=
  if (0 <? start_us) && (start_us <? end_us) then u64 (end_us - start_us) else 0.
Definition ClampSliceDur (dur_us : Z) : Z := Z.max 1 dur_us.
Definition ClampedElapsed (start_us end_us : Z) : Z := ClampSliceDur (Elapsed start_us end_us).
Definition EngineStartUs (t : PostTimeline) : Z :=
  if 0 <? pt_t_conn_start_us t then pt_t_conn_start_us t
  else match pt_requests t with [] => 0 | r :: _ => rt_t_dequeued_us r end.
Definition IsEarliest (t_us recorded_us : Z) : bool :=
  (recorded_us =? 0) || (t_us <? recorded_us).
Definition DecodeOp (metadata : Z) : Op := if metadata =? kRead then kRead else kWrite.

(** * Grouping *)

(** [operator[]] of a map: the entry, default-constructed if absent, updated by [g]. *)
Definition upsert {A} (k : Z) (d : A) (g : A → A) (m : gmap Z A) : gmap Z A :=
  <[k := g (default d (m !! k))]> m.

(** [g] is what the caller does through the pointer, when it is not null. *)
Definition FindOrAddRequest (post : PostState) (ev : TraceEvent) (g : RequestState → RequestState)
    : PostState :=
  if te_reqid ev =? kInvalidReqId then post
  else mkPostState (ps_timeline post)
         (upsert (te_reqid ev) RequestState_default g (ps_requests post)).
Definition FindOrAddChunk (post : PostState) (ev : TraceEvent) (g : ChunkTimeline → ChunkTimeline)
    : PostState :=
  if te_chunk_idx ev =? kNoChunk then post
  else FindOrAddRequest post ev (λ req,
         mkRequestState (rs_timeline req)
           (upsert (te_chunk_idx ev) ChunkTimeline_default g (rs_chunks req))).

(** The pointer to member that [RecordSendStage] is given. *)
Inductive send_stamp : Type := at_enqueued | at_dequeued | at_tx_done.
Definition stamp_send (ev : TraceEvent) (t_us : send_stamp) (c : ChunkTimeline) : ChunkTimeline :=
  let t := te_timestamp_us ev in
  mkChunkTimeline (ct_index c) (te_metric1 ev) (te_worker_id ev) (ct_recv_worker_id c)
    (match t_us with at_enqueued => t | _ => ct_t_enqueued_us c end)
    (match t_us with at_dequeued => t | _ => ct_t_dequeued_us c end)
    (match t_us with at_tx_done => t | _ => ct_t_tx_done_us c end)
    (ct_t_ack_us c) (ct_rx_acquire_us c) (ct_rx_payload_us c) (ct_rx_chunk_status c).
Definition RecordSendStage (post : PostState) (ev : TraceEvent) (t_us : send_stamp) : PostState :=
  FindOrAddChunk post ev (stamp_send ev t_us).

(** The bodies of the cases of [ProcessEvent] that write through the pointer. *)
Definition stamp_ack (ev : TraceEvent) (c : ChunkTimeline) : ChunkTimeline :=
  if IsEarliest (te_timestamp_us ev) (ct_t_ack_us c)
  then mkChunkTimeline (ct_index c) (ct_size_bytes c) (ct_send_worker_id c)
         (te_worker_id ev) (ct_t_enqueued_us c) (ct_t_dequeued_us c) (ct_t_tx_done_us c)
         (te_timestamp_us ev) (te_metric2 ev) (te_metric1 ev) (te_metadata ev)
  else c.
Definition stamp_dequeued (ev : TraceEvent) (req : RequestState) : RequestState :=
  let t := rs_timeline req in
  mkRequestState (mkRequestTimeline (rt_reqid t) (DecodeOp (te_metadata ev)) (te_metric1 ev)
                    (te_timestamp_us ev) (rt_t_done_us t) (rt_done_worker_id t) (rt_chunks t))
    (rs_chunks req).
Definition stamp_done (ev : TraceEvent) (req : RequestState) : RequestState :=
  let t := rs_timeline req in
  if IsEarliest (te_timestamp_us ev) (rt_t_done_us t)
  then mkRequestState (mkRequestTimeline (rt_reqid t) (rt_op t) (rt_len t) (rt_t_dequeued_us t)
                         (te_timestamp_us ev) (te_worker_id ev) (rt_chunks t))
         (rs_chunks req)
  else req.

Definition ProcessEvent (ev : TraceEvent) (post : PostState) : PostState :=
  let ts := te_timestamp_us ev in
  let '(mkPostTimeline h en enq cs hi cd nch ad adw co cm rqs) := ps_timeline post in
  let set t := mkPostState t (ps_requests post) in
  match te_stage ev with
  | kPostEntry => set (mkPostTimeline h ts enq cs hi cd nch ad adw co cm rqs)
  | kEngineEnqueued => set (mkPostTimeline h en ts cs hi cd nch ad adw co cm rqs)
  | kConnSetupStart => set (mkPostTimeline h en enq ts hi cd nch ad adw co cm rqs)
  | kGetPeerHostInfoDone => set (mkPostTimeline h en enq cs ts cd nch ad adw co cm rqs)
  | kConnSetupDone => set (mkPostTimeline h en enq cs hi ts (te_metric1 ev) ad adw co cm rqs)
  | kAllRequestsDone =>
      if IsEarliest ts ad
      then set (mkPostTimeline h en enq cs hi cd nch ts (te_worker_id ev) co cm rqs)
      else post
  | kCallbackDone => set (mkPostTimeline h en enq cs hi cd nch ad adw ts kModeCallback rqs)
  | kPollReaped => set (mkPostTimeline h en enq cs hi cd nch ad adw ts kModePoll rqs)
  | kEngineDequeued => FindOrAddRequest post ev (stamp_dequeued ev)
  | kRequestDone => FindOrAddRequest post ev (stamp_done ev)
  | kWorkerEnqueued => RecordSendStage post ev at_enqueued
  | kWorkerDequeued => RecordSendStage post ev at_dequeued
  | kTxWriteDone => RecordSendStage post ev at_tx_done
  | kTxAckRcvd => FindOrAddChunk post ev (stamp_ack ev)
  | kRdmaPostSend | kRdmaCqeReaped => post
  end.

Definition skipped (ev : TraceEvent) : bool :=
  (te_handle ev =? kInvalidHandle) || (te_timestamp_us ev =? 0).
Definition GroupEventsByHandle (events : list TraceEvent) : gmap Z PostState :=
  foldl (λ posts ev,
    if skipped ev then posts
    else upsert (te_handle ev) PostState_default (ProcessEvent ev) posts) ∅ events.

(** * Sorting *)

Definition chunk_lt : ChunkTimeline → ChunkTimeline → bool := on_key ct_index Z.ltb.
(** Comparison of [std::pair]s. *)
Definition request_lt : RequestTimeline → RequestTimeline → bool :=
  lex_lt (on_key rt_t_dequeued_us Z.ltb) (on_key rt_reqid Z.ltb).
Definition post_lt : PostTimeline → PostTimeline → bool :=
  lex_lt (on_key pt_t_entry_us Z.ltb) (on_key pt_handle Z.ltb).
#[export] Instance chunk_comparator : Comparator chunk_lt.
Proof. apply _. Qed.
#[export] Instance request_comparator : Comparator request_lt.
Proof. apply _. Qed.
#[export] Instance post_comparator : Comparator post_lt.
Proof. apply _. Qed.

Section Assemble.
Context `{O : HashOrder}.

Definition set_index (index : Z) (c : ChunkTimeline) : ChunkTimeline :=
  let '(mkChunkTimeline _ s sw rw t1 t2 t3 t4 a p st) := c in
  mkChunkTimeline index s sw rw t1 t2 t3 t4 a p st.

Definition Flatten_request (reqid : Z) (req : RequestState) : RequestTimeline :=
  let r := rs_timeline req in
  let '(chunk_bytes, chunks) :=
    foldl (λ '(n, cs) '(index, c), (u64 (n + ct_size_bytes c), cs ++ [set_index index c]))
      (0, []) (iter_map (rs_chunks req)) in
  mkRequestTimeline reqid (rt_op r) (if 0 <? chunk_bytes then chunk_bytes else rt_len r)
    (rt_t_dequeued_us r) (rt_t_done_us r) (rt_done_worker_id r) (std_sort chunk_lt chunks).

Definition set_requests (handle : Z) (t : PostTimeline) (rs : list RequestTimeline) : PostTimeline :=
  let '(mkPostTimeline _ en enq cs hi cd nch ad adw co cm _) := t in
  mkPostTimeline handle en enq cs hi cd nch ad adw co cm rs.
Definition Flatten (handle : Z) (post : PostState) : PostTimeline :=
  set_requests handle (ps_timeline post)
    (std_sort request_lt ((λ '(reqid, req), Flatten_request reqid req) <$> iter_map (ps_requests post))).

Definition AssembleTimelines (events : list TraceEvent) : list PostTimeline :=
  let posts := GroupEventsByHandle events in
  std_sort post_lt
    (omap (λ '(handle, post),
       if pt_t_entry_us (ps_timeline post) =? 0 then None else Some (Flatten handle post))
     (iter_map posts)).
End Assemble.

(** * Reference definition *)

(** The value of [sel] at the last event that has one. *)
Definition last_of {A} (d : A) (sel : TraceEvent → option A) (evs : list TraceEvent) : A :=
  default d (last (omap sel evs)).
(** The first of the events of stage [s] with the least time. *)
Fixpoint earliest (s : TraceStage) (evs : list TraceEvent) : option TraceEvent :=
  match evs with
  | [] => None
  | e :: evs' =>
      if decide (te_stage e = s) then
        match earliest s evs' with
        | Some e' => if te_timestamp_us e' <? te_timestamp_us e then Some e' else Some e
        | None => Some e
        end
      else earliest s evs'
  end.
Definition time_of (s : TraceStage) (ev : TraceEvent) : option Z :=
  if decide (te_stage ev = s) then Some (te_timestamp_us ev) else None.

Definition of_send {A} (f : TraceEvent → A) (ev : TraceEvent) : option A :=
  match te_stage ev with
  | kWorkerEnqueued | kWorkerDequeued | kTxWriteDone => Some (f ev)
  | _ => None
  end.
Definition of_stage {A} (s : TraceStage) (f : TraceEvent → A) (ev : TraceEvent) : option A :=
  if decide (te_stage ev = s) then Some (f ev) else None.
Definition of_completion {A} (f : TraceEvent → A) (ev : TraceEvent) : option A :=
  match te_stage ev with kCallbackDone | kPollReaped => Some (f ev) | _ => None end.
Definition mode_of (ev : TraceEvent) : CompletionMode :=
  if decide (te_stage ev = kCallbackDone) then kModeCallback else kModePoll.

Definition chunk_ref (index : Z) (evs : list TraceEvent) : ChunkTimeline :=
  let ack f := default 0 (f <$> earliest kTxAckRcvd evs) in
  mkChunkTimeline index (last_of 0 (of_send te_metric1) evs) (last_of 0 (of_send te_worker_id) evs)
    (ack te_worker_id) (last_of 0 (time_of kWorkerEnqueued) evs)
    (last_of 0 (time_of kWorkerDequeued) evs) (last_of 0 (time_of kTxWriteDone) evs)
    (ack te_timestamp_us) (ack te_metric2) (ack te_metric1) (ack te_metadata).

(** Which chunk and request an event belongs to. *)
Definition chunk_stage (s : TraceStage) : bool :=
  match s with kWorkerEnqueued | kWorkerDequeued | kTxWriteDone | kTxAckRcvd => true | _ => false end.
Definition chunk_key (ev : TraceEvent) : option Z :=
  if chunk_stage (te_stage ev) && negb (te_chunk_idx ev =? kNoChunk) then Some (te_chunk_idx ev)
  else None.
Definition request_stage (s : TraceStage) : bool :=
  match s with kEngineDequeued | kRequestDone => true | _ => false end.
Definition request_key (ev : TraceEvent) : option Z :=
  if (request_stage (te_stage ev) || bool_decide (is_Some (chunk_key ev)))
     && negb (te_reqid ev =? kInvalidReqId)
  then Some (te_reqid ev) else None.
Definition handle_key (ev : TraceEvent) : option Z :=
  if skipped ev then None else Some (te_handle ev).
Definition entry_key (ev : TraceEvent) : option Z :=
  if decide (te_stage ev = kPostEntry) then handle_key ev else None.

Definition with_key (key : TraceEvent → option Z) (k : Z) (evs : list TraceEvent) : list TraceEvent :=
  filter (λ e, key e = Some k) evs.
Definition keys_of (key : TraceEvent → option Z) (evs : list TraceEvent) : list Z :=
  remove_dups (omap key evs).

Definition request_fields (evs : list TraceEvent) : RequestTimeline :=
  mkRequestTimeline 0 (last_of kWrite (of_stage kEngineDequeued (DecodeOp ∘ te_metadata)) evs)
    (last_of 0 (of_stage kEngineDequeued te_metric1) evs)
    (last_of 0 (time_of kEngineDequeued) evs)
    (default 0 (te_timestamp_us <$> earliest kRequestDone evs))
    (default 0 (te_worker_id <$> earliest kRequestDone evs)) [].
Definition request_ref (reqid : Z) (evs : list TraceEvent) : RequestTimeline :=
  let r := request_fields evs in
  let chunks := (λ i, chunk_ref i (with_key chunk_key i evs)) <$> keys_of chunk_key evs in
  let bytes := u64 (foldr Z.add 0 (ct_size_bytes <$> chunks)) in
  mkRequestTimeline reqid (rt_op r) (if 0 <? bytes then bytes else rt_len r) (rt_t_dequeued_us r)
    (rt_t_done_us r) (rt_done_worker_id r) (std_sort chunk_lt chunks).

Definition post_fields (evs : list TraceEvent) : PostTimeline :=
  mkPostTimeline 0 (last_of 0 (time_of kPostEntry) evs) (last_of 0 (time_of kEngineEnqueued) evs)
    (last_of 0 (time_of kConnSetupStart) evs) (last_of 0 (time_of kGetPeerHostInfoDone) evs)
    (last_of 0 (time_of kConnSetupDone) evs) (last_of 0 (of_stage kConnSetupDone te_metric1) evs)
    (default 0 (te_timestamp_us <$> earliest kAllRequestsDone evs))
    (default 0 (te_worker_id <$> earliest kAllRequestsDone evs))
    (last_of 0 (of_completion te_timestamp_us) evs) (last_of kModeUnknown (of_completion mode_of) evs) [].
Definition timeline_ref (handle : Z) (evs : list TraceEvent) : PostTimeline :=
  set_requests handle (post_fields evs)
    (std_sort request_lt
       ((λ r, request_ref r (with_key request_key r evs)) <$> keys_of request_key evs)).

(** One timeline for every post whose entry was recorded. *)
Definition timelines_ref (evs : list TraceEvent) : list PostTimeline :=
  std_sort post_lt ((λ h, timeline_ref h (with_key handle_key h evs)) <$> keys_of entry_key evs).

(** * Queries, one event at a time *)

Lemma last_of_snoc {A} (d : A) sel evs e :
  last_of d sel (evs ++ [e]) = match sel e with Some v => v | None => last_of d sel evs end.
Proof.
  unfold last_of. rewrite omap_app. simpl. destruct (sel e); simpl.
  - by rewrite last_snoc.
  - by rewrite app_nil_r.
Qed.

Lemma earliest_snoc s evs e :
  earliest s (evs ++ [e]) =
    if decide (te_stage e = s) then
      match earliest s evs with
      | Some e' => if te_timestamp_us e <? te_timestamp_us e' then Some e else Some e'
      | None => Some e
      end
    else earliest s evs.
Proof.
  induction evs as [|x evs IH]; simpl; [by repeat case_decide|].
  rewrite IH. clear IH. destruct (earliest s evs) as [y|]; repeat case_decide; try done;
    repeat match goal with
    | |- context [(?a <? ?b)%Z] => destruct (Z.ltb_spec a b); simpl
    end; try done; lia.
Qed.

Lemma earliest_None s evs e : earliest s evs = None → e ∈ evs → te_stage e ≠ s.
Proof.
  induction evs as [|x evs IH]; [set_solver|]. simpl. case_decide.
  - destruct (earliest s evs); [by destruct (_ <? _)%Z|done].
  - intros E [->|?]%elem_of_cons; auto.
Qed.

(** The earliest event has stage [s], is in the list, and no other is earlier. *)
Lemma earliest_spec s evs e :
  earliest s evs = Some e →
  e ∈ evs ∧ te_stage e = s ∧
  ∀ e', e' ∈ evs → te_stage e' = s → te_timestamp_us e ≤ te_timestamp_us e'.
Proof.
  revert e. induction evs as [|x evs IH]; [done|]. intros e. simpl. case_decide as Hs.
  - destruct (earliest s evs) as [y|] eqn:E.
    + specialize (IH y eq_refl) as (? & ? & Hmin).
      destruct (Z.ltb_spec (te_timestamp_us y) (te_timestamp_us x)); intros [= <-];
        (split_and!; [set_solver|done|]); intros e' [->|He']%elem_of_cons Hs'; try lia;
        specialize (Hmin _ He' Hs'); lia.
    + intros [= <-]. split_and!; [set_solver|done|].
      intros e' [->|He']%elem_of_cons Hs'; [lia|]. by destruct (earliest_None _ _ _ E He').
  - intros E. specialize (IH _ E) as (? & ? & Hmin). split_and!; [set_solver|done|].
    intros e' [->|He']%elem_of_cons Hs'; [done|by apply Hmin].
Qed.

(** * Maps keyed by a query *)

Definition by_key {A} (key : TraceEvent → option Z) (f : list TraceEvent → A) (evs : list TraceEvent)
    : gmap Z A :=
  list_to_map ((λ k, (k, f (with_key key k evs))) <$> keys_of key evs).

Lemma elem_of_keys key evs k : k ∈ keys_of key evs ↔ ∃ e, e ∈ evs ∧ key e = Some k.
Proof. unfold keys_of. rewrite elem_of_remove_dups. apply list_elem_of_omap. Qed.
Lemma keys_of_NoDup key evs : NoDup (keys_of key evs).
Proof. apply NoDup_remove_dups. Qed.

Section ByKey.
Context {A : Type} (key : TraceEvent → option Z) (f : list TraceEvent → A).

Lemma by_key_fst evs : ((λ k, (k, f (with_key key k evs))) <$> keys_of key evs).*1 = keys_of key evs.
Proof. rewrite <-list_fmap_compose. apply list_fmap_id. Qed.

Lemma by_key_lookup evs k :
  by_key key f evs !! k = if decide (k ∈ keys_of key evs) then Some (f (with_key key k evs)) else None.
Proof.
  unfold by_key. case_decide as Hk.
  - apply elem_of_list_to_map_1; [rewrite by_key_fst; apply keys_of_NoDup|].
    by apply (list_elem_of_fmap_2 (λ k, (k, f (with_key key k evs)))).
  - apply not_elem_of_list_to_map_1. by rewrite by_key_fst.
Qed.

Lemma with_key_snoc k evs e :
  with_key key k (evs ++ [e]) = with_key key k evs ++ (if decide (key e = Some k) then [e] else []).
Proof. unfold with_key. rewrite filter_app, filter_cons, filter_nil. by case_decide. Qed.
Lemma with_key_absent k evs : k ∉ keys_of key evs → with_key key k evs = [].
Proof.
  intros Hk. apply elem_of_nil_inv. intros e [E He]%list_elem_of_filter. apply Hk, elem_of_keys. eauto.
Qed.
Lemma keys_of_snoc evs e k : k ∈ keys_of key (evs ++ [e]) ↔ k ∈ keys_of key evs ∨ key e = Some k.
Proof. rewrite !elem_of_keys. set_solver. Qed.

(** Adding an event updates its entry with [step], if [f] follows [step]. *)
Lemma by_key_snoc evs e d step :
  f [] = d → (∀ k, key e = Some k → f (with_key key k evs ++ [e]) = step (f (with_key key k evs))) →
  by_key key f (evs ++ [e]) =
    match key e with None => by_key key f evs | Some k => upsert k d step (by_key key f evs) end.
Proof.
  intros Hd Hstep. apply map_eq. intros k. destruct (key e) as [k'|] eqn:Ek.
  - unfold upsert. destruct (decide (k = k')) as [->|Hne].
    + rewrite lookup_insert_eq, by_key_lookup, decide_True by (apply keys_of_snoc; auto).
      rewrite with_key_snoc, decide_True, Hstep by done. do 2 f_equal.
      rewrite by_key_lookup. case_decide as Hk; [done|]. simpl. by rewrite with_key_absent.
    + rewrite lookup_insert_ne, !by_key_lookup, with_key_snoc by congruence.
      rewrite (decide_False (P := key e = Some k)), app_nil_r by congruence. apply decide_ext. rewrite keys_of_snoc. naive_solver.
  - rewrite !by_key_lookup, with_key_snoc.
    rewrite (decide_False (P := key e = Some k)), app_nil_r by congruence.
    apply decide_ext. rewrite keys_of_snoc. naive_solver.
Qed.
End ByKey.

(** * Grouping follows the queries *)

Definition stamped (evs : list TraceEvent) : Prop := Forall (λ e, te_timestamp_us e ≠ 0) evs.
Lemma stamped_with_key key k evs : stamped evs → stamped (with_key key k evs).
Proof.
  unfold stamped, with_key. rewrite !Forall_forall. intros Hs e [_ He]%list_elem_of_filter. auto.
Qed.

Definition chunk_step (ev : TraceEvent) (c : ChunkTimeline) : ChunkTimeline :=
  match te_stage ev with
  | kWorkerEnqueued => stamp_send ev at_enqueued c
  | kWorkerDequeued => stamp_send ev at_dequeued c
  | kTxWriteDone => stamp_send ev at_tx_done c
  | kTxAckRcvd => stamp_ack ev c
  | _ => c
  end.
Definition request_step (ev : TraceEvent) (req : RequestState) : RequestState :=
  match te_stage ev with
  | kEngineDequeued => stamp_dequeued ev req
  | kRequestDone => stamp_done ev req
  | _ => mkRequestState (rs_timeline req)
           match chunk_key ev with
           | None => rs_chunks req
           | Some i => upsert i ChunkTimeline_default (chunk_step ev) (rs_chunks req)
           end
  end.
Definition request_state_ref (evs : list TraceEvent) : RequestState :=
  mkRequestState (request_fields evs) (by_key chunk_key (chunk_ref 0) evs).
Definition post_state_ref (evs : list TraceEvent) : PostState :=
  mkPostState (post_fields evs) (by_key request_key request_state_ref evs).

Lemma earliest_recorded s evs t :
  stamped evs →
  IsEarliest t (default 0 (te_timestamp_us <$> earliest s evs)) =
    match earliest s evs with Some e => t <? te_timestamp_us e | None => true end.
Proof.
  intros Hs. destruct (earliest s evs) as [e|] eqn:E; [|done]. simpl.
  destruct (earliest_spec _ _ _ E) as (He & _). unfold stamped in Hs. rewrite Forall_forall in Hs.
  unfold IsEarliest. specialize (Hs _ He). destruct (Z.eqb_spec (te_timestamp_us e) 0); [done|]. done.
Qed.

Lemma chunk_ref_snoc evs e :
  stamped evs → chunk_ref 0 (evs ++ [e]) = chunk_step e (chunk_ref 0 evs).
Proof.
  intros Hs. unfold chunk_ref, chunk_step. rewrite !last_of_snoc, !earliest_snoc.
  unfold time_of, of_send. destruct (te_stage e) eqn:Es; simpl; try reflexivity.
  unfold stamp_ack. cbn -[IsEarliest]. rewrite earliest_recorded by done.
  destruct (earliest kTxAckRcvd evs) as [e'|]; [|done]. by destruct (_ <? _).
Qed.

Lemma request_state_ref_snoc evs e :
  stamped evs → request_state_ref (evs ++ [e]) = request_step e (request_state_ref evs).
Proof.
  intros Hs. unfold request_state_ref.
  rewrite (by_key_snoc _ _ _ _ ChunkTimeline_default (chunk_step e)); [|done|].
  2:{ intros k _. by apply chunk_ref_snoc, stamped_with_key. }
  unfold request_fields, request_step, chunk_key.
  rewrite !last_of_snoc, !earliest_snoc. unfold time_of, of_stage.
  destruct (te_stage e) eqn:Es; cbn -[IsEarliest upsert by_key kNoChunk]; try reflexivity.
  unfold stamp_done. cbn -[IsEarliest upsert by_key]. rewrite earliest_recorded by done.
  destruct (earliest kRequestDone evs) as [e'|]; [|done]. by destruct (_ <? _).
Qed.

Lemma ProcessEvent_requests e post :
  ps_requests (ProcessEvent e post) =
    match request_key e with
    | None => ps_requests post
    | Some r => upsert r RequestState_default (request_step e) (ps_requests post)
    end.
Proof.
  unfold ProcessEvent, RecordSendStage, FindOrAddChunk, FindOrAddRequest, request_key, request_step,
    chunk_key, chunk_step.
  destruct post as [[] rs]. simpl ps_timeline.
  destruct (te_stage e); cbn -[IsEarliest upsert kNoChunk kInvalidReqId]; try done;
    try (by destruct (IsEarliest _ _)); try (by destruct (te_reqid e =? kInvalidReqId));
    destruct (te_chunk_idx e =? kNoChunk); try done; by destruct (te_reqid e =? kInvalidReqId).
Qed.

Lemma ProcessEvent_timeline e evs rs :
  stamped evs →
  ps_timeline (ProcessEvent e (mkPostState (post_fields evs) rs)) = post_fields (evs ++ [e]).
Proof.
  intros Hs. unfold post_fields at 2. rewrite !last_of_snoc, !earliest_snoc.
  unfold time_of, of_stage, of_completion, mode_of, ProcessEvent, RecordSendStage, FindOrAddChunk,
    FindOrAddRequest.
  unfold post_fields. cbn [ps_timeline ps_requests].
  destruct (te_chunk_idx e =? kNoChunk), (te_reqid e =? kInvalidReqId), (te_stage e);
    cbn [ps_timeline decide decide_rel TraceStage_eq_dec]; try reflexivity;
    (rewrite earliest_recorded by done; destruct (earliest kAllRequestsDone evs) as [e'|]; [|done];
     by destruct (_ <? _)).
Qed.

Lemma PostState_eta p : p = mkPostState (ps_timeline p) (ps_requests p).
Proof. by destruct p. Qed.

Lemma ProcessEvent_ref e evs :
  stamped evs → ProcessEvent e (post_state_ref evs) = post_state_ref (evs ++ [e]).
Proof.
  intros Hs. rewrite (PostState_eta (ProcessEvent e _)), ProcessEvent_requests.
  unfold post_state_ref. rewrite ProcessEvent_timeline by done. f_equal. cbn [ps_requests].
  rewrite (by_key_snoc _ _ _ _ RequestState_default (request_step e)); [done|done|].
  intros k _. by apply request_state_ref_snoc, stamped_with_key.
Qed.

Lemma stamped_handle h evs : stamped (with_key handle_key h evs).
Proof.
  apply Forall_forall. intros e [He _]%list_elem_of_filter. unfold handle_key, skipped in He.
  destruct (Z.eqb_spec (te_timestamp_us e) 0); [|done]. by rewrite orb_true_r in He.
Qed.

Lemma GroupEventsByHandle_ref evs : GroupEventsByHandle evs = by_key handle_key post_state_ref evs.
Proof.
  unfold GroupEventsByHandle. induction evs as [|e evs IH] using rev_ind; [done|].
  rewrite foldl_app, IH. simpl.
  rewrite (by_key_snoc _ _ _ _ PostState_default (ProcessEvent e)); [|done|].
  - unfold handle_key at 3. by destruct (skipped e).
  - intros k _. symmetry. apply ProcessEvent_ref, stamped_handle.
Qed.

(** Entries built from their keys are determined by them. *)
Lemma keyed_injective {A} (g : Z → A) (id : A → Z) (ks : list Z) a b :
  (∀ k, id (g k) = k) → a ∈ g <$> ks → b ∈ g <$> ks → id a = id b → a = b.
Proof. intros Hid (k & -> & _)%list_elem_of_fmap (k' & -> & _)%list_elem_of_fmap. rewrite !Hid. congruence. Qed.
Lemma not_after_key {A} (key : A → Z) a b : not_after (on_key key Z.ltb) a b ↔ key a ≤ key b.
Proof. unfold not_after, on_key. apply Z.ltb_ge. Qed.

(** * The assembled timelines *)

Section AssembleRef.
Context `{O : HashOrder} {L : HashOrderLaws O}.

Lemma iter_by_key {A} key (f : list TraceEvent → A) evs :
  iter_map (by_key key f evs) ≡ₚ (λ k, (k, f (with_key key k evs))) <$> keys_of key evs.
Proof.
  rewrite iter_map_perm. apply map_to_list_to_map. rewrite by_key_fst. apply keys_of_NoDup.
Qed.

Lemma sum_perm (l l' : list Z) : l ≡ₚ l' → foldr Z.add 0 l = foldr Z.add 0 l'.
Proof. induction 1; simpl; lia. Qed.

Lemma flatten_chunks kvs :
  foldl (λ '(n, cs) '(index, c), (u64 (n + ct_size_bytes c), cs ++ [set_index index c])) (0, []) kvs =
    (u64 (foldr Z.add 0 (ct_size_bytes ∘ snd <$> kvs)), (λ '(i, c), set_index i c) <$> kvs).
Proof.
  induction kvs as [|[i c] kvs IH] using rev_ind; [done|].
  rewrite foldl_app, IH. simpl. rewrite !fmap_app, foldr_app. simpl. f_equal.
  replace (foldr Z.add (ct_size_bytes c + 0) (ct_size_bytes ∘ snd <$> kvs))
    with (foldr Z.add 0 (ct_size_bytes ∘ snd <$> kvs) + ct_size_bytes c).
  - unfold wrap. by rewrite Z.add_mod_idemp_l by done.
  - induction kvs as [|x kvs IHk]; simpl; [lia|].
    assert (∀ (l : list Z) z, foldr Z.add z l = foldr Z.add 0 l + z) as Hf
      by (intros l z; induction l; simpl; lia).
    rewrite (Hf _ (_ + 0)). lia.
Qed.

Lemma Flatten_request_ref r evs : Flatten_request r (request_state_ref evs) = request_ref r evs.
Proof.
  unfold Flatten_request, request_ref. cbn [rs_timeline rs_chunks request_state_ref].
  rewrite flatten_chunks. pose proof (iter_by_key chunk_key (chunk_ref 0) evs) as Hp.
  set (g := λ i, chunk_ref i (with_key chunk_key i evs)).
  assert ((λ '(i, c), set_index i c) <$> iter_map (by_key chunk_key (chunk_ref 0) evs)
            ≡ₚ g <$> keys_of chunk_key evs) as Hc.
  { rewrite Hp, <-list_fmap_compose. reflexivity. }
  rewrite (sum_perm _ (ct_size_bytes <$> (g <$> keys_of chunk_key evs))).
  2:{ rewrite Hp, <-!list_fmap_compose. reflexivity. }
  rewrite (std_sort_unique chunk_lt _ (g <$> keys_of chunk_key evs)); [done| |done].
  intros a b. unfold chunk_lt. rewrite !Hc, !not_after_key. intros Ha Hb H1 H2.
  assert (ct_index a = ct_index b) as Hi by lia. by apply (keyed_injective g ct_index (keys_of chunk_key evs)).
Qed.

Lemma Flatten_ref h evs : Flatten h (post_state_ref evs) = timeline_ref h evs.
Proof.
  unfold Flatten, timeline_ref. cbn [ps_timeline ps_requests post_state_ref]. f_equal.
  pose proof (iter_by_key request_key request_state_ref evs) as Hp.
  set (g := λ r, request_ref r (with_key request_key r evs)).
  assert ((λ '(r, q), Flatten_request r q) <$> iter_map (by_key request_key request_state_ref evs)
            ≡ₚ g <$> keys_of request_key evs) as Hc.
  { rewrite Hp, <-list_fmap_compose. apply Permutation_refl', list_fmap_ext.
    intros i r _. apply Flatten_request_ref. }
  apply (std_sort_unique request_lt); [|done].
  intros a b. unfold request_lt. rewrite !Hc, !lex_not_after, !not_after_key. intros Ha Hb H1 H2.
  assert (rt_reqid a = rt_reqid b) as Hi by lia. by apply (keyed_injective g rt_reqid (keys_of request_key evs)).
Qed.

(** A post has an entry time exactly if its entry was recorded. *)
Lemma entry_recorded h evs :
  pt_t_entry_us (post_fields (with_key handle_key h evs)) ≠ 0 ↔ h ∈ keys_of entry_key evs.
Proof.
  cbn [post_fields pt_t_entry_us]. unfold last_of. rewrite elem_of_keys.
  destruct (last _) as [t|] eqn:El; simpl.
  - apply last_Some_elem_of, list_elem_of_omap in El as (e & He & Ht).
    pose proof (stamped_handle h evs) as Hs. unfold stamped in Hs. rewrite Forall_forall in Hs.
    specialize (Hs _ He). apply list_elem_of_filter in He as [Hk He]. unfold time_of in Ht.
    case_decide; simplify_eq. split; [|done]. intros _. exists e. unfold entry_key.
    by rewrite decide_True.
  - split; [done|]. intros (e & He & Hk). unfold entry_key in Hk. case_decide as Hst; [|done].
    apply last_None in El. exfalso. apply (not_elem_of_nil (te_timestamp_us e)). rewrite <-El.
    apply list_elem_of_omap. exists e. split; [by apply list_elem_of_filter|].
    unfold time_of. by rewrite decide_True.
Qed.

Lemma entry_handles evs :
  filter (λ h, pt_t_entry_us (post_fields (with_key handle_key h evs)) ≠ 0) (keys_of handle_key evs)
    ≡ₚ keys_of entry_key evs.
Proof.
  apply NoDup_Permutation; [apply NoDup_filter, keys_of_NoDup|apply keys_of_NoDup|].
  intros h. rewrite list_elem_of_filter, entry_recorded. split; [by intros []|].
  intros Hh. split; [done|]. apply elem_of_keys in Hh as (e & He & Hk). apply elem_of_keys.
  exists e. unfold entry_key in Hk. by case_decide.
Qed.

Lemma omap_Flatten evs (ks : list Z) :
  omap (λ '(h, p), if pt_t_entry_us (ps_timeline p) =? 0 then None else Some (Flatten h p))
    ((λ k, (k, post_state_ref (with_key handle_key k evs))) <$> ks) =
  (λ h, timeline_ref h (with_key handle_key h evs)) <$>
    filter (λ h, pt_t_entry_us (post_fields (with_key handle_key h evs)) ≠ 0) ks.
Proof.
  induction ks as [|k ks IH]; [done|]. rewrite filter_cons, fmap_cons. cbn [omap list_omap].
  rewrite Flatten_ref. cbn [ps_timeline post_state_ref].
  destruct (Z.eqb_spec (pt_t_entry_us (post_fields (with_key handle_key k evs))) 0) as [E|E].
  - rewrite decide_False by (intros Hn; by apply Hn). apply IH.
  - rewrite decide_True by done. rewrite fmap_cons. f_equal. apply IH.
Qed.
End AssembleRef.

Lemma AssembleTimelines_sorted `{O : HashOrder} events :
  StronglySorted (λ p q, pt_t_entry_us p ≤ pt_t_entry_us q) (AssembleTimelines events).
Proof.
  unfold AssembleTimelines. match goal with |- StronglySorted _ (std_sort _ ?l) =>
    pose proof (std_sort_sorted post_lt l) as Hs end.
  induction Hs as [|p l _ IH Hp]; constructor; [done|].
  apply (Forall_impl _ _ _ Hp). intros q. unfold post_lt. rewrite lex_not_after, !not_after_key. lia.
Qed.

Lemma AssembleTimelines_ref `{O : HashOrder} {L : HashOrderLaws O} events :
  AssembleTimelines events = timelines_ref events.
Proof.
  unfold AssembleTimelines, timelines_ref. rewrite GroupEventsByHandle_ref.
  set (g := λ h, timeline_ref h (with_key handle_key h events)).
  assert (omap (λ '(h, p), if pt_t_entry_us (ps_timeline p) =? 0 then None else Some (Flatten h p))
            (iter_map (by_key handle_key post_state_ref events)) ≡ₚ g <$> keys_of entry_key events) as Hc.
  { by rewrite iter_by_key, <-entry_handles, omap_Flatten. }
  apply (std_sort_unique post_lt); [|done].
  intros a b. unfold post_lt. rewrite !Hc, !lex_not_after, !not_after_key. intros Ha Hb H1 H2.
  assert (pt_handle a = pt_handle b) as Hi by lia. by apply (keyed_injective g pt_handle (keys_of entry_key events)).
Qed.

(** C27: The assembled timelines are those of the reference definition: for every handle with a
    recorded entry, one timeline whose stages are the latest recorded ones (the earliest, for
    acknowledgements and completions) of the events of that handle, request and chunk, with
    requests and chunks in order.  So they do not depend on the iteration order of the hash
    maps, and events of one post never leak into another.  The timelines are sorted by the time
    of their entry. *)
Theorem AssembleTimelines_exact `{O : HashOrder} (L : HashOrderLaws O) (events : list TraceEvent) :
  AssembleTimelines events = timelines_ref events ∧
  StronglySorted (λ p q, pt_t_entry_us p ≤ pt_t_entry_us q) (AssembleTimelines events).
Proof. split; [apply AssembleTimelines_ref|apply AssembleTimelines_sorted]. Qed.

(** * A snapshot *)

(** Two posts, a request of two chunks that finish out of order, and a chunk acknowledged
    twice; the entry of post 9 has been overwritten. *)
Definition sample_events : list TraceEvent :=
  let ev t h r s i w m := mkTraceEvent t h r s 0 w i m 0 in
  [ev 100 7 0 kPostEntry kNoChunk 0 1; ev 101 7 0 kEngineEnqueued kNoChunk 0 1;
   ev 103 9 1 kEngineDequeued kNoChunk 0 8; ev 105 7 5 kEngineDequeued kNoChunk 0 30;
   ev 90 8 0 kPostEntry kNoChunk 0 1; TraceEvent_default;
   ev 106 7 5 kWorkerEnqueued 1 1 10; ev 107 7 5 kWorkerEnqueued 0 2 20;
   ev 108 7 5 kWorkerDequeued 1 1 10; ev 108 7 5 kWorkerDequeued 0 2 20;
   ev 112 7 5 kTxWriteDone 1 1 10; ev 111 7 5 kTxWriteDone 0 2 20;
   ev 130 7 5 kTxAckRcvd 0 (-2) 3; ev 120 7 5 kTxAckRcvd 1 (-1) 3;
   ev 140 7 5 kTxAckRcvd 1 (-1) 3; ev 131 7 5 kRequestDone 0 2 0;
   ev 131 7 5 kAllRequestsDone 0 2 0; ev 150 7 0 kPollReaped kNoChunk 0 0].

Lemma AssembleTimelines_exact_witness :
  AssembleTimelines sample_events = timelines_ref sample_events ∧
  (λ p, (pt_handle p, pt_t_entry_us p, pt_t_all_done_us p,
         (λ r, (rt_reqid r, rt_len r, (λ c, (ct_index c, ct_t_ack_us c)) <$> rt_chunks r))
           <$> pt_requests p)) <$> AssembleTimelines sample_events =
    [(8, 90, 0, []); (7, 100, 131, [(5, 30, [(0, 130); (1, 120)])])].
Proof. split; [apply (AssembleTimelines_exact reversed_laws sample_events)|vm_compute; reflexivity]. Defined.
