(* ===== verification/ChromeRender.v ===== *)
(** Rendering of trace timelines: [TimelineRenderer] and [Export], the second half of
    [trace/chrome_trace_exporter.cc].  The renderer draws each stage as a slice on the track of
    its thread.  Its state keeps the last end on every track; the events that the C++ code
    formats at once are kept as [json_event] and formatted by [json_text] at the end.

    [absl::StrFormat] is a parameter ([Formatter]).  In the templates a single quote stands for
    the double quote of the JSON text ([raw]).  Times are [uint64_t] with the wrap-around
    written out; worker indices are [int], exact here: the code's sums with the thread bases are
    undefined beyond [2^31], and the theorem below is for the indices that give each thread its
    own track. *)

From Stdlib Require Import Ascii.
From stdpp Require Import base tactics list list_numbers numbers gmap fin_maps strings pretty sorting.
From S2P Require Import Prelude Containers Types Trace ChromeTrace.
Local Open Scope Z_scope.

(** * Text *)

Inductive format_arg : Type := FInt (n : Z) | FStr (s : string) | FChar (c : Ascii.ascii).
Class Formatter := StrFormat : string → list format_arg → string.

Fixpoint raw (s : string) : string :=
  match s with
  | EmptyString => EmptyString
  | String c s' => String (if Ascii.eqb c "'"%char then Ascii.ascii_of_nat 34 else c) (raw s')
  end.

Definition backslash : Ascii.ascii := Ascii.ascii_of_nat 92.
Definition escape_char (c : Ascii.ascii) : list Ascii.ascii :=
  if Ascii.eqb c (Ascii.ascii_of_nat 34) then [backslash; c]
  else if Ascii.eqb c backslash then [backslash; c]
  else if Ascii.eqb c (Ascii.ascii_of_nat 10) then [backslash; "n"%char]
  else if Ascii.eqb c (Ascii.ascii_of_nat 13) then [backslash; "r"%char]
  else if Ascii.eqb c (Ascii.ascii_of_nat 9) then [backslash; "t"%char]
  else [c].
Definition EscapeJson (s : string) : string :=
  String.string_of_list_ascii (list_bind _ _ escape_char (String.list_ascii_of_string s)).

(** * Tracks *)

Record Track := mkTrack { tk_pid : Z; tk_tid : Z }.
#[export] Instance Track_eq_dec : EqDecision Track.
Proof. solve_decision. Defined.

Definition kSenderPid : Z := 1.
Definition kReceiverPid : Z := 2.
Definition kCallerTid : Z := 1.
Definition kEngineTid : Z := 2.
Definition kSendWorkerTidBase : Z := 100.
Definition kRecvWorkerTidBase : Z := 200.
Definition kAckWorkerTidBase : Z := 300.
Definition kCallerTrack : Track := mkTrack kSenderPid kCallerTid.
Definition kEngineTrack : Track := mkTrack kSenderPid kEngineTid.

Definition SendWorkerIdx (c : ChunkTimeline) : Z :=
  if 0 <? ct_send_worker_id c then ct_send_worker_id c else swrap 32 (u32 (ct_index c + 1)).
Definition RecvWorkerIdx (c : ChunkTimeline) : Z :=
  if ct_recv_worker_id c <? 0 then - ct_recv_worker_id c else SendWorkerIdx c.
Definition AckWorkerIdx (worker_id : Z) : Z := Z.max 1 (Z.abs worker_id).

(** * The renderer's state *)

Inductive json_event : Type :=
  | JSlice (track : Track) (cat name : string) (ts dur : Z) (args : string)
  | JInstant (track : Track) (cat : string) (scope : Ascii.ascii) (name : string) (ts : Z) (args : string)
  | JFlowStart (name : string) (id : Z) (track : Track) (ts : Z)
  | JFlowEnd (name : string) (id : Z) (track : Track) (ts : Z).

Record TimelineRenderer := mkRenderer {
  slice_events_ : list json_event; next_flow_id_ : Z; caller_end_us_ : Z; engine_end_us_ : Z;
  send_workers_ : gset Z; recv_workers_ : gset Z; ack_workers_ : gset Z;
  send_end_us_ : gmap Z Z; rx_end_us_ : gmap Z Z; ack_end_us_ : gmap Z Z;
}.
Definition TimelineRenderer_new : TimelineRenderer := mkRenderer [] 1000 0 0 ∅ ∅ ∅ ∅ ∅ ∅.

Definition push_events (s : TimelineRenderer) (evs : list json_event) : TimelineRenderer :=
  let '(mkRenderer l n c e sw rw aw se re ae) := s in mkRenderer (l ++ evs) n c e sw rw aw se re ae.
Definition set_caller_end (s : TimelineRenderer) (t : Z) : TimelineRenderer :=
  let '(mkRenderer l n _ e sw rw aw se re ae) := s in mkRenderer l n t e sw rw aw se re ae.
Definition set_engine_end (s : TimelineRenderer) (t : Z) : TimelineRenderer :=
  let '(mkRenderer l n c _ sw rw aw se re ae) := s in mkRenderer l n c t sw rw aw se re ae.
Definition set_send_end (s : TimelineRenderer) (i t : Z) : TimelineRenderer :=
  let '(mkRenderer l n c e sw rw aw se re ae) := s in mkRenderer l n c e sw rw aw (<[i := t]> se) re ae.
Definition set_rx_end (s : TimelineRenderer) (i t : Z) : TimelineRenderer :=
  let '(mkRenderer l n c e sw rw aw se re ae) := s in mkRenderer l n c e sw rw aw se (<[i := t]> re) ae.
Definition set_ack_end (s : TimelineRenderer) (i t : Z) : TimelineRenderer :=
  let '(mkRenderer l n c e sw rw aw se re ae) := s in mkRenderer l n c e sw rw aw se re (<[i := t]> ae).
(** Reading a missing entry of an end map gives (and stores) 0. *)
Definition end_of (m : gmap Z Z) (i : Z) : Z := default 0 (m !! i).

Definition AddSlice (s : TimelineRenderer) (track : Track) (cat name : string) (ts dur : Z)
    (args : string) : TimelineRenderer :=
  push_events s [JSlice track cat name ts dur args].
Definition AddInstant (s : TimelineRenderer) (track : Track) (cat : string) (scope : Ascii.ascii)
    (name : string) (ts : Z) (args : string) : TimelineRenderer :=
  push_events s [JInstant track cat scope name ts args].
Definition AddFlow (s : TimelineRenderer) (name : string) (src : Track) (src_ts : Z) (dst : Track)
    (dst_ts : Z) : TimelineRenderer :=
  let '(mkRenderer l n c e sw rw aw se re ae) := s in
  let id := u64 (n + 1) in
  push_events (mkRenderer l id c e sw rw aw se re ae)
    [JFlowStart name id src src_ts; JFlowEnd name id dst dst_ts].

Definition SendTrack (s : TimelineRenderer) (sw_idx : Z) : TimelineRenderer * Track :=
  let '(mkRenderer l n c e sw rw aw se re ae) := s in
  (mkRenderer l n c e (sw ∪ {[sw_idx]}) rw aw se re ae, mkTrack kSenderPid (kSendWorkerTidBase + sw_idx)).
Definition RecvTrack (s : TimelineRenderer) (rw_idx : Z) : TimelineRenderer * Track :=
  let '(mkRenderer l n c e sw rw aw se re ae) := s in
  (mkRenderer l n c e sw (rw ∪ {[rw_idx]}) aw se re ae, mkTrack kReceiverPid (kRecvWorkerTidBase + rw_idx)).
Definition AckTrack (s : TimelineRenderer) (sw_idx : Z) : TimelineRenderer * Track :=
  let '(mkRenderer l n c e sw rw aw se re ae) := s in
  (mkRenderer l n c e sw rw (aw ∪ {[sw_idx]}) se re ae, mkTrack kSenderPid (kAckWorkerTidBase + sw_idx)).

Section Emit.
Context `{F : Formatter}.

(** * Text of events *)

Definition json_text (ev : json_event) : string :=
  match ev with
  | JSlice t cat name ts dur args =>
      StrFormat (raw "{'name':'%s','cat':'%s','ph':'X','pid':%d,'tid':%d,'ts':%llu,'dur':%llu,'args':{%s}}")
        [FStr name; FStr cat; FInt (tk_pid t); FInt (tk_tid t); FInt ts; FInt dur; FStr args]
  | JInstant t cat scope name ts args =>
      StrFormat (raw "{'name':'%s','cat':'%s','ph':'i','s':'%c','pid':%d,'tid':%d,'ts':%llu,'args':{%s}}")
        [FStr name; FStr cat; FChar scope; FInt (tk_pid t); FInt (tk_tid t); FInt ts; FStr args]
  | JFlowStart name id t ts =>
      StrFormat (raw "{'name':'%s','cat':'flow','ph':'s','id':%llu,'pid':%d,'tid':%d,'ts':%llu}")
        [FStr name; FInt id; FInt (tk_pid t); FInt (tk_tid t); FInt ts]
  | JFlowEnd name id t ts =>
      StrFormat (raw "{'name':'%s','cat':'flow','ph':'f','bp':'e','id':%llu,'pid':%d,'tid':%d,'ts':%llu}")
        [FStr name; FInt id; FInt (tk_pid t); FInt (tk_tid t); FInt ts]
  end.

Definition AppendProcessMetadata (out : list string) (pid sort_index : Z) (name : string) : list string :=
  out ++
  [StrFormat (raw "{'name':'process_name','cat':'__metadata','ph':'M','pid':%d,'tid':0,'ts':0,'args':{'name':'%s'}}")
     [FInt pid; FStr name];
   StrFormat (raw "{'name':'process_sort_index','cat':'__metadata','ph':'M','pid':%d,'tid':0,'ts':0,'args':{'sort_index':%d}}")
     [FInt pid; FInt sort_index]].
Definition AppendThreadMetadata (out : list string) (track : Track) (name : string) : list string :=
  out ++
  [StrFormat (raw "{'name':'thread_name','cat':'__metadata','ph':'M','pid':%d,'tid':%d,'ts':0,'args':{'name':'%s'}}")
     [FInt (tk_pid track); FInt (tk_tid track); FStr name];
   StrFormat (raw "{'name':'thread_sort_index','cat':'__metadata','ph':'M','pid':%d,'tid':%d,'ts':0,'args':{'sort_index':%d}}")
     [FInt (tk_pid track); FInt (tk_tid track); FInt (tk_tid track)]].

Definition RxChunkStatusName (status : Z) : string :=
  if status =? 0 then "kEmpty" else if status =? 1 then "kBusy" else if status =? 2 then "kDone"
  else StrFormat "Unknown(%u)" [FInt status].

(** * Emitting a post *)

(** The last component is the timestamp of the outgoing flow arrow. *)
Definition EmitPostEnqueue (s : TimelineRenderer) (post : PostTimeline) : TimelineRenderer * Z :=
  let handle := pt_handle post in
  let enqueue_overhead_us := Elapsed (pt_t_entry_us post) (pt_t_enqueued_us post) in
  let t_entry_us := Z.max (pt_t_entry_us post) (caller_end_us_ s) in
  let post_dur_us := ClampedElapsed t_entry_us (pt_t_enqueued_us post) in
  let s := set_caller_end s (u64 (t_entry_us + post_dur_us)) in
  let nreqs := Z.of_nat (length (pt_requests post)) in
  let total_bytes := foldl (λ n r, u64 (n + rt_len r)) 0 (pt_requests post) in
  let s := AddSlice s kCallerTrack "api"
    (StrFormat "TransportImpl::Post(handle=0x%x, %zu reqs, %zu B)" [FInt handle; FInt nreqs; FInt total_bytes])
    t_entry_us post_dur_us
    (StrFormat (raw "'handle':'0x%x','num_requests':%zu,'total_bytes':%zu,'enqueue_overhead_us':%llu")
       [FInt handle; FInt nreqs; FInt total_bytes; FInt enqueue_overhead_us]) in
  (s, u64 (t_entry_us + post_dur_us / 2)).

Definition EmitEngineQueueWait (s : TimelineRenderer) (post : PostTimeline) (enqueue_flow_ts : Z)
    : TimelineRenderer :=
  let handle := pt_handle post in
  let engine_start_us := EngineStartUs post in
  let engine_queue_wait_us := Elapsed (pt_t_enqueued_us post) engine_start_us in
  let q_start_us := Z.max (caller_end_us_ s) (engine_end_us_ s) in
  let cur_engine_us := Z.max q_start_us engine_start_us in
  let '(s, cur_engine_us) :=
    if (q_start_us <? cur_engine_us) || (0 <? engine_queue_wait_us) then
      let q_dur_us := ClampSliceDur (u64 (cur_engine_us - q_start_us)) in
      (AddSlice s kEngineTrack "queue" (StrFormat "Engine::QueueWait(handle=0x%x)" [FInt handle])
         q_start_us q_dur_us
         (StrFormat (raw "'handle':'0x%x','engine_queue_wait_us':%llu")
            [FInt handle; FInt engine_queue_wait_us]),
       u64 (q_start_us + q_dur_us))
    else (s, cur_engine_us) in
  let s := AddFlow s "enqueue_to_engine" kCallerTrack enqueue_flow_ts kEngineTrack cur_engine_us in
  set_engine_end s cur_engine_us.

Definition EmitConnSetup (s : TimelineRenderer) (post : PostTimeline) : TimelineRenderer :=
  if (pt_t_conn_start_us post =? 0) && (pt_t_conn_done_us post =? 0) then s
  else
    let handle := pt_handle post in
    let conn_setup_us := Elapsed (pt_t_conn_start_us post) (pt_t_conn_done_us post) in
    let conn_dur_us := ClampedElapsed (engine_end_us_ s) (pt_t_conn_done_us post) in
    let s := AddSlice s kEngineTrack "conn_setup" "Engine::createSendWorkers [Cold-Start]"
      (engine_end_us_ s) conn_dur_us
      (StrFormat (raw "'handle':'0x%x','conn_setup_us':%llu") [FInt handle; FInt conn_setup_us]) in
    let host_info_dur_us := Elapsed (pt_t_conn_start_us post) (pt_t_host_info_done_us post) in
    let s :=
      if (0 <? host_info_dur_us) && (host_info_dur_us <=? conn_dur_us) then
        AddSlice s kEngineTrack "control" "Control::GetPeerHostInfo (gRPC)" (engine_end_us_ s)
          host_info_dur_us (StrFormat (raw "'handle':'0x%x'") [FInt handle])
      else s in
    let connect_dur_us :=
      Elapsed (Z.max (pt_t_conn_start_us post) (pt_t_host_info_done_us post)) (pt_t_conn_done_us post) in
    let s :=
      if (0 <? connect_dur_us) && (u64 (host_info_dur_us + connect_dur_us) <=? conn_dur_us) then
        AddSlice s kEngineTrack "socket"
          (StrFormat "Channel::Connect (%u channels)" [FInt (pt_num_channels post)])
          (u64 (engine_end_us_ s + host_info_dur_us)) connect_dur_us
          (StrFormat (raw "'num_channels':%u") [FInt (pt_num_channels post)])
      else s in
    set_engine_end s (u64 (engine_end_us_ s + conn_dur_us)).

Definition EmitRequestFanout (s : TimelineRenderer) (handle : Z) (req : RequestTimeline)
    : TimelineRenderer * Z :=
  let fanout_start_us := Z.max (engine_end_us_ s) (rt_t_dequeued_us req) in
  let t_last_enqueued_us := foldl (λ t c, Z.max t (ct_t_enqueued_us c)) 0 (rt_chunks req) in
  let chunk_fanout_us := Elapsed (rt_t_dequeued_us req) t_last_enqueued_us in
  let fanout_dur_us := ClampedElapsed fanout_start_us t_last_enqueued_us in
  let nchunks := Z.of_nat (length (rt_chunks req)) in
  let s := AddSlice s kEngineTrack "engine"
    (StrFormat "Engine::process%s(reqid=0x%x, %zu B -> %zu chunks)"
       [FStr (if rt_op req =? kWrite then "Write" else "Read"); FInt (rt_reqid req);
        FInt (rt_len req); FInt nchunks])
    fanout_start_us fanout_dur_us
    (StrFormat (raw "'handle':'0x%x','reqid':'0x%x','nchunks':%zu,'len':%zu,'chunk_fanout_us':%llu")
       [FInt handle; FInt (rt_reqid req); FInt nchunks; FInt (rt_len req); FInt chunk_fanout_us]) in
  (set_engine_end s (u64 (fanout_start_us + fanout_dur_us)), fanout_start_us).

Definition EmitRemoteRecv (s : TimelineRenderer) (handle reqid : Z) (c : ChunkTimeline)
    (send_track : Track) (t_w_dequeued_us t_ack_us : Z) : TimelineRenderer * Track * Z :=
  let rw_idx := RecvWorkerIdx c in
  let '(s, recv_track) := RecvTrack s rw_idx in
  (* The sum of two uint32_t. *)
  let rx_total_us := u32 (ct_rx_acquire_us c + ct_rx_payload_us c) in
  let rtt_us := if t_w_dequeued_us <? t_ack_us then u64 (t_ack_us - t_w_dequeued_us)
                else ClampSliceDur rx_total_us in
  let transit_us := if rx_total_us <? rtt_us then u64 (rtt_us - rx_total_us) else 0 in
  let t_rx_start := Z.max (u64 (t_w_dequeued_us + transit_us / 2)) (end_of (rx_end_us_ s) rw_idx) in
  let rx_acq_dur := ClampSliceDur (ct_rx_acquire_us c) in
  let rx_pay_dur := ClampSliceDur (ct_rx_payload_us c) in
  let rx_dur := u64 (rx_acq_dur + rx_pay_dur) in
  let t_rx_acq := u64 (t_rx_start + rx_acq_dur) in
  let t_rx_done := u64 (t_rx_start + rx_dur) in
  let s := set_rx_end s rw_idx t_rx_done in
  let rx_status := RxChunkStatusName (ct_rx_chunk_status c) in
  let s := AddSlice s recv_track "transfer_rx"
    (StrFormat "RecvChunk(req=0x%x, chunk=%u, %u B)" [FInt reqid; FInt (ct_index c); FInt (ct_size_bytes c)])
    t_rx_start rx_dur
    (StrFormat (raw "'handle':'0x%x','reqid':'0x%x','chunk_index':%u,'rx_acquire_wait_us':%llu,'rx_payload_write_us':%llu,'rx_chunk_status':'%s'")
       [FInt handle; FInt reqid; FInt (ct_index c); FInt (ct_rx_acquire_us c);
        FInt (ct_rx_payload_us c); FStr rx_status]) in
  let s := AddSlice s recv_track "tracker" "ChunkTracker::Acquire" t_rx_start rx_acq_dur
    (StrFormat (raw "'status':'%s'") [FStr rx_status]) in
  let s := AddFlow s (StrFormat "wire_data_c%u" [FInt (ct_index c)]) send_track t_w_dequeued_us
    recv_track t_rx_start in
  let s := AddSlice s recv_track "transfer_rx" "Channel::Read(Payload -> DstAddr)" t_rx_acq rx_pay_dur
    (StrFormat (raw "'size_bytes':%u") [FInt (ct_size_bytes c)]) in
  let s := AddFlow s (StrFormat "rx_acquire_to_read_c%u" [FInt (ct_index c)]) recv_track t_rx_start
    recv_track t_rx_acq in
  (s, recv_track, t_rx_done).

Definition EmitChunkAck (s : TimelineRenderer) (handle reqid : Z) (c : ChunkTimeline)
    (send_track : Track) (t_w_dequeued_us t_tx_done_us : Z) : TimelineRenderer :=
  if ct_t_ack_us c =? 0 then s
  else
    let chunk_rtt_us := Elapsed (ct_t_dequeued_us c) (ct_t_ack_us c) in
    let t_ack_us := if t_tx_done_us <=? ct_t_ack_us c then ct_t_ack_us c
                    else Z.max t_tx_done_us (u64 (t_w_dequeued_us + chunk_rtt_us)) in
    let '(s, recv_track, t_rx_done) :=
      EmitRemoteRecv s handle reqid c send_track t_w_dequeued_us t_ack_us in
    let sw_idx := SendWorkerIdx c in
    let '(s, ack_track) := AckTrack s sw_idx in
    let ack_start_us := Z.max (end_of (ack_end_us_ s) sw_idx)
                          (if 1 <? t_ack_us then t_ack_us - 1 else t_ack_us) in
    let ack_dur_us := if ack_start_us <=? t_ack_us then u64 (t_ack_us - ack_start_us + 1) else 1 in
    let s := set_ack_end s sw_idx (u64 (ack_start_us + ack_dur_us)) in
    let s := AddSlice s ack_track "ack_rx"
      (StrFormat "RecvAck & Update(req=0x%x, chunk=%u)" [FInt reqid; FInt (ct_index c)])
      ack_start_us ack_dur_us
      (StrFormat (raw "'handle':'0x%x','reqid':'0x%x','chunk_index':%u,'chunk_rtt_us':%llu,'piggybacked_rx_acquire_us':%llu,'piggybacked_rx_payload_us':%llu")
         [FInt handle; FInt reqid; FInt (ct_index c); FInt chunk_rtt_us; FInt (ct_rx_acquire_us c);
          FInt (ct_rx_payload_us c)]) in
    AddFlow s (StrFormat "wire_ack_c%u" [FInt (ct_index c)]) recv_track
      (if 0 <? t_rx_done then t_rx_done - 1 else 0) ack_track ack_start_us.

Definition EmitChunk (handle reqid fanout_start_us : Z) (s : TimelineRenderer) (c : ChunkTimeline)
    : TimelineRenderer :=
  let sw_idx := SendWorkerIdx c in
  let '(s, send_track) := SendTrack s sw_idx in
  let worker_queue_wait_us := Elapsed (ct_t_enqueued_us c) (ct_t_dequeued_us c) in
  let tx_write_us := Elapsed (ct_t_dequeued_us c) (ct_t_tx_done_us c) in
  let t_w_enqueued_us :=
    if 0 <? ct_t_enqueued_us c then Z.max (ct_t_enqueued_us c) fanout_start_us else fanout_start_us in
  let send_end_us := end_of (send_end_us_ s) sw_idx in
  let hol_clamped := t_w_enqueued_us <? send_end_us in
  let visual_q_start_us := Z.max t_w_enqueued_us send_end_us in
  let t_w_dequeued_us := Z.max visual_q_start_us (ct_t_dequeued_us c) in
  let visual_q_dur_us := Elapsed visual_q_start_us t_w_dequeued_us in
  let '(s, t_w_dequeued_us) :=
    if (0 <? visual_q_dur_us) || (0 <? worker_queue_wait_us) then
      let q_dur_us := ClampSliceDur visual_q_dur_us in
      (AddSlice s send_track "queue"
         (StrFormat "WorkerQueue(req=0x%x, chunk=%u)%s"
            [FInt reqid; FInt (ct_index c); FStr (if hol_clamped then " [HoL Wait]" else EmptyString)])
         visual_q_start_us q_dur_us
         (StrFormat (raw "'handle':'0x%x','reqid':'0x%x','chunk_index':%u,'enqueued_at_us':%llu,'worker_queue_wait_us':%llu")
            [FInt handle; FInt reqid; FInt (ct_index c); FInt (ct_t_enqueued_us c);
             FInt worker_queue_wait_us]),
       u64 (visual_q_start_us + q_dur_us))
    else (s, t_w_dequeued_us) in
  let tx_dur_us := ClampSliceDur tx_write_us in
  let t_tx_done_us := u64 (t_w_dequeued_us + tx_dur_us) in
  let s := set_send_end s sw_idx t_tx_done_us in
  let s := AddSlice s send_track "transfer_tx"
    (StrFormat "SendChunk(req=0x%x, chunk=%u, %u B)" [FInt reqid; FInt (ct_index c); FInt (ct_size_bytes c)])
    t_w_dequeued_us tx_dur_us
    (StrFormat (raw "'handle':'0x%x','reqid':'0x%x','chunk_index':%u,'size_bytes':%u,'tx_send_us':%llu,'worker_queue_wait_us':%llu,'tx_write_us':%llu")
       [FInt handle; FInt reqid; FInt (ct_index c); FInt (ct_size_bytes c); FInt (ct_t_dequeued_us c);
        FInt worker_queue_wait_us; FInt tx_write_us]) in
  let s := AddFlow s (StrFormat "fanout_c%u" [FInt (ct_index c)]) kEngineTrack
    (Z.min t_w_enqueued_us (engine_end_us_ s)) send_track t_w_dequeued_us in
  EmitChunkAck s handle reqid c send_track t_w_dequeued_us t_tx_done_us.

Definition EmitRequestDone (s : TimelineRenderer) (post : PostTimeline) (req : RequestTimeline)
    : TimelineRenderer :=
  if rt_t_done_us req =? 0 then s
  else
    let sw_idx := AckWorkerIdx (rt_done_worker_id req) in
    let '(s, ack_track) := AckTrack s sw_idx in
    AddInstant s ack_track "completion" "t"%char (StrFormat "kRequestDone (req=0x%x)" [FInt (rt_reqid req)])
      (Z.max (rt_t_done_us req) (end_of (ack_end_us_ s) sw_idx))
      (StrFormat (raw "'handle':'0x%x','reqid':'0x%x','request_e2e_us':%llu")
         [FInt (pt_handle post); FInt (rt_reqid req); FInt (Elapsed (pt_t_entry_us post) (rt_t_done_us req))]).

Definition EmitRequest (post : PostTimeline) (s : TimelineRenderer) (req : RequestTimeline)
    : TimelineRenderer :=
  let handle := pt_handle post in
  let '(s, fanout_start_us) := EmitRequestFanout s handle req in
  let s := foldl (EmitChunk handle (rt_reqid req) fanout_start_us) s (rt_chunks req) in
  EmitRequestDone s post req.

Definition EmitCompletion (s : TimelineRenderer) (post : PostTimeline) : TimelineRenderer :=
  if pt_t_all_done_us post =? 0 then s
  else
    let handle := pt_handle post in
    let sw_idx := AckWorkerIdx (pt_all_done_worker_id post) in
    let '(s, ack_track) := AckTrack s sw_idx in
    let t_all_done_us := Z.max (pt_t_all_done_us post) (end_of (ack_end_us_ s) sw_idx) in
    let transport_e2e_us := Elapsed (pt_t_entry_us post) (pt_t_all_done_us post) in
    let pickup_us := Elapsed (pt_t_all_done_us post) (pt_t_completed_us post) in
    let s := AddInstant s ack_track "completion" "p"%char
      (StrFormat "kAllRequestsDone (handle=0x%x)" [FInt handle]) t_all_done_us
      (StrFormat (raw "'handle':'0x%x','transport_e2e_us':%llu") [FInt handle; FInt transport_e2e_us]) in
    match pt_completion_mode post with
    | kModeCallback =>
        let cb_dur_us := ClampedElapsed t_all_done_us (pt_t_completed_us post) in
        let s := AddSlice s ack_track "callback" "on_complete(Status::kSuccess) [kCallbackDone]"
          t_all_done_us cb_dur_us
          (StrFormat (raw "'handle':'0x%x','transport_e2e_us':%llu,'completion_pickup_us':%llu")
             [FInt handle; FInt transport_e2e_us; FInt pickup_us]) in
        set_ack_end s sw_idx (u64 (t_all_done_us + cb_dur_us))
    | kModePoll =>
        let wait_start_us := Z.max t_all_done_us (caller_end_us_ s) in
        let t_completed_us := Z.max wait_start_us (pt_t_completed_us post) in
        let wait_dur_us := Elapsed wait_start_us t_completed_us in
        let s :=
          if 0 <? wait_dur_us then
            AddSlice s kCallerTrack "poll_delay" "PollWaitDelay (Ready before Poll)" wait_start_us
              wait_dur_us
              (StrFormat (raw "'handle':'0x%x','completion_pickup_us':%llu") [FInt handle; FInt pickup_us])
          else s in
        let s := AddSlice s kCallerTrack "poll"
          (StrFormat "TransportImpl::Poll(0x%x) -> kSuccess [kPollReaped]" [FInt handle])
          t_completed_us 1
          (StrFormat (raw "'handle':'0x%x','status':'kSuccess','transport_e2e_us':%llu,'completion_pickup_us':%llu")
             [FInt handle; FInt transport_e2e_us; FInt pickup_us]) in
        let s := AddFlow s "completion_to_poll" ack_track t_all_done_us kCallerTrack t_completed_us in
        set_caller_end s (u64 (t_completed_us + 1))
    | kModeUnknown => s
    end.

Definition EmitPost (s : TimelineRenderer) (post : PostTimeline) : TimelineRenderer :=
  let '(s, enqueue_flow_ts) := EmitPostEnqueue s post in
  let s := EmitEngineQueueWait s post enqueue_flow_ts in
  let s := EmitConnSetup s post in
  let s := foldl (EmitRequest post) s (pt_requests post) in
  EmitCompletion s post.

(** * The whole text *)
Context `{O : HashOrder}.

Definition BuildMetadataEvents (s : TimelineRenderer) (self_endpoint : string) : list string :=
  let sender_name :=
    if String.eqb self_endpoint EmptyString then "Node A (Sender) — Peregrine Transport"%string
    else StrFormat "Node A (Sender) — Peregrine Transport [%s]" [FStr (EscapeJson self_endpoint)] in
  let out := AppendProcessMetadata [] kSenderPid 1 sender_name in
  let out := AppendProcessMetadata out kReceiverPid 2
    "Node B (Receiver) — Remote Peers (Piggybacked via ACK ChunkHeader)" in
  let out := AppendThreadMetadata out kCallerTrack
    (StrFormat "Caller / Poller Thread (tid=%d)" [FInt kCallerTid]) in
  let out := AppendThreadMetadata out kEngineTrack
    (StrFormat "Engine::main_thread_ (tid=%d)" [FInt kEngineTid]) in
  let workers pid base fmt := foldl (λ out idx,
    let track := mkTrack pid (base + idx) in
    AppendThreadMetadata out track (StrFormat fmt [FInt idx; FInt (tk_tid track)])) in
  let out := workers kSenderPid kSendWorkerTidBase "Worker #%d::send_thread_ (Tx, tid=%d)"%string
    out (iter_set (send_workers_ s)) in
  let out := workers kSenderPid kAckWorkerTidBase "Worker #%d::recv_thread_ (ACK Rx, tid=%d)"%string
    out (iter_set (ack_workers_ s)) in
  workers kReceiverPid kRecvWorkerTidBase "Remote Worker #-%d::recv_thread_ (tid=%d)"%string
    out (iter_set (recv_workers_ s)).

Definition render_posts (timelines : list PostTimeline) : TimelineRenderer :=
  foldl EmitPost TimelineRenderer_new timelines.
Definition Render (timelines : list PostTimeline) (self_endpoint : string) : string :=
  let s := render_posts timelines in
  let events := BuildMetadataEvents s self_endpoint ++ (json_text <$> slice_events_ s) in
  raw "{
  'displayTimeUnit': 'ms',
  'traceEvents': [
    " +:+ String.concat ",
    " events +:+ "
  ]
}
".
Definition Export (events : list TraceEvent) (self_endpoint : string) : string :=
  Render (AssembleTimelines events) self_endpoint.
End Emit.

(** * Slices on a track *)

(** The intervals (start, duration) drawn on track [t], in the order of their events. *)
Definition slices_on (t : Track) (evs : list json_event) : list (Z * Z) :=
  omap (λ ev, match ev with
              | JSlice t' _ _ ts dur _ => if decide (t' = t) then Some (ts, dur) else None
              | _ => None
              end) evs.

(** Two slices are disjoint, or one encloses the other. *)
Definition tidy (p q : Z * Z) : Prop :=
  let '(b1, e1) := (p.1, p.1 + p.2) in
  let '(b2, e2) := (q.1, q.1 + q.2) in
  e1 ≤ b2 ∨ e2 ≤ b1 ∨ (b1 ≤ b2 ∧ e2 ≤ e1) ∨ (b2 ≤ b1 ∧ e1 ≤ e2).
#[export] Instance tidy_dec p q : Decision (tidy p q).
Proof. unfold tidy. apply _. Defined.

(** The end that the renderer keeps for a track. *)
Definition end_at (s : TimelineRenderer) (t : Track) : Z :=
  if tk_pid t =? kReceiverPid then end_of (rx_end_us_ s) (tk_tid t - kRecvWorkerTidBase)
  else if tk_tid t =? kCallerTid then caller_end_us_ s
  else if tk_tid t =? kEngineTid then engine_end_us_ s
  else if tk_tid t <=? kAckWorkerTidBase then end_of (send_end_us_ s) (tk_tid t - kSendWorkerTidBase)
  else end_of (ack_end_us_ s) (tk_tid t - kAckWorkerTidBase).

(** All ends are at most [M]. *)
Record ends_within (M : Z) (s : TimelineRenderer) : Prop := {
  ew_caller : 0 ≤ caller_end_us_ s ≤ M;
  ew_engine : 0 ≤ engine_end_us_ s ≤ M;
  ew_send i : 0 ≤ end_of (send_end_us_ s) i ≤ M;
  ew_rx i : 0 ≤ end_of (rx_end_us_ s) i ≤ M;
  ew_ack i : 0 ≤ end_of (ack_end_us_ s) i ≤ M;
}.
(** No two slices on a track overlap partially, and none reaches beyond the recorded end. *)
Record drawn (s : TimelineRenderer) : Prop := {
  dr_tidy t : StronglySorted tidy (slices_on t (slice_events_ s));
  dr_ends t p : p ∈ slices_on t (slice_events_ s) → p.1 + p.2 ≤ end_at s t;
}.

Lemma slices_on_app t l l' : slices_on t (l ++ l') = slices_on t l ++ slices_on t l'.
Proof. apply omap_app. Qed.

Section SlicesOn.
Context (t : Track) (l : list json_event).
Lemma slices_here cat name ts dur args :
  slices_on t (JSlice t cat name ts dur args :: l) = (ts, dur) :: slices_on t l.
Proof. unfold slices_on. simpl. by rewrite decide_True. Qed.
Lemma slices_elsewhere t' cat name ts dur args :
  t' ≠ t → slices_on t (JSlice t' cat name ts dur args :: l) = slices_on t l.
Proof. intros. unfold slices_on. simpl. by rewrite decide_False. Qed.
Lemma slices_instant t' cat scope name ts args :
  slices_on t (JInstant t' cat scope name ts args :: l) = slices_on t l.
Proof. done. Qed.
Lemma slices_flow_start name id t' ts : slices_on t (JFlowStart name id t' ts :: l) = slices_on t l.
Proof. done. Qed.
Lemma slices_flow_end name id t' ts : slices_on t (JFlowEnd name id t' ts :: l) = slices_on t l.
Proof. done. Qed.
End SlicesOn.
Lemma slices_nil t : slices_on t [] = [].
Proof. done. Qed.
Create Rewrite HintDb slices.
#[export] Hint Rewrite slices_on_app slices_here slices_instant slices_flow_start slices_flow_end slices_nil : slices.
#[export] Hint Rewrite slices_elsewhere using congruence : slices.
#[local] Arguments raw : simpl never.

(** A group of slices drawn on one track from its end on. *)
Lemma drawn_group s s' t new :
  drawn s → slice_events_ s' = slice_events_ s ++ new →
  (∀ t', end_at s t' ≤ end_at s' t') →
  (∀ t', t' ≠ t → slices_on t' new = []) →
  StronglySorted tidy (slices_on t new) →
  Forall (λ p, end_at s t ≤ p.1 ∧ p.1 + p.2 ≤ end_at s' t) (slices_on t new) →
  drawn s'.
Proof.
  intros [Hs He] Hev Hmono Hoth Hnew Hin. rewrite Forall_forall in Hin.
  split; intros t'; rewrite Hev, slices_on_app;
    (destruct (decide (t' = t)) as [->|Hne]; [|rewrite Hoth, app_nil_r by done]).
  - apply StronglySorted_app_2; [|done|done]. intros p q Hp Hq.
    specialize (He _ _ Hp). specialize (Hin _ Hq). unfold tidy. lia.
  - apply Hs.
  - intros p [Hp|Hp]%elem_of_app; [specialize (He _ _ Hp); specialize (Hmono t); lia|].
    apply Hin in Hp. lia.
  - intros p Hp. specialize (He _ _ Hp). specialize (Hmono t'). lia.
Qed.

Lemma drawn_none s s' new :
  drawn s → slice_events_ s' = slice_events_ s ++ new → (∀ t, slices_on t new = []) →
  (∀ t, end_at s t ≤ end_at s' t) → drawn s'.
Proof.
  intros [Hs He] Hev Hnew Hmono.
  split; intros t; rewrite Hev, slices_on_app, Hnew, app_nil_r; [apply Hs|].
  intros p Hp. specialize (He _ _ Hp). specialize (Hmono t). lia.
Qed.

Lemma end_of_insert m i j v : end_of (<[i := v]> m) j = if decide (i = j) then v else end_of m j.
Proof.
  unfold end_of. case_decide as Hij; [subst; by rewrite lookup_insert_eq|by rewrite lookup_insert_ne].
Qed.

Lemma end_of_insert_eq m i v : end_of (<[i := v]> m) i = v.
Proof. rewrite end_of_insert. by case_decide. Qed.
Lemma end_of_insert_mono m i j v : end_of m i ≤ v → end_of m j ≤ end_of (<[i := v]> m) j.
Proof. intros. rewrite end_of_insert. case_decide; [by subst|lia]. Qed.

Section EndAt.
Context (s : TimelineRenderer) (i : Z).
Lemma end_at_send : 1 ≤ i ≤ 200 →
  end_at s (mkTrack kSenderPid (kSendWorkerTidBase + i)) = end_of (send_end_us_ s) i.
Proof.
  intros. unfold end_at, kSendWorkerTidBase, kAckWorkerTidBase, kCallerTid, kEngineTid. simpl tk_tid.
  destruct (Z.eqb_spec (100 + i) 1), (Z.eqb_spec (100 + i) 2), (Z.leb_spec (100 + i) 300); try lia.
  simpl. f_equal. lia.
Qed.
Lemma end_at_ack : 1 ≤ i →
  end_at s (mkTrack kSenderPid (kAckWorkerTidBase + i)) = end_of (ack_end_us_ s) i.
Proof.
  intros. unfold end_at, kSendWorkerTidBase, kAckWorkerTidBase, kCallerTid, kEngineTid. simpl tk_tid.
  destruct (Z.eqb_spec (300 + i) 1), (Z.eqb_spec (300 + i) 2), (Z.leb_spec (300 + i) 300); try lia.
  simpl. f_equal. lia.
Qed.
Lemma end_at_rx : end_at s (mkTrack kReceiverPid (kRecvWorkerTidBase + i)) = end_of (rx_end_us_ s) i.
Proof. unfold end_at. simpl. f_equal. lia. Qed.
End EndAt.

Lemma Elapsed_cases a b :
  0 ≤ a → 0 ≤ b < 2 ^ 64 → (0 < a < b ∧ Elapsed a b = b - a) ∨ (¬ 0 < a < b ∧ Elapsed a b = 0).
Proof.
  intros Ha Hb. unfold Elapsed.
  destruct (Z.ltb_spec 0 a), (Z.ltb_spec a b); simpl; try (right; split; [lia|done]).
  left. split; [lia|]. apply wrap_small. unfold fits. lia.
Qed.

(** * Timelines whose times are at most [T] *)

Section Draw.
Context `{F : Formatter} (T : Z).
Hypothesis T_pos : 0 ≤ T.

Record chunk_within (c : ChunkTimeline) : Prop := {
  cw_enqueued : 0 ≤ ct_t_enqueued_us c ≤ T;
  cw_dequeued : 0 ≤ ct_t_dequeued_us c ≤ T;
  cw_tx_done : 0 ≤ ct_t_tx_done_us c ≤ T;
  cw_ack : 0 ≤ ct_t_ack_us c ≤ T;
  cw_acquire : fits 32 (ct_rx_acquire_us c);
  cw_payload : fits 32 (ct_rx_payload_us c);
}.
Record request_within (r : RequestTimeline) : Prop := {
  rw_dequeued : 0 ≤ rt_t_dequeued_us r ≤ T;
  rw_done : 0 ≤ rt_t_done_us r ≤ T;
  rw_chunks : Forall chunk_within (rt_chunks r);
}.
Record post_within (p : PostTimeline) : Prop := {
  pw_entry : 0 ≤ pt_t_entry_us p ≤ T;
  pw_enqueued : 0 ≤ pt_t_enqueued_us p ≤ T;
  pw_conn_start : 0 ≤ pt_t_conn_start_us p ≤ T;
  pw_host_info : 0 ≤ pt_t_host_info_done_us p ≤ T;
  pw_conn_done : 0 ≤ pt_t_conn_done_us p ≤ T;
  pw_all_done : 0 ≤ pt_t_all_done_us p ≤ T;
  pw_completed : 0 ≤ pt_t_completed_us p ≤ T;
  pw_requests : Forall request_within (pt_requests p);
}.

(** Removes the wrap-around of sums that fit, innermost first. *)
Local Ltac u64_small :=
  repeat match goal with
  | |- context [wrap 64 ?z] =>
      lazymatch z with context [wrap _ _] => fail | _ => idtac end;
      rewrite (wrap_small 64 z) by (unfold fits; lia)
  end.
Local Ltac solve_ends :=
  split; simpl; intros; rewrite ?end_of_insert; try case_decide;
  repeat match goal with
  | H : ∀ i : Z, 0 ≤ end_of _ i ≤ _ |- context [end_of _ ?j] => specialize (H j)
  end; lia.
Local Ltac solve_mono :=
  intros ?; unfold end_at; simpl; repeat case_match; first [lia | apply end_of_insert_mono; lia].
Local Ltac solve_slices :=
  intros; autorewrite with slices; try done; rewrite ?end_at_rx; rewrite ?end_at_send, ?end_at_ack by lia;
  repeat first [apply SSorted_nil | apply SSorted_cons | apply Forall_nil_2 | apply Forall_cons_2];
  unfold end_at, tidy; simpl; rewrite ?end_of_insert_eq; lia.

Local Ltac solve_group t :=
  eapply (drawn_group _ _ t);
  [eassumption|simpl; rewrite <-?app_assoc; reflexivity|solve_mono|solve_slices|solve_slices|solve_slices].
Local Ltac solve_none :=
  eapply drawn_none; [eassumption|simpl; rewrite <-?app_assoc; reflexivity|solve_slices|solve_mono].

(** How far one step can move the ends. *)
Definition D : Z := T + 2 ^ 33 + 8.
Definition good (M : Z) (s : TimelineRenderer) : Prop := ends_within M s ∧ drawn s.

Lemma good_weaken M M' s : M ≤ M' → good M s → good M' s.
Proof.
  intros HM [[] ?]. split; [|done].
  split; intros; repeat match goal with H : ∀ _ : Z, _ |- _ => specialize (H i) end; lia.
Qed.

Lemma EmitPostEnqueue_good M s p :
  post_within p → good M s → T ≤ M → M + D < 2 ^ 64 → good (M + D) (EmitPostEnqueue s p).1.
Proof.
  intros [] [Hw Hd] HT HM. unfold D in *. unfold EmitPostEnqueue, AddSlice, ClampedElapsed, ClampSliceDur.
  destruct s as [l n ce ee sw rw aw se re ae], Hw. simpl in *.
  pose proof (Elapsed_cases (Z.max (pt_t_entry_us p) ce) (pt_t_enqueued_us p)) as He.
  u64_small. split; [by solve_ends|].
  solve_group kCallerTrack.
Qed.

Lemma EngineStartUs_within p : post_within p → 0 ≤ EngineStartUs p ≤ T.
Proof.
  intros []. unfold EngineStartUs. destruct (_ <? _); [done|].
  destruct pw_requests0 as [|r rs []]; lia.
Qed.

Lemma EmitEngineQueueWait_good M s p ts :
  post_within p → good M s → T ≤ M → M + D < 2 ^ 64 → good (M + D) (EmitEngineQueueWait s p ts).
Proof.
  intros Hp [Hw Hd] HT HM. pose proof (EngineStartUs_within _ Hp) as Hst. unfold D in *.
  unfold EmitEngineQueueWait, AddSlice, AddFlow, ClampSliceDur.
  destruct s as [l n ce ee sw rw aw se re ae], Hw. simpl in *.
  destruct ((_ <? _) || _) eqn:Hc; simpl.
  - u64_small. split; [by solve_ends|].
    solve_group kEngineTrack.
  - apply orb_false_iff in Hc as [Hc _]. apply Z.ltb_ge in Hc. split; [by solve_ends|].
    solve_none.
Qed.

Lemma EmitConnSetup_good M s p :
  post_within p → good M s → T ≤ M → M + D < 2 ^ 64 → good (M + D) (EmitConnSetup s p).
Proof.
  intros [] [Hw Hd] HT HM. unfold D in *. unfold EmitConnSetup, AddSlice, ClampedElapsed, ClampSliceDur.
  destruct (_ && _); [apply good_weaken with M; [lia|done]|].
  destruct s as [l n ce ee sw rw aw se re ae], Hw. simpl in *.
  pose proof (Elapsed_cases ee (pt_t_conn_done_us p)) as He1.
  pose proof (Elapsed_cases (pt_t_conn_start_us p) (pt_t_host_info_done_us p)) as He2.
  pose proof (Elapsed_cases (Z.max (pt_t_conn_start_us p) (pt_t_host_info_done_us p))
                (pt_t_conn_done_us p)) as He3.
  set (host := Elapsed (pt_t_conn_start_us p) _) in *.
  set (conn := Elapsed (Z.max _ _) _) in *. set (dur := Elapsed ee _) in *.
  rewrite (wrap_small 64 (host + conn)) by (unfold fits; lia).
  destruct ((0 <? host) && _) eqn:Hh, ((0 <? conn) && _) eqn:Hn; simpl;
    rewrite ?andb_true_iff, ?Z.ltb_lt, ?Z.leb_le in *; u64_small; (split; [by solve_ends|]); solve_group kEngineTrack.
Qed.

Lemma last_enqueued_within z cs :
  0 ≤ z ≤ T → Forall chunk_within cs → 0 ≤ foldl (λ t c, Z.max t (ct_t_enqueued_us c)) z cs ≤ T.
Proof.
  intros Hz Hcs. revert z Hz. induction Hcs as [|c cs [] _ IH]; intros z Hz; simpl; [lia|].
  apply IH. lia.
Qed.

Lemma EmitRequestFanout_good M s h r :
  request_within r → good M s → T ≤ M → M + D < 2 ^ 64 →
  good (M + D) (EmitRequestFanout s h r).1 ∧ 0 ≤ (EmitRequestFanout s h r).2 ≤ M.
Proof.
  intros [] [Hw Hd] HT HM. unfold D in *. unfold EmitRequestFanout, AddSlice, ClampedElapsed, ClampSliceDur.
  destruct s as [l n ce ee sw rw aw se re ae], Hw. simpl in *.
  pose proof (last_enqueued_within 0 (rt_chunks r) ltac:(lia) rw_chunks0) as Hl.
  pose proof (Elapsed_cases (Z.max ee (rt_t_dequeued_us r))
                (foldl (λ t c, Z.max t (ct_t_enqueued_us c)) 0 (rt_chunks r))) as He.
  u64_small. split; [|lia]. split; [by solve_ends|]. solve_group kEngineTrack.
Qed.

Lemma transit_within M tw ta total :
  0 ≤ tw ≤ M → 0 ≤ ta ≤ M → 0 ≤ total < 2 ^ 32 → M < 2 ^ 64 →
  let rtt := if tw <? ta then u64 (ta - tw) else Z.max 1 total in
  let transit := if total <? rtt then u64 (rtt - total) else 0 in
  0 ≤ transit / 2 ∧ tw + transit / 2 ≤ M.
Proof.
  intros Htw Hta Ht HM rtt transit.
  assert (0 ≤ transit ∧ (transit ≤ 1 ∨ tw + transit ≤ M)) as [? ?].
  { subst transit rtt. destruct (Z.ltb_spec tw ta) as [Hlt|Hlt].
    - rewrite (wrap_small 64 (ta - tw)) by (unfold fits; lia).
      destruct (Z.ltb_spec total (ta - tw)); [|lia]. rewrite wrap_small by (unfold fits; lia). lia.
    - destruct (Z.ltb_spec total (Z.max 1 total)); [|lia]. rewrite wrap_small by (unfold fits; lia). lia. }
  pose proof (Z.div_mod transit 2 ltac:(lia)). pose proof (Z.mod_pos_bound transit 2 ltac:(lia)).
  split; [apply Z.div_pos; lia|lia].
Qed.

Lemma EmitRemoteRecv_good M s h rq c st tw ta :
  chunk_within c → good M s → 0 ≤ tw ≤ M → 0 ≤ ta ≤ M → M + 2 ^ 33 < 2 ^ 64 →
  good (M + 2 ^ 33) (EmitRemoteRecv s h rq c st tw ta).1.1.
Proof.
  intros [] [Hw Hd] Htw Hta HM. unfold EmitRemoteRecv, RecvTrack, AddSlice, AddFlow, ClampSliceDur.
  destruct s as [l n ce ee sw rw aw se re ae], Hw. simpl in *. unfold fits in *.
  set (total := u32 _). assert (0 ≤ total < 2 ^ 32) as Ht by (apply Z.mod_pos_bound; done).
  pose proof (transit_within M tw ta total Htw Hta Ht ltac:(lia)) as Htr. cbv zeta in Htr.
  set (transit := if total <? _ then _ else _) in *.
  set (half := transit / 2) in *. clearbody half.
  set (i := RecvWorkerIdx c). clearbody i. pose proof (ew_rx0 i) as Hi.
  u64_small. split; [by solve_ends|].
  solve_group (mkTrack kReceiverPid (kRecvWorkerTidBase + i)).
Qed.

Lemma EmitChunkAck_good M s h rq c st tw tx :
  chunk_within c → 1 ≤ SendWorkerIdx c → good M s → T ≤ M → 0 ≤ tw ≤ M → 0 ≤ tx ≤ M → tw + T ≤ M →
  M + 2 ^ 33 + 2 < 2 ^ 64 →
  good (M + 2 ^ 33 + 2) (EmitChunkAck s h rq c st tw tx).
Proof.
  intros Hc Hi Hg HT Htw Htx Hsum HM. unfold EmitChunkAck.
  destruct (ct_t_ack_us c =? 0); [apply good_weaken with M; [lia|done]|].
  pose proof (Elapsed_cases (ct_t_dequeued_us c) (ct_t_ack_us c)) as He. destruct Hc as [] eqn:EHc.
  rewrite (wrap_small 64 (tw + _)) by (unfold fits; lia).
  set (ta := if tx <=? ct_t_ack_us c then _ else _).
  assert (0 ≤ ta ≤ M) as Hta by (subst ta; destruct (tx <=? ct_t_ack_us c); lia).
  clearbody ta. pose proof (EmitRemoteRecv_good M s h rq c st tw ta Hc Hg Htw Hta ltac:(lia)) as Hr.
  destruct (EmitRemoteRecv s h rq c st tw ta) as [[s' rt] td]. simpl in Hr. clear Hg EHc. clear Hc s.
  set (i := SendWorkerIdx c) in *. clearbody i.
  destruct s' as [l n ce ee sw rw aw se re ae], Hr as [[] Hd]. simpl in *.
  pose proof (ew_ack0 i) as Hai.
  set (start := Z.max (end_of ae i) _). assert (end_of ae i ≤ start ∧ 0 ≤ start ≤ M + 2 ^ 33) as Hs.
  { subst start. destruct (1 <? ta); lia. }
  clearbody start.
  set (dur := if start <=? ta then _ else _). assert (1 ≤ dur ∧ start + dur ≤ M + 2 ^ 33 + 2) as Hdur.
  { subst dur. destruct (Z.leb_spec start ta); [|lia]. rewrite wrap_small by (unfold fits; lia). lia. }
  clearbody dur. rewrite (wrap_small 64 (start + dur)) by (unfold fits; lia).
  split; [by solve_ends|]. solve_group (mkTrack kSenderPid (kAckWorkerTidBase + i)).
Qed.

Definition own_track (c : ChunkTimeline) : Prop := 1 ≤ SendWorkerIdx c ≤ 200.

Lemma EmitChunk_good M s h rq fs c :
  chunk_within c → own_track c → good M s → 0 ≤ fs ≤ M → T ≤ M → M + D < 2 ^ 64 →
  good (M + D) (EmitChunk h rq fs s c).
Proof.
  intros Hc Hi Hg Hfs HT HM. unfold EmitChunk, D in *. destruct Hc as [] eqn:EHc. clear EHc.
  destruct s as [l n ce ee sw rw aw se re ae]. simpl.
  set (enq := if 0 <? ct_t_enqueued_us c then _ else _).
  assert (0 ≤ enq ≤ M) as Henq by (subst enq; destruct (0 <? ct_t_enqueued_us c); lia). clearbody enq.
  pose proof Hg as [[] Hd]. simpl in *. pose proof (ew_send0 (SendWorkerIdx c)) as Hse.
  unfold own_track in Hi.
  set (i := SendWorkerIdx c) in *.
  set (q := Z.max enq (end_of se i)). assert (end_of se i ≤ q ∧ 0 ≤ q ≤ M) as Hq by lia. clearbody q.
  set (deq := Z.max q (ct_t_dequeued_us c)). assert (q ≤ deq ≤ M) as Hdeq by lia. clearbody deq.
  pose proof (Elapsed_cases q deq ltac:(lia) ltac:(lia)) as Hvis.
  pose proof (Elapsed_cases (ct_t_dequeued_us c) (ct_t_tx_done_us c) ltac:(lia) ltac:(lia)) as Htx.
  set (vis := Elapsed q deq) in *. set (tx := Elapsed (ct_t_dequeued_us c) _) in *.
  clearbody vis tx. set (wait := Elapsed (ct_t_enqueued_us c) _). unfold ClampSliceDur.
  destruct ((0 <? vis) || (0 <? wait)); simpl; u64_small;
    (eapply good_weaken; [|eapply (EmitChunkAck_good (M + T + 4)); [done|apply Hi| |lia..]]; [lia|]);
    (split; [by solve_ends|]); solve_group (mkTrack kSenderPid (kSendWorkerTidBase + i)).
Qed.

Lemma EmitRequestDone_good M s p r : good M s → good M (EmitRequestDone s p r).
Proof.
  intros [Hw Hd]. unfold EmitRequestDone. destruct (_ =? _); [done|].
  destruct s as [l n ce ee sw rw aw se re ae], Hw. simpl in *.
  split; [by solve_ends|]. solve_none.
Qed.

(** A loop whose iterations move the ends by at most their weight. *)
Definition total_weight {A} (w : A → Z) (l : list A) : Z := foldr Z.add 0 (w <$> l).
Lemma total_weight_nonneg {A} (w : A → Z) l : (∀ a, a ∈ l → 0 ≤ w a) → 0 ≤ total_weight w l.
Proof.
  induction l as [|a l IH]; intros Hw; [done|].
  change (total_weight w (a :: l)) with (w a + total_weight w l).
  pose proof (Hw a ltac:(left)). specialize (IH ltac:(intros b Hb; apply Hw; by right)). lia.
Qed.
Lemma fold_good {A} (f : TimelineRenderer → A → TimelineRenderer) (w : A → Z) (l : list A) (B : Z) :
  (∀ a, a ∈ l → 0 ≤ w a) →
  (∀ M s a, a ∈ l → good M s → B ≤ M → M + w a * D < 2 ^ 64 → good (M + w a * D) (f s a)) →
  ∀ M s, good M s → B ≤ M → M + total_weight w l * D < 2 ^ 64 →
  good (M + total_weight w l * D) (foldl f s l).
Proof.
  assert (0 ≤ D) by (unfold D; lia).
  induction l as [|a l IH]; intros Hw Hf M s Hg HB HM; simpl in *.
  { by replace (M + total_weight w [] * D) with M by (unfold total_weight; simpl; lia). }
  assert (∀ b, b ∈ l → 0 ≤ w b) as Hw' by (intros b Hb; apply Hw; by right).
  pose proof (total_weight_nonneg w l Hw'). pose proof (Hw a ltac:(left)).
  change (total_weight w (a :: l)) with (w a + total_weight w l) in *.
  assert (0 ≤ total_weight w l * D ∧ 0 ≤ w a * D) as [? ?] by (split; apply Z.mul_nonneg_nonneg; done).
  eapply good_weaken; [|apply (IH Hw'); [|apply (Hf M); [left|done|done|lia]|lia|lia]]; [lia|].
  intros M' s' b Hb. apply Hf. by right.
Qed.

Definition request_weight (r : RequestTimeline) : Z := 1 + Z.of_nat (length (rt_chunks r)).
Definition own_tracks (p : PostTimeline) : Prop := Forall (λ r, Forall own_track (rt_chunks r)) (pt_requests p).

Lemma total_weight_ones {A} (l : list A) : total_weight (λ _, 1) l = Z.of_nat (length l).
Proof.
  induction l as [|a l IH]; [done|].
  change (total_weight (λ _, 1) (a :: l)) with (1 + total_weight (λ _, 1) l). rewrite IH. simpl. lia.
Qed.

Lemma EmitRequest_good M s p r :
  request_within r → Forall own_track (rt_chunks r) → good M s → T ≤ M →
  M + request_weight r * D < 2 ^ 64 → good (M + request_weight r * D) (EmitRequest p s r).
Proof.
  intros Hr Ho Hg HT HM. assert (0 ≤ D) by (unfold D; lia). unfold EmitRequest, request_weight in *.
  destruct (EmitRequestFanout_good M s (pt_handle p) r Hr Hg HT ltac:(lia)) as [Hf Hfs].
  destruct (EmitRequestFanout s (pt_handle p) r) as [s' fs]. simpl in *.
  apply EmitRequestDone_good. destruct Hr.
  replace (M + (1 + Z.of_nat (length (rt_chunks r))) * D)
    with (M + D + total_weight (λ _, 1) (rt_chunks r) * D) by (rewrite total_weight_ones; lia).
  rewrite Forall_forall in Ho, rw_chunks0.
  apply (fold_good _ (λ _, 1) _ (M + D)); [lia| |done|lia|rewrite total_weight_ones; lia].
  intros M' s0 c Hc Hg' HB HM'. rewrite Z.mul_1_l in *. apply EmitChunk_good; auto; lia.
Qed.

Lemma EmitCompletion_good M s p :
  post_within p → good M s → T ≤ M → M + D < 2 ^ 64 → good (M + D) (EmitCompletion s p).
Proof.
  intros [] Hg HT HM. unfold EmitCompletion, D, ClampedElapsed, ClampSliceDur in *.
  destruct (_ =? 0); [apply good_weaken with M; [lia|done]|].
  destruct s as [l n ce ee sw rw aw se re ae], Hg as [[] Hd]. simpl in *.
  set (i := AckWorkerIdx _). assert (1 ≤ i) by (unfold i, AckWorkerIdx; lia). clearbody i.
  pose proof (ew_ack0 i) as Hai.
  set (t := Z.max (pt_t_all_done_us p) (end_of ae i)).
  assert (end_of ae i ≤ t ∧ 0 ≤ t ≤ M) as Ht by lia. clearbody t.
  destruct (pt_completion_mode p); simpl.
  - split; [by solve_ends|]. solve_none.
  - pose proof (Elapsed_cases t (pt_t_completed_us p) ltac:(lia) ltac:(lia)) as He. u64_small.
    split; [by solve_ends|]. solve_group (mkTrack kSenderPid (kAckWorkerTidBase + i)).
  - set (w := Z.max t ce). assert (ce ≤ w ≤ M) as Hw by lia. clearbody w.
    set (d := Z.max w (pt_t_completed_us p)). assert (w ≤ d ≤ M) as Hdd by lia. clearbody d.
    pose proof (Elapsed_cases w d ltac:(lia) ltac:(lia)) as He. set (e := Elapsed w d) in *.
    clearbody e. destruct (Z.ltb_spec 0 e); simpl; u64_small;
      (split; [by solve_ends|]); solve_group kCallerTrack.
Qed.

Definition post_weight (p : PostTimeline) : Z := 4 + total_weight request_weight (pt_requests p).
Lemma post_weight_bound p : 4 ≤ post_weight p.
Proof.
  unfold post_weight. pose proof (total_weight_nonneg request_weight (pt_requests p)) as Hn.
  specialize (Hn ltac:(intros; unfold request_weight; lia)). lia.
Qed.

Lemma EmitPost_good M s p :
  post_within p → own_tracks p → good M s → T ≤ M →
  M + post_weight p * D < 2 ^ 64 → good (M + post_weight p * D) (EmitPost s p).
Proof.
  intros Hp Ho Hg HT HM. assert (0 ≤ D) as HD by (unfold D; lia).
  pose proof (post_weight_bound p) as Hn. unfold post_weight in *.
  set (w := total_weight request_weight (pt_requests p)) in *.
  assert (0 ≤ w * D) by nia. unfold EmitPost.
  pose proof (EmitPostEnqueue_good M s p Hp Hg HT ltac:(lia)) as H1.
  destruct (EmitPostEnqueue s p) as [s1 fts]. simpl in H1.
  pose proof (EmitEngineQueueWait_good (M + D) s1 p fts Hp H1 ltac:(lia) ltac:(lia)) as H2.
  pose proof (EmitConnSetup_good (M + D + D) _ p Hp H2 ltac:(lia) ltac:(lia)) as H3.
  assert (good (M + D + D + D + w * D) (foldl (EmitRequest p) (EmitConnSetup (EmitEngineQueueWait s1 p fts) p)
            (pt_requests p))) as H4.
  { apply (fold_good _ request_weight _ T); [unfold request_weight; lia| |done|lia|fold w; lia].
    pose proof (pw_requests _ Hp) as Hr. unfold own_tracks in Ho. rewrite Forall_forall in Ho, Hr.
    intros. apply EmitRequest_good; auto. }
  eapply good_weaken; [|apply (EmitCompletion_good _ _ p Hp H4)]; lia.
Qed.

Lemma render_posts_good ps :
  Forall post_within ps → Forall own_tracks ps → T + total_weight post_weight ps * D < 2 ^ 64 →
  good (T + total_weight post_weight ps * D) (render_posts ps).
Proof.
  intros Hp Ho HM. rewrite Forall_forall in Hp, Ho.
  apply (fold_good _ post_weight _ T); [|intros; apply EmitPost_good; auto| |lia|done].
  - intros p _. pose proof (post_weight_bound p). lia.
  - split; split; simpl; intros; try lia; try constructor; unfold end_of; rewrite ?lookup_empty; simpl; try lia.
    by apply not_elem_of_nil in H.
Qed.
End Draw.

(** * Timelines of a snapshot *)

Definition event_within (T : Z) (e : TraceEvent) : Prop :=
  0 ≤ te_timestamp_us e ≤ T ∧ fits 32 (te_metric1 e) ∧ fits 32 (te_metric2 e).

Section Within.
Context (T : Z) (T_pos : 0 ≤ T).

Lemma last_of_in {A} (P : A → Prop) d sel evs :
  P d → (∀ e v, e ∈ evs → sel e = Some v → P v) → P (last_of d sel evs).
Proof.
  intros Hd Hsel. unfold last_of. destruct (last _) as [v|] eqn:El; [|done].
  apply last_Some_elem_of, list_elem_of_omap in El as (e & He & Hv). by eapply Hsel.
Qed.
Lemma earliest_in {A} (P : A → Prop) d f s evs :
  P d → (∀ e, e ∈ evs → P (f e)) → P (default d (f <$> earliest s evs)).
Proof.
  intros Hd Hf. destruct (earliest s evs) as [e|] eqn:E; [|done].
  apply Hf. by apply (earliest_spec s).
Qed.

Lemma last_time_within s evs :
  Forall (event_within T) evs → 0 ≤ last_of 0 (time_of s) evs ≤ T.
Proof.
  rewrite Forall_forall. intros Hev. apply (last_of_in (λ t, 0 ≤ t ≤ T)); [lia|].
  intros e v He Hv. unfold time_of in Hv. case_decide; simplify_eq. by apply Hev.
Qed.
Lemma earliest_time_within s evs :
  Forall (event_within T) evs → 0 ≤ default 0 (te_timestamp_us <$> earliest s evs) ≤ T.
Proof.
  rewrite Forall_forall. intros Hev. apply (earliest_in (λ t, 0 ≤ t ≤ T)); [lia|].
  intros e He. by apply Hev.
Qed.
Lemma with_key_within key k evs :
  Forall (event_within T) evs → Forall (event_within T) (with_key key k evs).
Proof. rewrite !Forall_forall. intros Hev e [_ He]%list_elem_of_filter. auto. Qed.

Lemma chunk_ref_within i evs : Forall (event_within T) evs → chunk_within T (chunk_ref i evs).
Proof.
  intros Hev. pose proof Hev as Hf. rewrite Forall_forall in Hf.
  split; simpl; auto using last_time_within, earliest_time_within;
    (apply (earliest_in (fits 32)); [by unfold fits|]); intros e He; by apply Hf.
Qed.
Lemma request_ref_within r evs : Forall (event_within T) evs → request_within T (request_ref r evs).
Proof.
  intros Hev. split; simpl; auto using last_time_within, earliest_time_within.
  rewrite std_sort_Permutation. apply Forall_fmap, Forall_true.
  intros i. apply chunk_ref_within. by apply with_key_within.
Qed.
Lemma timeline_ref_within h evs : Forall (event_within T) evs → post_within T (timeline_ref h evs).
Proof.
  intros Hev. split; simpl; auto using last_time_within, earliest_time_within.
  - rewrite Forall_forall in Hev. apply (last_of_in (λ t, 0 ≤ t ≤ T)); [lia|].
    intros e v He Hv. unfold of_completion in Hv. destruct (te_stage e); simplify_eq; by apply Hev.
  - rewrite std_sort_Permutation. apply Forall_fmap, Forall_true.
    intros r. apply request_ref_within. by apply with_key_within.
Qed.
Lemma timelines_ref_within evs :
  Forall (event_within T) evs → Forall (post_within T) (timelines_ref evs).
Proof.
  intros Hev. unfold timelines_ref. rewrite std_sort_Permutation. apply Forall_fmap, Forall_true.
  intros h. apply timeline_ref_within. by apply with_key_within.
Qed.
End Within.

(** * Every event adds at most one post, one request and one chunk *)

Lemma total_weight_cons {A} (w : A → Z) a l : total_weight w (a :: l) = w a + total_weight w l.
Proof. done. Qed.
Lemma total_weight_perm {A} (w : A → Z) l l' : l ≡ₚ l' → total_weight w l = total_weight w l'.
Proof. intros Hp. unfold total_weight. by apply sum_perm; rewrite Hp. Qed.
Lemma total_weight_le {A B} (w : B → Z) (g : A → B) (v : A → Z) l :
  (∀ a, w (g a) ≤ v a) → total_weight w (g <$> l) ≤ total_weight v l.
Proof.
  intros Hw. induction l as [|a l IH]; [done|]. rewrite fmap_cons, !total_weight_cons. specialize (Hw a). lia.
Qed.
Lemma total_weight_affine {A} (w : A → Z) m n l :
  total_weight (λ a, m + n * w a) l = m * Z.of_nat (length l) + n * total_weight w l.
Proof.
  induction l as [|a l IH]; [unfold total_weight; simpl; lia|]. rewrite !total_weight_cons, IH.
  rewrite length_cons, Nat2Z.inj_succ. lia.
Qed.

Lemma keys_of_length key evs : Z.of_nat (length (keys_of key evs)) ≤ Z.of_nat (length evs).
Proof.
  unfold keys_of. assert (length (omap key evs) ≤ length evs)%nat.
  { induction evs as [|e evs IH]; [done|].
    change (omap key (e :: evs)) with (match key e with Some k => k :: omap key evs | None => omap key evs end).
    destruct (key e); rewrite ?length_cons; lia. }
  assert (∀ l : list Z, length (remove_dups l) ≤ length l)%nat as Hr.
  { induction l as [|k l IH]; simpl; [lia|]. case_decide; simpl; lia. }
  specialize (Hr (omap key evs)). lia.
Qed.

Lemma with_key_partition key evs ks :
  NoDup ks →
  total_weight (λ k, Z.of_nat (length (with_key key k evs))) ks ≤ Z.of_nat (length evs).
Proof.
  intros Hks. revert evs. induction Hks as [|k ks Hk _ IH]; intros evs; [unfold total_weight; simpl; lia|].
  rewrite total_weight_cons. specialize (IH (filter (λ e, key e ≠ Some k) evs)).
  assert (total_weight (λ j, Z.of_nat (length (with_key key j evs))) ks =
          total_weight (λ j, Z.of_nat (length (with_key key j (filter (λ e, key e ≠ Some k) evs)))) ks) as ->.
  { clear IH. induction ks as [|j ks IH]; [done|]. rewrite !total_weight_cons. apply not_elem_of_cons in Hk as [].
    rewrite IH by done. f_equal. f_equal. unfold with_key. rewrite list_filter_filter_l; [done|]. congruence. }
  assert (length evs = length (with_key key k evs) + length (filter (λ e, key e ≠ Some k) evs))%nat; [|lia].
  unfold with_key. clear. induction evs as [|e evs IH]; [done|].
  rewrite !filter_cons. repeat case_decide; simpl; try lia; naive_solver.
Qed.

Lemma request_ref_weight r evs : request_weight (request_ref r evs) ≤ 1 + 1 * Z.of_nat (length evs).
Proof.
  unfold request_weight. simpl. rewrite std_sort_Permutation, length_fmap.
  pose proof (keys_of_length chunk_key evs). lia.
Qed.
Lemma timeline_ref_weight h evs : post_weight (timeline_ref h evs) ≤ 4 + 2 * Z.of_nat (length evs).
Proof.
  unfold post_weight. simpl. rewrite (total_weight_perm _ _ _ (std_sort_Permutation _ _)).
  pose proof (total_weight_le request_weight _ _ (keys_of request_key evs)
    (λ r, request_ref_weight r (with_key request_key r evs))) as Hw.
  rewrite total_weight_affine in Hw. pose proof (keys_of_length request_key evs).
  pose proof (with_key_partition request_key evs _ (keys_of_NoDup request_key evs)). lia.
Qed.
Lemma timelines_ref_weight evs :
  total_weight post_weight (timelines_ref evs) ≤ 8 * Z.of_nat (length evs).
Proof.
  unfold timelines_ref. rewrite (total_weight_perm _ _ _ (std_sort_Permutation _ _)).
  pose proof (total_weight_le post_weight _ _ (keys_of entry_key evs)
    (λ h, timeline_ref_weight h (with_key handle_key h evs))) as Hw.
  rewrite total_weight_affine in Hw. pose proof (keys_of_length entry_key evs).
  pose proof (with_key_partition handle_key evs _ (keys_of_NoDup entry_key evs)). lia.
Qed.

(** C28: The rendering of a snapshot: on every track, any two slices are disjoint or one encloses
    the other, however the recorded times overlap.  This holds for a snapshot of the ring buffer
    with times below 2^44 us, of chunks whose sender worker has its own track (at most 200
    workers; the code gives worker 201 the thread id of the first acknowledgement track). *)
Theorem Export_slices_tidy `{F : Formatter} `{O : HashOrder} (L : HashOrderLaws O)
    (events : list TraceEvent) (t : Track) :
  Z.of_nat (length events) ≤ kCapacity → Forall (event_within (2 ^ 44)) events →
  Forall own_tracks (AssembleTimelines events) →
  StronglySorted tidy (slices_on t (slice_events_ (render_posts (AssembleTimelines events)))).
Proof.
  intros Hlen Hev Ho. rewrite (AssembleTimelines_ref events) in *.
  pose proof (timelines_ref_weight events) as Hw. unfold kCapacity in Hlen.
  destruct (render_posts_good (2 ^ 44) ltac:(lia) (timelines_ref events)) as [_ [Hs _]];
    [by apply timelines_ref_within|done|unfold D; lia|apply Hs].
Qed.

#[export] Instance event_within_dec T e : Decision (event_within T e).
Proof. unfold event_within, fits. apply _. Defined.
#[export] Instance own_tracks_dec p : Decision (own_tracks p).
Proof. unfold own_tracks, own_track. apply _. Defined.

(** * A formatter *)
Module Printf.
Definition dec (n : Z) : string := pretty n.
Fixpoint hex_digits (fuel : nat) (n : Z) (acc : string) : string :=
  match fuel with
  | O => acc
  | S fuel =>
      let d := Z.to_nat (n `mod` 16) in
      let acc := String (Ascii.ascii_of_nat (if (d <? 10)%nat then 48 + d else 87 + d)) acc in
      if n <? 16 then acc else hex_digits fuel (n / 16) acc
  end.
Definition hex (n : Z) : string := hex_digits 17 n EmptyString.
Fixpoint printf (fmt : string) (args : list format_arg) : string :=
  match fmt with
  | EmptyString => EmptyString
  | String "%" (String "l" (String "l" (String "u" r))) | String "%" (String "z" (String "u" r))
  | String "%" (String "u" r) | String "%" (String "d" r) =>
      match args with FInt n :: args => dec n +:+ printf r args | _ => EmptyString end
  | String "%" (String "x" r) =>
      match args with FInt n :: args => hex n +:+ printf r args | _ => EmptyString end
  | String "%" (String "s" r) =>
      match args with FStr s :: args => s +:+ printf r args | _ => EmptyString end
  | String "%" (String "c" r) =>
      match args with FChar c :: args => String c (printf r args) | _ => EmptyString end
  | String c r => String c (printf r args)
  end.
#[export] Instance formatter : Formatter := printf.
End Printf.
Import Printf.

Definition drawn_events (events : list TraceEvent) : list json_event :=
  slice_events_ (render_posts (AssembleTimelines events)).


Lemma Export_slices_tidy_witness :
  StronglySorted tidy (slices_on kCallerTrack (drawn_events sample_events)) ∧
  slices_on kCallerTrack (drawn_events sample_events) = [(90, 1); (100, 1); (131, 19); (150, 1)].
Proof.
  split; [|vm_compute; reflexivity].
  apply (Export_slices_tidy reversed_laws sample_events kCallerTrack).
  - apply (bool_decide_unpack _). vm_compute. exact I.
  - apply (bool_decide_unpack _). vm_compute. exact I.
  - apply (bool_decide_unpack _). vm_compute. exact I.
Defined.

(** A chunk with an unknown sender worker and index 200 is drawn on the track of the
    acknowledgements of worker 1: there its slice and theirs overlap partially. *)
Definition colliding_events : list TraceEvent :=
  let ev t r s i w := mkTraceEvent t 7 r s 0 w i 0 0 in
  [ev 100 0 kPostEntry kNoChunk 0; ev 101 0 kEngineEnqueued kNoChunk 0;
   ev 101 5 kEngineDequeued kNoChunk 0; ev 102 5 kWorkerEnqueued 0 1; ev 102 5 kWorkerDequeued 0 1;
   ev 103 5 kTxWriteDone 0 1; ev 120 5 kTxAckRcvd 0 (-1);
   ev 105 5 kWorkerEnqueued 200 0; ev 105 5 kWorkerDequeued 200 0; ev 120 5 kTxWriteDone 200 0].
Example send_and_ack_tracks_collide :
  ¬ StronglySorted tidy
      (slices_on (mkTrack kSenderPid (kAckWorkerTidBase + 1)) (drawn_events colliding_events)).
Proof.
  vm_compute slices_on. inversion 1 as [|? ? _ Hall]. inversion Hall as [|? ? Ht].
  unfold tidy in Ht. simpl in Ht. lia.
Qed.

(** The arrow from a post to the engine ends on a track without any slice yet. *)
Example engine_flow_before_its_slice :
  slices_on kEngineTrack (take 3 (drawn_events sample_events)) = [] ∧
  ∃ name id ts, drawn_events sample_events !! 2%nat = Some (JFlowEnd name id kEngineTrack ts).
Proof. split; [by vm_compute|]. do 3 eexists. by vm_compute. Qed.

(** * Escaping *)

Fixpoint unescape (s : list Ascii.ascii) : list Ascii.ascii :=
  match s with
  | [] => []
  | c :: s' =>
      if Ascii.eqb c backslash then
        match s' with
        | "n"%char :: s'' => Ascii.ascii_of_nat 10 :: unescape s''
        | "r"%char :: s'' => Ascii.ascii_of_nat 13 :: unescape s''
        | "t"%char :: s'' => Ascii.ascii_of_nat 9 :: unescape s''
        | d :: s'' => d :: unescape s''
        | [] => []
        end
      else c :: unescape s'
  end.
Lemma unescape_char c s : unescape (escape_char c ++ s) = c :: unescape s.
Proof. by destruct c as [[] [] [] [] [] [] [] []]. Qed.
Lemma EscapeJson_unescape s :
  unescape (String.list_ascii_of_string (EscapeJson s)) = String.list_ascii_of_string s.
Proof.
  unfold EscapeJson. rewrite String.list_ascii_of_string_of_list_ascii.
  induction (String.list_ascii_of_string s) as [|c l IH]; [done|].
  cbn [list_bind]. by rewrite unescape_char, IH.
Qed.
