(* ===== verification/Metrics.v ===== *)
(** Counters and histograms: [internal/lib/metric_counter.h], [log2_histogram.h], [histogram.h],
    [internal/metrics/engine_metrics] and the exported records of
    [api/transport_metrics.h].  Counters are 64-bit and wrap around; each atomic
    update is one operation. *)

From stdpp Require Import base tactics numbers list_numbers sets list.
From S2P Require Import Prelude.
Local Open Scope Z_scope.

(** * [MetricCounter<uint64_t>] *)

Record MetricCounter := mkMetricCounter { mc_value : Z }.
Definition MetricCounter_new (v : Z) : MetricCounter := mkMetricCounter v.
Definition Value (c : MetricCounter) : Z := mc_value c.
Definition MetricCounter_Add (c : MetricCounter) (n : Z) : MetricCounter :=
  mkMetricCounter (u64 (mc_value c + n)).
Definition LossyAdd (c : MetricCounter) (n : Z) : MetricCounter :=
  mkMetricCounter (u64 (Value c + n)).
Definition MetricCounter_Clear (c : MetricCounter) : MetricCounter := mkMetricCounter 0.

(** * [Log2Histogram<N>] *)

Definition kSampleBits : Z := 64.
(** [std::countl_zero] of a 64-bit value. *)
Definition countl_zero (x : Z) : Z := if x =? 0 then 64 else 63 - Z.log2 x.

Record Log2Histogram := mkLog2Histogram { lh_sum : MetricCounter; lh_buckets : list MetricCounter }.

Section Log2.
Context (N : Z).

Definition Log2Histogram_new : Log2Histogram :=
  mkLog2Histogram (MetricCounter_new 0) (replicate (Z.to_nat N) (MetricCounter_new 0)).
Definition Sum (h : Log2Histogram) : Z := Value (lh_sum h).
Definition Bucket (h : Log2Histogram) (i : Z) : Z :=
  if i <? N then from_option Value 0 (lh_buckets h !! Z.to_nat i) else 0.

Definition toBucket (sample : Z) : res Z :=
  let z := countl_zero sample in
  do* dcheck ((0 <=? z) && (z <=? kSampleBits));
  Ok (Z.min (kSampleBits - z) (N - 1)).

Definition Log2Histogram_Record (h : Log2Histogram) (sample count : Z) : res Log2Histogram :=
  let sum := MetricCounter_Add (lh_sum h) (u64 (sample * count)) in
  let* i := toBucket sample in
  do* dcheck ((0 <=? i) && (i <=? N - 1));
  let* b := at_or OutOfRange (lh_buckets h !! Z.to_nat i) in
  Ok (mkLog2Histogram sum (<[Z.to_nat i := MetricCounter_Add b count]> (lh_buckets h))).

Definition RacyExport (h : Log2Histogram) : list Z := Value <$> lh_buckets h.

Definition Log2Histogram_Clear (h : Log2Histogram) : Log2Histogram :=
  mkLog2Histogram (MetricCounter_Clear (lh_sum h)) (MetricCounter_Clear <$> lh_buckets h).
End Log2.

(** The exported histogram of [transport_metrics.h]. *)
Record HistogramSnapshot := mkHistogramSnapshot { hs_sum : Z; hs_buckets : list Z }.
Definition Log2Histogram_Snapshot (h : Log2Histogram) : HistogramSnapshot :=
  mkHistogramSnapshot (Sum h) (RacyExport h).
Definition Count (s : HistogramSnapshot) : Z := foldl (λ a b, u64 (a + b)) 0 (hs_buckets s).

(** * [Histogram<Key, Count>]: a key-frequency map in order of first appearance *)

Section Histogram.
Context {Key : Type} `{EqDecision Key}.

Abbreviation Entries := (list (Key * Z)).

Fixpoint find (entries : Entries) (key : Key) : option (nat * Z) :=
  match entries with
  | [] => None
  | (k, c) :: es => if decide (k = key) then Some (0%nat, c)
                    else match find es key with Some (i, c') => Some (S i, c') | None => None end
  end.
Definition Histogram_Get (h : Entries) (key : Key) : Z :=
  match find h key with Some (_, c) => c | None => 0 end.
Definition Histogram_Add (h : Entries) (key : Key) (count : Z) : res Entries :=
  do* dcheck (negb (count =? 0));
  match h !! (length h - 1)%nat with
  | Some (k, c) =>
      if decide (k = key) then Ok (<[(length h - 1)%nat := (k, u64 (c + count))]> h)
      else match find h key with
           | Some (i, c') => Ok (<[i := (key, u64 (c' + count))]> h)
           | None => Ok (h ++ [(key, count)])
           end
  | None =>
      match find h key with
      | Some (i, c') => Ok (<[i := (key, u64 (c' + count))]> h)
      | None => Ok (h ++ [(key, count)])
      end
  end.
End Histogram.

(** * [EngineMetrics] *)

Record OpMetrics := mkOpMetrics {
  om_e2e_latency_us : Log2Histogram; om_request_size_bytes : Log2Histogram;
  om_bytes : MetricCounter; om_errors : MetricCounter;
}.
Record EngineMetrics := mkEngineMetrics {
  em_write : OpMetrics; em_read : OpMetrics;
  em_recv_post_latency_us : Log2Histogram; em_tcp_connect_failures : MetricCounter;
}.
Record OpSnapshot := mkOpSnapshot {
  os_e2e_latency_us : HistogramSnapshot; os_request_size_bytes : HistogramSnapshot;
  os_bytes : Z; os_errors : Z;
}.
Record TransportMetrics := mkTransportMetrics {
  tm_write : OpSnapshot; tm_read : OpSnapshot; tm_recv_post_latency_us : HistogramSnapshot;
  tm_tcp_connect_failures : Z; tm_rpc_requests_received : Z;
}.
Definition OpMetrics_Snapshot (m : OpMetrics) : OpSnapshot :=
  mkOpSnapshot (Log2Histogram_Snapshot (om_e2e_latency_us m))
    (Log2Histogram_Snapshot (om_request_size_bytes m)) (Value (om_bytes m)) (Value (om_errors m)).
(** Fills the fields of [m] that the engine owns. *)
Definition EngineMetrics_Snapshot (e : EngineMetrics) (m : TransportMetrics) : TransportMetrics :=
  mkTransportMetrics (OpMetrics_Snapshot (em_write e)) (OpMetrics_Snapshot (em_read e))
    (Log2Histogram_Snapshot (em_recv_post_latency_us e)) (Value (em_tcp_connect_failures e))
    (tm_rpc_requests_received m).

(** * Specification *)

(** The documented range of bucket [i] of [N]. *)
Definition in_bucket (N i sample : Z) : bool :=
  if i =? 0 then if N =? 1 then true else sample =? 0
  else if i =? N - 1 then 2 ^ (N - 2) <=? sample
  else (2 ^ (i - 1) <=? sample) && (sample <? 2 ^ i).

Definition zsum_of {A} (f : A → Z) (l : list A) : Z := foldr (λ x s, f x + s) 0 l.

Fixpoint Record_all (N : Z) (h : Log2Histogram) (l : list (Z * Z)) : res Log2Histogram :=
  match l with
  | [] => Ok h
  | (sample, count) :: l' => let* h := Log2Histogram_Record N h sample count in Record_all N h l'
  end.

Lemma u64_add_u64 a b : u64 (u64 a + b) = u64 (a + b).
Proof. unfold wrap. by rewrite Zplus_mod_idemp_l. Qed.
Lemma u64_add_u64_r a b : u64 (a + u64 b) = u64 (a + b).
Proof. unfold wrap. by rewrite Zplus_mod_idemp_r. Qed.

Lemma toBucket_spec N sample : 1 ≤ N ≤ 64 → fits 64 sample →
  ∃ i, toBucket N sample = Ok i ∧ 0 ≤ i < N ∧
    ∀ j, 0 ≤ j < N → (in_bucket N j sample = true ↔ j = i).
Proof.
  intros HN Hs. unfold toBucket, countl_zero, fits in *. destruct (sample =? 0) eqn:E; to_prop.
  - subst. rewrite bind_dcheck by done. eexists. split; [done|]. split; [unfold kSampleBits; lia|].
    intros j Hj. unfold in_bucket, kSampleBits. replace (Z.min (64 - 64) (N - 1)) with 0 by lia.
    destruct (j =? 0) eqn:Ej; to_prop; [destruct (N =? 1); split; [done..|done|done]|].
    destruct (j =? N - 1) eqn:Ej1; to_prop; (split; [|lia]); intros Hb; exfalso.
    + apply Z.leb_le in Hb. pose proof (Z.pow_pos_nonneg 2 (N - 2)). lia.
    + apply andb_prop in Hb as [Hb _]. apply Z.leb_le in Hb. pose proof (Z.pow_pos_nonneg 2 (j - 1)). lia.
  - pose proof (Z.log2_spec sample ltac:(lia)) as [Hl1 Hl2].
    assert (0 ≤ Z.log2 sample < 64) as Hl.
    { split; [apply Z.log2_nonneg|]. apply Z.log2_lt_pow2; lia. }
    rewrite bind_dcheck by (unfold kSampleBits; apply andb_true_intro; split; apply Z.leb_le; lia).
    eexists. split; [done|]. unfold kSampleBits.
    replace (64 - (63 - Z.log2 sample)) with (Z.log2 sample + 1) by lia.
    set (L := Z.log2 sample) in *. split; [lia|]. intros j Hj. unfold in_bucket.
    destruct (j =? 0) eqn:Ej; to_prop; [|destruct (j =? N - 1) eqn:Ej1; to_prop].
    + subst. destruct (N =? 1) eqn:EN; to_prop; [split; [lia|done]|].
      rewrite (proj2 (Z.eqb_neq _ _)) by done. split; [done|lia].
    + rewrite Z.leb_le. split.
      * intros Hp. assert (2 ^ (N - 2) < 2 ^ Z.succ L) as Hlt by lia.
        apply Z.pow_lt_mono_r_iff in Hlt; lia.
      * intros ->. transitivity (2 ^ L); [|done]. apply Z.pow_le_mono_r; lia.
    + rewrite andb_true_iff, Z.leb_le, Z.ltb_lt. split.
      * intros [H1 H2]. assert (2 ^ L < 2 ^ j) as A1 by lia.
        assert (2 ^ (j - 1) < 2 ^ Z.succ L) as A2 by lia.
        apply Z.pow_lt_mono_r_iff in A1, A2; lia.
      * intros Hj'. assert (j = L + 1) as -> by lia. replace (L + 1 - 1) with L by lia.
        by rewrite Z.add_1_r.
Qed.

(** * [Log2Histogram] *)

Definition values (h : Log2Histogram) : list Z := Value <$> lh_buckets h.

Lemma zsum_insert (l : list Z) i x y : l !! i = Some x → zsum_of id (<[i := y]> l) = zsum_of id l - x + y.
Proof.
  unfold zsum_of. revert i. induction l as [|z l IH]; intros [|i] Hi; simpl in *; simplify_eq; try done.
  - unfold id. lia.
  - rewrite (IH i Hi). unfold id. lia.
Qed.

Lemma Record_step N h sample count : 1 ≤ N ≤ 64 → fits 64 sample → length (lh_buckets h) = Z.to_nat N →
  ∃ h', Log2Histogram_Record N h sample count = Ok h' ∧ length (lh_buckets h') = Z.to_nat N ∧
    Sum h' = u64 (Sum h + sample * count) ∧
    (∀ i, 0 ≤ i < N → Bucket N h' i =
       if in_bucket N i sample then u64 (Bucket N h i + count) else Bucket N h i) ∧
    u64 (zsum_of id (values h')) = u64 (zsum_of id (values h) + count).
Proof.
  intros HN Hs Hl. unfold Log2Histogram_Record.
  destruct (toBucket_spec N sample HN Hs) as (i & -> & Hi & Hb). rewrite bind_Ok.
  rewrite bind_dcheck by (apply andb_true_intro; split; apply Z.leb_le; lia).
  destruct (lookup_lt_is_Some_2 (lh_buckets h) (Z.to_nat i)) as [b Hlk]; [lia|].
  rewrite Hlk. cbn [at_or]. rewrite bind_Ok. eexists. split; [done|]. simpl.
  split; [by rewrite length_insert|]. split; [|split].
  - unfold Sum, Value. simpl. apply u64_add_u64_r.
  - intros j Hj. unfold Bucket. rewrite (proj2 (Z.ltb_lt j N)) by lia. simpl.
    destruct (decide (j = i)) as [->|Hne].
    + rewrite (proj2 (Hb i Hi) eq_refl), list_lookup_insert_eq, Hlk by lia. done.
    + rewrite list_lookup_insert_ne by lia.
      destruct (in_bucket N j sample) eqn:E; [|done]. by apply Hb in E.
  - unfold values. simpl. rewrite list_fmap_insert.
    erewrite zsum_insert by (rewrite list_lookup_fmap, Hlk; done). unfold Value at 3. simpl.
    unfold Value. rewrite u64_add_u64_r. f_equal. lia.
Qed.

Lemma Record_all_spec N l : 1 ≤ N ≤ 64 → Forall (λ p, fits 64 p.1) l →
  ∀ h, length (lh_buckets h) = Z.to_nat N → u64 (Sum h) = Sum h →
  (∀ i, 0 ≤ i < N → u64 (Bucket N h i) = Bucket N h i) →
  ∃ h', Record_all N h l = Ok h' ∧ length (lh_buckets h') = Z.to_nat N ∧
    Sum h' = u64 (Sum h + zsum_of (λ p, p.1 * p.2) l) ∧
    (∀ i, 0 ≤ i < N →
       Bucket N h' i = u64 (Bucket N h i + zsum_of (λ p, if in_bucket N i p.1 then p.2 else 0) l)) ∧
    u64 (zsum_of id (values h')) = u64 (zsum_of id (values h) + zsum_of snd l).
Proof.
  intros HN Hf. induction Hf as [|[s c] l Hs _ IH]; intros h Hl Hsum Hbk.
  - exists h. unfold zsum_of. simpl. setoid_rewrite Z.add_0_r. split; [done|]. split; [done|].
    split; [done|]. split; [intros i Hi; by rewrite Hbk|done].
  - cbn [Record_all]. destruct (Record_step N h s c HN Hs Hl) as (h1 & -> & Hl1 & Hs1 & Hb1 & Ht1).
    rewrite bind_Ok. destruct (IH h1 Hl1) as (h2 & E & Hl2 & Hs2 & Hb2 & Ht2).
    { rewrite Hs1. unfold wrap. by rewrite Zmod_mod. }
    { intros i Hi. rewrite Hb1 by done. destruct (in_bucket N i s); [|by apply Hbk].
      unfold wrap. by rewrite Zmod_mod. }
    exists h2. split; [done|]. split; [done|]. unfold zsum_of in *. cbn [foldr fst snd]. split; [|split].
    + rewrite Hs2, Hs1, u64_add_u64. f_equal. lia.
    + intros i Hi. rewrite Hb2, Hb1 by done. destruct (in_bucket N i s).
      * rewrite u64_add_u64. f_equal. lia.
      * f_equal.
    + rewrite Ht2, <- u64_add_u64, Ht1, u64_add_u64. f_equal. lia.
Qed.

Lemma foldl_u64 l : ∀ a, foldl (λ a b, u64 (a + b)) (u64 a) l = u64 (a + zsum_of id l).
Proof.
  unfold zsum_of. induction l as [|b l IH]; intros a; simpl; [by rewrite Z.add_0_r|].
  rewrite u64_add_u64, IH. f_equal. unfold id. lia.
Qed.

(** * [Histogram] *)

Section HistogramLemmas.
Context {Key : Type} `{EqDecision Key}.

Fixpoint Add_all (h : list (Key * Z)) (l : list (Key * Z)) : res (list (Key * Z)) :=
  match l with
  | [] => Ok h
  | (k, c) :: l' => let* h := Histogram_Add h k c in Add_all h l'
  end.

Lemma find_Some (h : list (Key * Z)) k i c : find h k = Some (i, c) → h !! i = Some (k, c).
Proof.
  revert i. induction h as [|[k' c'] h IH]; intros i Hf; [done|]. cbn in Hf. case_decide.
  - by simplify_eq.
  - destruct (find h k) as [[j d]|]; [|done]. simplify_eq. by apply IH.
Qed.
Lemma find_None (h : list (Key * Z)) k : find h k = None ↔ k ∉ h.*1.
Proof.
  induction h as [|[k' c'] h IH]; cbn; [split; [by intros _ ?%elem_of_nil|done]|].
  rewrite not_elem_of_cons. case_decide; [naive_solver|].
  destruct (find h k) as [[j d]|]; naive_solver.
Qed.
Lemma find_at (h : list (Key * Z)) k i c : NoDup h.*1 → h !! i = Some (k, c) → find h k = Some (i, c).
Proof.
  intros Hnd Hi. destruct (find h k) as [[j d]|] eqn:E.
  - pose proof (find_Some _ _ _ _ E) as Hj.
    assert (i = j) as -> by (eapply (NoDup_lookup _ _ _ k Hnd); by rewrite list_lookup_fmap, ?Hi, ?Hj).
    congruence.
  - apply find_None in E. destruct E. apply list_elem_of_fmap. exists (k, c).
    split; [done|]. by eapply list_elem_of_lookup_2.
Qed.

(** One step: the key's count grows, the others' stay; keys stay distinct. *)
(** [h'] is [h] with [c] more for [k]. *)
Definition counted (h h' : list (Key * Z)) (k : Key) (c : Z) : Prop :=
  NoDup h'.*1 ∧ (∀ k', k' ∈ h'.*1 ↔ k' = k ∨ k' ∈ h.*1) ∧
  ∀ k', Histogram_Get h' k' = if decide (k' = k) then u64 (Histogram_Get h k + c) else Histogram_Get h k'.

(** A key that is there is updated in place. *)
Lemma counted_update (h : list (Key * Z)) k c i d : NoDup h.*1 → find h k = Some (i, d) →
  counted h (<[i := (k, u64 (d + c))]> h) k c.
Proof.
  intros Hnd E. pose proof (find_Some _ _ _ _ E) as Hi.
  assert ((<[i := (k, u64 (d + c))]> h).*1 = h.*1) as Hk.
  { rewrite list_fmap_insert. apply list_insert_id. by rewrite list_lookup_fmap, Hi. }
  unfold counted. rewrite Hk. split; [done|]. split.
  { intros k'. split; [auto|]. intros [->|?]; [|done]. apply list_elem_of_fmap. exists (k, d).
    split; [done|]. by eapply list_elem_of_lookup_2. }
  intros k'. unfold Histogram_Get at 1 3. case_decide as Hd; [subst k'|].
  - assert ((<[i := (k, u64 (d + c))]> h) !! i = Some (k, u64 (d + c))) as Hi'
      by (apply list_lookup_insert_eq; by eapply lookup_lt_Some).
    rewrite (find_at _ k i (u64 (d + c))); [|by rewrite Hk|done]. unfold Histogram_Get. by rewrite E.
  - destruct (find h k') as [[j e]|] eqn:Ej.
    + pose proof (find_Some _ _ _ _ Ej) as Hj. assert (i ≠ j) by congruence.
      rewrite (find_at _ k' j e); [done|by rewrite Hk|]. by rewrite list_lookup_insert_ne.
    + apply find_None in Ej. rewrite <- Hk in Ej. apply find_None in Ej. by rewrite Ej.
Qed.

(** A new key is appended. *)
Lemma counted_append (h : list (Key * Z)) k c : NoDup h.*1 → fits 64 c → find h k = None →
  counted h (h ++ [(k, c)]) k c.
Proof.
  intros Hnd Hc E. pose proof (proj1 (find_None _ _) E) as Hk.
  assert (NoDup (h ++ [(k, c)]).*1) as Hnd'.
  { rewrite fmap_app. apply NoDup_app. split; [done|]. split; [|apply NoDup_singleton].
    intros x Hx ->%list_elem_of_singleton. done. }
  split; [done|]. split; [intros k'; rewrite fmap_app; set_solver|].
  intros k'. unfold Histogram_Get at 1 3. case_decide as Hd; [subst k'|].
  - rewrite (find_at _ k (length h) c); [|done|by apply list_lookup_middle].
    unfold Histogram_Get. rewrite E. by rewrite Z.add_0_l, wrap_small.
  - destruct (find h k') as [[j e]|] eqn:Ej.
    + rewrite (find_at _ k' j e); [done|done|]. by apply lookup_app_l_Some, find_Some.
    + apply find_None in Ej. rewrite (proj2 (find_None _ _)); [done|].
      rewrite fmap_app. set_solver.
Qed.

Lemma Add_step (h : list (Key * Z)) k c : NoDup h.*1 → fits 64 c → c ≠ 0 →
  ∃ h', Histogram_Add h k c = Ok h' ∧ counted h h' k c.
Proof.
  intros Hnd Hc Hz. unfold Histogram_Add.
  rewrite bind_dcheck by by apply negb_true_iff, Z.eqb_neq.
  destruct (h !! (length h - 1)%nat) as [[k0 c0]|] eqn:El.
  - case_decide as Hk0; [subst k0|].
    + apply find_at in El; [|done]. eexists. split; [done|]. by apply counted_update.
    + destruct (find h k) as [[i d]|] eqn:E; eexists; (split; [done|]);
        [by apply counted_update|by apply counted_append].
  - destruct (find h k) as [[i d]|] eqn:E; eexists; (split; [done|]);
      [by apply counted_update|by apply counted_append].
Qed.

Lemma Add_all_spec l : ∀ h : list (Key * Z), Forall (λ p, fits 64 p.2 ∧ p.2 ≠ 0) l → NoDup h.*1 →
  (∀ k, u64 (Histogram_Get h k) = Histogram_Get h k) →
  ∃ h', Add_all h l = Ok h' ∧ NoDup h'.*1 ∧ (∀ k, k ∈ h'.*1 ↔ k ∈ h.*1 ∨ k ∈ l.*1) ∧
    ∀ k, Histogram_Get h' k =
      u64 (Histogram_Get h k + zsum_of (λ p, if decide (p.1 = k) then p.2 else 0) l).
Proof.
  induction l as [|[k c] l IH]; intros h Hf Hnd Hg.
  - exists h. split; [done|]. split; [done|]. split; [set_solver|]. intros k.
    unfold zsum_of. simpl. by rewrite Z.add_0_r, Hg.
  - inversion Hf as [|? ? [Hc Hz] Hf']; subst. cbn [Add_all].
    destruct (Add_step h k c Hnd Hc Hz) as (h1 & -> & Hnd1 & Hk1 & Hg1). rewrite bind_Ok.
    destruct (IH h1 Hf' Hnd1) as (h2 & E & Hnd2 & Hk2 & Hg2).
    { intros k'. rewrite Hg1. case_decide; [|apply Hg]. unfold wrap. by rewrite Zmod_mod. }
    exists h2. split; [done|]. split; [done|]. split; [intros k'; rewrite Hk2, Hk1, fmap_cons, elem_of_cons; simpl; tauto|].
    intros k'. rewrite Hg2, Hg1. unfold zsum_of. cbn [foldr fst snd].
    destruct (decide (k' = k)) as [->|Hne].
    + rewrite decide_True by done. rewrite u64_add_u64. f_equal. lia.
    + rewrite (decide_False (P := k = k')) by congruence. done.
Qed.
End HistogramLemmas.

(** * Properties *)

(** A log2 histogram counts exactly.  For every number of buckets from 1 to 64 and any
    sequence of 64-bit samples with counts, [Record] never fails an assertion; bucket [i]
    then holds the total count of the samples in its documented range ([0] for bucket 0,
    [2^(i-1), 2^i)] for bucket [i], everything from [2^(N-2)] for the last), [Sum] the
    weighted sum of the samples, and the snapshot's [Count] the total count, all modulo
    2^64. *)
Theorem Log2Histogram_counts (N : Z) (l : list (Z * Z)) :
  1 ≤ N ≤ 64 → Forall (λ p, fits 64 p.1) l →
  ∃ h, Record_all N (Log2Histogram_new N) l = Ok h ∧
    (∀ i, 0 ≤ i < N → Bucket N h i = u64 (zsum_of (λ p, if in_bucket N i p.1 then p.2 else 0) l)) ∧
    Sum h = u64 (zsum_of (λ p, p.1 * p.2) l) ∧
    Count (Log2Histogram_Snapshot h) = u64 (zsum_of snd l).
Proof.
  intros HN Hf.
  assert (∀ i, 0 ≤ i < N → Bucket N (Log2Histogram_new N) i = 0) as Hb0.
  { intros i Hi. unfold Bucket, Log2Histogram_new. cbn [lh_buckets].
    rewrite (proj2 (Z.ltb_lt i N)), lookup_replicate_2 by lia. done. }
  destruct (Record_all_spec N l HN Hf (Log2Histogram_new N)) as (h & E & _ & Hs & Hb & Ht).
  - unfold Log2Histogram_new. cbn [lh_buckets]. apply length_replicate.
  - done.
  - intros i Hi. by rewrite Hb0.
  - exists h. split; [done|]. split; [intros i Hi; rewrite Hb, Hb0 by done; done|]. split; [done|].
    unfold Count. simpl. change 0 with (u64 0) at 1. rewrite foldl_u64. unfold RacyExport. fold (values h).
    rewrite Z.add_0_l, Ht. f_equal.
    assert (zsum_of id (values (Log2Histogram_new N)) = 0) as ->; [|done].
    unfold values, Log2Histogram_new. cbn [lh_buckets]. rewrite fmap_replicate.
    induction (Z.to_nat N) as [|n IH]; [done|]. unfold zsum_of in *. cbn. exact IH.
Qed.

Lemma Log2Histogram_counts_witness : ∃ h,
  Record_all 4 (Log2Histogram_new 4) [(0, 1); (3, 2); (2, 1); (1000, 5)] = Ok h ∧
  Bucket 4 h 2 = 3 ∧ Bucket 4 h 3 = 5 ∧ Sum h = 5008.
Proof.
  destruct (Log2Histogram_counts 4 [(0, 1); (3, 2); (2, 1); (1000, 5)]) as (h & E & Hb & Hs & _).
  - lia.
  - repeat constructor; vm_compute; done.
  - exists h. split; [exact E|]. rewrite !Hb by lia. by rewrite Hs.
Defined.

(** A [Histogram] is a map from keys to total counts.  After any sequence of [Add]s of
    non-zero counts, the keys are exactly those added, each once, and [Get] returns the
    sum of the counts added for the key, modulo 2^64, and 0 for other keys: the fast path
    for repeated keys agrees with the search. *)
Theorem Histogram_totals {Key} `{EqDecision Key} (l : list (Key * Z)) :
  Forall (λ p, fits 64 p.2 ∧ p.2 ≠ 0) l →
  ∃ h, Add_all [] l = Ok h ∧ NoDup h.*1 ∧ (∀ k, k ∈ h.*1 ↔ k ∈ l.*1) ∧
    ∀ k, Histogram_Get h k = u64 (zsum_of (λ p, if decide (p.1 = k) then p.2 else 0) l).
Proof.
  intros Hf. destruct (Add_all_spec l [] Hf) as (h & E & Hnd & Hk & Hg); [constructor|done|].
  exists h. split; [done|]. split; [done|]. split; [set_solver|]. intros k. by rewrite Hg.
Qed.

Lemma Histogram_totals_witness : ∃ h : list (Z * Z),
  Add_all [] [(7, 1); (7, 2); (8, 1); (7, 4)] = Ok h ∧ Histogram_Get h 7 = 7 ∧ Histogram_Get h 9 = 0.
Proof.
  destruct (Histogram_totals (Key := Z) [(7, 1); (7, 2); (8, 1); (7, 4)]) as (h & E & _ & _ & Hg).
  - repeat constructor; simpl; lia.
  - exists h. split; [exact E|]. rewrite !Hg. by split.
Defined.
