(* ===== verification/Worker.v ===== *)
(** [class Worker] of [engine/worker.{h,cc}]: the queues of a worker and the iterations of
    its send and receive loops, on the [world] of [Transfer].  An iteration is the body of
    the [while (true)] loop; waiting for work is [Blocked].  [now] is the value of
    [util::MonoNowUs()] that stamps a traced chunk. *)

From stdpp Require Import base tactics list list_numbers numbers gmap fin_maps.
From S2P Require Import Prelude Codec Types IpAddr Endpoint Bitset ChunkTracker Header.
From S2P Require Import HeaderFlatbuf RequestTracker Channel Transfer Trace.
Local Open Scope Z_scope.

(** * Data *)

Record InfoEntry := mkInfoEntry { ie_info : PostInfoHeader; ie_reqs : list RequestInfo }.
Record ChunkEntry := mkChunkEntry { ce_src_addr : Z; ce_chunk : DataHeader }.

Record Worker := mkWorker {
  wk_id : Z; wk_stop : bool; wk_infos : list InfoEntry; wk_chunks : list ChunkEntry;
}.
Definition Worker_new (id : Z) : Worker := mkWorker id false [] [].

Inductive loop_result : Type := Continue | Stopped | Broken.

(** * Queues *)

(** [one_sided] is [channel_->Type().IsOneSidedChannel()]. *)
Definition EnqueueInfo (wk : Worker) (one_sided : bool) (info : PostInfoHeader)
    (reqs : list RequestInfo) : res Worker :=
  do* dcheck (PostInfoHeader_IsValid info);
  do* dcheck (negb (bool_decide (reqs = [])));
  if one_sided then Ok wk
  else Ok (mkWorker (wk_id wk) (wk_stop wk) (wk_infos wk ++ [mkInfoEntry info reqs]) (wk_chunks wk)).

Definition EnqueueChunk (wk : Worker) (src_addr : Z) (chunk : DataHeader)
    : res (Worker * list event) :=
  do* dcheck (negb (src_addr =? 0));
  do* dcheck (DataHeader_IsData chunk);
  Ok (mkWorker (wk_id wk) (wk_stop wk) (wk_infos wk) (wk_chunks wk ++ [mkChunkEntry src_addr chunk]),
      [EvWorkerEnqueued chunk (wk_id wk)]).

Definition hasSendWork (wk : Worker) : bool :=
  negb (bool_decide (length (wk_infos wk) = 0%nat)) ||
  negb (bool_decide (length (wk_chunks wk) = 0%nat)) || wk_stop wk.

Inductive send_item : Type := SInfo (e : InfoEntry) | SChunk (e : ChunkEntry) | SStop.

(** The critical section of [SendLoop]: what the iteration will send. *)
Definition pick (wk : Worker) : res (Worker * send_item) :=
  if negb (hasSendWork wk) then Fault Blocked
  else match wk_infos wk, wk_chunks wk with
  | e :: infos, _ => Ok (mkWorker (wk_id wk) (wk_stop wk) infos (wk_chunks wk), SInfo e)
  | [], e :: chunks => Ok (mkWorker (wk_id wk) (wk_stop wk) [] chunks, SChunk e)
  | [], [] => do* dcheck (wk_stop wk); Ok (wk, SStop)
  end.

(** [GenPayload]: the [len] bytes at the source address. *)
Definition GenPayload (m : mem) (e : ChunkEntry) : res bytes :=
  at_or BadPointer (mapM id (read_mem m (ce_src_addr e) (hb_len (dh_base (ce_chunk e))))).

(** * Loops *)

Section Loops.
Context {C : Type} `{Channel C}.

Definition add_events (w : world C) (evs : list event) : world C :=
  mkWorld (w_ch w) (w_out w) (w_in w) (w_mem w) (w_evs w ++ evs).

(** The end of an iteration whose send failed. *)
Definition send_failed (wk : Worker) (w : world C) : Worker * world C * loop_result :=
  if IsMessageChannel (Type_ (w_ch w))
  then (wk, w, if negb (wk_stop wk) then Continue else Stopped)
  else (wk, add_events w [EvErrors true], Broken).

Definition SendLoop_iter (wk : Worker) (w : world C) (now : Z)
    : res (Worker * world C * loop_result) :=
  let* '(wk, item) := pick wk in
  match item with
  | SStop => Ok (wk, w, Stopped)
  | SInfo e =>
      let* '(c, ok) := SendInfo (w_ch w) (ie_info e) (ie_reqs e) in
      let w := with_ch w c in
      Ok (if ok : bool then (wk, w, Continue) else send_failed wk w)
  | SChunk e =>
      do* dcheck (DataHeader_IsData (ce_chunk e));
      let chunk := stamp_tx (ce_chunk e) now in
      let w := add_events w [EvWorkerDequeued (ce_chunk e) (wk_id wk)] in
      let* payload := GenPayload (w_mem w) e in
      let* '(c, ok) := SendChunk (w_ch w) chunk payload in
      let w := with_ch w c in
      if ok : bool then
        let w := add_events w [EvWriteBytes (Z.of_nat (length payload)); EvTxWriteDone chunk (wk_id wk)] in
        if IsOneSidedChannel (Type_ (w_ch w)) then
          let* r := Update (w_out w) (hb_handle (dh_base chunk)) (dh_reqid chunk) (dh_index chunk)
                      (wk_id wk) Endpoint_default now in
          Ok (wk, with_out w r, Continue)
        else Ok (wk, w, Continue)
      else Ok (send_failed wk w)
  end.

Fixpoint SendLoop (wk : Worker) (w : world C) (nows : list Z) : res (Worker * world C * loop_result) :=
  match nows with
  | [] => Ok (wk, w, Continue)
  | now :: nows' =>
      let* '(wk, w, r) := SendLoop_iter wk w now in
      match r with Continue => SendLoop wk w nows' | _ => Ok (wk, w, r) end
  end.

Definition RecvLoop_iter (wk : Worker) (w : world C) (ck : clock) : res (world C * loop_result) :=
  if IsOneSidedChannel (Type_ (w_ch w)) then
    if negb (wk_stop wk) then Fault Blocked else Ok (w, Stopped)
  else if wk_stop wk then Ok (w, Stopped)
  else
    let* '(w, ok) := Recv w (wk_id wk) ck in
    if negb ok then
      if IsMessageChannel (Type_ (w_ch w))
      then Ok (w, if negb (wk_stop wk) then Continue else Stopped)
      else Ok (w, Broken)
    else Ok (w, Continue).

Fixpoint RecvLoop (wk : Worker) (w : world C) (cks : list clock) : res (world C * loop_result) :=
  match cks with
  | [] => Ok (w, Continue)
  | ck :: cks' =>
      let* '(w, r) := RecvLoop_iter wk w ck in
      match r with Continue => RecvLoop wk w cks' | _ => Ok (w, r) end
  end.
End Loops.

(** * Order of messages on a channel

    The engine and the send loop of one worker interleave. *)
Inductive worker_op : Type :=
  | WInfo (info : PostInfoHeader) (reqs : list RequestInfo)
  | WChunk (addr : Z) (chunk : DataHeader)
  | WSend
  | WStop.

Definition worker_exec (wk : Worker) (op : worker_op) : res (Worker * list send_item) :=
  match op with
  | WInfo info reqs => let* wk' := EnqueueInfo wk false info reqs in Ok (wk', [])
  | WChunk addr chunk => let* r := EnqueueChunk wk addr chunk in Ok (r.1, [])
  | WSend => let* r := pick wk in Ok (r.1, [r.2])
  | WStop => Ok (mkWorker (wk_id wk) true (wk_infos wk) (wk_chunks wk), [])
  end.

Fixpoint worker_run (wk : Worker) (ops : list worker_op) : res (Worker * list send_item) :=
  match ops with
  | [] => Ok (wk, [])
  | op :: ops' =>
      let* r := worker_exec wk op in
      let* r' := worker_run r.1 ops' in
      Ok (r'.1, r.2 ++ r'.2)
  end.

Definition info_handle (e : InfoEntry) : Handle := hb_handle (pi_base (ie_info e)).
Definition chunk_handle (e : ChunkEntry) : Handle := hb_handle (dh_base (ce_chunk e)).

(** Every chunk is enqueued after the info of its post ([seen]: infos so far). *)
Fixpoint announced (seen : list Handle) (ops : list worker_op) : Prop :=
  match ops with
  | [] => True
  | WInfo info _ :: ops' => announced (hb_handle (pi_base info) :: seen) ops'
  | WChunk _ chunk :: ops' => hb_handle (dh_base chunk) ∈ seen ∧ announced seen ops'
  | _ :: ops' => announced seen ops'
  end.

(** Every chunk sent comes after the info of its post ([seen]: infos sent so far). *)
Fixpoint info_first (seen : list Handle) (sent : list send_item) : Prop :=
  match sent with
  | [] => True
  | SInfo e :: sent' => info_first (info_handle e :: seen) sent'
  | SChunk e :: sent' => chunk_handle e ∈ seen ∧ info_first seen sent'
  | SStop :: sent' => info_first seen sent'
  end.

Lemma worker_run_order ops : ∀ wk wk' sent seen_enq seen_sent,
  worker_run wk ops = Ok (wk', sent) → announced seen_enq ops →
  (∀ h, h ∈ seen_enq → h ∈ seen_sent ∨ h ∈ info_handle <$> wk_infos wk) →
  (∀ e, e ∈ wk_chunks wk → chunk_handle e ∈ seen_sent ∨ chunk_handle e ∈ info_handle <$> wk_infos wk) →
  info_first seen_sent sent.
Proof.
  induction ops as [|op ops IH]; intros wk wk' sent se ss Hrun Ha He Hc; cbn [worker_run] in Hrun;
    [by simplify_eq|].
  res_inv. destruct r as [wk1 s1], r0 as [wk2 s2]. simplify_eq. cbn [fst snd] in *.
  destruct op as [info rs|addr chunk| |]; cbn [worker_exec] in Hr; res_inv; simplify_eq; cbn [app announced] in *.
  - unfold EnqueueInfo in Hr1. res_inv. simplify_eq.
    eapply IH; [done|done| |]; cbn [wk_infos wk_chunks]; setoid_rewrite fmap_app.
    + intros h [->|Hh]%elem_of_cons; [right; set_solver|]. apply He in Hh. set_solver.
    + intros e Hin. apply Hc in Hin. set_solver.
  - unfold EnqueueChunk in Hr1. res_inv. simplify_eq. destruct Ha as [Hin Ha].
    eapply IH; [done|done|done|]. cbn [fst wk_infos wk_chunks].
    intros e [Hx|Hx]%elem_of_app; [by apply Hc|].
    apply list_elem_of_singleton in Hx. subst. by apply He.
  - destruct r as [wk3 it]. unfold pick in Hr1. cbn [fst snd] in *.
    destruct (negb (hasSendWork wk)); [done|].
    destruct (wk_infos wk) as [|e infos] eqn:Ei.
    + destruct (wk_chunks wk) as [|e chunks] eqn:Ec; res_inv; simplify_eq; cbn [info_first].
      * eapply IH; [done|done| |]; rewrite ?Ei, ?Ec; done.
      * split; [by destruct (Hc e ltac:(left)) as [|?%elem_of_nil]|].
        eapply IH; [done|done|done|]. cbn [wk_infos wk_chunks]. intros e' He'. apply Hc. by right.
    + simplify_eq. cbn [info_first]. eapply IH; [done|done| |]; cbn [wk_infos wk_chunks].
      * intros h Hh. apply He in Hh. rewrite fmap_cons in Hh. set_solver.
      * intros e' He'. apply Hc in He'. rewrite fmap_cons in He'. set_solver.
  - by eapply IH.
Qed.

(** * Properties *)


Definition worker_info (h : Handle) : PostInfoHeader :=
  mkPostInfoHeader (mkHeaderBase kPostInfo h 128) ep_sample Metadata_zero.
Definition worker_chunk (h : Handle) : DataHeader :=
  mkDataHeader (mkHeaderBase kData h 10) 1 0 0 0 ChunkTraceWire_default.
Definition worker_req : RequestInfo :=
  mkRequestInfo 1 1 4096 10 kWrite (mkRecipe 1 (replicate 32 0)) Metadata_zero.

Definition worker_ops : list worker_op :=
  [WInfo (worker_info 5) [worker_req]; WChunk 64 (worker_chunk 5); WSend;
   WInfo (worker_info 6) [worker_req]; WSend; WSend].

