(* ===== verification/Engine.v ===== *)
(** [class Engine] of [engine/engine.{h,cc}]: handles, the post queue, the split of requests
    into chunks and their distribution over workers, the answer to a remote read, and
    the status query.

    The engine's state is one record; each method is a function on it.  Channels are made
    by [EngineHelper::Connect]; their types are an argument of [createSendWorkers].  The
    closure that [processRecvRead] registers as a completion callback captures (peer,
    handle): [en_closures] keeps the captured values under the callback's identity
    (negative; user callbacks are not negative). *)

From stdpp Require Import base tactics list list_numbers numbers gmap fin_maps.
From S2P Require Import Prelude Codec Types IpAddr Endpoint Bitset ChunkTracker Header.
From S2P Require Import HeaderFlatbuf RequestTracker Channel Transfer Trace Worker.
Local Open Scope Z_scope.

(** * Data *)

Record Item := mkItem {
  it_requests : list Request; it_on_complete : option Z; it_metadata : Metadata;
  it_start_mono_us : Z; it_trace_ctx : bool;
}.
Definition Item_IsValid (i : Item) : bool :=
  negb (bool_decide (it_requests i = [])) && forallb Request_IsValid (it_requests i).

Record PostEntry := mkPostEntry {
  pe_peer : Endpoint; pe_handle : Handle; pe_reqs : list Request;
  pe_req_infos : list RequestInfo; pe_metadata : Metadata; pe_trace_ctx : bool;
}.

(** A worker and the type of its channel. *)
Abbreviation Workers := (list (Worker * ChannelType)).

Record Engine := mkEngine {
  en_self : Endpoint;                     (* self_.control_plane_listener *)
  en_num_conns : Z;                       (* config_.num_conns_per_peer *)
  en_stop : bool;
  en_next_handle : Z;
  en_next_reqid : Z;
  en_posts : list PostEntry;
  en_out : RequestTracker;                (* outgoing_ *)
  en_in : RequestTracker;                 (* incoming_ *)
  en_send_workers : gmap Endpoint Workers;
  en_recv_workers : gmap Endpoint Workers;
  en_closures : gmap Z (Endpoint * Handle);
  en_evs : list event;                    (* calls made so far *)
}.

Definition Engine_new (self : Endpoint) (num_conns next_handle next_reqid : Z) (recv_post : bool)
    (resolve : option (Metadata → Metadata → Z)) : Engine :=
  mkEngine self num_conns false next_handle next_reqid [] (RequestTracker_new false None false)
    (RequestTracker_new recv_post resolve true) ∅ ∅ ∅ [].

Definition set_out_tracker (e : Engine) (rk : RequestTracker) : Engine :=
  mkEngine (en_self e) (en_num_conns e) (en_stop e) (en_next_handle e) (en_next_reqid e) (en_posts e)
    rk (en_in e) (en_send_workers e) (en_recv_workers e) (en_closures e) (en_evs e).
Definition set_in_tracker (e : Engine) (rk : RequestTracker) : Engine :=
  mkEngine (en_self e) (en_num_conns e) (en_stop e) (en_next_handle e) (en_next_reqid e) (en_posts e)
    (en_out e) rk (en_send_workers e) (en_recv_workers e) (en_closures e) (en_evs e).
Definition set_posts (e : Engine) (posts : list PostEntry) : Engine :=
  mkEngine (en_self e) (en_num_conns e) (en_stop e) (en_next_handle e) (en_next_reqid e) posts
    (en_out e) (en_in e) (en_send_workers e) (en_recv_workers e) (en_closures e) (en_evs e).
Definition set_next_handle (e : Engine) (h : Z) : Engine :=
  mkEngine (en_self e) (en_num_conns e) (en_stop e) h (en_next_reqid e) (en_posts e)
    (en_out e) (en_in e) (en_send_workers e) (en_recv_workers e) (en_closures e) (en_evs e).
Definition set_next_reqid (e : Engine) (r : Z) : Engine :=
  mkEngine (en_self e) (en_num_conns e) (en_stop e) (en_next_handle e) r (en_posts e)
    (en_out e) (en_in e) (en_send_workers e) (en_recv_workers e) (en_closures e) (en_evs e).
Definition set_send_workers (e : Engine) (peer : Endpoint) (ws : Workers) : Engine :=
  mkEngine (en_self e) (en_num_conns e) (en_stop e) (en_next_handle e) (en_next_reqid e) (en_posts e)
    (en_out e) (en_in e) (<[peer := ws]> (en_send_workers e)) (en_recv_workers e) (en_closures e) (en_evs e).
Definition set_recv_workers (e : Engine) (peer : Endpoint) (ws : Workers) : Engine :=
  mkEngine (en_self e) (en_num_conns e) (en_stop e) (en_next_handle e) (en_next_reqid e) (en_posts e)
    (en_out e) (en_in e) (en_send_workers e) (<[peer := ws]> (en_recv_workers e)) (en_closures e) (en_evs e).
Definition set_closures (e : Engine) (m : gmap Z (Endpoint * Handle)) : Engine :=
  mkEngine (en_self e) (en_num_conns e) (en_stop e) (en_next_handle e) (en_next_reqid e) (en_posts e)
    (en_out e) (en_in e) (en_send_workers e) (en_recv_workers e) m (en_evs e).
Definition emit (e : Engine) (evs : list event) : Engine :=
  mkEngine (en_self e) (en_num_conns e) (en_stop e) (en_next_handle e) (en_next_reqid e) (en_posts e)
    (en_out e) (en_in e) (en_send_workers e) (en_recv_workers e) (en_closures e) (en_evs e ++ evs).

(** * Identifiers *)

(** [if (++next == 0) ++next] on [uint32_t]. *)
Definition next_id (next : Z) : Z :=
  let n := u32 (next + 1) in if n =? 0 then u32 (n + 1) else n.
Definition genHandle (e : Engine) : Engine * Handle :=
  let h := next_id (en_next_handle e) in (set_next_handle e h, h).
Definition genReqId (e : Engine) : Engine * ReqId :=
  let r := next_id (en_next_reqid e) in (set_next_reqid e r, r).

(** * API entry points *)

Definition is_outgoing (r : Request) : bool := rq_op r =? kWrite.

Definition Enqueue (e : Engine) (peer : Endpoint) (item : Item) : res (Engine * option Handle) :=
  do* dcheck (HasNonzeroIpPort peer);
  do* dcheck (Item_IsValid item);
  let '(e, handle) := genHandle e in
  let* req0 := at_or OutOfRange (head (it_requests item)) in
  let tracker := if is_outgoing req0 then en_out e else en_in e in
  let '(rk, added) := Add_handle tracker handle (it_start_mono_us item) (it_on_complete item)
                        (it_trace_ctx item) in
  if negb added then Ok (e, None)          (* AlreadyExistsError *)
  else
    let e := if is_outgoing req0 then set_out_tracker e rk else set_in_tracker e rk in
    let post := mkPostEntry peer handle (it_requests item) [] (it_metadata item) (it_trace_ctx item) in
    let e := set_posts e (en_posts e ++ [post]) in
    let e := emit e [EvEngineEnqueued (it_trace_ctx item) handle (it_start_mono_us item)
                       (Z.of_nat (length (it_requests item))) (rq_op req0)] in
    Ok (e, Some handle).

(** [None] is [NotFoundError]. *)
Definition QueryUpdate (e : Engine) (handle : Handle) : Engine * option Status :=
  let s := Check_ (en_out e) handle Endpoint_default in
  if IsInProgress s then (e, Some s)
  else if IsCompleted s then
    let '(rk, evs) := Remove (en_out e) handle Endpoint_default in
    (emit (set_out_tracker e rk) evs, Some s)
  else
    let s := Check_ (en_in e) handle Endpoint_default in
    if IsInProgress s then (e, Some s)
    else if IsCompleted s then
      let '(rk, evs) := Remove (en_in e) handle Endpoint_default in
      (emit (set_in_tracker e rk) evs, Some s)
    else (e, None).

(** * Workers *)

Definition createSendWorkers (e : Engine) (peer : Endpoint) (chs : list ChannelType) : Engine :=
  let ws := default [] (en_send_workers e !! peer) in
  set_send_workers e peer
    (foldl (λ ws t, ws ++ [(Worker_new (1 + Z.of_nat (length ws)), t)]) ws chs).

Definition createRecvWorkers (e : Engine) (chs : list ChannelType) : Engine * bool :=
  if bool_decide (chs = []) then (e, false)
  else
    let ws := default [] (en_recv_workers e !! Endpoint_default) in
    (set_recv_workers e Endpoint_default
       (foldl (λ ws t, ws ++ [(Worker_new (- (1 + Z.of_nat (length ws))), t)]) ws chs), true).

(** * Processing a post *)

(** The header of chunk [i], [size] bytes at [offset]. *)
Definition write_chunk (handle : Handle) (ri : RequestInfo) (traced : bool) (i offset size : Z)
    : DataHeader :=
  mkDataHeader (mkHeaderBase kData handle size) (ri_reqid ri) i offset
    (if ri_raddr ri =? 0 then 0 else u64 (ri_raddr ri + offset))
    (if traced then SetTraced ChunkTraceWire_default else ChunkTraceWire_default).

(** The loop of [processWrite], from chunk [i] on; [k] chunks are left. *)
Fixpoint processWrite_loop (ws : Workers) (handle : Handle) (laddr : Z) (ri : RequestInfo)
    (traced : bool) (k : nat) (i offset : Z) : res (Workers * list event) :=
  let len := ri_total_len ri in
  let q := len / ri_nchunks ri in
  let r := len `mod` ri_nchunks ri in
  match k with
  | O => do* dcheck (offset =? len); Ok (ws, [])
  | S k' =>
      let n := if i <? r then q + 1 else q in
      do* check (n <=? 2 ^ 32 - 1);
      let size := u32 n in
      let chunk := write_chunk handle ri traced i offset size in
      let j := Z.to_nat (i `mod` Z.of_nat (length ws)) in
      let* w := at_or OutOfRange (ws !! j) in
      let* '(w', evs) := EnqueueChunk w.1 (laddr + offset) chunk in
      let* r := processWrite_loop (<[j := (w', w.2)]> ws) handle laddr ri traced k' (i + 1)
                  (u64 (offset + size)) in
      Ok (r.1, evs ++ r.2)
  end.

Definition processWrite (ws : Workers) (handle : Handle) (laddr : Z) (ri : RequestInfo)
    (traced : bool) : res (Workers * list event) :=
  do* dcheck (negb (bool_decide (length ws = 0%nat)));
  do* dcheck (RequestInfo_IsValid ri);
  do* dcheck (1 <=? ri_nchunks ri);
  processWrite_loop ws handle laddr ri traced (Z.to_nat (ri_nchunks ri)) 0 0.

Fixpoint processWrites (ws : Workers) (handle : Handle) (reqs : list Request)
    (infos : list RequestInfo) (traced : bool) : res (Workers * list event) :=
  match reqs, infos with
  | req :: reqs', ri :: infos' =>
      let* '(ws, evs) := processWrite ws handle (rq_laddr req) ri traced in
      let* '(ws, evs') := processWrites ws handle reqs' infos' traced in
      Ok (ws, evs ++ evs')
  | _, _ => Ok (ws, [])
  end.

(** The descriptors of a local post. *)
Fixpoint build_infos (e : Engine) (nworkers : Z) (is_write : bool) (reqs : list Request)
    : res (Engine * list RequestInfo) :=
  match reqs with
  | [] => Ok (e, [])
  | req :: reqs' =>
      do* dcheck (Request_IsValid req);
      let nchunks := u32 (Z.min nworkers (rq_len req)) in
      do* dcheck (1 <=? nchunks);
      let '(e, reqid) := genReqId e in
      let ri := mkRequestInfo reqid nchunks (if is_write then rq_raddr req else rq_laddr req)
                  (rq_len req) (rq_op req) (mkRecipe RecipeType_kContiguous (replicate 32 0))
                  (rq_metadata req) in
      let* '(e, ris) := build_infos e nworkers is_write reqs' in
      Ok (e, ri :: ris)
  end.

Fixpoint EnqueueInfo_all (ws : Workers) (info : PostInfoHeader) (ris : list RequestInfo) : res Workers :=
  match ws with
  | [] => Ok []
  | (w, t) :: ws' =>
      let* w' := EnqueueInfo w (IsOneSidedChannel t) info ris in
      let* ws'' := EnqueueInfo_all ws' info ris in
      Ok ((w', t) :: ws'')
  end.

(** A received read becomes a local write post. *)
Definition processRecvRead (e : Engine) (peer : Endpoint) (handle : Handle) (reqs : list RequestInfo)
    (now : Z) : res Engine :=
  let cb := - (1 + Z.of_nat (size (en_closures e))) in
  let '(rk, added) := Add_handle (en_out e) handle now (Some cb) false in
  if negb added then Ok e
  else
    let e := set_closures (set_out_tracker e rk) (<[cb := (peer, handle)]> (en_closures e)) in
    do* dcheck (forallb (λ r, negb (ri_raddr r =? 0)) reqs);
    let write_reqs := (λ r, mkRequest kWrite (ri_raddr r) 0 (ri_total_len r) 0 (ri_metadata r)) <$> reqs in
    let infos := (λ r, mkRequestInfo (ri_reqid r) (ri_nchunks r) 0 (ri_total_len r) kWrite
                         (ri_recipe r) (ri_metadata r)) <$> reqs in
    Ok (set_posts e (en_posts e ++ [mkPostEntry peer handle write_reqs infos Metadata_zero false])).

(** Runs the engine's own callbacks among [evs]: a received read, and the completion of the
    write that answers one.  The others are the user's, metrics and traces. *)
Fixpoint react (e : Engine) (evs : list event) (now : Z) : res Engine :=
  match evs with
  | [] => Ok e
  | ev :: evs' =>
      let e := emit e [ev] in
      let* e := match ev with
        | EvRecvRead peer h reqs => processRecvRead e peer h reqs now
        | EvComplete cb _ =>
            match en_closures e !! cb with
            | Some (peer, h) =>
                let* '(rk, evs'') := OnReqComplete (en_in e) h peer now in
                Ok (emit (set_in_tracker e rk) evs'')
            | None => Ok e
            end
        | _ => Ok e
        end in
      react e evs' now
  end.

Definition process (e : Engine) (post : PostEntry) (now : Z) : res Engine :=
  do* dcheck (negb (bool_decide (pe_reqs post = [])));
  let* req0 := at_or OutOfRange (head (pe_reqs post)) in
  let is_write := rq_op req0 =? kWrite in
  let ws := default [] (en_send_workers e !! pe_peer post) in
  if bool_decide (length ws = 0%nat) then Ok (emit (set_send_workers e (pe_peer post) ws) [EvErrors is_write])
  else
    let is_initiator := bool_decide (length (pe_req_infos post) = 0%nat) in
    let* '(e, infos) := if is_initiator
                        then build_infos e (Z.of_nat (length ws)) is_write (pe_reqs post)
                        else Ok (e, pe_req_infos post) in
    do* dcheck (length infos =? length (pe_reqs post))%nat;
    do* dcheck (forallb Request_IsValid (pe_reqs post));
    let e := emit e (concat (zip_with (λ req ri,
      [EvRequestSize is_write (rq_len req);
       EvEngineDequeued (pe_trace_ctx post) (pe_handle post) (ri_reqid ri) req]) (pe_reqs post) infos)) in
    let* '(rk, _, evs) := Add_reqs (if is_outgoing req0 then en_out e else en_in e)
                            (pe_handle post) infos 0 Metadata_zero Endpoint_default in
    let e := if is_outgoing req0 then set_out_tracker e rk else set_in_tracker e rk in
    let* e := react e evs now in
    let* ws := if is_initiator then
        let infos' := if negb is_write
          then zip_with (λ ri req, with_raddr ri (rq_raddr req)) infos (pe_reqs post) else infos in
        let info_len := Z.of_nat (length (pe_reqs post)) * kSerializedRequestInfoSize in
        do* check (info_len <=? 2 ^ 32 - 1);
        let hdr := mkPostInfoHeader (mkHeaderBase kPostInfo (pe_handle post) info_len)
                     (en_self e) (pe_metadata post) in
        EnqueueInfo_all ws hdr infos'
      else Ok ws in
    let* '(ws, evs) := if is_write
      then processWrites ws (pe_handle post) (pe_reqs post) infos (pe_trace_ctx post)
      else Ok (ws, []) in
    Ok (emit (set_send_workers e (pe_peer post) ws) evs).

Definition hasWork (e : Engine) : bool := negb (bool_decide (length (en_posts e) = 0%nat)) || en_stop e.

(** One iteration of [mainLoop]; [chs] are the channels [Connect] would return. [None]: the
    loop ends. *)
Definition mainLoop_iter (e : Engine) (chs : list ChannelType) (now : Z) : res (option Engine) :=
  if negb (hasWork e) then Fault Blocked
  else match en_posts e with
  | [] => do* dcheck (en_stop e); Ok None
  | post :: posts =>
      let e := set_posts e posts in
      let ws := default [] (en_send_workers e !! pe_peer post) in
      let e := if Z.of_nat (length ws) <? en_num_conns e
               then createSendWorkers e (pe_peer post) chs else e in
      let* e := process e post now in Ok (Some e)
  end.

(** * Splitting a request into chunks *)

(** Offset and size of chunk [i] of a request of [len] bytes in [n] chunks. *)
Definition chunk_off (len n i : Z) : Z := i * (len / n) + Z.min i (len `mod` n).
Definition chunk_size (len n i : Z) : Z := if i <? len `mod` n then len / n + 1 else len / n.

Definition chunk_entry (handle : Handle) (laddr : Z) (ri : RequestInfo) (traced : bool) (i : Z)
    : ChunkEntry :=
  let off := chunk_off (ri_total_len ri) (ri_nchunks ri) i in
  mkChunkEntry (laddr + off)
    (write_chunk handle ri traced i off (chunk_size (ri_total_len ri) (ri_nchunks ri) i)).

Lemma chunk_off_succ len n i : 0 < n → 0 ≤ i →
  chunk_off len n (i + 1) = chunk_off len n i + chunk_size len n i.
Proof.
  intros Hn Hi. unfold chunk_off, chunk_size.
  pose proof (Z.mod_pos_bound len n Hn). destruct (i <? len `mod` n) eqn:E; to_prop; lia.
Qed.
Lemma chunk_off_end len n : 0 < n → chunk_off len n n = len.
Proof.
  intros Hn. unfold chunk_off. pose proof (Z.mod_pos_bound len n Hn).
  rewrite Z.min_r by lia. pose proof (Z.div_mod len n ltac:(lia)). lia.
Qed.
Lemma chunk_size_pos len n i : 0 < n ≤ len → 0 < chunk_size len n i.
Proof.
  intros Hn. unfold chunk_size. assert (1 ≤ len / n) by (apply Z.div_le_lower_bound; lia).
  destruct (i <? len `mod` n); lia.
Qed.
Lemma chunk_size_bound len n i : 0 < n → 0 ≤ i → chunk_size len n i ≤ (len + n - 1) / n.
Proof.
  intros Hn Hi. unfold chunk_size. pose proof (Z.mod_pos_bound len n Hn).
  pose proof (Z.div_mod len n ltac:(lia)). apply Z.div_le_lower_bound; [lia|].
  destruct (i <? len `mod` n) eqn:E; to_prop; nia.
Qed.
Lemma chunk_off_mono len n i j : 0 < n ≤ len → 0 ≤ i ≤ j → chunk_off len n i ≤ chunk_off len n j.
Proof.
  intros Hn Hij. unfold chunk_off. assert (1 ≤ len / n) by (apply Z.div_le_lower_bound; lia). nia.
Qed.
Lemma chunk_off_bound len n i : 0 < n ≤ len → 0 ≤ i ≤ n → 0 ≤ chunk_off len n i ≤ len.
Proof.
  intros Hn Hi. split.
  - pose proof (chunk_off_mono len n 0 i Hn ltac:(lia)) as Hm. unfold chunk_off at 1 in Hm.
    pose proof (Z.mod_pos_bound len n ltac:(lia)). lia.
  - rewrite <- (chunk_off_end len n) at 2 by lia. apply chunk_off_mono; lia.
Qed.

(** The chunks tile the request. *)
Lemma chunks_tile len n k : 0 < n ≤ len → 0 ≤ k ≤ n →
  concat ((λ i, seqZ (chunk_off len n i) (chunk_size len n i)) <$> seqZ 0 k) = seqZ 0 (chunk_off len n k).
Proof.
  intros Hn Hk. destruct Hk as [Hk0 Hk]. revert Hk. pattern k. apply natlike_ind; [| |done].
  - intros _. unfold chunk_off. pose proof (Z.mod_pos_bound len n ltac:(lia)).
    by rewrite Z.mul_0_l, Z.min_l by lia.
  - intros m Hm IH Hle. rewrite <- Z.add_1_r, seqZ_app, fmap_app, concat_app, IH by lia.
    rewrite Z.add_0_l. simpl. rewrite app_nil_r.
    rewrite chunk_off_succ by lia.
    pose proof (chunk_off_bound len n m Hn ltac:(lia)). pose proof (chunk_size_pos len n m Hn).
    rewrite (seqZ_app 0 (chunk_off len n m)) by lia. by rewrite Z.add_0_l.
Qed.

(** Conditions under which a request can be split. *)
Record splittable (laddr : Z) (ri : RequestInfo) : Prop := {
  sp_valid : RequestInfo_IsValid ri = true;
  sp_chunks : 0 < ri_nchunks ri ≤ ri_total_len ri;
  sp_len : ri_total_len ri < 2 ^ 64;
  sp_size : (ri_total_len ri + ri_nchunks ri - 1) / ri_nchunks ri ≤ 2 ^ 32 - 1;
  sp_addr : 0 < laddr;
}.

Lemma chunk_is_data handle ri traced i off size : 0 < size →
  DataHeader_IsData (write_chunk handle ri traced i off size) = true.
Proof.
  intros Hs. unfold DataHeader_IsData, HeaderBase_IsData. simpl. by apply Z.ltb_lt.
Qed.

(** What the loop adds to worker [j] of [nw]: chunks [i], [i+1], ..., of the right residue. *)
Definition share (nw : nat) (j : nat) (idxs : list Z) : list Z :=
  filter (λ i, i `mod` Z.of_nat nw = Z.of_nat j) idxs.

Definition give (w : Worker) (es : list ChunkEntry) : Worker :=
  mkWorker (wk_id w) (wk_stop w) (wk_infos w) (wk_chunks w ++ es).

Lemma give_give w a b : give (give w a) b = give w (a ++ b).
Proof. unfold give. simpl. by rewrite app_assoc. Qed.
Lemma give_nil w : give w [] = w.
Proof. unfold give. rewrite app_nil_r. by destruct w. Qed.

Lemma EnqueueChunk_give w addr chunk : addr ≠ 0 → DataHeader_IsData chunk = true →
  EnqueueChunk w addr chunk = Ok (give w [mkChunkEntry addr chunk], [EvWorkerEnqueued chunk (wk_id w)]).
Proof.
  intros Ha Hd. unfold EnqueueChunk. rewrite bind_dcheck by (apply negb_true_iff, Z.eqb_neq; lia).
  by rewrite bind_dcheck.
Qed.

Lemma processWrite_loop_spec handle laddr ri traced k : ∀ ws i,
  splittable laddr ri → ws ≠ [] → 0 ≤ i → i + Z.of_nat k = ri_nchunks ri →
  ∃ ws' evs, processWrite_loop ws handle laddr ri traced k i
      (chunk_off (ri_total_len ri) (ri_nchunks ri) i) = Ok (ws', evs) ∧
    length ws' = length ws ∧
    ∀ j w t, ws !! j = Some (w, t) → ws' !! j =
      Some (give w (chunk_entry handle laddr ri traced <$> share (length ws) j (seqZ i (Z.of_nat k))), t).
Proof.
  induction k as [|k IH]; intros ws i Hsp Hne Hi Hk; cbn [processWrite_loop].
  - rewrite Z.add_0_r in Hk. rewrite Hk, chunk_off_end by apply Hsp.
    rewrite bind_dcheck by apply Z.eqb_refl. eexists ws, []. split; [done|]. split; [done|].
    intros j w t Hj. by rewrite give_nil.
  - pose proof Hsp as [Hv Hn Hl Hs Ha].
    set (len := ri_total_len ri) in *. set (n := ri_nchunks ri) in *.
    fold (chunk_size len n i).
    pose proof (chunk_size_bound len n i ltac:(lia) Hi) as Hsb.
    pose proof (chunk_size_pos len n i Hn) as Hsz.
    rewrite bind_check by (apply Z.leb_le; lia).
    rewrite (wrap_small 32) by (unfold fits; lia).
    assert (0 < Z.of_nat (length ws)) as Hlw by (destruct ws; [done|simpl; lia]).
    set (j0 := Z.to_nat (i `mod` Z.of_nat (length ws))).
    pose proof (Z.mod_pos_bound i (Z.of_nat (length ws)) Hlw) as Hmod.
    destruct (lookup_lt_is_Some_2 ws j0) as [[w0 t0] Hj0]; [lia|].
    rewrite Hj0. cbn [at_or]. rewrite bind_Ok. cbn [fst snd].
    pose proof (chunk_off_bound len n i Hn ltac:(lia)) as Hob.
    rewrite EnqueueChunk_give by (lia || by apply chunk_is_data). rewrite bind_Ok.
    rewrite (wrap_small 64) by (rewrite <- chunk_off_succ by lia;
      pose proof (chunk_off_bound len n (i + 1) Hn ltac:(lia)); unfold fits; lia).
    rewrite <- chunk_off_succ by lia.
    destruct (IH (<[j0 := (give w0 [chunk_entry handle laddr ri traced i], t0)]> ws) (i + 1))
      as (ws' & evs & E & Hlen & Hws); [done| |lia|lia|].
    { intros E. apply (f_equal length) in E. rewrite length_insert in E. simpl in E. lia. }
    unfold chunk_entry in E at 1. fold len n in E. rewrite E, bind_Ok.
    rewrite length_insert in Hlen, Hws.
    eexists ws', _. split; [done|]. split; [done|]. intros j w t Hj.
    replace (Z.of_nat (S k)) with (Z.succ (Z.of_nat k)) by lia.
    rewrite (seqZ_cons i) by lia. rewrite Z.pred_succ, <- Z.add_1_r. unfold share.
    rewrite filter_cons. destruct (decide (j = j0)) as [->|Hnj].
    + rewrite (Hws j0 (give w0 [chunk_entry handle laddr ri traced i]) t0)
        by (apply list_lookup_insert_eq; lia).
      rewrite decide_True by lia. rewrite Hj0 in Hj. simplify_eq. rewrite give_give. done.
    + rewrite (Hws j w t) by by rewrite list_lookup_insert_ne.
      rewrite decide_False; [done|]. lia.
Qed.

Lemma processWrite_spec ws handle laddr ri traced : splittable laddr ri → ws ≠ [] →
  ∃ ws' evs, processWrite ws handle laddr ri traced = Ok (ws', evs) ∧ length ws' = length ws ∧
    ∀ j w t, ws !! j = Some (w, t) → ws' !! j =
      Some (give w (chunk_entry handle laddr ri traced <$>
        share (length ws) j (seqZ 0 (ri_nchunks ri))), t).
Proof.
  intros Hsp Hne. unfold processWrite.
  rewrite bind_dcheck by (destruct ws; done). rewrite bind_dcheck by apply Hsp.
  rewrite bind_dcheck by (destruct Hsp as [_ ? _ _ _]; apply Z.leb_le; lia).
  assert (0 = chunk_off (ri_total_len ri) (ri_nchunks ri) 0) as E.
  { unfold chunk_off. destruct Hsp as [_ [? _] _ _ _].
    pose proof (Z.mod_pos_bound (ri_total_len ri) (ri_nchunks ri)). lia. }
  destruct (processWrite_loop_spec handle laddr ri traced (Z.to_nat (ri_nchunks ri)) ws 0)
    as (ws' & evs & Hp & Hl & Hw); [done|done|lia|destruct Hsp as [_ ? _ _ _]; lia|].
  rewrite <- E in Hp. rewrite Z2Nat.id in Hw by (destruct Hsp as [_ ? _ _ _]; lia).
  exists ws', evs. done.
Qed.

(** ** Identifiers *)

(** [k] consecutive identifiers after [next]. *)
Fixpoint gen_ids (k : nat) (next : Z) : list Z :=
  match k with O => [] | S k' => next_id next :: gen_ids k' (next_id next) end.

Definition id_period : Z := 2 ^ 32 - 1.

Lemma next_id_cycle next : fits 32 next → next_id next = next `mod` id_period + 1.
Proof.
  unfold fits. intros Hn. unfold next_id, wrap, id_period.
  destruct (decide (next = 2 ^ 32 - 1)) as [->|Hne]; [done|].
  rewrite (Z.mod_small (next + 1)) by lia.
  destruct (decide (next = 2 ^ 32 - 1)); [done|].
  rewrite (proj2 (Z.eqb_neq (next + 1) 0)) by lia. rewrite Z.mod_small by lia. done.
Qed.

Lemma gen_ids_lookup k : ∀ next i, fits 32 next → (i < k)%nat →
  gen_ids k next !! i = Some ((next + Z.of_nat i) `mod` id_period + 1).
Proof.
  assert (0 < id_period) as Hp by done.
  induction k as [|k IH]; intros next i Hn Hi; [lia|]. cbn [gen_ids]. destruct i as [|i].
  - simpl. by rewrite Z.add_0_r, next_id_cycle.
  - simpl. pose proof (Z.mod_pos_bound next id_period Hp) as Hb.
    rewrite IH; [|rewrite next_id_cycle by done; unfold fits, id_period in *; lia|lia].
    do 2 f_equal. rewrite next_id_cycle by done.
    replace (next `mod` id_period + 1 + Z.of_nat i) with (next `mod` id_period + (1 + Z.of_nat i)) by lia.
    rewrite Zplus_mod_idemp_l. f_equal. lia.
Qed.

Lemma gen_ids_length k : ∀ next, length (gen_ids k next) = k.
Proof. induction k; intros; simpl; [done|]. f_equal. auto. Qed.

(** * Properties *)

(** Splitting a request covers it exactly.  For a valid request of [len] bytes in
    [n] chunks ([0 < n <= len], chunks below 4 GiB), [processWrite] passes every check;
    chunk [i] goes to worker [i mod (number of workers)], after what that worker already
    holds and in increasing order; the chunks' byte ranges, in order, are contiguous and
    disjoint and are exactly [0..len); and sizes differ by at most one. *)
Theorem Engine_processWrite_partition (ws : Workers) (handle : Handle) (laddr : Z) (ri : RequestInfo)
    (traced : bool) :
  splittable laddr ri → ws ≠ [] →
  let len := ri_total_len ri in
  let n := ri_nchunks ri in
  (∃ ws' evs, processWrite ws handle laddr ri traced = Ok (ws', evs) ∧ length ws' = length ws ∧
    ∀ j w t, ws !! j = Some (w, t) → ∃ w', ws' !! j = Some (w', t) ∧ wk_infos w' = wk_infos w ∧
      wk_chunks w' = wk_chunks w ++
        (chunk_entry handle laddr ri traced <$>
           filter (λ i, i `mod` Z.of_nat (length ws) = Z.of_nat j) (seqZ 0 n))) ∧
  concat ((λ i, seqZ (chunk_off len n i) (chunk_size len n i)) <$> seqZ 0 n) = seqZ 0 len ∧
  (∀ i j, 0 ≤ i < n → 0 ≤ j < n → 0 < chunk_size len n i ≤ chunk_size len n j + 1).
Proof.
  intros Hsp Hne len n. split; [|split].
  - destruct (processWrite_spec ws handle laddr ri traced Hsp Hne) as (ws' & evs & E & Hl & Hw).
    exists ws', evs. split; [done|]. split; [done|]. intros j w t Hj. eexists.
    split; [by apply Hw|]. done.
  - destruct Hsp as [_ Hn _ _ _]. rewrite chunks_tile by (fold len n in Hn; lia).
    by rewrite chunk_off_end by (fold len n in Hn; lia).
  - intros i j Hi Hj. split; [apply chunk_size_pos, Hsp|].
    unfold chunk_size. destruct (i <? len `mod` n), (j <? len `mod` n); lia.
Qed.

Definition ri10 : RequestInfo :=
  mkRequestInfo 9 3 4096 10 kWrite (mkRecipe 1 (replicate 32 0)) Metadata_zero.

Lemma Engine_processWrite_partition_witness : ∃ ws' evs,
  processWrite [(Worker_new 1, kTCP); (Worker_new 2, kTCP)] 5 64 ri10 false = Ok (ws', evs) ∧
  (λ w, (λ c, (ce_src_addr c, hb_len (dh_base (ce_chunk c)))) <$> wk_chunks w.1) <$> ws' =
    [[(64, 4); (71, 3)]; [(68, 3)]].
Proof.
  destruct (Engine_processWrite_partition [(Worker_new 1, kTCP); (Worker_new 2, kTCP)] 5 64 ri10 false)
    as [(ws' & evs & E & _) _]; [split; vm_compute; done | done |].
  exists ws', evs. split; [exact E|]. vm_compute in E. simplify_eq. reflexivity.
Defined.

Lemma gen_ids_unique (next : Z) (k : nat) :
  fits 32 next → Z.of_nat k ≤ 2 ^ 32 - 1 →
  NoDup (gen_ids k next) ∧ Forall (λ id, 0 < id < 2 ^ 32) (gen_ids k next).
Proof.
  intros Hn Hk. assert (0 < id_period) as Hp by done. split.
  - apply NoDup_alt. intros i j x Hi Hj.
    pose proof (lookup_lt_Some _ _ _ Hi) as Hil. pose proof (lookup_lt_Some _ _ _ Hj) as Hjl.
    rewrite gen_ids_length in Hil, Hjl. rewrite gen_ids_lookup in Hi, Hj by done. simplify_eq.
    assert (((next + Z.of_nat j) - (next + Z.of_nat i)) `mod` id_period = 0) as Hm.
    { rewrite Zminus_mod. replace ((next + Z.of_nat j) `mod` id_period) with
        ((next + Z.of_nat i) `mod` id_period) by lia. by rewrite Z.sub_diag. }
    apply Z.mod_divide in Hm as [q Hq]; [|done]. unfold id_period in Hq. nia.
  - apply list.Forall_forall. intros id Hid. apply list_elem_of_lookup in Hid as [i Hi].
    pose proof (lookup_lt_Some _ _ _ Hi) as Hil. rewrite gen_ids_length in Hil.
    rewrite gen_ids_lookup in Hi by done. simplify_eq.
    pose proof (Z.mod_pos_bound (next + Z.of_nat i) id_period Hp). unfold id_period in *. lia.
Qed.

(** C19: Handles and request ids are never the invalid value 0 and repeat only after
    2^32 - 1 of them: from any seed, in any run of up to 2^32 - 1 consecutive
    identifiers all are non-zero 32-bit values and no two are equal. *)
Theorem Engine_ids_unique (next : Z) (k : nat) :
  fits 32 next → Z.of_nat k ≤ 2 ^ 32 - 1 →
  NoDup (gen_ids k next) ∧ Forall (λ id, 0 < id < 2 ^ 32) (gen_ids k next).
Proof. apply gen_ids_unique. Qed.

Lemma Engine_ids_unique_witness : gen_ids 3 (2 ^ 32 - 2) = [2 ^ 32 - 1; 1; 2] ∧
  NoDup (gen_ids 3 (2 ^ 32 - 2)).
Proof.
  split; [vm_compute; reflexivity|].
  apply (Engine_ids_unique (2 ^ 32 - 2) 3); [split; vm_compute; done | lia].
Defined.

(** [QueryUpdate] reports a completed post exactly once.  While any chunk is missing it
    answers in-progress and changes nothing; when all are done it answers success, and
    the next query for the same handle answers not-found and changes nothing; posts of
    other handles are untouched. *)
Theorem Engine_QueryUpdate_once (e : Engine) (h : Handle) (pt : PostTracker) :
  rk_trackers (en_out e) !! (Endpoint_default, h) = Some pt →
  rk_trackers (en_in e) !! (Endpoint_default, h) = None →
  if isComplete pt
  then ∃ e', QueryUpdate e h = (e', Some kSuccess) ∧ QueryUpdate e' h = (e', None) ∧
       en_in e' = en_in e ∧
       (∀ k, k ≠ (Endpoint_default, h) → rk_trackers (en_out e') !! k = rk_trackers (en_out e) !! k)
  else QueryUpdate e h = (e, Some kInProgress).
Proof.
  intros Hout Hin. destruct (isComplete pt) eqn:Ec.
  - assert (Check_ (en_out e) h Endpoint_default = kSuccess) as Hc by (unfold Check_; by rewrite Hout, Ec).
    unfold QueryUpdate at 1, Remove. rewrite Hc, Hout. eexists. split; [reflexivity|]. split; [|split; [done|]].
    + unfold QueryUpdate, Check_. simpl. by rewrite lookup_delete_eq, Hin.
    + intros k Hk. simpl. by rewrite lookup_delete_ne.
  - unfold QueryUpdate, Check_. by rewrite Hout, Ec.
Qed.

Definition engine_sample : Engine :=
  match Enqueue (Engine_new ep_sample 2 41 7 true None) ep_sample
    (mkItem [mkRequest kWrite 64 4096 10 0 Metadata_zero] None Metadata_zero 1000 false) with
  | Ok (e, _) => e | Fault _ => Engine_new ep_sample 2 41 7 true None end.

Lemma Engine_QueryUpdate_once_witness : QueryUpdate engine_sample 42 = (engine_sample, Some kInProgress).
Proof.
  refine (Engine_QueryUpdate_once engine_sample 42
    (mkPostTracker ∅ 0 Metadata_zero 1000 None false true) _ _); vm_compute; reflexivity.
Defined.
