(* ===== verification/TransferStream.v ===== *)
(** The chunk protocol on a reliable stream, proved against the contract of
    [Channel.StreamLaws]: what each send puts on the stream, what the receiver does with
    each message, and what a whole post delivers whatever the order and repetition of
    its chunks. *)

From stdpp Require Import base tactics list list_numbers numbers gmap fin_maps.
From S2P Require Import Prelude Codec Types IpAddr Endpoint Bitset ChunkTracker Header.
From S2P Require Import HeaderFlatbuf RequestTracker Channel Transfer.
Local Open Scope Z_scope.

(** * Wire images *)

Definition data_bytes (h : DataHeader) : bytes := c_store FbDataHeader_codec (fb_data_of h).
Definition info_bytes (h : PostInfoHeader) : bytes := c_store FbPostInfoHeader_codec (fb_postinfo_of h).

Lemma data_bytes_length h : length (data_bytes h) = 64%nat.
Proof. by apply (store_length _ FbDataHeader_laws). Qed.
Lemma info_bytes_length h : length (info_bytes h) = 64%nat.
Proof. by apply (store_length _ FbPostInfoHeader_laws). Qed.
Lemma nonempty_of_length {A} (l : list A) n : length l = S n → l ≠ [].
Proof. by destruct l. Qed.

Lemma data_valid_of_data h : DataHeader_IsData h = true → DataHeader_IsValid h = true.
Proof. intros E. unfold DataHeader_IsValid. by rewrite E. Qed.
Lemma data_not_ack h : DataHeader_IsData h = true → DataHeader_IsAck h = false.
Proof.
  unfold DataHeader_IsData, DataHeader_IsAck, HeaderBase_IsData, HeaderBase_IsAck. intros E.
  to_prop. apply andb_false_iff. right. apply Z.eqb_neq. lia.
Qed.

Lemma deserialize_data h : data_wf h → DataHeader_IsValid h = true →
  deserialize (data_bytes h) = Some (HData h).
Proof.
  intros Hwf Hv. unfold deserialize. rewrite take_ge by by rewrite data_bytes_length.
  unfold data_bytes. by destruct (Deserialize_stored_data h Hwf Hv) as [-> _].
Qed.
Lemma deserialize_info h : postinfo_wf h → PostInfoHeader_IsValid h = true →
  deserialize (info_bytes h) = Some (HPostInfo h).
Proof.
  intros Hwf Hv. unfold deserialize. rewrite take_ge by by rewrite info_bytes_length.
  unfold info_bytes. by destruct (Deserialize_stored_postinfo h Hwf Hv) as (-> & -> & _).
Qed.

(** ACK of a data chunk. *)
Lemma ack_is_ack h : DataHeader_IsData h = true → DataHeader_IsAck (with_len h 0) = true.
Proof.
  unfold DataHeader_IsData, DataHeader_IsAck, HeaderBase_IsData, HeaderBase_IsAck. simpl.
  intros E. to_prop. by rewrite (proj2 (Z.eqb_eq _ _) H).
Qed.
Lemma stamp_is_data h w s t0 t1 t2 : DataHeader_IsData (StampRxTrace h w s t0 t1 t2) = DataHeader_IsData h.
Proof. unfold StampRxTrace. by destruct (negb _). Qed.

(** * Memory *)

Lemma write_mem_outside data : ∀ m a x, x < a ∨ a + Z.of_nat (length data) ≤ x →
  write_mem m a data !! x = m !! x.
Proof.
  induction data as [|b data IH]; intros m a x Hx; [done|]. cbn [write_mem length] in *.
  rewrite IH by lia. apply lookup_insert_ne. lia.
Qed.
Lemma read_mem_cons m a len : 0 < len → read_mem m a len = m !! a :: read_mem m (a + 1) (len - 1).
Proof.
  intros. unfold read_mem. rewrite seqZ_cons by lia. rewrite fmap_cons. repeat f_equal; lia.
Qed.
Lemma read_write_mem data : ∀ m a,
  read_mem (write_mem m a data) a (Z.of_nat (length data)) = Some <$> data.
Proof.
  induction data as [|b data IH]; intros m a; [done|].
  rewrite read_mem_cons by (simpl; lia). rewrite fmap_cons. cbn [write_mem]. f_equal.
  - rewrite write_mem_outside by lia. apply lookup_insert_eq.
  - rewrite <- (IH (<[a := b]> m) (a + 1)). f_equal. simpl. lia.
Qed.
Lemma read_mem_outside m a data x len : x + len ≤ a ∨ a + Z.of_nat (length data) ≤ x →
  read_mem (write_mem m a data) x len = read_mem m x len.
Proof.
  intros Hx. apply list_fmap_ext. intros i y Hy. apply lookup_seqZ in Hy as [-> Hi].
  apply write_mem_outside. lia.
Qed.

(** * Trackers seen through [put] *)

Lemma put_put rk k a b : put (put rk k a) k b = put rk k b.
Proof. unfold put, with_trackers. simpl. by rewrite insert_insert_eq. Qed.
Lemma put_lookup rk k pt : rk_trackers (put rk k pt) !! k = Some pt.
Proof. apply lookup_insert_eq. Qed.
Lemma alter_as_insert {K V} `{Countable K} (f : V → V) (m : gmap K V) k v :
  m !! k = Some v → alter f k m = <[k := f v]> m.
Proof.
  intros E. apply map_eq. intros i. destruct (decide (i = k)) as [->|].
  - by rewrite lookup_alter_eq, lookup_insert_eq, E.
  - by rewrite lookup_alter_ne, lookup_insert_ne.
Qed.

Definition set_chunks (pt : PostTracker) (id : ReqId) (r : ReqTracker) (t : ChunkTracker) : PostTracker :=
  with_req_map pt (<[id := with_chunks r t]> (pt_req_map pt)).

Lemma Find_put_eq rk h id peer t pt r : rk_trackers rk !! (peer, h) = Some pt →
  pt_req_map pt !! id = Some r → Find_put rk h id peer t = put rk (peer, h) (set_chunks pt id r t).
Proof.
  intros E Er. unfold Find_put, put, set_chunks. f_equal.
  rewrite (alter_as_insert _ _ _ _ E). by rewrite (alter_as_insert _ _ _ _ Er).
Qed.
Lemma Find_eq rk h id peer pt r : rk_trackers rk !! (peer, h) = Some pt →
  pt_req_map pt !! id = Some r → Find rk h id peer = Ok (rt_chunks r).
Proof. intros E Er. unfold Find. by rewrite E; cbn [at_or]; rewrite bind_Ok, Er. Qed.
Lemma set_chunks_lookup pt id r t : pt_req_map (set_chunks pt id r t) !! id = Some (with_chunks r t).
Proof. apply lookup_insert_eq. Qed.
Lemma set_chunks_twice pt id r t t' :
  set_chunks (set_chunks pt id r t) id (with_chunks r t) t' = set_chunks pt id r t'.
Proof. unfold set_chunks, with_req_map. simpl. by rewrite insert_insert_eq. Qed.

(** Acquiring and releasing an empty chunk. *)
Lemma acquire_release t i : ct_wf t → 0 ≤ i < ct_total t → ct_status t i = kEmpty →
  ∃ t1 t2, ChunkTracker_Acquire t i = Ok (t1, kEmpty) ∧
    ChunkTracker_Release t1 i true = Ok (t2, ChunkTracker_IsDone t2) ∧
    ct_wf t2 ∧ ct_total t2 = ct_total t ∧ ∀ j, ct_status t2 j = upd (ct_status t) i kDone j.
Proof.
  intros Hwf Hi He.
  destruct (ChunkTracker_Acquire_spec t i Hwf Hi) as (t1 & E1 & Hw1 & Ht1 & Hs1).
  rewrite He in E1, Hs1. rewrite decide_True in Hs1 by done.
  destruct (ChunkTracker_Release_spec t1 i true) as (t2 & l & E2 & Hw2 & Ht2 & Hs2 & Hl);
    [done|lia|rewrite Hs1; unfold upd; by rewrite decide_True|].
  exists t1, t2. split; [done|]. split.
  - rewrite E2. do 2 f_equal. apply eq_bool_prop_intro.
    rewrite !Is_true_true. rewrite Hl, ChunkTracker_IsDone_spec by done. naive_solver.
  - split; [done|]. split; [lia|]. intros j. rewrite Hs2. unfold upd. case_decide; [done|].
    rewrite Hs1. unfold upd. by rewrite decide_False.
Qed.

(** Acquiring a chunk that is already there changes nothing. *)
Lemma acquire_done t i : ct_wf t → 0 ≤ i < ct_total t → ct_status t i = kDone →
  ChunkTracker_Acquire t i = Ok (t, kDone).
Proof.
  intros Hwf Hi He. unfold ChunkTracker_Acquire.
  rewrite bind_dcheck by by apply isValidChunk_spec.
  rewrite bind_dcheck by by apply ct_invariant_wf.
  rewrite ct_get, bind_Ok by done. by rewrite bool_decide_true.
Qed.

Section Stream.
Context {C : Type} `{StreamLaws C}.

(** A channel after an exchange: still usable, same peer, given stream contents. *)
Definition became (c c' : C) (inb outb : bytes) : Prop :=
  usable c' ∧ GetPeer c' = GetPeer c ∧ inbound c' = inb ∧ outbound c' = outb.

Lemma read_prefix c a rest : usable c → inbound c = a ++ rest → a ≠ [] →
  Z.of_nat (length a) < 2 ^ 63 →
  ∃ c', Read c [Z.of_nat (length a)] = Ok (c', Z.of_nat (length a), a) ∧
        became c c' rest (outbound c).
Proof.
  intros Hu Hin Ha Hl. destruct a as [|x a]; [done|].
  destruct (st_read c (Z.of_nat (length (x :: a)))) as (c' & E & Hu' & Hp & Hi & Ho);
    [done|simpl in *; lia|rewrite Hin, length_app; lia|].
  rewrite Hin, Nat2Z.id in E, Hi. rewrite take_app_length in E. rewrite drop_app_length in Hi.
  exists c'. done.
Qed.

Lemma write_segs c segs : usable c → segs ≠ [] → Forall (λ s, s ≠ []) segs →
  Z.of_nat (length segs) ≤ IOV_MAX → total segs < 2 ^ 63 →
  ∃ c', Write c segs = Ok (c', total segs) ∧ became c c' (inbound c) (outbound c ++ concat segs).
Proof.
  intros Hu Hne Hf Hm Ht. destruct (st_write c segs Hu Hne Hf Hm Ht) as (c' & E & ? & ? & ? & ?).
  exists c'. done.
Qed.

Lemma became_trans c1 c2 c3 i1 o1 i2 o2 : became c1 c2 i1 o1 → became c2 c3 i2 o2 → became c1 c3 i2 o2.
Proof. intros (? & Hp & _) (? & Hp' & ? & ?). split; [done|]. split; [congruence|]. done. Qed.

(** ** Sending *)

Lemma SendInfo_stream c info reqs : usable c → postinfo_wf info → PostInfoHeader_IsValid info = true →
  reqs ≠ [] → Forall (λ r, RequestInfo_IsValid r = true) reqs →
  hb_len (pi_base info) = Z.of_nat (length reqs) * kRequestInfoSize →
  Z.of_nat (length reqs) < 2 ^ 32 →
  ∃ c', SendInfo c info reqs = Ok (c', true) ∧
        became c c' (inbound c) (outbound c ++ info_bytes info ++ store_requests reqs).
Proof.
  intros Hu Hwf Hv Hne Hf Hl Hmax. unfold SendInfo.
  rewrite bind_dcheck by done. rewrite bind_dcheck by by rewrite bool_decide_false.
  unfold kVer. rewrite Serialize_PostInfo_Ok, bind_Ok by done. fold (info_bytes info).
  pose proof (store_requests_length reqs) as Hsl.
  assert (Z.of_nat (length (store_requests reqs)) = hb_len (pi_base info)) as Hsz.
  { rewrite Hsl, Hl. unfold kRequestInfoSize, kSerializedRequestInfoSize. lia. }
  unfold Serialize_Requests. rewrite (bind_dcheck (negb _)) by by rewrite bool_decide_false.
  rewrite Serialize_append_Ok by done. rewrite bind_Ok. cbn [app].
  rewrite bind_dcheck by (apply Z.eqb_eq; congruence). rewrite bind_Ok.
  unfold IsMatch_PostInfo. rewrite Hv, bind_dcheck, bind_Ok by done.
  rewrite bind_dcheck by by apply Z.eqb_eq.
  destruct (write_segs c [info_bytes info; store_requests reqs]) as (c' & E & Hb).
  - done.
  - done.
  - repeat constructor; [by eapply nonempty_of_length, info_bytes_length|].
    intros E. rewrite E in Hsl. destruct reqs; [done|]. simpl in Hsl. lia.
  - done.
  - unfold total. cbn [concat]. rewrite app_nil_r, length_app, info_bytes_length. lia.
  - rewrite E, bind_Ok. exists c'. cbn [fst snd concat] in *. rewrite app_nil_r in Hb.
    split; [|done]. do 2 f_equal. apply Z.eqb_eq. unfold total. cbn [concat].
    rewrite app_nil_r, length_app. lia.
Qed.

Lemma SendChunk_stream c chunk payload : usable c → DataHeader_IsData chunk = true →
  hb_len (dh_base chunk) = Z.of_nat (length payload) → Z.of_nat (length payload) < 2 ^ 32 →
  ∃ c', SendChunk c chunk payload = Ok (c', true) ∧
        became c c' (inbound c) (outbound c ++ data_bytes chunk ++ payload).
Proof.
  intros Hu Hd Hl Hmax. pose proof (data_valid_of_data _ Hd) as Hv. unfold SendChunk, IsMatch_Data.
  rewrite Hv, (bind_dcheck true), bind_Ok, bind_dcheck by (done || by apply Z.eqb_eq).
  unfold kVer. rewrite Serialize_Data_Ok, bind_Ok by done. fold (data_bytes chunk).
  assert (payload ≠ []) as Hne.
  { intros ->. unfold DataHeader_IsData, HeaderBase_IsData in Hd. to_prop. simpl in Hl. lia. }
  destruct (write_segs c [data_bytes chunk; payload]) as (c' & E & Hb).
  - done.
  - done.
  - repeat constructor; [by eapply nonempty_of_length, data_bytes_length|done].
  - done.
  - unfold total. cbn [concat]. rewrite app_nil_r, length_app, data_bytes_length. lia.
  - rewrite E, bind_Ok. exists c'. cbn [fst snd concat] in *. rewrite app_nil_r in Hb.
    split; [|done]. do 2 f_equal. apply Z.eqb_eq. unfold total. cbn [concat].
    rewrite app_nil_r, length_app. lia.
Qed.

Lemma sendAck_stream c chunk : usable c → DataHeader_IsData chunk = true →
  ∃ c', sendAck c chunk = Ok (c', true) ∧
        became c c' (inbound c) (outbound c ++ data_bytes (with_len chunk 0)).
Proof.
  intros Hu Hd. unfold sendAck. pose proof (ack_is_ack _ Hd) as Ha.
  rewrite bind_dcheck by done. unfold kVer.
  rewrite Serialize_Data_Ok, bind_Ok by (unfold DataHeader_IsValid; by rewrite Ha, orb_true_r).
  fold (data_bytes (with_len chunk 0)).
  destruct (write_segs c [data_bytes (with_len chunk 0)]) as (c' & E & Hb).
  - done.
  - done.
  - repeat constructor. by eapply nonempty_of_length, data_bytes_length.
  - done.
  - unfold total. cbn [concat]. rewrite app_nil_r, data_bytes_length. lia.
  - rewrite E, bind_Ok. exists c'. cbn [fst snd concat] in *. rewrite app_nil_r in Hb.
    split; [|done]. unfold total. cbn [concat]. by rewrite app_nil_r, Z.eqb_refl.
Qed.

(** ** Draining: exactly the bytes of the chunk are discarded *)

Lemma drain_loop_spec fuel : ∀ c a rest, usable c → inbound c = a ++ rest →
  Z.of_nat (length a) ≤ Z.of_nat fuel * kTmpBufSize →
  ∃ c', drain_loop fuel c (Z.of_nat (length a)) = Ok (c', true) ∧ became c c' rest (outbound c).
Proof.
  assert (kTmpBufSize = 10240) as Hk by done.
  induction fuel as [|fuel IH]; intros c a rest Hu Hin Hf; rewrite Hk in Hf;
    [destruct a; [by exists c|simpl in Hf; lia]|]. cbn [drain_loop].
  destruct (0 <? Z.of_nat (length a)) eqn:E0; to_prop.
  - set (size := Z.min (Z.of_nat (length a)) kTmpBufSize).
    assert (0 < size ≤ Z.of_nat (length a)) as Hs by lia.
    pose proof (take_drop (Z.to_nat size) a) as Hsplit.
    assert (length (take (Z.to_nat size) a) = Z.to_nat size) as Htl by (rewrite length_take; lia).
    destruct (read_prefix c (take (Z.to_nat size) a) (drop (Z.to_nat size) a ++ rest))
      as (c1 & E1 & Hb1).
    + done.
    + by rewrite app_assoc, Hsplit.
    + intros En. rewrite En in Htl. simpl in Htl. lia.
    + rewrite Htl. lia.
    + rewrite Htl, Z2Nat.id in E1 by lia. rewrite E1, bind_Ok, Z.eqb_refl. cbn [negb].
      destruct (IH c1 (drop (Z.to_nat size) a) rest) as (c2 & E2 & Hb2);
        [apply Hb1|apply Hb1|rewrite length_drop, Hk; lia|].
      exists c2. replace (Z.of_nat (length a) - size) with (Z.of_nat (length (drop (Z.to_nat size) a)))
        by (rewrite length_drop; lia).
      split; [done|]. pose proof Hb1 as (_ & _ & _ & Ho). rewrite Ho in Hb2.
      by eapply became_trans.
  - destruct a; [|simpl in E0; lia]. exists c. by split.
Qed.

Lemma drainStream_spec c a rest : usable c → inbound c = a ++ rest →
  ∃ c', drainStream c (Z.of_nat (length a)) = Ok (c', true) ∧ became c c' rest (outbound c).
Proof.
  intros Hu Hin. apply drain_loop_spec; [done|done|].
  assert (kTmpBufSize = 10240) as -> by done.
  rewrite Nat2Z.inj_succ, Z2Nat.id by (apply Z.div_pos; lia).
  pose proof (Z.mul_succ_div_gt (Z.of_nat (length a)) 10240 ltac:(lia)). lia.
Qed.

(** ** Receiving *)

Lemma recvStream_header w wid ck hdr rest : usable (w_ch w) → inbound (w_ch w) = hdr ++ rest →
  length hdr = 64%nat →
  ∃ c1, became (w_ch w) c1 rest (outbound (w_ch w)) ∧
    recvStream w wid ck =
    match deserialize hdr with
    | None => Ok (with_ch w c1, false)
    | Some (HData chunk) => recvDataStream (with_ch w c1) chunk wid ck
    | Some (HPostInfo info) => recvPostInfoStream (with_ch w c1) info ck
    end.
Proof.
  intros Hu Hin Hl. destruct (st_type (w_ch w)) as (Ht1 & Ht2 & _).
  destruct (read_prefix (w_ch w) hdr rest Hu Hin) as (c1 & E & Hb);
    [by eapply nonempty_of_length|lia|].
  exists c1. split; [done|]. unfold recvStream.
  rewrite Ht1, Ht2, 2!bind_dcheck by done. rewrite Hl in E.
  change (Z.of_nat 64) with kSize in E. by rewrite E, bind_Ok, Z.eqb_refl.
Qed.

Lemma Recv_stream w wid ck : Recv w wid ck = recvStream w wid ck.
Proof. unfold Recv. by destruct (st_type (w_ch w)) as [-> _]. Qed.

(** A [PostInfo] message: the payload is consumed, the channel learns the peer, the
    requests are registered. *)
Lemma recv_postinfo w wid ck info reqs rest : usable (w_ch w) → postinfo_wf info →
  PostInfoHeader_IsValid info = true → reqs ≠ [] →
  Forall (λ r, reqinfo_wf r ∧ RequestInfo_IsValid r = true) reqs →
  hb_len (pi_base info) = Z.of_nat (length reqs) * kRequestInfoSize →
  inbound (w_ch w) = info_bytes info ++ store_requests reqs ++ rest →
  ∃ c', usable c' ∧ inbound c' = rest ∧ outbound c' = outbound (w_ch w) ∧
    GetPeer c' = (if HasNonzeroIpPort (pi_peer info) then pi_peer info else GetPeer (w_ch w)) ∧
    Recv w wid ck =
    (let* '(rk, ok, evs) := Add_reqs (w_in w) (hb_handle (pi_base info)) reqs (ck_start ck)
                              (pi_metadata info) (pi_peer info) in
     Ok (with_in (with_ch w c') (rk, evs), ok)).
Proof.
  intros Hu Hwf Hv Hne Hf Hlen Hin. rewrite Recv_stream.
  destruct (recvStream_header w wid ck _ _ Hu Hin (info_bytes_length info)) as (c1 & Hb1 & ->).
  rewrite deserialize_info by done. destruct Hb1 as (Hu1 & Hp1 & Hi1 & Ho1).
  pose proof (store_requests_length reqs) as Hsl.
  assert (Z.of_nat (length (store_requests reqs)) = hb_len (pi_base info)) as Hsz.
  { rewrite Hsl, Hlen. unfold kRequestInfoSize, kSerializedRequestInfoSize. lia. }
  pose proof Hwf as ((_ & _ & [_ Hmax]) & _).
  unfold recvPostInfoStream. cbn [w_ch with_ch].
  destruct (read_prefix c1 (store_requests reqs) rest) as (c2 & E2 & Hu2 & Hp2 & Hi2 & Ho2);
    [done|done| |lia|].
  { intros E. rewrite E in Hsl. destruct reqs; [done|]. simpl in Hsl. lia. }
  rewrite Hsz in E2. rewrite E2, bind_Ok, Z.eqb_refl. cbn [negb].
  assert (Deserialize_Requests (store_requests reqs) = Some reqs) as ->.
  { unfold Deserialize_Requests. rewrite Hsz, Hlen, Z.mod_mul by done.
    rewrite bool_decide_false by (intros E; rewrite E in Hsl; destruct reqs; [done|simpl in Hsl; lia]).
    cbn [orb negb Z.eqb]. rewrite Hsl, Nat.div_mul by lia.
    rewrite <- (app_nil_r (store_requests reqs)). by apply Deserialize_loop_store. }
  unfold addPost. cbn [w_ch with_ch w_in].
  destruct (HasNonzeroIpPort (pi_peer info)).
  - exists (SetPeer c2 (pi_peer info)). destruct (st_set c2 (pi_peer info)) as (Hsi & Hso & Hsu).
    split; [auto|]. split; [congruence|]. split; [congruence|]. split; [apply st_get_set|done].
  - exists c2. split; [done|]. split; [done|]. split; [congruence|]. split; [congruence|done].
Qed.

(** An ACK goes to the outgoing tracker. *)
Lemma recv_ack w wid ck chunk rest : usable (w_ch w) → data_wf chunk →
  DataHeader_IsAck chunk = true → inbound (w_ch w) = data_bytes chunk ++ rest →
  ∃ c', became (w_ch w) c' rest (outbound (w_ch w)) ∧
    Recv w wid ck =
    (let* r := Update (w_out w) (hb_handle (dh_base chunk)) (dh_reqid chunk) (dh_index chunk)
                 wid Endpoint_default (ck_now ck) in
     Ok (with_out (with_ch w c') (r.1, EvTxAckRcvd chunk :: r.2), true)).
Proof.
  intros Hu Hwf Ha Hin. rewrite Recv_stream.
  destruct (recvStream_header w wid ck _ _ Hu Hin (data_bytes_length chunk)) as (c1 & Hb1 & ->).
  rewrite deserialize_data by (done || unfold DataHeader_IsValid; by rewrite Ha, orb_true_r).
  exists c1. split; [done|]. unfold recvDataStream. by rewrite Ha.
Qed.

(** The state of the receiving side around one data chunk. *)
Record at_chunk (w : world C) (chunk : DataHeader) (pt : PostTracker) (r : ReqTracker) : Prop := {
  ac_usable : usable (w_ch w);
  ac_data : DataHeader_IsData chunk = true;
  ac_post : rk_trackers (w_in w) !! (GetPeer (w_ch w), hb_handle (dh_base chunk)) = Some pt;
  ac_req : pt_req_map pt !! dh_reqid chunk = Some r;
  ac_wf : pt_wf pt;
  ac_index : 0 ≤ dh_index chunk < ct_total (rt_chunks r);
  ac_addr : rt_raddr r ≠ 0 ∧ 0 < rt_raddr r + dh_byte_offset chunk < 2 ^ 64;
}.

Lemma at_chunk_lookups w chunk pt r : at_chunk w chunk pt r →
  let h := hb_handle (dh_base chunk) in let peer := GetPeer (w_ch w) in
  bool_decide (Check_ (w_in w) h peer = kNotFound) = false ∧
  GetChunkAddr (w_in w) h (dh_reqid chunk) (dh_byte_offset chunk) peer
    = rt_raddr r + dh_byte_offset chunk ∧
  Find (w_in w) h (dh_reqid chunk) peer = Ok (rt_chunks r).
Proof.
  intros [Hu Hd Hp Hr Hw Hi [Ha Ho]]. cbn zeta. split; [|split].
  - apply bool_decide_false. unfold Check_. rewrite Hp. by destruct (negb _).
  - unfold GetChunkAddr. rewrite Hp, Hr, (proj2 (Z.eqb_neq _ 0)) by done.
    apply wrap_small. unfold fits. lia.
  - by eapply Find_eq.
Qed.

Definition ack_of (chunk : DataHeader) (wid : Z) (s : ChunkStatus) (ck : clock) : DataHeader :=
  let traced := IsTraced (dh_trace chunk) in
  with_len (StampRxTrace chunk wid s (if traced then ck_start ck else 0)
              (if traced then ck_acquired ck else 0) (ck_done ck)) 0.

(** A chunk seen for the first time: its payload goes to memory, the chunk is done, and
    an ACK is sent; the request's completion is reported when it was the last one. *)
Lemma recvData_fresh w wid ck chunk payload rest pt r :
  at_chunk w chunk pt r → ct_status (rt_chunks r) (dh_index chunk) = kEmpty →
  hb_len (dh_base chunk) = Z.of_nat (length payload) → Z.of_nat (length payload) < 2 ^ 32 →
  inbound (w_ch w) = payload ++ rest →
  ∃ c' t2, became (w_ch w) c' rest (outbound (w_ch w) ++ data_bytes (ack_of chunk wid kEmpty ck)) ∧
    ct_wf t2 ∧ ct_total t2 = ct_total (rt_chunks r) ∧
    (∀ j, ct_status t2 j = upd (ct_status (rt_chunks r)) (dh_index chunk) kDone j) ∧
    let key := (GetPeer (w_ch w), hb_handle (dh_base chunk)) in
    let rk1 := put (w_in w) key (set_chunks pt (dh_reqid chunk) r t2) in
    let m := write_mem (w_mem w) (rt_raddr r + dh_byte_offset chunk) payload in
    recvDataStream w chunk wid ck =
    (let* r2 := if ChunkTracker_IsDone t2 then OnReqComplete rk1 key.2 key.1 (ck_now ck)
                else Ok (rk1, []) in
     Ok (mkWorld c' (w_out w) r2.1 m (w_evs w ++ r2.2), true)).
Proof.
  intros Hat He Hlen Hmax Hin. destruct (at_chunk_lookups _ _ _ _ Hat) as (Hck & Haddr & Hfind).
  pose proof Hat as [Hu Hd Hp Hr Hw Hi [Ha Ho]].
  destruct (acquire_release (rt_chunks r) (dh_index chunk)) as (t1 & t2 & E1 & E2 & Hw2 & Ht2 & Hs2);
    [by apply (ptwf_reqs pt Hw (dh_reqid chunk))|done|done|].
  destruct (read_prefix (w_ch w) payload rest) as (c1 & Er & Hb1).
  { done. } { done. }
  { intros ->. unfold DataHeader_IsData, HeaderBase_IsData in Hd. to_prop. simpl in Hlen. lia. }
  { lia. }
  destruct (sendAck_stream c1 (StampRxTrace chunk wid kEmpty
    (if IsTraced (dh_trace chunk) then ck_start ck else 0)
    (if IsTraced (dh_trace chunk) then ck_acquired ck else 0) (ck_done ck))) as (c2 & Es & Hb2);
    [apply Hb1|by rewrite stamp_is_data|].
  pose proof Hb1 as (_ & _ & Hi1 & Ho1). rewrite Hi1, Ho1 in Hb2.
  exists c2, t2. split; [by eapply became_trans|]. split; [done|]. split; [done|]. split; [done|].
  cbn zeta. unfold recvDataStream. rewrite data_not_ack, Hck, Haddr by done.
  rewrite (proj2 (Z.eqb_neq _ 0)) by lia. rewrite Hfind, bind_Ok, E1, bind_Ok.
  rewrite (Find_put_eq _ _ _ _ _ _ _ Hp Hr). cbn [w_ch with_in]. rewrite <- Hlen in Er.
  rewrite Er, bind_Ok, Z.eqb_refl. unfold releaseChunk. cbn [w_in with_in with_mem with_ch fst snd].
  rewrite (Find_eq _ _ _ _ _ _ (put_lookup _ _ _) (set_chunks_lookup _ _ _ _)), bind_Ok.
  cbn [rt_chunks with_chunks]. rewrite E2, bind_Ok.
  rewrite (Find_put_eq _ _ _ _ _ _ _ (put_lookup _ _ _) (set_chunks_lookup _ _ _ _)).
  rewrite put_put, set_chunks_twice. cbn [w_ch w_mem w_evs w_out].
  destruct (ChunkTracker_IsDone t2).
  - destruct (OnReqComplete _ _ _ _) as [[rk2 ev2]|f]; [|done].
    rewrite !bind_Ok. cbn [negb w_ch with_in with_mem with_ch fst snd]. rewrite Es, bind_Ok.
    unfold with_ch, with_in. simpl. by rewrite !app_nil_r.
  - rewrite !bind_Ok. cbn [negb w_ch with_in with_mem with_ch fst snd]. rewrite Es, bind_Ok.
    unfold with_ch, with_in. simpl. by rewrite !app_nil_r.
Qed.

(** A chunk that is already there: the payload is discarded, an ACK is sent again. *)
Lemma recvData_dup w wid ck chunk payload rest pt r :
  at_chunk w chunk pt r → ct_status (rt_chunks r) (dh_index chunk) = kDone →
  hb_len (dh_base chunk) = Z.of_nat (length payload) →
  inbound (w_ch w) = payload ++ rest →
  ∃ c', became (w_ch w) c' rest (outbound (w_ch w) ++ data_bytes (ack_of chunk wid kDone ck)) ∧
    recvDataStream w chunk wid ck =
    Ok (mkWorld c' (w_out w) (w_in w) (w_mem w) (w_evs w), true).
Proof.
  intros Hat He Hlen Hin. destruct (at_chunk_lookups _ _ _ _ Hat) as (Hck & Haddr & Hfind).
  pose proof Hat as [Hu Hd Hp Hr Hw Hi [Ha Ho]].
  destruct (drainStream_spec (w_ch w) payload rest Hu Hin) as (c1 & Er & Hb1).
  destruct (sendAck_stream c1 (StampRxTrace chunk wid kDone
    (if IsTraced (dh_trace chunk) then ck_start ck else 0)
    (if IsTraced (dh_trace chunk) then ck_acquired ck else 0) (ck_done ck))) as (c2 & Es & Hb2);
    [apply Hb1|by rewrite stamp_is_data|].
  pose proof Hb1 as (_ & _ & Hi1 & Ho1). rewrite Hi1, Ho1 in Hb2.
  exists c2. split; [by eapply became_trans|].
  unfold recvDataStream. rewrite data_not_ack, Hck, Haddr by done.
  rewrite (proj2 (Z.eqb_neq _ 0)) by lia. rewrite Hfind, bind_Ok.
  rewrite acquire_done by (done || by apply (ptwf_reqs pt Hw (dh_reqid chunk))). rewrite bind_Ok.
  rewrite (Find_put_eq _ _ _ _ _ _ _ Hp Hr). cbn [w_ch with_in]. rewrite Hlen, Er, bind_Ok, Es, bind_Ok.
  unfold with_ch, with_in. simpl. rewrite app_nil_r. repeat f_equal.
  unfold set_chunks. destruct r as [rc ra rm]. unfold with_chunks. simpl.
  rewrite insert_id by done. destruct pt. unfold with_req_map, put. simpl in *.
  rewrite insert_id by done. apply with_trackers_id.
Qed.
End Stream.
