(* ===== verification/PostDelivery.v ===== *)
(** A whole write post received on one reliable stream: the [PostInfo] message followed by
    data chunks in any order, with any repetition.  The invariant relates the incoming
    tracker, memory and the calls made to the set of chunks received so far. *)

From stdpp Require Import base tactics list list_numbers numbers gmap fin_maps.
From S2P Require Import Prelude Codec Types IpAddr Endpoint Bitset ChunkTracker Header.
From S2P Require Import HeaderFlatbuf RequestTracker Channel Transfer Worker TransferStream.
From S2P Require Import MemChannel.
Local Open Scope Z_scope.

(** * Messages of a post *)

(** A data chunk as the sender emits it: the request it belongs to, header and payload. *)
Record chunk_msg := mkMsg { m_req : RequestInfo; m_hdr : DataHeader; m_payload : bytes }.

Definition m_key (m : chunk_msg) : ReqId * Z := (dh_reqid (m_hdr m), dh_index (m_hdr m)).
Definition msg_bytes (m : chunk_msg) : bytes := data_bytes (m_hdr m) ++ m_payload m.

(** The receive callbacks among the calls made. *)
Definition recv_posts (evs : list event) : list (Status * Metadata * list Metadata) :=
  omap (λ e, match e with EvRecvPost s p r => Some (s, p, r) | _ => None end) evs.
Lemma recv_posts_app a b : recv_posts (a ++ b) = recv_posts a ++ recv_posts b.
Proof. unfold recv_posts. by rewrite omap_app. Qed.

Section Post.
(** The post: its handle, its requests, and where each request's bytes go. *)
Context (h : Handle) (reqs : list RequestInfo) (dst : RequestInfo → Z).

Definition m_addr (m : chunk_msg) : Z := dst (m_req m) + dh_byte_offset (m_hdr m).
Definition m_len (m : chunk_msg) : Z := Z.of_nat (length (m_payload m)).

Record msg_ok (m : chunk_msg) : Prop := {
  mo_req : m_req m ∈ reqs;
  mo_wf : data_wf (m_hdr m);
  mo_data : DataHeader_IsData (m_hdr m) = true;
  mo_handle : hb_handle (dh_base (m_hdr m)) = h;
  mo_reqid : dh_reqid (m_hdr m) = ri_reqid (m_req m);
  mo_index : 0 ≤ dh_index (m_hdr m) < ri_nchunks (m_req m);
  mo_len : hb_len (dh_base (m_hdr m)) = m_len m;
  mo_dst : dst (m_req m) ≠ 0;
  mo_addr : 0 < m_addr m < 2 ^ 64;
}.

(** Same chunk, same bytes at the same place; different chunks, different places. *)
Definition compatible (m1 m2 : chunk_msg) : Prop :=
  if decide (m_key m1 = m_key m2)
  then m_addr m1 = m_addr m2 ∧ m_payload m1 = m_payload m2
  else m_addr m1 + m_len m1 ≤ m_addr m2 ∨ m_addr m2 + m_len m2 ≤ m_addr m1.

(** * Requests whose chunks have all been received *)

Definition covered (del : list (ReqId * Z)) (r : RequestInfo) : Prop :=
  Forall (λ i, (ri_reqid r, i) ∈ del) (seqZ 0 (ri_nchunks r)).
#[local] Instance covered_dec del r : Decision (covered del r).
Proof. unfold covered. apply _. Defined.
Definition undone (del : list (ReqId * Z)) : list RequestInfo := filter (λ r, ¬ covered del r) reqs.

Lemma covered_spec del r :
  covered del r ↔ ∀ i, 0 ≤ i < ri_nchunks r → (ri_reqid r, i) ∈ del.
Proof.
  unfold covered. rewrite list.Forall_forall. setoid_rewrite elem_of_seqZ.
  split; intros Hc i Hi; apply Hc; lia.
Qed.

Lemma covered_other del k r : k.1 ≠ ri_reqid r → covered (k :: del) r ↔ covered del r.
Proof.
  intros Hne. rewrite !covered_spec. split; intros Hc i Hi; [|right; auto].
  destruct (proj1 (elem_of_cons _ _ _) (Hc i Hi)) as [E|]; [|done].
  rewrite <- E in Hne. done.
Qed.

Lemma covered_mono del k r : covered del r → covered (k :: del) r.
Proof. rewrite !covered_spec. intros Hc i Hi. right. auto. Qed.

Lemma reqid_inj r1 r2 : NoDup (ri_reqid <$> reqs) → r1 ∈ reqs → r2 ∈ reqs →
  ri_reqid r1 = ri_reqid r2 → r1 = r2.
Proof.
  intros Hnd H1 H2 E. apply list_elem_of_lookup in H1 as [i Hi], H2 as [j Hj].
  assert (i = j) as ->; [|congruence].
  eapply (NoDup_lookup _ _ _ (ri_reqid r1) Hnd); rewrite list_lookup_fmap, ?Hi, ?Hj; simpl; congruence.
Qed.

(** One more chunk of an uncovered request removes that request or nothing. *)
Lemma undone_step del k r : NoDup (ri_reqid <$> reqs) → r ∈ reqs → k.1 = ri_reqid r →
  ¬ covered del r →
  length (undone del) = (length (undone (k :: del)) + (if decide (covered (k :: del) r) then 1 else 0))%nat.
Proof.
  intros Hnd Hr Hk Hnc. unfold undone.
  pose proof (NoDup_fmap_1 _ _ Hnd) as Hnd'.
  destruct (list_elem_of_split _ _ Hr) as (l1 & l2 & El).
  assert (∀ l : list RequestInfo, (∀ x, x ∈ l → x ∈ reqs ∧ x ≠ r) →
    filter (λ r, ¬ covered (k :: del) r) l = filter (λ r, ¬ covered del r) l) as Hsame.
  { intros l Hl. apply filter_ext_elem. intros x Hx. destruct (Hl x Hx) as [Hin Hne].
    rewrite covered_other; [done|]. rewrite Hk. intros E. by destruct Hne, (reqid_inj x r). }
  rewrite El in Hnd'. apply NoDup_app in Hnd' as (_ & Hd & Hnd2). apply NoDup_cons in Hnd2 as [Hr2 _].
  rewrite El, !filter_app, !filter_cons, !length_app.
  rewrite (Hsame l1), (Hsame l2).
  - rewrite (decide_True (P := ¬ covered del r)) by done.
    destruct (decide (covered (k :: del) r)) as [Hc|Hc].
    + rewrite (decide_False (P := ¬ covered (k :: del) r)) by tauto. simpl. lia.
    + rewrite (decide_True (P := ¬ covered (k :: del) r)) by tauto. simpl. lia.
  - intros x Hx. split; [set_solver|]. by intros ->.
  - intros x Hx. split; [set_solver|]. intros ->. apply (Hd r); set_solver.
Qed.

Lemma undone_nil : Forall req_ok reqs → undone [] = reqs.
Proof.
  intros Hf. apply filter_all_elem. eapply Forall_impl; [exact Hf|]. intros r Hok.
  apply req_ok_nchunks in Hok. rewrite covered_spec. intros Hc.
  specialize (Hc 0 ltac:(lia)). set_solver.
Qed.

(** * The receiver's invariant *)

(** The requests of a tracker entry after the chunks [del] have been done. *)
Record req_inv (pt : PostTracker) (del : list (ReqId * Z)) : Prop := {
  qi_wf : pt_wf pt;
  qi_reqs : ∀ r, r ∈ reqs → ∃ rt, pt_req_map pt !! ri_reqid r = Some rt ∧
    rt_raddr rt = dst r ∧ ct_total (rt_chunks rt) = ri_nchunks r ∧
    ∀ i, 0 ≤ i < ri_nchunks r → ct_status (rt_chunks rt) i =
      if decide ((ri_reqid r, i) ∈ del) then kDone else kEmpty;
  qi_ids : ∀ id rt, pt_req_map pt !! id = Some rt → ∃ r, r ∈ reqs ∧ ri_reqid r = id;
}.

Lemma req_complete pt del : req_inv pt del → reqs ≠ [] → isComplete pt = true ↔ undone del = [].
Proof.
  intros [Hwf Hr Hid] Hne. rewrite isComplete_spec by apply Hwf. split.
  - intros [_ Hall]. apply elem_of_nil_inv. intros r Hf.
    apply list_elem_of_filter in Hf as [Hnc Hin]. apply Hnc, covered_spec. intros i Hi. destruct (Hr r Hin) as (rt & Hl & _ & Ht & Hs).
    specialize (Hall _ _ Hl i ltac:(lia)). rewrite Hs in Hall by done. by case_decide.
  - intros Hu. split.
    + destruct reqs as [|r0 rs]; [done|]. destruct (Hr r0 ltac:(left)) as (rt & Hl & _).
      intros E. by rewrite E, lookup_empty in Hl.
    + apply map_Forall_lookup_2. intros id rt Hl i Hi. destruct (Hid _ _ Hl) as (r & Hin & <-).
      destruct (Hr r Hin) as (rt' & Hl' & _ & Ht & Hs). simplify_eq. rewrite Ht in Hi.
      rewrite Hs by done. rewrite decide_True; [done|].
      assert (covered del r) as Hc.
      { destruct (decide (covered del r)); [done|]. exfalso.
        apply (filter_nil_not_elem_of (λ r, ¬ covered del r) reqs r); done. }
      by apply covered_spec.
Qed.

(** One chunk more. *)
Lemma req_mark pt del r i rt t2 : NoDup (ri_reqid <$> reqs) → req_inv pt del → r ∈ reqs →
  pt_req_map pt !! ri_reqid r = Some rt → ct_wf t2 → ct_total t2 = ct_total (rt_chunks rt) →
  (∀ j, ct_status t2 j = upd (ct_status (rt_chunks rt)) i kDone j) →
  (ChunkTracker_IsDone t2 = true ↔ covered ((ri_reqid r, i) :: del) r) ∧
  req_inv (set_chunks pt (ri_reqid r) rt t2) ((ri_reqid r, i) :: del).
Proof.
  intros Hnd [Hwf Hr Hid] Hin Hl Hw2 Ht2 Hs2. destruct (Hr _ Hin) as (rt' & Hl' & Hra & Ht & Hs). simplify_eq.
  assert (∀ j, 0 ≤ j < ri_nchunks r → ct_status t2 j =
    if decide ((ri_reqid r, j) ∈ (ri_reqid r, i) :: del) then kDone else kEmpty) as Hst.
  { intros j Hj. rewrite Hs2. unfold upd. destruct (decide (j = i)) as [->|Hne].
    - rewrite decide_True; [done|]. by left.
    - rewrite Hs by done. apply decide_ext. set_solver. }
  split.
  { rewrite ChunkTracker_IsDone_spec by done. rewrite covered_spec. unfold all_done.
    rewrite Ht2, Ht. split; intros Hall j Hj; specialize (Hall j Hj).
    - rewrite Hst in Hall by done. by case_decide.
    - rewrite Hst by done. by rewrite decide_True. }
  split.
  - by apply put_req_wf.
  - intros r' Hrin. cbn [pt_req_map set_chunks with_req_map].
    destruct (decide (r' = r)) as [->|Hne].
    + exists (with_chunks rt t2). rewrite lookup_insert_eq. split; [done|].
      split; [done|]. split; [simpl; lia|]. done.
    + destruct (Hr r' Hrin) as (rt2 & Hlr & Hrr & Htr & Hsr). exists rt2.
      assert (ri_reqid r' ≠ ri_reqid r) as Hid' by (intros E; apply Hne; by apply reqid_inj).
      rewrite lookup_insert_ne by congruence. split; [done|]. split; [done|]. split; [done|].
      intros j Hj. rewrite Hsr by done. apply decide_ext.
      rewrite elem_of_cons. split; [by right|]. intros [E|]; [|done]. congruence.
  - intros id rt2. cbn [pt_req_map set_chunks with_req_map]. destruct (decide (id = ri_reqid r)) as [->|Hne].
    + intros _. eauto.
    + rewrite lookup_insert_ne by done. apply Hid.
Qed.

(** The entry of a received post, after the chunks [del]. *)
Record entry_inv (pt : PostTracker) (del : list (ReqId * Z)) : Prop := {
  ei_req : req_inv pt del;
  ei_remote : pt_is_initiator pt = false;
  ei_pending : pt_pending_reqs pt = Z.of_nat (length (undone del));
}.

Lemma req_inv_same pt pt' del : pt_wf pt' → pt_req_map pt' = pt_req_map pt → req_inv pt del → req_inv pt' del.
Proof. intros Hw E [_ Hr Hi]. split; [done|rewrite E..]; done. Qed.

(** A chunk that was not received yet. *)
Lemma entry_deliver pt del m rt t2 : NoDup (ri_reqid <$> reqs) → entry_inv pt del → msg_ok m →
  m_key m ∉ del → pt_req_map pt !! dh_reqid (m_hdr m) = Some rt → ct_wf t2 →
  ct_total t2 = ct_total (rt_chunks rt) →
  (∀ j, ct_status t2 j = upd (ct_status (rt_chunks rt)) (dh_index (m_hdr m)) kDone j) →
  (ChunkTracker_IsDone t2 = true ↔ covered (m_key m :: del) (m_req m)) ∧
  length (undone del) = (length (undone (m_key m :: del)) +
                         (if ChunkTracker_IsDone t2 then 1 else 0))%nat ∧
  entry_inv (with_pending (set_chunks pt (dh_reqid (m_hdr m)) rt t2)
               (Z.of_nat (length (undone (m_key m :: del))))) (m_key m :: del).
Proof.
  intros Hnd [Hq Hrem Hpend] [Hin Hmw Hmd Hmh Hmr Hmi Hml Hmz Hma] Hfresh Hl Hw2 Ht2 Hs2.
  rewrite Hmr in Hl |- *. destruct (req_mark pt del (m_req m) (dh_index (m_hdr m)) rt t2 Hnd Hq Hin Hl Hw2 Ht2 Hs2) as [Hdone Hq2].
  assert (m_key m = (ri_reqid (m_req m), dh_index (m_hdr m))) as Ek by (unfold m_key; by rewrite Hmr). rewrite <- Ek in Hdone, Hq2.
  assert (¬ covered del (m_req m)) as Hnc by (rewrite covered_spec; intros Hc; apply Hfresh; rewrite Ek; auto).
  split; [done|]. split.
  { rewrite (undone_step del (m_key m) (m_req m)) by (done || by rewrite Ek). f_equal.
    destruct (ChunkTracker_IsDone t2); case_decide; try done; exfalso; naive_solver. }
  split; [|done..]. by apply (req_inv_same (set_chunks pt (ri_reqid (m_req m)) rt t2)); [apply with_pending_wf, Hq2|..].
Qed.

(** Receiving a chunk again adds nothing. *)
Lemma undone_dup del k : k ∈ del → undone (k :: del) = undone del.
Proof.
  intros Hk. apply filter_ext_elem. intros r _. rewrite !covered_spec.
  split; intros Hn Hc; apply Hn; intros i Hi; specialize (Hc i Hi); set_solver.
Qed.
Lemma req_dup pt del k : k ∈ del → req_inv pt del → req_inv pt (k :: del).
Proof.
  intros Hk [Hwf Hr Hid]. split; [done| |done].
  intros r Hin. destruct (Hr r Hin) as (rt & Hl & Ha & Ht & Hs). exists rt.
  split; [done|]. split; [done|]. split; [done|]. intros i Hi. rewrite Hs by done.
  apply decide_ext. set_solver.
Qed.
Lemma entry_dup pt del k : k ∈ del → entry_inv pt del → entry_inv pt (k :: del).
Proof. intros Hk [Hq Hrem Hpend]. split; [by apply req_dup|done|by rewrite undone_dup]. Qed.

(** Completion of a request of a remote post. *)
Lemma OnReqComplete_remote rk peer pt n now : rk_trackers rk !! (peer, h) = Some pt →
  pt_is_initiator pt = false → rk_recv_post rk = true →
  pt_pending_reqs pt = Z.of_nat (S n) → Z.of_nat n < 2 ^ 64 →
  ∃ evs, OnReqComplete rk h peer now = Ok (put rk (peer, h) (with_pending pt (Z.of_nat n)), evs) ∧
    length (recv_posts evs) = (if decide (n = 0) then 1 else 0)%nat.
Proof.
  intros Hl Hi Hp Hn Hb. unfold OnReqComplete. rewrite Hl.
  rewrite bind_dcheck by (apply Z.ltb_lt; lia). rewrite Hn.
  rewrite wrap_small by (unfold fits; lia). replace (Z.of_nat (S n) - 1) with (Z.of_nat n) by lia.
  cbn [with_pending pt_pending_reqs].
  destruct (Z.of_nat n =? 0) eqn:E; to_prop; cbn [negb].
  - rewrite Hi, Hp. eexists. split; [done|]. rewrite recv_posts_app, length_app.
    rewrite decide_True by lia. by destruct (negb _).
  - eexists. split; [done|]. by rewrite decide_False by lia.
Qed.

(** An ACK of [m]. *)
Record is_ack_of (m : chunk_msg) (a : DataHeader) : Prop := {
  ia_wf : data_wf a; ia_ack : DataHeader_IsAck a = true;
  ia_handle : hb_handle (dh_base a) = h; ia_key : (dh_reqid a, dh_index a) = m_key m;
}.

Lemma ack_of_is_ack m wid s ck : msg_ok m → is_ack_of m (ack_of (m_hdr m) wid s ck).
Proof.
  intros [Hin Hw Hd Hh Hr Hi Hl _ Ha]. unfold ack_of. split.
  - destruct Hw as ((Ho & Hhd & _) & H2 & H3 & H4 & H5 & (T1 & T2 & T3 & T4 & T5)).
    unfold StampRxTrace. destruct (negb _); simpl.
    + split; [done|]. done.
    + split; [done|]. split; [done|]. split; [done|]. split; [done|]. split; [done|].
      simpl. split; [done|]. unfold SetRx. simpl.
      rewrite ClampU32_spec, ClampU16_spec by (unfold wrap; apply Z.mod_pos_bound; lia).
      rewrite ClampI8_spec.
      pose proof (wrap_fits 64 (ck_done ck - (if IsTraced (dh_trace (m_hdr m)) then ck_acquired ck else 0)) ltac:(lia)) as [? _].
      pose proof (wrap_fits 64 ((if IsTraced (dh_trace (m_hdr m)) then ck_acquired ck else 0) -
        (if IsTraced (dh_trace (m_hdr m)) then ck_start ck else 0)) ltac:(lia)) as [? _].
      split; [unfold fits; lia|]. split; [unfold fits; lia|]. split; [lia|].
      by destruct s.
  - apply ack_is_ack. by rewrite stamp_is_data.
  - unfold StampRxTrace. by destruct (negb _).
  - unfold StampRxTrace. by destruct (negb _).
Qed.

(** * One message *)

Context {C : Type} `{StreamLaws C} (peer : Endpoint).

Record rx_inv (w0 w : world C) (rcvd : list chunk_msg) : Prop := {
  rx_usable : usable (w_ch w);
  rx_peer : GetPeer (w_ch w) = peer;
  rx_entry : ∃ pt, rk_trackers (w_in w) !! (peer, h) = Some pt ∧ entry_inv pt (m_key <$> rcvd);
  rx_recv_post : rk_recv_post (w_in w) = true;
  rx_evs : ∃ evs, w_evs w = w_evs w0 ++ evs ∧
    length (recv_posts evs) = (if decide (undone (m_key <$> rcvd) = []) then 1 else 0)%nat;
  rx_mem : ∀ m, m ∈ rcvd → read_mem (w_mem w) (m_addr m) (m_len m) = Some <$> m_payload m;
  rx_mem_other : ∀ x, (∀ m, m ∈ rcvd → x < m_addr m ∨ m_addr m + m_len m ≤ x) →
    w_mem w !! x = w_mem w0 !! x;
  rx_out : w_out w = w_out w0;
}.

Lemma rx_at_chunk w0 w rcvd m c1 i o : rx_inv w0 w rcvd → msg_ok m → became (w_ch w) c1 i o →
  ∃ pt rt, at_chunk (with_ch w c1) (m_hdr m) pt rt ∧ entry_inv pt (m_key <$> rcvd) ∧
    rt_raddr rt = dst (m_req m) ∧
    ct_status (rt_chunks rt) (dh_index (m_hdr m)) =
      (if decide (m_key m ∈ m_key <$> rcvd) then kDone else kEmpty).
Proof.
  intros [Hu Hp (pt & Hl & He) _ _ _ _ _] [Hin Hw Hd Hh Hr Hi Hlen Hz Ha] (Hu1 & Hp1 & _).
  destruct (qi_reqs pt _ (ei_req _ _ He) _ Hin) as (rt & Hlr & Hra & Ht & Hs). exists pt, rt.
  split; [|split; [done|split; [done|]]].
  - split; [done|done| |by rewrite Hr|apply He|lia|by rewrite Hra].
    simpl. by rewrite Hp1, Hp, Hh.
  - rewrite Hs by done. unfold m_key. by rewrite Hr.
Qed.

Lemma undone_pos del m : msg_ok m → m_key m ∉ del → undone del ≠ [].
Proof.
  intros Hm Hk Hz.
  apply (filter_nil_not_elem_of (λ r, ¬ covered del r) reqs (m_req m)); [done| |apply Hm].
  rewrite covered_spec. intros Hc. apply Hk. unfold m_key. rewrite (mo_reqid m Hm).
  apply Hc, Hm.
Qed.

Lemma with_pending_id pt n : pt_pending_reqs pt = n → with_pending pt n = pt.
Proof. intros <-. by destruct pt. Qed.

(** The tracker after the last step of a fresh chunk. *)
Lemma deliver_tracker rk pt rt t2 m del now : NoDup (ri_reqid <$> reqs) →
  Z.of_nat (length reqs) < 2 ^ 32 → rk_recv_post rk = true → entry_inv pt del → msg_ok m →
  m_key m ∉ del → pt_req_map pt !! dh_reqid (m_hdr m) = Some rt → ct_wf t2 →
  ct_total t2 = ct_total (rt_chunks rt) →
  (∀ j, ct_status t2 j = upd (ct_status (rt_chunks rt)) (dh_index (m_hdr m)) kDone j) →
  let rk1 := put rk (peer, h) (set_chunks pt (dh_reqid (m_hdr m)) rt t2) in
  ∃ rk2 ev2, (if ChunkTracker_IsDone t2 then OnReqComplete rk1 h peer now else Ok (rk1, []))
      = Ok (rk2, ev2) ∧ rk_recv_post rk2 = true ∧
    (∃ pt2, rk_trackers rk2 !! (peer, h) = Some pt2 ∧ entry_inv pt2 (m_key m :: del)) ∧
    length (recv_posts ev2) = (if decide (undone (m_key m :: del) = []) then 1 else 0)%nat.
Proof.
  intros Hnd Hmax Hrp He Hm Hfresh Hlr Hw2 Ht2 Hs2 rk1.
  destruct (entry_deliver pt del m rt t2 Hnd He Hm Hfresh Hlr Hw2 Ht2 Hs2) as (Hd & Hun & He').
  assert (length (undone (m_key m :: del)) ≤ length reqs)%nat as Hle by apply length_filter.
  pose proof (ei_pending pt _ He) as Hpend.
  destruct (ChunkTracker_IsDone t2).
  - destruct (OnReqComplete_remote rk1 peer (set_chunks pt (dh_reqid (m_hdr m)) rt t2)
      (length (undone (m_key m :: del))) now) as (ev2 & E & Hcnt).
    + apply put_lookup.
    + apply (ei_remote pt _ He).
    + done.
    + simpl. rewrite Hpend, Hun. lia.
    + lia.
    + eexists _, ev2. split; [done|]. split; [done|]. split.
      * eexists. split; [apply put_lookup|done].
      * rewrite Hcnt. apply decide_ext. apply length_zero_iff_nil.
  - eexists rk1, []. split; [done|]. split; [done|]. split.
    + eexists. split; [apply put_lookup|]. rewrite with_pending_id in He'; [done|].
      simpl. rewrite Hpend, Hun. f_equal. lia.
    + rewrite decide_False; [done|]. rewrite <- length_zero_iff_nil.
      pose proof (undone_pos del m Hm Hfresh) as Hp. rewrite <- length_zero_iff_nil in Hp. lia.
Qed.

(** A repeated message finds its payload stored. *)
Lemma stored_again w0 w rcvd m : rx_inv w0 w rcvd → m_key m ∈ m_key <$> rcvd →
  (∀ m', m' ∈ rcvd → compatible m m') →
  read_mem (w_mem w) (m_addr m) (m_len m) = Some <$> m_payload m.
Proof.
  intros [_ _ _ _ _ Hmem _ _] (m0 & Hk & Hm0)%list_elem_of_fmap Hc. specialize (Hc m0 Hm0).
  unfold compatible in Hc. rewrite decide_True in Hc by done. destruct Hc as [Ha Hpl].
  rewrite Hpl. unfold m_len. rewrite Hpl, Ha. by apply Hmem.
Qed.

(** Storing a new message leaves the others. *)
Lemma stored_new mm rcvd m : (∀ m', m' ∈ rcvd → read_mem mm (m_addr m') (m_len m') = Some <$> m_payload m') →
  m_key m ∉ m_key <$> rcvd → (∀ m', m' ∈ rcvd → compatible m m') →
  ∀ m', m' ∈ m :: rcvd →
  read_mem (write_mem mm (m_addr m) (m_payload m)) (m_addr m') (m_len m') = Some <$> m_payload m'.
Proof.
  intros Hmem Hfresh Hc m' [->|Hm']%elem_of_cons; [apply read_write_mem|].
  specialize (Hc m' Hm'). unfold compatible in Hc.
  rewrite decide_False in Hc by (intros E; apply Hfresh; rewrite E; by apply list_elem_of_fmap_2).
  rewrite read_mem_outside; [by apply Hmem|]. unfold m_len, m_addr in *. lia.
Qed.
Lemma untouched_new (mm mm0 : mem) rcvd m :
  (∀ x, (∀ m', m' ∈ rcvd → x < m_addr m' ∨ m_addr m' + m_len m' ≤ x) → mm !! x = mm0 !! x) →
  ∀ x, (∀ m', m' ∈ m :: rcvd → x < m_addr m' ∨ m_addr m' + m_len m' ≤ x) → write_mem mm (m_addr m) (m_payload m) !! x = mm0 !! x.
Proof.
  intros Hmo x Hx. rewrite write_mem_outside.
  - apply Hmo. intros m' Hm'. apply Hx. by right.
  - specialize (Hx m ltac:(left)). unfold m_len, m_addr in *. lia.
Qed.

(** A chunk that is not there yet, whatever the entry is used for. *)
Lemma recv_fresh w wid ck m rest pt del : usable (w_ch w) → GetPeer (w_ch w) = peer →
  rk_trackers (w_in w) !! (peer, h) = Some pt → req_inv pt del → msg_ok m → m_key m ∉ del →
  inbound (w_ch w) = msg_bytes m ++ rest →
  ∃ c' a rt t2, usable c' ∧ GetPeer c' = peer ∧ inbound c' = rest ∧ is_ack_of m a ∧
    outbound c' = outbound (w_ch w) ++ data_bytes a ∧
    pt_req_map pt !! dh_reqid (m_hdr m) = Some rt ∧ ct_wf t2 ∧ ct_total t2 = ct_total (rt_chunks rt) ∧
    (∀ j, ct_status t2 j = upd (ct_status (rt_chunks rt)) (dh_index (m_hdr m)) kDone j) ∧
    let rk1 := put (w_in w) (peer, h) (set_chunks pt (dh_reqid (m_hdr m)) rt t2) in
    Recv w wid ck = (let* r2 := if ChunkTracker_IsDone t2 then OnReqComplete rk1 h peer (ck_now ck) else Ok (rk1, []) in
      Ok (mkWorld c' (w_out w) r2.1 (write_mem (w_mem w) (m_addr m) (m_payload m)) (w_evs w ++ r2.2), true)).
Proof.
  intros Hu Hp Hl Hq Hm Hfresh Hin. pose proof Hm as [Hreq Hw Hd Hh Hr Hi Hlen Hz Ha].
  assert (m_len m < 2 ^ 32) as Hlen32 by (rewrite <- Hlen; destruct Hw as ((_ & _ & [_ ?]) & _); done).
  unfold msg_bytes in Hin. rewrite <- app_assoc in Hin. rewrite Recv_stream.
  destruct (recvStream_header w wid ck _ _ Hu Hin (data_bytes_length _)) as (c1 & Hb1 & ->).
  rewrite deserialize_data by (done || by apply data_valid_of_data).
  pose proof Hb1 as (Hu1 & Hp1 & Hi1 & Ho1). destruct (qi_reqs _ _ Hq _ Hreq) as (rt & Hlr & Hra & Ht & Hs). rewrite <- Hr in Hlr.
  assert (at_chunk (with_ch w c1) (m_hdr m) pt rt) as Hat.
  { split; [done|done| |done|apply Hq|lia|by rewrite Hra]. simpl. by rewrite Hp1, Hp, Hh. }
  destruct (recvData_fresh _ wid ck _ (m_payload m) rest _ _ Hat) as (c2 & t2 & Hb2 & Hw2 & Ht2 & Hs2 & ->); [|done..|].
  { rewrite Hs by done. rewrite decide_False; [done|]. by rewrite <- Hr. }
  pose proof Hb2 as (Hu2 & Hp2 & Hi2 & Ho2). cbn [w_ch with_ch w_in w_mem w_evs w_out fst snd] in *.
  exists c2, (ack_of (m_hdr m) wid kEmpty ck), rt, t2. split; [done|]. split; [congruence|]. split; [done|].
  split; [by apply ack_of_is_ack|]. split; [by rewrite Ho2, Ho1|]. do 4 (split; [done|]). rewrite Hp1, Hp, Hh, Hra. done.
Qed.

Lemma rx_step w0 w rcvd m rest wid ck : NoDup (ri_reqid <$> reqs) →
  Z.of_nat (length reqs) < 2 ^ 32 → rx_inv w0 w rcvd → msg_ok m →
  (∀ m', m' ∈ rcvd → compatible m m') → inbound (w_ch w) = msg_bytes m ++ rest →
  ∃ w' a, Recv w wid ck = Ok (w', true) ∧ rx_inv w0 w' (m :: rcvd) ∧ is_ack_of m a ∧
    inbound (w_ch w') = rest ∧ outbound (w_ch w') = outbound (w_ch w) ++ data_bytes a.
Proof.
  intros Hnd Hmax Hinv Hm Hc Hin.
  pose proof Hinv as [Hu Hp Hent Hrp (evs & Hev & Hcnt) Hmem Hmo Hout].
  destruct (decide (m_key m ∈ m_key <$> rcvd)) as [Hdup|Hfresh].
  - unfold msg_bytes in Hin. rewrite <- app_assoc in Hin. rewrite Recv_stream.
    destruct (recvStream_header w wid ck _ _ Hu Hin (data_bytes_length _)) as (c1 & Hb1 & ->).
    rewrite deserialize_data by (apply Hm || by apply data_valid_of_data, Hm).
    destruct (rx_at_chunk _ _ _ _ _ _ _ Hinv Hm Hb1) as (pt & rt & Hat & He & Hra & Hst).
    rewrite decide_True in Hst by done. pose proof Hb1 as (_ & Hp1 & Hi1 & Ho1).
    destruct (recvData_dup _ wid ck _ (m_payload m) rest _ _ Hat Hst (mo_len m Hm)) as (c2 & Hb2 & ->);
      [done|]. simpl in Hb2. eexists _, _. split; [done|].
    split; [|split; [by apply ack_of_is_ack|]].
    + pose proof Hb2 as (Hu2 & Hp2 & _). simpl in Hp2.
      split; simpl; [done|congruence| |done| | | |done].
      * destruct Hent as (pt' & Hl' & He'). exists pt'. split; [done|]. by apply entry_dup.
      * exists evs. split; [done|]. by rewrite undone_dup.
      * intros m' [->|Hm']%elem_of_cons; [by eapply stored_again|by apply Hmem].
      * intros x Hx. apply Hmo. intros m' Hm'. apply Hx. by right.
    + destruct Hb2 as (_ & _ & Hi2 & Ho2). simpl. split; [done|]. by rewrite Ho2, Ho1.
  - destruct Hent as (pt & Hl & He).
    destruct (recv_fresh w wid ck m rest pt _ Hu Hp Hl (ei_req _ _ He) Hm Hfresh Hin)
      as (c2 & a & rt & t2 & Hu2 & Hp2 & Hi2 & Ha & Ho2 & Hlr & Hw2 & Ht2 & Hs2 & E). cbv zeta in E. rewrite E.
    destruct (deliver_tracker (w_in w) pt rt t2 m (m_key <$> rcvd) (ck_now ck))
      as (rk2 & ev2 & -> & Hrp2 & Hent2 & Hcnt2); [done..|].
    rewrite bind_Ok. eexists _, a. split; [done|]. split; [|done].
    split; simpl; [done|done|done|done| | | |done].
    + exists (evs ++ ev2). rewrite Hev, <- app_assoc, recv_posts_app, length_app, Hcnt, Hcnt2.
      split; [done|]. rewrite (decide_False (P := undone (m_key <$> rcvd) = [])); [done|].
      by apply (undone_pos _ m).
    + by apply stored_new.
    + by apply untouched_new.
Qed.

(** * A sequence of messages *)

Lemma RecvLoop_ok wk w cks w' ck : wk_stop wk = false → Recv w (wk_id wk) ck = Ok (w', true) →
  RecvLoop wk w (ck :: cks) = RecvLoop wk w' cks.
Proof.
  intros Hs Hr. cbn [RecvLoop]. unfold RecvLoop_iter.
  destruct (st_type (w_ch w)) as (_ & _ & Ht). unfold IsTwoSidedChannel in Ht.
  apply negb_true_iff in Ht. by rewrite Ht, Hs, Hr.
Qed.

Lemma rx_run wk w0 ms : NoDup (ri_reqid <$> reqs) → Z.of_nat (length reqs) < 2 ^ 32 →
  wk_stop wk = false → ∀ w rcvd rest cks, rx_inv w0 w rcvd → Forall msg_ok ms →
  (∀ m1 m2, m1 ∈ ms → m2 ∈ ms ++ rcvd → compatible m1 m2) →
  inbound (w_ch w) = concat (msg_bytes <$> ms) ++ rest → length cks = length ms →
  ∃ w' acks, RecvLoop wk w cks = Ok (w', Continue) ∧ rx_inv w0 w' (reverse ms ++ rcvd) ∧
    Forall2 is_ack_of ms acks ∧ inbound (w_ch w') = rest ∧
    outbound (w_ch w') = outbound (w_ch w) ++ concat (data_bytes <$> acks).
Proof.
  intros Hnd Hmax Hstop. induction ms as [|m ms IH]; intros w rcvd rest cks Hinv Hok Hcomp Hin Hl.
  - destruct cks; [|done]. exists w, []. split; [done|]. split; [done|].
    split; [constructor|]. split; [done|]. by rewrite app_nil_r.
  - destruct cks as [|ck cks]; [done|]. inversion Hok as [|? ? Hm Hok']; subst.
    rewrite fmap_cons in Hin. cbn [concat] in Hin. rewrite <- app_assoc in Hin.
    destruct (rx_step w0 w rcvd m (concat (msg_bytes <$> ms) ++ rest) (wk_id wk) ck)
      as (w1 & a & Hr & Hinv1 & Ha & Hi1 & Ho1); [done..| |done|].
    { intros m' Hm'. apply Hcomp; [left|]. apply elem_of_app. by right. }
    rewrite (RecvLoop_ok _ _ _ _ _ Hstop Hr).
    destruct (IH w1 (m :: rcvd) rest cks Hinv1 Hok') as (w2 & acks & -> & Hinv2 & Hacks & Hi2 & Ho2).
    { intros m1 m2 Hm1 Hm2. apply Hcomp; [by right|]. set_solver. }
    { done. } { simpl in Hl. lia. }
    exists w2, (a :: acks). rewrite reverse_cons, <- app_assoc. split; [done|]. split; [done|].
    split; [by constructor|]. split; [done|].
    rewrite Ho2, Ho1, fmap_cons. cbn [concat]. by rewrite app_assoc.
Qed.
End Post.

(** * Registering the post *)

(** What the receiver must know about a post to accept it. *)
Record post_ok (rk : RequestTracker) (info : PostInfoHeader) (reqs : list RequestInfo) : Prop := {
  po_info_wf : postinfo_wf info;
  po_info_valid : PostInfoHeader_IsValid info = true;
  po_peer : HasNonzeroIpPort (pi_peer info) = true;
  po_len : hb_len (pi_base info) = Z.of_nat (length reqs) * kRequestInfoSize;
  po_nonempty : reqs ≠ [];
  po_reqs : Forall (λ r, reqinfo_wf r ∧ RequestInfo_IsValid r = true) reqs;
  po_ids : NoDup (ri_reqid <$> reqs);
  po_write : Forall (λ r, ri_op r = kWrite) reqs;
  po_resolved : Forall (λ r, resolve_raddr rk (pi_metadata info) r ≠ 0) reqs;
  po_tracker : rk_wf rk;
  po_callback : rk_recv_post rk = true;
  po_new : rk_trackers rk !! (pi_peer info, hb_handle (pi_base info)) = None;
}.

Lemma req_ok_of_wf r : reqinfo_wf r ∧ RequestInfo_IsValid r = true → req_ok r.
Proof. intros [(_ & ? & _) ?]. by split. Qed.

Lemma post_ok_count rk info reqs : post_ok rk info reqs → Z.of_nat (length reqs) < 2 ^ 32.
Proof.
  intros Hp. pose proof (po_len _ _ _ Hp) as Hl.
  destruct (po_info_wf _ _ _ Hp) as ((_ & _ & [_ Hf]) & _). rewrite Hl in Hf.
  unfold kRequestInfoSize, kSerializedRequestInfoSize in Hf. lia.
Qed.

(** A fresh entry satisfies the invariant with nothing done. *)
Lemma added_req rk old reqs start md : reqs ≠ [] → Forall req_ok reqs → NoDup (ri_reqid <$> reqs) →
  req_inv reqs (resolve_raddr rk md) (added rk old reqs start md) [].
Proof.
  intros Hne Hok Hnd. split.
  - by apply added_wf.
  - intros r Hin. exists (init_req rk md r).
    split; [by apply load_reqs_lookup|]. split; [done|]. split; [done|].
    intros i Hi. rewrite decide_False by set_solver. simpl.
    apply init_chunks_spec, req_ok_nchunks. rewrite list.Forall_forall in Hok. auto.
  - intros id rt Hl. simpl in Hl.
    destruct (decide (Exists (λ r, ri_reqid r = id) reqs)) as [He|Hn].
    + apply list.Exists_exists in He. naive_solver.
    + rewrite load_reqs_other in Hl; [by rewrite lookup_empty in Hl|].
      intros r Hr E. apply Hn, list.Exists_exists. eauto.
Qed.
Lemma added_entry rk info reqs start : post_ok rk info reqs →
  entry_inv reqs (resolve_raddr rk (pi_metadata info))
    (added rk None reqs start (pi_metadata info)) [].
Proof.
  intros Hp. assert (Forall req_ok reqs) as Hok
    by (eapply Forall_impl; [apply Hp|apply req_ok_of_wf]).
  split.
  - apply added_req; [apply Hp|done|apply Hp].
  - done.
  - rewrite (undone_nil reqs Hok). simpl.
    destruct reqs as [|r reqs]; [by destruct (po_nonempty _ _ _ Hp)|].
    pose proof (po_write _ _ _ Hp) as Hw. inversion Hw as [|? ? Hr _]; subst. simpl. by rewrite Hr.
Qed.

Section Delivery.
Context {C : Type} `{StreamLaws C}.

(** The state after the [PostInfo] message of a new post. *)
Lemma rx_info wid (w0 : world C) info reqs rest ck : post_ok (w_in w0) info reqs →
  usable (w_ch w0) → inbound (w_ch w0) = info_bytes info ++ store_requests reqs ++ rest →
  ∃ w, Recv w0 wid ck = Ok (w, true) ∧
    rx_inv (hb_handle (pi_base info)) reqs (resolve_raddr (w_in w0) (pi_metadata info))
      (pi_peer info) w0 w [] ∧
    inbound (w_ch w) = rest ∧ outbound (w_ch w) = outbound (w_ch w0).
Proof.
  intros Hp Hu Hin. pose proof Hp as [Hiw Hiv Hpr Hlen Hne Hrq Hnd Hwr Hres Hrk Hcb Hnew].
  destruct (recv_postinfo w0 wid ck info reqs rest) as (c' & Hu' & Hi' & Ho' & Hp' & Hr);
    [done..|].
  rewrite Hpr in Hp'.
  assert (Forall req_ok reqs) as Hok by (eapply Forall_impl; [exact Hrq|apply req_ok_of_wf]).
  rewrite Add_reqs_spec in Hr by done. rewrite Hnew in Hr.
  rewrite (decide_False (P := populated None)) in Hr by (intros []).
  rewrite decide_False, bind_Ok in Hr.
  2: { intros [_ Hx]. apply list.Exists_exists in Hx as (r & Hin' & Hz).
       rewrite list.Forall_forall in Hres. by apply (Hres r). }
  eexists. split; [exact Hr|].
  split; [|done]. split; simpl; [done|done| |done| | |done|done].
  - eexists. split; [apply put_lookup|]. by apply added_entry.
  - eexists. split; [done|]. rewrite (undone_nil reqs Hok), decide_False by done.
    unfold read_event. destruct reqs as [|r reqs]; [done|]. inversion Hwr as [|? ? Hrw _]; subst.
    simpl. by rewrite Hrw.
  - set_solver.
Qed.

Lemma rx_start wk (w0 : world C) info reqs rest cks ck : post_ok (w_in w0) info reqs →
  usable (w_ch w0) → wk_stop wk = false →
  inbound (w_ch w0) = info_bytes info ++ store_requests reqs ++ rest →
  ∃ w, RecvLoop wk w0 (ck :: cks) = RecvLoop wk w cks ∧
    rx_inv (hb_handle (pi_base info)) reqs (resolve_raddr (w_in w0) (pi_metadata info))
      (pi_peer info) w0 w [] ∧
    inbound (w_ch w) = rest ∧ outbound (w_ch w) = outbound (w_ch w0).
Proof.
  intros Hp Hu Hs Hin. destruct (rx_info (wk_id wk) w0 info reqs rest ck Hp Hu Hin) as (w & Hr & Hw).
  exists w. split; [by apply RecvLoop_ok|done].
Qed.

(** A [PostInfo] of a post that is already registered only tells the channel its peer. *)
Lemma rx_info_again wid w0 (w : world C) info reqs rest ck rcvd c dst :
  let h := hb_handle (pi_base info) in
  postinfo_wf info → PostInfoHeader_IsValid info = true → HasNonzeroIpPort (pi_peer info) = true →
  hb_len (pi_base info) = Z.of_nat (length reqs) * kRequestInfoSize → reqs ≠ [] →
  Forall (λ r, reqinfo_wf r ∧ RequestInfo_IsValid r = true) reqs →
  rx_inv h reqs dst (pi_peer info) w0 w rcvd → usable c →
  inbound c = info_bytes info ++ store_requests reqs ++ rest →
  ∃ c', Recv (with_ch w c) wid ck = Ok (with_ch w c', true) ∧ usable c' ∧
    GetPeer c' = pi_peer info ∧ inbound c' = rest ∧ outbound c' = outbound c.
Proof.
  intros h Hiw Hiv Hpr Hlen Hne Hrq Hinv Hu Hin.
  destruct (recv_postinfo (with_ch w c) wid ck info reqs rest) as (c' & Hu' & Hi' & Ho' & Hp' & Hr);
    [done..|].
  rewrite Hpr in Hp'. exists c'. split; [|done]. rewrite Hr.
  destruct (rx_entry _ _ _ _ _ _ _ Hinv) as (pt & Hpt & He).
  assert (pt_req_map pt ≠ ∅) as Hpop by apply (ptwf_nonempty _ (qi_wf _ _ _ _ (ei_req _ _ _ _ He))), He.
  cbn [w_in with_ch]. unfold Add_reqs. rewrite bind_dcheck by by rewrite bool_decide_false.
  fold h. rewrite Hpt. cbn [default]. rewrite (bool_decide_false (pt_req_map pt = ∅)) by done.
  cbn [negb]. rewrite bind_Ok. unfold with_in, with_ch. simpl. by rewrite app_nil_r.
Qed.

(** C4: A write post is delivered exactly once, whatever the order and repetition of its
    chunks.  Let a reliable stream carry the [PostInfo] of a valid new write post
    followed by any sequence of its data chunks, in any order and with any
    duplicates.  The receive loop consumes exactly these bytes without failing an
    assertion, stores each payload at its destination and touches no other memory,
    and answers each message with its ACK.  If every chunk of every request is in the
    sequence, the post is then complete and the receive callback has been called
    exactly once; otherwise it is in progress and the callback has not been called. *)
Theorem post_delivery (wk : Worker) (w0 : world C) (info : PostInfoHeader)
    (reqs : list RequestInfo) (ms : list chunk_msg) (rest : bytes) (cks : list clock) :
  let h := hb_handle (pi_base info) in
  let peer := pi_peer info in
  let dst := resolve_raddr (w_in w0) (pi_metadata info) in
  post_ok (w_in w0) info reqs → usable (w_ch w0) → wk_stop wk = false →
  Forall (msg_ok h reqs dst) ms → (∀ m1 m2, m1 ∈ ms → m2 ∈ ms → compatible dst m1 m2) →
  inbound (w_ch w0) = info_bytes info ++ store_requests reqs ++ concat (msg_bytes <$> ms) ++ rest →
  length cks = S (length ms) →
  ∃ w acks evs, RecvLoop wk w0 cks = Ok (w, Continue) ∧ inbound (w_ch w) = rest ∧
    Forall2 (is_ack_of h) ms acks ∧
    outbound (w_ch w) = outbound (w_ch w0) ++ concat (data_bytes <$> acks) ∧
    (∀ m, m ∈ ms → read_mem (w_mem w) (m_addr dst m) (m_len m) = Some <$> m_payload m) ∧
    (∀ x, (∀ m, m ∈ ms → x < m_addr dst m ∨ m_addr dst m + m_len m ≤ x) →
          w_mem w !! x = w_mem w0 !! x) ∧
    w_evs w = w_evs w0 ++ evs ∧
    (if decide (undone reqs (m_key <$> ms) = [])
     then Check_ (w_in w) h peer = kSuccess ∧ length (recv_posts evs) = 1%nat
     else Check_ (w_in w) h peer = kInProgress ∧ recv_posts evs = []).
Proof.
  intros h peer dst Hp Hu Hs Hok Hcomp Hin Hl. destruct cks as [|ck cks]; [done|].
  destruct (rx_start wk w0 info reqs (concat (msg_bytes <$> ms) ++ rest) cks ck Hp Hu Hs Hin)
    as (w1 & -> & Hinv1 & Hi1 & Ho1).
  destruct (rx_run h reqs dst peer wk w0 ms (po_ids _ _ _ Hp) (post_ok_count _ _ _ Hp) Hs
    w1 [] rest cks Hinv1 Hok) as (w & acks & E & Hinv & Hacks & Hi & Ho);
    [|done|simpl in Hl; lia|].
  { intros m1 m2 Hm1 Hm2. rewrite app_nil_r in Hm2. by apply Hcomp. }
  rewrite app_nil_r in Hinv.
  assert (undone reqs (m_key <$> reverse ms) = undone reqs (m_key <$> ms)) as Hun.
  { apply filter_ext_elem. intros r _. rewrite !covered_spec. rewrite fmap_reverse.
    by setoid_rewrite elem_of_reverse. }
  pose proof Hinv as [_ _ (pt & Hpt & He) _ (evs & Hev & Hcnt) Hm Hmo _].
  rewrite Hun in Hcnt. exists w, acks, evs. split; [done|]. split; [done|]. split; [done|].
  split; [congruence|]. split; [intros m Hin'; apply Hm; by apply elem_of_reverse|].
  split; [intros x Hx; apply Hmo; intros m Hin'; apply Hx; by apply elem_of_reverse|].
  split; [done|].
  pose proof (req_complete _ _ _ _ (ei_req _ _ _ _ He) (po_nonempty _ _ _ Hp)) as Hc. rewrite Hun in Hc.
  unfold Check_. rewrite Hpt. case_decide as Hd.
  - by rewrite (proj2 Hc Hd).
  - destruct (isComplete pt); [by destruct Hd, (proj1 Hc eq_refl)|].
    split; [done|]. by apply length_zero_iff_nil.
Qed.
End Delivery.

(** ** A concrete post: one request of five bytes in two chunks, the second sent twice *)

Definition sample_info : PostInfoHeader :=
  mkPostInfoHeader (mkHeaderBase kPostInfo 7 128) ep_sample Metadata_zero.
Definition sample_req : RequestInfo :=
  mkRequestInfo 1 2 4096 5 kWrite (mkRecipe 1 (replicate 32 0)) Metadata_zero.
Definition sample_chunk (i off len : Z) : DataHeader :=
  mkDataHeader (mkHeaderBase kData 7 len) 1 i off (4096 + off) ChunkTraceWire_default.
Definition sample_msgs : list chunk_msg :=
  [mkMsg sample_req (sample_chunk 1 3 2) [14; 15]; mkMsg sample_req (sample_chunk 0 0 3) [11; 12; 13];
   mkMsg sample_req (sample_chunk 1 3 2) [14; 15]].
Definition sample_stream : bytes :=
  info_bytes sample_info ++ store_requests [sample_req] ++ concat (msg_bytes <$> sample_msgs).
Definition sample_world : world Duplex :=
  mkWorld (set_in true dx_sample (mkMemPipe false [sample_stream]))
    (RequestTracker_new false None false) (RequestTracker_new true None true) ∅ [].

Lemma sample_post_ok : post_ok (RequestTracker_new true None true) sample_info [sample_req].
Proof.
  split; try done; try apply NoDup_singleton; try by repeat constructor.
Qed.

Lemma sample_msgs_ok : Forall (msg_ok 7 [sample_req] (resolve_raddr (RequestTracker_new true None true)
  Metadata_zero)) sample_msgs.
Proof.
  repeat constructor; try done; try (vm_compute; done);
    apply (bool_decide_eq_true _); vm_compute; reflexivity.
Qed.

Lemma post_delivery_witness : ∃ w acks evs,
  @RecvLoop _ (MemStreamChannel true) (Worker_new (-1)) sample_world
    (replicate 4 (mkClock 1 2 3 4)) = Ok (w, Continue) ∧
  Forall2 (is_ack_of 7) sample_msgs acks ∧ recv_posts evs ≠ [] ∧
  read_mem (w_mem w) 4096 3 = [Some 11; Some 12; Some 13].
Proof.
  destruct (@post_delivery Duplex (MemStreamChannel true) (mem_stream true) (MemStreamChannel_laws true)
    (Worker_new (-1)) sample_world sample_info [sample_req] sample_msgs []
    (replicate 4 (mkClock 1 2 3 4))) as (w & acks & evs & E & _ & Ha & _ & Hm & _ & _ & Hd).
  - exact sample_post_ok.
  - by split.
  - done.
  - exact sample_msgs_ok.
  - intros m1 m2 H1 H2. unfold sample_msgs in H1, H2.
    repeat (apply elem_of_cons in H1 as [->|H1]; [|try by apply elem_of_nil in H1]);
    repeat (apply elem_of_cons in H2 as [->|H2]; [|try by apply elem_of_nil in H2]);
    unfold compatible; (case_decide as Hk; [try discriminate Hk; by split | try by destruct Hk]);
    first [left; vm_compute; done | right; vm_compute; done].
  - vm_compute. reflexivity.
  - done.
  - exists w, acks, evs. split; [exact E|]. split; [exact Ha|]. split.
    + rewrite decide_True in Hd by (vm_compute; reflexivity). destruct Hd as [_ Hd].
      intros En. rewrite En in Hd. discriminate Hd.
    + apply (Hm (mkMsg sample_req (sample_chunk 0 0 3) [11; 12; 13])). right. left.
Defined.
