(* ===== verification/MultiStream.v ===== *)
(** A write post spread over several connections: every stream carries the [PostInfo] and its
    own share of the chunks, and the receiving workers, one per connection, share the
    incoming tracker and memory.  Their receive steps interleave in any order. *)

From stdpp Require Import base tactics list list_numbers numbers gmap fin_maps.
From S2P Require Import Prelude Codec Types IpAddr Endpoint Bitset ChunkTracker Header.
From S2P Require Import HeaderFlatbuf RequestTracker Channel Transfer Worker TransferStream.
From S2P Require Import PostDelivery MemChannel.
Local Open Scope Z_scope.

(** * The receiving host *)

Record host (C : Type) := mkHost {
  ho_chs : list C; ho_out : RequestTracker; ho_in : RequestTracker; ho_mem : mem; ho_evs : list event;
}.
Arguments mkHost {_} _ _ _ _ _.
Arguments ho_chs {_} _.
Arguments ho_out {_} _.
Arguments ho_in {_} _.
Arguments ho_mem {_} _.
Arguments ho_evs {_} _.

Section Host.
Context {C : Type} `{Channel C}.

Definition on_channel (s : host C) (c : C) : world C :=
  mkWorld c (ho_out s) (ho_in s) (ho_mem s) (ho_evs s).

(** Worker [j] (id [-(1 + j)]) handles one message of its channel. *)
Definition recv_on (s : host C) (j : nat) (ck : clock) : res (host C * bool) :=
  let* c := at_or OutOfRange (ho_chs s !! j) in
  let* '(w, ok) := Recv (on_channel s c) (- (1 + Z.of_nat j)) ck in
  Ok (mkHost (<[j := w_ch w]> (ho_chs s)) (w_out w) (w_in w) (w_mem w) (w_evs w), ok).

(** A schedule: which worker runs next. *)
Fixpoint host_run (s : host C) (sched : list (nat * clock)) : res (host C * bool) :=
  match sched with
  | [] => Ok (s, true)
  | (j, ck) :: sched' =>
      let* '(s, ok) := recv_on s j ck in if ok : bool then host_run s sched' else Ok (s, false)
  end.

Lemma host_run_length sched : ∀ s s' ok, host_run s sched = Ok (s', ok) → length (ho_chs s') = length (ho_chs s).
Proof.
  induction sched as [|[j ck] sched IH]; intros s s' ok E; [by injection E as <- _|]. cbn [host_run] in E.
  apply bind_Ok_inv in E as ([s1 b] & E1 & E). unfold recv_on in E1. apply bind_Ok_inv in E1 as (c & _ & E1).
  apply bind_Ok_inv in E1 as ([w b'] & _ & E1). injection E1 as <- <-. trans (length (<[j := w_ch w]> (ho_chs s))); [|apply length_insert].
  destruct b'; [by apply IH in E|by injection E as <- _].
Qed.
End Host.

(** * One stream: what has been received, what is left *)

Record stream := mkStream { sm_info : bool; sm_done : list chunk_msg; sm_todo : list chunk_msg }.

Definition left_on (st : stream) : nat := ((if sm_info st then 1 else 0) + length (sm_todo st))%nat.
Definition received (sts : list stream) (m : chunk_msg) : Prop :=
  ∃ j st, sts !! j = Some st ∧ m ∈ sm_done st.

Section Multi.
Context {C : Type} `{StreamLaws C} (info : PostInfoHeader) (reqs : list RequestInfo)
        (s0 : host C).
Let h := hb_handle (pi_base info).
Let peer := pi_peer info.
Let dst := resolve_raddr (ho_in s0) (pi_metadata info).

Definition wire (st : stream) : bytes :=
  (if sm_info st then info_bytes info ++ store_requests reqs else []) ++
  concat (msg_bytes <$> sm_todo st).

Record chan_ok (c0 c : C) (st : stream) : Prop := {
  co_usable : usable c;
  co_in : inbound c = wire st;
  co_peer : sm_info st = false → GetPeer c = peer;
  co_acks : ∃ acks, Forall2 (is_ack_of h) (sm_done st) acks ∧
                    outbound c = outbound c0 ++ concat (data_bytes <$> acks);
  co_info : sm_info st = true → sm_done st = [];
}.

(** The post is registered: any channel that knows the peer sees the invariant. *)
Definition shared (s : host C) (rcvd : list chunk_msg) : Prop :=
  ∀ c w0, w_ch w0 = c → usable c → GetPeer c = peer →
    w_evs w0 = ho_evs s0 → w_mem w0 = ho_mem s0 → w_out w0 = ho_out s0 →
    rx_inv h reqs dst peer w0 (on_channel s c) rcvd.

Record host_inv (s : host C) (sts : list stream) (rcvd : list chunk_msg) : Prop := {
  hi_len : length (ho_chs s) = length sts;
  hi_len0 : length (ho_chs s0) = length sts;
  hi_chans : ∀ j c0 c st, ho_chs s0 !! j = Some c0 → ho_chs s !! j = Some c →
    sts !! j = Some st → chan_ok c0 c st;
  hi_rcvd : ∀ m, m ∈ rcvd ↔ received sts m;
  hi_state : (Forall (λ st, sm_info st = true) sts ∧
              s = mkHost (ho_chs s) (ho_out s0) (ho_in s0) (ho_mem s0) (ho_evs s0)) ∨
             shared s rcvd;
}.

(** [rx_inv] depends on the channel only through its peer and its being open. *)
Lemma rx_inv_channel w0 w rcvd w0' c : rx_inv h reqs dst peer w0 w rcvd → usable c →
  GetPeer c = peer → w_evs w0' = w_evs w0 → w_mem w0' = w_mem w0 → w_out w0' = w_out w0 →
  rx_inv h reqs dst peer w0' (with_ch w c) rcvd.
Proof.
  intros [Hu Hp He Hr Hv Hm Hmo Ho] Huc Hpc E1 E2 E3.
  split; simpl; [done|done|done|done| |done| |congruence].
  - by rewrite E1.
  - intros x Hx. rewrite E2. auto.
Qed.

Lemma received_insert sts j st st' m : sts !! j = Some st → sm_done st' = sm_done st ++ [m] →
  ∀ m', received (<[j := st']> sts) m' ↔ m' = m ∨ received sts m'.
Proof.
  intros Hj Hd m'. pose proof (lookup_lt_Some _ _ _ Hj) as Hlt. split.
  - intros (i & x & Hi & Hin). destruct (decide (i = j)) as [->|Hne].
    + rewrite list_lookup_insert_eq in Hi by done. simplify_eq. rewrite Hd in Hin.
      apply elem_of_app in Hin as [Hin|Hin]; [right; by exists j, st|left; set_solver].
    + rewrite list_lookup_insert_ne in Hi by done. right. by exists i, x.
  - intros [->|(i & x & Hi & Hin)].
    + exists j, st'. rewrite list_lookup_insert_eq by done. rewrite Hd. set_solver.
    + destruct (decide (i = j)) as [->|Hne].
      * simplify_eq. exists j, st'. rewrite list_lookup_insert_eq by done. rewrite Hd. set_solver.
      * exists i, x. by rewrite list_lookup_insert_ne.
Qed.

Lemma received_same sts j st st' : sts !! j = Some st → sm_done st' = sm_done st →
  ∀ m', received (<[j := st']> sts) m' ↔ received sts m'.
Proof.
  intros Hj Hd m'. pose proof (lookup_lt_Some _ _ _ Hj) as Hlt.
  split; intros (i & x & Hi & Hin); (destruct (decide (i = j)) as [->|Hne];
    [|exists i, x; by rewrite list_lookup_insert_ne in * by done]).
  - rewrite list_lookup_insert_eq in Hi by done. simplify_eq. exists j, st. by rewrite <- Hd.
  - simplify_eq. exists j, st'. rewrite list_lookup_insert_eq by done. by rewrite Hd.
Qed.

(** Replacing channel [j] and its stream. *)
Lemma chans_insert s sts j c0 c' st' : length (ho_chs s) = length sts →
  (∀ i c0 c st, ho_chs s0 !! i = Some c0 → ho_chs s !! i = Some c → sts !! i = Some st →
     chan_ok c0 c st) →
  ho_chs s0 !! j = Some c0 → (j < length sts)%nat → chan_ok c0 c' st' →
  ∀ i c0 c st, ho_chs s0 !! i = Some c0 → (<[j := c']> (ho_chs s)) !! i = Some c →
    (<[j := st']> sts) !! i = Some st → chan_ok c0 c st.
Proof.
  intros Hl Hc Hj0 Hlt Hok i c0' c st Hi0 Hi Hs. destruct (decide (i = j)) as [->|Hne].
  - rewrite list_lookup_insert_eq in Hi by lia. rewrite list_lookup_insert_eq in Hs by lia.
    by simplify_eq.
  - rewrite list_lookup_insert_ne in Hi by done. rewrite list_lookup_insert_ne in Hs by done.
    by eapply Hc.
Qed.

Context (Hpost : post_ok (ho_in s0) info reqs).

Definition after_info (st : stream) : stream := mkStream false (sm_done st) (sm_todo st).

(** While no announcement has been read, nothing has. *)
Lemma nothing_received s sts rcvd : host_inv s sts rcvd → Forall (λ st, sm_info st = true) sts → rcvd = [].
Proof.
  intros [Hl Hl0 Hc Hr _] Hall. apply elem_of_nil_inv. intros m (i & x & Hx & Hmx)%Hr.
  pose proof (lookup_lt_Some _ _ _ Hx).
  destruct (lookup_lt_is_Some_2 (ho_chs s) i) as [ci Hci]; [lia|].
  destruct (lookup_lt_is_Some_2 (ho_chs s0) i) as [c0i Hc0i]; [lia|].
  destruct (Hc _ _ _ _ Hc0i Hci Hx) as [_ _ _ _ Hd].
  rewrite (Hd (Forall_lookup_1 _ _ _ _ Hall Hx)) in Hmx. set_solver.
Qed.

(** The state once stream [j] is past its announcement. *)
Lemma host_inv_after_info s sts rcvd j st c c1 s1 : host_inv s sts rcvd → sts !! j = Some st →
  sm_info st = true → ho_chs s !! j = Some c →
  usable c1 → GetPeer c1 = peer → inbound c1 = concat (msg_bytes <$> sm_todo st) →
  outbound c1 = outbound c → shared s1 rcvd →
  host_inv (mkHost (<[j := c1]> (ho_chs s)) (ho_out s1) (ho_in s1) (ho_mem s1) (ho_evs s1))
    (<[j := after_info st]> sts) rcvd.
Proof.
  intros [Hl Hl0 Hc Hr _] Hj Hi Hcj Hu1 Hp1 Hi1 Ho1 Hsh. pose proof (lookup_lt_Some _ _ _ Hj) as Hlt.
  destruct (lookup_lt_is_Some_2 (ho_chs s0) j) as [c0 Hc0j]; [lia|].
  destruct (Hc _ _ _ _ Hc0j Hcj Hj) as [_ _ _ (acks & Hacks & Hout) _]. split; simpl.
  - by rewrite !length_insert.
  - by rewrite length_insert.
  - eapply chans_insert; [done|done|done|done|]. split; simpl; [done|done|done| |done].
    exists acks. split; [done|congruence].
  - intros m. rewrite Hr. symmetry. by eapply received_same.
  - by right.
Qed.

(** A worker reads the [PostInfo]: the first registers the post, the others find it. *)
Lemma step_info s sts rcvd j st ck : host_inv s sts rcvd → sts !! j = Some st → sm_info st = true →
  ∃ s', recv_on s j ck = Ok (s', true) ∧ host_inv s' (<[j := after_info st]> sts) rcvd.
Proof.
  intros Hinv0 Hj Hi. pose proof Hinv0 as [Hl Hl0 Hc Hr Hst]. pose proof (lookup_lt_Some _ _ _ Hj) as Hlt.
  destruct (lookup_lt_is_Some_2 (ho_chs s) j) as [c Hcj]; [lia|].
  destruct (lookup_lt_is_Some_2 (ho_chs s0) j) as [c0 Hc0j]; [lia|].
  destruct (Hc _ _ _ _ Hc0j Hcj Hj) as [Hu Hin _ _ _].
  unfold wire in Hin. rewrite Hi, <- app_assoc in Hin. unfold recv_on. rewrite Hcj. cbn [at_or].
  rewrite bind_Ok. destruct Hst as [[Hall Hs]|Hsh].
  - pose proof (nothing_received _ _ _ Hinv0 Hall) as ->.
    destruct (rx_info (- (1 + Z.of_nat j)) (on_channel s c) info reqs
      (concat (msg_bytes <$> sm_todo st)) ck) as (w & Hrecv & Hinv & Hi1 & Ho1);
      [rewrite Hs; exact Hpost|done|done|].
    rewrite Hrecv, bind_Ok. eexists. split; [done|].
    apply (host_inv_after_info _ _ _ _ _ c (w_ch w) (mkHost (ho_chs s) (w_out w) (w_in w) (w_mem w) (w_evs w)) Hinv0);
      [done|done|done|apply Hinv|apply Hinv|done|done|].
    intros c1 w1 _ Hu1 Hp1 E1 E2 E3.
    assert (on_channel (mkHost (ho_chs s) (w_out w) (w_in w) (w_mem w) (w_evs w)) c1 = with_ch w c1)
      as -> by by destruct w.
    assert (resolve_raddr (w_in (on_channel s c)) (pi_metadata info) = dst) as Edst
      by (unfold dst; rewrite Hs; done).
    rewrite Edst in Hinv.
    eapply rx_inv_channel; [exact Hinv|done|done|..]; rewrite Hs; done.
  - set (w0 := mkWorld (w_ch (on_channel s (SetPeer c peer))) (ho_out s0) (ho_in s0) (ho_mem s0) (ho_evs s0)).
    assert (usable (SetPeer c peer)) as Husp by by apply st_set.
    assert (GetPeer (SetPeer c peer) = peer) as Hpsp by apply st_get_set.
    pose proof (Hsh (SetPeer c peer) w0 eq_refl Husp Hpsp eq_refl eq_refl eq_refl) as Hinv.
    destruct (rx_info_again (- (1 + Z.of_nat j)) w0 (on_channel s (SetPeer c peer)) info reqs
      (concat (msg_bytes <$> sm_todo st)) ck rcvd c dst)
      as (c' & Hrecv & Hu' & Hp' & Hi' & Ho'); [apply Hpost..|exact Hinv|done|done|].
    change (with_ch (on_channel s (SetPeer c peer)) c) with (on_channel s c) in Hrecv.
    rewrite Hrecv, bind_Ok. eexists. split; [done|].
    by apply (host_inv_after_info _ _ _ _ _ c c' s Hinv0).
Qed.

Definition after_chunk (st : stream) (m : chunk_msg) (ms : list chunk_msg) : stream :=
  mkStream false (sm_done st ++ [m]) ms.

(** A worker reads a data chunk. *)
Lemma step_chunk s sts rcvd j st m ms ck : host_inv s sts rcvd → sts !! j = Some st →
  sm_info st = false → sm_todo st = m :: ms → msg_ok h reqs dst m →
  (∀ m', m' ∈ rcvd → compatible dst m m') →
  ∃ s', recv_on s j ck = Ok (s', true) ∧
        host_inv s' (<[j := after_chunk st m ms]> sts) (m :: rcvd).
Proof.
  intros [Hl Hl0 Hc Hr Hst] Hj Hi Htodo Hm Hcomp. pose proof (lookup_lt_Some _ _ _ Hj) as Hlt.
  destruct (lookup_lt_is_Some_2 (ho_chs s) j) as [c Hcj]; [lia|].
  destruct (lookup_lt_is_Some_2 (ho_chs s0) j) as [c0 Hc0j]; [lia|].
  destruct (Hc _ _ _ _ Hc0j Hcj Hj) as [Hu Hin Hp (acks & Hacks & Hout) Hdone].
  unfold wire in Hin. rewrite Hi, Htodo, fmap_cons in Hin. cbn [concat app] in Hin.
  destruct Hst as [[Hall _]|Hsh].
  { pose proof (Forall_lookup_1 _ _ _ _ Hall Hj) as E. congruence. }
  set (w0 := mkWorld c (ho_out s0) (ho_in s0) (ho_mem s0) (ho_evs s0)).
  pose proof (Hsh c w0 eq_refl Hu (Hp Hi) eq_refl eq_refl eq_refl) as Hinv.
  destruct (rx_step h reqs dst peer w0 (on_channel s c) rcvd m (concat (msg_bytes <$> ms))
    (- (1 + Z.of_nat j)) ck) as (w & a & Hrecv & Hinv' & Ha & Hi' & Ho');
    [apply Hpost|by eapply post_ok_count|done..|].
  unfold recv_on. rewrite Hcj. cbn [at_or]. rewrite bind_Ok, Hrecv, bind_Ok.
  eexists. split; [done|]. split; simpl.
  - by rewrite !length_insert.
  - by rewrite length_insert.
  - eapply chans_insert; [done|done|done|done|]. split; simpl.
    + apply Hinv'.
    + done.
    + intros _. apply Hinv'.
    + exists (acks ++ [a]). split; [by apply Forall2_app; [|constructor]|].
      simpl in Ho'. rewrite Ho', Hout, fmap_app, concat_app, <- app_assoc.
      by do 2 f_equal.
    + done.
  - intros m'. rewrite elem_of_cons, Hr. symmetry. by eapply received_insert.
  - right. intros c1 w1 _ Hu1 Hp1 E1 E2 E3.
    assert (on_channel (mkHost (<[j := w_ch w]> (ho_chs s)) (w_out w) (w_in w) (w_mem w) (w_evs w)) c1
      = with_ch w c1) as -> by by destruct w.
    by eapply rx_inv_channel.
Qed.

(** Every worker is scheduled as often as it has messages left. *)
Definition fair (sts : list stream) (sched : list (nat * clock)) : Prop :=
  ∀ j, length (filter (λ x, x.1 = j) sched) = from_option left_on 0%nat (sts !! j).

Definition todo_of (sts : list stream) (m : chunk_msg) : Prop :=
  ∃ j st, sts !! j = Some st ∧ m ∈ sm_todo st.

Lemma fair_step sts sched j ck st st' : fair sts ((j, ck) :: sched) → sts !! j = Some st →
  left_on st = S (left_on st') → fair (<[j := st']> sts) sched.
Proof.
  intros Hf Hj Hl i. specialize (Hf i). rewrite filter_cons in Hf. cbn [fst] in Hf.
  destruct (decide (i = j)) as [->|Hne].
  - rewrite decide_True in Hf by done. rewrite Hj in Hf. simpl in Hf.
    rewrite list_lookup_insert_eq by by eapply lookup_lt_Some. simpl. lia.
  - rewrite decide_False in Hf by done. by rewrite list_lookup_insert_ne.
Qed.

(** The run succeeds and leaves nothing to read. *)
Definition completes (sched : list (nat * clock)) (s : host C) (sts : list stream) : Prop :=
  ∃ s' sts' rcvd', host_run s sched = Ok (s', true) ∧ host_inv s' sts' rcvd' ∧
    length sts' = length sts ∧
    (∀ j st st', sts !! j = Some st → sts' !! j = Some st' →
       st' = mkStream false (sm_done st ++ sm_todo st) []).

Lemma completes_nil s sts rcvd : host_inv s sts rcvd → fair sts [] → completes [] s sts.
Proof.
  intros Hinv Hf. exists s, sts, rcvd. split; [done|]. split; [done|]. split; [done|].
  intros j st st' Hj Hj'. assert (st' = st) as -> by congruence.
  specialize (Hf j). rewrite Hj in Hf. simpl in Hf.
  destruct st as [[] d t]; unfold left_on in Hf; simpl in *; [done|].
  destruct t; [|done]. by rewrite app_nil_r.
Qed.

Lemma completes_step s sts j ck sched st st1 s1 : sts !! j = Some st →
  recv_on s j ck = Ok (s1, true) → sm_done st1 ++ sm_todo st1 = sm_done st ++ sm_todo st →
  completes sched s1 (<[j := st1]> sts) → completes ((j, ck) :: sched) s sts.
Proof.
  intros Hj Hrecv Happ (s' & sts' & rcvd' & Hrun & Hinv' & Hlen & Hfin).
  pose proof (lookup_lt_Some _ _ _ Hj) as Hlt. rewrite length_insert in Hlen.
  exists s', sts', rcvd'. cbn [host_run]. rewrite Hrecv, bind_Ok. split; [done|]. split; [done|].
  split; [done|]. intros i x x' Hi Hi'. destruct (decide (i = j)) as [->|Hne].
  - simplify_eq. rewrite <- Happ. eapply Hfin; [by apply list_lookup_insert_eq|done].
  - eapply Hfin; [by rewrite list_lookup_insert_ne|done].
Qed.

Lemma todo_of_insert sts j st st1 m : sts !! j = Some st → (∀ m, m ∈ sm_todo st1 → m ∈ sm_todo st) →
  todo_of (<[j := st1]> sts) m → todo_of sts m.
Proof.
  intros Hj Hsub (i & x & Hi & Hmx). pose proof (lookup_lt_Some _ _ _ Hj) as Hlt.
  destruct (decide (i = j)) as [->|Hne].
  - rewrite list_lookup_insert_eq in Hi by done. simplify_eq. exists j, st. auto.
  - rewrite list_lookup_insert_ne in Hi by done. by exists i, x.
Qed.

Lemma multi_run sched : ∀ s sts rcvd, host_inv s sts rcvd → fair sts sched →
  (∀ m, todo_of sts m → msg_ok h reqs dst m) →
  (∀ m1 m2, todo_of sts m1 → todo_of sts m2 ∨ m2 ∈ rcvd → compatible dst m1 m2) →
  completes sched s sts.
Proof.
  induction sched as [|[j ck] sched IH]; intros s sts rcvd Hinv Hf Hok Hcomp.
  { by eapply completes_nil. }
  pose proof (Hf j) as Hfj. rewrite filter_cons_True in Hfj by done.
  destruct (sts !! j) as [st|] eqn:Hj; [|done]. cbn [from_option] in Hfj.
  destruct (sm_info st) eqn:Ei.
  - destruct (step_info s sts rcvd j st ck Hinv Hj Ei) as (s1 & Hrecv & Hinv1).
    assert (∀ m, todo_of (<[j := after_info st]> sts) m → todo_of sts m) as Hback
      by (intros m; by apply (todo_of_insert sts j st)).
    apply (completes_step s sts j ck sched st (after_info st) s1); [done..|]. apply (IH _ _ rcvd Hinv1).
    + eapply fair_step; [done|done|]. unfold left_on. by rewrite Ei.
    + intros m Hm. apply Hok. by apply Hback.
    + intros m1 m2 Hm1 Hm2. apply Hcomp; [by apply Hback|].
      destruct Hm2 as [Hm2|?]; [left; by apply Hback|by right].
  - destruct (sm_todo st) as [|m ms] eqn:Et.
    { unfold left_on in Hfj. rewrite Ei, Et in Hfj. done. }
    assert (todo_of sts m) as Htm by (exists j, st; rewrite Et; split; [done|left]).
    assert (∀ m', todo_of (<[j := after_chunk st m ms]> sts) m' → todo_of sts m') as Hback.
    { intros m'. apply (todo_of_insert sts j st); [done|]. intros m1 Hm1. rewrite Et. by right. }
    destruct (step_chunk s sts rcvd j st m ms ck Hinv Hj Ei Et) as (s1 & Hrecv & Hinv1).
    { by apply Hok. }
    { intros m' Hm'. apply Hcomp; [done|by right]. }
    apply (completes_step s sts j ck sched st (after_chunk st m ms) s1); [done|done|simpl; by rewrite Et, <- app_assoc|].
    apply (IH _ _ (m :: rcvd) Hinv1).
    + eapply fair_step; [done|done|]. unfold left_on. by rewrite Ei, Et.
    + intros m' Hm'. apply Hok. by apply Hback.
    + intros m1 m2 Hm1 Hm2. apply Hcomp; [by apply Hback|].
      destruct Hm2 as [Hm2|[->|?]%elem_of_cons]; [left; by apply Hback|by left|by right].
Qed.
End Multi.

Definition start_stream (ms : list chunk_msg) : stream := mkStream true [] ms.

Lemma elem_of_concat {A} (x : A) ls : x ∈ concat ls ↔ ∃ j l, ls !! j = Some l ∧ x ∈ l.
Proof.
  induction ls as [|l ls IH]; simpl.
  - split; [by intros ?%elem_of_nil|]. by intros (j & l & Hj & _).
  - rewrite elem_of_app, IH. split.
    + intros [Hx|(j & l' & Hj & Hx)]; [by exists O, l|by exists (S j), l'].
    + intros ([|j] & l' & Hj & Hx); simpl in Hj; simplify_eq; [by left|]. right. eauto.
Qed.

Lemma todo_of_start streams m : todo_of (start_stream <$> streams) m ↔ m ∈ concat streams.
Proof.
  rewrite elem_of_concat. unfold todo_of. setoid_rewrite list_lookup_fmap. split.
  - intros (j & st & Hj & Hm). destruct (streams !! j) as [ms|] eqn:E; simpl in Hj; simplify_eq.
    exists j, ms. done.
  - intros (j & ms & Hj & Hm). exists j, (start_stream ms). by rewrite Hj.
Qed.

Section Theorem_.
Context {C : Type} `{StreamLaws C}.

Lemma host_inv_start info reqs (s0 : host C) streams :
  length streams = length (ho_chs s0) →
  (∀ j c ms, ho_chs s0 !! j = Some c → streams !! j = Some ms →
     usable c ∧ inbound c = info_bytes info ++ store_requests reqs ++ concat (msg_bytes <$> ms)) →
  host_inv info reqs s0 s0 (start_stream <$> streams) [].
Proof.
  intros Hlen Hch. split.
  - by rewrite length_fmap.
  - by rewrite length_fmap.
  - intros j c0 c st Hj0 Hj Hst. assert (c0 = c) as -> by congruence.
    rewrite list_lookup_fmap in Hst.
    destruct (streams !! j) as [ms|] eqn:E; [|done]. simpl in Hst. injection Hst as <-.
    destruct (Hch _ _ _ Hj E) as [Hu Hin].
    split; simpl; [done| |done| |done].
    + unfold wire. simpl. by rewrite <- app_assoc.
    + exists []. split; [constructor|]. by rewrite app_nil_r.
  - intros m. split; [by intros ?%elem_of_nil|]. intros (j & st & Hj & Hm).
    rewrite list_lookup_fmap in Hj. destruct (streams !! j); simpl in Hj; simplify_eq.
    by apply elem_of_nil in Hm.
  - left. split; [|by destruct s0]. apply Forall_fmap, Forall_true. done.
Qed.

Lemma multi_delivered (info : PostInfoHeader) (reqs : list RequestInfo) (s0 : host C)
    (streams : list (list chunk_msg)) (sched : list (nat * clock)) :
  let h := hb_handle (pi_base info) in
  let dst := resolve_raddr (ho_in s0) (pi_metadata info) in
  post_ok (ho_in s0) info reqs → length streams = length (ho_chs s0) → streams ≠ [] →
  (∀ j c ms, ho_chs s0 !! j = Some c → streams !! j = Some ms →
     usable c ∧ inbound c = info_bytes info ++ store_requests reqs ++ concat (msg_bytes <$> ms)) →
  (∀ m, m ∈ concat streams → msg_ok h reqs dst m) →
  (∀ m1 m2, m1 ∈ concat streams → m2 ∈ concat streams → compatible dst m1 m2) →
  (∀ j, length (filter (λ x, x.1 = j) sched) =
        from_option (λ ms, S (length ms)) 0%nat (streams !! j)) →
  ∃ s evs, host_run s0 sched = Ok (s, true) ∧
    (∀ m, m ∈ concat streams → read_mem (ho_mem s) (m_addr dst m) (m_len m) = Some <$> m_payload m) ∧
    (∀ x, (∀ m, m ∈ concat streams → x < m_addr dst m ∨ m_addr dst m + m_len m ≤ x) →
          ho_mem s !! x = ho_mem s0 !! x) ∧
    (∀ j c0 c ms, ho_chs s0 !! j = Some c0 → ho_chs s !! j = Some c → streams !! j = Some ms →
       inbound c = [] ∧ ∃ acks, Forall2 (is_ack_of h) ms acks ∧
         outbound c = outbound c0 ++ concat (data_bytes <$> acks)) ∧
    ho_evs s = ho_evs s0 ++ evs ∧
    (if decide (undone reqs (m_key <$> concat streams) = [])
     then Check_ (ho_in s) h (pi_peer info) = kSuccess ∧ length (recv_posts evs) = 1%nat
     else Check_ (ho_in s) h (pi_peer info) = kInProgress ∧ recv_posts evs = []).
Proof.
  intros h dst Hpost Hlen Hne Hch Hok Hcomp Hsched.
  pose proof (todo_of_start streams) as Htodo.
  destruct (multi_run info reqs s0 Hpost sched s0 (start_stream <$> streams) [])
    as (s & sts & rcvd & Hrun & [Hl Hl0 Hc Hr Hst] & Hlen' & Hfin).
  { by apply host_inv_start. }
  { intros j. rewrite Hsched, list_lookup_fmap. by destruct (streams !! j). }
  { intros m Hm. by apply Hok, Htodo. }
  { intros m1 m2 Hm1 [Hm2|Hm2%elem_of_nil]; [|done]. apply Hcomp; by apply Htodo. }
  rewrite length_fmap in Hlen'.
  assert (∀ j ms, streams !! j = Some ms → sts !! j = Some (mkStream false ms [])) as Hsts.
  { intros j ms Hj. destruct (lookup_lt_is_Some_2 sts j) as [st' Hj'];
      [apply lookup_lt_Some in Hj; lia|]. rewrite Hj'. f_equal.
    rewrite (Hfin j (start_stream ms) st'); [done| |done]. by rewrite list_lookup_fmap, Hj. }
  assert (∀ m, m ∈ rcvd ↔ m ∈ concat streams) as Hmem.
  { intros m. rewrite Hr, elem_of_concat. split.
    - intros (j & st & Hj & Hm). destruct (lookup_lt_is_Some_2 streams j) as [ms Hms];
        [apply lookup_lt_Some in Hj; lia|]. exists j, ms. rewrite (Hsts _ _ Hms) in Hj. by simplify_eq.
    - intros (j & ms & Hj & Hm). exists j, (mkStream false ms []). auto. }
  destruct streams as [|ms0 streams0]; [done|]. set (streams := ms0 :: streams0) in *.
  destruct (lookup_lt_is_Some_2 (ho_chs s) 0) as [c1 Hc1]; [simpl in Hlen; lia|].
  destruct (lookup_lt_is_Some_2 (ho_chs s0) 0) as [c01 Hc01]; [simpl in Hlen; lia|].
  destruct Hst as [[Hall _]|Hsh].
  { pose proof (Forall_lookup_1 _ _ _ _ Hall (Hsts 0%nat ms0 eq_refl)). done. }
  destruct (Hc _ _ _ _ Hc01 Hc1 (Hsts 0%nat ms0 eq_refl)) as [Hu1 _ Hp1 _ _].
  pose proof (Hsh c1 (mkWorld c1 (ho_out s0) (ho_in s0) (ho_mem s0) (ho_evs s0)) eq_refl Hu1
    (Hp1 eq_refl) eq_refl eq_refl eq_refl) as [_ _ (pt & Hpt & He) _ (evs & Hev & Hcnt) Hm Hmo _].
  cbn [on_channel w_in w_evs w_mem] in Hpt, Hev, Hm, Hmo.
  exists s, evs. split; [done|]. split; [intros m Hm'; by apply Hm, Hmem|].
  split; [intros x Hx; apply Hmo; intros m Hm'; by apply Hx, Hmem|]. split; [|split; [done|]].
  - intros j c0 c ms Hj0 Hj Hms. destruct (Hc _ _ _ _ Hj0 Hj (Hsts _ _ Hms)) as [_ Hin _ Hacks _].
    split; [exact Hin|]. exact Hacks.
  - assert (undone reqs (m_key <$> rcvd) = undone reqs (m_key <$> concat streams)) as Hun.
    { apply filter_ext_elem. intros r _. rewrite !covered_spec.
      setoid_rewrite list_elem_of_fmap. by setoid_rewrite Hmem. }
    rewrite Hun in Hcnt.
    pose proof (req_complete _ _ _ _ (ei_req _ _ _ _ He) (po_nonempty _ _ _ Hpost)) as Hcpl. rewrite Hun in Hcpl.
    unfold Check_. fold h in Hpt. rewrite Hpt.
    destruct (decide (undone reqs (m_key <$> concat streams) = [])) as [Hd|Hd].
    + by rewrite (proj2 Hcpl Hd).
    + destruct (isComplete pt); [by destruct Hd, (proj1 Hcpl eq_refl)|].
      split; [done|]. by apply length_zero_iff_nil.
Qed.

End Theorem_.

(** ** Two connections, one chunk on each; the second announces after the first delivers *)

Definition sample_streams : list (list chunk_msg) :=
  [[mkMsg sample_req (sample_chunk 0 0 3) [11; 12; 13]]; [mkMsg sample_req (sample_chunk 1 3 2) [14; 15]]].
Definition sample_pipe (ms : list chunk_msg) : Duplex :=
  set_in true dx_sample (mkMemPipe false
    [info_bytes sample_info ++ store_requests [sample_req] ++ concat (msg_bytes <$> ms)]).
Definition sample_host : host Duplex :=
  mkHost (sample_pipe <$> sample_streams) (RequestTracker_new false None false)
    (RequestTracker_new true None true) ∅ [].
Definition sample_sched : list (nat * clock) :=
  let ck := mkClock 1 2 3 4 in [(0%nat, ck); (0%nat, ck); (1%nat, ck); (1%nat, ck)].

