(* ===== verification/StreamRun.v ===== *)
(** Workers that receive, each from its own stream, in any interleaving: what one message
    does to the shared state, once for every message of every stream.

    [run_streams] is the induction over the schedule that the ways of a post's messages share:
    the announcements, the chunks and the acknowledgements. *)

From stdpp Require Import base tactics list list_numbers numbers gmap fin_maps.
From S2P Require Import Prelude Codec Types IpAddr Endpoint Bitset ChunkTracker Header.
From S2P Require Import HeaderFlatbuf RequestTracker Channel Transfer Worker TransferStream.
From S2P Require Import PostDelivery MultiStream.
Local Open Scope Z_scope.

(** A message less on stream [j]. *)
Lemma concat_head {A} (streams : list (list A)) j a l : streams !! j = Some (a :: l) →
  concat streams ≡ₚ a :: concat (<[j := l]> streams).
Proof.
  revert j. induction streams as [|l' streams IH]; intros [|j] Hj; [done|done|..]; cbn in *.
  - by injection Hj as ->.
  - rewrite (IH j Hj). symmetry. apply Permutation_middle.
Qed.

Section Run.
Context {C : Type} `{StreamLaws C} {A : Type} (item : A → bytes).
(** The shared state after the messages [done], and what a message does to its channel. *)
Context (I : list A → host C → Prop) (R : C → A → C → Prop).

(** From [c] to [c'] by the messages of a list. *)
Fixpoint path (c : C) (l : list A) (c' : C) : Prop :=
  match l with [] => c' = c | a :: l => ∃ c1, R c a c1 ∧ path c1 l c' end.

Definition waiting (c : C) (l : list A) : Prop := usable c ∧ inbound c = concat (item <$> l).
Definition all_waiting (s : host C) (streams : list (list A)) : Prop :=
  length (ho_chs s) = length streams ∧ ∀ j c l, ho_chs s !! j = Some c → streams !! j = Some l → waiting c l.

(** One message, [a], when [all] are the messages of the whole run. *)
Definition good_step (all : list A) : Prop := ∀ s done todo j c a rest ck,
  I done s → done ++ a :: todo ≡ₚ all → ho_chs s !! j = Some c → usable c → inbound c = item a ++ rest →
  ∃ s' c', recv_on s j ck = Ok (s', true) ∧ I (a :: done) s' ∧ ho_chs s' = <[j := c']> (ho_chs s) ∧
    usable c' ∧ inbound c' = rest ∧ R c a c'.

Definition served (sched : list (nat * clock)) (streams : list (list A)) : Prop :=
  ∀ j, length (filter (λ x, x.1 = j) sched) = from_option length 0%nat (streams !! j).

Lemma served_step j ck sched streams : served ((j, ck) :: sched) streams →
  ∃ a l, streams !! j = Some (a :: l) ∧ served sched (<[j := l]> streams).
Proof.
  intros Hf. pose proof (Hf j) as Hj. rewrite filter_cons_True in Hj by done.
  destruct (streams !! j) as [[|a l]|] eqn:E; [done| |done]. exists a, l. split; [done|]. intros i. specialize (Hf i).
  destruct (decide (j = i)) as [<-|Hij].
  - rewrite list_lookup_insert_eq by (by eapply lookup_lt_Some). cbn in *. lia.
  - rewrite filter_cons_False in Hf by done. by rewrite list_lookup_insert_ne.
Qed.

Lemma run_streams all (sched : list (nat * clock)) : good_step all → ∀ s done streams, I done s → all_waiting s streams →
  done ++ concat streams ≡ₚ all → served sched streams →
  ∃ s' done', host_run s sched = Ok (s', true) ∧ I done' s' ∧ done' ≡ₚ all ∧
    (∀ j c l c', ho_chs s !! j = Some c → streams !! j = Some l → ho_chs s' !! j = Some c' → usable c' ∧ inbound c' = [] ∧ path c l c').
Proof.
  intros Hgood. induction sched as [|[j ck] sched IH]; intros s done streams Hi [Hlen Hw] Hall Hserved.
  - assert (∀ i l, streams !! i = Some l → l = []) as Hnil.
    { intros i l Hl. specialize (Hserved i). rewrite Hl in Hserved. by destruct l. }
    exists s, done. split; [done|]. split; [done|]. split.
    + rewrite <- Hall. assert (concat streams = []) as ->; [|by rewrite app_nil_r].
      apply elem_of_nil_inv. intros a (i & l & Hl & Ha)%elem_of_concat. rewrite (Hnil i l Hl) in Ha. by apply elem_of_nil in Ha.
    + intros i c l c' Hc Hl Hc'. rewrite Hc in Hc'. injection Hc' as <-. destruct (Hw i c l Hc Hl) as [Hu Hin]. rewrite (Hnil i l Hl) in *. done.
  - destruct (served_step _ _ _ _ Hserved) as (a & l & Hj & Hserved'). pose proof (lookup_lt_Some _ _ _ Hj) as Hlt.
    pose proof (concat_head _ _ _ _ Hj) as Hperm. destruct (lookup_lt_is_Some_2 (ho_chs s) j) as [c Hc]; [lia|].
    destruct (Hw j c (a :: l) Hc Hj) as [Hu Hin]. rewrite fmap_cons in Hin. cbn [concat] in Hin.
    destruct (Hgood s done (concat (<[j := l]> streams)) j c a (concat (item <$> l)) ck Hi) as (s1 & c1 & E1 & Hi1 & Hch & Hu1 & Hin1 & Hr);
      [by rewrite <- Hperm|done..|].
    destruct (IH s1 (a :: done) (<[j := l]> streams) Hi1) as (s2 & done2 & E2 & Hi2 & Hp2 & Hfin); [| |done|].
    { split; [by rewrite Hch, !length_insert|]. intros i ci li Hci Hli. rewrite Hch in Hci. destruct (decide (i = j)) as [->|Hij].
      - rewrite list_lookup_insert_eq in Hci by lia. rewrite list_lookup_insert_eq in Hli by done. injection Hci as <-. by injection Hli as <-.
      - rewrite list_lookup_insert_ne in Hci by done. rewrite list_lookup_insert_ne in Hli by done. by apply (Hw i). }
    { rewrite <- Hall, Hperm. apply Permutation_middle. }
    exists s2, done2. cbn [host_run]. rewrite E1, bind_Ok. split; [done|]. split; [done|]. split; [done|].
    intros i ci li ci' Hci Hli Hci'. destruct (decide (i = j)) as [->|Hij].
    + rewrite Hc in Hci. injection Hci as <-. rewrite Hj in Hli. injection Hli as <-.
      destruct (Hfin j c1 l ci') as (? & ? & ?); [rewrite Hch; apply list_lookup_insert_eq; lia|by apply list_lookup_insert_eq|done|].
      split; [done|]. split; [done|]. cbn. by exists c1.
    + apply (Hfin i ci li ci'); [by rewrite Hch, list_lookup_insert_ne|by rewrite list_lookup_insert_ne|done].
Qed.
End Run.
