(* ===== verification/AckDelivery.v ===== *)
(** The way back: the sender's workers receive the acknowledgements of a post, each worker
    those of its connection, in any interleaving.  The invariant relates the outgoing tracker
    and the calls made to the set of chunks acknowledged so far. *)

From stdpp Require Import base tactics list list_numbers numbers gmap fin_maps.
From S2P Require Import Prelude Codec Types IpAddr Endpoint Bitset ChunkTracker Header.
From S2P Require Import HeaderFlatbuf RequestTracker Channel Transfer Worker TransferStream.
From S2P Require Import PostDelivery MultiStream StreamRun.
Local Open Scope Z_scope.

(** Calls for acknowledgements: none of them concerns a post of a peer. *)
Definition sender_event (ev : event) : Prop := match ev with EvRecvRead _ _ _ | EvRecvPost _ _ _ => False | _ => True end.
Lemma Update_events rk h reqid i w peer now rk' evs : Update rk h reqid i w peer now = Ok (rk', evs) → Forall sender_event evs.
Proof.
  unfold Update. destruct (rk_trackers rk !! _) as [pt|]; [|by intros [= <- <-]].
  intros (r & _ & (t & _ & E)%bind_Ok_inv)%bind_Ok_inv. revert E. destruct (negb (ChunkTracker_IsDone t)); [by intros [= <- <-]|].
  destruct (negb (isComplete _)); [intros [= <- <-]; by repeat constructor|].
  destruct (negb _), (pt_on_complete pt); intros [= <- <-]; by repeat constructor.
Qed.

Section Acks.
(** The post: its handle, its requests, the addresses that the tracker has and the callback. *)
Context (h : Handle) (reqs : list RequestInfo) (dst : RequestInfo → Z) (cb : option Z).
Context (Hnd : NoDup (ri_reqid <$> reqs)) (Hne : reqs ≠ []).

Definition a_key (a : DataHeader) : ReqId * Z := (dh_reqid a, dh_index a).

Record ack_ok (a : DataHeader) : Prop := {
  ao_wf : data_wf a; ao_ack : DataHeader_IsAck a = true; ao_handle : hb_handle (dh_base a) = h;
  ao_req : ∃ r, r ∈ reqs ∧ dh_reqid a = ri_reqid r ∧ 0 ≤ dh_index a < ri_nchunks r;
}.

Abbreviation own := (Endpoint_default, h).
(** The tracker [rk], started as [rk0], and the calls made since, after the chunks [del]. *)
Record tx_inv (rk0 rk : RequestTracker) (evs : list event) (del : list (ReqId * Z)) : Prop := {
  tx_wf : rk_wf rk;
  tx_others : ∀ k, k ≠ own → rk_trackers rk !! k = rk_trackers rk0 !! k;
  tx_state : if decide (undone reqs del = [] ∧ is_Some cb) then rk_trackers rk !! own = None ∧ completed evs = option_list cb
             else ∃ pt, rk_trackers rk !! own = Some pt ∧ pt_on_complete pt = cb ∧
                        req_inv reqs dst pt del ∧ completed evs = [];
  tx_events : Forall sender_event evs;
}.

Lemma undone_mono del k : undone reqs del = [] → undone reqs (k :: del) = [].
Proof.
  intros E. apply elem_of_nil_inv. intros r [Hn Hin]%list_elem_of_filter. apply Hn, covered_mono.
  destruct (decide (covered del r)) as [|Hc]; [done|]. exfalso. by apply (filter_nil_not_elem_of (λ r, ¬ covered del r) reqs r).
Qed.

(** One acknowledgement. *)
Lemma tx_update rk0 rk evs del a wid now : tx_inv rk0 rk evs del → ack_ok a →
  ∃ rk' ev, Update rk h (dh_reqid a) (dh_index a) wid Endpoint_default now = Ok (rk', ev) ∧
    tx_inv rk0 rk' (evs ++ EvTxAckRcvd a :: ev) (a_key a :: del).
Proof.
  intros [Hwf Ho Hs Hq0] [_ _ _ (r & Hin & Hid & Hi)]. unfold a_key. rewrite Hid. destruct (decide (undone reqs del = [] ∧ is_Some cb)) as [[Hd Hsome]|Hd].
  - destruct Hs as [Hl Hc]. exists rk, []. unfold Update. rewrite Hl. split; [done|]. split; [done|done| |].
    + rewrite decide_True by (split; [by apply undone_mono|done]). by rewrite completed_app, Hc, app_nil_r.
    + apply Forall_app. by repeat constructor.
  - destruct Hs as (pt & Hl & Hcb & Hq & Hc). destruct (qi_reqs _ _ _ _ Hq r Hin) as (rt & Hlr & _ & Ht & Hst).
    assert (ct_status (rt_chunks rt) (dh_index a) ≠ kBusy) as Hb by (rewrite Hst by done; by case_decide).
    destruct (Update_spec rk h (ri_reqid r) (dh_index a) wid Endpoint_default now pt rt Hwf Hl Hlr) as (t & ev & Et & Eu & Hev); [lia|done|].
    cbv zeta in Eu, Hev. fold (set_chunks pt (ri_reqid r) rt t) in Eu, Hev. rewrite Hcb in Eu, Hev. eexists _, ev. split; [exact Eu|].
    destruct (ChunkTracker_Set_inv _ _ _ (ptwf_reqs pt (Hwf _ _ Hl) _ _ Hlr) Et) as (_ & _ & Hw2 & Ht2 & Hs2).
    destruct (req_mark reqs dst pt del r (dh_index a) rt t Hnd Hq Hin Hlr Hw2 Ht2 Hs2) as [_ Hq2].
    pose proof (req_complete _ _ _ _ Hq2 Hne) as Hcpl. split.
    + by eapply Update_wf.
    + intros k Hk. rewrite <- Ho by done. destruct cb; [destruct (isComplete _)|]; cbn; by rewrite ?lookup_delete_ne, ?lookup_insert_ne.
    + rewrite completed_app. change (completed (EvTxAckRcvd a :: ev)) with (completed ev). rewrite Hc, Hev. cbn [app].
      assert (∃ pt', rk_trackers (put rk own (set_chunks pt (ri_reqid r) rt t)) !! own = Some pt' ∧ pt_on_complete pt' = cb ∧
        req_inv reqs dst pt' ((ri_reqid r, dh_index a) :: del)) as (pt' & Hl' & Hcb' & Hq') by (eexists; split; [apply lookup_insert_eq|done]).
      destruct cb as [c|]; [|rewrite decide_False by (by intros [_ []]); exists pt'; by destruct (isComplete _)].
      destruct (isComplete _) eqn:Ec.
      * rewrite decide_True by (split; [by apply Hcpl|done]). cbn. split; [apply lookup_delete_eq|done].
      * rewrite decide_False by (intros [E _]; apply Hcpl in E; congruence). by exists pt'.
    + apply Forall_app. split; [done|]. constructor; [done|]. by eapply Update_events.
Qed.

(** What a poll finds when every chunk is acknowledged. *)
Lemma tx_done rk0 rk evs del : tx_inv rk0 rk evs del → undone reqs del = [] →
  completed evs = option_list cb ∧ Check_ rk h Endpoint_default = match cb with Some _ => kNotFound | None => kSuccess end.
Proof.
  intros [_ _ Hs _] Hd. destruct cb as [c|].
  - rewrite decide_True in Hs by done. destruct Hs as [Hl Hc]. split; [done|]. unfold Check_. by rewrite Hl.
  - rewrite decide_False in Hs by (by intros [_ []]). destruct Hs as (pt & Hl & _ & Hq & Hc). split; [done|]. unfold Check_.
    by rewrite Hl, (proj2 (req_complete _ _ _ _ Hq Hne) Hd).
Qed.

(** * All connections *)

Context {C : Type} `{StreamLaws C}.

(** The shared state [s], started as [s0]. *)
Definition acks_inv (s0 : host C) (done : list DataHeader) (s : host C) : Prop :=
  ∃ evs, tx_inv (ho_out s0) (ho_out s) evs (a_key <$> done) ∧ ho_evs s = ho_evs s0 ++ evs ∧ ho_in s = ho_in s0 ∧ ho_mem s = ho_mem s0.

Lemma ack_step s0 all : Forall ack_ok all → good_step data_bytes (acks_inv s0) (λ _ _ _, True) all.
Proof.
  intros Hok s done todo j c a rest ck (evs & Hinv & He & Hi & Hm) Hall Hc Hu Hin.
  assert (ack_ok a) as Ha by (rewrite list.Forall_forall in Hok; apply Hok; rewrite <- Hall; set_solver).
  unfold recv_on. rewrite Hc. cbn [at_or]. rewrite bind_Ok.
  destruct (recv_ack (on_channel s c) (- (1 + Z.of_nat j)) ck a rest Hu (ao_wf _ Ha) (ao_ack _ Ha) Hin) as (c' & (Hu' & _ & Hi' & _) & ->).
  rewrite (ao_handle _ Ha). destruct (tx_update _ (ho_out s) evs _ a (- (1 + Z.of_nat j)) (ck_now ck) Hinv Ha) as (rk' & ev & E & Hinv').
  cbn [w_out on_channel]. rewrite E, !bind_Ok. eexists _, c'. split; [done|]. cbn. split; [|done].
  exists (evs ++ EvTxAckRcvd a :: ev). split; [done|]. cbn. by rewrite He, <- app_assoc.
Qed.

Lemma ack_run (sched : list (nat * clock)) s0 streams : tx_inv (ho_out s0) (ho_out s0) [] [] → all_waiting data_bytes s0 streams →
  Forall ack_ok (concat streams) → served sched streams →
  ∃ s evs del, host_run s0 sched = Ok (s, true) ∧ ho_evs s = ho_evs s0 ++ evs ∧ ho_in s = ho_in s0 ∧ ho_mem s = ho_mem s0 ∧
    tx_inv (ho_out s0) (ho_out s) evs del ∧ (∀ k, k ∈ del ↔ k ∈ a_key <$> concat streams).
Proof.
  intros Hinv Hw Hok Hs.
  destruct (run_streams data_bytes _ _ _ sched (ack_step s0 _ Hok) s0 [] streams) as (s & seen & E & (evs & Hinv' & He & Hi & Hm) & Hp & _); [|done..|].
  { exists []. by rewrite app_nil_r. }
  exists s, evs, (a_key <$> seen). do 5 (split; [done|]). intros k. by rewrite Hp.
Qed.
End Acks.
