(* ===== verification/ReadDelivery.v ===== *)
(** The answer to a read at its initiator: the data chunks arrive on several streams, without
    an announcement, and are found under the initiator's own handle.  The invariant relates
    the incoming tracker, memory and the calls made to the set of chunks received so far. *)

From stdpp Require Import base tactics list list_numbers numbers gmap fin_maps.
From S2P Require Import Prelude Codec Types IpAddr Endpoint Bitset ChunkTracker Header.
From S2P Require Import HeaderFlatbuf RequestTracker Channel Transfer Worker TransferStream.
From S2P Require Import PostDelivery MultiStream StreamRun.
Local Open Scope Z_scope.

(** Acknowledgements on a channel, one per message. *)
Definition acked {C} `{StreamChannel C} (h : Handle) (c : C) (m : chunk_msg) (c' : C) : Prop :=
  ∃ a, is_ack_of h m a ∧ outbound c' = outbound c ++ data_bytes a.
Lemma path_acks {C} `{StreamChannel C} h (ms : list chunk_msg) : ∀ (c c' : C), path (acked h) c ms c' →
  ∃ acks, Forall2 (is_ack_of h) ms acks ∧ outbound c' = outbound c ++ concat (data_bytes <$> acks).
Proof.
  induction ms as [|m ms IH]; intros c c' Hp.
  - cbn in Hp. subst c'. exists []. split; [constructor|]. by rewrite app_nil_r.
  - destruct Hp as (c1 & (a & Ha & Ho) & Hp). destruct (IH c1 c' Hp) as (acks & Hf & Ho'). exists (a :: acks).
    split; [by constructor|]. rewrite Ho', Ho, fmap_cons. cbn [concat]. by rewrite app_assoc.
Qed.

Section Read.
Context (h : Handle) (reqs : list RequestInfo) (dst : RequestInfo → Z) (cb : option Z).
Context (Hnd : NoDup (ri_reqid <$> reqs)) (Hne : reqs ≠ []) (Hmax : Z.of_nat (length reqs) < 2 ^ 32).
Abbreviation own := (Endpoint_default, h).
Abbreviation keys ms := (m_key <$> ms).

(** The entry of a local post, after the chunks [del]. *)
Record local_inv (pt : PostTracker) (del : list (ReqId * Z)) : Prop := {
  li_req : req_inv reqs dst pt del;
  li_cb : pt_on_complete pt = cb;
  li_local : pt_is_initiator pt = true;
  li_pending : pt_pending_reqs pt = Z.of_nat (length (undone reqs del));
}.
(** The tracker [rk], started as [rk0], and the calls made since. *)
Record rd_inv (rk0 rk : RequestTracker) (evs : list event) (del : list (ReqId * Z)) : Prop := {
  rd_others : ∀ k, k ≠ own → rk_trackers rk !! k = rk_trackers rk0 !! k;
  rd_state : if decide (undone reqs del = [] ∧ is_Some cb) then rk_trackers rk !! own = None ∧ completed evs = option_list cb
             else ∃ pt, rk_trackers rk !! own = Some pt ∧ local_inv pt del ∧ completed evs = [];
}.

(** Completion of a request of a local post. *)
Lemma OnReqComplete_local rk pt n now : rk_trackers rk !! own = Some pt → pt_is_initiator pt = true →
  pt_pending_reqs pt = Z.of_nat (S n) → Z.of_nat n < 2 ^ 64 →
  ∃ evs, OnReqComplete rk h Endpoint_default now =
      Ok (if decide (n = 0%nat ∧ is_Some (pt_on_complete pt)) then erase rk own else put rk own (with_pending pt (Z.of_nat n)), evs) ∧
    completed evs = if decide (n = 0%nat) then option_list (pt_on_complete pt) else [].
Proof.
  intros Hl Hi Hn Hb. unfold OnReqComplete. rewrite Hl.
  rewrite bind_dcheck by (apply Z.ltb_lt; lia). rewrite Hn.
  rewrite wrap_small by (unfold fits; lia). replace (Z.of_nat (S n) - 1) with (Z.of_nat n) by lia.
  cbn [with_pending pt_pending_reqs]. destruct (Z.eqb_spec (Z.of_nat n) 0) as [E|E]; cbn [negb].
  - rewrite Hi. rewrite (decide_True (P := n = 0%nat)) by lia. destruct (pt_on_complete pt) as [c|]; cbn.
    + rewrite decide_True by (split; [lia|done]). eexists. split; [done|]. by destruct (negb _).
    + rewrite decide_False by (by intros [_ []]). eexists. split; [done|]. by destruct (negb _).
  - rewrite !decide_False by lia. eexists. by split.
Qed.

(** The tracker after a chunk that was not there. *)
Lemma local_deliver rk0 rk evs pt rt t2 m del now : rd_inv rk0 rk evs del → rk_trackers rk !! own = Some pt → local_inv pt del → completed evs = [] →
  msg_ok h reqs dst m → m_key m ∉ del → pt_req_map pt !! dh_reqid (m_hdr m) = Some rt → ct_wf t2 →
  ct_total t2 = ct_total (rt_chunks rt) →
  (∀ j, ct_status t2 j = upd (ct_status (rt_chunks rt)) (dh_index (m_hdr m)) kDone j) →
  let rk1 := put rk own (set_chunks pt (dh_reqid (m_hdr m)) rt t2) in
  ∃ rk2 ev, (if ChunkTracker_IsDone t2 then OnReqComplete rk1 h Endpoint_default now else Ok (rk1, [])) = Ok (rk2, ev) ∧
    rd_inv rk0 rk2 (evs ++ ev) (m_key m :: del).
Proof.
  intros [Hoth _] Hl [Hq Hcb Hloc Hpend] Hev Hm Hfresh Hlr Hw2 Ht2 Hs2 rk1. pose proof Hm as [Hin _ _ _ Hr _ _ _ _].
  assert (m_key m = (ri_reqid (m_req m), dh_index (m_hdr m))) as Ek by (unfold m_key; by rewrite Hr).
  rewrite Hr in Hlr. destruct (req_mark reqs dst pt del (m_req m) (dh_index (m_hdr m)) rt t2 Hnd Hq Hin Hlr Hw2 Ht2 Hs2) as [Hdone Hq2].
  rewrite <- Ek in Hdone, Hq2. unfold rk1. rewrite Hr. set (pt1 := set_chunks pt (ri_reqid (m_req m)) rt t2) in *.
  assert (¬ covered del (m_req m)) as Hnc by (rewrite covered_spec; intros Hc; apply Hfresh; rewrite Ek; apply Hc, Hm).
  pose proof (undone_step reqs dst del (m_key m) (m_req m) Hnd Hin ltac:(by rewrite Ek) Hnc) as Hun.
  assert (length (undone reqs del) ≤ length reqs)%nat as Hle by apply length_filter.
  assert (∀ k p, k ≠ own → rk_trackers (put rk own p) !! k = rk_trackers rk0 !! k) as Hput
    by (intros k p Hk; rewrite <- Hoth by done; by apply lookup_insert_ne).
  destruct (ChunkTracker_IsDone t2).
  - rewrite decide_True in Hun by by apply Hdone. set (n := length (undone reqs (m_key m :: del))) in *.
    destruct (OnReqComplete_local (put rk own pt1) pt1 n now) as (ev & -> & Hc); [apply lookup_insert_eq|done|cbn; rewrite Hpend, Hun; lia|lia|].
    eexists _, ev. split; [done|]. change (pt_on_complete pt1) with (pt_on_complete pt) in *. rewrite Hcb in *.
    assert (n = 0%nat ↔ undone reqs (m_key m :: del) = []) as Hz by apply length_zero_iff_nil.
    split.
    + intros k Hk. destruct (decide (n = 0%nat ∧ is_Some cb));
      cbn; [rewrite lookup_delete_ne by done|rewrite lookup_insert_ne by done]; by apply (Hput k pt1).
    + rewrite completed_app, Hev, Hc. cbn [app].
      destruct (decide (n = 0%nat ∧ is_Some cb)) as [[Hn Hs]|Hn].
      * rewrite decide_True by (by rewrite <- Hz). rewrite decide_True by done. split; [apply lookup_delete_eq|done].
      * rewrite (decide_False (P := _ ∧ _)) by (by rewrite <- Hz). eexists. split; [apply lookup_insert_eq|]. split; [split; [|done..]|].
        -- by apply (req_inv_same reqs dst pt1); [apply with_pending_wf, Hq2|..].
        -- case_decide; [|done]. destruct cb; [|done]. by destruct Hn.
  - rewrite decide_False in Hun by (intros Hc; by apply Hdone in Hc). eexists _, []. split; [done|]. rewrite app_nil_r. split; [intros k Hk; by apply Hput|].
    rewrite decide_False.
    + exists pt1. split; [apply lookup_insert_eq|]. split; [|done]. split; [done|done|done|]. cbn. rewrite Hpend. lia.
    + intros [Hu _]. apply length_zero_iff_nil in Hu. assert (undone reqs del ≠ []) as Hp by by apply (undone_pos h reqs dst del m).
      apply Hp, length_zero_iff_nil. lia.
Qed.

(** * All connections *)

Context {C : Type} `{StreamLaws C}.

(** The shared state [s], started as [s0]. *)
Record read_inv (s0 : host C) (rcvd : list chunk_msg) (s : host C) : Prop := {
  ri_tracker : ∃ evs, rd_inv (ho_in s0) (ho_in s) evs (keys rcvd) ∧ ho_evs s = ho_evs s0 ++ evs;
  ri_out : ho_out s = ho_out s0;
  ri_peers : Forall (λ c, GetPeer c = Endpoint_default) (ho_chs s);
  ri_mem : ∀ m, m ∈ rcvd → read_mem (ho_mem s) (m_addr dst m) (m_len m) = Some <$> m_payload m;
  ri_mem_other : ∀ x, (∀ m, m ∈ rcvd → x < m_addr dst m ∨ m_addr dst m + m_len m ≤ x) → ho_mem s !! x = ho_mem s0 !! x;
}.

Lemma read_step s0 all : Forall (msg_ok h reqs dst) all → NoDup (keys all) →
  (∀ m1 m2, m1 ∈ all → m2 ∈ all → compatible dst m1 m2) → good_step msg_bytes (read_inv s0) (acked h) all.
Proof.
  intros Hok Hnk Hcomp s rcvd todo j c m rest ck [(evs & Hinv & Hev) Hout Hpeers Hmem Hmo] Hall Hc Hu Hin.
  assert (∀ x, x ∈ m :: rcvd → x ∈ all) as Hsub by (intros x Hx; rewrite <- Hall; set_solver).
  assert (msg_ok h reqs dst m) as Hm by (rewrite list.Forall_forall in Hok; apply Hok, Hsub; left).
  assert (m_key m ∉ keys rcvd) as Hfresh.
  { rewrite <- Hall, fmap_app, NoDup_app in Hnk. destruct Hnk as (_ & Hd & _). intros Hx. apply (Hd _ Hx). rewrite fmap_cons. left. }
  pose proof (undone_pos h reqs dst _ m Hm Hfresh) as Hpos. pose proof (rd_state _ _ _ _ Hinv) as Hst.
  rewrite decide_False in Hst by (by intros [? _]). destruct Hst as (pt & Hl & Hloc & Hcev).
  assert (GetPeer c = Endpoint_default) as Hpc by (rewrite list.Forall_forall in Hpeers; eapply Hpeers, list_elem_of_lookup_2, Hc).
  unfold recv_on. rewrite Hc. cbn [at_or]. rewrite bind_Ok.
  destruct (recv_fresh h reqs dst Endpoint_default (on_channel s c) (- (1 + Z.of_nat j)) ck m rest pt (keys rcvd) Hu Hpc Hl (li_req _ _ Hloc) Hm Hfresh Hin)
    as (c' & a & rt & t2 & Hu2 & Hp2 & Hi2 & Ha & Ho2 & Hlr & Hw2 & Ht2 & Hs2 & E). cbv zeta in E. rewrite E. clear E.
  destruct (local_deliver _ _ _ pt rt t2 m _ (ck_now ck) Hinv Hl Hloc Hcev Hm Hfresh Hlr Hw2 Ht2 Hs2) as (rk2 & ev & E & Hinv2).
  cbn [w_in on_channel]. cbv zeta in E. rewrite E, !bind_Ok. eexists _, c'. split; [done|]. split; [|cbn; split; [done|]; split; [done|]; split; [done|]; by exists a].
  split; cbn; [|done|by apply Forall_insert| |].
  - exists (evs ++ ev). split; [done|]. by rewrite Hev, app_assoc.
  - apply stored_new; [done|done|]. intros m' Hm'. apply Hcomp; apply Hsub; [left|by right].
  - by apply untouched_new.
Qed.

Lemma read_run s0 (sched : list (nat * clock)) streams : rd_inv (ho_in s0) (ho_in s0) [] [] →
  Forall (λ c, GetPeer c = Endpoint_default) (ho_chs s0) → all_waiting msg_bytes s0 streams →
  Forall (msg_ok h reqs dst) (concat streams) → NoDup (keys (concat streams)) →
  (∀ m1 m2, m1 ∈ concat streams → m2 ∈ concat streams → compatible dst m1 m2) →
  served sched streams → undone reqs (keys (concat streams)) = [] →
  ∃ s evs, host_run s0 sched = Ok (s, true) ∧ ho_evs s = ho_evs s0 ++ evs ∧ completed evs = option_list cb ∧
    Check_ (ho_in s) h Endpoint_default = (match cb with Some _ => kNotFound | None => kSuccess end) ∧
    ho_out s = ho_out s0 ∧ (∀ k, k ≠ own → rk_trackers (ho_in s) !! k = rk_trackers (ho_in s0) !! k) ∧
    (∀ m, m ∈ concat streams → read_mem (ho_mem s) (m_addr dst m) (m_len m) = Some <$> m_payload m) ∧
    (∀ x, (∀ m, m ∈ concat streams → x < m_addr dst m ∨ m_addr dst m + m_len m ≤ x) → ho_mem s !! x = ho_mem s0 !! x) ∧
    (∀ j c0 c ms, ho_chs s0 !! j = Some c0 → streams !! j = Some ms → ho_chs s !! j = Some c →
       ∃ acks, Forall2 (is_ack_of h) ms acks ∧ outbound c = outbound c0 ++ concat (data_bytes <$> acks)).
Proof.
  intros Hinv Hpeers Hw Hok Hnk Hcomp Hserved Hcov.
  destruct (run_streams msg_bytes _ _ _ sched (read_step s0 _ Hok Hnk Hcomp) s0 [] streams) as (s & rcvd & E & [(evs & Hinv' & Hev) Hout _ Hmem Hmo] & Hp & Hfin); [|done..|].
  { split; try done; [exists []; by rewrite app_nil_r|]. by intros m Hm%elem_of_nil. }
  assert (undone reqs (keys rcvd) = []) as Hcov'.
  { rewrite <- Hcov. apply filter_ext_elem. intros r _. rewrite !covered_spec. by setoid_rewrite Hp. }
  exists s, evs. split; [done|]. split; [done|]. destruct Hinv' as [Hoth Hst].
  assert (completed evs = option_list cb ∧ Check_ (ho_in s) h Endpoint_default = (match cb with Some _ => kNotFound | None => kSuccess end)) as [Hc1 Hc2].
  { destruct cb as [c|].
    - rewrite decide_True in Hst by done. destruct Hst as [Hl Hc]. split; [done|]. unfold Check_. by rewrite Hl.
    - rewrite decide_False in Hst by (by intros [_ []]). destruct Hst as (pt & Hl & Hloc & Hc). split; [done|]. unfold Check_.
      by rewrite Hl, (proj2 (req_complete _ _ _ _ (li_req _ _ Hloc) Hne) Hcov'). }
  do 4 (split; [done|]). split; [intros m Hm; apply Hmem; by rewrite Hp|]. split; [intros x Hx; apply Hmo; intros m Hm; apply Hx; by rewrite <- Hp|].
  intros j c0 c ms Hc0 Hms Hc. apply path_acks. by apply (Hfin j c0 ms c).
Qed.
End Read.
