(* ===== verification/EngineWrite.v ===== *)
(** What [Engine::process] leaves in the workers' queues and in the outgoing tracker for a
    local write post: the functional behaviour of the whole method on its main path. *)

From stdpp Require Import base tactics list list_numbers numbers gmap fin_maps.
From S2P Require Import Prelude Codec Types IpAddr Endpoint Bitset ChunkTracker Header.
From S2P Require Import HeaderFlatbuf RequestTracker Channel Transfer Trace Worker Engine.
Local Open Scope Z_scope.

(** * Descriptors of a local write post *)

Definition write_info (nw reqid : Z) (rq : Request) : RequestInfo :=
  mkRequestInfo reqid (Z.min nw (rq_len rq)) (rq_raddr rq) (rq_len rq) (rq_op rq)
    (mkRecipe RecipeType_kContiguous (replicate 32 0)) (rq_metadata rq).

Definition write_infos (nw next : Z) (rqs : list Request) : list RequestInfo :=
  zip_with (write_info nw) (gen_ids (length rqs) next) rqs.

(** The last identifier generated. *)
Fixpoint last_id (k : nat) (next : Z) : Z :=
  match k with O => next | S k' => last_id k' (next_id next) end.

(** A request that can be sent over [nw] connections. *)
Record sendable (nw : Z) (rq : Request) : Prop := {
  se_op : rq_op rq = kWrite;
  se_laddr : 0 < rq_laddr rq;
  se_raddr : fits 64 (rq_raddr rq);
  se_len : 0 < rq_len rq < 2 ^ 64;
  se_chunk : (rq_len rq + Z.min nw (rq_len rq) - 1) / Z.min nw (rq_len rq) ≤ 2 ^ 32 - 1;
  se_meta : is_bytes 32 (rq_metadata rq);
}.

Lemma sendable_valid nw rq : sendable nw rq → Request_IsValid rq = true.
Proof.
  intros [_ Hl _ [Hn _] _ _]. unfold Request_IsValid.
  apply andb_true_intro. split; [apply negb_true_iff, Z.eqb_neq; lia|apply Z.leb_le; lia].
Qed.

Lemma write_info_valid nw id rq : 0 < nw → sendable nw rq →
  RequestInfo_IsValid (write_info nw id rq) = true.
Proof.
  intros Hnw [Ho _ _ [Hn _] _ _]. unfold RequestInfo_IsValid. simpl. rewrite Ho. simpl.
  rewrite (proj2 (Z.ltb_lt 0 _)) by lia. simpl. rewrite andb_true_r. apply Z.ltb_lt. lia.
Qed.

Lemma write_info_splittable nw id rq : 0 < nw → sendable nw rq →
  splittable (rq_laddr rq) (write_info nw id rq).
Proof.
  intros Hnw Hs. split; simpl; [by apply write_info_valid|destruct Hs; lia|apply Hs|apply Hs|apply Hs].
Qed.

Lemma build_infos_spec e nw rqs : 0 < nw < 2 ^ 32 → Forall (sendable nw) rqs →
  build_infos e nw true rqs =
  Ok (set_next_reqid e (last_id (length rqs) (en_next_reqid e)),
      write_infos nw (en_next_reqid e) rqs).
Proof.
  intros Hnw Hf. revert e. induction Hf as [|rq rqs Hs _ IH]; intros e; cbn [build_infos].
  - by destruct e.
  - rewrite bind_dcheck by by eapply sendable_valid.
    rewrite wrap_small by (destruct Hs; unfold fits; lia).
    rewrite bind_dcheck by (destruct Hs; apply Z.leb_le; lia).
    cbn [genReqId]. rewrite IH, bind_Ok. simpl. done.
Qed.

Definition push_info (w : Worker) (e : InfoEntry) : Worker :=
  mkWorker (wk_id w) (wk_stop w) (wk_infos w ++ [e]) (wk_chunks w).

Lemma EnqueueInfo_all_spec ws info ris : PostInfoHeader_IsValid info = true → ris ≠ [] →
  Forall (λ w, IsOneSidedChannel w.2 = false) ws →
  EnqueueInfo_all ws info ris = Ok ((λ w, (push_info w.1 (mkInfoEntry info ris), w.2)) <$> ws).
Proof.
  intros Hv Hne. induction 1 as [|[w t] ws Ht _ IH]; [done|]. cbn [EnqueueInfo_all].
  unfold EnqueueInfo. rewrite bind_dcheck by done.
  rewrite bind_dcheck by by rewrite bool_decide_false. simpl in Ht. rewrite Ht, bind_Ok, IH, bind_Ok.
  done.
Qed.

(** * All chunks of a post *)

(** The chunks that worker [j] of [nw] gets, in order. *)
Definition post_share (nw : nat) (j : nat) (h : Handle) (traced : bool) (rqs : list Request)
    (ris : list RequestInfo) : list ChunkEntry :=
  concat (zip_with (λ rq ri, chunk_entry h (rq_laddr rq) ri traced <$>
                               share nw j (seqZ 0 (ri_nchunks ri))) rqs ris).

Lemma processWrites_spec h traced rqs : ∀ ris ws, ws ≠ [] → length ris = length rqs →
  Forall2 (λ rq ri, splittable (rq_laddr rq) ri) rqs ris →
  ∃ ws' evs, processWrites ws h rqs ris traced = Ok (ws', evs) ∧ length ws' = length ws ∧
    ∀ j w t, ws !! j = Some (w, t) →
      ws' !! j = Some (give w (post_share (length ws) j h traced rqs ris), t).
Proof.
  induction rqs as [|rq rqs IH]; intros ris ws Hne Hl Hf.
  - destruct ris; [|done]. exists ws, []. split; [done|]. split; [done|].
    intros j w t Hj. by rewrite give_nil.
  - destruct ris as [|ri ris]; [done|]. inversion Hf as [|? ? ? ? Hs Hf']; subst.
    cbn [processWrites].
    destruct (processWrite_spec ws h (rq_laddr rq) ri traced Hs Hne) as (ws1 & ev1 & -> & Hl1 & Hw1).
    rewrite bind_Ok.
    destruct (IH ris ws1) as (ws2 & ev2 & -> & Hl2 & Hw2);
      [by intros ->; destruct ws|simpl in Hl; lia|done|].
    rewrite bind_Ok. eexists ws2, _. split; [done|]. split; [lia|].
    intros j w t Hj. apply Hw1 in Hj. apply Hw2 in Hj. rewrite give_give, Hl1 in Hj. exact Hj.
Qed.

(** A local write post that is ready to be processed: queued by [Enqueue], with connected
    workers for its peer. *)
Record ready (e : Engine) (post : PostEntry) (ws : Workers) : Prop := {
  re_workers : en_send_workers e !! pe_peer post = Some ws;
  re_some : ws ≠ [];
  re_count : Z.of_nat (length ws) < 2 ^ 32;
  re_two_sided : Forall (λ w, IsOneSidedChannel w.2 = false) ws;
  re_local : pe_req_infos post = [];
  re_reqs : pe_reqs post ≠ [];
  re_sendable : Forall (sendable (Z.of_nat (length ws))) (pe_reqs post);
  re_size : Z.of_nat (length (pe_reqs post)) * kSerializedRequestInfoSize ≤ 2 ^ 32 - 1;
  re_out_wf : rk_wf (en_out e);
  re_registered : ∃ pt, rk_trackers (en_out e) !! (Endpoint_default, pe_handle post) = Some pt ∧
    pt_is_initiator pt = true ∧ pt_req_map pt = ∅;
}.

Definition post_info (e : Engine) (post : PostEntry) : PostInfoHeader :=
  mkPostInfoHeader (mkHeaderBase kPostInfo (pe_handle post)
    (Z.of_nat (length (pe_reqs post)) * kSerializedRequestInfoSize)) (en_self e) (pe_metadata post).

Lemma write_infos_length nw next rqs : length (write_infos nw next rqs) = length rqs.
Proof. unfold write_infos. rewrite length_zip_with, gen_ids_length. lia. Qed.

Lemma Forall2_zip_with_r {A B D} (f : A → B → D) (P : B → D → Prop) ids l :
  length ids = length l → Forall (λ b, ∀ a, P b (f a b)) l → Forall2 P l (zip_with f ids l).
Proof.
  revert ids. induction l as [|b l IH]; intros [|a ids] Hl Hf; simpl; try done.
  inversion Hf; subst. constructor; [done|]. apply IH; [simpl in Hl; lia|done].
Qed.

Lemma write_infos_Forall2 nw next rqs (P : Request → RequestInfo → Prop) :
  Forall (λ rq, ∀ id, P rq (write_info nw id rq)) rqs → Forall2 P rqs (write_infos nw next rqs).
Proof. intros Hf. apply Forall2_zip_with_r; [apply gen_ids_length|done]. Qed.

Lemma write_infos_ok nw next rqs : 0 < nw < 2 ^ 32 → Forall (sendable nw) rqs →
  Forall req_ok (write_infos nw next rqs).
Proof.
  intros Hnw Hf.
  assert (Forall2 (λ _ ri, req_ok ri) rqs (write_infos nw next rqs)) as H2.
  { apply write_infos_Forall2. eapply Forall_impl; [exact Hf|]. intros rq Hs id.
    split; [apply write_info_valid; [lia|done]|]. destruct Hs. simpl. unfold fits. lia. }
  clear Hf. induction H2; constructor; auto.
Qed.

Lemma post_info_valid e post : pe_reqs post ≠ [] → PostInfoHeader_IsValid (post_info e post) = true.
Proof.
  intros Hne. unfold PostInfoHeader_IsValid, HeaderBase_IsPostInfo. simpl.
  rewrite Z.mod_mul by done. rewrite andb_true_r. apply Z.ltb_lt.
  unfold kSerializedRequestInfoSize. destruct (pe_reqs post); [done|simpl; lia].
Qed.

Lemma ready_head e post ws : ready e post ws → ∃ rq0, head (pe_reqs post) = Some rq0 ∧ rq_op rq0 = kWrite.
Proof.
  intros [_ _ _ _ _ Hrq Hse _ _ _]. destruct (pe_reqs post) as [|rq0 rqs0]; [done|]. exists rq0.
  split; [done|]. by inversion Hse as [|? ? [? _ _ _ _ _] _].
Qed.

(** The result of processing: every worker has the post's info and its share of the chunks,
    and the outgoing tracker has every request registered with all chunks missing. *)
Lemma process_write e post ws now : ready e post ws →
  let nw := length ws in
  let ris := write_infos (Z.of_nat nw) (en_next_reqid e) (pe_reqs post) in
  ∃ e' ws', process e post now = Ok e' ∧ en_send_workers e' !! pe_peer post = Some ws' ∧
    length ws' = nw ∧
    (∀ j w t, ws !! j = Some (w, t) → ws' !! j =
       Some (give (push_info w (mkInfoEntry (post_info e post) ris))
               (post_share nw j (pe_handle post) (pe_trace_ctx post) (pe_reqs post) ris), t)) ∧
    en_out e' = put (en_out e) (Endpoint_default, pe_handle post)
      (added (en_out e) (rk_trackers (en_out e) !! (Endpoint_default, pe_handle post)) ris 0 Metadata_zero).
Proof.
  intros Hready nw ris. destruct (ready_head _ _ _ Hready) as (rq0 & Hhd & Hop0).
  destruct Hready as [Hws Hne Hcnt Hts Hloc Hrq Hse Hsz Hwf (pt & Hpt & Hini & Hmap)]. unfold process.
  assert (0 < Z.of_nat nw < 2 ^ 32) as Hnw by (unfold nw; destruct ws; [done|simpl in *; lia]).
  rewrite bind_dcheck by by rewrite bool_decide_false.
  rewrite Hhd. cbn [at_or]. rewrite bind_Ok. rewrite Hws. change (default [] (Some ws)) with ws.
  rewrite (bool_decide_false (length ws = 0%nat)) by (fold nw; lia).
  rewrite Hloc, (bool_decide_true (length [] = 0%nat)) by done.
  rewrite Hop0. change (kWrite =? kWrite) with true. cbn match.
  fold nw. rewrite build_infos_spec by done. fold ris. rewrite bind_Ok.
  assert (length ris = length (pe_reqs post)) as Hlr by apply write_infos_length.
  rewrite bind_dcheck by by apply Nat.eqb_eq.
  rewrite bind_dcheck.
  2: { apply forallb_forall. intros rq Hin. rewrite list.Forall_forall in Hse.
       eapply sendable_valid, Hse. by apply list_elem_of_In. }
  unfold is_outgoing. rewrite Hop0. change (kWrite =? kWrite) with true. cbn match.
  cbn [en_out emit set_next_reqid].
  assert (ris ≠ []) as Hrne by (intros E; rewrite E in Hlr; by destruct (pe_reqs post)).
  assert (Forall req_ok ris) as Hrok by by apply write_infos_ok.
  rewrite Add_reqs_spec by done. rewrite Hpt.
  rewrite (decide_False (P := populated (Some pt))) by (intros Hx; by apply Hx).
  rewrite (decide_False (P := _ ∧ _)) by (simpl; rewrite Hini; by intros [? _]).
  rewrite bind_Ok. unfold read_event. simpl is_local. rewrite Hini. cbn [negb]. rewrite andb_false_r. cbn [andb react].
  rewrite bind_Ok. cbn [negb].
  rewrite bind_check by (apply Z.leb_le; lia).
  cbn [en_self set_out_tracker emit set_next_reqid]. fold (post_info e post).
  rewrite EnqueueInfo_all_spec; [| |done|done].
  2: by apply post_info_valid.
  rewrite bind_Ok. set (ws1 := (λ w : Worker * ChannelType,
    (push_info w.1 (mkInfoEntry (post_info e post) ris), w.2)) <$> ws).
  assert (length ws1 = nw) as Hl1 by apply length_fmap.
  destruct (processWrites_spec (pe_handle post) (pe_trace_ctx post) (pe_reqs post) ris ws1)
    as (ws' & evs & -> & Hl' & Hw').
  - intros E. rewrite E in Hl1. simpl in Hl1. lia.
  - done.
  - apply write_infos_Forall2. eapply Forall_impl; [exact Hse|]. intros rq Hs id.
    apply write_info_splittable; [lia|done].
  - rewrite bind_Ok. eexists _, ws'. split; [done|]. split; [apply lookup_insert_eq|].
    split; [lia|]. split; [|done].
    intros j w t Hj. rewrite <- Hl1. apply Hw'. unfold ws1. by rewrite list_lookup_fmap, Hj.
Qed.
