(* ===== verification/EndToEnd.v ===== *)
(** A write post from the sender's engine to the receiver's memory: [Engine::process] on the
    sending side, the send loop of every worker, the streams, and the receive loops of
    every worker on the receiving side in any interleaving. *)

From stdpp Require Import base tactics list list_numbers numbers gmap fin_maps.
From S2P Require Import Prelude Codec Types IpAddr Endpoint Bitset ChunkTracker Header.
From S2P Require Import HeaderFlatbuf RequestTracker Channel Transfer Trace Worker TransferStream.
From S2P Require Import PostDelivery MultiStream Engine EngineWrite MemChannel.
Local Open Scope Z_scope.

(** * Source memory *)

Lemma lookup_read_mem m a len x : 0 ≤ x < len → read_mem m a len !! Z.to_nat x = Some (m !! (a + x)).
Proof.
  intros Hx. unfold read_mem. rewrite list_lookup_fmap, lookup_seqZ_lt by lia. simpl.
  do 2 f_equal. lia.
Qed.
Lemma length_read_mem m a len : length (read_mem m a len) = Z.to_nat len.
Proof. unfold read_mem. by rewrite length_fmap, length_seqZ. Qed.

Lemma read_mem_eq m a (data : bytes) :
  (∀ x, 0 ≤ x < Z.of_nat (length data) → m !! (a + x) = data !! Z.to_nat x) ↔
  read_mem m a (Z.of_nat (length data)) = Some <$> data.
Proof.
  split.
  - intros Hx. apply list_eq. intros i. rewrite list_lookup_fmap.
    destruct (decide (i < length data)%nat) as [Hi|Hi].
    + rewrite <- (Nat2Z.id i) at 1. rewrite lookup_read_mem by lia. rewrite Hx by lia.
      rewrite Nat2Z.id. destruct (lookup_lt_is_Some_2 data i Hi) as [b ->]. done.
    + rewrite lookup_ge_None_2 by (rewrite length_read_mem; lia).
      by rewrite lookup_ge_None_2 by lia.
  - intros E x Hx. pose proof (lookup_read_mem m a (Z.of_nat (length data)) x Hx) as Hl.
    rewrite E, list_lookup_fmap in Hl.
    destruct (data !! Z.to_nat x) as [b|] eqn:Eb; simpl in Hl; congruence.
Qed.

(** The bytes of chunk [i]. *)
Definition chunk_data (data : bytes) (len n i : Z) : bytes :=
  take (Z.to_nat (chunk_size len n i)) (drop (Z.to_nat (chunk_off len n i)) data).

Lemma chunk_data_length data len n i : Z.of_nat (length data) = len → 0 < n ≤ len → 0 ≤ i < n →
  Z.of_nat (length (chunk_data data len n i)) = chunk_size len n i.
Proof.
  intros Hd Hn Hi. unfold chunk_data. rewrite length_take, length_drop.
  pose proof (chunk_size_pos len n i Hn). pose proof (chunk_off_bound len n i Hn ltac:(lia)).
  pose proof (chunk_off_bound len n (i + 1) Hn ltac:(lia)). rewrite chunk_off_succ in * by lia. lia.
Qed.

Lemma chunk_data_lookup data len n i x : Z.of_nat (length data) = len → 0 < n ≤ len → 0 ≤ i < n →
  0 ≤ x < chunk_size len n i →
  chunk_data data len n i !! Z.to_nat x = data !! Z.to_nat (chunk_off len n i + x).
Proof.
  intros Hd Hn Hi Hx. unfold chunk_data. rewrite lookup_take_lt by lia. rewrite lookup_drop.
  pose proof (chunk_off_bound len n i Hn ltac:(lia)). f_equal. lia.
Qed.

Lemma mapM_id_Some (l : bytes) : mapM id (Some <$> l) = Some l.
Proof. induction l as [|x l IH]; [done|]. rewrite fmap_cons. cbn [mapM id mbind option_bind]. by rewrite IH. Qed.

Lemma GenPayload_chunk src h rq ri traced data i : Z.of_nat (length data) = ri_total_len ri →
  0 < ri_nchunks ri ≤ ri_total_len ri → 0 ≤ i < ri_nchunks ri →
  read_mem src (rq_laddr rq) (ri_total_len ri) = Some <$> data →
  GenPayload src (chunk_entry h (rq_laddr rq) ri traced i) =
  Ok (chunk_data data (ri_total_len ri) (ri_nchunks ri) i).
Proof.
  intros Hd Hn Hi Hsrc. unfold GenPayload. simpl.
  set (len := ri_total_len ri) in *. set (n := ri_nchunks ri) in *.
  pose proof (chunk_data_length data len n i Hd Hn Hi) as Hl.
  assert (read_mem src (rq_laddr rq + chunk_off len n i) (chunk_size len n i)
          = Some <$> chunk_data data len n i) as ->.
  { rewrite <- Hl. apply read_mem_eq. intros x Hx. rewrite Hl in Hx.
    rewrite chunk_data_lookup by done. rewrite <- Hd in Hsrc. rewrite <- read_mem_eq in Hsrc.
    pose proof (chunk_off_bound len n i Hn ltac:(lia)).
    pose proof (chunk_off_bound len n (i + 1) Hn ltac:(lia)) as Hb.
    rewrite chunk_off_succ in Hb by lia.
    rewrite <- Z.add_assoc. apply Hsrc. lia. }
  by rewrite mapM_id_Some.
Qed.

(** * The send loop of a worker *)

Section Send.
Context {C : Type} `{StreamLaws C}.

Definition sent_bytes (p : ChunkEntry * bytes) : bytes := data_bytes (ce_chunk p.1) ++ p.2.

(** An untraced chunk whose payload can be read. *)
Record sendable_chunk (src : mem) (p : ChunkEntry * bytes) : Prop := {
  sc_data : DataHeader_IsData (ce_chunk p.1) = true;
  sc_untraced : IsTraced (dh_trace (ce_chunk p.1)) = false;
  sc_payload : GenPayload src p.1 = Ok p.2;
  sc_len : hb_len (dh_base (ce_chunk p.1)) = Z.of_nat (length p.2);
  sc_max : Z.of_nat (length p.2) < 2 ^ 32;
}.

Lemma two_sided c : IsOneSidedChannel (Type_ (C := C) c) = false.
Proof.
  destruct (st_type c) as (_ & _ & Ht). unfold IsTwoSidedChannel in Ht. by apply negb_true_iff in Ht.
Qed.

Lemma hasSendWork_chunk id stop infos e es :
  hasSendWork (mkWorker id stop infos (e :: es)) = true.
Proof.
  unfold hasSendWork. cbn [wk_chunks length]. rewrite (bool_decide_false (S _ = 0%nat)) by done.
  cbn [negb]. by rewrite orb_true_r.
Qed.
Lemma hasSendWork_info id stop e infos es :
  hasSendWork (mkWorker id stop (e :: infos) es) = true.
Proof.
  unfold hasSendWork. cbn [wk_infos length]. by rewrite (bool_decide_false (S _ = 0%nat)) by done.
Qed.

Lemma SendLoop_chunks src ps : ∀ id stop (w : world C) nows, usable (w_ch w) → w_mem w = src →
  Forall (sendable_chunk src) ps → length nows = length ps →
  ∃ w', SendLoop (mkWorker id stop [] (fst <$> ps)) w nows = Ok (mkWorker id stop [] [], w', Continue) ∧
    became (w_ch w) (w_ch w') (inbound (w_ch w)) (outbound (w_ch w) ++ concat (sent_bytes <$> ps)).
Proof.
  induction ps as [|[e p] ps IH]; intros id stop w nows Hu Hm Hf Hl.
  - destruct nows; [|done]. exists w. split; [done|]. simpl. rewrite app_nil_r. by split.
  - destruct nows as [|now nows]; [done|]. inversion Hf as [|? ? [Hd Ht Hp Hlen Hmax] Hf']; subst.
    simpl in Hd, Ht, Hp, Hlen, Hmax. rewrite fmap_cons. cbn [SendLoop fst].
    unfold SendLoop_iter, pick. rewrite hasSendWork_chunk. cbn [negb wk_infos wk_chunks].
    rewrite bind_Ok. cbn [wk_id wk_stop]. rewrite bind_dcheck by done.
    unfold stamp_tx. rewrite Ht. cbn [negb]. cbn [w_mem add_events]. rewrite Hp, bind_Ok.
    destruct (SendChunk_stream (w_ch w) (ce_chunk e) p Hu Hd Hlen Hmax) as (c' & E & Hb).
    cbn [w_ch add_events]. rewrite E, bind_Ok. cbn [w_ch add_events with_ch].
    rewrite two_sided, bind_Ok.
    edestruct (IH id stop (add_events (with_ch (add_events w [EvWorkerDequeued (ce_chunk e) id]) c')
      [EvWriteBytes (Z.of_nat (length p)); EvTxWriteDone (ce_chunk e) id]) nows) as (w' & E' & Hb');
      [apply Hb|done|exact Hf'|simpl in Hl; lia|].
    exists w'. split; [exact E'|]. cbn [w_ch add_events with_ch] in Hb'.
    pose proof Hb as (_ & _ & Hi & Ho). rewrite Hi, Ho in Hb'.
    rewrite fmap_cons. cbn [concat]. unfold sent_bytes at 1. simpl fst. simpl snd.
    rewrite app_assoc. by eapply became_trans.
Qed.

(** The whole queue left by one post: its info, then its chunks. *)
Lemma SendLoop_post src id stop (w : world C) info reqs ps nows : usable (w_ch w) → w_mem w = src →
  postinfo_wf info → PostInfoHeader_IsValid info = true → reqs ≠ [] →
  Forall (λ r, RequestInfo_IsValid r = true) reqs →
  hb_len (pi_base info) = Z.of_nat (length reqs) * kRequestInfoSize →
  Z.of_nat (length reqs) < 2 ^ 32 →
  Forall (sendable_chunk src) ps → length nows = S (length ps) →
  ∃ w', SendLoop (mkWorker id stop [mkInfoEntry info reqs] (fst <$> ps)) w nows
          = Ok (mkWorker id stop [] [], w', Continue) ∧
    became (w_ch w) (w_ch w') (inbound (w_ch w))
      (outbound (w_ch w) ++ info_bytes info ++ store_requests reqs ++ concat (sent_bytes <$> ps)).
Proof.
  intros Hu Hm Hiw Hiv Hne Hrv Hlen Hcnt Hf Hl. destruct nows as [|now nows]; [done|].
  cbn [SendLoop]. unfold SendLoop_iter, pick. rewrite hasSendWork_info. cbn [negb wk_infos wk_chunks].
  rewrite bind_Ok.
  destruct (SendInfo_stream (w_ch w) info reqs) as (c' & E & Hb); [done..|].
  cbn [ie_info ie_reqs]. rewrite E, bind_Ok.
  destruct (SendLoop_chunks src ps id stop (with_ch w c') nows) as (w' & E' & Hb');
    [apply Hb|done|done|simpl in Hl; lia|].
  exists w'. rewrite bind_Ok. split; [exact E'|]. cbn [w_ch with_ch] in Hb'.
  pose proof Hb as (_ & _ & Hi & Ho). rewrite Hi, Ho in Hb'. rewrite <- !app_assoc in Hb'.
  by eapply became_trans.
Qed.
End Send.

(** * The messages of a post *)

Section Messages.
Context (h : Handle) (data : Request → bytes).

Definition msg_at (rq : Request) (ri : RequestInfo) (i : Z) : chunk_msg :=
  mkMsg ri (ce_chunk (chunk_entry h (rq_laddr rq) ri false i))
    (chunk_data (data rq) (ri_total_len ri) (ri_nchunks ri) i).

(** The messages worker [j] of [nw] sends. *)
Definition post_msgs (nw j : nat) (rqs : list Request) (ris : list RequestInfo) : list chunk_msg :=
  concat (zip_with (λ rq ri, msg_at rq ri <$> share nw j (seqZ 0 (ri_nchunks ri))) rqs ris).

Definition post_pairs (nw j : nat) (rqs : list Request) (ris : list RequestInfo)
    : list (ChunkEntry * bytes) :=
  concat (zip_with (λ rq ri, (λ i, (chunk_entry h (rq_laddr rq) ri false i, m_payload (msg_at rq ri i)))
    <$> share nw j (seqZ 0 (ri_nchunks ri))) rqs ris).

Lemma post_pairs_fst nw j rqs : ∀ ris, fst <$> post_pairs nw j rqs ris = post_share nw j h false rqs ris.
Proof.
  unfold post_pairs, post_share. induction rqs as [|rq rqs IH]; intros [|ri ris]; simpl; try done.
  rewrite fmap_app, IH. f_equal. by rewrite <- list_fmap_compose.
Qed.
Lemma post_pairs_bytes nw j rqs : ∀ ris,
  concat (sent_bytes <$> post_pairs nw j rqs ris) = concat (msg_bytes <$> post_msgs nw j rqs ris).
Proof.
  unfold post_pairs, post_msgs. induction rqs as [|rq rqs IH]; intros [|ri ris]; cbn [zip_with concat];
    try done.
  rewrite !fmap_app, !concat_app, IH. f_equal. by rewrite <- !list_fmap_compose.
Qed.

Lemma elem_of_post_pairs nw j rqs ris p : p ∈ post_pairs nw j rqs ris →
  ∃ k rq ri i, rqs !! k = Some rq ∧ ris !! k = Some ri ∧ 0 ≤ i < ri_nchunks ri ∧
    p = (chunk_entry h (rq_laddr rq) ri false i, m_payload (msg_at rq ri i)).
Proof.
  unfold post_pairs. rewrite elem_of_concat. intros (k & l & Hl & Hp).
  apply lookup_zip_with_Some in Hl as (rq & ri & -> & Hrq & Hri).
  apply list_elem_of_fmap in Hp as (i & -> & Hi). unfold share in Hi.
  apply list_elem_of_filter in Hi as [_ Hi]. apply elem_of_seqZ in Hi. exists k, rq, ri, i.
  split; [done|]. split; [done|]. split; [lia|done].
Qed.

Lemma elem_of_post_msgs nw rqs ris m : (0 < nw)%nat →
  m ∈ concat ((λ j, post_msgs nw j rqs ris) <$> seq 0 nw) ↔
  ∃ k rq ri i, rqs !! k = Some rq ∧ ris !! k = Some ri ∧ 0 ≤ i < ri_nchunks ri ∧ m = msg_at rq ri i.
Proof.
  intros Hnw. rewrite elem_of_concat. split.
  - intros (j & l & Hl & Hm). rewrite list_lookup_fmap in Hl.
    destruct (seq 0 nw !! j) as [j'|]; simpl in Hl; simplify_eq. unfold post_msgs in Hm.
    apply elem_of_concat in Hm as (k & l & Hl & Hm).
    apply lookup_zip_with_Some in Hl as (rq & ri & -> & Hrq & Hri).
    apply list_elem_of_fmap in Hm as (i & -> & Hi). unfold share in Hi.
    apply list_elem_of_filter in Hi as [_ Hi]. apply elem_of_seqZ in Hi. exists k, rq, ri, i.
    split; [done|]. split; [done|]. split; [lia|done].
  - intros (k & rq & ri & i & Hrq & Hri & Hi & ->).
    pose proof (Z.mod_pos_bound i (Z.of_nat nw) ltac:(lia)) as Hmod.
    exists (Z.to_nat (i `mod` Z.of_nat nw)), (post_msgs nw (Z.to_nat (i `mod` Z.of_nat nw)) rqs ris).
    split; [rewrite list_lookup_fmap, lookup_seq_lt by lia; done|].
    unfold post_msgs. apply elem_of_concat. exists k. eexists.
    split; [apply lookup_zip_with_Some; by exists rq, ri|].
    apply list_elem_of_fmap_2. unfold share. apply list_elem_of_filter.
    split; [lia|]. apply elem_of_seqZ. lia.
Qed.

(** Every chunk of every request is among them, once. *)
Lemma post_covered nw rqs ris : (0 < nw)%nat → length rqs = length ris →
  undone ris (m_key <$> concat ((λ j, post_msgs nw j rqs ris) <$> seq 0 nw)) = [].
Proof.
  intros Hnw Hl. apply elem_of_nil_inv. intros ri [Hn Hin]%list_elem_of_filter. apply Hn, covered_spec. intros i Hi.
  apply list_elem_of_lookup in Hin as [k Hk]. destruct (lookup_lt_is_Some_2 rqs k) as [rq Hrq]; [rewrite Hl; by eapply lookup_lt_Some|].
  apply list_elem_of_fmap. exists (msg_at rq ri i). split; [done|]. apply elem_of_post_msgs; [done|]. eauto 8.
Qed.
Lemma post_keys nw j rqs : ∀ ris, length rqs = length ris →
  m_key <$> post_msgs nw j rqs ris = ris ≫= λ ri, pair (ri_reqid ri) <$> share nw j (seqZ 0 (ri_nchunks ri)).
Proof.
  unfold post_msgs. induction rqs as [|rq rqs IH]; intros [|ri ris] Hl; try done. cbn [zip_with concat mbind list_bind].
  rewrite fmap_app, IH by (cbn in Hl; lia). f_equal. by rewrite <- list_fmap_compose.
Qed.
Lemma post_keys_NoDup nw rqs ris : length rqs = length ris → NoDup (ri_reqid <$> ris) →
  NoDup (m_key <$> concat ((λ j, post_msgs nw j rqs ris) <$> seq 0 nw)).
Proof.
  intros Hl Hnd. assert (m_key <$> concat ((λ j, post_msgs nw j rqs ris) <$> seq 0 nw) =
    seq 0 nw ≫= λ j, ris ≫= λ ri, pair (ri_reqid ri) <$> share nw j (seqZ 0 (ri_nchunks ri))) as ->.
  { induction (seq 0 nw) as [|j l IH]; [done|]. rewrite fmap_cons. cbn [concat mbind list_bind]. by rewrite fmap_app, post_keys, IH. }
  assert (∀ j k, k ∈ (ris ≫= λ ri, pair (ri_reqid ri) <$> share nw j (seqZ 0 (ri_nchunks ri))) → k.2 `mod` Z.of_nat nw = Z.of_nat j) as Hj.
  { intros j k (ri & Hk & _)%list_elem_of_bind. apply list_elem_of_fmap in Hk as (i & -> & Hi). by apply list_elem_of_filter in Hi as [? _]. }
  apply NoDup_bind; [|intros j _; apply NoDup_bind|apply NoDup_seq].
  - intros j1 j2 k _ _ H1%Hj H2%Hj. lia.
  - intros r1 r2 k Hr1 Hr2 (i1 & -> & _)%list_elem_of_fmap (i2 & [= E _] & _)%list_elem_of_fmap. by apply (reqid_inj ris).
  - intros ri _. apply NoDup_fmap_2; [by intros ? ? [= ->]|]. apply NoDup_filter, NoDup_seqZ.
  - by apply NoDup_fmap_1 in Hnd.
Qed.
End Messages.

(** * The post seen by the receiver *)

(** Where the receiver puts the data: buffers inside the address space, pairwise disjoint. *)
Record buffers_ok (dst : RequestInfo → Z) (ris : list RequestInfo) : Prop := {
  bo_range : ∀ ri, ri ∈ ris → 0 < dst ri ∧ dst ri + ri_total_len ri ≤ 2 ^ 64;
  bo_disjoint : ∀ r1 r2, r1 ∈ ris → r2 ∈ ris → r1 ≠ r2 →
    dst r1 + ri_total_len r1 ≤ dst r2 ∨ dst r2 + ri_total_len r2 ≤ dst r1;
}.

(** A request and its descriptor. *)
Record job_ok (data : Request → bytes) (rq : Request) (ri : RequestInfo) : Prop := {
  jo_len : ri_total_len ri = rq_len rq;
  jo_data : Z.of_nat (length (data rq)) = rq_len rq;
  jo_chunks : 0 < ri_nchunks ri ≤ ri_total_len ri;
  jo_max : (ri_total_len ri + ri_nchunks ri - 1) / ri_nchunks ri ≤ 2 ^ 32 - 1;
  jo_wf : reqinfo_wf ri;
}.

Lemma msg_at_ok h data (rqs : list Request) ris dst k rq ri i : fits 32 h → buffers_ok dst ris →
  rqs !! k = Some rq → ris !! k = Some ri → job_ok data rq ri → 0 ≤ i < ri_nchunks ri →
  msg_ok h ris dst (msg_at h data rq ri i).
Proof.
  intros Hh [Hb _] Hrq Hri [Hlen Hd Hn Hmax Hwf] Hi.
  assert (ri ∈ ris) as Hin by by eapply list_elem_of_lookup_2.
  destruct (Hb ri Hin) as [Hd0 Hd1]. destruct Hwf as (W1 & W2 & W3 & W4 & _).
  set (len := ri_total_len ri) in *. set (n := ri_nchunks ri) in *.
  pose proof (chunk_size_pos len n i Hn). pose proof (chunk_size_bound len n i ltac:(lia) ltac:(lia)).
  pose proof (chunk_off_bound len n i Hn ltac:(lia)).
  pose proof (chunk_off_bound len n (i + 1) Hn ltac:(lia)) as Hb1. rewrite chunk_off_succ in Hb1 by lia.
  split; simpl; fold len n.
  - done.
  - split; [|split; [done|split; [unfold fits in *; simpl; lia|split; [|split]]]].
    + split; [done|]. split; [done|]. simpl. fold len n. unfold fits. lia.
    + simpl. fold len n. unfold fits in *. lia.
    + simpl. fold len n. destruct (ri_raddr ri =? 0); [done|apply wrap_fits; lia].
    + by repeat split.
  - by apply chunk_is_data.
  - done.
  - done.
  - done.
  - unfold m_len. simpl. fold len n. rewrite chunk_data_length by (done || lia). done.
  - lia.
  - unfold m_addr. simpl. fold len n. lia.
Qed.

Lemma chunk_ranges_disjoint len n i j : 0 < n ≤ len → 0 ≤ i < n → 0 ≤ j < n → i ≠ j →
  chunk_off len n i + chunk_size len n i ≤ chunk_off len n j ∨
  chunk_off len n j + chunk_size len n j ≤ chunk_off len n i.
Proof.
  intros Hn Hi Hj Hne. rewrite <- !chunk_off_succ by lia.
  destruct (decide (i < j)); [left|right]; apply chunk_off_mono; lia.
Qed.

Lemma msgs_compatible h data ris dst rq1 ri1 i1 rq2 ri2 i2 (rqs : list Request) k1 k2 :
  NoDup (ri_reqid <$> ris) → buffers_ok dst ris →
  rqs !! k1 = Some rq1 → ris !! k1 = Some ri1 → job_ok data rq1 ri1 → 0 ≤ i1 < ri_nchunks ri1 →
  rqs !! k2 = Some rq2 → ris !! k2 = Some ri2 → job_ok data rq2 ri2 → 0 ≤ i2 < ri_nchunks ri2 →
  compatible dst (msg_at h data rq1 ri1 i1) (msg_at h data rq2 ri2 i2).
Proof.
  intros Hnd [Hbr Hbd] Hq1 Hr1 J1 Hi1 Hq2 Hr2 J2 Hi2. unfold compatible. case_decide as Hk.
  - unfold m_key in Hk. simpl in Hk. injection Hk as Hid ->.
    assert (k1 = k2) as ->.
    { eapply (NoDup_lookup _ _ _ (ri_reqid ri1) Hnd); rewrite list_lookup_fmap, ?Hr1, ?Hr2; simpl; congruence. }
    simplify_eq. done.
  - unfold m_addr, m_len. simpl.
    destruct J1 as [L1 D1 N1 M1 W1], J2 as [L2 D2 N2 M2 W2].
    rewrite !chunk_data_length by (lia || congruence).
    destruct (decide (k1 = k2)) as [->|Hne].
    + rewrite Hr1 in Hr2. injection Hr2 as <-.
      destruct (decide (i1 = i2)) as [->|Hi]; [by destruct Hk|].
      pose proof (chunk_ranges_disjoint (ri_total_len ri1) (ri_nchunks ri1) i1 i2 N1 Hi1 Hi2 Hi). lia.
    + assert (ri1 ≠ ri2) as Hrne.
      { intros ->. apply Hne. eapply (NoDup_lookup _ _ _ (ri_reqid ri2) Hnd);
          rewrite list_lookup_fmap, ?Hr1, ?Hr2; done. }
      pose proof (Hbd ri1 ri2 ltac:(by eapply list_elem_of_lookup_2)
        ltac:(by eapply list_elem_of_lookup_2) Hrne).
      pose proof (chunk_off_bound (ri_total_len ri1) (ri_nchunks ri1) i1 N1 ltac:(lia)).
      pose proof (chunk_off_bound (ri_total_len ri2) (ri_nchunks ri2) i2 N2 ltac:(lia)).
      pose proof (chunk_off_bound (ri_total_len ri1) (ri_nchunks ri1) (i1 + 1) N1 ltac:(lia)) as B1.
      pose proof (chunk_off_bound (ri_total_len ri2) (ri_nchunks ri2) (i2 + 1) N2 ltac:(lia)) as B2.
      rewrite chunk_off_succ in B1, B2 by lia. lia.
Qed.

(** The chunks of a request put together are the request. *)
Lemma chunks_assemble m a data len n : Z.of_nat (length data) = len → 0 < n ≤ len →
  (∀ i, 0 ≤ i < n → read_mem m (a + chunk_off len n i) (chunk_size len n i)
                     = Some <$> chunk_data data len n i) →
  read_mem m a len = Some <$> data.
Proof.
  intros Hd Hn Hc. rewrite <- Hd. apply read_mem_eq. intros x Hx. rewrite Hd in Hx.
  assert (x ∈ seqZ 0 len) as Hin by (apply elem_of_seqZ; lia).
  rewrite <- (chunk_off_end len n) in Hin by lia. rewrite <- chunks_tile in Hin by lia.
  apply elem_of_concat in Hin as (k & l & Hl & Hin). rewrite list_lookup_fmap in Hl.
  destruct (seqZ 0 n !! k) as [i|] eqn:Ei; simpl in Hl; simplify_eq.
  apply lookup_seqZ in Ei as [-> Hi]. apply elem_of_seqZ in Hin.
  set (i := 0 + Z.of_nat k) in *. specialize (Hc i ltac:(lia)).
  rewrite <- (chunk_data_length data (Z.of_nat (length data)) n i) in Hc by (done || lia).
  rewrite <- read_mem_eq in Hc. rewrite chunk_data_length in Hc by (done || lia).
  specialize (Hc (x - chunk_off (Z.of_nat (length data)) n i) ltac:(lia)).
  rewrite chunk_data_lookup in Hc by (done || lia).
  replace (a + chunk_off (Z.of_nat (length data)) n i + (x - chunk_off (Z.of_nat (length data)) n i))
    with (a + x) in Hc by lia.
  rewrite Hc. f_equal. lia.
Qed.

(** * The descriptors the engine generates *)

Lemma write_infos_lookup nw next rqs k rq ri : rqs !! k = Some rq →
  write_infos nw next rqs !! k = Some ri →
  ∃ id, id ∈ gen_ids (length rqs) next ∧ ri = write_info nw id rq.
Proof.
  intros Hrq Hri. apply lookup_zip_with_Some in Hri as (id & rq' & -> & Hid & Hrq'). simplify_eq.
  exists id. split; [by eapply list_elem_of_lookup_2|done].
Qed.

Lemma write_infos_ids nw next rqs : ri_reqid <$> write_infos nw next rqs = gen_ids (length rqs) next.
Proof.
  unfold write_infos. pose proof (gen_ids_length (length rqs) next) as Hl.
  revert Hl. generalize (gen_ids (length rqs) next). intros ids. revert rqs.
  induction ids as [|id ids IH]; intros [|rq rqs] Hl; try done.
  cbn [zip_with]. rewrite fmap_cons, IH by (simpl in Hl; lia). done.
Qed.

(** What the sender must know about a post: it is ready, its workers are idle, and its
    buffers hold the data. *)
Record source_ok (e : Engine) (post : PostEntry) (ws : Workers) (src : mem)
    (data : Request → bytes) : Prop := {
  so_ready : ready e post ws;
  so_untraced : pe_trace_ctx post = false;
  so_handle : fits 32 (pe_handle post);
  so_next : fits 32 (en_next_reqid e);
  so_self : endpoint_wf (en_self e) ∧ HasNonzeroIpPort (en_self e) = true;
  so_meta : is_bytes 32 (pe_metadata post);
  so_idle : Forall (λ w, wk_infos w.1 = [] ∧ wk_chunks w.1 = []) ws;
  so_data : ∀ rq, rq ∈ pe_reqs post → read_mem src (rq_laddr rq) (rq_len rq) = Some <$> data rq;
}.

(** The receiver: it has a receive callback and has not seen the post. *)
Record sink_ok (rk : RequestTracker) (peer : Endpoint) (h : Handle) : Prop := {
  si_tracker : rk_wf rk;
  si_callback : rk_recv_post rk = true;
  si_new : rk_trackers rk !! (peer, h) = None;
}.

Section Jobs.
Context (e : Engine) (post : PostEntry) (ws : Workers) (src : mem) (data : Request → bytes).
Context (Hsrc : source_ok e post ws src data).
Let nw := length ws.
Let rqs := pe_reqs post.
Let ris := write_infos (Z.of_nat nw) (en_next_reqid e) rqs.

Lemma job_count : 0 < Z.of_nat nw < 2 ^ 32.
Proof.
  destruct (so_ready _ _ _ _ _ Hsrc) as [_ Hne Hc _ _ _ _ _ _ _]. unfold nw.
  destruct ws; [done|simpl in *; lia].
Qed.
Lemma job_reqs : Z.of_nat (length rqs) ≤ 2 ^ 32 - 1.
Proof.
  destruct (so_ready _ _ _ _ _ Hsrc) as [_ _ _ _ _ _ _ Hs _ _].
  unfold kSerializedRequestInfoSize in Hs. fold rqs in Hs. lia.
Qed.
Lemma job_ids : NoDup (gen_ids (length rqs) (en_next_reqid e)) ∧
  Forall (λ id, 0 < id < 2 ^ 32) (gen_ids (length rqs) (en_next_reqid e)).
Proof. apply gen_ids_unique; [apply Hsrc|apply job_reqs]. Qed.

Lemma job_at k rq ri : rqs !! k = Some rq → ris !! k = Some ri → job_ok data rq ri.
Proof.
  intros Hrq Hri. destruct (write_infos_lookup _ _ _ _ _ _ Hrq Hri) as (id & Hid & ->).
  pose proof job_ids as [_ Hf]. rewrite list.Forall_forall in Hf. specialize (Hf _ Hid). simpl in Hf.
  destruct (so_ready _ _ _ _ _ Hsrc) as [_ _ _ _ _ _ Hse _ _ _].
  rewrite list.Forall_forall in Hse. pose proof (list_elem_of_lookup_2 _ _ _ Hrq) as Hin.
  destruct (Hse rq Hin) as [Hop Hla Hra Hln Hck Hmd]. fold nw in Hck. pose proof job_count as Hnw.
  pose proof (f_equal length (so_data _ _ _ _ _ Hsrc rq Hin)) as Hd.
  rewrite length_read_mem, length_fmap in Hd.
  split; simpl; try lia; try done. unfold reqinfo_wf. simpl. rewrite Hop. unfold fits.
  repeat split; try lia; try done; try apply Hra; try apply Hmd.
  by repeat constructor.
Qed.

Lemma job_sendable j : Forall (sendable_chunk src) (post_pairs (pe_handle post) data nw j rqs ris).
Proof.
  apply list.Forall_forall. intros p Hp.
  apply elem_of_post_pairs in Hp as (k & rq & ri & i & Hrq & Hri & Hi & ->).
  destruct (job_at k rq ri Hrq Hri) as [Hlen Hd Hn Hmax Hwf].
  pose proof (chunk_size_pos (ri_total_len ri) (ri_nchunks ri) i Hn).
  pose proof (chunk_size_bound (ri_total_len ri) (ri_nchunks ri) i ltac:(lia) ltac:(lia)).
  pose proof (chunk_data_length (data rq) (ri_total_len ri) (ri_nchunks ri) i
    ltac:(congruence) Hn Hi) as Hcl.
  split.
  - by apply chunk_is_data.
  - done.
  - apply GenPayload_chunk; [congruence|done|done|]. rewrite Hlen. apply Hsrc.
    by eapply list_elem_of_lookup_2.
  - symmetry. exact Hcl.
  - cbn [snd m_payload msg_at]. lia.
Qed.

Lemma job_info ri : ri ∈ ris →
  ∃ rq id, rq ∈ rqs ∧ job_ok data rq ri ∧ ri = write_info (Z.of_nat nw) id rq ∧ sendable (Z.of_nat nw) rq.
Proof.
  intros Hin. apply list_elem_of_lookup in Hin as [k Hk].
  destruct (lookup_lt_is_Some_2 rqs k) as [rq Hrq].
  { apply lookup_lt_Some in Hk. unfold ris in Hk. rewrite write_infos_length in Hk. done. }
  destruct (write_infos_lookup _ _ _ _ _ _ Hrq Hk) as (id & _ & ?).
  pose proof (list_elem_of_lookup_2 _ _ _ Hrq) as Hel.
  exists rq, id. split; [done|]. split; [by eapply job_at|]. split; [done|].
  pose proof (re_sendable _ _ _ (so_ready _ _ _ _ _ Hsrc)) as Hse.
  rewrite list.Forall_forall in Hse. by apply Hse.
Qed.

Lemma job_header : postinfo_wf (post_info e post) ∧ PostInfoHeader_IsValid (post_info e post) = true ∧
  hb_len (pi_base (post_info e post)) = Z.of_nat (length ris) * kRequestInfoSize ∧ ris ≠ [] ∧
  Forall (λ r, reqinfo_wf r ∧ RequestInfo_IsValid r = true) ris.
Proof.
  pose proof job_reqs as Hcnt. pose proof job_count as Hnw.
  destruct (so_ready _ _ _ _ _ Hsrc) as [_ _ _ _ _ Hne _ Hs _ _]. fold rqs in Hne, Hs.
  unfold kSerializedRequestInfoSize in Hs.
  assert (0 < Z.of_nat (length rqs)) as Hpos by (destruct rqs; [done|simpl; lia]).
  split; [|split; [|split; [|split]]].
  - split; [|split; apply Hsrc]. split; [done|]. split; [apply Hsrc|]. simpl. fold rqs.
    unfold fits, kSerializedRequestInfoSize. lia.
  - unfold PostInfoHeader_IsValid, HeaderBase_IsPostInfo. simpl. fold rqs.
    rewrite Z.mod_mul by done. rewrite andb_true_r. apply Z.ltb_lt.
    unfold kSerializedRequestInfoSize. lia.
  - simpl. fold rqs. unfold ris. by rewrite write_infos_length.
  - intros E. apply (f_equal length) in E. unfold ris in E. rewrite write_infos_length in E.
    simpl in E. lia.
  - apply list.Forall_forall. intros ri Hin. destruct (job_info ri Hin) as (rq & id & Hq & Hj & -> & Hs').
    split; [apply Hj|]. apply write_info_valid; [lia|done].
Qed.

Lemma job_post_ok rk : sink_ok rk (en_self e) (pe_handle post) →
  buffers_ok (resolve_raddr rk (pe_metadata post)) ris → post_ok rk (post_info e post) ris.
Proof.
  intros [Hwf Hcb Hnew] [Hb _]. destruct job_header as (H1 & H2 & H3 & H4 & H5).
  split; try done.
  - apply Hsrc.
  - unfold ris. rewrite write_infos_ids. apply job_ids.
  - apply list.Forall_forall. intros ri Hin. destruct (job_info ri Hin) as (rq & id & Hq & Hj & -> & Hs).
    simpl. apply Hs.
  - apply list.Forall_forall. intros ri Hin. simpl. pose proof (Hb ri Hin). lia.
Qed.
End Jobs.

(** * End to end *)

(** The entries queued in a worker: one iteration of its send loop each. *)
Definition queued (w : Worker) : nat := (length (wk_infos w) + length (wk_chunks w))%nat.

Section EndToEnd.
Context {C : Type} `{StreamLaws C}.
Context (e : Engine) (post : PostEntry) (ws : Workers) (src : mem) (data : Request → bytes).
Context (Hsrc : source_ok e post ws src data).

Abbreviation nw := (length ws).
Abbreviation rqs := (pe_reqs post).
Abbreviation ris := (write_infos (Z.of_nat nw) (en_next_reqid e) rqs).
Abbreviation msgs j := (post_msgs (pe_handle post) data nw j rqs ris).
Abbreviation all_msgs := ((λ j, msgs j) <$> seq 0 nw).

(** The bytes worker [j] sends. *)
Definition sent (j : nat) : bytes :=
  info_bytes (post_info e post) ++ store_requests ris ++ concat (msg_bytes <$> msgs j).

Definition sent_worker (w : Worker) (j : nat) : Worker :=
  mkWorker (wk_id w) (wk_stop w) [mkInfoEntry (post_info e post) ris]
    (fst <$> post_pairs (pe_handle post) data nw j rqs ris).

Lemma sent_worker_queued w j : queued (sent_worker w j) = S (length (msgs j)).
Proof.
  unfold queued. cbn [wk_infos wk_chunks sent_worker length]. rewrite length_fmap.
  f_equal. unfold post_pairs, post_msgs.
  generalize ris. intros l. induction rqs as [|rq rqs' IH] in l |- *; destruct l as [|ri l]; try done.
  cbn [zip_with concat]. by rewrite !length_app, !length_fmap, IH.
Qed.

Lemma queue_filled j w t : ws !! j = Some (w, t) →
  give (push_info w (mkInfoEntry (post_info e post) ris))
    (post_share nw j (pe_handle post) (pe_trace_ctx post) rqs ris) = sent_worker w j.
Proof.
  intros Hj. pose proof (Forall_lookup_1 _ _ _ _ (so_idle _ _ _ _ _ Hsrc) Hj) as [Hi Hc].
  simpl in Hi, Hc. unfold give, push_info, sent_worker. simpl. rewrite Hi, Hc, post_pairs_fst.
  by rewrite (so_untraced _ _ _ _ _ Hsrc).
Qed.

Lemma worker_sends j w (tw : world C) nows : usable (w_ch tw) → w_mem tw = src →
  length nows = queued (sent_worker w j) →
  ∃ w' tw', SendLoop (sent_worker w j) tw nows = Ok (w', tw', Continue) ∧ queued w' = 0%nat ∧
    usable (w_ch tw') ∧ outbound (w_ch tw') = outbound (w_ch tw) ++ sent j.
Proof.
  intros Hu Hm Hl. rewrite sent_worker_queued in Hl.
  destruct (job_header _ _ _ _ _ Hsrc) as (Hd1 & Hd2 & Hd3 & Hd4 & Hd5).
  pose proof (job_reqs _ _ _ _ _ Hsrc) as Hcnt.
  destruct (SendLoop_post src (wk_id w) (wk_stop w) tw (post_info e post) ris
    (post_pairs (pe_handle post) data nw j rqs ris) nows) as (tw' & E & Hb); try done.
  - eapply Forall_impl; [exact Hd5|]. by intros ri [_ ?].
  - rewrite write_infos_length. lia.
  - by apply (job_sendable _ _ _ _ _ Hsrc).
  - rewrite Hl, <- (sent_worker_queued w j). unfold queued. cbn [wk_infos wk_chunks sent_worker length].
    by rewrite length_fmap.
  - eexists _, tw'. split; [exact E|]. split; [done|]. split; [apply Hb|].
    destruct Hb as (_ & _ & _ & ->). unfold sent. by rewrite post_pairs_bytes.
Qed.

(** Every chunk of every request is sent. *)
Lemma all_covered : undone ris (m_key <$> concat all_msgs) = [].
Proof. apply post_covered; [pose proof (job_count _ _ _ _ _ Hsrc); lia|by rewrite write_infos_length]. Qed.

Lemma all_msgs_lookup j : all_msgs !! j = if decide (j < nw)%nat then Some (msgs j) else None.
Proof.
  rewrite list_lookup_fmap. case_decide; [by rewrite lookup_seq_lt by lia|].
  by rewrite lookup_ge_None_2 by (rewrite length_seq; lia).
Qed.

Lemma all_msgs_ok rk : sink_ok rk (en_self e) (pe_handle post) →
  buffers_ok (resolve_raddr rk (pe_metadata post)) ris →
  (∀ m, m ∈ concat all_msgs →
     msg_ok (pe_handle post) ris (resolve_raddr rk (pe_metadata post)) m) ∧
  (∀ m1 m2, m1 ∈ concat all_msgs → m2 ∈ concat all_msgs →
     compatible (resolve_raddr rk (pe_metadata post)) m1 m2).
Proof.
  intros Hsk Hb. pose proof (job_count _ _ _ _ _ Hsrc) as Hnw. split.
  - intros m Hm. apply elem_of_post_msgs in Hm as (k & rq & ri & i & Hrq & Hri & Hi & ->); [|lia].
    eapply msg_at_ok; eauto using job_at. apply Hsrc.
  - intros m1 m2 Hm1 Hm2.
    apply elem_of_post_msgs in Hm1 as (k1 & rq1 & ri1 & i1 & Hrq1 & Hri1 & Hi1 & ->); [|lia].
    apply elem_of_post_msgs in Hm2 as (k2 & rq2 & ri2 & i2 & Hrq2 & Hri2 & Hi2 & ->); [|lia].
    eapply msgs_compatible; eauto using job_at. rewrite write_infos_ids. by eapply job_ids.
Qed.

(** The receiving side, under any schedule that handles every message. *)
Lemma sent_received (s0 : host C) (sched : list (nat * clock)) :
  let dst := resolve_raddr (ho_in s0) (pe_metadata post) in
  sink_ok (ho_in s0) (en_self e) (pe_handle post) → buffers_ok dst ris →
  length (ho_chs s0) = nw →
  (∀ j c, ho_chs s0 !! j = Some c → usable c ∧ inbound c = sent j) →
  (∀ j, length (filter (λ x, x.1 = j) sched) =
        if decide (j < nw)%nat then S (length (msgs j)) else 0%nat) →
  ∃ s evs, host_run s0 sched = Ok (s, true) ∧
    (∀ k rq ri, rqs !! k = Some rq → ris !! k = Some ri →
       read_mem (ho_mem s) (dst ri) (rq_len rq) = Some <$> data rq) ∧
    (∀ j c0 c, ho_chs s0 !! j = Some c0 → ho_chs s !! j = Some c → ∃ acks, Forall2 (is_ack_of (pe_handle post)) (msgs j) acks ∧
       outbound c = outbound c0 ++ concat (data_bytes <$> acks)) ∧
    Check_ (ho_in s) (pe_handle post) (en_self e) = kSuccess ∧
    ho_evs s = ho_evs s0 ++ evs ∧ length (recv_posts evs) = 1%nat.
Proof.
  intros dst Hsk Hb Hl Hin Hsched. pose proof (job_count _ _ _ _ _ Hsrc) as Hnw.
  destruct (all_msgs_ok _ Hsk Hb) as [Hok Hcomp].
  destruct (multi_delivered (post_info e post) ris s0 all_msgs sched)
    as (s & evs & Hrun & Hmem & _ & Hacks & Hevs & Hdone).
  - by eapply job_post_ok.
  - by rewrite length_fmap, length_seq.
  - intros E. apply (f_equal length) in E. rewrite length_fmap, length_seq in E. simpl in E. lia.
  - intros j c ms Hc Hms. rewrite all_msgs_lookup in Hms. case_decide; [|done]. injection Hms as <-.
    by apply Hin.
  - exact Hok.
  - exact Hcomp.
  - intros j. rewrite Hsched, all_msgs_lookup. by case_decide.
  - rewrite decide_True in Hdone by apply all_covered. exists s, evs. split; [done|].
    split; [|split; [|by destruct Hdone]].
    2:{ intros j c0 c Hc0 Hc. destruct (Hacks j c0 c (msgs j) Hc0 Hc) as (_ & Ha); [|done].
        rewrite all_msgs_lookup, decide_True; [done|]. rewrite <- Hl. by eapply lookup_lt_Some. }
    intros k rq ri Hrq Hri. destruct (job_at _ _ _ _ _ Hsrc k rq ri Hrq Hri) as [Hlen Hd Hn _ _]. rewrite <- Hlen.
    apply chunks_assemble with (n := ri_nchunks ri); [congruence|done|]. intros i Hi.
    rewrite <- (chunk_data_length (data rq)) by (congruence || done).
    apply (Hmem (msg_at (pe_handle post) data rq ri i)).
    apply elem_of_post_msgs; [lia|]. eauto 8.
Qed.
End EndToEnd.

(** ** Ten bytes at 64 sent to 4096 over two connections *)

Definition e2e_workers : Workers := [(Worker_new 1, kMemStream); (Worker_new 2, kMemStream)].
(** The post has the callback 77. *)
Definition e2e_engine : Engine :=
  let e := match Enqueue (Engine_new ep_sample 2 41 7 true None) ep_sample
    (mkItem [mkRequest kWrite 64 4096 10 0 Metadata_zero] (Some 77) Metadata_zero 1000 false) with
  | Ok (e, _) => e | Fault _ => engine_sample end in
  mkEngine (en_self e) (en_num_conns e) (en_stop e) (en_next_handle e) (en_next_reqid e) (en_posts e)
    (en_out e) (en_in e) {[ ep_sample := e2e_workers ]} (en_recv_workers e) (en_closures e) (en_evs e).
Definition e2e_post : PostEntry :=
  mkPostEntry ep_sample 42 [mkRequest kWrite 64 4096 10 0 Metadata_zero] [] Metadata_zero false.
Definition e2e_data : bytes := [10; 11; 12; 13; 14; 15; 16; 17; 18; 19].
Definition e2e_src : mem := list_to_map (zip (seqZ 64 10) e2e_data).
Definition e2e_sched : list (nat * clock) :=
  let ck := mkClock 1 2 3 4 in [(0%nat, ck); (0%nat, ck); (1%nat, ck); (1%nat, ck)].

Lemma e2e_out_wf : rk_wf (en_out e2e_engine).
Proof.
  assert (en_out e2e_engine = put (RequestTracker_new false None false) (Endpoint_default, 42)
    (mkPostTracker ∅ 0 Metadata_zero 1000 (Some 77) false true)) as -> by (vm_compute; reflexivity).
  apply rk_wf_put; [by intros k pt Hk|].
  split; [by intros k r Hr|]. done.
Qed.

Lemma e2e_ready : ready e2e_engine e2e_post e2e_workers.
Proof.
  split.
  - vm_compute. reflexivity.
  - done.
  - done.
  - repeat constructor.
  - done.
  - done.
  - constructor; [|done]. split; try done; try (unfold fits; simpl; lia). by repeat constructor.
  - done.
  - exact e2e_out_wf.
  - eexists. split; [vm_compute; reflexivity|done].
Qed.

Lemma e2e_source_ok : source_ok e2e_engine e2e_post e2e_workers e2e_src (λ _, e2e_data).
Proof.
  split.
  - exact e2e_ready.
  - done.
  - by split.
  - by split.
  - split; [|done]. apply (bool_decide_eq_true _). vm_compute. reflexivity.
  - by repeat constructor.
  - by repeat constructor.
  - intros rq Hrq. apply list_elem_of_singleton in Hrq as ->. vm_compute. reflexivity.
Qed.

Definition e2e_host (sent : nat → bytes) : host Duplex :=
  mkHost ((λ j, set_in true dx_sample (mkMemPipe false [sent j])) <$> seq 0 2)
    (RequestTracker_new false None false) (RequestTracker_new true None true) ∅ [].

