(* ===== verification/RoundTrip.v ===== *)
(** A write post and its completion at the sender: [EndToEnd] on the way there, [AckDelivery]
    on the way back. *)

From stdpp Require Import base tactics list list_numbers numbers gmap fin_maps.
From S2P Require Import Prelude Codec Types IpAddr Endpoint Bitset ChunkTracker Header.
From S2P Require Import HeaderFlatbuf RequestTracker Channel Transfer Trace Worker TransferStream.
From S2P Require Import PostDelivery MultiStream AckDelivery Engine EngineWrite MemChannel EndToEnd.
Local Open Scope Z_scope.

(** One choice for each index. *)
Lemma list_choice {A} (n : nat) (P : nat → A → Prop) : (∀ j, (j < n)%nat → ∃ x, P j x) →
  ∃ l, length l = n ∧ ∀ j x, l !! j = Some x → P j x.
Proof.
  induction n as [|n IH]; intros Hp; [by exists []|].
  destruct IH as (l & Hl & Hx); [intros j Hj; apply Hp; lia|]. destruct (Hp n ltac:(lia)) as [x Hn].
  exists (l ++ [x]). split; [rewrite length_app; cbn; lia|]. intros j y [Hj|[Hj Hy]]%lookup_app_Some; [by apply Hx|].
  apply list_lookup_singleton_Some in Hy as [Hz <-]. by replace j with n by lia.
Qed.

Lemma undone_ext reqs del del' : (∀ k, k ∈ del → k ∈ del') → undone reqs del = [] → undone reqs del' = [].
Proof.
  intros Hi E. apply elem_of_nil_inv. intros r [Hn Hin]%list_elem_of_filter. apply Hn, covered_spec. intros i Hr. apply Hi.
  assert (covered del r) as Hc; [|by apply covered_spec]. destruct (decide (covered del r)) as [|Hc]; [done|].
  exfalso. by apply (filter_nil_not_elem_of (λ r, ¬ covered del r) reqs r).
Qed.

(** The acknowledgements of a post's chunks at the host that sent them, for any requests [rqs]
    with descriptors [ris] over [nw] connections. *)
Section Back.
Context {C : Type} `{StreamLaws C} (h : Handle) (data : Request → bytes) (nw : nat) (rqs : list Request) (ris : list RequestInfo).
Context (Hnw : (0 < nw)%nat) (Hlr : length rqs = length ris) (Hids : NoDup (ri_reqid <$> ris)) (Hok : Forall req_ok ris) (Hne : ris ≠ []).
Abbreviation msgs j := (post_msgs h data nw j rqs ris).
Abbreviation own := (Endpoint_default, h).

(** The sender's tracker after [process]. *)
Lemma post_unacked rk0 pt : rk_wf rk0 → let rk := put rk0 own (added rk0 (Some pt) ris 0 Metadata_zero) in
  tx_inv h ris (resolve_raddr rk0 Metadata_zero) (pt_on_complete pt) rk rk [] [].
Proof.
  intros Hwf rk. split; [|done| |constructor].
  - apply rk_wf_put; [done|by apply added_wf].
  - rewrite decide_False by (rewrite undone_nil by done; by intros [? _]). eexists. split; [apply lookup_insert_eq|]. split; [done|]. split; [|done].
    by apply added_req.
Qed.

Lemma acks_are_ok j (acks : list DataHeader) : Forall2 (is_ack_of h) (msgs j) acks → (j < nw)%nat → Forall (ack_ok h ris) acks.
Proof.
  intros Hf Hj. apply list.Forall_forall. intros a Ha. apply list_elem_of_lookup in Ha as [i Hi].
  destruct (Forall2_lookup_r _ _ _ _ _ Hf Hi) as (m & Hm & [Hw Hk Hh Ek]). split; try done.
  assert (m ∈ concat ((λ j, msgs j) <$> seq 0 nw)) as Hin.
  { apply elem_of_concat. exists j, (msgs j). rewrite list_lookup_fmap, lookup_seq_lt by done. split; [done|]. by eapply list_elem_of_lookup_2. }
  apply elem_of_post_msgs in Hin as (k & rq & ri & x & _ & Hri & Hx & ->); [|lia]. exists ri.
  split; [by eapply list_elem_of_lookup_2|]. unfold m_key in Ek. cbn in Ek. by injection Ek as -> ->.
Qed.

(** The acknowledgements of every message, on their way back. *)
Lemma acks_received rk0 (t0 : host C) (pt : PostTracker) (streams : list (list DataHeader)) (back : list (nat * clock)) :
  rk_wf rk0 → ho_out t0 = put rk0 own (added rk0 (Some pt) ris 0 Metadata_zero) → length streams = nw → length (ho_chs t0) = nw →
  (∀ j acks, streams !! j = Some acks → Forall2 (is_ack_of h) (msgs j) acks ∧
     ∀ c, ho_chs t0 !! j = Some c → usable c ∧ inbound c = concat (data_bytes <$> acks)) →
  (∀ j, length (filter (λ x, x.1 = j) back) = if decide (j < nw)%nat then length (msgs j) else 0%nat) →
  ∃ t evs, host_run t0 back = Ok (t, true) ∧ ho_evs t = ho_evs t0 ++ evs ∧ ho_in t = ho_in t0 ∧ ho_mem t = ho_mem t0 ∧
    completed evs = option_list (pt_on_complete pt) ∧ Forall sender_event evs ∧
    Check_ (ho_out t) h Endpoint_default = match pt_on_complete pt with Some _ => kNotFound | None => kSuccess end ∧
    (∀ k, k ≠ own → rk_trackers (ho_out t) !! k = rk_trackers rk0 !! k).
Proof.
  intros Hwf Ho Hls Hlc Hst Hfair. pose proof (post_unacked rk0 pt Hwf) as Hinv. cbv zeta in Hinv. rewrite <- Ho in Hinv.
  destruct (ack_run h ris (resolve_raddr rk0 Metadata_zero) (pt_on_complete pt) Hids Hne back t0 streams Hinv) as (t & evs & del & E & He & Hi & Hm & Hinv' & Hdel).
  - split; [lia|]. intros j c acks Hc Ha. by apply (Hst j acks Ha).
  - apply list.Forall_forall. intros a (j & acks & Hj & Ha)%elem_of_concat. destruct (Hst j acks Hj) as [Hf _].
    pose proof (acks_are_ok j acks Hf) as Haok. rewrite list.Forall_forall in Haok. apply Haok; [|done]. rewrite <- Hls. by eapply lookup_lt_Some.
  - intros j. rewrite Hfair. case_decide as Hj.
    + destruct (lookup_lt_is_Some_2 streams j) as [acks Ha]; [lia|]. rewrite Ha. cbn. by apply (Forall2_length (is_ack_of h)), Hst.
    + by rewrite lookup_ge_None_2 by lia.
  - assert (undone ris del = []) as Hun.
    { apply (undone_ext _ (m_key <$> concat ((λ j, msgs j) <$> seq 0 nw))); [|by apply post_covered].
      intros k Hk. apply Hdel. apply list_elem_of_fmap in Hk as (m & -> & (j & l & Hj & Hml)%elem_of_concat).
      rewrite list_lookup_fmap in Hj. destruct (seq 0 nw !! j) as [j'|] eqn:Ej; [|done]. apply lookup_seq in Ej as [-> Hj'].
      injection Hj as <-. destruct (lookup_lt_is_Some_2 streams j) as [acks Ha]; [lia|]. destruct (Hst j acks Ha) as [Hf _].
      apply list_elem_of_lookup in Hml as [i Hmi]. destruct (Forall2_lookup_l _ _ _ _ _ Hf Hmi) as (a & Hai & [_ _ _ Ek]).
      apply list_elem_of_fmap. exists a. split; [done|]. apply elem_of_concat. exists j, acks. split; [done|]. by eapply list_elem_of_lookup_2. }
    exists t, evs. do 4 (split; [done|]). destruct (tx_done _ _ _ _ Hne _ _ _ _ Hinv' Hun) as [Hc Hk]. split; [done|]. split; [apply Hinv'|]. split; [done|].
    intros k Hkey. rewrite (tx_others _ _ _ _ _ _ _ _ Hinv') by done. rewrite Ho. by apply lookup_insert_ne.
Qed.

(** What comes back on a channel, split into acknowledgements. *)
Lemma acks_split (s0 s t0 : host C) : length (ho_chs s0) = nw → length (ho_chs s) = nw →
  (∀ j c0 c, ho_chs s0 !! j = Some c0 → ho_chs s !! j = Some c → ∃ acks, Forall2 (is_ack_of h) (msgs j) acks ∧ outbound c = outbound c0 ++ concat (data_bytes <$> acks)) →
  (∀ j c0 c r, ho_chs s0 !! j = Some c0 → ho_chs s !! j = Some c → ho_chs t0 !! j = Some r → usable r ∧ outbound c = outbound c0 ++ inbound r) →
  ∃ streams, length streams = nw ∧ ∀ j acks, streams !! j = Some acks → Forall2 (is_ack_of h) (msgs j) acks ∧
    ∀ r, ho_chs t0 !! j = Some r → usable r ∧ inbound r = concat (data_bytes <$> acks).
Proof.
  intros Hl0 Hl Hacks Hback. apply list_choice. intros j Hj. destruct (lookup_lt_is_Some_2 (ho_chs s0) j) as [c0 Hc0]; [by rewrite Hl0|].
  destruct (lookup_lt_is_Some_2 (ho_chs s) j) as [c Hc]; [by rewrite Hl|]. destruct (Hacks j c0 c Hc0 Hc) as (acks & Ha & Ho). exists acks. split; [done|].
  intros r Hr. destruct (Hback j c0 c r Hc0 Hc Hr) as [Hu Ho']. split; [done|]. rewrite Ho in Ho'. by apply app_inv_head in Ho'.
Qed.
End Back.

Section Main.
Context {C : Type} `{StreamLaws C}.

(** C1: a write post moves the sender's buffers into the receiver's and completes at both
    ends, once.  For a local write post that is ready to be processed, [Engine::process] succeeds and fills the send queues of the peer's workers;
    each worker's send loop empties its queue and writes some bytes [sent j] to its
    stream.  Whenever the streams bring each receiving worker those bytes, in every
    interleaving of the receiving workers that handles one message per queued entry, every
    step succeeds, each destination buffer ends holding exactly the source buffer's
    data, the post is complete there, and the receive callback has been called exactly
    once.  Whenever the streams bring back what the receiving workers wrote, in every
    interleaving of the sender's receiving workers that handles one acknowledgement per
    chunk, every step succeeds, the completion callback, if there is one, is called exactly
    once, with success, and the post is forgotten, a post without a callback is reported as
    successful, and no other post of the sender and none of its memory has changed. *)
Theorem write_round_trip (e : Engine) (post : PostEntry) (ws : Workers) (src : mem)
    (data : Request → bytes) (now : Z) (pt : PostTracker) :
  let ris := write_infos (Z.of_nat (length ws)) (en_next_reqid e) (pe_reqs post) in
  let own := (Endpoint_default, pe_handle post) in
  source_ok e post ws src data → rk_trackers (en_out e) !! own = Some pt →
  ∃ e' ws' sent, process e post now = Ok e' ∧ en_send_workers e' !! pe_peer post = Some ws' ∧
    length ws' = length ws ∧
    (∀ j w t (tw : world C) nows, ws' !! j = Some (w, t) → usable (w_ch tw) → w_mem tw = src →
       length nows = queued w →
       ∃ w' tw', SendLoop w tw nows = Ok (w', tw', Continue) ∧ queued w' = 0%nat ∧
         usable (w_ch tw') ∧ outbound (w_ch tw') = outbound (w_ch tw) ++ sent j) ∧
    (∀ (s0 : host C) sched, let dst := resolve_raddr (ho_in s0) (pe_metadata post) in
       sink_ok (ho_in s0) (en_self e) (pe_handle post) → buffers_ok dst ris →
       length (ho_chs s0) = length ws →
       (∀ j c, ho_chs s0 !! j = Some c → usable c ∧ inbound c = sent j) →
       (∀ j, length (filter (λ x, x.1 = j) sched) = from_option (queued ∘ fst) 0%nat (ws' !! j)) →
       ∃ s evs, host_run s0 sched = Ok (s, true) ∧
         (∀ k rq ri, pe_reqs post !! k = Some rq → ris !! k = Some ri →
            read_mem (ho_mem s) (dst ri) (rq_len rq) = Some <$> data rq) ∧
         Check_ (ho_in s) (pe_handle post) (en_self e) = kSuccess ∧
         ho_evs s = ho_evs s0 ++ evs ∧ length (recv_posts evs) = 1%nat ∧
         (∀ (t0 : host C) back, ho_out t0 = en_out e' → length (ho_chs t0) = length ws →
            (∀ j c0 c r, ho_chs s0 !! j = Some c0 → ho_chs s !! j = Some c → ho_chs t0 !! j = Some r →
               usable r ∧ outbound c = outbound c0 ++ inbound r) →
            (∀ j, length (filter (λ x, x.1 = j) back) = from_option (pred ∘ queued ∘ fst) 0%nat (ws' !! j)) →
            ∃ t evs', host_run t0 back = Ok (t, true) ∧ ho_evs t = ho_evs t0 ++ evs' ∧ completed evs' = option_list (pt_on_complete pt) ∧
              Check_ (ho_out t) (pe_handle post) Endpoint_default = match pt_on_complete pt with Some _ => kNotFound | None => kSuccess end ∧ ho_mem t = ho_mem t0 ∧
              (∀ k, k ≠ own → rk_trackers (ho_out t) !! k = rk_trackers (en_out e) !! k))).
Proof.
  intros ris own Hsrc Hpt.
  destruct (process_write e post ws now (so_ready _ _ _ _ _ Hsrc)) as (e' & ws' & Hp & Hws & Hl & Hq & Hout). fold own in Hout. rewrite Hpt in Hout.
  assert (∀ j w t, ws !! j = Some (w, t) → ws' !! j = Some (sent_worker e post ws data w j, t)) as Hq'.
  { intros j w t Hj. rewrite (Hq j w t Hj). by rewrite (queue_filled e post ws src data Hsrc j w t). }
  assert (∀ j, from_option (queued ∘ fst) 0%nat (ws' !! j) =
    if decide (j < length ws)%nat then S (length (post_msgs (pe_handle post) data (length ws) j (pe_reqs post) ris)) else 0%nat) as Hn.
  { intros j. case_decide as Hj; [|by rewrite lookup_ge_None_2 by lia]. destruct (lookup_lt_is_Some_2 ws j Hj) as [[w0 t0] Hj0].
    rewrite (Hq' _ _ _ Hj0). apply sent_worker_queued. }
  exists e', ws', (sent e post ws data). do 3 (split; [done|]). split.
  { intros j w t tw nows Hj Hu Hm Hnow.
    destruct (lookup_lt_is_Some_2 ws j) as [[w0 t0] Hj0]; [apply lookup_lt_Some in Hj; lia|].
    rewrite (Hq' _ _ _ Hj0) in Hj. injection Hj as <- <-. by apply (worker_sends e post ws src data Hsrc). }
  intros s0 sched dst Hsk Hb Hls Hin Hsched.
  destruct (sent_received e post ws src data Hsrc s0 sched Hsk Hb Hls Hin) as (s & evs & Hrun & Hmem & Hacks & Hck & Hev & Hone); [intros j; by rewrite Hsched, Hn|].
  exists s, evs. do 5 (split; [done|]). intros t0 back Hto Hlt Hback Hfair.
  destruct (job_header _ _ _ _ _ Hsrc) as (_ & _ & _ & Hne & Hrq). pose proof (job_count _ _ _ _ _ Hsrc) as Hnw.
  destruct (acks_split (pe_handle post) data (length ws) (pe_reqs post) ris) with (s0 := s0) (s := s) (t0 := t0) as (streams & Hlen & Hst);
    [done|by rewrite (host_run_length _ _ _ _ Hrun)|done..|].
  destruct (acks_received (pe_handle post) data (length ws) (pe_reqs post) ris) with (rk0 := en_out e) (t0 := t0) (pt := pt) (streams := streams) (back := back)
    as (t & evs' & E & He & _ & Hm & Hc & _ & Hgone & Hoth); try done.
  - lia.
  - unfold ris; by rewrite write_infos_length.
  - unfold ris. rewrite write_infos_ids. apply (job_ids _ _ _ _ _ Hsrc).
  - eapply Forall_impl; [exact Hrq|apply req_ok_of_wf].
  - apply (so_ready _ _ _ _ _ Hsrc).
  - by rewrite Hto.
  - intros j. rewrite Hfair. specialize (Hn j). destruct (ws' !! j) as [[w tp]|]; cbn in *; [|by case_decide].
    rewrite Hn. by case_decide.
  - exists t, evs'. done.
Qed.
End Main.

(** * Ten bytes over two connections, there and back *)

Definition rt_sched : list (nat * clock) := let ck := mkClock 1 2 3 4 in [(1%nat, ck); (0%nat, ck)].
(** Channels that bring back what the receiving workers wrote. *)
Definition rt_host (out : RequestTracker) (chs : list Duplex) : host Duplex :=
  mkHost ((λ c, set_in true dx_sample (mkMemPipe false [concat (mp_queue (dx_p2 c))])) <$> chs) out (RequestTracker_new true None true) ∅ [].
Lemma write_round_trip_witness : ∃ e' sent s t evs, process e2e_engine e2e_post 5 = Ok e' ∧
  @host_run _ (MemStreamChannel true) (e2e_host sent) e2e_sched = Ok (s, true) ∧
  read_mem (ho_mem s) 4096 10 = Some <$> e2e_data ∧
  @host_run _ (MemStreamChannel true) (rt_host (en_out e') (ho_chs s)) rt_sched = Ok (t, true) ∧ ho_evs t = evs ∧ completed evs = [77].
Proof.
  destruct (@write_round_trip Duplex (MemStreamChannel true) (mem_stream true)
    (MemStreamChannel_laws true) e2e_engine e2e_post e2e_workers e2e_src (λ _, e2e_data) 5
    (mkPostTracker ∅ 0 Metadata_zero 1000 (Some 77) false true) e2e_source_ok)
    as (e' & ws' & sent & Hp & Hws & Hl & _ & Hrx); [vm_compute; reflexivity|].
  assert (∀ j, from_option (queued ∘ fst) 0%nat (ws' !! j) = if (j <? 2)%nat then 2%nat else 0%nat) as Hq.
  { pose proof Hp as Hp'. vm_compute in Hp'. injection Hp' as <-. vm_compute in Hws. injection Hws as <-. by intros [|[|j]]. }
  destruct (Hrx (e2e_host sent) e2e_sched) as (s & evs & Hrun & Hm & _ & Hev & Hone & Hback).
  - split; [by intros k pt Hk|done|done].
  - split.
    + intros ri Hri. apply list_elem_of_singleton in Hri as ->. vm_compute. done.
    + intros r1 r2 H1 H2 Hne. apply list_elem_of_singleton in H1 as ->.
      by apply list_elem_of_singleton in H2 as ->.
  - done.
  - intros [|[|j]] c Hc; simpl in Hc; simplify_eq; (split; [by split|apply app_nil_r]).
  - intros j. rewrite Hq. by destruct j as [|[|j]].
  - destruct (Hback (rt_host (en_out e') (ho_chs s)) rt_sched) as (t & evs' & Hrun' & Hev' & Hc & _).
    + reflexivity.
    + cbn. rewrite length_fmap. exact (host_run_length _ _ _ _ Hrun).
    + intros j c0 c r Hc0 Hcs Hr. cbn in Hr. rewrite list_lookup_fmap, Hcs in Hr. injection Hr as <-. split; [by split|].
      cbn. rewrite app_nil_r. destruct j as [|[|j]]; cbn in Hc0; simplify_eq; reflexivity.
    + intros j. specialize (Hq j). destruct (ws' !! j) as [[w tp]|]; cbn in *; [rewrite Hq|]; by destruct j as [|[|j]].
    + exists e', sent, s, t, evs'. split; [exact Hp|]. split; [exact Hrun|]. split.
      { apply (Hm 0%nat (mkRequest kWrite 64 4096 10 0 Metadata_zero)
          (write_info 2 8 (mkRequest kWrite 64 4096 10 0 Metadata_zero))); vm_compute; reflexivity. }
      split; [exact Hrun'|]. split; [exact Hev'|exact Hc].
Defined.
