(* ===== verification/ReadPost.v ===== *)
(** A local read post at its initiator: what [Engine::process] leaves in the workers' queues
    and in the incoming tracker, and what the workers send, the announcement alone. *)

From stdpp Require Import base tactics list list_numbers numbers gmap fin_maps.
From S2P Require Import Prelude Codec Types IpAddr Endpoint Bitset ChunkTracker Header.
From S2P Require Import HeaderFlatbuf RequestTracker Channel Transfer Trace Worker TransferStream.
From S2P Require Import PostDelivery MultiStream Engine EngineWrite EndToEnd.
Local Open Scope Z_scope.

(** * Descriptors *)

(** What the initiator keeps: the address is the local buffer. *)
Definition read_info (nw reqid : Z) (rq : Request) : RequestInfo :=
  mkRequestInfo reqid (Z.min nw (rq_len rq)) (rq_laddr rq) (rq_len rq) (rq_op rq)
    (mkRecipe RecipeType_kContiguous (replicate 32 0)) (rq_metadata rq).
Definition read_infos (nw next : Z) (rqs : list Request) : list RequestInfo :=
  zip_with (read_info nw) (gen_ids (length rqs) next) rqs.
(** What it announces: the address is the remote buffer. *)
Definition asked_info (nw reqid : Z) (rq : Request) : RequestInfo := with_raddr (read_info nw reqid rq) (rq_raddr rq).
Definition asked_infos (nw next : Z) (rqs : list Request) : list RequestInfo :=
  zip_with (asked_info nw) (gen_ids (length rqs) next) rqs.

(** A read that can be answered over [nw] connections. *)
Record readable (nw : Z) (rq : Request) : Prop := {
  ra_op : rq_op rq = kRead;
  ra_laddr : 0 < rq_laddr rq;
  ra_raddr : fits 64 (rq_raddr rq);
  ra_len : 0 < rq_len rq < 2 ^ 64;
  ra_chunk : (rq_len rq + Z.min nw (rq_len rq) - 1) / Z.min nw (rq_len rq) ≤ 2 ^ 32 - 1;
  ra_meta : is_bytes 32 (rq_metadata rq);
}.

Lemma readable_valid nw rq : readable nw rq → Request_IsValid rq = true.
Proof.
  intros [_ Hl _ [Hn _] _ _]. unfold Request_IsValid.
  apply andb_true_intro. split; [apply negb_true_iff, Z.eqb_neq; lia|apply Z.leb_le; lia].
Qed.

Lemma build_reads_spec e nw rqs : 0 < nw < 2 ^ 32 → Forall (readable nw) rqs →
  build_infos e nw false rqs =
  Ok (set_next_reqid e (last_id (length rqs) (en_next_reqid e)), read_infos nw (en_next_reqid e) rqs).
Proof.
  intros Hnw Hf. revert e. induction Hf as [|rq rqs Hs _ IH]; intros e; cbn [build_infos].
  - by destruct e.
  - rewrite bind_dcheck by by eapply readable_valid.
    rewrite wrap_small by (destruct Hs; unfold fits; lia).
    rewrite bind_dcheck by (destruct Hs; apply Z.leb_le; lia).
    cbn [genReqId]. rewrite IH, bind_Ok. done.
Qed.

Lemma read_infos_length nw next rqs : length (read_infos nw next rqs) = length rqs.
Proof. unfold read_infos. rewrite length_zip_with, gen_ids_length. lia. Qed.
Lemma asked_infos_length nw next rqs : length (asked_infos nw next rqs) = length rqs.
Proof. unfold asked_infos. rewrite length_zip_with, gen_ids_length. lia. Qed.

Lemma asked_of_read nw next rqs :
  zip_with (λ ri req, with_raddr ri (rq_raddr req)) (read_infos nw next rqs) rqs = asked_infos nw next rqs.
Proof.
  unfold read_infos, asked_infos. generalize (gen_ids (length rqs) next). intros ids. revert rqs.
  induction ids as [|id ids IH]; intros [|rq rqs]; try done. cbn [zip_with]. by rewrite IH.
Qed.

Lemma infos_lookup {A} (f : Z → Request → A) ids rqs k a : zip_with f ids rqs !! k = Some a →
  ∃ id rq, ids !! k = Some id ∧ rqs !! k = Some rq ∧ a = f id rq.
Proof. intros (id & rq & -> & Hid & Hrq)%lookup_zip_with_Some. by exists id, rq. Qed.

Lemma infos_ids {A} (f : Z → Request → A) (g : A → Z) ids : (∀ id rq, g (f id rq) = id) → ∀ rqs, length ids = length rqs →
  g <$> zip_with f ids rqs = ids.
Proof.
  intros Hg. induction ids as [|id ids IH]; intros [|rq rqs] Hl; try done. cbn [zip_with].
  rewrite fmap_cons, IH by (simpl in Hl; lia). by rewrite Hg.
Qed.

(** * Processing *)

(** A read post that is ready to be processed. *)
Record read_ready (e : Engine) (post : PostEntry) (ws : Workers) (pt : PostTracker) : Prop := {
  rr_workers : en_send_workers e !! pe_peer post = Some ws;
  rr_some : ws ≠ [];
  rr_count : Z.of_nat (length ws) < 2 ^ 32;
  rr_two_sided : Forall (λ w, IsOneSidedChannel w.2 = false) ws;
  rr_local : pe_req_infos post = [];
  rr_reqs : pe_reqs post ≠ [];
  rr_readable : Forall (readable (Z.of_nat (length ws))) (pe_reqs post);
  rr_size : Z.of_nat (length (pe_reqs post)) * kSerializedRequestInfoSize ≤ 2 ^ 32 - 1;
  rr_wf : rk_wf (en_in e);
  rr_registered : rk_trackers (en_in e) !! (Endpoint_default, pe_handle post) = Some pt;
  rr_initiator : pt_is_initiator pt = true;
  rr_empty : pt_req_map pt = ∅;
  rr_handle : fits 32 (pe_handle post);
  rr_next : fits 32 (en_next_reqid e);
  rr_self : endpoint_wf (en_self e) ∧ HasNonzeroIpPort (en_self e) = true;
  rr_meta : is_bytes 32 (pe_metadata post);
  rr_idle : Forall (λ w, wk_infos w.1 = [] ∧ wk_chunks w.1 = []) ws;
}.

Section Initiator.
Context (e : Engine) (post : PostEntry) (ws : Workers) (pt : PostTracker) (Hr : read_ready e post ws pt).
Abbreviation nw := (Z.of_nat (length ws)).
Abbreviation rqs := (pe_reqs post).
Abbreviation own := (Endpoint_default, pe_handle post).
Abbreviation kept := (read_infos nw (en_next_reqid e) rqs).
Abbreviation asked := (asked_infos nw (en_next_reqid e) rqs).

Lemma read_nw : 0 < nw < 2 ^ 32.
Proof. destruct Hr as [_ Hne Hc]. destruct ws; [done|cbn in *; lia]. Qed.
Lemma read_count : 0 < Z.of_nat (length rqs) ≤ 2 ^ 32 - 1.
Proof.
  pose proof (rr_size _ _ _ _ Hr) as Hs. pose proof (rr_reqs _ _ _ _ Hr) as Hne. unfold kSerializedRequestInfoSize in Hs.
  destruct rqs; [done|cbn in *; lia].
Qed.
Lemma read_ids : NoDup (gen_ids (length rqs) (en_next_reqid e)) ∧ Forall (λ id, 0 < id < 2 ^ 32) (gen_ids (length rqs) (en_next_reqid e)).
Proof. apply gen_ids_unique; [apply Hr|apply read_count]. Qed.

(** A descriptor and its request. *)
Lemma read_at k rq : rqs !! k = Some rq → ∃ id, 0 < id < 2 ^ 32 ∧ readable nw rq ∧
  kept !! k = Some (read_info nw id rq) ∧ asked !! k = Some (asked_info nw id rq).
Proof.
  intros Hk. destruct (lookup_lt_is_Some_2 (gen_ids (length rqs) (en_next_reqid e)) k) as [id Hid].
  { rewrite gen_ids_length. by eapply lookup_lt_Some. }
  exists id. pose proof read_ids as [_ Hf]. rewrite list.Forall_forall in Hf. split; [by eapply Hf, list_elem_of_lookup_2|].
  pose proof (rr_readable _ _ _ _ Hr) as Hra. rewrite list.Forall_forall in Hra. split; [by eapply Hra, list_elem_of_lookup_2|].
  split; apply lookup_zip_with_Some; by exists id, rq.
Qed.
Lemma asked_at k ri : asked !! k = Some ri → ∃ id rq, 0 < id < 2 ^ 32 ∧ readable nw rq ∧ rqs !! k = Some rq ∧
  kept !! k = Some (read_info nw id rq) ∧ ri = asked_info nw id rq.
Proof.
  intros Hk. destruct (infos_lookup _ _ _ _ _ Hk) as (id & rq & Hid & Hrq & ->).
  destruct (read_at k rq Hrq) as (id' & Hr' & Hra & Hkp & Ha). exists id', rq. rewrite Hk in Ha. injection Ha as ->. done.
Qed.

Lemma read_info_valid id rq a : readable nw rq → 0 < id < 2 ^ 32 → fits 64 a → let ri := with_raddr (read_info nw id rq) a in
  reqinfo_wf ri ∧ RequestInfo_IsValid ri = true.
Proof.
  intros [Ho Hl Hra Hn Hc Hm] Hid Ha. pose proof read_nw. split.
  - unfold reqinfo_wf. cbn. rewrite Ho. unfold fits in *. repeat split; try lia; try apply Hm; try done. by repeat constructor.
  - unfold RequestInfo_IsValid. cbn. rewrite Ho. cbn.
    rewrite (proj2 (Z.ltb_lt 0 _)) by lia. cbn. rewrite andb_true_r. apply Z.ltb_lt. lia.
Qed.
Lemma asked_valid : Forall (λ r, reqinfo_wf r ∧ RequestInfo_IsValid r = true) asked.
Proof.
  apply list.Forall_forall. intros ri [k Hk]%list_elem_of_lookup. destruct (asked_at k ri Hk) as (id & rq & Hid & Hra & _ & _ & ->).
  apply read_info_valid; [done|done|apply Hra].
Qed.
Lemma kept_ok : Forall req_ok kept.
Proof.
  apply list.Forall_forall. intros ri [k Hk]%list_elem_of_lookup. destruct (infos_lookup _ _ _ _ _ Hk) as (id & rq & _ & Hrq & ->).
  destruct (read_at k rq Hrq) as (id' & Hid & Hra & Hkp & _). rewrite Hk in Hkp. injection Hkp as ->.
  destruct (read_info_valid id' rq 0 Hra Hid) as [_ Hv]; [done|]. split; [exact Hv|]. destruct Hra. pose proof read_nw. cbn. unfold fits. lia.
Qed.
Lemma kept_ids : ri_reqid <$> kept = gen_ids (length rqs) (en_next_reqid e).
Proof. unfold read_infos. apply infos_ids; [done|apply gen_ids_length]. Qed.
Lemma asked_ids : ri_reqid <$> asked = gen_ids (length rqs) (en_next_reqid e).
Proof. unfold asked_infos. apply infos_ids; [done|apply gen_ids_length]. Qed.

Lemma read_header : postinfo_wf (post_info e post) ∧ PostInfoHeader_IsValid (post_info e post) = true ∧
  hb_len (pi_base (post_info e post)) = Z.of_nat (length asked) * kRequestInfoSize ∧ asked ≠ [].
Proof.
  pose proof read_count as Hc. pose proof (rr_size _ _ _ _ Hr) as Hs. unfold kSerializedRequestInfoSize in Hs. split; [|split; [|split]].
  - split; [|split; apply Hr]. split; [done|]. split; [apply Hr|]. cbn. unfold fits, kSerializedRequestInfoSize. lia.
  - apply post_info_valid, Hr.
  - cbn. by rewrite asked_infos_length.
  - intros E. apply (f_equal length) in E. rewrite asked_infos_length in E. cbn in E. lia.
Qed.

(** The result of processing: every worker has the announcement, and the incoming tracker has
    every request registered with all chunks missing. *)
Lemma process_read now : ∃ e', process e post now = Ok e' ∧
  en_send_workers e' !! pe_peer post = Some ((λ w, (push_info w.1 (mkInfoEntry (post_info e post) asked), w.2)) <$> ws) ∧
  en_in e' = put (en_in e) own (added (en_in e) (Some pt) kept 0 Metadata_zero).
Proof.
  pose proof read_nw as Hnw. pose proof kept_ok as Hkept. pose proof read_header as (_ & Hhv & _ & Hane). unfold process.
  assert (∃ rq0, head rqs = Some rq0 ∧ rq_op rq0 = kRead) as (rq0 & Hhd & Hop0).
  { pose proof (rr_readable _ _ _ _ Hr) as Hra. pose proof (rr_reqs _ _ _ _ Hr). destruct rqs as [|rq0 l]; [done|]. exists rq0.
    split; [done|]. by inversion Hra as [|? ? [? _ _ _ _ _] _]. }
  destruct Hr as [Hws Hne Hcnt Hts Hloc Hrq Hra Hsz Hwf Hpt Hini Hmap _ _ _ _ _].
  rewrite bind_dcheck by by rewrite bool_decide_false. rewrite Hhd. cbn [at_or]. rewrite bind_Ok, Hws. change (default [] (Some ws)) with ws.
  rewrite (bool_decide_false (length ws = 0%nat)) by lia. rewrite Hloc, (bool_decide_true (length [] = 0%nat)) by done.
  rewrite Hop0. change (kRead =? kWrite) with false. cbn match. rewrite build_reads_spec, bind_Ok by done.
  rewrite bind_dcheck by (apply Nat.eqb_eq, read_infos_length). rewrite bind_dcheck.
  2: { apply forallb_forall. intros rq Hin. rewrite list.Forall_forall in Hra. eapply readable_valid, Hra. by apply list_elem_of_In. }
  unfold is_outgoing. rewrite Hop0. change (kRead =? kWrite) with false. cbn match. cbn [en_in emit set_next_reqid].
  rewrite Add_reqs_spec; [|done|by destruct (pe_reqs post); [|rewrite <- (read_infos_length nw (en_next_reqid e)) in *]|done].
  rewrite Hpt. rewrite (decide_False (P := populated (Some pt))) by (intros Hx; by apply Hx).
  rewrite (decide_False (P := _ ∧ _)) by (cbn; rewrite Hini; by intros [? _]). rewrite bind_Ok.
  unfold read_event. cbn [is_local from_option]. rewrite Hini. cbn [negb]. rewrite andb_false_r. cbn [andb react]. rewrite bind_Ok. cbn [negb].
  rewrite bind_check by (apply Z.leb_le; lia). cbn [en_self set_in_tracker emit set_next_reqid]. fold (post_info e post).
  rewrite asked_of_read, EnqueueInfo_all_spec by done. rewrite !bind_Ok. eexists. split; [done|]. split; [apply lookup_insert_eq|done].
Qed.
End Initiator.

(** * The announcement *)

Definition announcement (info : PostInfoHeader) (asked : list RequestInfo) : bytes := info_bytes info ++ store_requests asked.

(** A worker sends the announcement and nothing else. *)
Lemma worker_announces {C} `{StreamLaws C} e post ws pt (Hr : read_ready e post ws pt) j w t (tw : world C) now :
  let asked := asked_infos (Z.of_nat (length ws)) (en_next_reqid e) (pe_reqs post) in
  ws !! j = Some (w, t) → usable (w_ch tw) →
  ∃ w' tw', SendLoop (push_info w (mkInfoEntry (post_info e post) asked)) tw [now] = Ok (w', tw', Continue) ∧ queued w' = 0%nat ∧
    usable (w_ch tw') ∧ outbound (w_ch tw') = outbound (w_ch tw) ++ announcement (post_info e post) asked.
Proof.
  intros asked Hj Hu. pose proof (Forall_lookup_1 _ _ _ _ (rr_idle _ _ _ _ Hr) Hj) as [Hi Hc]. cbn in Hi, Hc.
  destruct (read_header _ _ _ _ Hr) as (Hw & Hv & Hl & Hne). pose proof (asked_valid _ _ _ _ Hr) as Hav. pose proof (read_count _ _ _ _ Hr) as Hn.
  destruct (SendLoop_post (w_mem tw) (wk_id w) (wk_stop w) tw (post_info e post) asked [] [now]) as (tw' & E & Hb); try done.
  - eapply Forall_impl; [exact Hav|]. by intros ri [_ ?].
  - unfold asked. rewrite asked_infos_length. lia.
  - eexists _, tw'. unfold push_info. rewrite Hi, Hc. split; [exact E|]. split; [done|]. split; [apply Hb|].
    destruct Hb as (_ & _ & _ & ->). cbn [fmap list_fmap concat]. by rewrite app_nil_r.
Qed.
