(* ===== verification/ReadServe.v ===== *)
(** A read at the responder: the announcement arrives on every stream, the engine queues the
    answer once and processes it as a write of its own, and after the last acknowledgement
    calls the receive callback.

    The engine's own callbacks among the calls that a run of the workers makes are run by
    [react] after the run.  No worker of that run looks at what they change: the reception of
    announcements neither reads the outgoing tracker nor the queue of posts, that of
    acknowledgements does not read the incoming tracker. *)

From stdpp Require Import base tactics list list_numbers numbers gmap fin_maps.
From S2P Require Import Prelude Codec Types IpAddr Endpoint Bitset ChunkTracker Header.
From S2P Require Import HeaderFlatbuf RequestTracker Channel Transfer Trace Worker TransferStream.
From S2P Require Import PostDelivery MultiStream StreamRun AckDelivery Engine EngineWrite EndToEnd ReadPost.
Local Open Scope Z_scope.

(** * The engine's own callbacks *)

(** The reads among the calls made. *)
Definition reads_of (evs : list event) : list (Endpoint * Handle) :=
  omap (λ ev, match ev with EvRecvRead p h _ => Some (p, h) | _ => None end) evs.

Lemma react_app e now evs1 : ∀ evs2, react e (evs1 ++ evs2) now = let* e := react e evs1 now in react e evs2 now.
Proof.
  revert e. induction evs1 as [|ev evs1 IH]; intros e evs2; [done|]. cbn [react app].
  destruct (match ev with EvRecvRead _ _ _ => _ | _ => _ end) as [e1|f]; [rewrite !bind_Ok; apply IH|done].
Qed.

(** Calls that are not the engine's are only made. *)
Lemma react_quiet e now evs : reads_of evs = [] → completed evs = [] → react e evs now = Ok (emit e evs).
Proof.
  revert e. induction evs as [|ev evs IH]; intros e Hr Hc; [destruct e; unfold emit; cbn; by rewrite app_nil_r|].
  cbn [react]. destruct ev; try discriminate Hr; try discriminate Hc; rewrite bind_Ok, IH by done; unfold emit; cbn; by rewrite <- app_assoc.
Qed.

(** The one element of a list that a selection keeps. *)
Lemma omap_one {A B} (f : A → option B) l y : omap f l = [y] → ∃ l1 x l2, l = l1 ++ x :: l2 ∧ f x = Some y ∧ omap f l1 = [] ∧ omap f l2 = [].
Proof.
  induction l as [|a l IH]; [done|]. cbn. destruct (f a) as [b|] eqn:E.
  - intros [= -> Hl]. by exists [], a, l.
  - intros Hl. destruct (IH Hl) as (l1 & x & l2 & -> & Hx & H1 & H2). exists (a :: l1), x, l2. cbn. by rewrite E.
Qed.

(** One completed answer: the receive callback of the read it answers. *)
Lemma react_answered e now evs cb peer h rk ev : reads_of evs = [] → completed evs = [cb] → en_closures e !! cb = Some (peer, h) →
  OnReqComplete (en_in e) h peer now = Ok (rk, ev) → recv_posts evs = [] →
  ∃ e' l, react e evs now = Ok e' ∧ en_in e' = rk ∧ en_out e' = en_out e ∧ en_evs e' = en_evs e ++ l ∧ recv_posts l = recv_posts ev.
Proof.
  intros Hr Hc Hcl Ho Hp. destruct (omap_one _ _ _ Hc) as (evs1 & x & evs2 & -> & Hx & Hc1 & Hc2). destruct x as [cb' s| | | | | | | | | | | | | | | | | | ]; try discriminate Hx.
  injection Hx as ->. unfold reads_of in Hr. rewrite omap_app in Hr. apply app_eq_nil in Hr as [Hr1 Hr2]. cbn in Hr2.
  rewrite recv_posts_app in Hp. apply app_eq_nil in Hp as [Hp1 Hp2]. change (recv_posts (EvComplete cb s :: evs2)) with (recv_posts evs2) in Hp2.
  rewrite react_app, react_quiet, bind_Ok by done. cbn [react]. change (en_closures (emit (emit e evs1) [EvComplete cb s])) with (en_closures e). rewrite Hcl.
  change (en_in (emit (emit e evs1) [EvComplete cb s])) with (en_in e). rewrite Ho, !bind_Ok, react_quiet by done.
  eexists _, (evs1 ++ EvComplete cb s :: ev ++ evs2). split; [done|]. split; [done|]. split; [done|]. cbn. split; [by rewrite <- !app_assoc|].
  rewrite recv_posts_app, Hp1. change (recv_posts (ev ++ evs2) = recv_posts ev). by rewrite recv_posts_app, Hp2, app_nil_r.
Qed.

(** * The announcement on every stream *)

(** A read post as it is announced. *)
Record announced (info : PostInfoHeader) (asked : list RequestInfo) : Prop := {
  an_header : postinfo_wf info;
  an_valid : PostInfoHeader_IsValid info = true;
  an_len : hb_len (pi_base info) = Z.of_nat (length asked) * kRequestInfoSize;
  an_some : asked ≠ [];
  an_reqs : Forall (λ r, reqinfo_wf r ∧ RequestInfo_IsValid r = true) asked;
  an_op : Forall (λ r, ri_op r = kRead) asked;
  an_peer : HasNonzeroIpPort (pi_peer info) = true;
  an_ids : NoDup (ri_reqid <$> asked);
  an_split : Forall (λ r, 0 < ri_nchunks r ≤ ri_total_len r ∧ (ri_total_len r + ri_nchunks r - 1) / ri_nchunks r ≤ 2 ^ 32 - 1) asked;
  an_count : Z.of_nat (length asked) < 2 ^ 32;
}.

Section Announce.
Context (info : PostInfoHeader) (asked : list RequestInfo) (Han : announced info asked).
Abbreviation h := (hb_handle (pi_base info)).
Abbreviation peer := (pi_peer info).
Abbreviation md := (pi_metadata info).

(** What the incoming tracker [rk] can do for it: it serves reads, does not know the post, and
    has an address for every request. *)
Record can_serve (rk : RequestTracker) : Prop := {
  cs_wf : rk_wf rk;
  cs_reads : rk_on_recv_read rk = true;
  cs_new : rk_trackers rk !! (peer, h) = None;
  cs_found : Forall (λ r, 0 < resolve_raddr rk md r) asked;
}.

Lemma asked_ok : Forall req_ok asked.
Proof. eapply Forall_impl; [apply Han|apply req_ok_of_wf]. Qed.

Lemma asked_op : from_option ri_op 0 (head asked) = kRead.
Proof. pose proof (an_op _ _ Han) as Ho. pose proof (an_some _ _ Han). by destruct Ho. Qed.

(** The entry of the read, which does not depend on the time. *)
Definition serving (rk : RequestTracker) : PostTracker := added rk None asked 0 md.
Lemma serving_time rk start : added rk None asked start md = serving rk.
Proof. unfold serving, added. by rewrite asked_op. Qed.
Definition found (rk : RequestTracker) : list RequestInfo := (λ r, with_raddr r (resolve_raddr rk md r)) <$> asked.

Lemma Add_announced rk start : can_serve rk →
  Add_reqs rk h asked start md peer = Ok (put rk (peer, h) (serving rk), true, [EvRecvRead peer h (found rk)]).
Proof.
  intros [Hwf Hrd Hnew Hf]. rewrite Add_reqs_spec; [|done|apply Han|apply asked_ok]. rewrite Hnew, serving_time. cbn [populated].
  rewrite (decide_False (P := False)) by by intros []. rewrite decide_False.
  - unfold read_event. by rewrite Hrd, asked_op.
  - intros [_ Hx]. apply list.Exists_exists in Hx as (r & Hin & Hz). rewrite list.Forall_forall in Hf. specialize (Hf r Hin). lia.
Qed.
Lemma Add_again rk rk0 start : can_serve rk0 → rk_trackers rk !! (peer, h) = Some (serving rk0) → Add_reqs rk h asked start md peer = Ok (rk, true, []).
Proof.
  intros Hcs Hl. unfold Add_reqs. rewrite bind_dcheck by (rewrite bool_decide_false; [done|apply Han]). rewrite Hl. cbn [default].
  rewrite bool_decide_false; [done|]. apply (ptwf_nonempty (serving rk0)); [|done]. apply added_wf; [apply Han|apply asked_ok].
Qed.

Context {C : Type} `{StreamLaws C}.

(** The shared state after [n] announcements. *)
Definition told (s0 : host C) (seen : list unit) (s : host C) : Prop :=
  ho_out s = ho_out s0 ∧ ho_mem s = ho_mem s0 ∧
  match seen with
  | [] => ho_in s = ho_in s0 ∧ ho_evs s = ho_evs s0
  | _ => ho_in s = put (ho_in s0) (peer, h) (serving (ho_in s0)) ∧ ho_evs s = ho_evs s0 ++ [EvRecvRead peer h (found (ho_in s0))]
  end.

Lemma told_step s0 all : can_serve (ho_in s0) →
  good_step (λ _, announcement info asked) (told s0) (λ c _ c', GetPeer c' = peer ∧ outbound c' = outbound c) all.
Proof.
  intros Hcs s seen todo j c [] rest ck (Ho & Hm & Hst) _ Hc Hu Hin. unfold announcement in Hin. rewrite <- app_assoc in Hin.
  destruct Han as [Hw Hv Hl Hne Hq _ Hp _ _ _].
  destruct (recv_postinfo (on_channel s c) (- (1 + Z.of_nat j)) ck info asked rest) as (c' & Hu' & Hi' & Ho' & Hp' & Hr); [done..|].
  rewrite Hp in Hp'. unfold recv_on. rewrite Hc. cbn [at_or]. rewrite bind_Ok, Hr. cbn [w_in on_channel].
  destruct seen as [|[] seen]; destruct Hst as [Hi He].
  - rewrite Hi, Add_announced, !bind_Ok by done. eexists _, c'. split; [done|]. cbn. split; [|done]. split; [done|]. split; [done|]. by rewrite He.
  - rewrite (Add_again _ (ho_in s0)), !bind_Ok by (rewrite ?Hi; try done; apply lookup_insert_eq). eexists _, c'. split; [done|]. cbn. split; [|done].
    split; [done|]. split; [done|]. by rewrite Hi, He, app_nil_r.
Qed.

(** All announcements, in any order: the engine is told of the read once. *)
Lemma told_run s0 (sched : list (nat * clock)) n : can_serve (ho_in s0) → (0 < n)%nat → length (ho_chs s0) = n →
  (∀ j c, ho_chs s0 !! j = Some c → usable c ∧ inbound c = announcement info asked) →
  (∀ j, length (filter (λ x, x.1 = j) sched) = if decide (j < n)%nat then 1%nat else 0%nat) →
  ∃ s, host_run s0 sched = Ok (s, true) ∧ ho_out s = ho_out s0 ∧ ho_mem s = ho_mem s0 ∧
    ho_in s = put (ho_in s0) (peer, h) (serving (ho_in s0)) ∧ ho_evs s = ho_evs s0 ++ [EvRecvRead peer h (found (ho_in s0))] ∧
    (∀ j c0 c, ho_chs s0 !! j = Some c0 → ho_chs s !! j = Some c → usable c ∧ inbound c = [] ∧ outbound c = outbound c0).
Proof.
  intros Hcs Hn Hlen Hin Hs. set (streams := replicate n [()]).
  destruct (run_streams (λ _ : unit, announcement info asked) (told s0) _ (concat streams) sched (told_step s0 _ Hcs) s0 [] streams)
    as (s & seen & E & (Ho & Hm & Hst) & Hp & Hfin).
  - done.
  - split; [unfold streams; by rewrite length_replicate|]. intros j c l Hc Hl. apply lookup_replicate in Hl as [-> _].
    destruct (Hin j c Hc) as [Hu Hi]. split; [done|]. cbn. by rewrite app_nil_r.
  - done.
  - intros j. rewrite Hs. unfold streams. case_decide; [by rewrite lookup_replicate_2|]. by rewrite lookup_ge_None_2 by (rewrite length_replicate; lia).
  - exists s. do 3 (split; [done|]). destruct seen as [|x seen].
    { exfalso. unfold streams in Hp. destruct n; [lia|]. apply Permutation_nil_l in Hp. done. }
    destruct Hst as [Hi He]. split; [done|]. split; [done|]. intros j c0 c Hc0 Hc.
    destruct (Hfin j c0 [()] c Hc0) as (Hu & Hi0 & (c1 & [_ Hx] & ->)); [apply lookup_replicate_2; rewrite <- Hlen; by eapply lookup_lt_Some|done|done].
Qed.
End Announce.

(** * The answer *)

Definition answer_req (r : RequestInfo) : Request := mkRequest kWrite (ri_raddr r) 0 (ri_total_len r) 0 (ri_metadata r).
Definition answer_info (r : RequestInfo) : RequestInfo :=
  mkRequestInfo (ri_reqid r) (ri_nchunks r) 0 (ri_total_len r) kWrite (ri_recipe r) (ri_metadata r).

(** The bytes a buffer holds. *)
Definition held (src : mem) (rq : Request) : bytes := default [] (mapM id (read_mem src (rq_laddr rq) (rq_len rq))).
Lemma held_spec src rq : Forall is_Some (read_mem src (rq_laddr rq) (rq_len rq)) →
  read_mem src (rq_laddr rq) (rq_len rq) = Some <$> held src rq.
Proof.
  intros Hf. unfold held. set (l := read_mem _ _ _) in *. destruct (mapM_is_Some_2 id l) as [k Hk]; [exact Hf|]. rewrite Hk. cbn.
  clearbody l. clear Hf. revert k Hk. induction l as [|o l IH]; intros k; cbn.
  - by intros [= <-].
  - destruct o as [b|]; cbn; [|done]. destruct (mapM id l) as [k'|]; cbn; [|done]. intros [= <-]. cbn. f_equal. by apply IH.
Qed.

(** A responder that can answer: no post of its own has the handle, it has idle connections to
    the initiator, and the buffers are mapped. *)
Record can_answer (e : Engine) (info : PostInfoHeader) (asked : list RequestInfo) (ws : Workers) (src : mem) : Prop := {
  ca_wf : rk_wf (en_out e);
  ca_new : rk_trackers (en_out e) !! (Endpoint_default, hb_handle (pi_base info)) = None;
  ca_workers : en_send_workers e !! pi_peer info = Some ws;
  ca_some : ws ≠ [];
  ca_idle : Forall (λ w, wk_infos w.1 = [] ∧ wk_chunks w.1 = []) ws;
  ca_mapped : Forall (λ r, Forall is_Some (read_mem src (resolve_raddr (en_in e) (pi_metadata info) r) (ri_total_len r))) asked;
}.

Section Answer.
Context (e : Engine) (info : PostInfoHeader) (asked : list RequestInfo) (ws : Workers) (src : mem).
Context (Han : announced info asked) (Hcs : can_serve info asked (en_in e)) (Hca : can_answer e info asked ws src).
Abbreviation h := (hb_handle (pi_base info)).
Abbreviation peer := (pi_peer info).
Abbreviation own := (Endpoint_default, h).
Abbreviation nw := (length ws).
Definition ans_reqs : list Request := answer_req <$> found info asked (en_in e).
Definition ans_infos : list RequestInfo := answer_info <$> found info asked (en_in e).
Abbreviation cb := (- (1 + Z.of_nat (size (en_closures e)))).
Definition ans_post : PostEntry := mkPostEntry peer h ans_reqs ans_infos Metadata_zero false.

Lemma ans_at k r : asked !! k = Some r →
  ans_reqs !! k = Some (answer_req (with_raddr r (resolve_raddr (en_in e) (pi_metadata info) r))) ∧ ans_infos !! k = Some (answer_info r).
Proof. intros Hk. unfold ans_reqs, ans_infos, found. by rewrite !list_lookup_fmap, Hk. Qed.
Lemma ans_infos_eq : ans_infos = answer_info <$> asked.
Proof. unfold ans_infos, found. rewrite <- list_fmap_compose. by apply list_fmap_ext. Qed.
Lemma ans_ids : ri_reqid <$> ans_infos = ri_reqid <$> asked.
Proof. rewrite ans_infos_eq, <- list_fmap_compose. by apply list_fmap_ext. Qed.
Lemma ans_lengths : length ans_reqs = length asked ∧ length ans_infos = length asked.
Proof. unfold ans_reqs, ans_infos, found. by rewrite !length_fmap. Qed.

Lemma asked_facts r : r ∈ asked → reqinfo_wf r ∧ RequestInfo_IsValid r = true ∧ 0 < ri_nchunks r ≤ ri_total_len r ∧
  (ri_total_len r + ri_nchunks r - 1) / ri_nchunks r ≤ 2 ^ 32 - 1 ∧ 0 < resolve_raddr (en_in e) (pi_metadata info) r ∧
  Forall is_Some (read_mem src (resolve_raddr (en_in e) (pi_metadata info) r) (ri_total_len r)).
Proof.
  intros Hin. pose proof (an_reqs _ _ Han) as H1. pose proof (an_split _ _ Han) as H2. pose proof (cs_found _ _ _ Hcs) as H3. pose proof (ca_mapped _ _ _ _ _ Hca) as H4.
  rewrite list.Forall_forall in H1, H2, H3, H4. destruct (H1 r Hin), (H2 r Hin). split_and!; auto; naive_solver.
Qed.

Lemma answer_info_valid r : reqinfo_wf r → RequestInfo_IsValid r = true → reqinfo_wf (answer_info r) ∧ RequestInfo_IsValid (answer_info r) = true.
Proof.
  intros (W1 & W2 & W3 & W4 & W5 & W6 & W7) Hv. split; [by repeat split; try apply W1; try apply W2; try apply W4; try apply W6; try apply W7|].
  unfold RequestInfo_IsValid in *. cbn. apply andb_prop in Hv as [Hv ->]. apply andb_prop in Hv as [Hv ->]. by apply andb_prop in Hv as [_ ->].
Qed.

Lemma ans_job k rq ri : ans_reqs !! k = Some rq → ans_infos !! k = Some ri → job_ok (held src) rq ri ∧ 0 < rq_laddr rq ∧
  read_mem src (rq_laddr rq) (rq_len rq) = Some <$> held src rq.
Proof.
  intros Hrq Hri. destruct (lookup_lt_is_Some_2 asked k) as [r Hr]; [rewrite <- (proj1 ans_lengths); by eapply lookup_lt_Some|].
  destruct (ans_at k r Hr) as [E1 E2]. rewrite Hrq in E1. rewrite Hri in E2. injection E1 as ->. injection E2 as ->.
  destruct (asked_facts r) as (Hw & Hv & Hn & Hc & Hp & Hm); [by eapply list_elem_of_lookup_2|].
  pose proof (held_spec src (answer_req (with_raddr r (resolve_raddr (en_in e) (pi_metadata info) r))) Hm) as Hh. split; [|by split].
  split; try done; [|by apply answer_info_valid]. pose proof (f_equal length Hh) as Hl. rewrite length_read_mem, length_fmap in Hl. cbn in *. lia.
Qed.

(** The engine queues the answer. *)
Lemma react_read rk now : ∃ e1, react (set_in_tracker e rk) [EvRecvRead peer h (found info asked (en_in e))] now = Ok e1 ∧
  en_posts e1 = en_posts e ++ [ans_post] ∧ en_in e1 = rk ∧ en_send_workers e1 = en_send_workers e ∧
  en_closures e1 = <[cb := (peer, h)]> (en_closures e) ∧ rk_resolve (en_out e1) = rk_resolve (en_out e) ∧
  en_out e1 = put (en_out e) own (mkPostTracker ∅ 0 Metadata_zero now (Some cb) false true).
Proof.
  cbn [react]. unfold processRecvRead. cbn [en_out en_closures emit set_in_tracker]. unfold Add_handle. rewrite (ca_new _ _ _ _ _ Hca). cbn [negb].
  rewrite bind_dcheck, !bind_Ok.
  - eexists. split; [done|]. done.
  - apply forallb_forall. intros r Hr. apply list_elem_of_In in Hr. apply list_elem_of_fmap in Hr as (r0 & -> & Hr0). cbn.
    apply negb_true_iff, Z.eqb_neq. destruct (asked_facts r0 Hr0) as (_ & _ & _ & _ & ? & _). lia.
Qed.

Lemma ans_ok : Forall req_ok ans_infos.
Proof.
  rewrite ans_infos_eq. apply Forall_fmap. apply list.Forall_forall. intros r Hin. destruct (asked_facts r Hin) as (Hw & Hv & _).
  destruct (answer_info_valid r Hw Hv) as [Hw' Hv']. split; [done|apply Hw'].
Qed.
Lemma ans_some : ans_infos ≠ [].
Proof. intros E. apply (f_equal length) in E. rewrite (proj2 ans_lengths) in E. apply (an_some _ _ Han). by apply length_zero_iff_nil. Qed.
Lemma ans_valid : forallb Request_IsValid ans_reqs = true.
Proof.
  apply forallb_forall. intros rq Hin. apply list_elem_of_In, list_elem_of_lookup in Hin as [k Hk].
  destruct (lookup_lt_is_Some_2 asked k) as [r Hr]; [rewrite <- (proj1 ans_lengths); by eapply lookup_lt_Some|].
  destruct (ans_at k r Hr) as [E _]. rewrite Hk in E. injection E as ->.
  destruct (asked_facts r) as (_ & _ & Hn & _ & Hp & _); [by eapply list_elem_of_lookup_2|]. unfold Request_IsValid. cbn.
  apply andb_true_intro. split; [apply negb_true_iff, Z.eqb_neq; lia|apply Z.leb_le; lia].
Qed.

(** Processing the answer: the workers get its chunks, and no announcement. *)
Lemma process_answer e1 pt now : en_send_workers e1 = en_send_workers e → rk_wf (en_out e1) → rk_trackers (en_out e1) !! own = Some pt →
  pt_is_initiator pt = true → pt_req_map pt = ∅ →
  ∃ e2 ws', process e1 ans_post now = Ok e2 ∧ en_send_workers e2 !! peer = Some ws' ∧ length ws' = nw ∧ en_closures e2 = en_closures e1 ∧ en_in e2 = en_in e1 ∧
    (∀ j w t, ws !! j = Some (w, t) → ws' !! j = Some (mkWorker (wk_id w) (wk_stop w) [] (fst <$> post_pairs h (held src) nw j ans_reqs ans_infos), t)) ∧
    en_out e2 = put (en_out e1) own (added (en_out e1) (Some pt) ans_infos 0 Metadata_zero).
Proof.
  intros Hws Hwf Hl Hini Hmap. pose proof ans_lengths as [Hl1 Hl2]. pose proof ans_some as Hne. pose proof (ca_some _ _ _ _ _ Hca) as Hwne.
  unfold process. cbn [pe_reqs pe_req_infos pe_peer pe_handle pe_trace_ctx ans_post].
  assert (ans_reqs ≠ []) as Hrne by (intros E; apply (an_some _ _ Han), length_zero_iff_nil; by rewrite <- Hl1, E).
  assert (∃ rq0, head ans_reqs = Some rq0 ∧ rq_op rq0 = kWrite) as (rq0 & Hhd & Hop).
  { unfold ans_reqs in *. destruct (found info asked (en_in e)) as [|r l]; [done|]. by exists (answer_req r). }
  rewrite bind_dcheck by by rewrite bool_decide_false. rewrite Hhd. cbn [at_or]. rewrite bind_Ok, Hws, (ca_workers _ _ _ _ _ Hca). change (default [] (Some ws)) with ws.
  rewrite (bool_decide_false (nw = 0%nat)) by (intros E; by apply Hwne, length_zero_iff_nil).
  rewrite (bool_decide_false (length ans_infos = 0%nat)) by (intros E; by apply Hne, length_zero_iff_nil). rewrite bind_Ok.
  rewrite bind_dcheck by (apply Nat.eqb_eq; congruence). rewrite bind_dcheck by apply ans_valid.
  unfold is_outgoing. rewrite Hop. change (kWrite =? kWrite) with true. cbn match. cbn [en_out emit].
  rewrite Add_reqs_spec by (done || apply ans_ok). rewrite Hl. rewrite (decide_False (P := populated (Some pt))) by (intros Hx; by apply Hx).
  rewrite (decide_False (P := _ ∧ _)) by (cbn; rewrite Hini; by intros [? _]). rewrite bind_Ok.
  unfold read_event. cbn [is_local from_option]. rewrite Hini. cbn [negb]. rewrite andb_false_r. cbn [andb react]. rewrite !bind_Ok.
  destruct (processWrites_spec h false ans_reqs ans_infos ws Hwne) as (ws' & evs & -> & Hlw & Hw); [congruence| |].
  - apply Forall2_same_length_lookup_2; [congruence|]. intros k rq ri Hrq Hri.
    destruct (ans_job k rq ri Hrq Hri) as ([J1 _ J3 J4 J5] & Hla & _). split; [|done|apply J5|done|done].
    pose proof ans_ok as Hok. rewrite list.Forall_forall in Hok. by apply (Hok ri), (list_elem_of_lookup_2 _ k).
  - rewrite bind_Ok. eexists _, ws'. split; [done|]. split; [apply lookup_insert_eq|]. split; [done|]. split; [done|]. split; [done|]. split; [|done].
    intros j w t Hj. rewrite (Hw j w t Hj). pose proof (Forall_lookup_1 _ _ _ _ (ca_idle _ _ _ _ _ Hca) Hj) as [Hi Hc]. cbn in Hi, Hc.
    unfold give. rewrite Hi, Hc, post_pairs_fst. done.
Qed.

Context {C : Type} `{StreamLaws C}.
Abbreviation msgs j := (post_msgs h (held src) nw j ans_reqs ans_infos).

Lemma ans_sendable j : Forall (sendable_chunk src) (post_pairs h (held src) nw j ans_reqs ans_infos).
Proof.
  apply list.Forall_forall. intros p Hp. apply elem_of_post_pairs in Hp as (k & rq & ri & i & Hrq & Hri & Hi & ->).
  destruct (ans_job k rq ri Hrq Hri) as ([Hlen Hd Hn Hmax Hwf] & _ & Hm).
  pose proof (chunk_size_pos (ri_total_len ri) (ri_nchunks ri) i Hn). pose proof (chunk_size_bound (ri_total_len ri) (ri_nchunks ri) i ltac:(lia) ltac:(lia)).
  pose proof (chunk_data_length (held src rq) (ri_total_len ri) (ri_nchunks ri) i ltac:(congruence) Hn Hi) as Hcl. split.
  - by apply chunk_is_data.
  - done.
  - apply GenPayload_chunk; [congruence|done|done|]. by rewrite Hlen.
  - symmetry. exact Hcl.
  - cbn [snd m_payload msg_at]. lia.
Qed.

(** A worker sends its share of the answer. *)
Lemma worker_answers j w (tw : world C) nows : let w1 := mkWorker (wk_id w) (wk_stop w) [] (fst <$> post_pairs h (held src) nw j ans_reqs ans_infos) in
  usable (w_ch tw) → w_mem tw = src → length nows = queued w1 →
  ∃ w' tw', SendLoop w1 tw nows = Ok (w', tw', Continue) ∧ queued w' = 0%nat ∧ usable (w_ch tw') ∧
    outbound (w_ch tw') = outbound (w_ch tw) ++ concat (msg_bytes <$> msgs j).
Proof.
  intros w1 Hu Hm Hl. destruct (SendLoop_chunks src (post_pairs h (held src) nw j ans_reqs ans_infos) (wk_id w) (wk_stop w) tw nows Hu Hm (ans_sendable j)) as (tw' & E & Hb).
  - rewrite Hl. unfold queued, w1. cbn. by rewrite length_fmap.
  - eexists _, tw'. split; [exact E|]. split; [done|]. split; [apply Hb|]. destruct Hb as (_ & _ & _ & ->). by rewrite post_pairs_bytes.
Qed.
End Answer.
