(* ===== verification/ReadTrip.v ===== *)
(** A read post there and back: the announcement reaches the responder on every connection,
    the responder answers with the data and the initiator stores it and acknowledges it. *)

From stdpp Require Import base tactics list list_numbers numbers gmap fin_maps.
From S2P Require Import Prelude Codec Types IpAddr Endpoint Bitset ChunkTracker Header.
From S2P Require Import HeaderFlatbuf RequestTracker Channel Transfer Trace Worker TransferStream.
From S2P Require Import PostDelivery MultiStream StreamRun AckDelivery ReadDelivery Engine EngineWrite MemChannel EndToEnd RoundTrip ReadPost ReadServe.
Local Open Scope Z_scope.

(** The same requests under other descriptors. *)
Lemma req_inv_view reqs dst reqs' dst' pt del : req_inv reqs dst pt del → length reqs' = length reqs →
  (∀ k r r', reqs !! k = Some r → reqs' !! k = Some r' → ri_reqid r' = ri_reqid r ∧ ri_nchunks r' = ri_nchunks r ∧ dst' r' = dst r) →
  req_inv reqs' dst' pt del.
Proof.
  intros [Hwf Hr Hid] Hl Hv. split; [done| |].
  - intros r' [k Hk]%list_elem_of_lookup. destruct (lookup_lt_is_Some_2 reqs k) as [r Hk0]; [rewrite <- Hl; by eapply lookup_lt_Some|].
    destruct (Hv k r r' Hk0 Hk) as (-> & -> & ->). apply Hr. by eapply list_elem_of_lookup_2.
  - intros id rt Hrt. destruct (Hid id rt Hrt) as (r & [k Hk]%list_elem_of_lookup & <-).
    destruct (lookup_lt_is_Some_2 reqs' k) as [r' Hk']; [rewrite Hl; by eapply lookup_lt_Some|].
    exists r'. split; [by eapply list_elem_of_lookup_2|]. by apply (Hv k r r').
Qed.

(** The initiator's buffers: inside the address space, pairwise disjoint. *)
Record local_buffers (rqs : list Request) : Prop := {
  lb_range : ∀ rq, rq ∈ rqs → rq_laddr rq + rq_len rq ≤ 2 ^ 64;
  lb_disjoint : ∀ k1 k2 rq1 rq2, rqs !! k1 = Some rq1 → rqs !! k2 = Some rq2 → k1 ≠ k2 →
    rq_laddr rq1 + rq_len rq1 ≤ rq_laddr rq2 ∨ rq_laddr rq2 + rq_len rq2 ≤ rq_laddr rq1;
}.

Section Asked.
Context (ea : Engine) (post : PostEntry) (wsa : Workers) (pt : PostTracker) (Hr : read_ready ea post wsa pt).
Abbreviation rqs := (pe_reqs post).
Abbreviation h := (pe_handle post).
Abbreviation info := (post_info ea post).
Abbreviation kept := (read_infos (Z.of_nat (length wsa)) (en_next_reqid ea) rqs).
Abbreviation asked := (asked_infos (Z.of_nat (length wsa)) (en_next_reqid ea) rqs).

Lemma read_announced : announced info asked.
Proof.
  destruct (read_header _ _ _ _ Hr) as (Hw & Hv & Hl & Hne). pose proof (read_nw _ _ _ _ Hr). pose proof (read_count _ _ _ _ Hr).
  assert (∀ ri, ri ∈ asked → ∃ id rq, readable (Z.of_nat (length wsa)) rq ∧ ri = asked_info (Z.of_nat (length wsa)) id rq) as Hat.
  { intros ri [k Hk]%list_elem_of_lookup. destruct (asked_at _ _ _ _ Hr k ri Hk) as (id & rq & _ & ? & _ & _ & ->). by exists id, rq. }
  split; try done.
  - by eapply asked_valid.
  - apply list.Forall_forall. intros ri Hin. destruct (Hat ri Hin) as (id & rq & Hra & ->). apply Hra.
  - apply Hr.
  - rewrite asked_ids. by eapply read_ids.
  - apply list.Forall_forall. intros ri Hin. destruct (Hat ri Hin) as (id & rq & [_ _ _ Hn Hc _] & ->). cbn. lia.
  - rewrite asked_infos_length. lia.
Qed.

(** The entry of the initiator's tracker, and the buffers it keeps. *)
Definition kept_tracker : PostTracker := added (en_in ea) (Some pt) kept 0 Metadata_zero.
Definition laddr_of (r : RequestInfo) : Z := from_option rt_raddr 0 (pt_req_map kept_tracker !! ri_reqid r).

Lemma kept_inv : req_inv kept (resolve_raddr (en_in ea) Metadata_zero) kept_tracker [].
Proof.
  apply added_req; [|by eapply kept_ok|rewrite kept_ids; by eapply read_ids].
  intros E. apply (f_equal length) in E. rewrite read_infos_length in E. apply (rr_reqs _ _ _ _ Hr), length_zero_iff_nil, E.
Qed.
Lemma laddr_at k rq r : rqs !! k = Some rq → asked !! k = Some r → laddr_of r = rq_laddr rq ∧ laddr_of (answer_info r) = rq_laddr rq.
Proof.
  intros Hk Ha. destruct (read_at _ _ _ _ Hr k rq Hk) as (id & _ & Hra & Hkp & Ha'). rewrite Ha in Ha'. injection Ha' as ->.
  destruct (qi_reqs _ _ _ _ kept_inv (read_info (Z.of_nat (length wsa)) id rq)) as (rt & Hl & Hrt & _); [by eapply list_elem_of_lookup_2|].
  assert (rt_raddr rt = rq_laddr rq) as E.
  { rewrite Hrt. unfold resolve_raddr. cbn. destruct Hra as [_ Hla _ _ _ _]. by rewrite (proj2 (Z.eqb_neq _ _)) by lia. }
  unfold laddr_of. cbn in *. by rewrite Hl.
Qed.
End Asked.

Section Store.
Context {C : Type} `{StreamLaws C}.
Context (ea : Engine) (post : PostEntry) (wsa : Workers) (pt : PostTracker) (Hr : read_ready ea post wsa pt) (Hbuf : local_buffers (pe_reqs post)).
Abbreviation rqs := (pe_reqs post).
Abbreviation h := (pe_handle post).
Abbreviation info := (post_info ea post).
Abbreviation asked := (asked_infos (Z.of_nat (length wsa)) (en_next_reqid ea) rqs).
Context (eb : Engine) (wsb : Workers) (src : mem).
Context (Hcs : can_serve info asked (en_in eb)) (Hca : can_answer eb info asked wsb src).
Abbreviation nw := (length wsb).
Abbreviation areqs := (ans_reqs eb info asked).
Abbreviation ainfos := (ans_infos eb info asked).
Abbreviation msgs j := (post_msgs h (held src) nw j areqs ainfos).
Abbreviation streams := ((λ j, msgs j) <$> seq 0 nw).
Abbreviation dst := (laddr_of ea post wsa pt).
Abbreviation found_at r := (resolve_raddr (en_in eb) (pi_metadata info) r).
Let Han : announced info asked := read_announced ea post wsa pt Hr.

(** The requests of the answer, those announced and those posted, by position. *)
Lemma ans_view k ri : ainfos !! k = Some ri → ∃ r rq, asked !! k = Some r ∧ rqs !! k = Some rq ∧ ri = answer_info r ∧
  dst ri = rq_laddr rq ∧ ri_total_len ri = rq_len rq ∧ areqs !! k = Some (answer_req (with_raddr r (found_at r))) ∧ 0 < rq_laddr rq.
Proof.
  intros Hk. rewrite ans_infos_eq, list_lookup_fmap in Hk. destruct (asked !! k) as [r|] eqn:Ha; [|done]. injection Hk as <-.
  destruct (asked_at _ _ _ _ Hr k r Ha) as (id & rq & _ & Hra & Hrq & _ & ->). eexists _, rq. split; [done|]. split; [done|]. split; [done|].
  split; [by apply (laddr_at _ _ _ _ Hr k)|]. split; [done|]. split; [by apply ans_at|apply Hra].
Qed.

Lemma ans_buffers : buffers_ok dst ainfos.
Proof.
  destruct Hbuf as [Hb Hd]. split.
  - intros ri [k Hk]%list_elem_of_lookup. destruct (ans_view k ri Hk) as (r & rq & _ & Hrq & _ & -> & -> & _ & Hp).
    split; [done|]. apply Hb. by eapply list_elem_of_lookup_2.
  - intros r1 r2 [k1 Hk1]%list_elem_of_lookup [k2 Hk2]%list_elem_of_lookup Hne.
    destruct (ans_view k1 r1 Hk1) as (_ & rq1 & _ & Hq1 & _ & -> & -> & _), (ans_view k2 r2 Hk2) as (_ & rq2 & _ & Hq2 & _ & -> & -> & _).
    apply (Hd k1 k2); [done..|]. intros ->. congruence.
Qed.

Lemma answer_msgs : Forall (msg_ok h ainfos dst) (concat streams) ∧ (∀ m1 m2, m1 ∈ concat streams → m2 ∈ concat streams → compatible dst m1 m2).
Proof.
  assert ((0 < nw)%nat) as Hnw by (pose proof (ca_some _ _ _ _ _ Hca); destruct wsb; [done|cbn; lia]). pose proof ans_buffers as Hab. split.
  - apply list.Forall_forall. intros m Hm. apply elem_of_post_msgs in Hm as (k & rq & ri & i & Hrq & Hri & Hi & ->); [|done].
    eapply msg_at_ok; [apply Hr|done..|by eapply ans_job|done].
  - intros m1 m2 Hm1 Hm2. apply elem_of_post_msgs in Hm1 as (k1 & rq1 & ri1 & i1 & Hrq1 & Hri1 & Hi1 & ->); [|done].
    apply elem_of_post_msgs in Hm2 as (k2 & rq2 & ri2 & i2 & Hrq2 & Hri2 & Hi2 & ->); [|done].
    eapply msgs_compatible; [|done|done|done|by eapply ans_job|done|done|done|by eapply ans_job|done]. rewrite ans_ids. apply Han.
Qed.

Lemma answer_unread : rd_inv h ainfos dst (pt_on_complete pt) (put (en_in ea) (Endpoint_default, h) (kept_tracker ea post wsa pt))
  (put (en_in ea) (Endpoint_default, h) (kept_tracker ea post wsa pt)) [] [].
Proof.
  pose proof (ans_ok eb info asked wsb src Han Hcs Hca) as Hok. pose proof (ans_some eb info asked Han) as Hne. split; [done|].
  rewrite decide_False by (rewrite undone_nil by done; by intros [? _]). eexists. split; [apply lookup_insert_eq|]. split; [|done].
  pose proof (rr_initiator _ _ _ _ Hr) as Hini.
  assert (length ainfos = length rqs) as Hl by (rewrite (proj2 (ans_lengths eb info asked)); apply asked_infos_length).
  split; [|done|done|].
  - eapply req_inv_view; [by apply (kept_inv ea post wsa pt Hr)|by rewrite read_infos_length|]. intros k r r' Hk Hk'.
    destruct (ans_view k r' Hk') as (r0 & rq & Ha & Hrq & -> & Hd & _). destruct (read_at _ _ _ _ Hr k rq Hrq) as (id & _ & Hra & Hkp & Ha').
    rewrite Hk in Hkp. injection Hkp as ->. rewrite Ha in Ha'. injection Ha' as ->. split; [done|]. split; [done|]. rewrite Hd.
    unfold resolve_raddr. cbn. destruct Hra as [_ Hla _ _ _ _]. by rewrite (proj2 (Z.eqb_neq _ _)) by lia.
  - cbn. rewrite Hini, andb_false_r. rewrite read_infos_length, undone_nil by done. lia.
Qed.

(** The answer at the initiator, in any order. *)
Lemma answer_received (t0 : host C) (sched : list (nat * clock)) :
  ho_in t0 = put (en_in ea) (Endpoint_default, h) (kept_tracker ea post wsa pt) →
  Forall (λ c, GetPeer c = Endpoint_default) (ho_chs t0) → length (ho_chs t0) = nw →
  (∀ j c, ho_chs t0 !! j = Some c → usable c ∧ inbound c = concat (msg_bytes <$> msgs j)) →
  (∀ j, length (filter (λ x, x.1 = j) sched) = if decide (j < nw)%nat then length (msgs j) else 0%nat) →
  ∃ t evs, host_run t0 sched = Ok (t, true) ∧ ho_evs t = ho_evs t0 ++ evs ∧ completed evs = option_list (pt_on_complete pt) ∧
    Check_ (ho_in t) h Endpoint_default = (match pt_on_complete pt with Some _ => kNotFound | None => kSuccess end) ∧
    ho_out t = ho_out t0 ∧ (∀ k, k ≠ (Endpoint_default, h) → rk_trackers (ho_in t) !! k = rk_trackers (en_in ea) !! k) ∧
    (∀ k rq r, rqs !! k = Some rq → asked !! k = Some r → read_mem (ho_mem t) (rq_laddr rq) (rq_len rq) = read_mem src (found_at r) (rq_len rq)) ∧
    (∀ x, (∀ rq, rq ∈ rqs → x < rq_laddr rq ∨ rq_laddr rq + rq_len rq ≤ x) → ho_mem t !! x = ho_mem t0 !! x) ∧
    (∀ j c0 c, ho_chs t0 !! j = Some c0 → ho_chs t !! j = Some c → ∃ acks, Forall2 (is_ack_of h) (msgs j) acks ∧ outbound c = outbound c0 ++ concat (data_bytes <$> acks)).
Proof.
  intros Hin Hpeers Hlen Hch Hs. assert ((0 < nw)%nat) as Hnw by (pose proof (ca_some _ _ _ _ _ Hca); destruct wsb; [done|cbn; lia]).
  destruct answer_msgs as [Hok Hcomp]. pose proof answer_unread as Hinv. rewrite <- Hin in Hinv.
  pose proof (ans_ids eb info asked) as Hids. destruct (ans_lengths eb info asked) as [Hl1 Hl2]. pose proof (an_ids _ _ Han) as Hnd. rewrite <- Hids in Hnd.
  assert (∀ j, streams !! j = if decide (j < nw)%nat then Some (msgs j) else None) as Hst.
  { intros j. rewrite list_lookup_fmap. case_decide; [by rewrite lookup_seq_lt by lia|]. by rewrite lookup_ge_None_2 by (rewrite length_seq; lia). }
  assert (Z.of_nat (length ainfos) < 2 ^ 32) as Hcnt by (rewrite Hl2; apply Han).
  destruct (read_run h ainfos dst (pt_on_complete pt) Hnd (ans_some eb info asked Han) Hcnt t0 sched streams) as (t & evs & E & He & Hc & Hk & Ho & Hoth & Hmem & Hmo & Hacks); try done.
  - split; [rewrite length_fmap, length_seq; lia|]. intros j c l Hc Hl. rewrite Hst in Hl. case_decide; [|done]. injection Hl as <-. by apply Hch.
  - apply post_keys_NoDup; [congruence|done].
  - intros j. rewrite Hs, Hst. by case_decide.
  - apply post_covered; [done|congruence].
  - exists t, evs. do 5 (split; [done|]). split; [|split; [|split]].
    + intros k Hkey. rewrite Hoth, Hin by done. by apply lookup_insert_ne.
    + intros k rq r Hrq Ha. destruct (ans_at eb info asked k r Ha) as [Har Hai].
      destruct (ans_view k _ Hai) as (r' & rq' & Ha' & Hrq' & _ & Hd & Hlq & _). rewrite Ha in Ha'. rewrite Hrq in Hrq'. injection Ha' as <-. injection Hrq' as <-.
      destruct (ans_job eb info asked wsb src Han Hcs Hca k _ _ Har Hai) as ([J1 J2 J3 _ _] & _ & Hm). cbn [rq_laddr answer_req with_raddr ri_raddr] in Hm.
      rewrite <- J1, Hlq in Hm. rewrite Hm, <- Hd, <- Hlq. apply chunks_assemble with (n := ri_nchunks (answer_info r)); [congruence|done|]. intros i Hi.
      rewrite <- (chunk_data_length (held src (answer_req (with_raddr r (found_at r))))) by (congruence || done).
      apply (Hmem (msg_at h (held src) (answer_req (with_raddr r (found_at r))) (answer_info r) i)). apply elem_of_post_msgs; [done|]. eauto 8.
    + intros x Hx. apply Hmo. intros m Hm. apply elem_of_post_msgs in Hm as (k & rq & ri & i & Hrq & Hri & Hi & ->); [|done].
      destruct (ans_view k ri Hri) as (_ & rq' & _ & Hrq' & _ & Hd & Hlq & _). destruct (ans_job eb info asked wsb src Han Hcs Hca k _ _ Hrq Hri) as ([J1 J2 J3 _ _] & _).
      unfold m_addr, m_len. cbn. rewrite chunk_data_length by (congruence || done). rewrite Hd.
      destruct (Hx rq'); [by eapply list_elem_of_lookup_2|..]; pose proof (chunk_off_bound (ri_total_len ri) (ri_nchunks ri) i J3 ltac:(lia));
        pose proof (chunk_off_bound (ri_total_len ri) (ri_nchunks ri) (i + 1) J3 ltac:(lia)) as Hb; rewrite chunk_off_succ in Hb by lia; lia.
    + intros j c0 c Hc0 Hct. apply (Hacks j c0 c (msgs j) Hc0); [|done]. rewrite Hst, decide_True; [done|]. rewrite <- Hlen. by eapply lookup_lt_Some.
Qed.
End Store.

(** * The responder *)

Section Serve.
Context {C : Type} `{StreamLaws C}.
Context (info : PostInfoHeader) (asked : list RequestInfo) (Han : announced info asked).
Context (eb : Engine) (wsb : Workers) (src : mem) (Hcs : can_serve info asked (en_in eb)) (Hca : can_answer eb info asked wsb src).
Abbreviation h := (hb_handle (pi_base info)).
Abbreviation peer := (pi_peer info).
Abbreviation nw := (length wsb).
Abbreviation areqs := (ans_reqs eb info asked).
Abbreviation ainfos := (ans_infos eb info asked).
Abbreviation msgs j := (post_msgs h (held src) nw j areqs ainfos).
Abbreviation cb := (- (1 + Z.of_nat (size (en_closures eb)))).

(** The engine after it has processed the answer. *)
Record answering (e2 : Engine) (ws2 : Workers) : Prop := {
  aw_workers : en_send_workers e2 !! peer = Some ws2;
  aw_length : length ws2 = nw;
  aw_queued : ∀ j, from_option (queued ∘ fst) 0%nat (ws2 !! j) = if decide (j < nw)%nat then length (msgs j) else 0%nat;
  aw_sends : ∀ j w t (tw : world C) nows, ws2 !! j = Some (w, t) → usable (w_ch tw) → w_mem tw = src → length nows = queued w →
    ∃ w' tw', SendLoop w tw nows = Ok (w', tw', Continue) ∧ queued w' = 0%nat ∧ usable (w_ch tw') ∧
      outbound (w_ch tw') = outbound (w_ch tw) ++ concat (msg_bytes <$> msgs j);
  aw_closure : en_closures e2 !! cb = Some (peer, h);
  aw_in : en_in e2 = put (en_in eb) (peer, h) (serving info asked (en_in eb));
  aw_out : ∃ rk0 pt, rk_wf rk0 ∧ pt_on_complete pt = Some cb ∧
    en_out e2 = put rk0 (Endpoint_default, h) (added rk0 (Some pt) ainfos 0 Metadata_zero);
}.

Lemma pairs_length j : length (fst <$> post_pairs h (held src) nw j areqs ainfos) = length (msgs j).
Proof.
  rewrite length_fmap. unfold post_pairs, post_msgs. generalize ainfos. intros l. induction areqs as [|rq l' IH] in l |- *; destruct l as [|ri l]; try done.
  cbn [zip_with concat]. by rewrite !length_app, !length_fmap, IH.
Qed.

(** The read is received, the answer queued and processed. *)
Lemma read_served (s : host C) nowb nowc : ho_in s = put (en_in eb) (peer, h) (serving info asked (en_in eb)) →
  ∃ e1 e2 ws2, react (set_in_tracker eb (ho_in s)) [EvRecvRead peer h (found info asked (en_in eb))] nowb = Ok e1 ∧
    en_posts e1 = en_posts eb ++ [ans_post eb info asked] ∧ process e1 (ans_post eb info asked) nowc = Ok e2 ∧ answering e2 ws2.
Proof.
  intros Hin. destruct (react_read eb info asked wsb src Han Hcs Hca (ho_in s) nowb) as (e1 & E1 & Hp & Hi & Hws & Hcl & _ & Ho).
  destruct (process_answer eb info asked wsb src Han Hcs Hca e1 (mkPostTracker ∅ 0 Metadata_zero nowb (Some cb) false true) nowc Hws) as (e2 & ws2 & E2 & Hw2 & Hl2 & Hc2 & Hi2 & Hq & Ho2).
  - rewrite Ho. apply rk_wf_put; [apply Hca|]. split; [apply map_Forall_empty|done].
  - rewrite Ho. apply lookup_insert_eq.
  - done.
  - done.
  - exists e1, e2, ws2. do 3 (split; [done|]).
    assert (∀ j w2 t, ws2 !! j = Some (w2, t) → (j < nw)%nat ∧ ∃ w, w2 = mkWorker (wk_id w) (wk_stop w) [] (fst <$> post_pairs h (held src) nw j areqs ainfos)) as Hq'.
    { intros j w2 t Hj. assert ((j < nw)%nat) as Hlt by (rewrite <- Hl2; by eapply lookup_lt_Some). split; [done|].
      destruct (lookup_lt_is_Some_2 wsb j Hlt) as [[w t0] Hw]. rewrite (Hq j w t0 Hw) in Hj. injection Hj as <- <-. by exists w. }
    split; [done|done| | | | |].
    + intros j. destruct (ws2 !! j) as [[w2 t]|] eqn:Ej.
      * destruct (Hq' j w2 t Ej) as (Hlt & w & ->). rewrite decide_True by done. cbn. unfold queued. cbn. apply pairs_length.
      * rewrite decide_False; [done|]. apply lookup_ge_None_1 in Ej. lia.
    + intros j w2 t tw nows Hj. destruct (Hq' j w2 t Hj) as (_ & w & ->). by apply (worker_answers eb info asked wsb src Han Hcs Hca).
    + rewrite Hc2, Hcl. apply lookup_insert_eq.
    + congruence.
    + exists (en_out e1), (mkPostTracker ∅ 0 Metadata_zero nowb (Some cb) false true). split; [|done]. rewrite Ho. apply rk_wf_put; [apply Hca|]. split; [apply map_Forall_empty|done].
Qed.

(** The callback of the responder, after the last acknowledgement. *)
Lemma serving_complete now : rk_recv_post (en_in eb) = true →
  ∃ rk ev, OnReqComplete (put (en_in eb) (peer, h) (serving info asked (en_in eb))) h peer now = Ok (rk, ev) ∧ length (recv_posts ev) = 1%nat.
Proof.
  intros Hrp. unfold OnReqComplete. rewrite put_lookup.
  assert (pt_pending_reqs (serving info asked (en_in eb)) = 1) as Hp.
  { unfold serving, added. cbn. by rewrite (asked_op info asked Han). }
  rewrite Hp. cbn [Z.ltb]. rewrite bind_dcheck by done. change (u64 (1 - 1)) with 0. cbn. rewrite Hrp. eexists _, _. split; [done|].
  rewrite recv_posts_app. by destruct (negb _).
Qed.

Lemma answer_acked e2 ws2 (t0 t u0 : host C) (back : list (nat * clock)) nowd : answering e2 ws2 → rk_recv_post (en_in eb) = true →
  ho_in u0 = en_in e2 → ho_out u0 = en_out e2 → length (ho_chs t0) = nw → length (ho_chs t) = nw → length (ho_chs u0) = nw →
  (∀ j c0 c, ho_chs t0 !! j = Some c0 → ho_chs t !! j = Some c → ∃ acks, Forall2 (is_ack_of h) (msgs j) acks ∧ outbound c = outbound c0 ++ concat (data_bytes <$> acks)) →
  (∀ j c0 c r, ho_chs t0 !! j = Some c0 → ho_chs t !! j = Some c → ho_chs u0 !! j = Some r → usable r ∧ outbound c = outbound c0 ++ inbound r) →
  (∀ j, length (filter (λ x, x.1 = j) back) = if decide (j < nw)%nat then length (msgs j) else 0%nat) →
  ∃ u evs e3 l, host_run u0 back = Ok (u, true) ∧ ho_evs u = ho_evs u0 ++ evs ∧ ho_mem u = ho_mem u0 ∧
    react (set_out_tracker (set_in_tracker e2 (ho_in u)) (ho_out u)) evs nowd = Ok e3 ∧
    en_evs e3 = en_evs e2 ++ l ∧ length (recv_posts l) = 1%nat ∧ Check_ (en_out e3) h Endpoint_default = kNotFound.
Proof.
  intros [_ _ _ _ Hcl Hi2 (rk0 & pt & Hwf & Hcb & Ho2)] Hrp Hui Huo Hl0 Hlt Hlu Hacks Hback Hs.
  destruct (acks_split h (held src) nw areqs ainfos t0 t u0 Hl0 Hlt Hacks Hback) as (streams & Hls & Hst).
  destruct (ans_lengths eb info asked) as [Hn1 Hn2].
  destruct (acks_received h (held src) nw areqs ainfos) with (rk0 := rk0) (t0 := u0) (pt := pt) (streams := streams) (back := back) as (u & evs & E & He & Hi & Hm & Hc & Hse & Hgone & _); try done.
  - pose proof (ca_some _ _ _ _ _ Hca). destruct wsb; [done|cbn; lia].
  - congruence.
  - rewrite ans_ids. apply Han.
  - by apply (ans_ok eb info asked wsb src).
  - by apply ans_some.
  - by rewrite Huo.
  - destruct (serving_complete nowd Hrp) as (rk & ev & Eo & Hone). rewrite Hcb in Hc, Hgone.
    destruct (react_answered (set_out_tracker (set_in_tracker e2 (ho_in u)) (ho_out u)) nowd evs cb peer h rk ev) as (e3 & l & Er & _ & Heo & Hev & Hl).
    + clear -Hse. unfold reads_of. induction Hse as [|x l Hx _ IH]; [done|]. cbn. rewrite IH. by destruct x.
    + done.
    + done.
    + cbn. by rewrite Hi, Hui, Hi2.
    + clear -Hse. unfold recv_posts. induction Hse as [|x l Hx _ IH]; [done|]. cbn. rewrite IH. by destruct x.
    + exists u, evs, e3, l. do 4 (split; [done|]). split; [done|]. split; [by rewrite Hl|]. by rewrite Heo.
Qed.
End Serve.

(** * There and back *)

Section Main.
Context {C : Type} `{StreamLaws C}.

(** C2: a read post fetches the responder's buffers into the initiator's and completes at both
    ends, once.  For a local read post that is ready to be processed, [Engine::process] registers it and queues its announcement on every connection; each worker's send loop
    sends it.  Whenever the streams bring the announcement to the responder's workers, in every
    interleaving, it is taken once: the engine's callback queues one answer, [process] spreads
    its chunks over the responder's own connections to the initiator, and each worker's send
    loop empties its queue.  Whenever those streams bring the initiator's workers what was
    written, in every interleaving that handles one message per queued chunk, every step
    succeeds, each local buffer ends holding exactly the bytes of the remote one, memory
    outside the buffers is untouched, and the completion callback, if there is one, is called
    exactly once.  Whenever the acknowledgements come back, in every interleaving, the answer
    is forgotten at the responder and its receive callback is called exactly once.  The
    responder must not use the handle for a post of its own, and the initiator's channels must
    not have announced a peer, which the code relies on but does not ensure. *)
Theorem read_round_trip (ea : Engine) (post : PostEntry) (wsa : Workers) (pt : PostTracker) (now : Z) :
  let h := pe_handle post in
  let info := post_info ea post in
  let asked := asked_infos (Z.of_nat (length wsa)) (en_next_reqid ea) (pe_reqs post) in
  read_ready ea post wsa pt → local_buffers (pe_reqs post) →
  ∃ ea' ws', process ea post now = Ok ea' ∧ en_send_workers ea' !! pe_peer post = Some ws' ∧ length ws' = length wsa ∧
    (∀ j w t (tw : world C) nows, ws' !! j = Some (w, t) → usable (w_ch tw) → length nows = queued w →
       ∃ w' tw', SendLoop w tw nows = Ok (w', tw', Continue) ∧ queued w' = 0%nat ∧ usable (w_ch tw') ∧
         outbound (w_ch tw') = outbound (w_ch tw) ++ announcement info asked) ∧
    (∀ (eb : Engine) (wsb : Workers) (src : mem) (s0 : host C) sched nowb nowc,
       can_serve info asked (en_in eb) → can_answer eb info asked wsb src → ho_in s0 = en_in eb →
       length (ho_chs s0) = length wsa → (∀ j c, ho_chs s0 !! j = Some c → usable c ∧ inbound c = announcement info asked) →
       (∀ j, length (filter (λ x, x.1 = j) sched) = from_option (queued ∘ fst) 0%nat (ws' !! j)) →
       ∃ s evs eb1 eb2 ws2 answer, host_run s0 sched = Ok (s, true) ∧ ho_evs s = ho_evs s0 ++ evs ∧ ho_mem s = ho_mem s0 ∧
         react (set_in_tracker eb (ho_in s)) evs nowb = Ok eb1 ∧ en_posts eb1 = en_posts eb ++ [ans_post eb info asked] ∧
         process eb1 (ans_post eb info asked) nowc = Ok eb2 ∧ en_send_workers eb2 !! en_self ea = Some ws2 ∧ length ws2 = length wsb ∧
         (∀ j w t (tw : world C) nows, ws2 !! j = Some (w, t) → usable (w_ch tw) → w_mem tw = src → length nows = queued w →
            ∃ w' tw', SendLoop w tw nows = Ok (w', tw', Continue) ∧ queued w' = 0%nat ∧ usable (w_ch tw') ∧
              outbound (w_ch tw') = outbound (w_ch tw) ++ answer j) ∧
         (∀ (t0 : host C) sched2, ho_in t0 = en_in ea' → Forall (λ c, GetPeer c = Endpoint_default) (ho_chs t0) → length (ho_chs t0) = length wsb →
            (∀ j c, ho_chs t0 !! j = Some c → usable c ∧ inbound c = answer j) →
            (∀ j, length (filter (λ x, x.1 = j) sched2) = from_option (queued ∘ fst) 0%nat (ws2 !! j)) →
            ∃ t evs2, host_run t0 sched2 = Ok (t, true) ∧ ho_evs t = ho_evs t0 ++ evs2 ∧ completed evs2 = option_list (pt_on_complete pt) ∧
              Check_ (ho_in t) h Endpoint_default = (match pt_on_complete pt with Some _ => kNotFound | None => kSuccess end) ∧
              (∀ k rq r, pe_reqs post !! k = Some rq → asked !! k = Some r →
                 read_mem (ho_mem t) (rq_laddr rq) (rq_len rq) = read_mem src (resolve_raddr (en_in eb) (pe_metadata post) r) (rq_len rq)) ∧
              (∀ x, (∀ rq, rq ∈ pe_reqs post → x < rq_laddr rq ∨ rq_laddr rq + rq_len rq ≤ x) → ho_mem t !! x = ho_mem t0 !! x) ∧
              (∀ (u0 : host C) back nowd, rk_recv_post (en_in eb) = true → ho_in u0 = en_in eb2 → ho_out u0 = en_out eb2 → length (ho_chs u0) = length wsb →
                 (∀ j c0 c r, ho_chs t0 !! j = Some c0 → ho_chs t !! j = Some c → ho_chs u0 !! j = Some r → usable r ∧ outbound c = outbound c0 ++ inbound r) →
                 (∀ j, length (filter (λ x, x.1 = j) back) = from_option (queued ∘ fst) 0%nat (ws2 !! j)) →
                 ∃ u evs3 eb3 l, host_run u0 back = Ok (u, true) ∧ ho_evs u = ho_evs u0 ++ evs3 ∧ ho_mem u = ho_mem u0 ∧
                   react (set_out_tracker (set_in_tracker eb2 (ho_in u)) (ho_out u)) evs3 nowd = Ok eb3 ∧
                   en_evs eb3 = en_evs eb2 ++ l ∧ length (recv_posts l) = 1%nat ∧ Check_ (en_out eb3) h Endpoint_default = kNotFound))).
Proof.
  intros h info asked Hr Hbuf. pose proof (read_announced ea post wsa pt Hr) as Han. destruct (process_read ea post wsa pt Hr now) as (ea' & Ep & Hws & Hin).
  set (ws' := (λ w, (push_info w.1 (mkInfoEntry info asked), w.2)) <$> wsa) in *.
  assert (∀ j w t, ws' !! j = Some (w, t) → ∃ w0, wsa !! j = Some (w0, t) ∧ w = push_info w0 (mkInfoEntry info asked) ∧ queued w = 1%nat) as Hq.
  { intros j w t Hj. unfold ws' in Hj. rewrite list_lookup_fmap in Hj. destruct (wsa !! j) as [[w0 t0]|] eqn:Ew; [|done]. injection Hj as <- <-. exists w0.
    split; [done|]. split; [done|]. pose proof (Forall_lookup_1 _ _ _ _ (rr_idle _ _ _ _ Hr) Ew) as [Hi Hc]. cbn in Hi, Hc. unfold queued. cbn. by rewrite Hi, Hc. }
  assert (length ws' = length wsa) as Hl' by apply length_fmap. exists ea', ws'. do 3 (split; [done|]). split.
  { intros j w t tw nows Hj Hu Hn. destruct (Hq j w t Hj) as (w0 & Hj0 & -> & Hone). rewrite Hone in Hn. destruct nows as [|n [|]]; try done.
    by apply (worker_announces ea post wsa pt Hr j w0 t). }
  intros eb wsb src s0 sched nowb nowc Hcs Hca Hs0 Hlc Hch Hsched. rewrite <- Hs0 in Hcs.
  destruct (told_run info asked Han s0 sched (length wsa) Hcs) as (s & Erun & _ & Hms & His & Hes & _); [|done|done| |].
  { pose proof (read_nw _ _ _ _ Hr). lia. }
  { intros j. rewrite Hsched. destruct (ws' !! j) as [[w t]|] eqn:Ej.
    - destruct (Hq j w t Ej) as (w0 & Hj0 & _ & Hone). rewrite decide_True by by eapply lookup_lt_Some. exact Hone.
    - rewrite decide_False; [done|]. apply lookup_ge_None_1 in Ej. lia. }
  rewrite Hs0 in Hcs, His, Hes. destruct (read_served info asked Han eb wsb src Hcs Hca s nowb nowc His) as (e1 & e2 & ws2 & E1 & Hp1 & E2 & Haw).
  exists s, [EvRecvRead (pi_peer info) h (found info asked (en_in eb))], e1, e2, ws2, (λ j, concat (msg_bytes <$> post_msgs h (held src) (length wsb) j (ans_reqs eb info asked) (ans_infos eb info asked))).
  do 6 (split; [done|]). split; [apply Haw|]. split; [apply Haw|]. split; [apply Haw|]. intros t0 sched2 Ht0 Hpeers Hlt Hcht Hs2.
  destruct (answer_received ea post wsa pt Hr Hbuf eb wsb src Hcs Hca t0 sched2) as (t & evs2 & Et & Het & Hct & Hkt & _ & _ & Hmt & Hot & Hat); [by rewrite Ht0|done..| |].
  { intros j. rewrite Hs2. apply Haw. }
  exists t, evs2. do 6 (split; [done|]). intros u0 back nowd Hrp Hui Huo Hlu Hback Hs3.
  apply (answer_acked info asked Han eb wsb src Hcs Hca e2 ws2 t0 t u0 back nowd Haw); try done.
  - by rewrite (host_run_length _ _ _ _ Et).
  - intros j. rewrite Hs3. apply Haw.
Qed.
End Main.

(** * Ten bytes at 4096 read to 64 over two connections, there and back *)

Definition rd_request : Request := mkRequest kRead 64 4096 10 0 Metadata_zero.
Definition rd_post : PostEntry := mkPostEntry ep_sample 42 [rd_request] [] Metadata_zero false.
Definition with_workers (e : Engine) : Engine :=
  mkEngine (en_self e) (en_num_conns e) (en_stop e) (en_next_handle e) (en_next_reqid e) (en_posts e)
    (en_out e) (en_in e) {[ ep_sample := e2e_workers ]} (en_recv_workers e) (en_closures e) (en_evs e).
(** The initiator, with the callback 77, and the responder. *)
Definition rd_initiator : Engine :=
  with_workers (match Enqueue (Engine_new ep_sample 2 41 7 true None) ep_sample (mkItem [rd_request] (Some 77) Metadata_zero 1000 false) with
    | Ok (e, _) => e | Fault _ => engine_sample end).
Definition rd_responder : Engine := with_workers (Engine_new ep_sample 2 100 50 true None).
Definition rd_tracker : PostTracker := mkPostTracker ∅ 0 Metadata_zero 1000 (Some 77) false true.
Definition rd_src : mem := list_to_map (zip (seqZ 4096 10) e2e_data).
Definition rd_info : PostInfoHeader := post_info rd_initiator rd_post.
Definition rd_asked : list RequestInfo := asked_infos 2 (en_next_reqid rd_initiator) (pe_reqs rd_post).
(** Channels that bring some bytes. *)
Definition rd_host (out inc : RequestTracker) (b : nat → bytes) : host Duplex :=
  mkHost ((λ j, set_in true dx_sample (mkMemPipe false [b j])) <$> [0%nat; 1%nat]) out inc ∅ [].
Definition rd_sched : list (nat * clock) := let ck := mkClock 1 2 3 4 in [(1%nat, ck); (0%nat, ck)].

Lemma rd_in_tracker : en_in rd_initiator = put (RequestTracker_new true None true) (Endpoint_default, 42) rd_tracker.
Proof. vm_compute. reflexivity. Qed.
Lemma rd_ready : read_ready rd_initiator rd_post e2e_workers rd_tracker.
Proof.
  split.
  - vm_compute. reflexivity.
  - done.
  - done.
  - by repeat constructor.
  - done.
  - done.
  - constructor; [|done]. split; try done; try (unfold fits; cbn; lia). by repeat constructor.
  - done.
  - rewrite rd_in_tracker. apply rk_wf_put; [by intros k pt Hk|]. split; [apply map_Forall_empty|done].
  - vm_compute. reflexivity.
  - done.
  - done.
  - by split.
  - by split.
  - split; [|done]. apply (bool_decide_eq_true _). vm_compute. reflexivity.
  - by repeat constructor.
  - by repeat constructor.
Qed.
Lemma rd_serves : can_serve rd_info rd_asked (en_in rd_responder).
Proof. split; [by intros k pt Hk|done|done|]. by repeat constructor. Qed.
Lemma rd_answers : can_answer rd_responder rd_info rd_asked e2e_workers rd_src.
Proof.
  split; [by intros k pt Hk|done|vm_compute; reflexivity|done|by repeat constructor|].
  constructor; [|constructor]. apply (bool_decide_eq_true _). vm_compute. reflexivity.
Qed.

Lemma read_round_trip_witness : ∃ ea' s eb1 eb2 answer t evs2 u evs3 eb3 l, process rd_initiator rd_post 5 = Ok ea' ∧
  @host_run _ (MemStreamChannel true) (rd_host (en_out rd_responder) (en_in rd_responder) (λ _, announcement rd_info rd_asked)) rd_sched = Ok (s, true) ∧
  react (set_in_tracker rd_responder (ho_in s)) (ho_evs s) 6 = Ok eb1 ∧ process eb1 (ans_post rd_responder rd_info rd_asked) 7 = Ok eb2 ∧
  @host_run _ (MemStreamChannel true) (rd_host (en_out ea') (en_in ea') answer) rd_sched = Ok (t, true) ∧
  read_mem (ho_mem t) 64 10 = Some <$> e2e_data ∧ ho_evs t = evs2 ∧ completed evs2 = [77] ∧
  @host_run _ (MemStreamChannel true) (rd_host (en_out eb2) (en_in eb2) (λ j, concat (from_option (mp_queue ∘ dx_p2) [] (ho_chs t !! j)))) rd_sched = Ok (u, true) ∧
  react (set_out_tracker (set_in_tracker eb2 (ho_in u)) (ho_out u)) evs3 8 = Ok eb3 ∧ en_evs eb3 = en_evs eb2 ++ l ∧ length (recv_posts l) = 1%nat.
Proof.
  destruct (@read_round_trip Duplex (MemStreamChannel true) (mem_stream true) (MemStreamChannel_laws true) rd_initiator rd_post e2e_workers rd_tracker 5 rd_ready)
    as (ea' & ws' & Hp & Hws & _ & _ & Hserve).
  { split; [intros rq ->%list_elem_of_singleton; cbn; lia|]. intros [|k1] [|k2]; done. }
  assert (∀ j, from_option (queued ∘ fst) 0%nat (ws' !! j) = if (j <? 2)%nat then 1%nat else 0%nat) as Hq.
  { pose proof Hp as Hp'. vm_compute in Hp'. injection Hp' as <-. vm_compute in Hws. injection Hws as <-. by intros [|[|j]]. }
  destruct (Hserve rd_responder e2e_workers rd_src (rd_host (en_out rd_responder) (en_in rd_responder) (λ _, announcement rd_info rd_asked)) rd_sched 6 7)
    as (s & evs & eb1 & eb2 & ws2 & answer & Hrun & Hev & _ & Hre & _ & Hpa & Hws2 & _ & _ & Hread).
  - exact rd_serves.
  - exact rd_answers.
  - reflexivity.
  - reflexivity.
  - intros [|[|j]] c Hc; cbn in Hc; simplify_eq; (split; [by split|apply app_nil_r]).
  - intros j. rewrite Hq. by destruct j as [|[|j]].
  - change (ho_evs s = evs) in Hev. subst evs.
    assert (∀ j, from_option (queued ∘ fst) 0%nat (ws2 !! j) = if (j <? 2)%nat then 1%nat else 0%nat) as Hq2.
    { clear Hread. vm_compute in Hrun. injection Hrun as <-. vm_compute in Hre. injection Hre as <-. vm_compute in Hpa. injection Hpa as <-.
      vm_compute in Hws2. injection Hws2 as <-. by intros [|[|j]]. }
    destruct (Hread (rd_host (en_out ea') (en_in ea') answer) rd_sched) as (t & evs2 & Ht & Het & Hct & _ & Hm & _ & Hack).
    + reflexivity.
    + by repeat constructor.
    + reflexivity.
    + intros [|[|j]] c Hc; cbn in Hc; simplify_eq; (split; [by split|apply app_nil_r]).
    + intros j. rewrite Hq2. by destruct j as [|[|j]].
    + destruct (Hack (rd_host (en_out eb2) (en_in eb2) (λ j, concat (from_option (mp_queue ∘ dx_p2) [] (ho_chs t !! j)))) rd_sched 8)
        as (u & evs3 & eb3 & l & Hu & _ & _ & Hr3 & Hl & Hone & _).
      * reflexivity.
      * reflexivity.
      * reflexivity.
      * reflexivity.
      * intros j c0 c r Hc0 Hc Hr. destruct j as [|[|j]]; cbn in Hc0, Hr; simplify_eq; (split; [by split|]); cbn; rewrite Hc, app_nil_r; reflexivity.
      * intros j. rewrite Hq2. by destruct j as [|[|j]].
      * exists ea', s, eb1, eb2, answer, t, evs2, u, evs3, eb3, l. split; [exact Hp|]. split; [exact Hrun|]. split; [exact Hre|]. split; [exact Hpa|]. split; [exact Ht|].
        split; [transitivity (read_mem rd_src 4096 10); [exact (Hm 0%nat rd_request (asked_info 2 8 rd_request) eq_refl eq_refl)|vm_compute; reflexivity]|]. split; [exact Het|]. split; [exact Hct|].
        split; [exact Hu|]. split; [exact Hr3|]. split; [exact Hl|exact Hone].
Defined.
