(* ===== verification/HostInfo.v ===== *)
(** Host information, [internal/base/nicinfo] and [internal/base/hostinfo]: the listeners a
    host announces to its peers, with their validity rules.  A [flat_hash_set] of endpoints
    is a finite set; on well-formed endpoints its equality is the one of the sources
    ([IpAddr_eqb_spec]). *)

From Stdlib Require Import Ascii.
From stdpp Require Import base tactics numbers gmap countable sets list.
From S2P Require Import Prelude IpAddr Endpoint.
Local Open Scope Z_scope.

(** * Data *)

Inductive NicType : Type := kInvalid | kIP | kRDMA.
#[export] Instance NicType_eq_dec : EqDecision NicType.
Proof. solve_decision. Defined.

(** [enum class NicType : uint8_t]. *)
Definition NicType_u8 (t : NicType) : Z := match t with kInvalid => 0 | kIP => 1 | kRDMA => 2 end.

Record NicInfo := mkNicInfo { nic_name : str; nic_type : NicType; nic_endpoints : list Endpoint }.
Definition NicInfo_default : NicInfo := mkNicInfo [] kInvalid [].

Record HostInfo := mkHostInfo { control_plane_listener : Endpoint; data_plane_listeners : list NicInfo }.
Definition HostInfo_default : HostInfo := mkHostInfo Endpoint_default [].

#[export] Instance NicInfo_eq_dec : EqDecision NicInfo.
Proof. solve_decision. Defined.
#[export] Instance HostInfo_eq_dec : EqDecision HostInfo.
Proof. solve_decision. Defined.

(** * Operations *)

Definition NicInfo_IsValid (nic : NicInfo) : bool :=
  if bool_decide (nic_name nic = []) then false
  else if bool_decide (nic_type nic = kInvalid) then false
  else if bool_decide (nic_endpoints nic = []) then false
  else forallb (λ e, HasNonzeroIpPort e &&
                     (negb (bool_decide (nic_type nic = kRDMA)) || IsIPv6 (ep_ipaddr e)))
               (nic_endpoints nic).

Definition IsDataPlaneValid (h : HostInfo) : bool :=
  let control_plane_valid := negb (HasZeroIpAddr (control_plane_listener h)) in
  let data_plane_valid :=
    negb (bool_decide (data_plane_listeners h = [])) && forallb NicInfo_IsValid (data_plane_listeners h) in
  let '(num_endpoints, es) :=
    foldl (λ '(n, es) nic, ((n + length (nic_endpoints nic))%nat, es ∪ list_to_set (nic_endpoints nic)))
      (1%nat, {[ control_plane_listener h ]} : gset Endpoint) (data_plane_listeners h) in
  let unique_endpoints := Nat.eqb (size es) num_endpoints in
  let nic_names : gset str := foldl (λ s nic, s ∪ {[ nic_name nic ]}) ∅ (data_plane_listeners h) in
  let unique_nic_names := Nat.eqb (size nic_names) (length (data_plane_listeners h)) in
  control_plane_valid && data_plane_valid && unique_endpoints && unique_nic_names.

Definition HostInfo_IsValid (h : HostInfo) : bool :=
  HasNonzeroIpPort (control_plane_listener h) && IsDataPlaneValid h.

(** [PickLocalhost<kFamily>]. *)
Definition PickLocalhost (kFamily : Z) (endpoints : list Endpoint) : option Endpoint :=
  snd <$> list_find (λ e,
    ¬ (kFamily = AF_INET ∧ IsIPv4 (ep_ipaddr e) = false) ∧
    ¬ (kFamily = AF_INET6 ∧ IsIPv6 (ep_ipaddr e) = false) ∧
    HasNonzeroIpPort e = true ∧ IpAddr_IsLoopback (ep_ipaddr e) = true) endpoints.
Definition PickIPv4Localhost (nic : NicInfo) : option Endpoint := PickLocalhost AF_INET (nic_endpoints nic).
Definition PickIPv6Localhost (nic : NicInfo) : option Endpoint := PickLocalhost AF_INET6 (nic_endpoints nic).

(** [GetTcpListeners] of [internal/engine/engine_helper.cc]. *)
Definition GetTcpListeners (peer_info : HostInfo) : list Endpoint :=
  foldl (λ endpoints nic, if bool_decide (nic_type nic = kIP) then endpoints ++ nic_endpoints nic else endpoints)
    [] (data_plane_listeners peer_info).

(** * Lemmas *)

(** All endpoints of a host. *)
Definition host_endpoints (h : HostInfo) : list Endpoint :=
  control_plane_listener h :: (data_plane_listeners h ≫= nic_endpoints).

(** A list whose set is as large as the list has no duplicates. *)
Lemma size_list_to_set_NoDup `{Countable A} (l : list A) :
  size (list_to_set l : gset A) = length l ↔ NoDup l.
Proof.
  split; [|intros Hn; by rewrite size_list_to_set].
  induction l as [|x l IH]; [constructor|]. cbn [list_to_set length].
  destruct (decide (x ∈ l)) as [Hin|Hnin].
  - rewrite subseteq_union_1_L by set_solver. intros Hs.
    assert (size (list_to_set l : gset A) ≤ length l)%nat; [|lia].
    clear. induction l as [|y l IH]; [done|]. cbn [list_to_set length].
    pose proof (size_union_alt {[y]} (list_to_set l : gset A)) as Hu. rewrite Hu, size_singleton.
    assert (size (list_to_set l ∖ {[y]} : gset A) ≤ size (list_to_set l : gset A))%nat
      by (apply subseteq_size; set_solver). lia.
  - rewrite size_union, size_singleton by set_solver. intros Hs. apply NoDup_cons.
    split; [done|]. apply IH. lia.
Qed.

Lemma endpoints_fold (l : list NicInfo) n (es : gset Endpoint) :
  foldl (λ '(n, es) nic, ((n + length (nic_endpoints nic))%nat, es ∪ list_to_set (nic_endpoints nic)))
    (n, es) l = ((n + length (l ≫= nic_endpoints))%nat, es ∪ list_to_set (l ≫= nic_endpoints)).
Proof.
  revert n es. induction l as [|nic l IH]; intros n es.
  - cbn. f_equal; [lia|]. by rewrite union_empty_r_L.
  - cbn [foldl]. rewrite IH, bind_cons, length_app, list_to_set_app_L. f_equal; [lia|].
    by rewrite (assoc_L (∪)).
Qed.

Lemma names_fold (l : list NicInfo) (s : gset str) :
  foldl (λ s nic, s ∪ {[ nic_name nic ]}) s l = (s ∪ list_to_set (nic_name <$> l)).
Proof.
  revert s. induction l as [|nic l IH]; intros s.
  - cbn. by rewrite union_empty_r_L.
  - cbn [foldl]. rewrite IH. cbn [fmap list_fmap list_to_set]. by rewrite (assoc_L (∪)).
Qed.

Lemma NicInfo_IsValid_spec nic :
  NicInfo_IsValid nic = true ↔
  nic_name nic ≠ [] ∧ nic_type nic ≠ kInvalid ∧ nic_endpoints nic ≠ [] ∧
  ∀ e, e ∈ nic_endpoints nic →
    HasNonzeroIpPort e = true ∧ (nic_type nic = kRDMA → IsIPv6 (ep_ipaddr e) = true).
Proof.
  unfold NicInfo_IsValid. do 3 (case_bool_decide; [naive_solver|]).
  rewrite forallb_forall. setoid_rewrite <- list_elem_of_In.
  split; [intros Hf|intros (_ & _ & _ & Hf)].
  - split_and!; try done. intros e He. destruct (andb_prop _ _ (Hf e He)) as [? Hv]. split; [done|].
    intros Ht. by rewrite bool_decide_eq_true_2 in Hv.
  - intros e He. destruct (Hf e He) as [-> Hv]. cbn [andb].
    destruct (decide (nic_type nic = kRDMA)); [rewrite Hv by done; by apply orb_true_r|].
    by rewrite bool_decide_eq_false_2.
Qed.

(** What [HostInfo::IsValid] decides. *)
Lemma IsDataPlaneValid_spec h :
  IsDataPlaneValid h = true ↔
  HasZeroIpAddr (control_plane_listener h) = false ∧ data_plane_listeners h ≠ [] ∧
  (∀ nic, nic ∈ data_plane_listeners h → NicInfo_IsValid nic = true) ∧
  NoDup (host_endpoints h) ∧ NoDup (nic_name <$> data_plane_listeners h).
Proof.
  unfold IsDataPlaneValid. rewrite endpoints_fold, names_fold, union_empty_l_L.
  change ({[control_plane_listener h]} ∪ list_to_set (data_plane_listeners h ≫= nic_endpoints) : gset Endpoint)
    with (list_to_set (host_endpoints h) : gset Endpoint).
  change (1 + length (data_plane_listeners h ≫= nic_endpoints))%nat with (length (host_endpoints h)).
  rewrite <- (length_fmap nic_name (data_plane_listeners h)).
  rewrite !andb_true_iff, !Nat.eqb_eq, !size_list_to_set_NoDup, !negb_true_iff, bool_decide_eq_false, forallb_forall.
  setoid_rewrite <- list_elem_of_In. tauto.
Qed.
Lemma HostInfo_IsValid_spec h :
  HostInfo_IsValid h = true ↔
  HasNonzeroIpPort (control_plane_listener h) = true ∧ data_plane_listeners h ≠ [] ∧
  (∀ nic, nic ∈ data_plane_listeners h → NicInfo_IsValid nic = true) ∧
  NoDup (host_endpoints h) ∧ NoDup (nic_name <$> data_plane_listeners h).
Proof.
  unfold HostInfo_IsValid. rewrite andb_true_iff, IsDataPlaneValid_spec. unfold HasNonzeroIpPort, HasZeroIpAddr.
  rewrite andb_true_iff, !negb_true_iff. tauto.
Qed.

(** Another port that no listener has. *)
Lemma HostInfo_bound e nics port : IsDataPlaneValid (mkHostInfo e nics) = true → port ≠ 0 → SetPort e port ∉ nics ≫= nic_endpoints →
  HostInfo_IsValid (mkHostInfo (SetPort e port) nics) = true.
Proof.
  intros (Hz & Hne & Hn & [_ Hnd]%NoDup_cons & Hnames)%IsDataPlaneValid_spec Hp Hnew. apply HostInfo_IsValid_spec. cbn in *.
  split; [|split; [done|split; [done|split; [by constructor|done]]]].
  unfold HasNonzeroIpPort, HasZeroIpAddr in *. cbn. rewrite Hz. by rewrite (proj2 (Z.eqb_neq _ _) Hp).
Qed.

(** The listeners are the endpoints of the IP interfaces, in order. *)
Lemma GetTcpListeners_alt h :
  GetTcpListeners h = filter (λ nic, nic_type nic = kIP) (data_plane_listeners h) ≫= nic_endpoints.
Proof.
  unfold GetTcpListeners.
  rewrite <- (app_nil_l (filter _ _ ≫= _)). generalize (@nil Endpoint) as acc.
  induction (data_plane_listeners h) as [|nic l IH]; intros acc; cbn [foldl].
  - by rewrite app_nil_r.
  - rewrite IH, filter_cons. case_bool_decide; [rewrite decide_True by done|by rewrite decide_False].
    by rewrite bind_cons, app_assoc.
Qed.

Lemma sublist_bind_filter {A B} (P : A → Prop) `{∀ x, Decision (P x)} (f : A → list B) l :
  filter P l ≫= f `sublist_of` l ≫= f.
Proof.
  induction l as [|x l IH]; [done|]. rewrite filter_cons, bind_cons.
  case_decide; [rewrite bind_cons; by apply sublist_app|by apply sublist_inserts_l].
Qed.

(** A value occurs under one element only. *)
Lemma bind_NoDup_same {A B} (f : A → list B) l a a' b :
  NoDup (l ≫= f) → a ∈ l → a' ∈ l → b ∈ f a → b ∈ f a' → a = a'.
Proof.
  induction l as [|x l IH]; [by intros _ ?%elem_of_nil|].
  rewrite bind_cons, !elem_of_cons. intros (_ & Hd & Hn)%NoDup_app Ha Ha' Hb Hb'.
  assert (∀ a0, a0 ∈ l → b ∈ f a0 → b ∈ f x → False) as Hx.
  { intros a0 H1 H2 H3. apply (Hd b H3), list_elem_of_bind. eauto. }
  destruct Ha as [->|Ha], Ha' as [->|Ha']; [done|by destruct (Hx a')|by destruct (Hx a)|by apply IH].
Qed.

(** * Properties *)

(** a connection to a peer is made to its TCP listeners.  For valid host information
    these can all be connected to, are all different, and none is the control endpoint; an
    RDMA interface contributes none. *)
Theorem HostInfo_listeners_connectable h : HostInfo_IsValid h = true →
  NoDup (GetTcpListeners h) ∧
  (∀ e, e ∈ GetTcpListeners h → HasNonzeroIpPort e = true ∧ e ≠ control_plane_listener h) ∧
  (∀ nic e, nic ∈ data_plane_listeners h → e ∈ nic_endpoints nic →
     e ∈ GetTcpListeners h ↔ nic_type nic = kIP).
Proof.
  intros (Hc & _ & Hnics & Hnd & _)%HostInfo_IsValid_spec.
  unfold host_endpoints in Hnd. apply NoDup_cons in Hnd as [Hnc Hnd]. rewrite GetTcpListeners_alt.
  split; [|split].
  - by eapply sublist_NoDup; [|apply sublist_bind_filter].
  - intros e (nic & He & [_ Hin]%list_elem_of_filter)%list_elem_of_bind. split.
    + by apply (proj1 (NicInfo_IsValid_spec nic) (Hnics _ Hin)).
    + intros ->. apply Hnc, list_elem_of_bind. eauto.
  - intros nic e Hin He. rewrite list_elem_of_bind. setoid_rewrite list_elem_of_filter. split.
    + intros (nic' & He' & Ht & Hin'). by rewrite (bind_NoDup_same _ _ _ _ _ Hnd Hin Hin' He He').
    + intros Ht. eauto.
Qed.

Definition host_sample : HostInfo :=
  mkHostInfo (mkEndpoint (IPv4 [10; 0; 0; 1]) 10000)
    [mkNicInfo ["e"%char] kIP [mkEndpoint (IPv4 [10; 0; 0; 1]) 43521; mkEndpoint (IPv4 [10; 0; 0; 2]) 51691];
     mkNicInfo ["r"%char] kRDMA [mkEndpoint (IPv6 [254; 128; 0; 0; 0; 0; 0; 0; 0; 0; 0; 0; 0; 0; 0; 9]) 1]].

Lemma HostInfo_listeners_connectable_witness :
  HostInfo_IsValid host_sample = true ∧ NoDup (GetTcpListeners host_sample) ∧
  HasNonzeroIpPort (mkEndpoint (IPv4 [10; 0; 0; 2]) 51691) = true.
Proof.
  assert (HostInfo_IsValid host_sample = true) as Hv by (vm_compute; reflexivity).
  destruct (HostInfo_listeners_connectable host_sample Hv) as (Hnd & Hc & _).
  split; [exact Hv|]. split; [exact Hnd|].
  apply (Hc (mkEndpoint (IPv4 [10; 0; 0; 2]) 51691)). right. left.
Defined.

(** Duplicate endpoints, also across interfaces, and an IPv4 address on an RDMA interface are
    rejected. *)
Example host_rejected :
  let c := mkEndpoint (IPv4 [10; 0; 0; 1]) 10000 in
  HostInfo_IsValid (mkHostInfo c [mkNicInfo ["e"%char] kIP [c]]) = false ∧
  HostInfo_IsValid (mkHostInfo c [mkNicInfo ["r"%char] kRDMA [mkEndpoint (IPv4 [10; 0; 0; 2]) 1]]) = false.
Proof. vm_compute. done. Qed.
