(* ===== verification/Nic.v ===== *)
(** Network interfaces of the host: [util/nic.{h,cc}].  The system calls and files that list the
    interfaces are a parameter ([NicSystem]), the iteration of hash maps too ([HashOrder]). *)

From Stdlib Require Import Ascii.
From stdpp Require Import base tactics list list_numbers numbers gmap fin_maps strings sorting.
From S2P Require Import Prelude Containers Types IpAddr Endpoint HostInfo.
Local Open Scope Z_scope.

(** * The system *)

Record ifaddrs := mkIfaddrs { ifa_name : option str; ifa_addr : option sockaddr; ifa_flags : Z }.

Class NicSystem (S : Type) := {
  getifaddrs : S → option (list ifaddrs);     (* None: failure, or no list *)
  if_nametoindex : S → str → Z;               (* 0: no such interface *)
  path_exists : S → str → bool;               (* access(path, F_OK) == 0 *)
  getnameinfo : S → sockaddr → option str;    (* with NI_NUMERICHOST *)
}.

(** * Interfaces *)

(** [util::NicInfo]. *)
Record IfcInfo := mkIfcInfo { ni_type : NicType; ni_addrs : list IpAddr }.

Definition AF_UNSPEC : Z := 0.

(** [IpAddr::Create(const struct sockaddr&)]. *)
Definition IpAddr_of_sockaddr (sa : sockaddr) : option IpAddr :=
  match sa with
  | sockaddr_in _ a => Some (IPv4 a)
  | sockaddr_in6 _ a => Some (IPv6 a)
  | sockaddr_other _ => None
  end.
Definition sockaddr_family (sa : sockaddr) : Z :=
  match sa with sockaddr_in _ _ => AF_INET | sockaddr_in6 _ _ => AF_INET6 | sockaddr_other f => f end.

Definition text (s : string) : str := String.list_ascii_of_string s.

Section Interfaces.
Context {S : Type} `{NicSystem S} `{NetText}.

Definition Exists (sys : S) (ifc suffix : str) : bool :=
  path_exists sys (text "/sys/class/net/" ++ ifc ++ suffix).
Definition IsBridgeInterface (sys : S) (ifc : str) : bool := Exists sys ifc (text "/bridge").
Definition IsRdmaInterface (sys : S) (ifc : str) : bool := Exists sys ifc (text "/device/infiniband").

Definition GetRoutableIpAddr (ip : str) (family : Z) : option IpAddr :=
  let routable a := if IpAddr_IsRoutable a then Some a else None in
  let v4 := if (family =? AF_INET) || (family =? AF_UNSPEC)
            then inet_pton4 ip ≫= λ b, routable (IPv4 b) else None in
  match v4 with
  | Some a => Some a
  | None => if (family =? AF_INET6) || (family =? AF_UNSPEC)
            then inet_pton6 ip ≫= λ b, routable (IPv6 b) else None
  end.

(** Everything before the first ['%']. *)
Fixpoint before_percent (s : str) : str :=
  match s with [] => [] | c :: s' => if decide (c = "%"%char) then [] else c :: before_percent s' end.

Definition EnumerateNics (sys : S) : gmap str (list str) :=
  match getifaddrs sys with
  | None => ∅
  | Some ifs =>
      foldl (λ m ifa,
        match ifa_addr ifa with
        | None => m
        | Some sa =>
            if negb (sockaddr_family sa =? AF_INET) && negb (sockaddr_family sa =? AF_INET6) then m
            else match getnameinfo sys sa, ifa_name ifa with
                 | Some ip, Some name => <[name := default [] (m !! name) ++ [before_percent ip]]> m
                 | _, _ => m
                 end
        end) ∅ ifs
  end.

(** The index, or the error of a call, or that no interface has the address. *)
Fixpoint FindNic_loop (sys : S) (target : IpAddr) (ifs : list ifaddrs) : res (option Z) :=
  match ifs with
  | [] => Ok None
  | ifa :: ifs' =>
      match ifa_addr ifa with
      | None => FindNic_loop sys target ifs'
      | Some sa =>
          if negb (sockaddr_family sa =? AddressFamily target) then FindNic_loop sys target ifs'
          else if negb (match IpAddr_of_sockaddr sa with Some a => IpAddr_eqb a target | None => false end)
          then FindNic_loop sys target ifs'
          else
            (let* name := at_or BadPointer (ifa_name ifa) in
             let index := if_nametoindex sys name in
             if 0 <? index then Ok (Some index) else Ok None)%pg
      end
  end.
Definition FindNic (sys : S) (target : IpAddr) : res (option Z) :=
  match getifaddrs sys with None => Ok None | Some ifs => FindNic_loop sys target ifs end.

(** Every interface is written once, so the order of the map does not matter. *)
Definition FindRoutableIpAddrs (sys : S) (family : Z) : gmap str IfcInfo :=
  map_imap (λ ifc ips,
    if IsBridgeInterface sys ifc then None
    else
      let addrs := omap (λ ip, GetRoutableIpAddr ip family) ips in
      if bool_decide (addrs = []) then None
      else Some (mkIfcInfo (if IsRdmaInterface sys ifc then kRDMA else kIP) addrs))
    (EnumerateNics sys).
End Interfaces.

(** * Choice of an address *)

Definition MatchesTransport (nic_type : NicType) (transport : TransportType) : bool :=
  match transport with
  | kAny => bool_decide (nic_type = kIP) || bool_decide (nic_type = kRDMA)
  | kTcp => bool_decide (nic_type = kIP)
  | kRdma => bool_decide (nic_type = kRDMA)
  end.

Section Pick.
Context `{O : HashOrder} `{NetText}.

Definition sorted_ifnames (nics : gmap str IfcInfo) (transport : TransportType) : list str :=
  std_sort str_lt
    (fst <$> filter (λ kv, MatchesTransport (ni_type kv.2) transport = true) (iter_map nics)).
Definition eligible (want_ipv6 : bool) (addr : IpAddr) : bool :=
  negb (IpAddr_IsLoopback addr || negb (eqb (IsIPv6 addr) want_ipv6)).
Fixpoint pick_loop (nics : gmap str IfcInfo) (want_ipv6 : bool) (ifnames : list str) : res (option str) :=
  match ifnames with
  | [] => Ok None
  | ifname :: ifnames' =>
      (let* info := at_or OutOfRange (nics !! ifname) in
       match list_find (λ a, eligible want_ipv6 a = true) (ni_addrs info) with
       | Some (_, addr) => Ok (Some (IpAddr_ToString addr))
       | None => pick_loop nics want_ipv6 ifnames'
       end)%pg
  end.
Definition PickFromNics (nics : gmap str IfcInfo) (transport : TransportType) : res (option str) :=
  let ifnames := sorted_ifnames nics transport in
  (let* ip := pick_loop nics true ifnames in
   match ip with
   | Some s => Ok (Some s)
   | None => pick_loop nics false ifnames
   end)%pg.

Definition SelectAutoBindIp (nics : gmap str IfcInfo) (transport : TransportType) : res (option str) :=
  (let* ip := if bool_decide (transport = kAny) then Ok None else PickFromNics nics transport in
   match ip with
   | Some s => Ok (Some s)
   | None => PickFromNics nics kAny
   end)%pg.
End Pick.

(** * Text *)

Definition NicType_ToString (t : NicType) : str :=
  match t with kIP => text "ip" | kRDMA => text "rdma" | kInvalid => text "invalid" end.
Definition ascii_tolower (c : ascii) : ascii :=
  let n := nat_of_ascii c in if (65 <=? n)%nat && (n <=? 90)%nat then ascii_of_nat (n + 32) else c.
(** [absl::EqualsIgnoreCase]. *)
Definition EqualsIgnoreCase (a b : str) : bool := bool_decide (ascii_tolower <$> a = ascii_tolower <$> b).
Definition NicType_FromString (s : str) : NicType :=
  if EqualsIgnoreCase s (text "ip") then kIP
  else if EqualsIgnoreCase s (text "rdma") then kRDMA
  else kInvalid.

(** * What is chosen *)

Section PickSpec.
Context `{O : HashOrder} {L : HashOrderLaws O} `{NetText} (nics : gmap str IfcInfo).

(** [addr] is the first address of interface [name] that is eligible. *)
Definition offers (t : TransportType) (want_ipv6 : bool) (name : str) (addr : IpAddr) : Prop :=
  ∃ info i, nics !! name = Some info ∧ MatchesTransport (ni_type info) t = true ∧
            list_find (λ a, eligible want_ipv6 a = true) (ni_addrs info) = Some (i, addr).

Lemma elem_of_ifnames t name :
  name ∈ sorted_ifnames nics t ↔ ∃ info, nics !! name = Some info ∧ MatchesTransport (ni_type info) t = true.
Proof.
  unfold sorted_ifnames. rewrite std_sort_Permutation, list_elem_of_fmap. split.
  - intros ([k info] & -> & [Hm Hin]%list_elem_of_filter). exists info.
    rewrite iter_map_perm, elem_of_map_to_list in Hin. done.
  - intros (info & Hl & Hm). exists (name, info). split; [done|].
    apply list_elem_of_filter. split; [done|]. by rewrite iter_map_perm, elem_of_map_to_list.
Qed.

Lemma pick_loop_spec t want ifnames :
  StronglySorted (not_after str_lt) ifnames →
  (∀ n, n ∈ ifnames → ∃ info, nics !! n = Some info ∧ MatchesTransport (ni_type info) t = true) →
  ∃ r, pick_loop nics want ifnames = Ok r ∧
    match r with
    | None => ∀ n a, n ∈ ifnames → ¬ offers t want n a
    | Some s => ∃ name addr, s = IpAddr_ToString addr ∧ offers t want name addr ∧
                  ∀ n a, n ∈ ifnames → offers t want n a → str_lt n name = false
    end.
Proof.
  induction 1 as [|name ifnames _ IH Hhd]; intros Hin; simpl; [eexists; split; [done|set_solver]|].
  destruct (Hin name ltac:(left)) as (info & Hl & Hm). rewrite Hl. simpl.
  destruct (list_find _ (ni_addrs info)) as [[i addr]|] eqn:Hf.
  - eexists. split; [done|]. exists name, addr. split; [done|]. split; [by exists info, i|].
    intros n a [->|Hn]%elem_of_cons _; [|rewrite Forall_forall in Hhd; by apply Hhd].
    by destruct (comparator_total name name).
  - destruct IH as (r & -> & Hr); [intros; apply Hin; by right|]. exists r. split; [done|].
    assert (∀ a, ¬ offers t want name a) as Hno by (intros a (? & ? & ? & ? & ?); simplify_eq).
    destruct r as [s|].
    + destruct Hr as (n' & addr & -> & Ho & Hmin). exists n', addr. split; [done|]. split; [done|].
      intros n a [->|Hn]%elem_of_cons Hof; [by destruct (Hno a)|by apply (Hmin n a)].
    + intros n a [->|Hn]%elem_of_cons Hof; [by destruct (Hno a)|by apply (Hr n a)].
Qed.

(** The preferences of the header's comment, for one kind of transport. *)
Definition best (t : TransportType) (r : option str) : Prop :=
  match r with
  | None => ∀ want name addr, ¬ offers t want name addr
  | Some s =>
      ∃ want name addr, s = IpAddr_ToString addr ∧ offers t want name addr ∧
        (want = true ∨ ∀ n a, ¬ offers t true n a) ∧
        (∀ n a, offers t want n a → str_lt n name = false)
  end.

Lemma PickFromNics_best t : ∃ r, PickFromNics nics t = Ok r ∧ best t r.
Proof.
  assert (∀ n, n ∈ sorted_ifnames nics t →
    ∃ info, nics !! n = Some info ∧ MatchesTransport (ni_type info) t = true) as Hin
    by (intros; by apply elem_of_ifnames).
  assert (∀ w n a, offers t w n a → n ∈ sorted_ifnames nics t) as Hof
    by (intros w n a (info & ? & ? & ? & _); apply elem_of_ifnames; eauto).
  pose proof (std_sort_sorted str_lt
    (fst <$> filter (λ kv, MatchesTransport (ni_type kv.2) t = true) (iter_map nics))) as Hs.
  destruct (pick_loop_spec t true _ Hs Hin) as (r6 & H6 & Hr6).
  destruct (pick_loop_spec t false _ Hs Hin) as (r4 & H4 & Hr4).
  unfold PickFromNics. unfold sorted_ifnames in *. rewrite H6. simpl. destruct r6 as [s|].
  - eexists. split; [done|]. destruct Hr6 as (n & a & ? & ? & ?). exists true, n, a. eauto 10.
  - rewrite H4. eexists. split; [done|]. destruct r4 as [s|].
    + destruct Hr4 as (n & a & ? & ? & ?). exists false, n, a.
      do 2 (split; [done|]). split; [right; intros n' a' Ho; by apply (Hr6 n' a' (Hof _ _ _ Ho))|eauto].
    + intros [] n a Ho; [by apply (Hr6 n a (Hof _ _ _ Ho))|by apply (Hr4 n a (Hof _ _ _ Ho))].
Qed.
End PickSpec.

(** The address a transport binds to by default is the best one that the interfaces offer:
    of an interface that matches the transport, if any does; IPv6 before IPv4; then of the
    interface with the least name, its first address; never a loopback address.  So it does
    not depend on the order of the hash map, and there is none only if no interface has a
    usable address. *)
Theorem SelectAutoBindIp_best `{O : HashOrder} (L : HashOrderLaws O) `{NetText}
    (nics : gmap str IfcInfo) (transport : TransportType) :
  ∃ r, SelectAutoBindIp nics transport = Ok r ∧
    (best nics transport r ∧ r ≠ None ∨ best nics transport None ∧ best nics kAny r).
Proof.
  unfold SelectAutoBindIp. destruct (PickFromNics_best nics kAny) as (ra & Ha & Hba).
  case_bool_decide as Ht; [subst; simpl; rewrite Ha|].
  - exists ra. split; [done|]. destruct ra; [left|right]; done.
  - destruct (PickFromNics_best nics transport) as (r & Hr & Hb). rewrite Hr. simpl.
    destruct r as [s|]; [exists (Some s); split; [done|]; by left|].
    rewrite Ha. exists ra. split; [done|]. by right.
Qed.

(** Two interfaces with two addresses each, and the loopback interface. *)
Definition nics_sample : gmap str IfcInfo :=
  {[ text "lo" := mkIfcInfo kIP [IPv4 [127; 0; 0; 1]];
     text "eth1" := mkIfcInfo kIP [IPv4 [10; 0; 0; 2]; IPv6 (32 :: 1 :: replicate 13 0 ++ [2])];
     text "eth0" := mkIfcInfo kIP [IPv4 [10; 0; 0; 1]; IPv6 (32 :: 1 :: replicate 13 0 ++ [1])] ]}.
#[local] Existing Instance HexText.text.
Lemma SelectAutoBindIp_best_witness :
  (∃ r, SelectAutoBindIp nics_sample kRdma = Ok r ∧
     (best nics_sample kRdma r ∧ r ≠ None ∨ best nics_sample kRdma None ∧ best nics_sample kAny r)) ∧
  SelectAutoBindIp nics_sample kRdma =
    Ok (Some (text ":20010000000000000000000000000001")).
Proof.
  split; [apply (SelectAutoBindIp_best reversed_laws nics_sample kRdma)|vm_compute; reflexivity].
Defined.

(** The text of a type reads back as the type. *)
Lemma NicType_text_roundtrip t : NicType_FromString (NicType_ToString t) = t.
Proof. by destruct t. Qed.
