(* ===== verification/IpResolve.v ===== *)
(** [IpAddr::Resolve] of [util/ipaddr.cc]: the first address of a host, a literal or a name.

    The resolver of the C library is the parameter [Resolver].  A successful [getaddrinfo]
    hands out a list that must be given back to [freeaddrinfo]; the model keeps track of the
    lists that are out. *)

From Stdlib Require Import Ascii String.
From stdpp Require Import base tactics numbers gmap fin_maps sets list.
From S2P Require Import Prelude IpAddr Endpoint Socket Nic.
Local Open Scope Z_scope.

Definition EAI_NONAME : Z := -2.

(** [struct addrinfo]; an address may be null. *)
Record ResolvedAddr := mkResolved { ri_family : Z; ri_addr : option sockaddr }.

Class Resolver (S : Type) := {
  (* host, [hints.ai_family], whether AI_NUMERICHOST is set; the empty list is a null result *)
  getaddrinfo_of : S → str → Z → bool → S * Z * list ResolvedAddr;
  freeaddrinfo_of : S → list ResolvedAddr → S;
}.

Section Ops.
Context {S : Type} `{Resolver S}.

(** The loop over the results. *)
Fixpoint first_addr (family : Z) (ais : list ResolvedAddr) : res (option IpAddr) :=
  match ais with
  | [] => Ok None
  | ai :: ais =>
      do* dcheck (ri_family ai =? family);
      match ri_addr ai with
      | None => first_addr family ais
      | Some sa => Ok (IpAddr_of_sockaddr sa)
      end
  end.

Definition IpAddr_Resolve (s : S) (family : Z) (host : str) : res (S * option IpAddr) :=
  if negb (family =? AF_INET) && negb (family =? AF_INET6) then Ok (s, None)
  else
    let '(s, ret, result) := getaddrinfo_of s host family true in
    let '(s, ret, result) :=
      if ret =? EAI_NONAME then getaddrinfo_of s host family false else (s, ret, result) in
    if negb (ret =? 0) || bool_decide (result = []) then Ok (s, None)
    else
      let* a := first_addr family result in
      Ok (freeaddrinfo_of s result, a).
End Ops.

(** * What the resolver promises

    [out s] are the lists handed out and not yet given back, [asked s] the names that were
    looked up.  A literal of the family is resolved to its address without a lookup; every
    result is of the family asked for.  A list is handed out only with return value 0. *)
Class ResolverLaws (S : Type) `{Resolver S} `{T : NetText} := {
  out : S → list (list ResolvedAddr);
  asked : S → list str;
  rl_get : ∀ (s : S) host family numeric s' ret ais, getaddrinfo_of s host family numeric = (s', ret, ais) →
    (if decide (ret = 0 ∧ ais ≠ []) then out s' = ais :: out s else out s' = out s) ∧
    (asked s' = asked s ∨ numeric = false ∧ asked s' = host :: asked s) ∧
    Forall (λ ai, ri_family ai = family ∧ ∀ sa, ri_addr ai = Some sa → sockaddr_family sa = family) ais;
  rl_free : ∀ (s : S) ais rest, out s = ais :: rest → out (freeaddrinfo_of s ais) = rest;
  rl_free_asked : ∀ (s : S) ais, asked (freeaddrinfo_of s ais) = asked s;
  rl_literal4 : ∀ (s : S) host b, inet_pton4 host = Some b →
    ∃ s' p, getaddrinfo_of s host AF_INET true = (s', 0, [mkResolved AF_INET (Some (sockaddr_in p b))]);
  rl_literal6 : ∀ (s : S) host b, inet_pton6 host = Some b →
    ∃ s' p, getaddrinfo_of s host AF_INET6 true = (s', 0, [mkResolved AF_INET6 (Some (sockaddr_in6 p b))]);
}.

(** * Lemmas *)

Section Lemmas.
Context {S : Type} `{L : ResolverLaws S}.
Implicit Types (s : S).

(** An address of a family, unless the socket address is of no known form. *)
Lemma first_addr_ok family ais :
  Forall (λ ai, ri_family ai = family ∧ ∀ sa, ri_addr ai = Some sa → sockaddr_family sa = family) ais →
  ∃ o, first_addr family ais = Ok o ∧ ∀ a, o = Some a → AddressFamily a = family ∧
    ∃ pre sa post, ais = pre ++ mkResolved family (Some sa) :: post ∧ Forall (λ ai, ri_addr ai = None) pre ∧
      IpAddr_of_sockaddr sa = Some a.
Proof.
  induction 1 as [|[f o] ais [Hf Hs] _ IH]; [by exists None|]. cbn in *. subst f. rewrite bind_dcheck by apply Z.eqb_refl.
  destruct o as [sa|].
  - eexists. split; [done|]. intros a Ha. split; [|by exists [], sa, ais].
    rewrite <- (Hs sa eq_refl). destruct sa; by simplify_eq/=.
  - destruct IH as (o & -> & Ho). exists o. split; [done|]. intros a Ha. destruct (Ho a Ha) as (? & pre & sa & post & -> & Hpre & ?).
    split; [done|]. exists (mkResolved family None :: pre), sa, post. split; [done|]. split; [by constructor|done].
Qed.

(** The lookup, with its second attempt. *)
Lemma lookup_ok s family host : ∃ s' ret ais,
  (let '(s, ret, result) := getaddrinfo_of s host family true in
   if ret =? EAI_NONAME then getaddrinfo_of s host family false else (s, ret, result)) = (s', ret, ais) ∧
  (if decide (ret = 0 ∧ ais ≠ []) then out s' = ais :: out s else out s' = out s) ∧
  (asked s' = asked s ∨ asked s' = host :: asked s) ∧
  Forall (λ ai, ri_family ai = family ∧ ∀ sa, ri_addr ai = Some sa → sockaddr_family sa = family) ais.
Proof.
  destruct (getaddrinfo_of s host family true) as [[s1 r1] a1] eqn:E1. destruct (rl_get _ _ _ _ _ _ _ E1) as (Ho1 & [Ha1|[? _]] & Hf1); [|done].
  destruct (Z.eqb_spec r1 EAI_NONAME) as [->|]; [|by exists s1, r1, a1; auto].
  rewrite decide_False in Ho1 by by intros [? _]. destruct (getaddrinfo_of s1 host family false) as [[s2 r2] a2] eqn:E2.
  destruct (rl_get _ _ _ _ _ _ _ E2) as (Ho2 & Ha2 & Hf2). exists s2, r2, a2. rewrite <- Ho1, <- Ha1. naive_solver.
Qed.

Lemma Resolve_ok s family host : ∃ s' o, IpAddr_Resolve s family host = Ok (s', o) ∧ out s' = out s ∧
  (asked s' = asked s ∨ asked s' = host :: asked s) ∧ (∀ a, o = Some a → AddressFamily a = family).
Proof.
  unfold IpAddr_Resolve. destruct (_ && _) eqn:Ef; [exists s, None; by split_and!; auto|].
  destruct (lookup_ok s family host) as (s1 & ret & ais & E & Ho & Ha & Hf).
  destruct (getaddrinfo_of s host family true) as [[s0 r0] a0]. cbn beta iota zeta in *.
  rewrite E.
  destruct (negb (ret =? 0) || bool_decide (ais = [])) eqn:Er.
  - exists s1, None. split; [done|]. split; [|by split]. rewrite decide_False in Ho; [done|]. intros [-> Hn]. cbn in Er.
    by rewrite bool_decide_eq_false_2 in Er.
  - apply orb_false_iff in Er as [->%negb_false_iff%Z.eqb_eq Hn%bool_decide_eq_false]. rewrite decide_True in Ho by done.
    destruct (first_addr_ok family ais Hf) as (o & -> & Hfam). rewrite bind_Ok. eexists _, o. split; [done|].
    split; [by apply rl_free|]. rewrite rl_free_asked. split; [done|]. intros a Ea. by apply Hfam.
Qed.

(** The text of an address resolves to the address without a lookup. *)
Lemma Resolve_literal `{!NetTextLaws T} s a : ipaddr_wf a →
  ∃ s', IpAddr_Resolve s (AddressFamily a) (IpAddr_ToString a) = Ok (s', Some a) ∧ asked s' = asked s.
Proof.
  intros Ha. unfold IpAddr_Resolve. destruct a as [b|b]; cbn [AddressFamily IsIPv4 IpAddr_ToString]; cbn [andb negb Z.eqb].
  - destruct (rl_literal4 s (inet_ntop4 b) b) as (s' & p & E); [by apply pton_ntop4|].
    destruct (rl_get _ _ _ _ _ _ _ E) as (_ & [Hk|[? _]] & _); [|done]. unfold ToIPv4String. rewrite E. cbn.
    eexists. split; [done|]. by rewrite rl_free_asked.
  - destruct (rl_literal6 s (inet_ntop6 b) b) as (s' & p & E); [by apply pton_ntop6|].
    destruct (rl_get _ _ _ _ _ _ _ E) as (_ & [Hk|[? _]] & _); [|done]. unfold ToIPv6String. rewrite E. cbn.
    eexists. split; [done|]. by rewrite rl_free_asked.
Qed.
End Lemmas.

(** * Properties *)

(** An address survives its text form, by parsing and by resolving.  [IpAddr::Create] of
    [ToString] is the address; [Resolve] of that text in the address's family is the address
    and asks no name server.  And whatever the host, name or literal, and the family:
    [Resolve] returns without failing an assertion, gives every list of the resolver back,
    asks for no name but the host and at most once, and returns addresses of the family only. *)
Theorem Resolve_spec {S : Type} `{L : ResolverLaws S} `{TL : !NetTextLaws T} (s : S) a family host :
  ipaddr_wf a →
  IpAddr_Create (IpAddr_ToString a) = Some a ∧
  (∃ s', IpAddr_Resolve s (AddressFamily a) (IpAddr_ToString a) = Ok (s', Some a) ∧ asked s' = asked s) ∧
  ∃ s' o, IpAddr_Resolve s family host = Ok (s', o) ∧ out s' = out s ∧
    (asked s' = asked s ∨ asked s' = host :: asked s) ∧ (∀ a', o = Some a' → AddressFamily a' = family).
Proof. intros Ha. split; [by apply IpAddr_Create_ToString|]. split; [by apply Resolve_literal|apply Resolve_ok]. Qed.

(** * A resolver that knows one name *)

Module HostsFile.
Record hosts := mkHosts { hs_out : list (list ResolvedAddr); hs_asked : list str }.
Definition localhost : str := text "localhost"%string.

(** The results for a host: a literal, or the name. *)
Definition answers (host : str) (family : Z) (numeric : bool) : list ResolvedAddr :=
  let literal :=
    if family =? AF_INET then sockaddr_in 0 <$> inet_pton4 (NetText := HexText.text) host
    else if family =? AF_INET6 then sockaddr_in6 0 <$> inet_pton6 (NetText := HexText.text) host else None in
  match literal with
  | Some sa => [mkResolved family (Some sa)]
  | None =>
      if negb numeric && bool_decide (host = localhost) && (family =? AF_INET)
      then [mkResolved family None; mkResolved family (Some (sockaddr_in 0 [127; 0; 0; 1]))] else []
  end.
#[export] Instance resolver : Resolver hosts := {|
  getaddrinfo_of s host family numeric :=
    let r := answers host family numeric in
    let asked := if numeric then hs_asked s else host :: hs_asked s in
    (mkHosts (if decide (r = []) then hs_out s else r :: hs_out s) asked, if decide (r = []) then EAI_NONAME else 0, r);
  freeaddrinfo_of s r := mkHosts (tail (hs_out s)) (hs_asked s);
|}.

#[local] Existing Instance HexText.text.
#[export] Instance resolver_laws : ResolverLaws (T := HexText.text) hosts.
Proof.
  refine {| out := hs_out; asked := hs_asked |}.
  - intros s host family numeric s' ret ais [= <- <- <-]. cbn [hs_out hs_asked]. split; [|split].
    + destruct (decide (answers host family numeric = [])); [by rewrite decide_False by by intros []|by rewrite decide_True].
    + destruct numeric; [by left|by right].
    + unfold answers. destruct (Z.eqb_spec family AF_INET) as [->|]; [|destruct (Z.eqb_spec family AF_INET6) as [->|]].
      * destruct (sockaddr_in 0 <$> _) as [sa|] eqn:E.
        -- apply fmap_Some in E as (b & _ & ->). repeat constructor; naive_solver.
        -- destruct (_ && _ && _); repeat constructor; naive_solver.
      * destruct (sockaddr_in6 0 <$> _) as [sa|] eqn:E; [|by rewrite andb_false_r].
        apply fmap_Some in E as (b & _ & ->). repeat constructor; naive_solver.
      * rewrite andb_false_r. constructor.
  - intros s ais rest E. cbn. by rewrite E.
  - done.
  - intros s host b E. eexists _, 0. cbn [getaddrinfo_of resolver]. unfold answers. cbn [Z.eqb]. rewrite E. cbn. done.
  - intros s host b E. eexists _, 0. cbn [getaddrinfo_of resolver]. unfold answers. cbn [Z.eqb]. rewrite E. cbn. done.
Defined.

Definition start : hosts := mkHosts [] [].
Definition resolve (family : Z) (host : str) : option (hosts * option IpAddr) :=
  match IpAddr_Resolve start family host with Ok r => Some r | Fault _ => None end.
(** A name takes the second attempt, skips the null address and leaves no list behind. *)
Example resolve_name : resolve AF_INET localhost = Some (mkHosts [] [localhost], Some (IPv4 [127; 0; 0; 1])).
Proof. vm_compute. reflexivity. Qed.
Example resolve_unknown : resolve AF_INET6 localhost = Some (mkHosts [] [localhost], None).
Proof. vm_compute. reflexivity. Qed.
End HostsFile.
Import HostsFile.
#[local] Existing Instance HexText.text.

Lemma Resolve_spec_witness :
  (∃ s, IpAddr_Resolve HostsFile.start AF_INET (text "0a000001"%string) = Ok (s, Some (IPv4 [10; 0; 0; 1])) ∧ asked s = []) ∧
  IpAddr_Create (H := HexText.text) (text "0a000001"%string) = Some (IPv4 [10; 0; 0; 1]).
Proof.
  destruct (Resolve_spec (T := HexText.text) (TL := HexText.text_laws) HostsFile.start (IPv4 [10; 0; 0; 1]) AF_INET []) as (Hc & (s & E & Ha) & _).
  - vm_compute. repeat split; repeat constructor; done.
  - split; [exists s; split; [exact E|exact Ha]|exact Hc].
Defined.
