(* ===== verification/Route.v ===== *)
(** Route lookup: [internal/routing/route.{h,cc}].  The kernel is asked over a netlink socket
    (a parameter, [RouteSystem]) which interface it would use from one address to another; the
    messages are modelled as bytes, with every read of the reply checked against its length
    and the macros of <linux/netlink.h> and <linux/rtnetlink.h> written out.  Answers are
    memoized; [Check] holds the mutex for the lookup and for the insertion, but not between. *)

From stdpp Require Import base tactics list list_numbers numbers gmap fin_maps strings.
From S2P Require Import Prelude Codec IpAddr Endpoint HostInfo Nic Socket.
Local Open Scope Z_scope.
Local Open Scope peregrine_scope.

(** * Netlink messages *)

(** [NLMSG_ALIGN] and [RTA_ALIGN]: the next multiple of 4. *)
Definition align4 (n : Z) : Z := (n + 3) / 4 * 4.

Definition sizeof_nlmsghdr : Z := 16.
Definition sizeof_rtmsg : Z := 12.
Definition sizeof_rtattr : Z := 4.
Definition sizeof_attrs : Z := 64.
Definition NLMSG_LENGTH (n : Z) : Z := sizeof_nlmsghdr + n.
Definition RTA_LENGTH (n : Z) : Z := sizeof_rtattr + n.
Definition RTM_NEWROUTE : Z := 24.
Definition RTM_GETROUTE : Z := 26.
Definition NLM_F_REQUEST : Z := 1.
Definition RTA_DST : Z := 1.
Definition RTA_SRC : Z := 2.
Definition RTA_OIF : Z := 4.
Definition kKernelPortId : Z := 0.
Definition kSeq : Z := 1.

(** Little-endian reads and writes at an offset; outside the object they fault. *)
Definition load (n : nat) (b : bytes) (off : Z) : res Z :=
  if (0 <=? off) && (off + Z.of_nat n <=? Z.of_nat (length b))
  then Ok (le_load (take n (drop (Z.to_nat off) b))) else Fault BadPointer.
Definition store (b : bytes) (off : Z) (v : bytes) : res bytes :=
  if (0 <=? off) && (off + Z.of_nat (length v) <=? Z.of_nat (length b))
  then Ok (take (Z.to_nat off) b ++ v ++ drop (Z.to_nat off + length v) b) else Fault BadPointer.

(** ** The request *)

Definition AppendRouteAttr (b : bytes) (type : Z) (ip : IpAddr) : res bytes :=
  let '(addr, len) := RawAddrAndLen ip in
  let* nlmsg_len := load 4 b 0 in
  let p := align4 nlmsg_len in
  let* b := store b (p + 2) (le_store 2 type) in
  let* b := store b p (le_store 2 (RTA_LENGTH len)) in
  let* b := store b (p + RTA_LENGTH 0) addr in
  store b 0 (le_store 4 (align4 nlmsg_len + align4 (RTA_LENGTH len))).

(** [RouteRequest] as its bytes. *)
Definition Build (src dst : IpAddr) : res bytes :=
  let src_prefix_bits := (RawAddrAndLen src).2 * 8 in
  let dst_prefix_bits := (RawAddrAndLen dst).2 * 8 in
  let nlh := le_store 4 (NLMSG_LENGTH sizeof_rtmsg) ++ le_store 2 RTM_GETROUTE ++
             le_store 2 NLM_F_REQUEST ++ le_store 4 kSeq ++ le_store 4 0 in
  let rtm := [u8 (AddressFamily src); u8 dst_prefix_bits; u8 src_prefix_bits; 0; 0; 0; 0; 0] ++ le_store 4 0 in
  let r := nlh ++ rtm ++ replicate (Z.to_nat sizeof_attrs) 0 in
  let* r := AppendRouteAttr r RTA_SRC src in
  AppendRouteAttr r RTA_DST dst.

(** ** The reply *)

Definition NLMSG_OK (b : bytes) (nlh len : Z) : res bool :=
  if sizeof_nlmsghdr <=? len then
    let* nlmsg_len := load 4 b nlh in
    Ok ((sizeof_nlmsghdr <=? nlmsg_len) && (nlmsg_len <=? len))
  else Ok false.
Definition RTA_OK (b : bytes) (rta len : Z) : res bool :=
  if sizeof_rtattr <=? len then
    let* rta_len := load 2 b rta in
    Ok ((sizeof_rtattr <=? rta_len) && (rta_len <=? len))
  else Ok false.

Fixpoint attr_loop (fuel : nat) (b : bytes) (rta attr_len : Z) : res (option Z) :=
  match fuel with
  | O => Fault Blocked
  | S fuel =>
      let* (ok : bool) := RTA_OK b rta attr_len in
      if negb ok then Ok None
      else
        let* rta_len := load 2 b rta in
        let* rta_type := load 2 b (rta + 2) in
        if (rta_type =? RTA_OIF) && (4 <=? rta_len - RTA_LENGTH 0) then
          let* oif := load 4 b (rta + RTA_LENGTH 0) in
          Ok (Some (swrap 32 oif))
        else attr_loop fuel b (rta + align4 rta_len) (attr_len - align4 rta_len)
  end.

Fixpoint msg_loop (fuel : nat) (b : bytes) (nlh remaining : Z) : res (option Z) :=
  match fuel with
  | O => Fault Blocked
  | S fuel =>
      let* (ok : bool) := NLMSG_OK b nlh remaining in
      if negb ok then Ok None
      else
        let* nlmsg_len := load 4 b nlh in
        let next := msg_loop fuel b (nlh + align4 nlmsg_len) (remaining - align4 nlmsg_len) in
        let* nlmsg_pid := load 4 b (nlh + 12) in
        if negb (nlmsg_pid =? kKernelPortId) then next
        else
          let* nlmsg_seq := load 4 b (nlh + 8) in
          if negb (nlmsg_seq =? kSeq) then next
          else
            let* nlmsg_type := load 2 b (nlh + 4) in
            if negb (nlmsg_type =? RTM_NEWROUTE) then next
            else
              let attr_len := nlmsg_len - NLMSG_LENGTH sizeof_rtmsg in
              let* r := attr_loop (S (Z.to_nat attr_len)) b (nlh + NLMSG_LENGTH sizeof_rtmsg) attr_len in
              match r with Some oif => Ok (Some oif) | None => next end
  end.

(** The loops of [FindEgressNic] over the bytes received. *)
Definition parse_reply (b : bytes) : res (option Z) :=
  msg_loop (S (length b)) b 0 (Z.of_nat (length b)).

(** * The kernel *)

Class RouteSystem (S : Type) := {
  nl_socket : S → S * Z;
  nl_send : S → Z → bytes → S * Z;
  nl_recv : S → Z → S * Z * Z * bytes;    (* with MSG_TRUNC: length, errno, what was stored *)
  nl_close : S → Z → S;
}.
Definition sizeof_reply : Z := 8192.

Section Lookup.
Context {S : Type} `{RouteSystem S} `{NicSystem S}.

Fixpoint recv_reply (fuel : nat) (sys : S) (fd : Z) : res (S * Z * bytes) :=
  match fuel with
  | O => Fault Blocked
  | Datatypes.S fuel =>
      let '(sys, reply_len, errno, reply) := nl_recv sys fd in
      if (reply_len <? 0) && (errno =? EINTR) then recv_reply fuel sys fd
      else Ok (sys, reply_len, reply)
  end.

Definition FindEgressNic (fuel : nat) (sys : S) (src dst : IpAddr) : res (S * option Z) :=
  let '(sys, fd) := nl_socket sys in
  if fd <? 0 then Ok (sys, None)
  else
    let* req := Build src dst in
    let* req_len := load 4 req 0 in
    let '(sys, sent) := nl_send sys fd (take (Z.to_nat req_len) req) in
    if sent <? 0 then Ok (nl_close sys fd, None)
    else
      let* (r : S * Z * bytes) := recv_reply fuel sys fd in
      let '(sys, reply_len, reply) := r in
      if reply_len <? 0 then Ok (nl_close sys fd, None)
      else if sizeof_reply <? reply_len then Ok (nl_close sys fd, None)
      else
        let* oif := parse_reply reply in
        Ok (nl_close sys fd, oif).

Definition compute (fuel : nat) (sys : S) (src dst : IpAddr) : res (S * option bool) :=
  if negb (AddressFamily src =? AddressFamily dst) then Ok (sys, Some false)
  else if IpAddr_IsLoopback src then Ok (sys, Some (IpAddr_IsLoopback dst))
  else if IpAddr_IsLoopback dst then Ok (sys, Some false)
  else
    let* (nic : option Z) := FindNic sys src in
    match nic with
    | None => Ok (sys, None)
    | Some nic =>
        let* (r : S * option Z) := FindEgressNic fuel sys src dst in
        let '(sys, egress) := r in
        Ok (sys, (λ e, nic =? e) <$> egress)
    end.
End Lookup.

(** * The cache *)

Abbreviation Key := (IpAddr * IpAddr)%type.
Abbreviation routes := (gmap Key bool).
Definition Route_Size (r : routes) : Z := Z.of_nat (size r).
Definition Route_Clear (r : routes) : routes := ∅.
(** The two sections of [Check] under the mutex. *)
Definition Check_find (r : routes) (key : Key) : option bool := r !! key.
Definition Check_emplace (r : routes) (key : Key) (routable : bool) : routes * bool :=
  match r !! key with Some b => (r, b) | None => (<[key := routable]> r, routable) end.

Definition Route_Check {S} `{RouteSystem S} `{NicSystem S} (fuel : nat) (sys : S) (r : routes) (src dst : IpAddr)
    : res (S * routes * bool) :=
  match Check_find r (src, dst) with
  | Some b => Ok (sys, r, b)
  | None =>
      let* (x : S * option bool) := compute fuel sys src dst in
      let '(sys, routable) := x in
      match routable with
      | None => Ok (sys, r, false)
      | Some b => let '(r, b) := Check_emplace r (src, dst) b in Ok (sys, r, b)
      end
  end.

(** * Reading the reply is safe and ends *)

Lemma align4_spec n : n ≤ align4 n < n + 4 ∧ align4 n `mod` 4 = 0.
Proof.
  unfold align4. pose proof (Z.div_mod (n + 3) 4 ltac:(lia)).
  pose proof (Z.mod_pos_bound (n + 3) 4 ltac:(lia)). split; [lia|]. by rewrite Z.mod_mul.
Qed.

Lemma load_ok n b off :
  0 ≤ off → off + Z.of_nat n ≤ Z.of_nat (length b) →
  load n b off = Ok (le_load (take n (drop (Z.to_nat off) b))).
Proof.
  intros. unfold load. rewrite (proj2 (Z.leb_le 0 off)), (proj2 (Z.leb_le (off + _) _)) by lia. done.
Qed.
Lemma load_in n b off :
  0 ≤ off → off + Z.of_nat n ≤ Z.of_nat (length b) → ∃ v, load n b off = Ok v.
Proof. intros. rewrite load_ok by done. eauto. Qed.

Lemma attr_loop_ok fuel b rta attr_len :
  0 ≤ rta → rta + attr_len ≤ Z.of_nat (length b) → attr_len < Z.of_nat fuel → (0 < fuel)%nat →
  ∃ r, attr_loop fuel b rta attr_len = Ok r.
Proof.
  revert rta attr_len. induction fuel as [|fuel IH]; intros rta attr_len H0 Hb Hf Hf0; [lia|].
  cbn [attr_loop]. unfold RTA_OK, sizeof_rtattr, RTA_LENGTH, sizeof_rtattr.
  destruct (Z.leb_spec 4 attr_len); [|by eexists].
  destruct (load_in 2 b rta) as [len El]; [lia..|]. rewrite El. cbn [mbind res_bind].
  destruct (Z.leb_spec 4 len), (Z.leb_spec len attr_len); try by eexists.
  destruct (load_in 2 b (rta + 2)) as [ty Et]; [lia..|]. rewrite Et. cbn [mbind res_bind negb andb].
  pose proof (align4_spec len) as [Ha _].
  destruct (_ =? _); cbn [andb]; [|apply IH; lia].
  destruct (Z.leb_spec 4 (len - (4 + 0))); [|apply IH; lia].
  destruct (load_in 4 b (rta + (4 + 0))) as [oif Eo]; [lia..|]. rewrite Eo. by eexists.
Qed.

Lemma msg_loop_ok fuel b nlh remaining :
  0 ≤ nlh → nlh + remaining ≤ Z.of_nat (length b) → remaining < Z.of_nat fuel → (0 < fuel)%nat →
  ∃ r, msg_loop fuel b nlh remaining = Ok r.
Proof.
  revert nlh remaining. induction fuel as [|fuel IH]; intros nlh remaining H0 Hb Hf Hf0; [lia|].
  cbn [msg_loop]. unfold NLMSG_OK, NLMSG_LENGTH, sizeof_nlmsghdr, sizeof_rtmsg.
  destruct (Z.leb_spec 16 remaining); [|by eexists].
  destruct (load_in 4 b nlh) as [len El]; [lia..|]. rewrite El. cbn [mbind res_bind].
  destruct (Z.leb_spec 16 len), (Z.leb_spec len remaining); try by eexists. cbn [negb andb].
  pose proof (align4_spec len) as [Ha _].
  destruct (IH (nlh + align4 len) (remaining - align4 len)) as [next Hnext]; [lia..|]. rewrite Hnext.
  destruct (load_in 4 b (nlh + 12)) as [pid Ep]; [lia..|]. rewrite Ep. cbn [mbind res_bind].
  destruct (negb _); [by eexists|].
  destruct (load_in 4 b (nlh + 8)) as [seq Es]; [lia..|]. rewrite Es. cbn [mbind res_bind].
  destruct (negb _); [by eexists|].
  destruct (load_in 2 b (nlh + 4)) as [ty Et]; [lia..|]. rewrite Et. cbn [mbind res_bind].
  destruct (negb _); [by eexists|].
  destruct (attr_loop_ok (S (Z.to_nat (len - (16 + 12)))) b (nlh + (16 + 12)) (len - (16 + 12))) as [r Hr]; [lia..|].
  rewrite Hr. simpl. destruct r; by eexists.
Qed.

Lemma parse_reply_ok b : ∃ r, parse_reply b = Ok r.
Proof. apply msg_loop_ok; lia. Qed.

(** C23: Parsing a reply from the kernel ends with a result for every sequence of bytes, and never
    reads outside it, whatever the lengths in the headers of messages and attributes say. *)
Theorem Route_parse_total (b : bytes) : ∃ r, parse_reply b = Ok r.
Proof. apply parse_reply_ok. Qed.

(** * Messages *)

Definition pad (n : Z) : bytes := replicate (Z.to_nat (align4 n - n)) 0.
Definition size_of (b : bytes) : Z := Z.of_nat (length b).
Definition encode_attr (a : Z * bytes) : bytes :=
  le_store 2 (RTA_LENGTH (size_of a.2)) ++ le_store 2 a.1 ++ a.2 ++ pad (size_of a.2).
Definition encode_attrs (attrs : list (Z * bytes)) : bytes := attrs ≫= encode_attr.

Record nlmsg := mkNlmsg { m_type : Z; m_flags : Z; m_seq : Z; m_pid : Z; m_body : bytes }.
Definition encode_msg (m : nlmsg) : bytes :=
  le_store 4 (NLMSG_LENGTH (size_of (m_body m))) ++ le_store 2 (m_type m) ++ le_store 2 (m_flags m) ++
  le_store 4 (m_seq m) ++ le_store 4 (m_pid m) ++ m_body m ++ pad (size_of (m_body m)).

(** An attribute and a message that the headers can describe. *)
Definition attr_wf (a : Z * bytes) : Prop := fits 16 a.1 ∧ fits 16 (RTA_LENGTH (size_of a.2)).
Definition msg_wf (m : nlmsg) : Prop :=
  fits 16 (m_type m) ∧ fits 16 (m_flags m) ∧ fits 32 (m_seq m) ∧ fits 32 (m_pid m) ∧
  fits 32 (NLMSG_LENGTH (size_of (m_body m))).

Definition attr_oif (a : Z * bytes) : option Z :=
  if (a.1 =? RTA_OIF) && (4 <=? size_of a.2) then Some (swrap 32 (le_load (take 4 a.2))) else None.
Definition is_answer (m : nlmsg) : bool :=
  (m_pid m =? kKernelPortId) && (m_seq m =? kSeq) && (m_type m =? RTM_NEWROUTE).

Lemma load_shift n p x k : 0 ≤ k → load n (p ++ x) (size_of p + k) = load n x k.
Proof.
  intros Hk. unfold load, size_of. rewrite length_app.
  replace (0 <=? Z.of_nat (length p) + k) with (0 <=? k) by (rewrite !(proj2 (Z.leb_le _ _)) by lia; done).
  replace (Z.of_nat (length p) + k + Z.of_nat n <=? Z.of_nat (length p + length x))
    with (k + Z.of_nat n <=? Z.of_nat (length x)) by (apply eq_true_iff_eq; rewrite !Z.leb_le; lia).
  replace (Z.to_nat (Z.of_nat (length p) + k)) with (length p + Z.to_nat k)%nat by lia.
  by rewrite drop_app_add.
Qed.
Lemma load_head n v x : fits (8 * Z.of_nat n) v → load n (le_store n v ++ x) 0 = Ok v.
Proof.
  intros Hv. rewrite load_ok by (rewrite ?length_app, ?le_store_length; lia).
  rewrite drop_0, take_app_length' by (by rewrite le_store_length). by rewrite le_load_store.
Qed.
Lemma load_next n m v x k :
  Z.of_nat m ≤ k → load n (le_store m v ++ x) k = load n x (k - Z.of_nat m).
Proof.
  intros Hk. rewrite <-(load_shift n (le_store m v) x) by lia. f_equal. unfold size_of.
  rewrite le_store_length. lia.
Qed.

Lemma attr_loop_shift fuel p x k len :
  0 ≤ k → attr_loop fuel (p ++ x) (size_of p + k) len = attr_loop fuel x k len.
Proof.
  revert k len. induction fuel as [|fuel IH]; intros k len Hk; [done|]. cbn [attr_loop].
  unfold RTA_OK, RTA_LENGTH, sizeof_rtattr. rewrite load_shift by lia.
  destruct (_ <=? len); [|done]. destruct (load 2 x k) as [l|] eqn:El; [|done].
  cbn [mbind res_bind]. destruct (Z.leb_spec 4 l); [|done]. pose proof (align4_spec l).
  rewrite <-!Z.add_assoc, !load_shift, IH by lia. done.
Qed.
Lemma msg_loop_shift fuel p x k len :
  0 ≤ k → msg_loop fuel (p ++ x) (size_of p + k) len = msg_loop fuel x k len.
Proof.
  revert k len. induction fuel as [|fuel IH]; intros k len Hk; [done|]. cbn [msg_loop].
  unfold NLMSG_OK, NLMSG_LENGTH, sizeof_nlmsghdr, sizeof_rtmsg.
  rewrite load_shift by lia.
  destruct (_ <=? len); [|done]. destruct (load 4 x k) as [l|] eqn:El; [|done].
  cbn [mbind res_bind]. destruct (Z.leb_spec 16 l); [|done]. pose proof (align4_spec l).
  rewrite <-!Z.add_assoc, !load_shift, IH, attr_loop_shift by lia. done.
Qed.

Lemma pad_size n : size_of (pad n) = align4 n - n.
Proof. unfold size_of, pad. rewrite length_replicate. pose proof (align4_spec n). lia. Qed.
Lemma align4_add n : align4 (4 + n) = 4 + align4 n.
Proof. unfold align4. replace (4 + n + 3) with (n + 3 + 1 * 4) by lia. rewrite Z.div_add by lia. lia. Qed.
Lemma size_of_app a b : size_of (a ++ b) = size_of a + size_of b.
Proof. unfold size_of. rewrite length_app. lia. Qed.
Lemma size_of_store n v : size_of (le_store n v) = Z.of_nat n.
Proof. unfold size_of. by rewrite le_store_length. Qed.
Lemma encode_attr_size a : size_of (encode_attr a) = align4 (RTA_LENGTH (size_of a.2)).
Proof.
  unfold encode_attr, RTA_LENGTH, sizeof_rtattr.
  rewrite !size_of_app, !size_of_store, pad_size, align4_add. lia.
Qed.
Lemma encode_msg_size m : size_of (encode_msg m) = align4 (NLMSG_LENGTH (size_of (m_body m))).
Proof.
  unfold encode_msg, NLMSG_LENGTH, sizeof_nlmsghdr.
  rewrite !size_of_app, !size_of_store, pad_size.
  replace (16 + size_of (m_body m)) with (4 + (4 + (4 + (4 + size_of (m_body m))))) by lia.
  rewrite !align4_add. lia.
Qed.

Lemma attr_loop_encode attrs rest fuel :
  Forall attr_wf attrs → size_of (encode_attrs attrs) < Z.of_nat fuel →
  attr_loop fuel (encode_attrs attrs ++ rest) 0 (size_of (encode_attrs attrs)) =
    Ok (head (omap attr_oif attrs)).
Proof.
  intros Hwf. revert fuel. induction Hwf as [|a attrs [Ht Hl] _ IH]; intros [|fuel] Hf;
    try (unfold size_of in Hf; lia); [done|].
  change (encode_attrs (a :: attrs)) with (encode_attr a ++ encode_attrs attrs) in *.
  rewrite size_of_app, encode_attr_size in *. rewrite <-app_assoc.
  set (len := RTA_LENGTH (size_of a.2)) in *. pose proof (align4_spec len) as [Ha _].
  assert (4 ≤ len) by (unfold len, RTA_LENGTH, sizeof_rtattr, size_of; lia).
  assert (0 ≤ size_of (encode_attrs attrs)) by (unfold size_of; lia).
  assert (∀ n k, load n (encode_attr a ++ encode_attrs attrs ++ rest) k =
    load n (le_store 2 len ++ le_store 2 a.1 ++ a.2 ++ pad (size_of a.2) ++ encode_attrs attrs ++ rest) k) as El.
  { intros. unfold encode_attr. by rewrite <-!app_assoc. }
  cbn [attr_loop]. unfold RTA_OK, sizeof_rtattr.
  rewrite (proj2 (Z.leb_le 4 _)) by lia. rewrite !El, load_head by done. cbn [mbind res_bind].
  rewrite (proj2 (Z.leb_le 4 len)), (proj2 (Z.leb_le len _)) by lia. cbn [andb negb].
  rewrite (load_next 2 2) by lia. change (0 + 2 - Z.of_nat 2) with 0. rewrite load_head by done.
  cbn [mbind res_bind].
  pose proof (encode_attr_size a) as Hsz. fold len in Hsz. rewrite !Z.add_0_l, Z.add_simpl_l, <-Hsz.
  rewrite <-(Z.add_0_r (size_of (encode_attr a))), attr_loop_shift, IH by lia.
  change (omap attr_oif (a :: attrs))
    with (match attr_oif a with Some v => v :: omap attr_oif attrs | None => omap attr_oif attrs end).
  unfold attr_oif at 2. replace (len - RTA_LENGTH 0) with (size_of a.2) by (unfold len, RTA_LENGTH; lia).
  destruct (a.1 =? RTA_OIF); [|done]. destruct (Z.leb_spec 4 (size_of a.2)); [|done]. cbn [andb].
  rewrite !load_next by (unfold RTA_LENGTH, sizeof_rtattr; lia).
  rewrite load_ok; [|done|rewrite length_app; unfold size_of in *; unfold RTA_LENGTH, sizeof_rtattr; lia].
  change (Z.to_nat (RTA_LENGTH 0 - Z.of_nat 2 - Z.of_nat 2)) with 0%nat.
  rewrite drop_0, take_app_le by (unfold size_of in *; lia). done.
Qed.

(** A message with the attributes of its route, if it is an answer. *)
Definition answer_wf (x : nlmsg * list (Z * bytes)) : Prop :=
  msg_wf x.1 ∧
  (is_answer x.1 = true → ∃ rtm, size_of rtm = sizeof_rtmsg ∧ m_body x.1 = rtm ++ encode_attrs x.2 ∧
                                 Forall attr_wf x.2).
Definition answer_oif (x : nlmsg * list (Z * bytes)) : option Z :=
  if is_answer x.1 then head (omap attr_oif x.2) else None.
Definition encode_reply (xs : list (nlmsg * list (Z * bytes))) : bytes := xs ≫= λ x, encode_msg x.1.

Lemma msg_answer_attrs m attrs rest :
  answer_wf (m, attrs) → is_answer m = true →
  let len := NLMSG_LENGTH (size_of (m_body m)) in
  let attr_len := len - NLMSG_LENGTH sizeof_rtmsg in
  attr_loop (S (Z.to_nat attr_len)) (encode_msg m ++ rest) (NLMSG_LENGTH sizeof_rtmsg) attr_len =
    Ok (head (omap attr_oif attrs)).
Proof.
  intros [_ Hb] Ha. destruct (Hb Ha) as (rtm & Hrtm & Hbody & Hwf). cbn [fst snd] in *.
  cbv zeta. unfold encode_msg.
  rewrite Hbody, size_of_app, Hrtm. set (hdr := le_store 4 (NLMSG_LENGTH _)).
  set (tail := pad (sizeof_rtmsg + size_of (encode_attrs attrs)) ++ rest).
  assert ((hdr ++ le_store 2 (m_type m) ++ le_store 2 (m_flags m) ++ le_store 4 (m_seq m) ++
           le_store 4 (m_pid m) ++ (rtm ++ encode_attrs attrs) ++
           pad (sizeof_rtmsg + size_of (encode_attrs attrs))) ++ rest =
          (hdr ++ le_store 2 (m_type m) ++ le_store 2 (m_flags m) ++ le_store 4 (m_seq m) ++
           le_store 4 (m_pid m) ++ rtm) ++ encode_attrs attrs ++ tail) as ->.
  { unfold tail. by rewrite <-!app_assoc. }
  set (p := hdr ++ _). assert (size_of p = NLMSG_LENGTH sizeof_rtmsg) as Hp.
  { unfold p, hdr. rewrite !size_of_app, !size_of_store, Hrtm. done. }
  replace (NLMSG_LENGTH (sizeof_rtmsg + size_of (encode_attrs attrs)) - NLMSG_LENGTH sizeof_rtmsg)
    with (size_of (encode_attrs attrs)) by (unfold NLMSG_LENGTH; lia).
  replace (NLMSG_LENGTH sizeof_rtmsg) with (size_of p + 0) by lia. rewrite attr_loop_shift by done.
  apply attr_loop_encode; [done|]. unfold size_of. lia.
Qed.

Lemma msg_loop_encode xs fuel :
  Forall answer_wf xs → size_of (encode_reply xs) < Z.of_nat fuel →
  msg_loop fuel (encode_reply xs) 0 (size_of (encode_reply xs)) = Ok (head (omap answer_oif xs)).
Proof.
  intros Hwf. revert fuel. induction Hwf as [|[m attrs] xs Hm _ IH]; intros [|fuel] Hf;
    try (unfold size_of in Hf; lia); [done|].
  change (encode_reply ((m, attrs) :: xs)) with (encode_msg m ++ encode_reply xs) in *.
  pose proof (encode_msg_size m) as Hsz. rewrite size_of_app, Hsz in *.
  pose proof (msg_answer_attrs m attrs (encode_reply xs) Hm) as Hattrs. cbv zeta in Hattrs.
  destruct Hm as [(Ht & Hfl & Hs & Hp & Hl) _]. cbn [fst] in *.
  set (len := NLMSG_LENGTH (size_of (m_body m))) in *. pose proof (align4_spec len) as [Ha _].
  assert (16 ≤ len) by (unfold len, NLMSG_LENGTH, sizeof_nlmsghdr, size_of; lia).
  assert (0 ≤ size_of (encode_reply xs)) by (unfold size_of; lia).
  assert (load 4 (encode_msg m ++ encode_reply xs) 0 = Ok len ∧
          load 2 (encode_msg m ++ encode_reply xs) 4 = Ok (m_type m) ∧
          load 4 (encode_msg m ++ encode_reply xs) 8 = Ok (m_seq m) ∧
          load 4 (encode_msg m ++ encode_reply xs) 12 = Ok (m_pid m)) as (El & Et & Es & Ep).
  { unfold encode_msg. rewrite <-!app_assoc.
    split_and!; rewrite ?load_next by lia; by apply load_head. }
  cbn [msg_loop]. unfold NLMSG_OK, sizeof_nlmsghdr.
  rewrite (proj2 (Z.leb_le 16 _)) by lia. rewrite !Z.add_0_l, El. cbn [mbind res_bind].
  rewrite (proj2 (Z.leb_le 16 len)), (proj2 (Z.leb_le len _)) by lia. cbn [andb negb].
  assert (msg_loop fuel (encode_msg m ++ encode_reply xs) (0 + align4 len)
            (align4 len + size_of (encode_reply xs) - align4 len) = Ok (head (omap answer_oif xs))) as ->.
  { rewrite Z.add_simpl_l, <-Hsz, Z.add_comm, msg_loop_shift by lia. apply IH. lia. }
  change (omap answer_oif ((m, attrs) :: xs))
    with (match answer_oif (m, attrs) with Some v => v :: omap answer_oif xs | None => omap answer_oif xs end).
  rewrite Ep, Es, Et. cbn [mbind res_bind].
  change (answer_oif (m, attrs)) with (if is_answer m then head (omap attr_oif attrs) else None).
  set (ys := omap answer_oif xs). unfold is_answer in *.
  destruct (m_pid m =? kKernelPortId), (m_seq m =? kSeq), (m_type m =? RTM_NEWROUTE); try done.
  cbn [negb andb] in *. rewrite Hattrs by done. cbn [mbind res_bind].
  by destruct (head (omap attr_oif attrs)).
Qed.

(** Addresses as explicit lists of bytes. *)
Lemma is_bytes_4 b : is_bytes 4 b → ∃ a0 a1 a2 a3, b = [a0; a1; a2; a3].
Proof. intros [Hl _]. do 4 (destruct b as [|? b]; [done|]). destruct b; [eauto|done]. Qed.
Lemma is_bytes_16 b : is_bytes 16 b →
  ∃ a0 a1 a2 a3 a4 a5 a6 a7 a8 a9 a10 a11 a12 a13 a14 a15,
    b = [a0; a1; a2; a3; a4; a5; a6; a7; a8; a9; a10; a11; a12; a13; a14; a15].
Proof. intros [Hl _]. do 16 (destruct b as [|? b]; [done|]). destruct b; [eauto 20|done]. Qed.

Lemma Build_encodes src dst :
  ipaddr_wf src → ipaddr_wf dst →
  ∃ req, Build src dst = Ok req ∧
    let m := mkNlmsg RTM_GETROUTE NLM_F_REQUEST kSeq 0
      ([AddressFamily src; (RawAddrAndLen dst).2 * 8; (RawAddrAndLen src).2 * 8; 0; 0; 0; 0; 0; 0; 0; 0; 0] ++
       encode_attrs [(RTA_SRC, (RawAddrAndLen src).1); (RTA_DST, (RawAddrAndLen dst).1)]) in
    load 4 req 0 = Ok (size_of (encode_msg m)) ∧ take (length (encode_msg m)) req = encode_msg m.
Proof.
  intros Hs Hd. destruct src as [b|b], dst as [b'|b']; simpl in Hs, Hd;
    repeat match goal with
    | H : is_bytes 4 _ |- _ => apply is_bytes_4 in H; destruct_and?; destruct H as (? & ? & ? & ? & ->)
    | H : is_bytes 16 _ |- _ =>
        apply is_bytes_16 in H;
        destruct H as (? & ? & ? & ? & ? & ? & ? & ? & ? & ? & ? & ? & ? & ? & ? & ? & ->)
    end; eexists; (split; [vm_compute; reflexivity|]); split; vm_compute; reflexivity.
Qed.

(** C22: A reply that consists of well-formed messages is understood exactly: the result is the
    output interface of the first answer of the kernel to this request that names one, whatever
    other messages and attributes surround it; without such an answer there is none.  The
    request itself is the encoding of one RTM_GETROUTE message with both addresses, within the
    buffer. *)
Theorem Route_messages_roundtrip (xs : list (nlmsg * list (Z * bytes))) (src dst : IpAddr) :
  Forall answer_wf xs → ipaddr_wf src → ipaddr_wf dst →
  parse_reply (encode_reply xs) = Ok (head (omap answer_oif xs)) ∧
  ∃ req, Build src dst = Ok req ∧
    let m := mkNlmsg RTM_GETROUTE NLM_F_REQUEST kSeq 0
      ([AddressFamily src; (RawAddrAndLen dst).2 * 8; (RawAddrAndLen src).2 * 8; 0; 0; 0; 0; 0; 0; 0; 0; 0] ++
       encode_attrs [(RTA_SRC, (RawAddrAndLen src).1); (RTA_DST, (RawAddrAndLen dst).1)]) in
    load 4 req 0 = Ok (size_of (encode_msg m)) ∧ take (length (encode_msg m)) req = encode_msg m.
Proof.
  intros Hxs Hs Hd. split; [|by apply Build_encodes].
  unfold parse_reply. apply msg_loop_encode; [done|]. unfold size_of. lia.
Qed.


(** * Concurrent lookups *)

(** What a finished [Check] reports: an answer, or false because the kernel gave none. *)
Inductive check_result : Type := Definite (k : Key) (b : bool) | NoAnswer (k : Key).

(** The cache and the lookups that are between their two sections; the kernel may answer
    differently at different times. *)
Inductive check_step : routes * list Key → list check_result → routes * list Key → Prop :=
  | step_hit r ps k b :
      Check_find r k = Some b → check_step (r, ps) [Definite k b] (r, ps)
  | step_miss r ps k :
      Check_find r k = None → check_step (r, ps) [] (r, k :: ps)
  | step_no_answer r ps ps' k :
      ps ≡ₚ k :: ps' → check_step (r, ps) [NoAnswer k] (r, ps')
  | step_emplace r ps ps' k computed r' b :
      ps ≡ₚ k :: ps' → Check_emplace r k computed = (r', b) →
      check_step (r, ps) [Definite k b] (r', ps').
Inductive check_run : routes * list Key → list check_result → routes * list Key → Prop :=
  | run_nil s : check_run s [] s
  | run_snoc s evs s' evs' s'' :
      check_run s evs s' → check_step s' evs' s'' → check_run s (evs ++ evs') s''.

Lemma Check_emplace_lookup r k v r' b :
  Check_emplace r k v = (r', b) → r' !! k = Some b ∧ r ⊆ r'.
Proof.
  unfold Check_emplace. destruct (r !! k) as [w|] eqn:E; intros [= <- <-]; [done|].
  split; [apply lookup_insert_eq|by apply insert_subseteq].
Qed.
Lemma check_step_grows s evs s' :
  check_step s evs s' → s.1 ⊆ s'.1 ∧ ∀ k b, Definite k b ∈ evs → s'.1 !! k = Some b.
Proof.
  destruct 1 as [r ps k b Hf|r ps k Hf|r ps ps' k Hp|r ps ps' k v r' b Hp He]; simpl.
  - split; [done|]. intros k' b' Hin. apply list_elem_of_singleton in Hin as [= -> ->]. done.
  - split; [done|]. intros k' b' Hin. by apply not_elem_of_nil in Hin.
  - split; [done|]. intros k' b' Hin. by apply list_elem_of_singleton in Hin.
  - apply Check_emplace_lookup in He as [Hl Hs]. split; [done|].
    intros k' b' Hin. apply list_elem_of_singleton in Hin as [= -> ->]. done.
Qed.

Lemma check_run_agree s evs s' :
  check_run s evs s' → s.1 ⊆ s'.1 ∧ ∀ k b, Definite k b ∈ evs → s'.1 !! k = Some b.
Proof.
  induction 1 as [s|s evs s' evs' s'' _ [IHs IHe] Hstep].
  { split; [done|]. intros k b Hin. by apply not_elem_of_nil in Hin. }
  apply check_step_grows in Hstep as [Hs He]. split; [by trans s'.1|].
  intros k b [Hin|Hin]%elem_of_app; [|by apply He]. eapply lookup_weaken; [by apply IHe|done].
Qed.

(** Until the cache is cleared, all lookups of a pair of addresses that have an answer give
    the same one, whatever their interleaving and whatever the kernel says to each: the first to
    store it wins, and a cached answer never changes. *)
Theorem Route_first_writer_wins (s s' : routes * list Key) (evs : list check_result) :
  check_run s evs s' →
  (∀ k b b', Definite k b ∈ evs → Definite k b' ∈ evs → b = b') ∧
  (∀ k b b', s.1 !! k = Some b → Definite k b' ∈ evs → b' = b) ∧
  (∀ k b, Definite k b ∈ evs → Check_find s'.1 k = Some b).
Proof.
  intros Hrun. destruct (check_run_agree _ _ _ Hrun) as [Hs He]. split_and!.
  - intros k b b' H1%He H2%He. congruence.
  - intros k b b' H1 H2%He. eapply lookup_weaken in H1; [|done]. congruence.
  - exact He.
Qed.

(** A lookup without interruption is such a run. *)
Lemma Route_Check_run {Sys} `{RouteSystem Sys} `{NicSystem Sys} fuel (sys sys' : Sys) r r' src dst b :
  Route_Check fuel sys r src dst = Ok (sys', r', b) →
  ∃ evs, check_run (r, []) evs (r', []) ∧ (evs = [Definite (src, dst) b] ∨ evs = [NoAnswer (src, dst)] ∧ b = false).
Proof.
  unfold Route_Check. destruct (Check_find r (src, dst)) as [b'|] eqn:Hf.
  { intros [= <- <- <-]. eexists. split; [|by left]. apply (run_snoc _ [] (r, []) [_]); [constructor|].
    by constructor. }
  intros (x & _ & Hx)%bind_Ok_inv. destruct x as [sys'' [v|]].
  - destruct (Check_emplace r (src, dst) v) as [r'' b''] eqn:He. injection Hx as <- <- <-.
    exists ([] ++ [] ++ [Definite (src, dst) b'']). split; [|by left].
    eapply (run_snoc _ ([] ++ [])); [|by apply (step_emplace r [(src, dst)] [] (src, dst) v)].
    eapply run_snoc; [constructor|by apply step_miss].
  - injection Hx as <- <- <-. exists ([] ++ [] ++ [NoAnswer (src, dst)]). split; [|by right].
    eapply (run_snoc _ ([] ++ [])); [|by apply (step_no_answer r [(src, dst)] [])].
    eapply run_snoc; [constructor|by apply step_miss].
Qed.

(** * A host with two interfaces *)
Module TwoNics.
(** The answers the kernel still has to give. *)
Definition sys : Type := list bytes.
#[export] Instance route_system : RouteSystem sys :=
  {| nl_socket s := (s, 3); nl_send s fd b := (s, size_of b);
     nl_recv s fd := match s with [] => (s, -1, EINVAL, []) | b :: s' => (s', size_of b, 0, b) end;
     nl_close s fd := s |}.
Definition here : IpAddr := IPv4 [10; 0; 0; 1].
Definition there : IpAddr := IPv4 [10; 0; 0; 9].
#[export] Instance nic_system : NicSystem sys :=
  {| getifaddrs s := Some [mkIfaddrs (Some (text "lo"%string)) (Some (sockaddr_in 0 [127; 0; 0; 1])) 0;
                           mkIfaddrs (Some (text "eth0"%string)) (Some (sockaddr_in 0 [10; 0; 0; 1])) 0];
     if_nametoindex s n := if decide (n = text "eth0"%string) then 2 else 1;
     path_exists s p := false; getnameinfo s sa := None |}.
(** An unrelated message, then the route through interface [oif]. *)
Definition reply (oif : Z) : list (nlmsg * list (Z * bytes)) :=
  [(mkNlmsg 3 0 7 0 [1; 2; 3], []);
   let attrs := [(RTA_DST, [10; 0; 0; 9]); (RTA_OIF, le_store 4 oif)] in
   (mkNlmsg RTM_NEWROUTE 0 kSeq kKernelPortId (replicate 12 0 ++ encode_attrs attrs), attrs)].
End TwoNics.
Import TwoNics.

Example check_through_own_nic :
  Route_Check 1 [encode_reply (reply 2)] ∅ here there = Ok ([], {[ (here, there) := true ]}, true).
Proof. vm_compute. reflexivity. Qed.
Example check_through_other_nic :
  Route_Check 1 [encode_reply (reply 5)] ∅ here there = Ok ([], {[ (here, there) := false ]}, false).
Proof. vm_compute. reflexivity. Qed.

Lemma Route_messages_roundtrip_witness :
  parse_reply (encode_reply (reply 2)) = Ok (Some 2) ∧ ∃ req, Build here there = Ok req.
Proof.
  destruct (Route_messages_roundtrip (reply 2) here there) as [Hp (req & Hb & _)].
  - constructor; [split; [vm_compute; repeat split; congruence|vm_compute; congruence]|].
    constructor; [|constructor]. split; [vm_compute; repeat split; congruence|].
    intros _. exists (replicate 12 0). split; [reflexivity|]. split; [reflexivity|].
    repeat constructor; vm_compute; congruence.
  - split; [reflexivity|]. repeat constructor; vm_compute; congruence.
  - split; [reflexivity|]. repeat constructor; vm_compute; congruence.
  - split; [rewrite Hp; vm_compute; reflexivity|]. exists req. exact Hb.
Defined.

(** Two lookups that both miss and are told different answers. *)
Lemma Route_first_writer_wins_witness :
  ∃ evs s', check_run (∅, []) evs s' ∧ Definite (here, there) false ∈ evs ∧
            Check_find s'.1 (here, there) = Some false.
Proof.
  set (k := (here, there)).
  set (r := {[ k := false ]} : routes).
  assert (check_run (∅, []) ((([] ++ []) ++ []) ++ [Definite k false]) (r, [k])) as Hrun.
  { eapply run_snoc; [eapply run_snoc; [eapply run_snoc; [apply run_nil|]|]|].
    - apply (step_miss _ _ k). reflexivity.
    - apply (step_miss _ _ k). reflexivity.
    - apply (step_emplace _ _ [k] k false); [reflexivity|vm_compute; reflexivity]. }
  assert (check_run (∅, []) (((([] ++ []) ++ []) ++ [Definite k false]) ++ [Definite k false]) (r, [])) as Hrun'.
  { eapply run_snoc; [exact Hrun|]. apply (step_emplace _ _ [] k true); [reflexivity|vm_compute; reflexivity]. }
  eexists _, _. split; [exact Hrun'|]. split; [apply elem_of_app; right; left|].
  apply (Route_first_writer_wins _ _ _ Hrun'). apply elem_of_app. right. left.
Defined.
