(* ===== verification/PciTopology.v ===== *)
(** Location of devices in the PCI hierarchy: [internal/nic/pci_topology.{h,cc}].  The files of
    sysfs are a parameter ([Sysfs]); the functions of absl that split and convert text are one
    too ([AbslText]), with their documented behaviour as laws. *)

From Stdlib Require Import Ascii.
From stdpp Require Import base tactics list list_numbers numbers strings sets.
From S2P Require Import Prelude Endpoint.
Local Open Scope Z_scope.

(** * Text *)

(** The pieces between the separators: one more than there are separators. *)
Fixpoint split_on (c : ascii) (s : str) : list str :=
  match s with
  | [] => [[]]
  | x :: s' =>
      if decide (x = c) then [] :: split_on c s'
      else match split_on c s' with p :: ps => (x :: p) :: ps | [] => [[x]] end
  end.
Definition hex_value (c : ascii) : option Z :=
  let n := Z.of_nat (nat_of_ascii c) in
  if (48 <=? n) && (n <=? 57) then Some (n - 48)
  else if (65 <=? n) && (n <=? 70) then Some (n - 55)
  else if (97 <=? n) && (n <=? 102) then Some (n - 87)
  else None.
Definition ascii_isxdigit (c : ascii) : bool := bool_decide (is_Some (hex_value c)).
Definition ascii_isspace (c : ascii) : bool :=
  let n := nat_of_ascii c in (n =? 32)%nat || ((9 <=? n)%nat && (n <=? 13)%nat).
(** The number that digits to base 16 denote. *)
Definition hex_number (s : str) : Z := foldl (λ acc c, acc * 16 + default 0 (hex_value c)) 0 s.

Class AbslText := {
  StrSplitSkipEmpty : ascii → str → list str;       (* StrSplit(s, c, SkipEmpty()) *)
  StripAsciiWhitespace : str → str;
  SimpleAtoi32 : str → option Z;                    (* SimpleAtoi(s, &int32) *)
  SimpleHexAtoi32 : str → option Z;                 (* SimpleHexAtoi(s, &uint32) *)
}.
Class AbslTextLaws (T : AbslText) : Prop := {
  split_law c s : StrSplitSkipEmpty c s = filter (λ p, p ≠ []) (split_on c s);
  hex_law s : s ≠ [] → (length s ≤ 8)%nat → forallb ascii_isxdigit s = true →
              SimpleHexAtoi32 s = Some (hex_number s);
}.

Definition substr (s : str) (pos n : nat) : str := take n (drop pos s).
Definition char_at (s : str) (i : nat) : option ascii := s !! i.
Definition lit (s : string) : str := String.list_ascii_of_string s.

Definition IsHexRange (s : str) : bool := negb (bool_decide (s = [])) && forallb ascii_isxdigit s.
Definition IsPciRootBusId (name : str) : bool :=
  (length name =? 10)%nat && bool_decide (take 3 name = lit "pci") &&
  bool_decide (char_at name 7 = Some ":"%char) &&
  IsHexRange (substr name 3 4) && IsHexRange (substr name 8 2).

(** Without the slashes at the end. *)
Fixpoint strip_slashes (s : str) : str :=
  match s with
  | [] => []
  | c :: s' => match strip_slashes s' with
               | [] => if decide (c = "/"%char) then [] else [c]
               | r => c :: r
               end
  end.
Definition BaseName (path : str) : str :=
  let path := strip_slashes path in
  match rsplit "/"%char path with Some (_, b) => b | None => path end.
Definition ParentDir (path : str) : str :=
  match rsplit "/"%char (strip_slashes path) with
  | None => []
  | Some ([], _) => lit "/"
  | Some (d, _) => d
  end.
Definition JoinRoot (sysfs_root rel_path : str) : str := strip_slashes sysfs_root ++ rel_path.

(** * Locations *)

Record PciLocation := mkPciLocation {
  numa_node : Z; root_complex : str; switches : list str; endpoint_bdf : str }.
Definition PciLocation_default : PciLocation := mkPciLocation 0 [] [] [].
#[export] Instance PciLocation_eq_dec : EqDecision PciLocation.
Proof. solve_decision. Defined.

Inductive PciRelation : Type :=
  | kSameEndpoint | kSamePciSwitch | kSameRootComplex | kSameNumaNode | kCrossNuma.
Record PciDistance := mkPciDistance { relation : PciRelation; hops : Z }.

(** [while (common < min && a[common] == b[common]) ++common]. *)
Fixpoint common_prefix (a b : list str) : nat :=
  match a, b with
  | x :: a', y :: b' => if decide (x = y) then S (common_prefix a' b') else O
  | _, _ => O
  end.

Definition GetPciDistance (a b : PciLocation) : PciDistance :=
  if negb (bool_decide (endpoint_bdf a = [])) && bool_decide (endpoint_bdf a = endpoint_bdf b)
  then mkPciDistance kSameEndpoint 0
  else if negb (bool_decide (root_complex a = [])) && bool_decide (root_complex a = root_complex b) then
    let common_switches := common_prefix (switches a) (switches b) in
    let hops := Z.of_nat (length (switches a) - common_switches + 1) +
                Z.of_nat (length (switches b) - common_switches + 1) in
    mkPciDistance (if (0 <? common_switches)%nat then kSamePciSwitch else kSameRootComplex) hops
  else if (0 <=? numa_node a) && (numa_node a =? numa_node b) then mkPciDistance kSameNumaNode (-1)
  else mkPciDistance kCrossNuma (-1).

Section Parse.
Context `{AbslText}.

Definition ParsePciBdfKey (bdf : str) : option Z :=
  if negb (length bdf =? 12)%nat || negb (bool_decide (char_at bdf 4 = Some ":"%char)) ||
     negb (bool_decide (char_at bdf 7 = Some ":"%char)) || negb (bool_decide (char_at bdf 10 = Some "."%char))
  then None
  else
    let dom_s := substr bdf 0 4 in let bus_s := substr bdf 5 2 in
    let dev_s := substr bdf 8 2 in let fn_s := substr bdf 11 1 in
    if negb (IsHexRange dom_s) || negb (IsHexRange bus_s) || negb (IsHexRange dev_s) || negb (IsHexRange fn_s)
    then None
    else
      dom ← SimpleHexAtoi32 dom_s; bus ← SimpleHexAtoi32 bus_s;
      dev ← SimpleHexAtoi32 dev_s; fn ← SimpleHexAtoi32 fn_s;
      Some (Z.lor (Z.lor (Z.lor (u64 (Z.shiftl dom 24)) (u64 (Z.shiftl bus 16))) (u64 (Z.shiftl dev 8))) fn).

(** The loop over the parts of the path: the root complex, then the chain of devices. *)
Fixpoint bdf_prefix (parts : list str) : list str :=
  match parts with
  | [] => []
  | p :: ps => match ParsePciBdfKey p with Some _ => p :: bdf_prefix ps | None => [] end
  end.
Fixpoint parse_chain (parts : list str) : str * list str :=
  match parts with
  | [] => ([], [])
  | p :: ps => if IsPciRootBusId p then (p, bdf_prefix ps) else parse_chain ps
  end.

(** * Sysfs *)

Inductive pci_error : Type := NotFound | FailedPrecondition.
End Parse.

Class Sysfs (S : Type) := {
  sys_stat : S → str → bool;                 (* stat(path) == 0 *)
  sys_realpath : S → str → option str;       (* realpath(path) *)
  sys_read : S → str → option str;           (* open and read of at most 255 bytes *)
  sys_readdir : S → str → option (list str); (* the names of a directory *)
}.

Section Resolve.
Context {S : Type} `{Sysfs S} `{AbslText}.

(** [std::string(buf)] ends at the first NUL. *)
Fixpoint until_nul (s : str) : str :=
  match s with [] => [] | c :: s' => if decide (c = "000"%char) then [] else c :: until_nul s' end.
Definition ReadTrimmedFile (sys : S) (path : str) : option str :=
  StripAsciiWhitespace ∘ until_nul <$> sys_read sys path.

Definition ReadNumaNode (sys : S) (pci_dev_dir : str) : Z :=
  match ReadTrimmedFile sys (pci_dev_dir ++ lit "/numa_node") with
  | None => 0
  | Some content =>
      match SimpleAtoi32 content with
      | None => 0
      | Some numa => if numa <? 0 then 0 else numa
      end
  end.

(** The end of [ResolveSingleDeviceLink]: the location of the device directory [pci_dir]. *)
Definition locate (sys : S) (pci_dir : str) : PciLocation + pci_error :=
  let '(root_complex, bdf_chain) := parse_chain (StrSplitSkipEmpty "/" pci_dir) in
  match last bdf_chain with
  | None => inr FailedPrecondition
  | Some endpoint => inl (mkPciLocation (ReadNumaNode sys pci_dir) root_complex (removelast bdf_chain) endpoint)
  end.

Definition ResolveSingleDeviceLink (sys : S) (dev_symlink_path : str) : PciLocation + pci_error :=
  match sys_realpath sys dev_symlink_path with
  | None => inr NotFound
  | Some dev_real =>
      match sys_realpath sys (dev_real ++ lit "/subsystem") with
      | None => inr FailedPrecondition
      | Some subsys_real =>
          let subsys := BaseName subsys_real in
          if bool_decide (subsys = lit "virtio") || bool_decide (subsys = lit "auxiliary") then
            let pci_dir := ParentDir dev_real in
            match sys_realpath sys (pci_dir ++ lit "/subsystem") with
            | None => inr FailedPrecondition
            | Some parent_subsys =>
                if bool_decide (BaseName parent_subsys = lit "pci") then locate sys pci_dir
                else inr FailedPrecondition
            end
          else if bool_decide (subsys = lit "pci") then locate sys dev_real
          else inr FailedPrecondition
      end
  end.

Definition push_new (slaves : list str) (s : str) : list str :=
  if bool_decide (s ∈ slaves) then slaves else slaves ++ [s].
Definition bond_slaves (sys : S) (net_dir : str) : list str :=
  let slaves := match ReadTrimmedFile sys (net_dir ++ lit "/bonding/active_slave") with
                | Some active => if bool_decide (active = []) then [] else [active]
                | None => []
                end in
  let slaves := match ReadTrimmedFile sys (net_dir ++ lit "/bonding/slaves") with
                | Some all => if bool_decide (all = []) then slaves
                              else foldl push_new slaves (StrSplitSkipEmpty " " all)
                | None => slaves
                end in
  if bool_decide (slaves = []) then
    match sys_readdir sys net_dir with
    | None => slaves
    | Some names => foldl (λ l d, if bool_decide (take 6 d = lit "lower_") then l ++ [drop 6 d] else l) slaves names
    end
  else slaves.
Fixpoint first_location (sys : S) (sysfs_root : str) (slaves : list str) : PciLocation + pci_error :=
  match slaves with
  | [] => inr FailedPrecondition
  | slave :: slaves' =>
      match ResolveSingleDeviceLink sys (JoinRoot sysfs_root (lit "/sys/class/net/" ++ slave ++ lit "/device")) with
      | inl loc => inl loc
      | inr _ => first_location sys sysfs_root slaves'
      end
  end.

Definition ResolveNetdevPciLocation (sys : S) (if_name sysfs_root : str) : PciLocation + pci_error :=
  let net_dir := JoinRoot sysfs_root (lit "/sys/class/net/" ++ if_name) in
  if negb (sys_stat sys net_dir) then inr NotFound
  else if sys_stat sys (net_dir ++ lit "/bridge") then inr FailedPrecondition
  else
    let dev_link := net_dir ++ lit "/device" in
    if sys_stat sys dev_link then ResolveSingleDeviceLink sys dev_link
    else if sys_stat sys (net_dir ++ lit "/bonding") then first_location sys sysfs_root (bond_slaves sys net_dir)
    else inr FailedPrecondition.

Definition ResolveIbdevPciLocation (sys : S) (ib_name sysfs_root : str) : PciLocation + pci_error :=
  ResolveSingleDeviceLink sys
    (JoinRoot sysfs_root (lit "/sys/class/infiniband/" ++ ib_name ++ lit "/device")).
End Resolve.

(** * The path of a location *)

(** [/p1/p2/...]. *)
Definition join_path (parts : list str) : str := parts ≫= (λ p, "/"%char :: p).

Lemma split_on_app c p s :
  c ∉ p → split_on c (p ++ c :: s) = p :: split_on c s.
Proof.
  induction p as [|x p IH]; intros Hc; simpl; [by rewrite decide_True|].
  apply not_elem_of_cons in Hc as [Hx Hc]. rewrite decide_False by congruence. by rewrite IH.
Qed.
Lemma split_on_none c p : c ∉ p → split_on c p = [p].
Proof.
  induction p as [|x p IH]; intros Hc; simpl; [done|].
  apply not_elem_of_cons in Hc as [Hx Hc]. rewrite decide_False by congruence. by rewrite IH.
Qed.
Lemma split_join_path parts :
  Forall (λ p, "/"%char ∉ p) parts → split_on "/" (join_path parts) = [] :: parts.
Proof.
  intros Hp. induction Hp as [|p parts Hp Hps IH]; [done|].
  change (join_path (p :: parts)) with ("/"%char :: p ++ join_path parts).
  cbn [split_on]. rewrite decide_True by done. f_equal.
  destruct parts as [|q parts]; [simpl; by rewrite app_nil_r, split_on_none|].
  change (join_path (q :: parts)) with ("/"%char :: q ++ join_path parts) in *.
  rewrite split_on_app by done. f_equal. cbn [split_on] in IH. rewrite decide_True in IH by done.
  by injection IH.
Qed.

Section Location.
Context `{T : AbslText}.

Definition is_bdf (p : str) : Prop := is_Some (ParsePciBdfKey p).
(** The directories above the root complex. *)
Definition above_root (parts : list str) : Prop :=
  Forall (λ p, p ≠ [] ∧ ("/"%char ∉ p) ∧ IsPciRootBusId p = false) parts.
Definition location_wf (loc : PciLocation) : Prop :=
  IsPciRootBusId (root_complex loc) = true ∧ Forall is_bdf (switches loc) ∧ is_bdf (endpoint_bdf loc).

Lemma hex_no_slash s : forallb ascii_isxdigit s = true → "/"%char ∉ s.
Proof.
  intros Hf Hin. rewrite forallb_forall in Hf. by specialize (Hf _ (proj1 (list_elem_of_In _ _) Hin)).
Qed.
Lemma IsHexRange_no_slash s : IsHexRange s = true → "/"%char ∉ s.
Proof. unfold IsHexRange. intros [_ ?]%andb_true_iff. by apply hex_no_slash. Qed.

Lemma root_shape p : IsPciRootBusId p = true → p ≠ [] ∧ "/"%char ∉ p.
Proof.
  unfold IsPciRootBusId, substr, char_at.
  intros [[[[Hl Hp]%andb_true_iff Hc]%andb_true_iff H1]%andb_true_iff H2]%andb_true_iff.
  apply Nat.eqb_eq in Hl. apply bool_decide_eq_true in Hp, Hc.
  apply IsHexRange_no_slash in H1, H2. split; [by intros ->|].
  do 10 (destruct p as [|? p]; [done|]). destruct p; [|done]. simpl in *. simplify_eq. set_solver.
Qed.
Lemma bdf_shape p : is_bdf p → p ≠ [] ∧ "/"%char ∉ p.
Proof.
  unfold is_bdf, ParsePciBdfKey, substr, char_at. intros [k Hk]. case_match eqn:Hg; [done|].
  apply orb_false_iff in Hg as [[[Hl H4]%orb_false_iff H7]%orb_false_iff H10].
  apply negb_false_iff in Hl, H4, H7, H10. apply Nat.eqb_eq in Hl.
  apply bool_decide_eq_true in H4, H7, H10. case_match eqn:Hx; [done|]. clear Hk.
  apply orb_false_iff in Hx as [[[Ha Hb]%orb_false_iff Hc]%orb_false_iff Hd].
  apply negb_false_iff in Ha, Hb, Hc, Hd.
  apply IsHexRange_no_slash in Ha, Hb, Hc, Hd. split; [by intros ->|].
  do 12 (destruct p as [|? p]; [done|]). destruct p; [|done]. simpl in *. simplify_eq. set_solver.
Qed.

Lemma bdf_prefix_all ps : Forall is_bdf ps → bdf_prefix ps = ps.
Proof. induction 1 as [|p ps [k Hk] _ IH]; [done|]. simpl. by rewrite Hk, IH. Qed.
Lemma parse_chain_above pre ps : above_root pre → parse_chain (pre ++ ps) = parse_chain ps.
Proof. induction 1 as [|p pre (_ & _ & Hr) _ IH]; [done|]. simpl. by rewrite Hr. Qed.
End Location.

Lemma last_app_singleton {A} (l : list A) x : last (l ++ [x]) = Some x.
Proof. apply last_snoc. Qed.

(** The directory of a device below its root complex gives back the location: root complex,
    switches from the top down, endpoint; whatever directories lead to the root complex. *)
Theorem PciLocation_path_roundtrip {S} `{Sysfs S} `{T : AbslText} (L : AbslTextLaws T) (sys : S)
    (loc : PciLocation) (above : list str) :
  location_wf loc → above_root above →
  let dir := join_path (above ++ root_complex loc :: switches loc ++ [endpoint_bdf loc]) in
  numa_node loc = ReadNumaNode sys dir → locate sys dir = inl loc.
Proof.
  intros (Hr & Hs & He) Ha dir Hn. destruct loc as [numa root sws ep]. simpl in *. unfold locate.
  assert (Forall (λ p, p ≠ [] ∧ "/"%char ∉ p) (above ++ root :: sws ++ [ep])) as Hok.
  { apply Forall_app. split; [eapply Forall_impl; [exact Ha|]; naive_solver|].
    constructor; [by apply root_shape|]. apply Forall_app. split; [|by repeat constructor; apply bdf_shape].
    eapply Forall_impl; [exact Hs|]. apply bdf_shape. }
  unfold dir. rewrite split_law, split_join_path by (eapply Forall_impl; [exact Hok|naive_solver]).
  rewrite filter_cons_False by naive_solver. rewrite filter_all_elem by (eapply Forall_impl; [exact Hok|naive_solver]).
  rewrite parse_chain_above by done. simpl. rewrite Hr, bdf_prefix_all.
  2:{ apply Forall_app. by repeat constructor. }
  rewrite last_app_singleton, removelast_last. fold dir. by rewrite <-Hn.
Qed.

(** * Distance *)

(** The path from the root complex to the device, and the number of edges between two nodes of
    a tree given by their paths. *)
Definition tree_path (loc : PciLocation) : list str := root_complex loc :: switches loc ++ [endpoint_bdf loc].
Definition tree_distance (p q : list str) : Z :=
  Z.of_nat (length p) + Z.of_nat (length q) - 2 * Z.of_nat (common_prefix p q).

Lemma common_prefix_comm a b : common_prefix a b = common_prefix b a.
Proof. revert b. induction a as [|x a IH]; intros [|y b]; simpl; try done. repeat case_decide; congruence. Qed.
Lemma common_prefix_le a b : (common_prefix a b ≤ length a ∧ common_prefix a b ≤ length b)%nat.
Proof.
  revert b. induction a as [|x a IH]; intros [|y b]; simpl; try lia. case_decide; [|lia].
  specialize (IH b). lia.
Qed.
(** Distinct leaves, neither above the other. *)
Lemma common_prefix_leaves a b x y :
  x ≠ y → x ∉ b → y ∉ a → common_prefix (a ++ [x]) (b ++ [y]) = common_prefix a b.
Proof.
  intros Hxy. revert b. induction a as [|u a IH]; intros [|v b] Hx Hy; simpl.
  - by rewrite decide_False.
  - rewrite decide_False by set_solver. done.
  - rewrite decide_False by set_solver. done.
  - case_decide; [|done]. f_equal. apply IH; set_solver.
Qed.

Lemma bool_decide_eq_sym `{EqDecision A} (x y : A) : bool_decide (x = y) = bool_decide (y = x).
Proof. apply bool_decide_ext. split; congruence. Qed.
Lemma GetPciDistance_sym a b : GetPciDistance a b = GetPciDistance b a.
Proof.
  unfold GetPciDistance. rewrite (common_prefix_comm (switches b)), (Z.add_comm (Z.of_nat (length (switches b) - _ + 1))),
    (bool_decide_eq_sym (endpoint_bdf b) (endpoint_bdf a)), (bool_decide_eq_sym (root_complex b) (root_complex a)),
    (Z.eqb_sym (numa_node b)).
  destruct (bool_decide_reflect (endpoint_bdf a = endpoint_bdf b)) as [->|_],
    (bool_decide_reflect (root_complex a = root_complex b)) as [->|_],
    (Z.eqb_spec (numa_node a) (numa_node b)) as [->|_]; by rewrite ?andb_false_r.
Qed.

(** C26: The distance of two devices is symmetric.  Under one root complex, the hop count is the
    number of edges of the PCI tree between the two endpoints, and the relation says whether
    their paths share a switch; otherwise there is no hop count. *)
Theorem GetPciDistance_tree (a b : PciLocation) :
  GetPciDistance a b = GetPciDistance b a ∧
  (root_complex a ≠ [] → endpoint_bdf a ≠ [] → endpoint_bdf a ∉ switches b → endpoint_bdf b ∉ switches a →
   if decide (root_complex a = root_complex b ∧ endpoint_bdf a ≠ endpoint_bdf b)
   then hops (GetPciDistance a b) = tree_distance (tree_path a) (tree_path b) ∧
        (relation (GetPciDistance a b) = kSamePciSwitch ↔
         ∃ s, head (switches a) = Some s ∧ head (switches b) = Some s)
   else hops (GetPciDistance a b) = if decide (endpoint_bdf a = endpoint_bdf b) then 0 else -1).
Proof.
  split.
  - apply GetPciDistance_sym.
  - intros Hra Hea Hab Hba. unfold GetPciDistance.
    rewrite (bool_decide_false (root_complex a = [])), (bool_decide_false (endpoint_bdf a = [])) by done.
    cbn [negb andb]. case_decide as Hd.
    + destruct Hd as [Hr He]. rewrite (bool_decide_false (endpoint_bdf a = _)), (bool_decide_true (root_complex a = _)) by done.
      cbn [hops relation]. split.
      * unfold tree_distance, tree_path. cbn [common_prefix length]. rewrite decide_True by done.
        rewrite common_prefix_leaves, !length_app by done. simpl.
        pose proof (common_prefix_le (switches a) (switches b)). lia.
      * destruct (switches a) as [|x sa], (switches b) as [|y sb]; simpl; try (split; [done|naive_solver]).
        case_decide; simpl; split; naive_solver.
    + case_decide as He; [by rewrite bool_decide_true|]. rewrite bool_decide_false by done.
      rewrite bool_decide_false by naive_solver. by destruct (_ && _).
Qed.

(** * Text functions and a tree *)
Module Absl.
Fixpoint ltrim (s : str) : str :=
  match s with [] => [] | c :: s' => if ascii_isspace c then ltrim s' else s end.
#[export] Instance absl_text : AbslText :=
  {| StrSplitSkipEmpty c s := filter (λ p, p ≠ []) (split_on c s);
     StripAsciiWhitespace s := reverse (ltrim (reverse (ltrim s)));
     SimpleAtoi32 s := HexText.atoi s;
     SimpleHexAtoi32 s := Some (hex_number s) |}.
#[export] Instance absl_laws : AbslTextLaws absl_text.
Proof. by split. Qed.
(** All devices are on node 1. *)
#[export] Instance flat_sysfs : Sysfs unit :=
  {| sys_stat _ _ := true; sys_realpath _ p := Some p; sys_read _ _ := Some (lit "1"); sys_readdir _ _ := None |}.
End Absl.
Import Absl.

Definition gpu : PciLocation :=
  mkPciLocation 1 (lit "pci0000:10") [lit "0000:10:01.0"; lit "0000:11:00.0"] (lit "0000:12:00.0").
Definition nic : PciLocation :=
  mkPciLocation 1 (lit "pci0000:10") [lit "0000:10:01.0"; lit "0000:11:04.0"] (lit "0000:13:00.0").

Lemma location_wf_gpu : location_wf gpu.
Proof. split; [reflexivity|]. split; [|by eexists]. repeat constructor; by eexists. Qed.
Lemma PciLocation_path_roundtrip_witness :
  location_wf gpu ∧ locate () (join_path [lit "sys"; lit "devices"; lit "pci0000:10"; lit "0000:10:01.0";
                                         lit "0000:11:00.0"; lit "0000:12:00.0"]) = inl gpu.
Proof.
  split; [exact location_wf_gpu|].
  apply (PciLocation_path_roundtrip absl_laws () gpu [lit "sys"; lit "devices"] location_wf_gpu).
  - repeat constructor; (done || (apply (bool_decide_unpack _); vm_compute; exact I)).
  - vm_compute. reflexivity.
Defined.
Lemma GetPciDistance_tree_witness :
  hops (GetPciDistance gpu nic) = tree_distance (tree_path gpu) (tree_path nic) ∧
  GetPciDistance gpu nic = mkPciDistance kSamePciSwitch 4.
Proof.
  split; [|vm_compute; reflexivity].
  destruct (GetPciDistance_tree gpu nic) as [_ Ht].
  apply Ht; (done || (apply (bool_decide_unpack _); vm_compute; exact I)).
Defined.
