(* ===== verification/HostText.v ===== *)
(** The text form of host information: [NicInfo::Create], [HostInfo::Create] and their
    [ToString] ([internal/base/nicinfo.cc], [internal/base/hostinfo.cc]).

    A host is written as ["ip:port; name/type/ip:port,ip:port; ..."].  Splitting and stripping
    are Abseil's, a parameter ([ListText]) with its documented behaviour as laws. *)

From Stdlib Require Import Ascii String DecimalString.
From stdpp Require Import base tactics list list_numbers numbers strings sets gmap.
From S2P Require Import Prelude IpAddr Endpoint HostInfo Nic PciTopology.
Local Open Scope Z_scope.
Local Open Scope list_scope.

(** * Text *)

Definition blank (s : str) : bool := forallb ascii_isspace s.
(** The first piece and the rest. *)
Fixpoint lsplit (c : ascii) (s : str) : option (str * str) :=
  match s with
  | [] => None
  | x :: s' => if decide (x = c) then Some ([], s') else (λ '(p, r), (x :: p, r)) <$> lsplit c s'
  end.
(** At most [n] splits. *)
Fixpoint split_max (c : ascii) (n : nat) (s : str) : list str :=
  match n with
  | O => [s]
  | S n => match lsplit c s with Some (p, r) => p :: split_max c n r | None => [s] end
  end.
Definition trim (s : str) : str := reverse (Absl.ltrim (reverse (Absl.ltrim s))).

Class ListText := {
  SplitBlank : ascii → str → list str;             (* StrSplit(s, c, SkipWhitespace()) *)
  SplitMaxBlank : ascii → nat → str → list str;    (* StrSplit(s, MaxSplits(c, n), SkipWhitespace()) *)
  StripBlank : str → str;                          (* StripAsciiWhitespace *)
}.
Class ListTextLaws (L : ListText) : Prop := {
  lt_split c s : SplitBlank c s = filter (λ p, blank p = false) (split_on c s);
  lt_max c n s : SplitMaxBlank c n s = filter (λ p, blank p = false) (split_max c n s);
  lt_strip s : StripBlank s = trim s;
}.

(** The characters of addresses and numbers. *)
Definition ip_char (c : ascii) : Prop := ascii_isxdigit c = true ∨ c = "."%char ∨ c = ":"%char.
Class NetTextChars (T : NetText) : Prop := {
  ntop4_ip b : is_bytes 4 b → Forall ip_char (inet_ntop4 b);
  ntop6_ip b : is_bytes 16 b → Forall ip_char (inet_ntop6 b);
  strcat_ip n : 0 ≤ n → Forall ip_char (StrCatInt n);
}.

(** * Operations *)

Section Ops.
Context `{T : NetText} `{ListText}.

Definition NicInfo_ToString (nic : NicInfo) : str :=
  nic_name nic ++ "/"%char :: NicType_ToString (nic_type nic) ++ "/"%char ::
  match Endpoint_ToString <$> nic_endpoints nic with
  | [] => []
  | e :: es => e ++ concat (cons ","%char <$> es)
  end.

Definition NicInfo_Create (s : str) : res NicInfo :=
  let invalid := NicInfo_default in
  do* dcheck (negb (NicInfo_IsValid invalid));
  match SplitMaxBlank "/" 2 s with
  | [name; type; list] =>
      let nic := mkNicInfo name (NicType_FromString type) (Endpoint_Create ∘ StripBlank <$> SplitBlank "," list) in
      Ok (if NicInfo_IsValid nic then nic else invalid)
  | _ => Ok invalid
  end.

Definition HostInfo_ToString (h : HostInfo) : str :=
  foldl (λ s nic, s ++ ";"%char :: " "%char :: NicInfo_ToString nic)
    (Endpoint_ToString (control_plane_listener h)) (data_plane_listeners h).

(** The loop over the parts after the first; [None] is the early return. *)
Fixpoint create_nics (parts : list str) : res (option (list NicInfo)) :=
  match parts with
  | [] => Ok (Some [])
  | p :: parts =>
      let* nic := NicInfo_Create (StripBlank p) in
      if negb (NicInfo_IsValid nic) then Ok None
      else let* nics := create_nics parts in Ok (cons nic <$> nics)
  end.

Definition HostInfo_Create (s : str) : res HostInfo :=
  let invalid := HostInfo_default in
  do* dcheck (negb (HostInfo_IsValid invalid));
  match SplitBlank ";" s with
  | [] => Ok (if HostInfo_IsValid HostInfo_default then HostInfo_default else invalid)
  | p :: parts =>
      let* nics := create_nics parts in
      match nics with
      | None => Ok invalid
      | Some nics =>
          let host := mkHostInfo (Endpoint_Create (StripBlank p)) nics in
          Ok (if HostInfo_IsValid host then host else invalid)
      end
  end.
End Ops.

(** * Lemmas on text *)

Lemma split_on_list c x xs : (c ∉ x) → Forall (λ y, c ∉ y) xs → split_on c (x ++ concat (cons c <$> xs)) = x :: xs.
Proof.
  intros Hx Hxs. revert x Hx. induction Hxs as [|y xs Hy _ IH]; intros x Hx.
  - cbn. by rewrite app_nil_r, split_on_none.
  - cbn. rewrite split_on_app by done. f_equal. by apply IH.
Qed.

Lemma filter_all {A} (P : A → Prop) `{∀ x, Decision (P x)} l : Forall P l → filter P l = l.
Proof. induction 1; [done|]. rewrite filter_cons_True by done. by f_equal. Qed.

Lemma lsplit_app c p s : (c ∉ p) → lsplit c (p ++ c :: s) = Some (p, s).
Proof.
  induction p as [|x p IH]; cbn; intros Hp; [by rewrite decide_True|]. apply not_elem_of_cons in Hp as [Hx Hp].
  rewrite decide_False by congruence. by rewrite IH.
Qed.

Lemma blank_cons c s : ascii_isspace c = false → blank (c :: s) = false.
Proof. intros Hc. cbn. by rewrite Hc. Qed.
Lemma blank_has s c : c ∈ s → ascii_isspace c = false → blank s = false.
Proof. intros Hin Hc. apply not_true_iff_false. unfold blank. rewrite forallb_forall. intros Hf. rewrite Hf in Hc; [done|]. by apply list_elem_of_In. Qed.

(** Text that starts and ends with characters that are not white space is not stripped. *)
Lemma ltrim_id c s : ascii_isspace c = false → Absl.ltrim (c :: s) = c :: s.
Proof. intros Hc. cbn. by rewrite Hc. Qed.
Lemma trim_id s : (∃ c, head s = Some c ∧ ascii_isspace c = false) → (∃ c, last s = Some c ∧ ascii_isspace c = false) → trim s = s.
Proof.
  intros (c & Hh & Hc) (d & Hl & Hd). unfold trim. destruct s as [|x s]; [done|]. injection Hh as ->. rewrite ltrim_id by done.
  rewrite <- head_reverse in Hl. destruct (reverse (c :: s)) as [|y r] eqn:E; [done|]. injection Hl as ->.
  rewrite ltrim_id by done. by rewrite <- E, reverse_involutive.
Qed.
Lemma trim_space s : trim (" "%char :: s) = trim s.
Proof. done. Qed.

(** * The text of an endpoint *)

(** Its characters: none is white space or a separator. *)
Definition ep_char (c : ascii) : Prop := ip_char c ∨ c = "["%char ∨ c = "]"%char.

Lemma ep_char_not c d : ep_char c → (¬ ep_char d) → c ≠ d.
Proof. by intros ? ? ->. Qed.
Lemma ep_char_space c : ep_char c → ascii_isspace c = false.
Proof.
  intros [[H|[->| ->]]|[->| ->]]; [|done..]. destruct c as [[] [] [] [] [] [] [] []]; done || discriminate H.
Qed.
Lemma not_ep_char c : ascii_isxdigit c = false → c ∉ [ "."%char; ":"%char; "["%char; "]"%char ] → ¬ ep_char c.
Proof. intros Hx Hn [[H|[->| ->]]|[->| ->]]; [congruence|set_solver..]. Qed.

Section Roundtrip.
Context `{T : NetText} `{!NetTextLaws T} `{!NetTextChars T} `{L : ListText} `{!ListTextLaws L}.

Lemma endpoint_chars e : endpoint_wf e → Forall ep_char (Endpoint_ToString e).
Proof.
  intros [Ha [Hp _]]. unfold Endpoint_ToString. assert (Forall ep_char (StrCatInt (ep_port e))) as Hport.
  { eapply Forall_impl; [by apply strcat_ip|]. by left. }
  destruct (ep_ipaddr e) as [b|b]; cbn [IpAddr_ToString]; unfold ToIPv4String, ToIPv6String.
  - apply Forall_app. split; [eapply Forall_impl; [by apply ntop4_ip|]; by left|]. constructor; [by left; right; right|done].
  - constructor; [by right; left|]. apply Forall_app. split; [eapply Forall_impl; [by apply ntop6_ip|]; by left|].
    constructor; [by right; right|]. constructor; [by left; right; right|done].
Qed.
Lemma endpoint_colon e : ":"%char ∈ Endpoint_ToString e.
Proof. unfold Endpoint_ToString. destruct (ep_ipaddr e); set_solver. Qed.

Lemma endpoint_without e c : endpoint_wf e → (¬ ep_char c) → c ∉ Endpoint_ToString e.
Proof. intros He Hc Hin. apply Hc. eapply Forall_forall; [by apply endpoint_chars|done]. Qed.
Lemma endpoint_blank e : blank (Endpoint_ToString e) = false.
Proof. by apply (blank_has _ ":"%char (endpoint_colon e)). Qed.

(** Characters of an endpoint at both ends. *)
Lemma ep_ends s : Forall ep_char s → s ≠ [] →
  (∃ c, head s = Some c ∧ ascii_isspace c = false) ∧ (∃ c, last s = Some c ∧ ascii_isspace c = false).
Proof.
  intros Hs Hn. split.
  - destruct s as [|c s]; [done|]. exists c. split; [done|]. apply ep_char_space. by inversion Hs.
  - destruct (last s) as [c|] eqn:E; [|by apply last_None in E]. exists c. split; [done|]. apply ep_char_space.
    apply last_Some in E as [s' ->]. apply Forall_app in Hs as [_ Hs]. by inversion Hs.
Qed.
Lemma endpoint_nonempty e : Endpoint_ToString e ≠ [].
Proof. intros E. pose proof (endpoint_colon e) as Hc. rewrite E in Hc. by apply elem_of_nil in Hc. Qed.
Lemma endpoint_reads e : endpoint_wf e → Endpoint_Create (StripBlank (Endpoint_ToString e)) = e.
Proof.
  intros He. destruct (ep_ends _ (endpoint_chars e He) (endpoint_nonempty e)). rewrite lt_strip, trim_id by done.
  by apply Endpoint_Create_ToString.
Qed.

(** * Interfaces *)

(** A name that the text form can carry. *)
Definition name_ok (name : str) : Prop :=
  ("/"%char ∉ name) ∧ (";"%char ∉ name) ∧ ∃ c, head name = Some c ∧ ascii_isspace c = false.
Definition nic_wf (nic : NicInfo) : Prop := name_ok (nic_name nic) ∧ Forall endpoint_wf (nic_endpoints nic).

Definition nic_list (es : list Endpoint) : str :=
  match Endpoint_ToString <$> es with [] => [] | e :: es => e ++ concat (cons ","%char <$> es) end.

Lemma nic_list_reads es : es ≠ [] → Forall endpoint_wf es →
  Endpoint_Create ∘ StripBlank <$> SplitBlank "," (nic_list es) = es.
Proof.
  intros Hn He. unfold nic_list. destruct es as [|e es]; [done|]. cbn [fmap list_fmap].
  apply Forall_cons in He as [He Hes]. rewrite lt_split, split_on_list, filter_all.
  - cbn. f_equal; [by apply endpoint_reads|]. rewrite <- list_fmap_compose.
    induction Hes as [|x es Hx _ IH]; [done|]. cbn. f_equal; [by apply endpoint_reads|]. by apply IH.
  - constructor; [apply endpoint_blank|]. apply Forall_fmap, Forall_true. intros x. apply endpoint_blank.
  - apply endpoint_without; [done|]. by apply not_ep_char; [|set_solver].
  - apply Forall_fmap. eapply Forall_impl; [done|]. intros x Hx. apply endpoint_without; [done|]. by apply not_ep_char; [|set_solver].
Qed.

Lemma nic_list_chars es : Forall endpoint_wf es → Forall (λ c, ep_char c ∨ c = ","%char) (nic_list es).
Proof.
  intros He. assert (∀ x, endpoint_wf x → Forall (λ c, ep_char c ∨ c = ","%char) (Endpoint_ToString x)) as Hx.
  { intros x Hx. eapply Forall_impl; [by apply endpoint_chars|]. by left. }
  unfold nic_list. destruct He as [|e es He Hes]; [constructor|]. cbn [fmap list_fmap]. apply Forall_app. split; [by apply Hx|].
  induction Hes as [|y es Hy _ IH]; [constructor|]. cbn. constructor; [by right|]. apply Forall_app. split; [by apply Hx|done].
Qed.

Lemma NicType_chars t c : c ∈ NicType_ToString t → ascii_isspace c = false ∧ c ≠ "/"%char ∧ c ≠ ";"%char.
Proof. destruct t; cbn; intros Hc; repeat (apply elem_of_cons in Hc as [->|Hc]; [done|]); by apply elem_of_nil in Hc. Qed.

Lemma nic_text nic : NicInfo_ToString nic =
  nic_name nic ++ "/"%char :: NicType_ToString (nic_type nic) ++ "/"%char :: nic_list (nic_endpoints nic).
Proof. done. Qed.

(** [NicInfo::Create] reads back what [ToString] prints. *)
Lemma NicInfo_reads nic : NicInfo_IsValid nic = true → nic_wf nic → NicInfo_Create (NicInfo_ToString nic) = Ok nic.
Proof.
  intros Hv [(Hs & _ & c & Hc & Hsp) He]. pose proof (proj1 (NicInfo_IsValid_spec nic) Hv) as (_ & _ & Hn & _).
  unfold NicInfo_Create. rewrite bind_dcheck by done. rewrite nic_text, lt_max. cbn [split_max].
  rewrite lsplit_app by done. rewrite lsplit_app by (intros Hin; by destruct (NicType_chars _ _ Hin) as (_ & ? & _)).
  rewrite filter_all.
  - rewrite nic_list_reads, NicType_text_roundtrip by done. destruct nic. cbn in *. by rewrite Hv.
  - repeat constructor.
    + destruct (nic_name nic) as [|x s]; [done|]. injection Hc as ->. by apply blank_cons.
    + by destruct (nic_type nic).
    + destruct (nic_endpoints nic) as [|e es]; [done|]. unfold nic_list. cbn [fmap list_fmap].
      apply (blank_has _ ":"%char); [|done]. apply elem_of_app. left. apply endpoint_colon.
Qed.

Lemma nic_text_ends nic : nic_wf nic → nic_endpoints nic ≠ [] →
  (∃ c, head (NicInfo_ToString nic) = Some c ∧ ascii_isspace c = false) ∧
  (∃ c, last (NicInfo_ToString nic) = Some c ∧ ascii_isspace c = false) ∧ ";"%char ∉ NicInfo_ToString nic.
Proof.
  intros [(_ & Hsc & c & Hc & Hsp) He] Hn. pose proof (nic_list_chars _ He) as Hl. rewrite nic_text. split; [|split].
  - exists c. split; [|done]. by destruct (nic_name nic).
  - set (pre := nic_name nic ++ "/"%char :: NicType_ToString (nic_type nic) ++ ["/"%char]).
    replace (nic_name nic ++ _) with (pre ++ nic_list (nic_endpoints nic)) by (unfold pre; by rewrite <- app_assoc; cbn; rewrite <- app_assoc).
    destruct (last (nic_list (nic_endpoints nic))) as [d|] eqn:E.
    + exists d. rewrite last_app, E. split; [done|]. apply last_Some in E as [s' E]. rewrite E in Hl.
      apply Forall_app in Hl as [_ Hl]. inversion Hl as [|? ? [Hd| ->] _]; subst; [by apply ep_char_space|done].
    + exfalso. apply last_None in E. destruct (nic_endpoints nic) as [|e es]; [done|]. unfold nic_list in E. cbn in E.
      apply app_eq_nil in E as [E _]. by apply endpoint_nonempty in E.
  - rewrite not_elem_of_app, not_elem_of_cons, not_elem_of_app, not_elem_of_cons. split_and!; try done.
    + intros Hin. by destruct (NicType_chars _ _ Hin) as (_ & _ & ?).
    + intros Hin. rewrite Forall_forall in Hl. destruct (Hl _ Hin) as [H|H]; [|done]. revert H. by apply not_ep_char; [|set_solver].
Qed.

(** * Hosts *)

Definition host_text_wf (h : HostInfo) : Prop :=
  endpoint_wf (control_plane_listener h) ∧ Forall nic_wf (data_plane_listeners h).

Lemma host_text h : HostInfo_ToString h =
  Endpoint_ToString (control_plane_listener h) ++ concat (cons ";"%char <$> (cons " "%char ∘ NicInfo_ToString <$> data_plane_listeners h)).
Proof.
  unfold HostInfo_ToString. generalize (Endpoint_ToString (control_plane_listener h)) as s.
  induction (data_plane_listeners h) as [|nic nics IH]; intros s; cbn; [by rewrite app_nil_r|].
  rewrite IH. by rewrite <- app_assoc.
Qed.

Lemma create_nics_reads nics : Forall nic_wf nics → Forall (λ nic, NicInfo_IsValid nic = true) nics →
  create_nics (cons " "%char ∘ NicInfo_ToString <$> nics) = Ok (Some nics).
Proof.
  intros Hw Hv. induction nics as [|nic nics IH]; [done|]. apply Forall_cons in Hw as [Hw Hws], Hv as [Hv Hvs].
  rewrite fmap_cons. cbn [create_nics compose].
  pose proof (proj1 (NicInfo_IsValid_spec nic) Hv) as (_ & _ & Hn & _). destruct (nic_text_ends nic Hw Hn) as (? & ? & _).
  rewrite lt_strip, trim_space, trim_id, NicInfo_reads, bind_Ok by done. rewrite Hv. cbn [negb].
  by rewrite IH, bind_Ok by done.
Qed.

Lemma HostInfo_reads h : HostInfo_IsValid h = true → host_text_wf h → HostInfo_Create (HostInfo_ToString h) = Ok h.
Proof.
  intros Hv [Hc Hw]. pose proof (proj1 (HostInfo_IsValid_spec h) Hv) as (_ & _ & Hvn & _).
  assert (Forall (λ nic, NicInfo_IsValid nic = true ∧ nic_wf nic) (data_plane_listeners h)) as Hf.
  { apply Forall_forall. intros nic Hin. split; [by apply Hvn|]. by eapply Forall_forall. }
  unfold HostInfo_Create. rewrite bind_dcheck by done. rewrite host_text, lt_split, split_on_list, filter_all.
  - rewrite create_nics_reads, bind_Ok, endpoint_reads; [|done|done|eapply Forall_impl; [exact Hf|by intros ? []]].
    destruct h. cbn in *. by rewrite Hv.
  - constructor; [apply endpoint_blank|]. apply Forall_fmap. eapply Forall_impl; [exact Hf|]. intros nic [Hn Hw'].
    apply NicInfo_IsValid_spec in Hn as (_ & _ & Hn & _). destruct (nic_text_ends nic Hw' Hn) as ((c & Hh & Hs) & _).
    apply (blank_has _ c); [|done]. cbn. destruct (NicInfo_ToString nic); [done|]. injection Hh as ->. set_solver.
  - apply endpoint_without; [done|]. by apply not_ep_char; [|set_solver].
  - apply Forall_fmap. eapply Forall_impl; [exact Hf|]. intros nic [Hn Hw']. apply NicInfo_IsValid_spec in Hn as (_ & _ & Hn & _).
    destruct (nic_text_ends nic Hw' Hn) as (_ & _ & Hs). cbn. rewrite not_elem_of_cons. by split.
Qed.

(** Any text yields a valid host or the invalid default. *)
Lemma NicInfo_Create_valid s : ∃ nic, NicInfo_Create s = Ok nic ∧ (NicInfo_IsValid nic = true ∨ nic = NicInfo_default).
Proof.
  unfold NicInfo_Create. rewrite bind_dcheck by done. destruct (SplitMaxBlank _ _ _) as [|a [|b [|c [|]]]]; try (eexists; split; [done|]; by right).
  eexists. split; [done|]. destruct (NicInfo_IsValid (mkNicInfo _ _ _)) eqn:E; auto.
Qed.
Lemma create_nics_valid parts : ∃ o, create_nics parts = Ok o.
Proof.
  induction parts as [|p parts [o IH]]; [by eexists|]. cbn [create_nics]. destruct (NicInfo_Create_valid (StripBlank p)) as (nic & -> & _).
  rewrite bind_Ok. destruct (negb _); [by eexists|]. rewrite IH, bind_Ok. by eexists.
Qed.
Lemma HostInfo_Create_valid s : ∃ h, HostInfo_Create s = Ok h ∧ (HostInfo_IsValid h = true ∨ h = HostInfo_default).
Proof.
  unfold HostInfo_Create. rewrite bind_dcheck by done. destruct (SplitBlank _ _) as [|p parts]; [eexists; split; [done|]; by right|].
  destruct (create_nics_valid parts) as [[nics|] ->]; rewrite bind_Ok; eexists; (split; [done|]); [|by right].
  destruct (HostInfo_IsValid (mkHostInfo _ _)) eqn:E; auto.
Qed.
End Roundtrip.

(** * Properties *)

(** C21: [HostInfo::Create(h.ToString())] is [h] for every valid host whose interface names the
    format can carry (no ["/"], no [";"], no white space in front): addresses of both families,
    ports, interface types and their order all survive, although the parser skips blank
    pieces, strips white space and limits its splits.  And for any text whatever
    [HostInfo::Create] returns without failing an assertion, either a valid host or the invalid
    default. *)
Theorem HostInfo_text_roundtrip `{T : NetText} `{TL : !NetTextLaws T} `{TC : !NetTextChars T} `{L : ListText} `{LL : !ListTextLaws L}
    (h : HostInfo) (s : str) :
  HostInfo_IsValid h = true → host_text_wf h →
  HostInfo_Create (HostInfo_ToString h) = Ok h ∧
  ∃ h', HostInfo_Create s = Ok h' ∧ (HostInfo_IsValid h' = true ∨ h' = HostInfo_default).
Proof. intros Hv Hw. split; [by apply HostInfo_reads|apply HostInfo_Create_valid]. Qed.

(** * Examples *)

Module SplitSim.
#[export] Instance list_text : ListText := {|
  SplitBlank c s := filter (λ p, blank p = false) (split_on c s);
  SplitMaxBlank c n s := filter (λ p, blank p = false) (split_max c n s);
  StripBlank := trim |}.
#[export] Instance list_laws : ListTextLaws list_text.
Proof. by split. Qed.
Lemma digits_ip c : c ∈ HexText.digits → ip_char c.
Proof. intros Hc. left. cbn in Hc. repeat (apply elem_of_cons in Hc as [->|Hc]; [done|]). by apply elem_of_nil in Hc. Qed.
Lemma ntop_ip b : Forall ip_char (HexText.ntop b).
Proof. apply Forall_forall. intros c Hc. by apply digits_ip, (HexText.ntop_digits b). Qed.
Lemma uint_ip u : Forall ip_char (list_ascii_of_string (NilEmpty.string_of_uint u)).
Proof. induction u; cbn; constructor; try done; by left. Qed.
#[export] Instance text_chars : NetTextChars HexText.text.
Proof.
  split.
  - intros b _. apply ntop_ip.
  - intros b _. constructor; [by right; right|apply ntop_ip].
  - intros n _. cbn. unfold HexText.dec, NilZero.string_of_uint.
    destruct (N.to_uint _) eqn:E; try (rewrite <- E; apply uint_ip). constructor; [by left|constructor].
Qed.
End SplitSim.
Import SplitSim.
#[local] Existing Instance HexText.text.

Definition ht_host : HostInfo :=
  mkHostInfo (mkEndpoint (IPv4 [10; 0; 0; 1]) 10000)
    [mkNicInfo (lit "eth0") kIP [mkEndpoint (IPv4 [10; 0; 0; 1]) 43521; mkEndpoint (IPv6 (replicate 15 0 ++ [1])) 51691];
     mkNicInfo (lit "irdma0") kRDMA [mkEndpoint (IPv6 (32 :: 1 :: replicate 13 0 ++ [2])) 1]].
(** Extra white space and empty pieces do not matter; an interface of an unknown type does. *)
Example ht_loose : HostInfo_Create (lit " 0a000001:10000 ;;  eth0/IP/ 0a000001:43521 ,, 0a000002:7 ; ") =
  Ok (mkHostInfo (mkEndpoint (IPv4 [10; 0; 0; 1]) 10000)
        [mkNicInfo (lit "eth0") kIP [mkEndpoint (IPv4 [10; 0; 0; 1]) 43521; mkEndpoint (IPv4 [10; 0; 0; 2]) 7]]).
Proof. vm_compute. reflexivity. Qed.
Example ht_unknown : HostInfo_Create (lit "0a000001:10000; eth0/wifi/0a000001:43521") = Ok HostInfo_default.
Proof. vm_compute. reflexivity. Qed.
(** A name with the separator is not read back. *)
Example ht_slash : let h := mkHostInfo (mkEndpoint (IPv4 [10; 0; 0; 1]) 10000) [mkNicInfo (lit "a/b") kIP [mkEndpoint (IPv4 [10; 0; 0; 2]) 7]] in
  HostInfo_IsValid h = true ∧ HostInfo_Create (HostInfo_ToString h) = Ok HostInfo_default.
Proof. vm_compute. split; reflexivity. Qed.

Lemma HostInfo_text_roundtrip_witness : HostInfo_Create (HostInfo_ToString ht_host) = Ok ht_host.
Proof.
  apply (HostInfo_text_roundtrip (TL := HexText.text_laws) ht_host []).
  - vm_compute. reflexivity.
  - split; [apply (bool_decide_unpack _); vm_compute; exact I|]. repeat constructor; cbn;
      try (apply (bool_decide_unpack _); vm_compute; exact I); (eexists; split; reflexivity).
Defined.
