(* ===== verification/NicInventory.v ===== *)
(** The inventory of network interfaces: [internal/nic/nic_inventory.{h,cc}].  Interfaces and RDMA
    devices are listed by the system ([NicSystem], [Sysfs], [IbSystem] are parameters), grouped
    by the PCI device they belong to, and numbered in the order of the PCI addresses. *)

From Stdlib Require Import Ascii.
From stdpp Require Import base tactics list list_numbers numbers gmap strings sorting.
From S2P Require Import Prelude Containers IpAddr Endpoint HostInfo Nic PciTopology.
Local Open Scope Z_scope.

(** * Data *)

Record TcpNic := mkTcpNic {
  tn_rail_id : Z; tn_pci : PciLocation; tn_if_name : str; tn_ip_addrs : list IpAddr }.
Record RdmaNic := mkRdmaNic {
  rn_rail_id : Z; rn_pci : PciLocation; rn_ib_dev_name : str; rn_netdev_name : str; rn_port_num : Z;
  rn_gid_index : Z; rn_gid_addr : IpAddr; rn_ip_addr : IpAddr }.
Record NicInventory := mkNicInventory { tcp_nics_ : list TcpNic; rdma_nics_ : list RdmaNic }.

Definition UINT64_MAX : Z := 2 ^ 64 - 1.
Definition IFF_UP : Z := 1.
Definition IFF_LOOPBACK : Z := 8.
Definition IFF_POINTOPOINT : Z := 16.
Definition IFF_RUNNING : Z := 64.
Definition has_flag (flags f : Z) : bool := negb (Z.land flags f =? 0).

Definition IsUsableIp (ip : IpAddr) (allow_loopback : bool) : bool :=
  IpAddr_IsRoutable ip && (allow_loopback || negb (IpAddr_IsLoopback ip)).
(** The 16 bytes of a GID. *)
Definition ExtractIpFromGid (gid : list Z) : IpAddr :=
  if IN6_IS_ADDR_V4MAPPED gid then IPv4 (take 4 (drop 12 gid)) else IPv6 gid.

Section Keys.
Context `{AbslText}.
Definition GetSortKey (loc : PciLocation) : Z :=
  if bool_decide (endpoint_bdf loc = []) then UINT64_MAX
  else default (UINT64_MAX - 1) (ParsePciBdfKey (endpoint_bdf loc)).
Definition tcp_lt : TcpNic → TcpNic → bool :=
  lex_lt (on_key (GetSortKey ∘ tn_pci) Z.ltb) (on_key tn_if_name str_lt).
Definition rdma_lt : RdmaNic → RdmaNic → bool :=
  lex_lt (on_key (GetSortKey ∘ rn_pci) Z.ltb)
    (lex_lt (on_key rn_ib_dev_name str_lt) (on_key rn_port_num Z.ltb)).
#[export] Instance tcp_comparator : Comparator tcp_lt.
Proof. apply _. Qed.
#[export] Instance rdma_comparator : Comparator rdma_lt.
Proof. apply _. Qed.

Definition set_tcp_rail (i : nat) (n : TcpNic) : TcpNic :=
  mkTcpNic (Z.of_nat i `mod` 2 ^ 32) (tn_pci n) (tn_if_name n) (tn_ip_addrs n).
Definition set_rdma_rail (i : nat) (n : RdmaNic) : RdmaNic :=
  mkRdmaNic (Z.of_nat i `mod` 2 ^ 32) (rn_pci n) (rn_ib_dev_name n) (rn_netdev_name n) (rn_port_num n)
    (rn_gid_index n) (rn_gid_addr n) (rn_ip_addr n).
Definition sortAndAssignRails (inv : NicInventory) : NicInventory :=
  mkNicInventory (imap set_tcp_rail (std_sort tcp_lt (tcp_nics_ inv)))
    (imap set_rdma_rail (std_sort rdma_lt (rdma_nics_ inv))).
Definition NicInventory_new (tcp_nics : list TcpNic) (rdma_nics : list RdmaNic) : NicInventory :=
  sortAndAssignRails (mkNicInventory tcp_nics rdma_nics).
End Keys.

(** * RDMA devices *)

Inductive gid_type : Type := ROCE_V2 | other_gid_type.
Record gid_entry := mkGidEntry { ge_type : gid_type; ge_gid : list Z; ge_ifindex : Z }.
Record port_attr := mkPortAttr { pa_active : bool; pa_gid_tbl_len : Z }.

(** Queries of the RDMA library, on the context of the device with that name. *)
Class IbSystem (S : Type) := {
  ibv_devices : S → option (list (option str));            (* names; a null entry is None *)
  ibv_open : S → str → bool;                               (* ibv_open_device != nullptr *)
  ibv_phys_port_cnt : S → str → option Z;                  (* ibv_query_device; uint8_t *)
  ibv_port : S → str → Z → option port_attr;               (* ibv_query_port *)
  ibv_gid : S → str → Z → Z → option gid_entry;            (* ibv_query_gid_ex *)
  if_indextoname : S → Z → option str;
}.

Section Discover.
Context {S : Type} `{IbSystem S} `{NicSystem S} `{Sysfs S} `{AbslText}.

(** The entry of the GID table at [i], if it can be used: its GID, interface and address. *)
Definition usable_gid (sys : S) (dev : str) (port : Z) (allow_loopback : bool) (i : Z)
    : option (list Z * str * IpAddr) :=
  match ibv_gid sys dev port i with
  | None => None
  | Some e =>
      match ge_type e with
      | other_gid_type => None
      | ROCE_V2 =>
          let under_ip := ExtractIpFromGid (ge_gid e) in
          if negb (IsUsableIp under_ip allow_loopback) then None
          else match if_indextoname sys (ge_ifindex e) with
               | None => None
               | Some netdev => Some (ge_gid e, netdev, under_ip)
               end
      end
  end.

(** The loop over the table: [best] is the index and entry chosen so far. *)
Fixpoint gid_loop (sys : S) (dev : str) (port : Z) (allow_loopback : bool) (n : nat) (i : Z)
    (best : option (Z * (list Z * str * IpAddr))) : option (Z * (list Z * str * IpAddr)) :=
  match n with
  | O => best
  | Datatypes.S n =>
      match usable_gid sys dev port allow_loopback i with
      | None => gid_loop sys dev port allow_loopback n (i + 1) best
      | Some e =>
          if negb (bool_decide (is_Some best)) || IsIPv4 e.2 then
            if IsIPv4 e.2 then Some (i, e)
            else gid_loop sys dev port allow_loopback n (i + 1) (Some (i, e))
          else gid_loop sys dev port allow_loopback n (i + 1) best
      end
  end.

Definition discover_port (sys : S) (allow_loopback : bool) (ib_name : str) (loc : PciLocation) (port_num : Z)
    : list RdmaNic :=
  match ibv_port sys ib_name port_num with
  | None => []
  | Some pa =>
      if negb (pa_active pa) then []
      else match gid_loop sys ib_name port_num allow_loopback (Z.to_nat (pa_gid_tbl_len pa)) 0 None with
           | None => []
           | Some (idx, (gid, netdev, ip)) =>
               [mkRdmaNic 0 loc ib_name netdev port_num idx (IPv6 gid) ip]
           end
  end.
(** [for (uint8_t port_num = 1; port_num <= phys_port_cnt; ++port_num)]. *)
Fixpoint port_loop (fuel : nat) (sys : S) (allow_loopback : bool) (ib_name : str) (loc : PciLocation)
    (cnt port_num : Z) : res (list RdmaNic) :=
  match fuel with
  | O => Fault Blocked
  | Datatypes.S fuel =>
      if port_num <=? cnt then
        (let* rest := port_loop fuel sys allow_loopback ib_name loc cnt (u8 (port_num + 1)) in
         Ok (discover_port sys allow_loopback ib_name loc port_num ++ rest))%pg
      else Ok []
  end.
Definition discover_device (sys : S) (allow_loopback : bool) (dev : option str) : res (list RdmaNic) :=
  match dev with
  | None => Ok []
  | Some ib_name =>
      match ResolveIbdevPciLocation sys ib_name (lit "/") with
      | inr _ => Ok []
      | inl loc =>
          if negb (ibv_open sys ib_name) then Ok []
          else match ibv_phys_port_cnt sys ib_name with
               | None => Ok []
               | Some cnt => port_loop 256 sys allow_loopback ib_name loc cnt 1
               end
      end
  end.
Definition DiscoverRdmaNics (sys : S) (allow_loopback : bool) : res (list RdmaNic) :=
  match ibv_devices sys with
  | None => Ok []
  | Some devs =>
      foldl (λ acc dev,
        (let* nics := acc in
         let* more := discover_device sys allow_loopback dev in
         Ok (nics ++ more))%pg) (Ok []) devs
  end.

(** * TCP interfaces *)

Definition IsRdmaNetdev (sys : S) (if_name : str) : bool :=
  path_exists sys (lit "/sys/class/net/" ++ if_name ++ lit "/device/infiniband").

(** The name, address and location of an entry of the list that is not skipped. *)
Definition tcp_candidate (sys : S) (allow_loopback : bool) (rdma_nics : list RdmaNic) (ifa : ifaddrs)
    : option (str * IpAddr * PciLocation) :=
  match ifa_name ifa, ifa_addr ifa with
  | Some if_name, Some addr =>
      let flags := ifa_flags ifa in
      if negb (has_flag flags IFF_UP) || negb (has_flag flags IFF_RUNNING) then None
      else if has_flag flags IFF_POINTOPOINT then None
      else
        let is_loopback := has_flag flags IFF_LOOPBACK in
        if is_loopback && negb allow_loopback then None
        else if negb is_loopback && IsRdmaNetdev sys if_name then None
        else match IpAddr_of_sockaddr addr with
             | None => None
             | Some ip =>
                 if negb (IsUsableIp ip allow_loopback) then None
                 else if is_loopback then Some (if_name, ip, mkPciLocation (-1) [] [] [])
                 else match ResolveNetdevPciLocation sys if_name (lit "/") with
                      | inr _ => None
                      | inl loc =>
                          if existsb (λ r, bool_decide (rn_netdev_name r = if_name) ||
                                           (negb (bool_decide (endpoint_bdf loc = [])) &&
                                            bool_decide (endpoint_bdf (rn_pci r) = endpoint_bdf loc))) rdma_nics
                          then None else Some (if_name, ip, loc)
                      end
             end
  | _, _ => None
  end.

Definition same_nic (if_name : str) (loc : PciLocation) (existing : TcpNic) : bool :=
  if negb (bool_decide (endpoint_bdf loc = []))
  then bool_decide (endpoint_bdf (tn_pci existing) = endpoint_bdf loc)
  else bool_decide (tn_if_name existing = if_name).
Definition add_ip (ip : IpAddr) (n : TcpNic) : TcpNic :=
  if existsb (λ a, IpAddr_eqb a ip) (tn_ip_addrs n) then n
  else mkTcpNic (tn_rail_id n) (tn_pci n) (tn_if_name n) (tn_ip_addrs n ++ [ip]).
(** [find_if], then the update of the element found or [push_back]. *)
Fixpoint group_ip (if_name : str) (ip : IpAddr) (loc : PciLocation) (nics : list TcpNic) : list TcpNic :=
  match nics with
  | [] => [mkTcpNic 0 loc if_name [ip]]
  | n :: nics' =>
      if same_nic if_name loc n then add_ip ip n :: nics' else n :: group_ip if_name ip loc nics'
  end.

Definition DiscoverTcpNics (sys : S) (allow_loopback : bool) (rdma_nics : list RdmaNic) : list TcpNic :=
  match getifaddrs sys with
  | None => []
  | Some ifs =>
      foldl (λ nics ifa,
        match tcp_candidate sys allow_loopback rdma_nics ifa with
        | None => nics
        | Some (if_name, ip, loc) => group_ip if_name ip loc nics
        end) [] ifs
  end.

Definition NicInventory_Discover (sys : S) (allow_loopback : bool) : res NicInventory :=
  (let* rdma_nics := DiscoverRdmaNics sys allow_loopback in
   let tcp_nics := DiscoverTcpNics sys allow_loopback rdma_nics in
   Ok (NicInventory_new tcp_nics rdma_nics))%pg.
End Discover.

(** * Rails *)

Lemma imap_fmap_seq {A} (f : nat → A → A) (g : A → Z) (h : nat → Z) (l : list A) :
  (∀ i x, g (f i x) = h i) → g <$> imap f l = h <$> seq 0 (length l).
Proof.
  intros Hg. apply list_eq. intros i. rewrite !list_lookup_fmap, list_lookup_imap.
  destruct (l !! i) as [x|] eqn:E; simpl.
  - rewrite lookup_seq_lt by (by eapply lookup_lt_Some). simpl. by rewrite Hg.
  - rewrite lookup_seq_ge by (by apply lookup_ge_None). done.
Qed.

Lemma key_tie {A B} (key : A → B) lt a b :
  (∀ x y, lt x y = false → lt y x = false → x = y) →
  not_after (on_key key lt) a b → not_after (on_key key lt) b a → key a = key b.
Proof. intros Hlt. unfold not_after, on_key. intros ? ?. apply Hlt; done. Qed.
Lemma Z_tie x y : (x <? y) = false → (y <? x) = false → x = y.
Proof. rewrite !Z.ltb_ge. lia. Qed.

Section Rails.
Context `{AbslText}.

(** Interfaces and ports are told apart by their names. *)
Definition tcp_distinct (l : list TcpNic) : Prop := NoDup (tn_if_name <$> l).
Definition rdma_distinct (l : list RdmaNic) : Prop := NoDup ((λ n, (rn_ib_dev_name n, rn_port_num n)) <$> l).

Lemma NoDup_fmap_inj_elem {A B} (f : A → B) l a b : NoDup (f <$> l) → a ∈ l → b ∈ l → f a = f b → a = b.
Proof.
  intros Hn [i Hi]%list_elem_of_lookup [j Hj]%list_elem_of_lookup Hf.
  assert (i = j) as ->; [|congruence]. eapply NoDup_lookup; [exact Hn| |]; rewrite list_lookup_fmap.
  - by rewrite Hi.
  - by rewrite Hj, Hf.
Qed.

Lemma tcp_sort_stable l l' : tcp_distinct l → l ≡ₚ l' → std_sort tcp_lt l = std_sort tcp_lt l'.
Proof.
  intros Hd. apply std_sort_unique; [apply _|]. intros a b Ha Hb.
  unfold tcp_lt. rewrite !lex_not_after. intros [H1 H2] [H3 H4].
  apply (NoDup_fmap_inj_elem tn_if_name l); try done. eapply key_tie; [apply str_lt_total| |]; auto.
Qed.
Lemma rdma_sort_stable l l' : rdma_distinct l → l ≡ₚ l' → std_sort rdma_lt l = std_sort rdma_lt l'.
Proof.
  intros Hd. apply std_sort_unique; [apply _|]. intros a b Ha Hb.
  unfold rdma_lt. rewrite !lex_not_after. intros [H1 H2] [H3 H4].
  destruct (H2 H3) as [H5 H6]. destruct (H4 H1) as [H7 H8].
  apply (NoDup_fmap_inj_elem (λ n, (rn_ib_dev_name n, rn_port_num n)) l); try done. f_equal.
  - eapply key_tie; [apply str_lt_total| |]; auto.
  - eapply key_tie; [apply Z_tie| |]; auto.
Qed.
End Rails.

Lemma imap_fmap_same {A B} (f : nat → A → A) (g : A → B) (l : list A) :
  (∀ i x, g (f i x) = g x) → g <$> imap f l = g <$> l.
Proof.
  intros Hg. apply list_eq. intros i. rewrite !list_lookup_fmap, list_lookup_imap.
  destruct (l !! i) as [x|]; simpl; [by rewrite Hg|done].
Qed.
Lemma rails_seq {A} (f : nat → A → A) (rail : A → Z) (l : list A) n :
  (∀ i x, rail (f i x) = Z.of_nat i `mod` 2 ^ 32) → length l = n → Z.of_nat n < 2 ^ 32 →
  rail <$> imap f l = seqZ 0 (Z.of_nat n).
Proof.
  intros Hf <- Hn. rewrite (imap_fmap_seq f rail (λ i, Z.of_nat i `mod` 2 ^ 32)) by done.
  unfold seqZ. rewrite Nat2Z.id. apply list_fmap_ext. intros k i Hk.
  apply lookup_seq in Hk as [-> Hk]. rewrite Z.mod_small by lia. lia.
Qed.
Lemma sorted_by_first {A} `{AbslText} (pci : A → PciLocation) (lt2 : A → A → bool) `{!Comparator lt2} l :
  StronglySorted (not_after (on_key GetSortKey Z.ltb))
    (pci <$> std_sort (lex_lt (on_key (GetSortKey ∘ pci) Z.ltb) lt2) l).
Proof.
  pose proof (std_sort_sorted (lex_lt (on_key (GetSortKey ∘ pci) Z.ltb) lt2) l) as Hs.
  induction Hs as [|a l' _ IH Ha]; simpl; constructor; [done|]. apply Forall_fmap.
  eapply Forall_impl; [exact Ha|]. intros b. rewrite lex_not_after. by intros [].
Qed.

(** C25: Rail numbers are the positions 0, 1, ... in the order of PCI addresses (ties by name and
    port), and depend only on which interfaces exist: discovering them in any other order gives
    the same inventory. *)
Theorem NicInventory_rails `{AbslText} (tcp tcp' : list TcpNic) (rdma rdma' : list RdmaNic) :
  tcp_distinct tcp → rdma_distinct rdma → tcp ≡ₚ tcp' → rdma ≡ₚ rdma' →
  Z.of_nat (length tcp) < 2 ^ 32 → Z.of_nat (length rdma) < 2 ^ 32 →
  let inv := NicInventory_new tcp rdma in
  inv = NicInventory_new tcp' rdma' ∧
  (tn_rail_id <$> tcp_nics_ inv = seqZ 0 (Z.of_nat (length tcp))) ∧
  (rn_rail_id <$> rdma_nics_ inv = seqZ 0 (Z.of_nat (length rdma))) ∧
  (tn_if_name <$> tcp_nics_ inv = tn_if_name <$> std_sort tcp_lt tcp) ∧
  StronglySorted (not_after (on_key GetSortKey Z.ltb)) (tn_pci <$> tcp_nics_ inv) ∧
  StronglySorted (not_after (on_key GetSortKey Z.ltb)) (rn_pci <$> rdma_nics_ inv).
Proof.
  intros Ht Hr Pt Pr Lt Lr inv. unfold inv, NicInventory_new, sortAndAssignRails. cbn [tcp_nics_ rdma_nics_].
  split_and!.
  - by rewrite (tcp_sort_stable _ _ Ht Pt), (rdma_sort_stable _ _ Hr Pr).
  - apply rails_seq; [done|by rewrite std_sort_Permutation|done].
  - apply rails_seq; [done|by rewrite std_sort_Permutation|done].
  - by rewrite imap_fmap_same.
  - rewrite imap_fmap_same by done. unfold tcp_lt. apply (sorted_by_first tn_pci _ _).
  - rewrite imap_fmap_same by done. unfold rdma_lt. apply (sorted_by_first rn_pci _ _).
Qed.

(** * Grouping by device *)

(** What a TCP interface stands for: its PCI device, or its name if it has none. *)
Definition nic_id (n : TcpNic) : str * str :=
  let bdf := endpoint_bdf (tn_pci n) in (bdf, if decide (bdf = []) then tn_if_name n else []).
Definition has_ip (ip : IpAddr) (n : TcpNic) : bool := existsb (λ a, IpAddr_eqb a ip) (tn_ip_addrs n).

Lemma IpAddr_eqb_refl a : IpAddr_eqb a a = true.
Proof. destruct a; unfold IpAddr_eqb; simpl; [apply Z.eqb_refl|by apply bool_decide_true]. Qed.
Lemma add_ip_id ip n : nic_id (add_ip ip n) = nic_id n.
Proof. unfold add_ip. by destruct (existsb _ _). Qed.
Lemma add_ip_same ip n name loc : same_nic name loc (add_ip ip n) = same_nic name loc n.
Proof. unfold add_ip. by destruct (existsb _ _). Qed.
Lemma has_ip_add ip ip' n : has_ip ip n = true ∨ ip = ip' → has_ip ip (add_ip ip' n) = true.
Proof.
  unfold add_ip, has_ip. destruct (existsb (λ a, IpAddr_eqb a ip') (tn_ip_addrs n)) eqn:E; [naive_solver|].
  simpl. rewrite existsb_app. intros [->| ->]; [done|]. simpl. by rewrite IpAddr_eqb_refl, orb_true_r.
Qed.

(** An identity that no interface of the list has yet. *)
Lemma not_same_id name loc ip n :
  same_nic name loc n = false → nic_id n ≠ nic_id (mkTcpNic 0 loc name [ip]).
Proof.
  unfold same_nic, nic_id. simpl. intros Hs Heq. injection Heq as H1 H2.
  rewrite H1 in *. destruct (bool_decide_reflect (endpoint_bdf loc = [])) as [Hn|Hn]; simpl in Hs.
  - rewrite !decide_True in H2 by done. by rewrite bool_decide_true in Hs.
  - by rewrite bool_decide_true in Hs.
Qed.

Lemma group_ip_ids name ip loc nics :
  NoDup (nic_id <$> nics) → NoDup (nic_id <$> group_ip name ip loc nics) ∧
  ∀ i, i ∈ nic_id <$> group_ip name ip loc nics →
       i ∈ nic_id <$> nics ∨ i = nic_id (mkTcpNic 0 loc name [ip]) ∧ Forall (λ n, same_nic name loc n = false) nics.
Proof.
  induction nics as [|n nics IH]; simpl; intros Hn.
  { split; [apply NoDup_singleton|]. intros i ->%list_elem_of_singleton. by right. }
  apply NoDup_cons in Hn as [Hni Hn]. destruct (same_nic name loc n) eqn:Es; simpl.
  - rewrite add_ip_id. split; [by apply NoDup_cons|]. auto.
  - destruct (IH Hn) as [Hg Hi]. split.
    + apply NoDup_cons. split; [|done]. intros [Hin|[Hin _]]%Hi; [done|].
      by apply (not_same_id name loc ip n).
    + intros i [->|[Hin|[-> Hf]]%Hi]%elem_of_cons; [left; left|left; by right|right]. auto.
Qed.

Lemma group_ip_mono name ip loc nics n :
  n ∈ nics → ∃ n', n' ∈ group_ip name ip loc nics ∧ nic_id n' = nic_id n ∧
    tn_if_name n' = tn_if_name n ∧ tn_pci n' = tn_pci n ∧ ∀ a, has_ip a n = true → has_ip a n' = true.
Proof.
  induction nics as [|m nics IH]; [set_solver|]. simpl. intros [->|Hin]%elem_of_cons.
  - destruct (same_nic name loc m); [|exists m; split; [left|done]].
    exists (add_ip ip m). split; [left|]. split; [apply add_ip_id|].
    assert (tn_if_name (add_ip ip m) = tn_if_name m ∧ tn_pci (add_ip ip m) = tn_pci m) as [-> ->]
      by (unfold add_ip; by destruct (existsb _ _)).
    do 2 (split; [done|]). intros a Ha. apply has_ip_add. by left.
  - destruct (same_nic name loc m); [exists n; split; [by right|done]|].
    destruct (IH Hin) as (n' & Hn' & Hr). exists n'. split; [by right|done].
Qed.
Lemma group_ip_found name ip loc nics :
  ∃ n, n ∈ group_ip name ip loc nics ∧ same_nic name loc n = true ∧ has_ip ip n = true.
Proof.
  induction nics as [|m nics IH]; simpl.
  - eexists. split; [left|]. unfold same_nic, has_ip. simpl. rewrite IpAddr_eqb_refl.
    destruct (bool_decide_reflect (endpoint_bdf loc = [])); simpl; by rewrite bool_decide_true.
  - destruct (same_nic name loc m) eqn:Es.
    + exists (add_ip ip m). split; [left|]. rewrite add_ip_same. split; [done|]. apply has_ip_add. by right.
    + destruct IH as (n & Hn & Hr). exists n. split; [by right|done].
Qed.
(** Nothing is added but the address, to the interface it belongs to. *)
Lemma group_ip_inv name ip loc nics n a :
  n ∈ group_ip name ip loc nics → a ∈ tn_ip_addrs n →
  (∃ m, m ∈ nics ∧ tn_if_name m = tn_if_name n ∧ tn_pci m = tn_pci n ∧ a ∈ tn_ip_addrs m) ∨
  (a = ip ∧ same_nic name loc n = true).
Proof.
  induction nics as [|m nics IH]; simpl.
  - intros ->%list_elem_of_singleton ->%list_elem_of_singleton. right. split; [done|]. unfold same_nic. simpl.
    destruct (bool_decide_reflect (endpoint_bdf loc = [])); simpl; by rewrite bool_decide_true.
  - destruct (same_nic name loc m) eqn:Es; intros [->|Hn]%elem_of_cons Ha.
    + rewrite add_ip_same. unfold add_ip in *. destruct (existsb _ _).
      * left. exists m. split; [left|done].
      * simpl in *. apply elem_of_app in Ha as [Ha| ->%list_elem_of_singleton]; [|by right].
        left. exists m. split; [left|done].
    + left. exists n. split; [by right|done].
    + left. exists m. split; [left|done].
    + destruct (IH Hn Ha) as [(m' & Hm & Hr)|Hr]; [left|by right]. exists m'. split; [by right|done].
Qed.
Lemma group_ip_pci name ip loc nics n :
  n ∈ group_ip name ip loc nics → tn_pci n = loc ∨ ∃ m, m ∈ nics ∧ tn_pci m = tn_pci n.
Proof.
  induction nics as [|m nics IH]; simpl.
  - intros ->%list_elem_of_singleton. by left.
  - destruct (same_nic name loc m); intros [->|Hn]%elem_of_cons.
    + right. exists m. split; [left|]. unfold add_ip. by destruct (existsb _ _).
    + right. exists n. split; [by right|done].
    + right. exists m. split; [left|done].
    + destruct (IH Hn) as [?|(m' & ? & ?)]; [by left|right]. exists m'. split; [by right|done].
Qed.

Section Grouping.
Context {Sys : Type} `{NicSystem Sys} `{Sysfs Sys} `{AbslText}.
Context (sys : Sys) (allow_loopback : bool) (rdma : list RdmaNic).
Abbreviation cand := (tcp_candidate sys allow_loopback rdma).
Definition group_step (nics : list TcpNic) (ifa : ifaddrs) : list TcpNic :=
  match cand ifa with None => nics | Some (if_name, ip, loc) => group_ip if_name ip loc nics end.

Record grouped (ifs : list ifaddrs) (nics : list TcpNic) : Prop := {
  gr_ids : NoDup (nic_id <$> nics);
  gr_found ifa name ip loc : ifa ∈ ifs → cand ifa = Some (name, ip, loc) →
    ∃ n, n ∈ nics ∧ same_nic name loc n = true ∧ has_ip ip n = true;
  gr_source n a : n ∈ nics → a ∈ tn_ip_addrs n →
    ∃ ifa name loc, ifa ∈ ifs ∧ cand ifa = Some (name, a, loc) ∧ same_nic name loc n = true;
  gr_pci n : n ∈ nics → ∃ ifa name ip, ifa ∈ ifs ∧ cand ifa = Some (name, ip, tn_pci n);
}.

Lemma grouped_step ifs nics ifa : grouped ifs nics → grouped (ifs ++ [ifa]) (group_step nics ifa).
Proof.
  intros [Hid Hf Hs Hp]. unfold group_step. destruct (cand ifa) as [[[name ip] loc]|] eqn:Ec.
  2:{ split; [done| | |].
      - intros ifa' n i l [Hin| ->%list_elem_of_singleton]%elem_of_app Hc; [eauto|congruence].
      - intros n a Hn Ha. destruct (Hs n a Hn Ha) as (x & y & z & ? & ?). exists x, y, z. set_solver.
      - intros n Hn. destruct (Hp n Hn) as (x & y & z & ? & ?). exists x, y, z. set_solver. }
  split.
  - by apply group_ip_ids.
  - intros ifa' n' i' l' [Hin| ->%list_elem_of_singleton]%elem_of_app Hc.
    + destruct (Hf _ _ _ _ Hin Hc) as (n & Hn & Hsame & Hip).
      destruct (group_ip_mono name ip loc nics n Hn) as (m & Hm & _ & En & Ep & Hips).
      exists m. split; [done|]. split; [|by apply Hips]. unfold same_nic in *. by rewrite En, Ep.
    + rewrite Hc in Ec. simplify_eq. apply group_ip_found.
  - intros n a Hn Ha. destruct (group_ip_inv _ _ _ _ _ _ Hn Ha) as [(m & Hm & En & Ep & Hin)|[-> Hsame]].
    + destruct (Hs m a Hm Hin) as (x & y & z & Hx & Hc & Hsame). exists x, y, z.
      split; [set_solver|]. split; [done|]. unfold same_nic in *. by rewrite <-En, <-Ep.
    + exists ifa, name, loc. set_solver.
  - intros n Hn. destruct (group_ip_pci _ _ _ _ _ Hn) as [->|(m & Hm & <-)].
    + exists ifa, name, ip. set_solver.
    + destruct (Hp m Hm) as (x & y & z & ? & ?). exists x, y, z. set_solver.
Qed.

Lemma DiscoverTcpNics_grouped ifs :
  getifaddrs sys = Some ifs → grouped ifs (DiscoverTcpNics sys allow_loopback rdma).
Proof.
  intros Hi. unfold DiscoverTcpNics. rewrite Hi. fold group_step.
  change (λ nics ifa, match cand ifa with None => nics | Some (n, i, l) => group_ip n i l nics end) with group_step.
  clear Hi. induction ifs as [|ifa ifs IH] using rev_ind.
  - split; simpl; [constructor|set_solver|set_solver|set_solver].
  - rewrite foldl_app. simpl. by apply grouped_step.
Qed.

(** An interface with a PCI device is not one of the RDMA interfaces. *)
Lemma cand_not_rdma ifa name ip loc r :
  cand ifa = Some (name, ip, loc) → r ∈ rdma → endpoint_bdf loc ≠ [] →
  endpoint_bdf (rn_pci r) ≠ endpoint_bdf loc ∧ rn_netdev_name r ≠ name.
Proof.
  unfold tcp_candidate. intros Hc Hr Hne. repeat (case_match; try done); simplify_eq.
  match goal with H : existsb _ _ = false |- _ => rename H into He end.
  rewrite <-not_true_iff_false, existsb_exists in He.
  split; intros Heq; apply He; exists r; (split; [by apply list_elem_of_In|]).
  - rewrite (bool_decide_false (endpoint_bdf loc = [])), (bool_decide_true (endpoint_bdf (rn_pci r) = _)) by done.
    apply orb_true_r.
  - by rewrite bool_decide_true.
Qed.
End Grouping.

(** C24: The TCP interfaces of the inventory are the usable ones of the system, grouped by device:
    no two entries stand for the same device, every usable address of every interface is in the
    entry of its device, every address comes from such an interface, and no entry shares its
    device with an RDMA interface. *)
Theorem DiscoverTcpNics_exact {Sys} `{NicSystem Sys} `{Sysfs Sys} `{AbslText} (sys : Sys)
    (allow_loopback : bool) (rdma : list RdmaNic) (ifs : list ifaddrs) :
  getifaddrs sys = Some ifs →
  let nics := DiscoverTcpNics sys allow_loopback rdma in
  let usable := tcp_candidate sys allow_loopback rdma in
  NoDup (nic_id <$> nics) ∧
  (∀ ifa name ip loc, ifa ∈ ifs → usable ifa = Some (name, ip, loc) →
     ∃ n, n ∈ nics ∧ same_nic name loc n = true ∧ has_ip ip n = true) ∧
  (∀ n ip, n ∈ nics → ip ∈ tn_ip_addrs n →
     ∃ ifa name loc, ifa ∈ ifs ∧ usable ifa = Some (name, ip, loc) ∧ same_nic name loc n = true) ∧
  (∀ n r, n ∈ nics → r ∈ rdma → endpoint_bdf (tn_pci n) ≠ [] →
     endpoint_bdf (rn_pci r) ≠ endpoint_bdf (tn_pci n)).
Proof.
  intros Hi. destruct (DiscoverTcpNics_grouped sys allow_loopback rdma ifs Hi) as [Hids Hfound Hsource Hpci].
  split_and!; [done|done|done|]. intros n r Hn Hr Hne.
  destruct (Hpci n Hn) as (ifa & name & ip & _ & Hc). by eapply cand_not_rdma.
Qed.

(** * RDMA ports *)

Section Ports.
Context {Sys : Type} `{IbSystem Sys} (sys : Sys) (dev : str) (port : Z) (allow_loopback : bool).
Abbreviation usable := (usable_gid sys dev port allow_loopback).

(** With a candidate that is not IPv4, the search goes on for an IPv4 one only. *)
Lemma gid_loop_some n i b :
  gid_loop sys dev port allow_loopback n i (Some b) =
    match list_find (λ j, from_option (IsIPv4 ∘ snd) false (usable j) = true) (seqZ i (Z.of_nat n)) with
    | Some (_, j) => (λ e, (j, e)) <$> usable j
    | None => Some b
    end.
Proof.
  revert i. induction n as [|n IH]; intros i; [done|].
  rewrite Nat2Z.inj_succ, seqZ_cons by lia. rewrite Z.pred_succ. cbn [gid_loop list_find].
  destruct (usable i) as [e|] eqn:E.
  - rewrite bool_decide_true by (by eexists). simpl. destruct (IsIPv4 e.2) eqn:E4.
    + rewrite decide_True by done. simpl. by rewrite E.
    + rewrite decide_False by (simpl; congruence). rewrite IH. by destruct (list_find _ _) as [[]|].
  - rewrite decide_False by done. rewrite IH. by destruct (list_find _ _) as [[]|].
Qed.
End Ports.

(** The loop over the ports ends unless the device reports 255 of them: the counter then wraps
    around. *)
Lemma port_loop_ends {Sys} `{IbSystem Sys} (sys : Sys) allow_loopback dev loc cnt fuel p :
  0 ≤ cnt < 255 → 0 ≤ p ≤ cnt + 1 → cnt + 1 - p < Z.of_nat fuel →
  ∃ nics, port_loop fuel sys allow_loopback dev loc cnt p = Ok nics.
Proof.
  revert p. induction fuel as [|fuel IH]; intros p Hc Hp Hf; [lia|]. cbn [port_loop].
  destruct (Z.leb_spec p cnt); [|by eexists]. rewrite wrap_small by (unfold fits; lia).
  destruct (IH (p + 1)) as [nics ->]; [lia..|]. by eexists.
Qed.
Lemma port_loop_wraps {Sys} `{IbSystem Sys} (sys : Sys) allow_loopback dev loc fuel p :
  0 ≤ p ≤ 255 → port_loop fuel sys allow_loopback dev loc 255 p = Fault Blocked.
Proof.
  revert p. induction fuel as [|fuel IH]; intros p Hp; [done|]. cbn [port_loop].
  rewrite (proj2 (Z.leb_le p 255)), IH; [done| |lia].
  pose proof (wrap_fits 8 (p + 1) ltac:(lia)) as Hw. unfold fits in Hw. lia.
Qed.

(** * A host with a bonded pair of ports *)
Import Absl.
Module OneCard.
Definition card : PciLocation := mkPciLocation 0 (lit "pci0000:10") [] (lit "0000:11:00.0").
(** Two addresses on eth0, an alias on the same card, and the loopback interface. *)
Definition listed : list ifaddrs :=
  let up := 65 in
  [mkIfaddrs (Some (lit "lo")) (Some (sockaddr_in 0 [127; 0; 0; 1])) (up + IFF_LOOPBACK);
   mkIfaddrs (Some (lit "eth0")) (Some (sockaddr_in 0 [10; 0; 0; 1])) up;
   mkIfaddrs (Some (lit "eth0")) (Some (sockaddr_in 0 [10; 0; 0; 2])) up;
   mkIfaddrs (Some (lit "eth0.7")) (Some (sockaddr_in 0 [10; 0; 0; 1])) up;
   mkIfaddrs (Some (lit "tun0")) (Some (sockaddr_in 0 [10; 9; 0; 1])) (up + IFF_POINTOPOINT)].
#[export] Instance nic_system : NicSystem unit :=
  {| getifaddrs _ := Some listed; if_nametoindex _ _ := 1; path_exists _ _ := false; getnameinfo _ _ := None |}.
#[export] Instance sysfs : Sysfs unit :=
  {| sys_stat _ p := negb (bool_decide (BaseName p = lit "bridge"));
     sys_realpath _ p := Some (if decide (BaseName p = lit "subsystem") then lit "/sys/bus/pci"
                               else lit "/sys/devices/pci0000:10/0000:11:00.0");
     sys_read _ _ := Some (lit "0"); sys_readdir _ _ := None |}.
Definition nics : list TcpNic := DiscoverTcpNics () false [].
End OneCard.

Example one_entry_per_card :
  OneCard.nics = [mkTcpNic 0 OneCard.card (lit "eth0") [IPv4 [10; 0; 0; 1]; IPv4 [10; 0; 0; 2]]].
Proof. vm_compute. reflexivity. Qed.
Lemma DiscoverTcpNics_exact_witness :
  NoDup (nic_id <$> OneCard.nics) ∧ length OneCard.nics = 1%nat.
Proof.
  split; [|vm_compute; reflexivity].
  apply (DiscoverTcpNics_exact () false [] OneCard.listed). reflexivity.
Defined.

Definition two_cards : list TcpNic :=
  [mkTcpNic 0 (mkPciLocation 0 (lit "pci0000:20") [] (lit "0000:21:00.0")) (lit "eth0") [];
   mkTcpNic 0 OneCard.card (lit "eth1") []].
Lemma NicInventory_rails_witness :
  NicInventory_new two_cards [] = NicInventory_new (reverse two_cards) [] ∧
  tn_if_name <$> tcp_nics_ (NicInventory_new two_cards []) = [lit "eth1"; lit "eth0"].
Proof.
  split; [|vm_compute; reflexivity].
  apply (NicInventory_rails two_cards (reverse two_cards) [] []).
  - apply (bool_decide_unpack _). vm_compute. exact I.
  - constructor.
  - symmetry. apply reverse_Permutation.
  - reflexivity.
  - reflexivity.
  - reflexivity.
Defined.
