(* ===== verification/RdmaVerbs.v ===== *)
(** The RDMA library as the sources use it ([infiniband/verbs.h]): the calls are a class
    ([RdmaLib], and [Verbs] for memory regions), their documented meaning is a class of laws
    ([RdmaLaws]) on the table of objects that exist.  An object can be destroyed when nothing
    uses it; a queue pair moves between its states only with the attributes that the manual
    page of [ibv_modify_qp] requires. *)

From stdpp Require Import base tactics numbers gmap fin_maps sets list.
From S2P Require Import Prelude Codec Endpoint NicInventory.
Local Open Scope Z_scope.

(** * Data of the library *)

Record ibv_device_attr := mkDeviceAttr { max_cqe : Z; phys_port_cnt : Z }.
Definition ibv_device_attr_zero : ibv_device_attr := mkDeviceAttr 0 0.

Inductive ibv_qp_type : Type := IBV_QPT_RC | IBV_QPT_UC | IBV_QPT_UD.
Inductive ibv_mtu : Type := IBV_MTU_256 | IBV_MTU_512 | IBV_MTU_1024 | IBV_MTU_2048 | IBV_MTU_4096.
Inductive ibv_access : Type := IBV_ACCESS_LOCAL_WRITE | IBV_ACCESS_REMOTE_WRITE | IBV_ACCESS_REMOTE_READ | IBV_ACCESS_REMOTE_ATOMIC.
Inductive ibv_qp_state : Type := IBV_QPS_RESET | IBV_QPS_INIT | IBV_QPS_RTR | IBV_QPS_RTS | IBV_QPS_ERR.
Inductive ibv_qp_attr_mask : Type :=
  | IBV_QP_STATE | IBV_QP_PKEY_INDEX | IBV_QP_PORT | IBV_QP_ACCESS_FLAGS | IBV_QP_AV | IBV_QP_PATH_MTU
  | IBV_QP_DEST_QPN | IBV_QP_RQ_PSN | IBV_QP_MAX_DEST_RD_ATOMIC | IBV_QP_MIN_RNR_TIMER | IBV_QP_SQ_PSN
  | IBV_QP_TIMEOUT | IBV_QP_RETRY_CNT | IBV_QP_RNR_RETRY | IBV_QP_MAX_QP_RD_ATOMIC.
#[export] Instance ibv_qp_state_eq_dec : EqDecision ibv_qp_state.
Proof. solve_decision. Defined.
#[export] Instance ibv_qp_attr_mask_eq_dec : EqDecision ibv_qp_attr_mask.
Proof. solve_decision. Defined.

Record ibv_qp_init_attr := mkQpInitAttr {
  ia_qp_type : ibv_qp_type; ia_send_cq : Z; ia_recv_cq : Z;
  ia_max_send_wr : Z; ia_max_recv_wr : Z; ia_max_send_sge : Z; ia_max_recv_sge : Z; ia_sq_sig_all : Z;
}.
Record ibv_ah_attr := mkAhAttr {
  ah_is_global : Z; ah_port_num : Z; ah_sl : Z; ah_src_path_bits : Z;
  grh_dgid : bytes; grh_sgid_index : Z; grh_hop_limit : Z; grh_traffic_class : Z;
}.
Definition kZeroGid : bytes := replicate 16 0.
Definition ibv_ah_attr_zero : ibv_ah_attr := mkAhAttr 0 0 0 0 kZeroGid 0 0 0.
Record ibv_qp_attr := mkQpAttr {
  qa_qp_state : ibv_qp_state;
  qa_pkey_index : Z; qa_port_num : Z; qa_access_flags : list ibv_access;
  qa_path_mtu : ibv_mtu; qa_dest_qp_num : Z; qa_rq_psn : Z; qa_max_dest_rd_atomic : Z; qa_min_rnr_timer : Z;
  qa_ah_attr : ibv_ah_attr;
  qa_sq_psn : Z; qa_timeout : Z; qa_retry_cnt : Z; qa_rnr_retry : Z; qa_max_rd_atomic : Z;
}.

(** A handle of a memory region; [mr_id] stands for its address. *)
Record ibv_mr := mkMr { mr_id : Z; mr_lkey : Z; mr_rkey : Z }.

(** A work request [IBV_WR_RDMA_WRITE] with its one scatter entry, if any. *)
Record ibv_sge := mkSge { sge_addr : Z; sge_length : Z; sge_lkey : Z }.
Record ibv_send_wr := mkSendWr {
  wr_id : Z; wr_sg_list : list ibv_sge; wr_signaled : bool; wr_remote_addr : Z; wr_rkey : Z;
}.
(** What [ibv_poll_cq] reports for at most one entry. *)
Inductive poll_result : Type := PollError | PollEmpty | PollDone (success : bool).

(** * Operations *)

Class Verbs (V : Type) := {
  ibv_reg_mr : V → Z → Z → Z → Z → V * option ibv_mr;
  ibv_dereg_mr : V → ibv_mr → V * Z;
}.

(** Handles are addresses; a null result is [None].  A device list comes with its handle. *)
Class RdmaLib (V : Type) := {
  ibv_get_device_list : V → V * option (Z * list (option Z));
  ibv_free_device_list : V → Z → V;
  ibv_get_device_name : Z → option str;
  ibv_open_device : V → Z → V * option Z;
  ibv_close_device : V → Z → V * Z;
  context_device : V → Z → Z;                              (* ctx->device *)
  ibv_query_device : V → Z → option ibv_device_attr;
  ibv_query_port : V → Z → Z → option port_attr;
  ibv_query_gid_ex : V → Z → Z → Z → option gid_entry;
  ibv_query_gid : V → Z → Z → Z → option bytes;
  ibv_alloc_pd : V → Z → V * option Z;
  ibv_dealloc_pd : V → Z → V * Z;
  ibv_create_cq : V → Z → Z → V * option Z;
  ibv_destroy_cq : V → Z → V * Z;
  ibv_create_qp : V → Z → ibv_qp_init_attr → V * option Z;
  ibv_destroy_qp : V → Z → V * Z;
  ibv_modify_qp : V → Z → ibv_qp_attr → list ibv_qp_attr_mask → V * Z;
  ibv_qp_num : V → Z → Z;                                  (* qp->qp_num *)
  ibv_post_send : V → Z → ibv_send_wr → V * Z;
  ibv_poll_cq : V → Z → V * poll_result;
  net_readdir : V → str → option (list str);               (* opendir and readdir *)
}.

(** * Queue pairs of the device *)

Record hw_qp := mkHwQp { hq_pd : Z; hq_cq : Z; hq_num : Z; hq_state : ibv_qp_state; hq_attr : ibv_qp_attr }.

(** The attributes that a transition requires, for the type RC. *)
Definition required (from to : ibv_qp_state) : option (list ibv_qp_attr_mask) :=
  match from, to with
  | _, IBV_QPS_ERR | _, IBV_QPS_RESET => Some [IBV_QP_STATE]
  | IBV_QPS_RESET, IBV_QPS_INIT => Some [IBV_QP_STATE; IBV_QP_PKEY_INDEX; IBV_QP_PORT; IBV_QP_ACCESS_FLAGS]
  | IBV_QPS_INIT, IBV_QPS_RTR =>
      Some [IBV_QP_STATE; IBV_QP_AV; IBV_QP_PATH_MTU; IBV_QP_DEST_QPN; IBV_QP_RQ_PSN;
            IBV_QP_MAX_DEST_RD_ATOMIC; IBV_QP_MIN_RNR_TIMER]
  | IBV_QPS_RTR, IBV_QPS_RTS =>
      Some [IBV_QP_STATE; IBV_QP_SQ_PSN; IBV_QP_MAX_QP_RD_ATOMIC; IBV_QP_RETRY_CNT; IBV_QP_RNR_RETRY; IBV_QP_TIMEOUT]
  | _, _ => None
  end.

(** The attributes after a call: those of the mask are replaced. *)
Definition merge_attr (old new : ibv_qp_attr) (mask : list ibv_qp_attr_mask) : ibv_qp_attr :=
  let pick {A} (m : ibv_qp_attr_mask) (f : ibv_qp_attr → A) : A := if decide (m ∈ mask) then f new else f old in
  mkQpAttr (pick IBV_QP_STATE qa_qp_state) (pick IBV_QP_PKEY_INDEX qa_pkey_index) (pick IBV_QP_PORT qa_port_num)
    (pick IBV_QP_ACCESS_FLAGS qa_access_flags) (pick IBV_QP_PATH_MTU qa_path_mtu) (pick IBV_QP_DEST_QPN qa_dest_qp_num)
    (pick IBV_QP_RQ_PSN qa_rq_psn) (pick IBV_QP_MAX_DEST_RD_ATOMIC qa_max_dest_rd_atomic)
    (pick IBV_QP_MIN_RNR_TIMER qa_min_rnr_timer) (pick IBV_QP_AV qa_ah_attr) (pick IBV_QP_SQ_PSN qa_sq_psn)
    (pick IBV_QP_TIMEOUT qa_timeout) (pick IBV_QP_RETRY_CNT qa_retry_cnt) (pick IBV_QP_RNR_RETRY qa_rnr_retry)
    (pick IBV_QP_MAX_QP_RD_ATOMIC qa_max_rd_atomic).

Definition hw_modify (q : hw_qp) (attr : ibv_qp_attr) (mask : list ibv_qp_attr_mask) : option hw_qp :=
  match required (hq_state q) (qa_qp_state attr) with
  | Some need =>
      if forallb (λ m, bool_decide (m ∈ mask)) need
      then Some (mkHwQp (hq_pd q) (hq_cq q) (hq_num q) (qa_qp_state attr) (merge_attr (hq_attr q) attr mask))
      else None
  | None => None
  end.

(** * Objects and laws *)

Inductive obj : Type :=
  | OList                        (* a device list *)
  | OCtx (dev : Z)
  | OPd (ctx : Z)
  | OCq (ctx : Z)
  | OQp (q : hw_qp)
  | OMr (pd : Z).
(** What an object uses. *)
Definition deps (o : obj) : list Z :=
  match o with
  | OList | OCtx _ => []
  | OPd c | OCq c => [c]
  | OQp q => [hq_pd q; hq_cq q]
  | OMr pd => [pd]
  end.
Abbreviation table := (gmap Z obj).
Definition no_users (m : table) (h : Z) : Prop := ∀ h' o, m !! h' = Some o → h ∉ deps o.
(** Objects use contexts, protection domains and completion queues that exist. *)
Definition usable (o : obj) : bool := match o with OCtx _ | OPd _ | OCq _ => true | OList | OQp _ | OMr _ => false end.
Definition provides (m : table) (d : Z) : Prop := ∃ o, m !! d = Some o ∧ usable o = true.
Definition closed (m : table) : Prop := ∀ h o d, m !! h = Some o → d ∈ deps o → provides m d.

Section Specs.
Context {V : Type} (objs : V → table).
Definition alloc_spec (o : obj) (v : V) (r : V * option Z) : Prop :=
  match r with
  | (v', Some h) => h ≠ 0 ∧ objs v !! h = None ∧ objs v' = <[h := o]> (objs v)
  | (v', None) => objs v' = objs v
  end.
Definition free_spec (h : Z) (v : V) (r : V * Z) : Prop :=
  no_users (objs v) h → r.2 = 0 ∧ objs r.1 = delete h (objs v).
End Specs.

Class RdmaLaws (V : Type) `{RdmaLib V} `{Verbs V} := {
  objs : V → table;
  list_ok : ∀ v, alloc_spec objs OList v (let '(v', r) := ibv_get_device_list v in (v', fst <$> r));
  list_entries : ∀ v v' l devs, ibv_get_device_list v = (v', Some (l, devs)) → Some 0 ∉ devs;   (* null is None *)
  free_list_ok : ∀ v h, objs v !! h = Some OList → objs (ibv_free_device_list v h) = delete h (objs v);
  open_ok : ∀ v d, alloc_spec objs (OCtx d) v (ibv_open_device v d);
  close_ok : ∀ v h d, objs v !! h = Some (OCtx d) → free_spec objs h v (ibv_close_device v h);
  device_ok : ∀ v h d, objs v !! h = Some (OCtx d) → context_device v h = d;
  pd_ok : ∀ v c, alloc_spec objs (OPd c) v (ibv_alloc_pd v c);
  free_pd_ok : ∀ v h c, objs v !! h = Some (OPd c) → free_spec objs h v (ibv_dealloc_pd v h);
  cq_ok : ∀ v c n, alloc_spec objs (OCq c) v (ibv_create_cq v c n);
  free_cq_ok : ∀ v h c, objs v !! h = Some (OCq c) → free_spec objs h v (ibv_destroy_cq v h);
  qp_ok : ∀ v pd ia, ia_send_cq ia = ia_recv_cq ia → ∃ num a,
    alloc_spec objs (OQp (mkHwQp pd (ia_send_cq ia) num IBV_QPS_RESET a)) v (ibv_create_qp v pd ia);
  free_qp_ok : ∀ v h q, objs v !! h = Some (OQp q) →
    (ibv_destroy_qp v h).2 = 0 ∧ objs (ibv_destroy_qp v h).1 = delete h (objs v);
  qp_num_ok : ∀ v h q, objs v !! h = Some (OQp q) → ibv_qp_num v h = hq_num q;
  modify_ok : ∀ v h q a mask v' ret, objs v !! h = Some (OQp q) → ibv_modify_qp v h a mask = (v', ret) →
    (ret = 0 ∧ ∃ q', hw_modify q a mask = Some q' ∧ objs v' = <[h := OQp q']> (objs v)) ∨
    (ret ≠ 0 ∧ objs v' = objs v);
  gid_len : ∀ v c p i g, ibv_query_gid v c p i = Some g → length g = 16%nat;   (* union ibv_gid *)
  reg_ok : ∀ v pd a l f, alloc_spec objs (OMr pd) v (let '(v', r) := ibv_reg_mr v pd a l f in (v', mr_id <$> r));
  dereg_ok : ∀ v mr pd, objs v !! mr_id mr = Some (OMr pd) →
    (ibv_dereg_mr v mr).2 = 0 ∧ objs (ibv_dereg_mr v mr).1 = delete (mr_id mr) (objs v);
}.

(** * Lemmas on tables *)

Lemma provides_intro (m : table) d o : m !! d = Some o → usable o = true → provides m d.
Proof. by exists o. Qed.

Lemma closed_no_users m h : closed m → ¬ provides m h → no_users m h.
Proof. intros Hc Hn h' o Ho Hin. by apply Hn, (Hc h' o). Qed.

Lemma closed_insert m h o : closed m → m !! h = None → (∀ d, d ∈ deps o → provides m d) → closed (<[h := o]> m).
Proof.
  intros Hc Hn Hd h' o' d Hl Hin. assert (provides m d) as (x & Hx & Hu).
  { apply lookup_insert_Some in Hl as [[_ <-]|[_ Hl]]; [by apply Hd|by apply (Hc h' o')]. }
  exists x. split; [|done]. rewrite lookup_insert_ne; [done|]. congruence.
Qed.

Lemma closed_delete m h : closed m → no_users m h → closed (delete h m).
Proof.
  intros Hc Hn h' o d Hl Hin. apply lookup_delete_Some in Hl as [_ Hl]. destruct (Hc h' o d Hl Hin) as (x & Hx & Hu).
  exists x. split; [|done]. rewrite lookup_delete_ne; [done|]. intros <-. by apply (Hn h' o).
Qed.

(** Replacing an object by one that uses the same and can be used alike keeps closedness. *)
Lemma closed_update m h o o' : closed m → m !! h = Some o → deps o' = deps o → usable o' = usable o → closed (<[h := o']> m).
Proof.
  intros Hc Ho Hd Hus h' x d Hl Hin. assert (provides m d) as (y & Hy & Hu).
  { apply lookup_insert_Some in Hl as [[_ <-]|[_ Hl]]; [apply (Hc h o); [done|by rewrite <- Hd]|by apply (Hc h' x)]. }
  destruct (decide (d = h)) as [->|Hne]; [exists o'|exists y].
  - rewrite lookup_insert_eq. split; [done|]. congruence.
  - by rewrite lookup_insert_ne.
Qed.

Lemma no_users_insert m h h' o : no_users m h → h ∉ deps o → no_users (<[h' := o]> m) h.
Proof. intros Hn Ho x y [[_ <-]|[_ Hl]]%lookup_insert_Some; [done|by apply (Hn x)]. Qed.
Lemma no_users_delete m h h' : no_users m h → no_users (delete h' m) h.
Proof. intros Hn x y [_ Hl]%lookup_delete_Some. by apply (Hn x). Qed.

Lemma hw_modify_deps q a mask q' : hw_modify q a mask = Some q' → deps (OQp q') = deps (OQp q) ∧ hq_num q' = hq_num q ∧
  hq_state q' = qa_qp_state a ∧ hq_attr q' = merge_attr (hq_attr q) a mask.
Proof.
  unfold hw_modify. destruct (required _ _) as [need|]; [|done]. destruct (forallb _ need); [|done]. by intros [= <-].
Qed.
