(* ===== verification/RdmaSim.v ===== *)
(** A small RDMA library that satisfies [RdmaLaws]: two devices, consecutive handles, and a
    budget of allocations after which every further one fails.  Work requests complete in
    order while their queue pair is connected. *)

From Stdlib Require Import Ascii String.
From stdpp Require Import base tactics numbers gmap fin_maps sets list.
From S2P Require Import Prelude Codec IpAddr Endpoint NicInventory RdmaVerbs.
Local Open Scope Z_scope.

Record rdma_sim := mkSim { sm_next : Z; sm_table : table; sm_left : nat; sm_posted : list ibv_send_wr; sm_landed : list ibv_send_wr; sm_wait : nat }.
(** Only handles that were handed out count. *)
Definition sim_objs (s : rdma_sim) : table := filter (λ ho, 0 < ho.1 < sm_next s) (sm_table s).
Definition sim_alloc (s : rdma_sim) (o : obj) : rdma_sim * option Z :=
  match sm_left s with
  | O => (s, None)
  | S n => if 0 <? sm_next s then
             (mkSim (sm_next s + 1) (<[sm_next s := o]> (sim_objs s)) n (sm_posted s) (sm_landed s) (sm_wait s),
              Some (sm_next s))
           else (s, None)
  end.
Definition sim_set (s : rdma_sim) (m : table) : rdma_sim := mkSim (sm_next s) m (sm_left s) (sm_posted s) (sm_landed s) (sm_wait s).
Definition sim_free (s : rdma_sim) (h : Z) : rdma_sim * Z :=
  if bool_decide (map_Forall (λ _ o, h ∉ deps o) (sim_objs s)) then (sim_set s (delete h (sim_objs s)), 0) else (s, 16).
Definition sim_drop (s : rdma_sim) (h : Z) : rdma_sim := sim_set s (delete h (sim_objs s)).

Definition dev0 : Z := 101.
Definition dev1 : Z := 102.
Definition sim_device (s : rdma_sim) (ctx : Z) : Z := match sim_objs s !! ctx with Some (OCtx d) => d | _ => 0 end.
(** Three slots: a link-local RoCEv2 GID, another type, and an IPv4-mapped GID. *)
Definition sim_gid (dev i : Z) : gid_entry :=
  if i =? 0 then mkGidEntry ROCE_V2 (0xfe :: 0x80 :: replicate 13 0 ++ [1]) 1
  else if i =? 1 then mkGidEntry other_gid_type (replicate 15 0 ++ [1]) 1
  else mkGidEntry ROCE_V2 (replicate 10 0 ++ [255; 255; 10; 0; 0; dev - 100]) 1.
Definition sim_qp_attr : ibv_qp_attr :=
  mkQpAttr IBV_QPS_RESET 0 0 [] IBV_MTU_256 0 0 0 0 ibv_ah_attr_zero 0 0 0 0 0.

#[export] Instance sim_verbs : Verbs rdma_sim := {
  ibv_reg_mr s pd _ _ _ := let '(s', r) := sim_alloc s (OMr pd) in (s', (λ h, mkMr h h (h + 1000)) <$> r);
  ibv_dereg_mr s mr := (sim_drop s (mr_id mr), 0);
}.
#[export] Instance sim_lib : RdmaLib rdma_sim := {
  ibv_get_device_list s := let '(s', r) := sim_alloc s OList in (s', (λ l, (l, [Some dev0; None; Some dev1])) <$> r);
  ibv_free_device_list s l := sim_drop s l;
  ibv_get_device_name d := Some (list_ascii_of_string (if d =? dev0 then "mlx5_0" else "mlx5_1"));
  ibv_open_device s d := sim_alloc s (OCtx d);
  ibv_close_device s h := sim_free s h;
  context_device s h := sim_device s h;
  ibv_query_device s _ := Some (mkDeviceAttr 4096 1);
  ibv_query_port s _ _ := Some (mkPortAttr true 3);
  ibv_query_gid_ex s c _ i := Some (sim_gid (sim_device s c) i);
  ibv_query_gid s c _ i := Some (ge_gid (sim_gid (sim_device s c) i));
  ibv_alloc_pd s c := sim_alloc s (OPd c);
  ibv_dealloc_pd s h := sim_free s h;
  ibv_create_cq s c _ := sim_alloc s (OCq c);
  ibv_destroy_cq s h := sim_free s h;
  ibv_create_qp s pd ia := sim_alloc s (OQp (mkHwQp pd (ia_send_cq ia) (sm_next s + 16) IBV_QPS_RESET sim_qp_attr));
  ibv_destroy_qp s h := (sim_drop s h, 0);
  ibv_modify_qp s h a mask :=
    match sim_objs s !! h with
    | Some (OQp q) => match hw_modify q a mask with Some q' => (sim_set s (<[h := OQp q']> (sim_objs s)), 0) | None => (s, 22) end
    | _ => (s, 22)
    end;
  ibv_qp_num s h := match sim_objs s !! h with Some (OQp q) => hq_num q | _ => 0 end;
  ibv_post_send s h wr :=
    match sim_objs s !! h with
    | Some (OQp q) => if bool_decide (hq_state q = IBV_QPS_RTS)
                      then (mkSim (sm_next s) (sm_table s) (sm_left s) (sm_posted s ++ [wr]) (sm_landed s) 1, 0) else (s, 22)
    | _ => (s, 22)
    end;
  ibv_poll_cq s _ :=
    match sm_posted s, sm_wait s with
    | [], _ => (s, PollEmpty)
    | wr :: wrs, O => (mkSim (sm_next s) (sm_table s) (sm_left s) wrs (sm_landed s ++ [wr]) 1, PollDone true)
    | _, S n => (mkSim (sm_next s) (sm_table s) (sm_left s) (sm_posted s) (sm_landed s) n, PollEmpty)
    end;
  net_readdir _ _ := None;
}.

Lemma sim_objs_some s h o : sim_objs s !! h = Some o → 0 < h < sm_next s.
Proof. by intros [_ ?]%map_lookup_filter_Some. Qed.
Lemma sim_objs_sub s m : (∀ h o, m !! h = Some o → 0 < h < sm_next s) → sim_objs (sim_set s m) = m.
Proof. intros Hm. apply map_filter_id. intros h o Hh. by apply (Hm h o). Qed.
Lemma sim_delete_objs s h : sim_objs (sim_drop s h) = delete h (sim_objs s).
Proof. apply sim_objs_sub. intros h' o [_ Hh]%lookup_delete_Some. by apply sim_objs_some in Hh. Qed.
Lemma sim_alloc_ok s o : alloc_spec sim_objs o s (sim_alloc s o).
Proof.
  unfold sim_alloc. destruct (sm_left s) as [|n]; [done|]. destruct (Z.ltb_spec 0 (sm_next s)); [|done]. split_and!; [lia| |].
  - destruct (sim_objs s !! sm_next s) eqn:E; [|done]. apply sim_objs_some in E. lia.
  - apply map_filter_id. intros h x Hx. cbn. apply lookup_insert_Some in Hx as [[<- _]|[_ Hh%sim_objs_some]]; lia.
Qed.
Lemma sim_free_ok s h : free_spec sim_objs h s (sim_free s h).
Proof.
  intros Hu. unfold sim_free. rewrite bool_decide_eq_true_2; [split; [done|apply sim_delete_objs]|].
  intros x o Hx. by apply (Hu x).
Qed.

#[export, program] Instance sim_laws : RdmaLaws rdma_sim := { objs := sim_objs }.
Next Obligation. intros s. cbn. pose proof (sim_alloc_ok s OList) as A. destruct (sim_alloc s OList) as [s' [h|]]; exact A. Qed.
Next Obligation.
  intros s s' l devs. cbn. destruct (sim_alloc s OList) as [s1 [h|]]; cbn; intros [= _ _ <-]. rewrite !not_elem_of_cons. set_solver.
Qed.
Next Obligation. intros. apply sim_delete_objs. Qed.
Next Obligation. intros. apply sim_alloc_ok. Qed.
Next Obligation. intros. apply sim_free_ok. Qed.
Next Obligation. intros s h d E. cbn. unfold sim_device. by rewrite E. Qed.
Next Obligation. intros. apply sim_alloc_ok. Qed.
Next Obligation. intros. apply sim_free_ok. Qed.
Next Obligation. intros. apply sim_alloc_ok. Qed.
Next Obligation. intros. apply sim_free_ok. Qed.
Next Obligation. intros s pd ia E. eexists _, _. apply sim_alloc_ok. Qed.
Next Obligation. intros s h q E. split; [done|apply sim_delete_objs]. Qed.
Next Obligation. intros s h q E. cbn. by rewrite E. Qed.
Next Obligation.
  intros s h q a mask s' ret E. cbn. rewrite E. destruct (hw_modify q a mask) as [q'|] eqn:Eq; intros [= <- <-].
  - left. split; [done|]. exists q'. split; [done|]. apply sim_objs_sub.
    intros x o [[<- _]|[_ Hx]]%lookup_insert_Some; [by apply sim_objs_some in E|by apply sim_objs_some in Hx].
  - by right.
Qed.
Next Obligation.
  intros s c pt i g [= <-]. unfold sim_gid. by destruct (i =? 0), (i =? 1).
Qed.
Next Obligation.
  intros s pd a l f. cbn. pose proof (sim_alloc_ok s (OMr pd)) as A. destruct (sim_alloc s (OMr pd)) as [s' [h|]]; exact A.
Qed.
Next Obligation. intros s mr pd E. split; [done|apply sim_delete_objs]. Qed.

Definition sim_new (n : nat) : rdma_sim := mkSim 1 ∅ n [] [] 0.
Lemma sim_new_closed n : closed (objs (sim_new n)).
Proof. intros h o d [? ?]%map_lookup_filter_Some. done. Qed.
