(* ===== verification/RdmaContext.v ===== *)
(** Opened RDMA adapters: [internal/rdma/rdma_context] and [internal/rdma/rdma_device].  The
    texts of log messages are left out. *)

From Stdlib Require Import Ascii String.
From stdpp Require Import base tactics numbers gmap fin_maps sets list.
From S2P Require Import Prelude Codec IpAddr Endpoint Types Nic NicInventory RdmaVerbs RdmaSim.
Local Open Scope Z_scope.

(** * [RdmaContext] *)

(** Null handles are 0. *)
Record RdmaContext := mkRdmaContext {
  cx_name : str; cx_ctx : Z; cx_pd : Z; cx_cq : Z; cx_gid_index : Z; cx_local_gid : bytes; cx_attr : ibv_device_attr;
}.
Definition kDefaultPort : Z := 1.
Definition kDefaultCqeSize : Z := 1024.
Definition unknown : str := list_ascii_of_string "unknown".

Section Context_.
Context {V : Type} `{RdmaLib V}.

(** [getDeviceName] of a device and of a context that is not null. *)
Definition getDeviceName (dev : Z) : str := default unknown (ibv_get_device_name dev).
Definition getContextName (v : V) (ctx : Z) : str := getDeviceName (context_device v ctx).

(** A failure is only logged and leaves the attributes zero. *)
Definition queryDevice (v : V) (ctx : Z) : ibv_device_attr := default ibv_device_attr_zero (ibv_query_device v ctx).

Definition createCq (v : V) (ctx : Z) (attr : ibv_device_attr) : V * option Z :=
  ibv_create_cq v ctx (if 0 <? max_cqe attr then max_cqe attr else kDefaultCqeSize).

(** The two kinds of slot that are looked for. *)
Definition gid_v4mapped (e : gid_entry) : bool :=
  match ge_type e with ROCE_V2 => IN6_IS_ADDR_V4MAPPED (ge_gid e) | other_gid_type => false end.
Definition gid_global (e : gid_entry) : bool :=
  match ge_type e with
  | ROCE_V2 => negb (IN6_IS_ADDR_LINKLOCAL (ge_gid e)) && negb (IN6_IS_ADDR_LOOPBACK (ge_gid e)) &&
               negb (IN6_IS_ADDR_MULTICAST (ge_gid e))
  | other_gid_type => false
  end.

(** The loop of [findRoutableGid] from slot [i] on. *)
Fixpoint gid_scan (v : V) (ctx port_num : Z) (n : nat) (i fallback_ipv6_idx : Z) : Z :=
  match n with
  | O => if negb (fallback_ipv6_idx =? -1) then fallback_ipv6_idx else 0
  | S n =>
      match ibv_query_gid_ex v ctx port_num i with
      | None => gid_scan v ctx port_num n (i + 1) fallback_ipv6_idx
      | Some entry =>
          if gid_v4mapped entry then i
          else if gid_global entry && (fallback_ipv6_idx =? -1) then gid_scan v ctx port_num n (i + 1) i
          else gid_scan v ctx port_num n (i + 1) fallback_ipv6_idx
      end
  end.

Definition findRoutableGid (v : V) (ctx port_num : Z) : Z :=
  match ibv_query_port v ctx port_num with
  | None => 0
  | Some port_attr => gid_scan v ctx port_num (Z.to_nat (pa_gid_tbl_len port_attr)) 0 (-1)
  end.

(** The constructor. *)
Definition RdmaContext_new (v : V) (ctx pd cq gid_index : Z) (local_gid : bytes) (attr : ibv_device_attr) : res RdmaContext :=
  do* dcheck (negb (ctx =? 0));
  do* dcheck (negb (pd =? 0));
  do* dcheck (negb (cq =? 0));
  Ok (mkRdmaContext (getContextName v ctx) ctx pd cq gid_index local_gid attr).

(** Failures to destroy are only logged. *)
Definition RdmaContext_destroy (v : V) (c : RdmaContext) : V :=
  let v := if negb (cx_cq c =? 0) then (ibv_destroy_cq v (cx_cq c)).1 else v in
  let v := if negb (cx_pd c =? 0) then (ibv_dealloc_pd v (cx_pd c)).1 else v in
  if negb (cx_ctx c =? 0) then (ibv_close_device v (cx_ctx c)).1 else v.

(** [checkPortStates] only logs and has no part here. *)
Definition RdmaContext_Create (v : V) (device : Z) : res (V * option RdmaContext) :=
  do* dcheck (negb (device =? 0));
  match ibv_open_device v device with
  | (v, None) => Ok (v, None)
  | (v, Some context) =>
      let attr := queryDevice v context in
      match ibv_alloc_pd v context with
      | (v, None) => Ok ((ibv_close_device v context).1, None)
      | (v, Some pd) =>
          match createCq v context attr with
          | (v, None) =>
              let v := (ibv_dealloc_pd v pd).1 in
              Ok ((ibv_close_device v context).1, None)
          | (v, Some cq) =>
              let gid_index := findRoutableGid v context kDefaultPort in
              match ibv_query_gid v context kDefaultPort gid_index with
              | None =>
                  let v := (ibv_destroy_cq v cq).1 in
                  let v := (ibv_dealloc_pd v pd).1 in
                  Ok ((ibv_close_device v context).1, None)
              | Some local_gid =>
                  let* c := RdmaContext_new v context pd cq gid_index local_gid attr in
                  Ok (v, Some c)
              end
          end
      end
  end.

(** * [RdmaDevice] *)

Record RdmaDevice := mkRdmaDevice { dv_ctxs : list RdmaContext; dv_ctx_map : gmap str RdmaContext }.

(** [absl::StrContainsIgnoreCase]. *)
Fixpoint is_prefix (p s : str) : bool :=
  match p, s with
  | [], _ => true
  | a :: p, b :: s => bool_decide (a = b) && is_prefix p s
  | _ :: _, [] => false
  end.
Fixpoint contains (s p : str) : bool :=
  is_prefix p s || match s with [] => false | _ :: s => contains s p end.
Definition StrContainsIgnoreCase (s p : str) : bool := contains (ascii_tolower <$> s) (ascii_tolower <$> p).

(** The loop over the directory: the values of [all_dontuse] and [has_entries] after it. *)
Fixpoint dontuse_loop (entries : list str) (has_entries : bool) : bool * bool :=
  match entries with
  | [] => (true, has_entries)
  | name :: entries =>
      if bool_decide (head name = Some "."%char) then dontuse_loop entries has_entries
      else if negb (StrContainsIgnoreCase name (list_ascii_of_string "dontuse")) then (false, true)
      else dontuse_loop entries true
  end.
Definition ShouldIgnoreDevice (v : V) (dev_name : str) : bool :=
  if bool_decide (dev_name = []) then false
  else
    let net_dir := list_ascii_of_string "/sys/class/infiniband/" ++ dev_name ++ list_ascii_of_string "/device/net" in
    match net_readdir v net_dir with
    | None => false
    | Some entries => let '(all_dontuse, has_entries) := dontuse_loop entries false in has_entries && all_dontuse
    end.

(** [getDeviceList]: a list without devices is freed. *)
Definition getDeviceList (v : V) : V * option (Z * list (option Z)) :=
  match ibv_get_device_list v with
  | (v, None) => (v, None)
  | (v, Some (l, [])) => (ibv_free_device_list v l, None)
  | (v, Some (l, devs)) => (v, Some (l, devs))
  end.

Definition GetContext (d : RdmaDevice) (name : str) : option RdmaContext := dv_ctx_map d !! name.

(** The loop of [RdmaDevice::Create] over the list. *)
Fixpoint open_loop (v : V) (devs : list (option Z)) (devices : list RdmaContext) (device_map : gmap str RdmaContext)
    : res (V * list RdmaContext * gmap str RdmaContext) :=
  match devs with
  | [] => Ok (v, devices, device_map)
  | None :: devs => open_loop v devs devices device_map
  | Some dev :: devs =>
      match ibv_get_device_name dev with
      | None => open_loop v devs devices device_map
      | Some dev_name =>
          if ShouldIgnoreDevice v dev_name then open_loop v devs devices device_map
          else
            let* '(v, dev_ctx) := RdmaContext_Create v dev in
            match dev_ctx with
            | None => open_loop v devs devices device_map
            | Some c => open_loop v devs (devices ++ [c]) (<[cx_name c := c]> device_map)
            end
      end
  end.

Definition RdmaDevice_Create (v : V) : res (V * StatusOr RdmaDevice) :=
  match getDeviceList v with
  | (v, None) => Ok (v, inr NotFound)
  | (v, Some (device_list, devs)) =>
      let* '(v, devices, device_map) := open_loop v devs [] ∅ in
      let v := ibv_free_device_list v device_list in
      if bool_decide (devices = []) then Ok (v, inr NotFound)
      else Ok (v, inl (mkRdmaDevice devices device_map))
  end.

(** The destructor destroys the contexts. *)
Definition RdmaDevice_destroy (v : V) (d : RdmaDevice) : V := foldl RdmaContext_destroy v (dv_ctxs d).
End Context_.

(** * Lemmas *)

(** The entry at a slot, if there is one, satisfies [P]. *)
Definition slot {V} `{RdmaLib V} (v : V) (ctx port : Z) (P : gid_entry → bool) (i : Z) : bool :=
  match ibv_query_gid_ex v ctx port i with Some e => P e | None => false end.

Lemma gid_scan_spec {V} `{RdmaLib V} (v : V) ctx port n : ∀ i fb, 0 ≤ i →
  gid_scan v ctx port n i fb =
    match find (slot v ctx port gid_v4mapped) (seqZ i (Z.of_nat n)) with
    | Some j => j
    | None => if negb (fb =? -1) then fb else default 0 (find (slot v ctx port gid_global) (seqZ i (Z.of_nat n)))
    end.
Proof.
  induction n as [|n IH]; intros i fb Hi; cbn [gid_scan].
  - by rewrite seqZ_nil.
  - rewrite seqZ_cons by lia. replace (Z.succ i) with (i + 1) by lia. replace (Z.pred (Z.of_nat (S n))) with (Z.of_nat n) by lia.
    cbn [find]. unfold slot at 1 3. destruct (ibv_query_gid_ex v ctx port i) as [e|]; [|by apply IH; lia].
    destruct (gid_v4mapped e); [done|]. destruct (gid_global e); cbn [andb]; [|by apply IH; lia].
    destruct (Z.eqb_spec fb (-1)) as [->|Hfb]; cbn [negb].
    + rewrite IH by lia. rewrite (proj2 (Z.eqb_neq i (-1))) by lia. done.
    + rewrite IH by lia. by rewrite (proj2 (Z.eqb_neq fb (-1))).
Qed.

Section Lemmas.
Context {V : Type} `{L : RdmaLaws V}.

(** ** Adding and removing objects *)

(** [hs] are new handles, and nothing else changed. *)
Record adds (v : V) (hs : list Z) (v' : V) : Prop := {
  ad_nodup : NoDup hs;
  ad_new : ∀ h, h ∈ hs → h ≠ 0 ∧ objs v !! h = None;
  ad_frame : ∀ h, h ∉ hs → objs v' !! h = objs v !! h;
  ad_closed : closed (objs v');
}.
(** The handles [hs] are gone, and nothing else changed. *)
Definition removes (v : V) (hs : list Z) (v' : V) : Prop :=
  ∀ h, objs v' !! h = if decide (h ∈ hs) then None else objs v !! h.

Lemma adds_nil v v' : closed (objs v) → objs v' = objs v → adds v [] v'.
Proof. intros Hc E. split; [constructor|by intros h ?%elem_of_nil|by rewrite E|by rewrite E]. Qed.
Lemma adds_trans v1 hs v2 hs' v3 : adds v1 hs v2 → adds v2 hs' v3 → (∀ h, h ∈ hs → is_Some (objs v2 !! h)) →
  adds v1 (hs' ++ hs) v3.
Proof.
  intros [N1 A1 F1 C1] [N2 A2 F2 C2] Hl. split; [apply NoDup_app; split_and!| | |]; try done.
  - intros h Hh Hh'. destruct (A2 h Hh) as [_ Hn], (Hl h Hh'). congruence.
  - intros h [Hh|Hh]%elem_of_app; [|by apply A1]. destruct (A2 h Hh) as [Hz Hn]. split; [done|].
    destruct (decide (h ∈ hs)) as [Hin|Hnin]; [by apply A1|]. by rewrite <- F1.
  - intros h Hh. rewrite elem_of_app in Hh. rewrite F2, F1; [done|tauto..].
Qed.
Lemma removes_trans v1 hs v2 hs' v3 : removes v1 hs v2 → removes v2 hs' v3 → removes v1 (hs ++ hs') v3.
Proof.
  intros R1 R2 h. rewrite R2, R1. destruct (decide (h ∈ hs')), (decide (h ∈ hs)), (decide (h ∈ hs ++ hs')) as [Hx|Hx];
    rewrite elem_of_app in Hx; tauto.
Qed.
Lemma adds_removes v hs v' v'' : adds v hs v' → removes v' hs v'' → objs v'' = objs v.
Proof.
  intros [_ A F _] R. apply map_eq. intros h. rewrite R. destruct (decide (h ∈ hs)) as [Hin|Hnin]; [|by apply F].
  symmetry. by apply A.
Qed.
Lemma removes_delete v h v' : objs v' = delete h (objs v) → removes v [h] v'.
Proof.
  intros E x. rewrite E. destruct (decide (x ∈ [h])) as [->%list_elem_of_singleton|Hx]; [apply lookup_delete_eq|].
  apply lookup_delete_ne. intros ->. apply Hx. by apply list_elem_of_singleton.
Qed.

(** One allocation. *)
Lemma alloc_adds o v v' h : alloc_spec objs o v (v', Some h) → closed (objs v) → (∀ d, d ∈ deps o → provides (objs v) d) →
  adds v [h] v' ∧ objs v' !! h = Some o.
Proof.
  intros (Hz & Hn & E) Hc Hd. split; [split|by rewrite E, lookup_insert_eq].
  - apply NoDup_singleton.
  - intros x ->%list_elem_of_singleton. done.
  - intros x Hx. rewrite E. apply lookup_insert_ne. intros ->. apply Hx. by apply list_elem_of_singleton.
  - rewrite E. by apply closed_insert.
Qed.

(** ** Contexts *)

Definition cx_handles (c : RdmaContext) : list Z := [cx_cq c; cx_pd c; cx_ctx c].
Record opened (v : V) (c : RdmaContext) : Prop := {
  op_ctx : ∃ d, objs v !! cx_ctx c = Some (OCtx d) ∧ cx_name c = getDeviceName d;
  op_pd : objs v !! cx_pd c = Some (OPd (cx_ctx c));
  op_cq : objs v !! cx_cq c = Some (OCq (cx_ctx c));
  op_nz : 0 ∉ cx_handles c;
  op_gid : length (cx_local_gid c) = 16%nat;
}.
(** Nothing uses the objects of the context, but each other. *)
Definition idle (v : V) (c : RdmaContext) : Prop := ∀ h o d, objs v !! h = Some o → d ∈ deps o → d ∈ cx_handles c →
  (h = cx_cq c ∨ h = cx_pd c) ∧ d = cx_ctx c.

Lemma opened_frame v v' c : (∀ h, h ∈ cx_handles c → objs v' !! h = objs v !! h) → opened v c → opened v' c.
Proof. intros F [(d & E & Hn) E2 E3 Hz Hg]. split; [exists d; split; [|done]|..|done|done]; rewrite F; try done; set_solver. Qed.

Lemma opened_distinct v c : opened v c → NoDup (cx_handles c).
Proof.
  intros [(d & E1 & _) E2 E3 _ _]. repeat (apply NoDup_cons; split); [..|constructor]; rewrite ?elem_of_cons, ?elem_of_nil;
    intros Hx; repeat destruct Hx as [Hx|Hx]; try done; congruence.
Qed.

Lemma RdmaContext_destroy_ok v c : opened v c → idle v c → removes v (cx_handles c) (RdmaContext_destroy v c).
Proof.
  intros Ho Hi. pose proof (opened_distinct v c Ho) as Hd. destruct Ho as [(d & E1 & _) E2 E3 Hz _].
  unfold cx_handles in Hz, Hd. rewrite !not_elem_of_cons in Hz. destruct Hz as (Hz1 & Hz2 & Hz3 & _).
  rewrite !NoDup_cons, !not_elem_of_cons in Hd. destruct Hd as ((Hn1 & Hn2 & _) & (Hn3 & _) & _).
  unfold RdmaContext_destroy. rewrite !(proj2 (Z.eqb_neq _ _)) by done. cbn [negb].
  assert (no_users (objs v) (cx_cq c)) as U1.
  { intros h o Hh Hin. destruct (Hi h o _ Hh Hin) as [_ ?]; [by left|done]. }
  destruct (free_cq_ok v _ _ E3 U1) as [_ D1]. set (v1 := (ibv_destroy_cq v (cx_cq c)).1) in *.
  assert (no_users (objs v1) (cx_pd c)) as U2.
  { rewrite D1. apply no_users_delete. intros h o Hh Hin. destruct (Hi h o _ Hh Hin) as [_ ?]; [by right; left|done]. }
  assert (objs v1 !! cx_pd c = Some (OPd (cx_ctx c))) as E2' by (rewrite D1; by rewrite lookup_delete_ne).
  destruct (free_pd_ok v1 _ _ E2' U2) as [_ D2]. set (v2 := (ibv_dealloc_pd v1 (cx_pd c)).1) in *.
  assert (no_users (objs v2) (cx_ctx c)) as U3.
  { rewrite D2, D1. intros h o [Hh1 [Hh2 Hh]%lookup_delete_Some]%lookup_delete_Some Hin.
    destruct (Hi h o _ Hh Hin) as [[?|?] _]; [by right; right; left|done..]. }
  assert (objs v2 !! cx_ctx c = Some (OCtx d)) as E1' by (rewrite D2, lookup_delete_ne, D1, lookup_delete_ne by done; done).
  destruct (close_ok v2 _ _ E1' U3) as [_ D3].
  apply (removes_trans v [cx_cq c] v1); [by apply removes_delete|].
  apply (removes_trans v1 [cx_pd c] v2); [by apply removes_delete|]. by apply removes_delete.
Qed.

(** Freeing one object that nothing uses. *)
Lemma unalloc v h v' r : adds v [h] v' → closed (objs v) → free_spec objs h v' r → no_users (objs v') h → objs r.1 = objs v.
Proof. intros A Hc F U. destruct (F U) as [_ E]. by apply (adds_removes v [h] v'), removes_delete. Qed.

Lemma adds_no_users v h v' o : adds v [h] v' → closed (objs v) → objs v' !! h = Some o → h ∉ deps o → no_users (objs v') h.
Proof.
  intros A Hc E Hd x y Hx Hin. destruct (decide (x = h)) as [->|Hne]; [congruence|].
  rewrite (ad_frame _ _ _ A) in Hx by (by intros ?%list_elem_of_singleton). destruct (Hc x y h Hx Hin) as (? & Hs & _).
  destruct (ad_new _ _ _ A h) as [_ Hn]; [by apply list_elem_of_singleton|]. congruence.
Qed.

(** A new object can be freed again at once. *)
Lemma alloc_free o v v' h r : alloc_spec objs o v (v', Some h) → closed (objs v) → (∀ d, d ∈ deps o → provides (objs v) d) →
  free_spec objs h v' r → objs r.1 = objs v.
Proof.
  intros A Hc Hd F. destruct (alloc_adds o v v' h A Hc Hd) as [Ha E]. apply (unalloc v h v'); [done..|].
  apply (adds_no_users v h v' o); [done..|]. intros Hin. destruct A as (_ & Hn & _). destruct (Hd h Hin) as (? & ? & _). congruence.
Qed.

(** [r] opened [dev] as [c], or changed nothing. *)
Definition create_spec (v : V) (dev : Z) (r : V * option RdmaContext) : Prop :=
  match r with
  | (v', None) => objs v' = objs v
  | (v', Some c) => adds v (cx_handles c) v' ∧ opened v' c ∧ cx_name c = getDeviceName dev ∧
      (∃ v1, cx_gid_index c = findRoutableGid v1 (cx_ctx c) kDefaultPort ∧
             ibv_query_gid v1 (cx_ctx c) kDefaultPort (cx_gid_index c) = Some (cx_local_gid c)) ∧
      objs v' = <[cx_cq c := OCq (cx_ctx c)]> (<[cx_pd c := OPd (cx_ctx c)]> (<[cx_ctx c := OCtx dev]> (objs v)))
  end.

(** The three objects of a context, one after the other. *)
Lemma three_allocs v dev v1 ctx v2 pd v3 cq : closed (objs v) → alloc_spec objs (OCtx dev) v (v1, Some ctx) →
  alloc_spec objs (OPd ctx) v1 (v2, Some pd) → alloc_spec objs (OCq ctx) v2 (v3, Some cq) →
  adds v [cq; pd; ctx] v3 ∧ objs v3 !! ctx = Some (OCtx dev) ∧ objs v3 !! pd = Some (OPd ctx) ∧ objs v3 !! cq = Some (OCq ctx) ∧
  (0 ∉ [cq; pd; ctx]) ∧ objs v3 = <[cq := OCq ctx]> (<[pd := OPd ctx]> (<[ctx := OCtx dev]> (objs v))).
Proof.
  intros Hc A1 A2 A3. destruct (alloc_adds _ _ _ _ A1 Hc) as [Ad1 E1]; [by intros d ?%elem_of_nil|].
  destruct (alloc_adds _ _ _ _ A2 (ad_closed _ _ _ Ad1)) as [Ad2 E2]; [intros d ->%list_elem_of_singleton; by eapply provides_intro|].
  destruct A1 as (Z1 & N1 & O1), A2 as (Z2 & N2 & O2).
  assert (ctx ≠ pd) as Hne by (intros ->; congruence).
  assert (objs v2 !! ctx = Some (OCtx dev)) as E1' by (rewrite O2, lookup_insert_ne; done).
  destruct (alloc_adds _ _ _ _ A3 (ad_closed _ _ _ Ad2)) as [Ad3 E3]; [intros d ->%list_elem_of_singleton; by eapply provides_intro|].
  destruct A3 as (Z3 & N3 & O3).
  assert (ctx ≠ cq ∧ pd ≠ cq) as [Hne1 Hne2] by (split; intros ->; congruence).
  assert (adds v [pd; ctx] v2) as Ad12.
  { apply (adds_trans v [ctx] v1 [pd] v2 Ad1 Ad2). intros h ->%list_elem_of_singleton. eauto. }
  split_and!.
  - apply (adds_trans v [pd; ctx] v2 [cq] v3 Ad12 Ad3). intros h Hh. apply elem_of_cons in Hh as [->|Hh]; [eauto|]. apply list_elem_of_singleton in Hh as ->. eauto.
  - by rewrite O3, lookup_insert_ne.
  - by rewrite O3, lookup_insert_ne.
  - done.
  - rewrite !not_elem_of_cons. split_and!; try done. by intros ?%elem_of_nil.
  - by rewrite O3, O2, O1.
Qed.

Lemma RdmaContext_Create_ok v dev : closed (objs v) → dev ≠ 0 →
  ∃ r, RdmaContext_Create v dev = Ok r ∧ create_spec v dev r.
Proof.
  intros Hc Hdev. unfold RdmaContext_Create. rewrite bind_dcheck by by apply negb_true_iff, Z.eqb_neq.
  pose proof (open_ok v dev) as A1. destruct (ibv_open_device v dev) as [v1 [ctx|]]; [|by eexists].
  destruct (alloc_adds _ _ _ _ A1 Hc) as [Ad1 E1]; [by intros d ?%elem_of_nil|].
  pose proof (ad_closed _ _ _ Ad1) as Hc1.
  pose proof (alloc_free _ _ _ _ (ibv_close_device v1 ctx) A1 Hc ltac:(by intros d ?%elem_of_nil) (close_ok v1 ctx dev E1)) as R1.
  assert (∀ v2, objs v2 = objs v1 → objs (ibv_close_device v2 ctx).1 = objs v) as Close.
  { intros v2 E. assert (objs v2 !! ctx = Some (OCtx dev)) as E' by by rewrite E.
    apply (unalloc v ctx v2); [|done|by eapply close_ok|rewrite E; by apply (adds_no_users v ctx v1 (OCtx dev)); [..|intros ?%elem_of_nil]].
    destruct Ad1 as [X1 X2 X3 X4]. split; [done|done|by rewrite E|by rewrite E]. }
  pose proof (pd_ok v1 ctx) as A2. destruct (ibv_alloc_pd v1 ctx) as [v2 [pd|]]; [|eexists; split; [done|by apply Close]].
  assert (∀ d, d ∈ deps (OPd ctx) → provides (objs v1) d) as D2 by (intros d ->%list_elem_of_singleton; by eapply provides_intro).
  destruct (alloc_adds _ _ _ _ A2 Hc1 D2) as [Ad2 E2]. pose proof (ad_closed _ _ _ Ad2) as Hc2.
  assert (∀ v3, objs v3 = objs v2 → objs (ibv_dealloc_pd v3 pd).1 = objs v1) as Dealloc.
  { intros v3 E. assert (alloc_spec objs (OPd ctx) v1 (v3, Some pd)) as A3 by (destruct A2 as (?&?&?); split_and!; [done..|congruence]).
    apply (alloc_free _ _ _ _ _ A3 Hc1 D2). eapply free_pd_ok. by rewrite E. }
  set (attr := queryDevice v1 ctx). unfold createCq. pose proof (cq_ok v2 ctx (if 0 <? max_cqe attr then max_cqe attr else kDefaultCqeSize)) as A3.
  destruct (ibv_create_cq v2 ctx _) as [v3 [cq|]]; [|eexists; split; [done|by apply Close, Dealloc]].
  destruct (three_allocs v dev v1 ctx v2 pd v3 cq Hc A1 A2 A3) as (Ad & F1 & F2 & F3 & Hz & Eo).
  assert (objs v2 !! ctx = Some (OCtx dev)) as E1'.
  { rewrite (ad_frame _ _ _ Ad2); [done|]. intros ->%list_elem_of_singleton. destruct A2 as (_ & ? & _). congruence. }
  assert (∀ d, d ∈ deps (OCq ctx) → provides (objs v2) d) as D3 by (intros d ->%list_elem_of_singleton; by eapply provides_intro).
  destruct (alloc_adds _ _ _ _ A3 Hc2 D3) as [Ad3 E3].
  destruct (ibv_query_gid v3 ctx kDefaultPort _) as [gid|] eqn:Eg.
  2:{ eexists. split; [done|]. apply Close, Dealloc, (alloc_free _ _ _ _ _ A3 Hc2 D3). by eapply free_cq_ok. }
  unfold RdmaContext_new. destruct A1 as (Z1 & _), A2 as (Z2 & _), A3 as (Z3 & _).
  rewrite !bind_dcheck by by apply negb_true_iff, Z.eqb_neq. rewrite bind_Ok. eexists. split; [done|].
  assert (getContextName v3 ctx = getDeviceName dev) as En by (unfold getContextName; by rewrite (device_ok v3 ctx dev)).
  split; [exact Ad|]. split; [split; [by exists dev|done..|by eapply gid_len]|]. split; [done|]. split; [|done]. by exists v3.
Qed.

(** ** Devices *)

Definition handles (ctxs : list RdmaContext) : list Z := ctxs ≫= cx_handles.
(** Contexts that are open, with objects of their own that nothing uses. *)
Definition all_open (v : V) (ctxs : list RdmaContext) : Prop :=
  NoDup (handles ctxs) ∧ Forall (opened v) ctxs ∧ Forall (idle v) ctxs.

Lemma handles_elem c ctxs h : c ∈ ctxs → h ∈ cx_handles c → h ∈ handles ctxs.
Proof. intros Hc Hh. apply list_elem_of_bind. eauto. Qed.

Lemma idle_removes v v' hs c : removes v hs v' → idle v c → idle v' c.
Proof.
  intros R Hi h o d Hh. rewrite R in Hh. destruct (decide (h ∈ hs)); [done|]. by apply (Hi h o d).
Qed.

Lemma all_open_removes v v' hs ctxs : removes v hs v' → (∀ h, h ∈ hs → h ∉ handles ctxs) → all_open v ctxs → all_open v' ctxs.
Proof.
  intros R Hd (Hn & Ho & Hi). split; [done|]. rewrite !Forall_forall in *. split; intros c Hc.
  - apply (opened_frame v); [|by apply Ho]. intros h Hh. rewrite R. destruct (decide (h ∈ hs)) as [Hin|]; [|done].
    exfalso. exact (Hd h Hin (handles_elem c ctxs h Hc Hh)).
  - by apply (idle_removes v v' hs), Hi.
Qed.

Lemma destroy_contexts ctxs : ∀ v, all_open v ctxs → removes v (handles ctxs) (foldl RdmaContext_destroy v ctxs).
Proof.
  induction ctxs as [|c ctxs IH]; intros v Ha; cbn [foldl].
  - intros h. cbn. by destruct (decide (h ∈ [])) as [?%elem_of_nil|].
  - destruct Ha as (Hn & Ho & Hi). apply Forall_cons in Ho as [Ho Hos], Hi as [Hi His].
    change (handles (c :: ctxs)) with (cx_handles c ++ handles ctxs) in *.
    apply NoDup_app in Hn as (_ & Hd & Hn2). pose proof (RdmaContext_destroy_ok v c Ho Hi) as R.
    apply (removes_trans v (cx_handles c) (RdmaContext_destroy v c)); [done|]. apply IH.
    by apply (all_open_removes v _ (cx_handles c)).
Qed.

(** One more context. *)
Lemma all_open_snoc v dev v' c ctxs : closed (objs v) → create_spec v dev (v', Some c) → all_open v ctxs →
  all_open v' (ctxs ++ [c]).
Proof.
  intros Hc (Ad & Hop & _ & _ & Eo) (Hn & Ho & Hi). rewrite !Forall_forall in Ho, Hi.
  assert (∀ x h, x ∈ ctxs → h ∈ cx_handles x → is_Some (objs v !! h)) as Hold.
  { intros x h Hx. destruct (Ho x Hx) as [(d & E1 & _) E2 E3 _ _]. unfold cx_handles. rewrite !elem_of_cons, elem_of_nil.
    intros [->|[->|[->|[]]]]; eauto. }
  assert (∀ x h, x ∈ ctxs → h ∈ cx_handles x → h ∉ cx_handles c) as Hdis.
  { intros x h Hx Hh Hin. destruct (ad_new _ _ _ Ad h Hin) as [_ Hnone], (Hold x h Hx Hh). congruence. }
  assert (∀ h o, objs v' !! h = Some o → h ∈ [cx_cq c; cx_pd c] ∧ deps o = [cx_ctx c] ∨ deps o = [] ∨
            objs v !! h = Some o) as Hnew.
  { intros h o. rewrite Eo. intros [[<- <-]|[_ [[<- <-]|[_ [[<- <-]|[_ Hh]]%lookup_insert_Some]]%lookup_insert_Some]]%lookup_insert_Some;
      [left; split; [set_solver|done]|left; split; [set_solver|done]|by right; left|by right; right]. }
  split; [|split].
  - unfold handles. rewrite bind_app. apply NoDup_app. split_and!; [done| |exact (ad_nodup _ _ _ Ad)].
    intros h (x & Hh & Hx)%list_elem_of_bind. exact (Hdis x h Hx Hh).
  - apply Forall_app. split; [|by apply Forall_singleton]. apply Forall_forall. intros x Hx.
    apply (opened_frame v); [|by apply Ho]. intros h Hh. by apply (ad_frame _ _ _ Ad), (Hdis x).
  - apply Forall_app. split; [apply Forall_forall; intros x Hx|apply Forall_singleton]; intros h o d Hh Hd Hin;
      destruct (Hnew h o Hh) as [[Hc' E]|[E|Hh']].
    + rewrite E in Hd. apply list_elem_of_singleton in Hd as ->. exfalso. apply (Hdis x (cx_ctx c) Hx Hin). right; right; left.
    + rewrite E in Hd. by apply elem_of_nil in Hd.
    + by apply (Hi x Hx h o d).
    + rewrite E in Hd. apply list_elem_of_singleton in Hd as ->. split; [|done].
      rewrite !elem_of_cons, elem_of_nil in Hc'. tauto.
    + rewrite E in Hd. by apply elem_of_nil in Hd.
    + destruct (Hc h o d Hh' Hd) as (? & ? & _). destruct (ad_new _ _ _ Ad d Hin). congruence.
Qed.

Lemma adds_perm v hs hs' v' : hs ≡ₚ hs' → adds v hs v' → adds v hs' v'.
Proof. intros P [N A F C]. split; [by rewrite <- P|intros h; rewrite <- P; apply A|intros h; rewrite <- P; apply F|done]. Qed.
Lemma all_open_live v ctxs h : all_open v ctxs → h ∈ handles ctxs → ∃ o, objs v !! h = Some o ∧ o ≠ OList.
Proof.
  intros (_ & Ho & _) (c & Hh & Hc)%list_elem_of_bind. rewrite Forall_forall in Ho.
  destruct (Ho c Hc) as [(d & E1 & _) E2 E3 _ _]. unfold cx_handles in Hh. rewrite !elem_of_cons, elem_of_nil in Hh.
  destruct Hh as [->|[->|[->|[]]]]; eauto.
Qed.

(** The map after the contexts were entered in order. *)
Definition ctx_map (ctxs : list RdmaContext) : gmap str RdmaContext := foldl (λ m c, <[cx_name c := c]> m) ∅ ctxs.
Lemma ctx_map_snoc ctxs c : ctx_map (ctxs ++ [c]) = <[cx_name c := c]> (ctx_map ctxs).
Proof. unfold ctx_map. by rewrite foldl_snoc. Qed.
Lemma ctx_map_spec ctxs : (∀ n c, ctx_map ctxs !! n = Some c → c ∈ ctxs ∧ cx_name c = n) ∧
  ∀ c, c ∈ ctxs → is_Some (ctx_map ctxs !! cx_name c).
Proof.
  induction ctxs as [|c ctxs [IH1 IH2]] using rev_ind; [split; [done|by intros c ?%elem_of_nil]|]. rewrite ctx_map_snoc. split.
  - intros n x [[<- <-]|[_ Hx]]%lookup_insert_Some; rewrite elem_of_app, list_elem_of_singleton; [by auto|].
    destruct (IH1 _ _ Hx). auto.
  - intros x [Hx| ->%list_elem_of_singleton]%elem_of_app; apply lookup_insert_is_Some'; auto.
Qed.

(** Where a context comes from. *)
Definition of_list (devs : list (option Z)) (c : RdmaContext) : Prop :=
  ∃ dev, Some dev ∈ devs ∧ ibv_get_device_name dev = Some (cx_name c).
Lemma of_list_cons x devs cs : Forall (of_list devs) cs → Forall (of_list (x :: devs)) cs.
Proof. intros Hf. apply (Forall_impl _ _ _ Hf). intros c (d & Hd & E). exists d. split; [by right|done]. Qed.

Lemma open_loop_ok l devs : ∀ v cs, Some 0 ∉ devs → closed (objs v) → objs v !! l = Some OList → no_users (objs v) l →
  all_open v cs → ∃ v' cs', open_loop v devs cs (ctx_map cs) = Ok (v', cs ++ cs', ctx_map (cs ++ cs')) ∧
    all_open v' (cs ++ cs') ∧ adds v (handles cs') v' ∧ objs v' !! l = Some OList ∧ no_users (objs v') l ∧
    Forall (of_list devs) cs'.
Proof.
  induction devs as [|x devs IH]; intros v cs Hz Hc Hl Hu Ha; cbn [open_loop].
  { exists v, []. rewrite app_nil_r. split_and!; try done. by apply adds_nil. }
  apply not_elem_of_cons in Hz as [Hx Hz]. destruct (IH v cs Hz Hc Hl Hu Ha) as (v0 & cs0 & Hskip & P1 & P2 & P3 & P4 & P5).
  assert (∃ v' cs', open_loop v devs cs (ctx_map cs) = Ok (v', cs ++ cs', ctx_map (cs ++ cs')) ∧
    all_open v' (cs ++ cs') ∧ adds v (handles cs') v' ∧ objs v' !! l = Some OList ∧ no_users (objs v') l ∧
    Forall (of_list (x :: devs)) cs') as Skip by (exists v0, cs0; split_and!; try done; by apply of_list_cons).
  clear Hskip P1 P2 P3 P4 P5 v0 cs0. destruct x as [dev|]; [|done].
  destruct (ibv_get_device_name dev) as [name|] eqn:En; [|done]. destruct (ShouldIgnoreDevice v name); [done|].
  destruct (RdmaContext_Create_ok v dev Hc ltac:(by intros ->)) as ([v1 [c|]] & -> & Hr); rewrite bind_Ok.
  2:{ assert (all_open v1 cs) as Ha1.
      { apply (all_open_removes v v1 []); [|by intros h ?%elem_of_nil|done].
        intros h. cbn in Hr. rewrite Hr. by destruct (decide (h ∈ [])) as [?%elem_of_nil|]. }
      cbn in Hr. destruct (IH v1 cs) as (v' & cs' & E & Q1 & Q2 & Q3 & Q4 & Q5); try done; [by rewrite Hr..|].
      exists v', cs'. split_and!; try done; [|by apply of_list_cons]. destruct Q2 as [X1 X2 X3 X4]. split; [done|..|done]; by rewrite <- Hr. }
  pose proof (all_open_snoc v dev v1 c cs Hc Hr Ha) as Ha1. destruct Hr as (Ad & Hop & Hnm & _ & Eo).
  assert (l ∉ cx_handles c) as Hlc.
  { intros Hin. destruct (ad_new _ _ _ Ad l Hin). congruence. }
  destruct (IH v1 (cs ++ [c])) as (v' & cs' & E & Q1 & Q2 & Q3 & Q4 & Q5); try done.
  - by apply (ad_closed _ _ _ Ad).
  - by rewrite (ad_frame _ _ _ Ad).
  - rewrite Eo. assert (l ≠ cx_ctx c) by (intros ->; apply Hlc; right; right; left).
    repeat apply no_users_insert; [done|by intros ?%elem_of_nil|by intros ?%list_elem_of_singleton..].
  - exists v', (c :: cs'). rewrite ctx_map_snoc in E. rewrite <- app_assoc in E, Q1. split_and!; try done.
    + eapply adds_perm; [|apply (adds_trans v (cx_handles c) v1 (handles cs') v' Ad Q2)].
      * rewrite Permutation_app_comm. done.
      * intros h Hh. destruct (all_open_live v1 (cs ++ [c]) h Ha1) as (o & Eq & _); [|eauto].
        apply (handles_elem c); [apply elem_of_app; right; by apply list_elem_of_singleton|done].
    + apply Forall_cons. split; [|by apply of_list_cons]. exists dev. split; [by left|].
      rewrite Hnm. unfold getDeviceName. by rewrite En.
Qed.

(** Freeing the device list after the contexts were opened. *)
Lemma adds_free_list v l v1 hs v2 v3 : adds v [l] v1 → adds v1 hs v2 → objs v1 !! l = Some OList → no_users (objs v2) l →
  objs v3 = delete l (objs v2) → adds v hs v3 ∧ removes v2 [l] v3.
Proof.
  intros A1 A2 Hl Hu E. pose proof (removes_delete v2 l v3 E) as R. split; [|done].
  assert (adds v (hs ++ [l]) v2) as A.
  { apply (adds_trans v [l] v1 hs v2 A1 A2). intros h ->%list_elem_of_singleton. eauto. }
  assert (l ∉ hs) as Hn by (intros Hin; destruct (ad_new _ _ _ A2 l Hin); congruence).
  destruct A as [N Nw F C]. apply NoDup_app in N as (N & _ & _). split; [done| | |rewrite E; by apply closed_delete].
  - intros h Hh. apply Nw, elem_of_app. by left.
  - intros h Hh. rewrite R. destruct (decide (h ∈ [l])) as [->%list_elem_of_singleton|Hne].
    + symmetry. apply Nw, elem_of_app. right. by apply list_elem_of_singleton.
    + apply F. rewrite elem_of_app. tauto.
Qed.

Lemma RdmaDevice_Create_ok v : closed (objs v) → ∃ v' r, RdmaDevice_Create v = Ok (v', r) ∧
  match r with
  | inr e => e = NotFound ∧ objs v' = objs v
  | inl d => dv_ctxs d ≠ [] ∧ adds v (handles (dv_ctxs d)) v' ∧ all_open v' (dv_ctxs d) ∧ dv_ctx_map d = ctx_map (dv_ctxs d)
  end.
Proof.
  intros Hc. unfold RdmaDevice_Create, getDeviceList. pose proof (list_ok v) as Al. pose proof (list_entries v) as He.
  destruct (ibv_get_device_list v) as [v1 [[l devs]|]]; [|by eexists v1, _]. specialize (He _ _ _ eq_refl).
  assert (∀ d, d ∈ deps OList → provides (objs v) d) as Hd by by intros d ?%elem_of_nil.
  destruct (alloc_adds _ _ _ _ Al Hc Hd) as [A1 El].
  destruct devs as [|x devs].
  { eexists _, _. split; [done|]. split; [done|]. apply (adds_removes v [l] v1); [done|]. by apply removes_delete, free_list_ok. }
  assert (no_users (objs v1) l) as Hu1 by by apply (adds_no_users v l v1 OList); [..|intros ?%elem_of_nil].
  assert (all_open v1 []) as Hall0 by (repeat split; constructor).
  destruct (open_loop_ok l (x :: devs) v1 [] He (ad_closed _ _ _ A1) El Hu1 Hall0) as (v2 & cs & E & Ha & A2 & El2 & Hu2 & _).
  change (ctx_map []) with (∅ : gmap str RdmaContext) in E. rewrite E, bind_Ok. cbn [app] in *.
  destruct (adds_free_list v l v1 (handles cs) v2 (ibv_free_device_list v2 l) A1 A2 El Hu2 (free_list_ok v2 l El2)) as [A3 R3].
  destruct (bool_decide_reflect (cs = [])) as [->|Hne]; (eexists _, _; split; [done|]).
  - split; [done|]. apply map_eq. intros h. apply (ad_frame _ _ _ A3). by intros ?%elem_of_nil.
  - split_and!; try done. apply (all_open_removes v2 _ [l]); [done| |done].
    intros h ->%list_elem_of_singleton Hin. destruct (all_open_live v2 cs l Ha Hin) as (o & Eo & Ho). congruence.
Qed.

(** The slot that a context uses: the first IPv4-mapped RoCEv2 entry, else the first global
    IPv6 one, else slot 0. *)
Theorem findRoutableGid_priority (v : V) ctx port :
  findRoutableGid v ctx port =
    match ibv_query_port v ctx port with
    | None => 0
    | Some pa =>
        let slots := seqZ 0 (Z.of_nat (Z.to_nat (pa_gid_tbl_len pa))) in
        match find (slot v ctx port gid_v4mapped) slots with
        | Some i => i
        | None => default 0 (find (slot v ctx port gid_global) slots)
        end
    end.
Proof.
  unfold findRoutableGid. destruct (ibv_query_port v ctx port) as [pa|]; [|done]. by rewrite gid_scan_spec by lia.
Qed.

(** C35: the RDMA adapters of a host are opened completely or not at all.  On every host,
    whichever calls of the RDMA library fail, [RdmaDevice::Create] returns without failing an
    assertion.  If it reports an error, no object of the library is left; otherwise it has at
    least one context, each with its device, protection domain and completion queue and the
    name of its device, no other object has changed, a context is found by its own name
    only, and destroying the device releases everything in an order that the library accepts. *)
Theorem RdmaDevice_lifecycle (v : V) : closed (objs v) → ∃ v' r, RdmaDevice_Create v = Ok (v', r) ∧
  match r with
  | inr e => e = NotFound ∧ objs v' = objs v
  | inl d => dv_ctxs d ≠ [] ∧ Forall (opened v') (dv_ctxs d) ∧
      (∀ h, h ∉ handles (dv_ctxs d) → objs v' !! h = objs v !! h) ∧
      (∀ name c, GetContext d name = Some c → c ∈ dv_ctxs d ∧ cx_name c = name) ∧
      (∀ c, c ∈ dv_ctxs d → is_Some (GetContext d (cx_name c))) ∧
      objs (RdmaDevice_destroy v' d) = objs v
  end.
Proof.
  intros Hc. destruct (RdmaDevice_Create_ok v Hc) as (v' & [d|e] & E & Hr); exists v'; eexists; (split; [done|]); [|done].
  destruct Hr as (Hne & A & Ha & Em). unfold GetContext. rewrite Em. destruct (ctx_map_spec (dv_ctxs d)) as [M1 M2].
  split; [done|]. split; [apply Ha|]. split; [apply A|]. split; [done|]. split; [done|].
  apply (adds_removes v _ v' _ A). by apply destroy_contexts.
Qed.
End Lemmas.

(** * Examples *)

Definition names_opened (r : res (rdma_sim * StatusOr RdmaDevice)) : option (list (string * Z) * nat) :=
  match r with
  | Ok (s, inl d) => Some ((λ c, (string_of_list_ascii (cx_name c), cx_gid_index c)) <$> dv_ctxs d, size (sim_objs s))
  | _ => None
  end.
(** Both devices open; the library fails while the second one is opened, and only the first
    stays; it fails at once. *)
Example two_devices : names_opened (RdmaDevice_Create (sim_new 7)) = Some ([("mlx5_0", 2); ("mlx5_1", 2)]%string, 6%nat).
Proof. vm_compute. reflexivity. Qed.
Example second_fails : names_opened (RdmaDevice_Create (sim_new 6)) = Some ([("mlx5_0", 2)]%string, 3%nat).
Proof. vm_compute. reflexivity. Qed.
Example all_fail : match RdmaDevice_Create (sim_new 3) with Ok (s, inr e) => (e, size (sim_objs s)) | _ => (Internal, 9%nat) end
  = (NotFound, 0%nat).
Proof. vm_compute. reflexivity. Qed.

Lemma RdmaDevice_lifecycle_witness : ∃ v' d, RdmaDevice_Create (sim_new 7) = Ok (v', inl d) ∧
  objs (RdmaDevice_destroy v' d) = objs (sim_new 7).
Proof.
  destruct (RdmaDevice_lifecycle (sim_new 7) (sim_new_closed 7)) as (v' & [d|e] & E & Hr).
  - exists v', d. split; [exact E|]. apply Hr.
  - exfalso. clear Hr. assert (is_Some (names_opened (RdmaDevice_Create (sim_new 7)))) as Hs by (rewrite two_devices; eauto).
    rewrite E in Hs. by destruct Hs.
Defined.
