(* ===== verification/RdmaQPair.v ===== *)
(** Queue pairs, [internal/rdma/rdma_qpair], and established connections,
    [internal/rdma/rdma_conn].  The object keeps a copy of the state of the queue pair of the
    device; the theorems relate the two. *)

From Stdlib Require Import Ascii String.
From stdpp Require Import base tactics numbers gmap fin_maps sets list.
From S2P Require Import Prelude Codec IpAddr Endpoint Types NicInventory RdmaVerbs RdmaSim RdmaContext.
Local Open Scope Z_scope.

(** * Data *)

Record Options := mkOptions {
  o_max_send_wr : Z; o_max_recv_wr : Z; o_max_send_sge : Z; o_max_recv_sge : Z; o_cq_size : Z;
  o_path_mtu : ibv_mtu; o_hop_limit : Z; o_traffic_class : Z; o_sl : Z; o_access_flags : list ibv_access;
  o_timeout : Z; o_retry_cnt : Z; o_rnr_retry : Z; o_max_rd_atomic : Z; o_max_dest_rd_atomic : Z;
  o_min_rnr_timer : Z; o_sq_sig_all : bool;
}.
Definition Options_default : Options :=
  mkOptions 1024 1024 1 1 2048 IBV_MTU_1024 255 0 0
    [IBV_ACCESS_LOCAL_WRITE; IBV_ACCESS_REMOTE_WRITE; IBV_ACCESS_REMOTE_READ; IBV_ACCESS_REMOTE_ATOMIC]
    14 7 7 16 16 12 false.

Inductive QPState : Type := kReset | kInit | kRtr | kRts | kError.
#[export] Instance QPState_eq_dec : EqDecision QPState.
Proof. solve_decision. Defined.

(** [qp_] and [cq_] are handles, 0 for null. *)
Record RdmaQPair := mkRdmaQPair {
  qr_ctx : RdmaContext; qr_qp : Z; qr_cq : Z; qr_options : Options; qr_state : QPState;
}.
Definition with_state (q : RdmaQPair) (s : QPState) : RdmaQPair :=
  mkRdmaQPair (qr_ctx q) (qr_qp q) (qr_cq q) (qr_options q) s.

Record RdmaConn := mkRdmaConn { rn_qp : RdmaQPair; rn_lkey : Z; rn_rkey : Z }.

(** * Operations *)

Section Ops.
Context {V : Type} `{RdmaLib V}.

(** The constructor. *)
Definition RdmaQPair_new (ctx : RdmaContext) (qp cq : Z) (options : Options) : res RdmaQPair :=
  do* dcheck (negb (qp =? 0));
  do* dcheck (negb (cq =? 0));
  Ok (mkRdmaQPair ctx qp cq options kReset).

(** The destructor; failures are only logged. *)
Definition RdmaQPair_destroy (v : V) (q : RdmaQPair) : V :=
  let v := if negb (qr_qp q =? 0) then (ibv_destroy_qp v (qr_qp q)).1 else v in
  if negb (qr_cq q =? 0) then (ibv_destroy_cq v (qr_cq q)).1 else v.

Definition Init_mask : list ibv_qp_attr_mask := [IBV_QP_STATE; IBV_QP_PKEY_INDEX; IBV_QP_PORT; IBV_QP_ACCESS_FLAGS].
Definition Init_attr (q : RdmaQPair) : ibv_qp_attr :=
  mkQpAttr IBV_QPS_INIT 0 kDefaultPort (o_access_flags (qr_options q)) IBV_MTU_256 0 0 0 0 ibv_ah_attr_zero 0 0 0 0 0.
Definition Init (v : V) (q : RdmaQPair) : V * RdmaQPair * absl_Status :=
  if qr_qp q =? 0 then (v, q, Some FailedPrecondition)
  else
    let '(v, ret) := ibv_modify_qp v (qr_qp q) (Init_attr q) Init_mask in
    if negb (ret =? 0) then (v, with_state q kError, Some Internal)
    else (v, with_state q kInit, None).

Definition Rtr_mask : list ibv_qp_attr_mask :=
  [IBV_QP_STATE; IBV_QP_AV; IBV_QP_PATH_MTU; IBV_QP_DEST_QPN; IBV_QP_RQ_PSN; IBV_QP_MAX_DEST_RD_ATOMIC; IBV_QP_MIN_RNR_TIMER].
Definition Rtr_attr (q : RdmaQPair) (remote_qpn : Z) (remote_gid : bytes) (remote_psn : Z) : ibv_qp_attr :=
  let o := qr_options q in
  mkQpAttr IBV_QPS_RTR 0 0 [] (o_path_mtu o) remote_qpn remote_psn (o_max_dest_rd_atomic o) (o_min_rnr_timer o)
    (mkAhAttr 1 kDefaultPort (o_sl o) 0 remote_gid (cx_gid_index (qr_ctx q)) (o_hop_limit o) (o_traffic_class o))
    0 0 0 0 0.
Definition Rtr (v : V) (q : RdmaQPair) (remote_qpn : Z) (remote_gid : bytes) (remote_psn : Z) : V * RdmaQPair * absl_Status :=
  if qr_qp q =? 0 then (v, q, Some FailedPrecondition)
  else if negb (bool_decide (qr_state q = kInit)) then (v, q, Some FailedPrecondition)
  else
    let '(v, ret) := ibv_modify_qp v (qr_qp q) (Rtr_attr q remote_qpn remote_gid remote_psn) Rtr_mask in
    if negb (ret =? 0) then (v, with_state q kError, Some Internal)
    else (v, with_state q kRtr, None).

Definition Rts_mask : list ibv_qp_attr_mask :=
  [IBV_QP_STATE; IBV_QP_SQ_PSN; IBV_QP_TIMEOUT; IBV_QP_RETRY_CNT; IBV_QP_RNR_RETRY; IBV_QP_MAX_QP_RD_ATOMIC].
Definition Rts_attr (q : RdmaQPair) (local_psn : Z) : ibv_qp_attr :=
  let o := qr_options q in
  mkQpAttr IBV_QPS_RTS 0 0 [] IBV_MTU_256 0 0 0 0 ibv_ah_attr_zero
    local_psn (o_timeout o) (o_retry_cnt o) (o_rnr_retry o) (o_max_rd_atomic o).
Definition Rts (v : V) (q : RdmaQPair) (local_psn : Z) : V * RdmaQPair * absl_Status :=
  if qr_qp q =? 0 then (v, q, Some FailedPrecondition)
  else if negb (bool_decide (qr_state q = kRtr)) then (v, q, Some FailedPrecondition)
  else
    let '(v, ret) := ibv_modify_qp v (qr_qp q) (Rts_attr q local_psn) Rts_mask in
    if negb (ret =? 0) then (v, with_state q kError, Some Internal)
    else (v, with_state q kRts, None).

Definition QPair_Connect (v : V) (q : RdmaQPair) (remote_qpn : Z) (remote_gid : bytes) (remote_psn local_psn : Z)
    : V * RdmaQPair * absl_Status :=
  let '(v, q, status) := Rtr v q remote_qpn remote_gid remote_psn in
  match status with Some _ => (v, q, status) | None => Rts v q local_psn end.

Definition IsConnected (q : RdmaQPair) : bool := bool_decide (qr_state q = kRts).
Definition GetLocalGid (q : RdmaQPair) : bytes := cx_local_gid (qr_ctx q).
Definition Qpn (v : V) (q : RdmaQPair) : Z := if negb (qr_qp q =? 0) then ibv_qp_num v (qr_qp q) else 0.

Definition QPair_init_attr (cq : Z) (o : Options) : ibv_qp_init_attr :=
  mkQpInitAttr IBV_QPT_RC cq cq (o_max_send_wr o) (o_max_recv_wr o) (o_max_send_sge o) (o_max_recv_sge o)
    (if o_sq_sig_all o then 1 else 0).
(** The object dies with its handles when [Init] fails. *)
Definition RdmaQPair_Create (v : V) (ctx : option RdmaContext) (options : Options) : res (V * StatusOr RdmaQPair) :=
  match ctx with
  | None => Ok (v, inr InvalidArgument)
  | Some ctx =>
      match ibv_create_cq v (cx_ctx ctx) (o_cq_size options) with
      | (v, None) => Ok (v, inr Internal)
      | (v, Some cq) =>
          match ibv_create_qp v (cx_pd ctx) (QPair_init_attr cq options) with
          | (v, None) => Ok ((ibv_destroy_cq v cq).1, inr Internal)
          | (v, Some qp) =>
              let* q := RdmaQPair_new ctx qp cq options in
              let '(v, q, init_status) := Init v q in
              match init_status with
              | Some e => Ok (RdmaQPair_destroy v q, inr e)
              | None => Ok (v, inl q)
              end
          end
      end
  end.

(** The constructor of [RdmaConn]. *)
Definition RdmaConn_new (qp : RdmaQPair) (lkey rkey : Z) : RdmaConn := mkRdmaConn qp lkey rkey.
End Ops.

(** * The object and its queue pair *)

Section Lemmas.
Context {V : Type} `{L : RdmaLaws V}.

Definition hw_of (s : QPState) : option ibv_qp_state :=
  match s with
  | kReset => Some IBV_QPS_RESET | kInit => Some IBV_QPS_INIT | kRtr => Some IBV_QPS_RTR | kRts => Some IBV_QPS_RTS
  | kError => None
  end.
(** The queue pair [hw] of the device is the object's own, in the state the object believes. *)
Record qp_owns (v : V) (q : RdmaQPair) (hw : hw_qp) : Prop := {
  qo_qp : objs v !! qr_qp q = Some (OQp hw);
  qo_cq : objs v !! qr_cq q = Some (OCq (cx_ctx (qr_ctx q)));
  qo_deps : hq_pd hw = cx_pd (qr_ctx q) ∧ hq_cq hw = qr_cq q;
  qo_nz : qr_qp q ≠ 0 ∧ qr_cq q ≠ 0;
  qo_state : ∀ s, hw_of (qr_state q) = Some s → hq_state hw = s;
  qo_rts : qr_state q ≠ kRts → hq_state hw ≠ IBV_QPS_RTS;
}.
Definition qp_handles (q : RdmaQPair) : list Z := [qr_qp q; qr_cq q].

(** What a request does: it is granted as asked, or nothing changes. *)
Lemma request v q hw a mask v' ret : qp_owns v q hw → ibv_modify_qp v (qr_qp q) a mask = (v', ret) →
  (ret = 0 ∧ ∃ hw', hw_modify hw a mask = Some hw' ∧ objs v' = <[qr_qp q := OQp hw']> (objs v) ∧
     ∀ s, hw_of s = Some (qa_qp_state a) → qp_owns v' (with_state q s) hw') ∨
  (ret ≠ 0 ∧ objs v' = objs v ∧ (qr_state q ≠ kRts → qp_owns v' (with_state q kError) hw)).
Proof.
  intros [Hq Hc Hd Hz Hs Hr'] E. destruct (modify_ok v _ hw a mask v' ret Hq E) as [(-> & hw' & Em & Eo)|(Hr & Eo)]; [left|right].
  - split; [done|]. exists hw'. split; [done|]. split; [done|]. intros s Hst.
    destruct (hw_modify_deps _ _ _ _ Em) as ([= Ep Ec] & _ & Est & _). destruct Hd as [Hd1 Hd2].
    split; cbn; [by rewrite Eo, lookup_insert_eq| |by rewrite Ep, Ec|done| |].
    + rewrite Eo, lookup_insert_ne; [done|]. intros En. rewrite En in Hq. congruence.
    + intros x Hx. rewrite Est. congruence.
    + rewrite Est. intros Hn En. rewrite En in Hst. by destruct s.
  - split; [done|]. split; [done|]. intros Hne. split; cbn; rewrite ?Eo; try done. by intros _; apply Hr'.
Qed.

Definition same_but (v v' : V) (h : Z) : Prop := ∀ x, x ≠ h → objs v' !! x = objs v !! x.
Lemma same_but_insert v v' h o : objs v' = <[h := o]> (objs v) → same_but v v' h.
Proof. intros E x Hx. rewrite E. by rewrite lookup_insert_ne. Qed.
Lemma same_but_eq v v' h : objs v' = objs v → same_but v v' h.
Proof. intros E x _. by rewrite E. Qed.
Lemma same_but_trans v1 v2 v3 h : same_but v1 v2 h → same_but v2 v3 h → same_but v1 v3 h.
Proof. intros S1 S2 x Hx. by rewrite S2, S1. Qed.

(** ** [Connect] *)

(** The parameters of a connection as the queue pair has them. *)
Definition peer_of (hw : hw_qp) : Z * bytes * Z * Z :=
  (qa_dest_qp_num (hq_attr hw), grh_dgid (qa_ah_attr (hq_attr hw)), qa_rq_psn (hq_attr hw), qa_sq_psn (hq_attr hw)).

Lemma Rtr_ok v q hw qpn gid psn : qp_owns v q hw → qr_state q = kInit →
  ∃ v' hw', same_but v v' (qr_qp q) ∧
    ((Rtr v q qpn gid psn = (v', with_state q kRtr, None) ∧ qp_owns v' (with_state q kRtr) hw' ∧
        hw_modify hw (Rtr_attr q qpn gid psn) Rtr_mask = Some hw') ∨
     (Rtr v q qpn gid psn = (v', with_state q kError, Some Internal) ∧ qp_owns v' (with_state q kError) hw' ∧ hw' = hw)).
Proof.
  intros Ho Hst. unfold Rtr. destruct (qo_nz _ _ _ Ho) as [Hz _]. rewrite (proj2 (Z.eqb_neq _ _)) by done.
  rewrite bool_decide_eq_true_2 by done. cbn [negb].
  destruct (ibv_modify_qp v (qr_qp q) _ _) as [v' ret] eqn:E.
  destruct (request v q hw _ _ v' ret Ho E) as [(-> & hw' & Em & Eo & Hk)|(Hr & Eo & Hk)].
  - exists v', hw'. split; [by apply (same_but_insert _ _ _ _ Eo)|]. left. split_and!; [done| |done]. by apply Hk.
  - exists v', hw. rewrite (proj2 (Z.eqb_neq _ _)) by done. split; [by apply same_but_eq|]. right. split_and!; [done| |done].
    apply Hk. by rewrite Hst.
Qed.

Lemma Rts_ok v q hw psn : qp_owns v q hw → qr_state q = kRtr →
  ∃ v' hw', same_but v v' (qr_qp q) ∧
    ((Rts v q psn = (v', with_state q kRts, None) ∧ qp_owns v' (with_state q kRts) hw' ∧
        hw_modify hw (Rts_attr q psn) Rts_mask = Some hw') ∨
     (Rts v q psn = (v', with_state q kError, Some Internal) ∧ qp_owns v' (with_state q kError) hw' ∧ hw' = hw)).
Proof.
  intros Ho Hst. unfold Rts. destruct (qo_nz _ _ _ Ho) as [Hz _]. rewrite (proj2 (Z.eqb_neq _ _)) by done.
  rewrite bool_decide_eq_true_2 by done. cbn [negb].
  destruct (ibv_modify_qp v (qr_qp q) _ _) as [v' ret] eqn:E.
  destruct (request v q hw _ _ v' ret Ho E) as [(-> & hw' & Em & Eo & Hk)|(Hr & Eo & Hk)].
  - exists v', hw'. split; [by apply (same_but_insert _ _ _ _ Eo)|]. left. split_and!; [done| |done]. by apply Hk.
  - exists v', hw. rewrite (proj2 (Z.eqb_neq _ _)) by done. split; [by apply same_but_eq|]. right. split_and!; [done| |done].
    apply Hk. by rewrite Hst.
Qed.

(** The mask and the state of each request are those the device requires. *)
Lemma requests_legal (hw : hw_qp) q qpn gid psn lpsn :
  (hq_state hw = IBV_QPS_RESET → is_Some (hw_modify hw (Init_attr q) Init_mask)) ∧
  (hq_state hw = IBV_QPS_INIT → is_Some (hw_modify hw (Rtr_attr q qpn gid psn) Rtr_mask)) ∧
  (hq_state hw = IBV_QPS_RTR → is_Some (hw_modify hw (Rts_attr q lpsn) Rts_mask)).
Proof. split_and!; intros E; unfold hw_modify; rewrite E; eauto. Qed.

Lemma Connect_ok v q hw qpn gid psn lpsn : qp_owns v q hw → ∃ v' q' s hw',
  QPair_Connect v q qpn gid psn lpsn = (v', q', s) ∧ same_but v v' (qr_qp q) ∧ qp_owns v' q' hw' ∧
  (∃ x, q' = with_state q x) ∧
  match s with
  | None => qr_state q = kInit ∧ qr_state q' = kRts ∧ hq_num hw' = hq_num hw ∧ peer_of hw' = (qpn, gid, psn, lpsn)
  | Some e => if decide (qr_state q = kInit) then qr_state q' = kError ∧ e = Internal
              else v' = v ∧ q' = q ∧ e = FailedPrecondition
  end.
Proof.
  intros Ho. unfold QPair_Connect. destruct (decide (qr_state q = kInit)) as [Hst|Hst].
  2:{ exists v, q, (Some FailedPrecondition), hw. unfold Rtr. destruct (qo_nz _ _ _ Ho) as [Hz _].
      rewrite (proj2 (Z.eqb_neq _ _)), bool_decide_eq_false_2 by done. split_and!; try done. by exists (qr_state q); destruct q. }
  destruct (Rtr_ok v q hw qpn gid psn Ho Hst) as (v1 & hw1 & S1 & [(-> & Ho1 & Em1)|(-> & Ho1 & _)]).
  2:{ eexists v1, _, _, hw1. split_and!; try done. by eexists. }
  destruct (Rts_ok v1 _ hw1 lpsn Ho1 eq_refl) as (v2 & hw2 & S2 & [(-> & Ho2 & Em2)|(-> & Ho2 & _)]).
  2:{ eexists v2, _, _, hw2. split_and!; try done; [by apply (same_but_trans v v1)|by eexists]. }
  eexists v2, _, None, hw2. split_and!; try done; [by apply (same_but_trans v v1)|by eexists|..];
    destruct (hw_modify_deps _ _ _ _ Em1) as (_ & N1 & _ & A1), (hw_modify_deps _ _ _ _ Em2) as (_ & N2 & _ & A2).
  - by rewrite N2.
  - unfold peer_of. by rewrite A2, A1.
Qed.

(** ** Creation and destruction *)

(** Nothing but the queue pair uses the completion queue. *)
Definition qp_idle (v : V) (q : RdmaQPair) : Prop := ∀ h o, objs v !! h = Some o → qr_cq q ∈ deps o → h = qr_qp q.

Lemma RdmaQPair_destroy_ok v q hw : qp_owns v q hw → qp_idle v q → removes v (qp_handles q) (RdmaQPair_destroy v q).
Proof.
  intros [Hq Hc Hd [Hz1 Hz2] _ _] Hi. unfold RdmaQPair_destroy. rewrite !(proj2 (Z.eqb_neq _ _)) by done. cbn [negb].
  destruct (free_qp_ok v _ _ Hq) as [_ D1]. set (v1 := (ibv_destroy_qp v (qr_qp q)).1) in *.
  assert (qr_cq q ≠ qr_qp q) as Hne by (intros E; rewrite E in Hc; congruence).
  assert (objs v1 !! qr_cq q = Some (OCq (cx_ctx (qr_ctx q)))) as Hc1 by by rewrite D1, lookup_delete_ne.
  destruct (free_cq_ok v1 _ _ Hc1) as [_ D2].
  { rewrite D1. intros h o [Hh Ho]%lookup_delete_Some Hin. apply Hh. symmetry. by apply (Hi h o). }
  apply (removes_trans v [qr_qp q] v1); by apply removes_delete.
Qed.

(** The two objects of a queue pair, one after the other. *)
Lemma two_allocs v ctx v1 cq v2 qp num at0 : closed (objs v) → opened v ctx →
  alloc_spec objs (OCq (cx_ctx ctx)) v (v1, Some cq) →
  alloc_spec objs (OQp (mkHwQp (cx_pd ctx) cq num IBV_QPS_RESET at0)) v1 (v2, Some qp) →
  adds v [qp; cq] v2 ∧ objs v2 !! qp = Some (OQp (mkHwQp (cx_pd ctx) cq num IBV_QPS_RESET at0)) ∧
  objs v2 !! cq = Some (OCq (cx_ctx ctx)) ∧ (qp ≠ 0 ∧ cq ≠ 0) ∧
  ∀ h o, objs v2 !! h = Some o → cq ∈ deps o → h = qp.
Proof.
  intros Hc Hop A1 A2. destruct (alloc_adds _ _ _ _ A1 Hc) as [Ad1 E1].
  { intros d ->%list_elem_of_singleton. destruct (op_ctx _ _ Hop) as (x & Ex & _). by eapply provides_intro. }
  destruct A1 as (Z1 & N1 & O1). assert (objs v1 !! cx_pd ctx = Some (OPd (cx_ctx ctx))) as Epd.
  { rewrite O1, lookup_insert_ne; [by apply Hop|]. intros ->. rewrite (op_pd _ _ Hop) in N1. done. }
  destruct (alloc_adds _ _ _ _ A2 (ad_closed _ _ _ Ad1)) as [Ad2 E2].
  { cbn. intros d [->| ->%list_elem_of_singleton]%elem_of_cons; by eapply provides_intro. }
  destruct A2 as (Z2 & N2 & O2). assert (cq ≠ qp) as Hne by (intros ->; congruence).
  split; [|split; [done|]]; [|split; [by rewrite O2, lookup_insert_ne|split; [done|]]].
  - apply (adds_trans v [cq] v1 [qp] v2 Ad1 Ad2). intros h ->%list_elem_of_singleton. eauto.
  - intros h o Hh Hin. rewrite O2, O1 in Hh. apply lookup_insert_Some in Hh as [[-> _]|[_ Hh]]; [done|]. exfalso.
    apply lookup_insert_Some in Hh as [[_ <-]|[_ Hh]].
    + apply list_elem_of_singleton in Hin. destruct (op_ctx _ _ Hop) as (x & Ex & _). rewrite <- Hin in Ex. congruence.
    + destruct (Hc h o cq Hh Hin) as (? & ? & _). congruence.
Qed.

Lemma RdmaQPair_Create_ok v ctx o : closed (objs v) → opened v ctx →
  ∃ v' r, RdmaQPair_Create v (Some ctx) o = Ok (v', r) ∧
    match r with
    | inr e => e = Internal ∧ objs v' = objs v
    | inl q => adds v (qp_handles q) v' ∧ qp_idle v' q ∧ qr_state q = kInit ∧ qr_ctx q = ctx ∧ ∃ hw, qp_owns v' q hw
    end.
Proof.
  intros Hc Hop. unfold RdmaQPair_Create. pose proof (cq_ok v (cx_ctx ctx) (o_cq_size o)) as A1.
  destruct (ibv_create_cq v (cx_ctx ctx) (o_cq_size o)) as [v1 [cq|]]; [|by eexists v1, _].
  destruct (qp_ok v1 (cx_pd ctx) (QPair_init_attr cq o) eq_refl) as (num & a & A2). cbn [ia_send_cq QPair_init_attr] in A2.
  destruct (ibv_create_qp v1 (cx_pd ctx) (QPair_init_attr cq o)) as [v2 [qp|]].
  2:{ eexists _, _. split; [done|]. split; [done|]. cbn in A2.
      assert (alloc_spec objs (OCq (cx_ctx ctx)) v (v2, Some cq)) as A1' by (destruct A1 as (?&?&?); split_and!; [done..|congruence]).
      apply (alloc_free _ _ _ _ _ A1' Hc); [|eapply free_cq_ok; destruct A1' as (_ & _ & ->); by rewrite lookup_insert_eq].
      intros d ->%list_elem_of_singleton. destruct (op_ctx _ _ Hop) as (x & Ex & _). by eapply provides_intro. }
  destruct (two_allocs v ctx v1 cq v2 qp num a Hc Hop A1 A2) as (Ad & Eq & Ec & Hz & Hi). destruct Hz as [Hz1 Hz2].
  unfold RdmaQPair_new. rewrite !bind_dcheck by by apply negb_true_iff, Z.eqb_neq. rewrite bind_Ok.
  set (q := mkRdmaQPair ctx qp cq o kReset). set (hw := mkHwQp (cx_pd ctx) cq num IBV_QPS_RESET a) in *.
  assert (qp_owns v2 q hw) as Ho by (by split; try done; intros s [= <-]).
  unfold Init. cbn [qr_qp q]. rewrite (proj2 (Z.eqb_neq _ _)) by done.
  destruct (ibv_modify_qp v2 qp (Init_attr q) Init_mask) as [v3 ret] eqn:Em.
  destruct (request v2 q hw _ _ v3 ret Ho Em) as [(-> & hw' & Eh & Eo & Hk)|(Hr & Eo & Hk)].
  - cbn. eexists _, _. split; [done|]. cbn. split_and!; try done; [| |exists hw'; by apply Hk].
    + destruct Ad as [Y1 Y2 Y3 Y4]. split; try done; rewrite Eo.
      * intros h Hh. rewrite lookup_insert_ne; [by apply Y3|]. intros <-. apply Hh. by left.
      * apply (closed_update _ _ (OQp hw)); [done|done| |done]. by destruct (hw_modify_deps _ _ _ _ Eh) as [-> _].
    + intros h x Hh Hin. cbn in *. rewrite Eo in Hh. apply lookup_insert_Some in Hh as [[<- _]|[_ Hh]]; [done|]. by apply (Hi h x).
  - rewrite (proj2 (Z.eqb_neq _ _)) by done. cbn. eexists _, _. split; [done|]. split; [done|].
    apply (adds_removes v [qp; cq] v3).
    + destruct Ad as [Y1 Y2 Y3 Y4]. split; try done; by rewrite Eo.
    + apply (RdmaQPair_destroy_ok v3 (with_state q kError) hw); [by apply Hk|]. intros h x. cbn. rewrite Eo. apply Hi.
Qed.

(** * The life of a queue pair *)

(** The object after its creation on [ctx] and any number of calls of [Connect], while the
    library works for others; [r] are the arguments of the last call that succeeded. *)
Inductive qp_reach (ctx : RdmaContext) : V → RdmaQPair → option (Z * bytes * Z * Z) → Prop :=
  | qr_create v o v' q : closed (objs v) → opened v ctx →
      RdmaQPair_Create v (Some ctx) o = Ok (v', inl q) → qp_reach ctx v' q None
  | qr_connect v q r qpn gid psn lpsn v' q' s : qp_reach ctx v q r →
      QPair_Connect v q qpn gid psn lpsn = (v', q', s) →
      qp_reach ctx v' q' (match s with None => Some (qpn, gid, psn, lpsn) | Some _ => r end)
  | qr_others v q r v' : qp_reach ctx v q r → (∀ h, h ∈ qp_handles q → objs v' !! h = objs v !! h) →
      qp_idle v' q → qp_reach ctx v' q r.

Lemma qp_reach_inv ctx v q r : qp_reach ctx v q r → ∃ hw, qp_owns v q hw ∧ qp_idle v q ∧ qr_state q ≠ kReset ∧
  match r with Some peer => qr_state q = kRts ∧ peer_of hw = peer | None => qr_state q ≠ kRts end.
Proof.
  induction 1 as [v o v' q Hc Hop E|v q r qpn gid psn lpsn v' q' s _ IH E|v q r v' _ IH Hf Hi].
  - destruct (RdmaQPair_Create_ok v ctx o Hc Hop) as (v1 & r1 & E1 & Hr). rewrite E in E1. injection E1 as <- <-.
    destruct Hr as (_ & Hi & Hst & _ & hw & Ho). exists hw. rewrite Hst. done.
  - destruct IH as (hw & Ho & Hi & Hn & Hr).
    destruct (Connect_ok v q hw qpn gid psn lpsn Ho) as (v1 & q1 & s1 & hw1 & E1 & Sm & Ho1 & (x & Eq) & Hs).
    rewrite E in E1. injection E1 as <- <- <-. exists hw1. split; [done|]. split.
    { intros h y Hh Hin. rewrite Eq in *. cbn in *. destruct (decide (h = qr_qp q)) as [|Hne]; [done|].
      rewrite (Sm h Hne) in Hh. by apply (Hi h y). }
    destruct s as [e|]; [|destruct Hs as (_ & -> & _ & ->); done].
    destruct (decide (qr_state q = kInit)) as [Hin|Hnin].
    + destruct Hs as [-> _]. split; [done|]. destruct r; [|done]. destruct Hr as [Hk _]. congruence.
    + destruct Hs as (-> & -> & _). split; [done|]. destruct r as [peer|]; [|done]. destruct Hr as [Hk Hp]. split; [done|].
      rewrite <- Hp. f_equal. destruct Ho as [Hq _ _ _ _ _], Ho1 as [Hq1 _ _ _ _ _]. rewrite Hq in Hq1. by injection Hq1.
  - destruct IH as (hw & [X1 X2 X3 X4 X5 X6] & _ & Hn & Hr). exists hw. split; [|done].
    split; [rewrite Hf; [done|by left]|rewrite Hf; [done|by right; left]|done..].
Qed.

End Lemmas.

(** * Examples *)

(** A queue pair on the first device of a small library, connected, then connected again. *)
Definition sim_opened : rdma_sim * RdmaDevice :=
  match RdmaDevice_Create (sim_new 30) with Ok (s, inl d) => (s, d) | _ => (sim_new 0, mkRdmaDevice [] ∅) end.
Definition sim_ctx : RdmaContext :=
  default (mkRdmaContext [] 0 0 0 0 [] ibv_device_attr_zero) (head (dv_ctxs sim_opened.2)).
Definition sim_pair : rdma_sim * RdmaQPair :=
  match RdmaQPair_Create sim_opened.1 (Some sim_ctx) Options_default with
  | Ok (s, inl q) => (s, q)
  | _ => (sim_new 0, mkRdmaQPair sim_ctx 0 0 Options_default kReset)
  end.
Definition sim_connected : rdma_sim * RdmaQPair * absl_Status := QPair_Connect sim_pair.1 sim_pair.2 77 (replicate 16 5) 1000 2000.
Example connect_twice : let '(s, q, st) := sim_connected in
  (st, IsConnected q, (QPair_Connect s q 78 (replicate 16 6) 1 2).2, sim_objs s !! qr_qp q ≫= λ o, match o with OQp h => Some (peer_of h) | _ => None end)
  = (None, true, Some FailedPrecondition, Some (77, replicate 16 5, 1000, 2000)).
Proof. vm_compute. reflexivity. Qed.

Lemma sim_pair_reach : qp_reach sim_ctx sim_pair.1 sim_pair.2 None.
Proof.
  destruct (RdmaDevice_Create_ok (sim_new 30) (sim_new_closed 30)) as (s & [d|e] & E & Hr).
  2:{ exfalso. assert (is_Some (names_opened (RdmaDevice_Create (sim_new 30)))) as Hs by (vm_compute; eauto).
      rewrite E in Hs. by destruct Hs. }
  assert (sim_opened = (s, d)) as Es by (unfold sim_opened; by rewrite E).
  destruct Hr as (Hne & A & (_ & Ho & _) & _). destruct (dv_ctxs d) as [|c cs] eqn:Ed; [done|].
  assert (sim_ctx = c) as Ec by (unfold sim_ctx; rewrite Es; cbn; by rewrite Ed). apply Forall_cons in Ho as [Ho _].
  apply (qr_create sim_ctx sim_opened.1 Options_default).
  - rewrite Es. apply (ad_closed _ _ _ A).
  - rewrite Es, Ec. exact Ho.
  - vm_compute. reflexivity.
Qed.

Lemma sim_connected_reach : qp_reach sim_ctx sim_connected.1.1 sim_connected.1.2 (Some (77, replicate 16 5, 1000, 2000)).
Proof.
  pose proof (qr_connect sim_ctx _ _ _ 77 (replicate 16 5) 1000 2000 sim_connected.1.1 sim_connected.1.2 sim_connected.2 sim_pair_reach)
    as Hc. assert (sim_connected.2 = None) as E by (vm_compute; reflexivity). rewrite E in Hc. apply Hc.
  rewrite <- E. unfold sim_connected. by destruct (QPair_Connect _ _ _ _ _ _) as [[? ?] ?].
Qed.

