(* ===== verification/RdmaMemory.v ===== *)
(** The registry of RDMA memory regions, [internal/rdma/rdma_memory].  The verbs library is a
    parameter ([Verbs]) with the documented meaning of registering and deregistering
    ([VerbsLaws]); the [btree_map] from base addresses is a finite map, whose
    [upper_bound] and [begin] are computed from the keys. *)

From Stdlib Require Import Ascii String.
From stdpp Require Import base tactics numbers gmap fin_maps sets list.
From S2P Require Import Prelude Codec Endpoint Types RdmaVerbs RdmaContext.
Local Open Scope Z_scope.

(** * Data *)

Record RegisteredRegion := mkRegion { rr_addr : Z; rr_length : Z; rr_device_mrs : gmap str ibv_mr }.

Record RdmaMemory := mkRdmaMemory {
  rm_dev : option (list RdmaContext);              (* dev_ and its contexts *)
  rm_regions : gmap Z RegisteredRegion;            (* registered_regions_ *)
}.

(** The constructor. *)
Definition RdmaMemory_new (dev : option (list RdmaContext)) : res RdmaMemory :=
  do* dcheck (bool_decide (is_Some dev)); Ok (mkRdmaMemory dev ∅).

(** [live v] are the handles that exist: registering returns a new one or none, and
    deregistering a handle that exists frees it.  Nothing is said of a handle that does not
    exist, which must not be passed. *)
Class VerbsLaws (V : Type) `{Verbs V} := {
  live : V → gset Z;
  reg_some : ∀ v pd a l f v' mr, ibv_reg_mr v pd a l f = (v', Some mr) →
    (mr_id mr ∉ live v) ∧ live v' = ({[ mr_id mr ]} ∪ live v);
  reg_none : ∀ v pd a l f v', ibv_reg_mr v pd a l f = (v', None) → live v' = live v;
  dereg_live : ∀ v mr v' ret, ibv_dereg_mr v mr = (v', ret) → mr_id mr ∈ live v →
    ret = 0 ∧ live v' = (live v ∖ {[ mr_id mr ]});
}.

(** The regions among the objects of the library. *)
Definition is_mr (o : obj) : bool := match o with OMr _ => true | _ => false end.
Definition mrs_of (m : table) : gset Z := dom (filter (λ ho, is_mr ho.2 = true) m).
Lemma elem_of_mrs_of m h : h ∈ mrs_of m ↔ ∃ pd, m !! h = Some (OMr pd).
Proof.
  unfold mrs_of. rewrite elem_of_dom. split.
  - intros [o [Ho Hm]%map_lookup_filter_Some]. destruct o; try done. eauto.
  - intros [pd Hp]. exists (OMr pd). by apply map_lookup_filter_Some.
Qed.
#[export, program] Instance RdmaLaws_VerbsLaws {V} `{RdmaLaws V} : VerbsLaws V := { live v := mrs_of (objs v) }.
Next Obligation.
  intros V lib vb L v pd a l f v' mr E. pose proof (reg_ok v pd a l f) as A. rewrite E in A. destruct A as (_ & Hn & Eo).
  rewrite elem_of_mrs_of. split; [intros [? ?]; cbn in *; congruence|]. apply set_eq. intros x. cbn in Eo.
  rewrite elem_of_union, elem_of_singleton, !elem_of_mrs_of, Eo. setoid_rewrite lookup_insert_Some. naive_solver.
Qed.
Next Obligation.
  intros V lib vb L v pd a l f v' E. pose proof (reg_ok v pd a l f) as A. rewrite E in A. cbn in A. cbn beta. by rewrite A.
Qed.
Next Obligation.
  intros V lib vb L v mr v' ret E [pd Hp]%elem_of_mrs_of. destruct (dereg_ok v mr pd Hp) as [E1 E2]. rewrite E in E1, E2.
  split; [done|]. apply set_eq. intros x. cbn in E2. rewrite elem_of_difference, elem_of_singleton, !elem_of_mrs_of, E2.
  setoid_rewrite lookup_delete_Some. naive_solver.
Qed.

(** * Lookup *)

(** [std::prev(upper_bound(x))]: the region with the greatest base not above [x]. *)
Definition prev_region (m : gmap Z RegisteredRegion) (x : Z) : option (Z * RegisteredRegion) :=
  foldr (λ kv best, if kv.1 <=? x then
                      match best with
                      | Some b => if b.1 <? kv.1 then Some kv else Some b
                      | None => Some kv
                      end
                    else best) None (map_to_list m).

(** [begin()]: the region with the least base. *)
Definition first_region (m : gmap Z RegisteredRegion) : option (Z * RegisteredRegion) :=
  foldr (λ kv best, match best with
                    | Some b => if kv.1 <? b.1 then Some kv else Some b
                    | None => Some kv
                    end) None (map_to_list m).

Definition findRegion (rm : RdmaMemory) (addr length : Z) : option RegisteredRegion :=
  if (addr =? 0) || (length =? 0) || bool_decide (rm_regions rm = ∅) then None
  else
    let req_start := addr in
    let req_end := u64 (req_start + length) in
    match prev_region (rm_regions rm) req_start with
    | None => None
    | Some (region_start, r) =>
        let region_end := u64 (region_start + rr_length r) in
        if (region_start <=? req_start) && (req_end <=? region_end) then Some r else None
    end.

Definition GetMemoryRegion (rm : RdmaMemory) (addr length : Z) (device_name : str) : option ibv_mr :=
  match findRegion rm addr length with
  | None => None
  | Some region => rr_device_mrs region !! device_name
  end.

(** [None] is [NotFoundError]. *)
Definition GetLKey (rm : RdmaMemory) (addr length : Z) (device_name : str) : option Z :=
  mr_lkey <$> GetMemoryRegion rm addr length device_name.
Definition GetRKey (rm : RdmaMemory) (addr length : Z) (device_name : str) : option Z :=
  mr_rkey <$> GetMemoryRegion rm addr length device_name.

Definition GetDefaultLKey (rm : RdmaMemory) (device_name : str) : Z :=
  match first_region (rm_regions rm) with
  | None => 0
  | Some (_, region) => from_option mr_lkey 0 (rr_device_mrs region !! device_name)
  end.
Definition GetDefaultRKey (rm : RdmaMemory) (device_name : str) : Z :=
  match first_region (rm_regions rm) with
  | None => 0
  | Some (_, region) => from_option mr_rkey 0 (rr_device_mrs region !! device_name)
  end.

(** * Registration *)

Section Ops.
Context {V : Type} `{Verbs V}.

(** A failure to deregister is only logged. *)
Definition UnregisterMrs (v : V) (mrs : gmap str ibv_mr) : V :=
  foldl (λ v kv, (ibv_dereg_mr v kv.2).1) v (map_to_list mrs).

Fixpoint register_loop (v : V) (ctxs : list RdmaContext) (addr length flags : Z)
    (mrs : gmap str ibv_mr) : V * option (gmap str ibv_mr) :=
  match ctxs with
  | [] => (v, Some mrs)
  | crx :: ctxs' =>
      if cx_pd crx =? 0 then (UnregisterMrs v mrs, None)
      else match ibv_reg_mr v (cx_pd crx) addr length flags with
           | (v, None) => (UnregisterMrs v mrs, None)
           | (v, Some mr) => register_loop v ctxs' addr length flags (<[cx_name crx := mr]> mrs)
           end
  end.

Definition RegisterMemory (v : V) (rm : RdmaMemory) (addr length flags : Z) : V * RdmaMemory * absl_Status :=
  if addr =? 0 then (v, rm, Some InvalidArgument)
  else if length =? 0 then (v, rm, Some InvalidArgument)
  else match rm_dev rm with
  | None => (v, rm, Some FailedPrecondition)
  | Some [] => (v, rm, Some FailedPrecondition)
  | Some ctxs =>
      if bool_decide (is_Some (findRegion rm addr length)) then (v, rm, Some AlreadyExists)
      else match register_loop v ctxs addr length flags ∅ with
      | (v, None) => (v, rm, Some Internal)
      | (v, Some mrs) =>
          (v, mkRdmaMemory (rm_dev rm) (<[addr := mkRegion addr length mrs]> (rm_regions rm)), None)
      end
  end.

Definition UnregisterMemory (v : V) (rm : RdmaMemory) (addr : Z) : V * RdmaMemory * absl_Status :=
  match rm_regions rm !! addr with
  | None => (v, rm, Some NotFound)
  | Some region =>
      (UnregisterMrs v (rr_device_mrs region),
       mkRdmaMemory (rm_dev rm) (delete addr (rm_regions rm)), None)
  end.

(** The destructor. *)
Definition RdmaMemory_destroy (v : V) (rm : RdmaMemory) : V :=
  foldl (λ v kv, UnregisterMrs v (rr_device_mrs kv.2)) v (map_to_list (rm_regions rm)).
End Ops.

(** * Lemmas on lookup *)

(** The step of [prev_region] and what it computes of a list of entries. *)
Lemma prev_region_list (l : list (Z * RegisteredRegion)) x :
  match foldr (λ kv best, if kv.1 <=? x then
                      match best with
                      | Some b => if b.1 <? kv.1 then Some kv else Some b
                      | None => Some kv
                      end
                    else best) None l with
  | Some kr => kr ∈ l ∧ kr.1 ≤ x ∧ ∀ kr', kr' ∈ l → kr'.1 ≤ x → kr'.1 ≤ kr.1
  | None => ∀ kr', kr' ∈ l → x < kr'.1
  end.
Proof.
  induction l as [|kv l IH]; cbn [foldr]; [intros ? []%elem_of_nil|].
  destruct (foldr _ None l) as [b|]; destruct (Z.leb_spec (kv.1) x).
  - destruct IH as (Hb & Hbx & Hmax). destruct (Z.ltb_spec (b.1) (kv.1)).
    + split; [by left|]. split; [done|]. intros kr' [->|Hin]%elem_of_cons Hk'; [lia|].
      specialize (Hmax kr' Hin Hk'). lia.
    + split; [by right|]. split; [done|]. intros kr' [->|Hin]%elem_of_cons Hk'; [lia|]. by apply Hmax.
  - destruct IH as (Hb & Hbx & Hmax). split; [by right|]. split; [done|].
    intros kr' [->|Hin]%elem_of_cons Hk'; [lia|]. by apply Hmax.
  - split; [by left|]. split; [done|]. intros kr' [->|Hin]%elem_of_cons Hk'; [lia|].
    specialize (IH kr' Hin). lia.
  - intros kr' [->|Hin]%elem_of_cons; [lia|]. by apply IH.
Qed.

Lemma prev_region_spec m x :
  match prev_region m x with
  | Some (k, r) => m !! k = Some r ∧ k ≤ x ∧ ∀ k' r', m !! k' = Some r' → k' ≤ x → k' ≤ k
  | None => ∀ k' r', m !! k' = Some r' → x < k'
  end.
Proof.
  pose proof (prev_region_list (map_to_list m) x) as Hp. unfold prev_region.
  destruct (foldr _ None (map_to_list m)) as [[k r]|].
  - destruct Hp as (Hin%elem_of_map_to_list & Hk & Hmax). split; [done|]. split; [done|].
    intros k' r' Hl%elem_of_map_to_list Hk'. exact (Hmax _ Hl Hk').
  - intros k' r' Hl%elem_of_map_to_list. exact (Hp _ Hl).
Qed.

(** Regions that lie in the address space and do not overlap. *)
Record table_ok (m : gmap Z RegisteredRegion) : Prop := {
  tb_range : ∀ k r, m !! k = Some r → 0 < k ∧ 0 < rr_length r ∧ k + rr_length r < 2 ^ 64;
  tb_disjoint : ∀ k1 r1 k2 r2, m !! k1 = Some r1 → m !! k2 = Some r2 → k1 < k2 → k1 + rr_length r1 ≤ k2;
}.

Lemma table_ok_insert m addr len mrs : table_ok m → 0 < addr → 0 < len → addr + len < 2 ^ 64 →
  (∀ base r, m !! base = Some r → base + rr_length r ≤ addr ∨ addr + len ≤ base) →
  table_ok (<[addr := mkRegion addr len mrs]> m).
Proof.
  intros Htb Ha Hl He Hd. split.
  - intros k r [[<- <-]|[_ Hk]]%lookup_insert_Some; [done|]. by apply (tb_range _ Htb).
  - intros k1 r1 k2 r2 [[<- <-]|[Hn1 H1]]%lookup_insert_Some [[<- <-]|[Hn2 H2]]%lookup_insert_Some Hlt.
    + lia.
    + cbn. pose proof (tb_range _ Htb _ _ H2). destruct (Hd _ _ H2); lia.
    + pose proof (tb_range _ Htb _ _ H1). destruct (Hd _ _ H1); lia.
    + by apply (tb_disjoint _ Htb k1 r1 k2 r2).
Qed.

Lemma findRegion_contains rm addr len r :
  table_ok (rm_regions rm) → 0 < addr → 0 < len → addr + len < 2 ^ 64 →
  findRegion rm addr len = Some r ↔
    ∃ base, rm_regions rm !! base = Some r ∧ base ≤ addr ∧ addr + len ≤ base + rr_length r.
Proof.
  intros Hok Ha Hl Hend. unfold findRegion.
  rewrite (proj2 (Z.eqb_neq addr 0)), (proj2 (Z.eqb_neq len 0)) by lia. cbn [orb].
  rewrite (wrap_small 64 (addr + len)) by (unfold fits; lia).
  pose proof (prev_region_spec (rm_regions rm) addr) as Hp.
  destruct (bool_decide_reflect (rm_regions rm = ∅)) as [He|_].
  { split; [discriminate|]. intros (b & Hb & _). by rewrite He, lookup_empty in Hb. }
  destruct (prev_region (rm_regions rm) addr) as [[k r0]|].
  - destruct Hp as (Hk & Hle & Hmax). destruct (tb_range _ Hok _ _ Hk) as (Hk0 & Hl0 & Hke).
    rewrite (wrap_small 64 (k + rr_length r0)) by (unfold fits; lia).
    rewrite (proj2 (Z.leb_le k addr)) by lia. cbn [andb]. split.
    + destruct (Z.leb_spec (addr + len) (k + rr_length r0)); intros [= <-]. eauto.
    + intros (b & Hb & Hba & Hc). pose proof (Hmax _ _ Hb Hba) as Hbk.
      destruct (decide (b = k)) as [->|Hne].
      * rewrite Hk in Hb. injection Hb as ->. by rewrite (proj2 (Z.leb_le _ _)).
      * pose proof (tb_disjoint _ Hok _ _ _ _ Hb Hk). lia.
  - split; [discriminate|]. intros (b & Hb & Hba & _). specialize (Hp _ _ Hb). lia.
Qed.

(** * Handles *)

(** The identities of the handles of one region and of the whole table. *)
Definition mrs_ids (mrs : gmap str ibv_mr) : list Z := (λ kv, mr_id kv.2) <$> map_to_list mrs.
Definition table_ids (m : gmap Z RegisteredRegion) : list Z :=
  map_to_list m ≫= λ kv, mrs_ids (rr_device_mrs kv.2).

Lemma mrs_ids_insert mrs d mr : mrs !! d = None → mrs_ids (<[d := mr]> mrs) ≡ₚ mr_id mr :: mrs_ids mrs.
Proof. intros Hd. unfold mrs_ids. by rewrite map_to_list_insert. Qed.
Lemma table_ids_insert m k r : m !! k = None →
  table_ids (<[k := r]> m) ≡ₚ mrs_ids (rr_device_mrs r) ++ table_ids m.
Proof. intros Hk. unfold table_ids. by rewrite map_to_list_insert. Qed.
Lemma table_ids_delete m k r : m !! k = Some r →
  table_ids m ≡ₚ mrs_ids (rr_device_mrs r) ++ table_ids (delete k m).
Proof.
  intros Hk. rewrite <- table_ids_insert by apply lookup_delete_eq. by rewrite insert_delete_id.
Qed.

(** The distinct handles [l] all exist. *)
Definition all_live {V} `{VerbsLaws V} (v : V) (l : list Z) : Prop := NoDup l ∧ ∀ x, x ∈ l → x ∈ live v.

Section Lemmas.
Context {V : Type} `{VerbsLaws V}.

Lemma all_live_perm (v : V) l l' : l ≡ₚ l' → all_live v l → all_live v l'.
Proof. intros Hp [Hn Hl]. split; [by rewrite <- Hp|]. intros x. rewrite <- Hp. apply Hl. Qed.
Lemma all_live_app (v : V) l l' : all_live v (l ++ l') → all_live v l ∧ all_live v l'.
Proof. intros [(H1 & _ & H2)%NoDup_app Hl]. repeat split; try done; intros x Hx; apply Hl, elem_of_app; auto. Qed.

(** Freeing some of the handles leaves the others. *)
Lemma dereg_list (l : list (str * ibv_mr)) : ∀ (v : V) rest,
  all_live v (((λ kv, mr_id kv.2) <$> l) ++ rest) →
  let v' := foldl (λ v kv, (ibv_dereg_mr v kv.2).1) v l in
  live v' = (live v ∖ list_to_set ((λ kv, mr_id kv.2) <$> l)) ∧ all_live v' rest.
Proof.
  induction l as [|[d mr] l IH]; intros v rest [Hnd Hl]; cbn [foldl snd].
  - split; [cbn; set_solver|]. by split.
  - rewrite fmap_cons in *. cbn [snd app] in *. apply NoDup_cons in Hnd as [Hnew Hnd].
    destruct (ibv_dereg_mr v mr) as [v1 ret] eqn:E.
    destruct (dereg_live _ _ _ _ E ltac:(apply Hl; by left)) as [_ Hlive]. cbn [fst].
    destruct (IH v1 rest) as [H1 H2].
    { split; [done|]. intros x Hx. rewrite Hlive, elem_of_difference, elem_of_singleton.
      split; [apply Hl; by right|]. intros ->. done. }
    split; [|done]. rewrite H1, Hlive. cbn. set_solver.
Qed.

Lemma UnregisterMrs_frees (v : V) mrs rest : all_live v (mrs_ids mrs ++ rest) →
  live (UnregisterMrs v mrs) = (live v ∖ list_to_set (mrs_ids mrs)) ∧ all_live (UnregisterMrs v mrs) rest.
Proof. apply dereg_list. Qed.

(** The loop registers on every device, or leaves no handle of this call. *)
Lemma register_loop_live ctxs : ∀ (v : V) addr len flags mrs rest,
  NoDup (cx_name <$> ctxs) → (∀ c, c ∈ ctxs → mrs !! cx_name c = None) → all_live v (mrs_ids mrs ++ rest) →
  match register_loop v ctxs addr len flags mrs with
  | (v', None) => live v' = (live v ∖ list_to_set (mrs_ids mrs)) ∧ all_live v' rest
  | (v', Some mrs') => all_live v' (mrs_ids mrs' ++ rest) ∧
      live v' = (live v ∪ list_to_set (mrs_ids mrs')) ∧
      (∀ d, is_Some (mrs' !! d) ↔ is_Some (mrs !! d) ∨ d ∈ cx_name <$> ctxs) ∧
      (∀ x, x ∈ mrs_ids mrs' → x ∈ mrs_ids mrs ∨ x ∉ live v) ∧ mrs_ids mrs ⊆ mrs_ids mrs'
  end.
Proof.
  induction ctxs as [|c ctxs IH]; intros v addr len flags mrs rest Hnd Hfr Hal; cbn [register_loop].
  - split; [done|]. destruct Hal as [_ Hal]. split; [set_solver|]. split; [set_solver|].
    split; [by left|done].
  - destruct (cx_pd c =? 0); [by apply UnregisterMrs_frees|].
    destruct (ibv_reg_mr v (cx_pd c) addr len flags) as [v1 [mr|]] eqn:E.
    2: { apply reg_none in E as Hsame. rewrite <- Hsame. apply UnregisterMrs_frees.
         destruct Hal as [? Hal]. split; [done|]. intros x. rewrite Hsame. apply Hal. }
    destruct (reg_some _ _ _ _ _ _ _ E) as [Hnew Hlive].
    assert (mrs !! cx_name c = None) as Hc by (apply Hfr; by left).
    pose proof (mrs_ids_insert mrs (cx_name c) mr Hc) as Hids.
    rewrite fmap_cons, NoDup_cons in Hnd. destruct Hnd as [Hnc Hnd].
    assert (all_live v1 (mrs_ids (<[cx_name c := mr]> mrs) ++ rest)) as Hal1.
    { destruct Hal as [Hn Hl]. eapply all_live_perm; [by rewrite Hids|]. split.
      - apply NoDup_cons. split; [|done]. intros Hin. by apply Hnew, Hl.
      - intros x [->|Hx]%elem_of_cons; rewrite Hlive; [set_solver|]. apply Hl in Hx. set_solver. }
    specialize (IH v1 addr len flags (<[cx_name c := mr]> mrs) rest Hnd).
    destruct (register_loop v1 ctxs addr len flags (<[cx_name c := mr]> mrs)) as [v' [mrs'|]];
      (destruct IH as (H1 & H2); [|exact Hal1|]).
    1,3: intros c' Hc'; rewrite lookup_insert_ne; [apply Hfr; by right|]; intros Heq';
      apply Hnc; rewrite Heq'; by apply list_elem_of_fmap_2.
    + destruct H2 as (H2 & H3 & H4 & H5). split; [done|].
      assert (mr_id mr ∈ mrs_ids mrs') by (apply H5; rewrite Hids; by left).
      split; [rewrite H2, Hlive; set_solver|]. split.
      { intros d. rewrite H3, lookup_insert_is_Some', fmap_cons, elem_of_cons. naive_solver. }
      split.
      * intros x Hx. destruct (H4 x Hx) as [Hin|Hnin].
        -- rewrite Hids in Hin. apply elem_of_cons in Hin as [->|Hin]; [by right|by left].
        -- right. rewrite Hlive in Hnin. set_solver.
      * intros x Hx. apply H5. rewrite Hids. by right.
    + split; [|done]. rewrite H1, Hlive. apply set_eq. intros x.
      rewrite !elem_of_difference, !elem_of_list_to_set, Hids, elem_of_cons, elem_of_union, elem_of_singleton.
      split; [naive_solver|]. intros [Hx Hn]. split; [by right|]. intros [->|?]; done.
Qed.

Lemma destroy_frees (l : list (Z * RegisteredRegion)) : ∀ v : V,
  all_live v (l ≫= λ kv, mrs_ids (rr_device_mrs kv.2)) →
  live (foldl (λ v kv, UnregisterMrs v (rr_device_mrs kv.2)) v l) =
    (live v ∖ list_to_set (l ≫= λ kv, mrs_ids (rr_device_mrs kv.2))).
Proof.
  induction l as [|[k r] l IH]; intros v Hal; cbn [foldl].
  - cbn. set_solver.
  - rewrite bind_cons in *. cbn [snd] in *. destruct (UnregisterMrs_frees _ _ _ Hal) as [Hl Hal'].
    rewrite IH by done. rewrite Hl, list_to_set_app_L. set_solver.
Qed.

(** A state of the table with the handles it owns: distinct, existing; the devices have
    different names. *)
Definition owned_ok (v : V) (rm : RdmaMemory) : Prop :=
  all_live v (table_ids (rm_regions rm)) ∧
  ∀ ctxs, rm_dev rm = Some ctxs → NoDup (cx_name <$> ctxs).

Lemma RegisterMemory_cases (v : V) rm addr len flags v' rm' c : owned_ok v rm →
  RegisterMemory v rm addr len flags = (v', rm', c) →
  (c ≠ None ∧ rm' = rm ∧ live v' = live v ∧ owned_ok v' rm') ∨
  (c = None ∧ addr ≠ 0 ∧ len ≠ 0 ∧ findRegion rm addr len = None ∧ owned_ok v' rm' ∧
   ∃ ctxs mrs, rm_dev rm = Some ctxs ∧
     rm' = mkRdmaMemory (rm_dev rm) (<[addr := mkRegion addr len mrs]> (rm_regions rm)) ∧
     (∀ d, is_Some (mrs !! d) ↔ d ∈ cx_name <$> ctxs) ∧
     live v' = (live v ∪ list_to_set (mrs_ids mrs)) ∧ (∀ x, x ∈ mrs_ids mrs → x ∉ live v)).
Proof.
  intros Hok E. pose proof Hok as [Hal Hnd]. unfold RegisterMemory in E.
  destruct (Z.eqb_spec addr 0); [left; by simplify_eq|].
  destruct (Z.eqb_spec len 0); [left; by simplify_eq|].
  destruct (rm_dev rm) as [[|c0 cs]|] eqn:Edev; [left; by simplify_eq| |left; by simplify_eq].
  destruct (findRegion rm addr len) eqn:Ef; [rewrite bool_decide_eq_true_2 in E by eauto; left; by simplify_eq|].
  rewrite bool_decide_eq_false_2 in E by (intros [? ?]; done).
  pose proof (register_loop_live (c0 :: cs) v addr len flags ∅ (table_ids (rm_regions rm)) (Hnd _ eq_refl)
    ltac:(intros; apply lookup_empty)) as Hloop.
  unfold mrs_ids in Hloop at 1. rewrite map_to_list_empty in Hloop. specialize (Hloop Hal).
  destruct (register_loop v (c0 :: cs) addr len flags ∅) as [v1 [mrs|]]; simplify_eq.
  - right. destruct Hloop as (H1 & H2 & H3 & H4 & _). do 4 (split; [done|]). split.
    + split; [|exact Hnd]. cbn [rm_regions].
      rewrite <- insert_delete_eq. eapply all_live_perm; [symmetry; apply table_ids_insert, lookup_delete_eq|].
      cbn [rr_device_mrs]. destruct (rm_regions rm !! addr) as [r|] eqn:Er.
      * refine (proj1 (all_live_app v' _ (mrs_ids (rr_device_mrs r)) _)).
        eapply all_live_perm; [|exact H1]. rewrite (table_ids_delete _ _ _ Er).
        rewrite <- app_assoc. apply Permutation_app_head, Permutation_app_comm.
      * by rewrite delete_id.
    + exists (c0 :: cs), mrs. split; [done|]. split; [done|]. split; [|split; [done|]].
      * intros d. rewrite H3, lookup_empty. split; [intros [[? ?]|?]; done|by right].
      * intros x Hx. destruct (H4 x Hx) as [Hin|?]; [|done].
        unfold mrs_ids in Hin. rewrite map_to_list_empty in Hin. by apply elem_of_nil in Hin.
  - left. destruct Hloop as [H1 H2]. unfold mrs_ids in H1. rewrite map_to_list_empty in H1.
    split; [done|]. split; [done|]. split; [rewrite H1; cbn; set_solver|]. split; [exact H2|]. by rewrite Edev.
Qed.
End Lemmas.

(** * Properties *)

(** [findRegion] finds the region that contains a range exactly when there is one: the
    greatest base not above the start of the range decides, because regions do not overlap.
    A registration outside all regions keeps the table so, and afterwards every range inside
    the new buffer has a handle on exactly the devices, until it is unregistered. *)
Theorem RdmaMemory_find_exact {V} `{VerbsLaws V} (v : V) rm addr len :
  table_ok (rm_regions rm) → owned_ok v rm → 0 < addr → 0 < len → addr + len < 2 ^ 64 →
  (∀ r, findRegion rm addr len = Some r ↔
     ∃ base, rm_regions rm !! base = Some r ∧ base ≤ addr ∧ addr + len ≤ base + rr_length r) ∧
  (∀ flags v' rm', RegisterMemory v rm addr len flags = (v', rm', None) →
     (∀ base r, rm_regions rm !! base = Some r → base + rr_length r ≤ addr ∨ addr + len ≤ base) →
     table_ok (rm_regions rm') ∧
     (∀ a l d, addr ≤ a → 0 < l → a + l ≤ addr + len →
        is_Some (GetMemoryRegion rm' a l d) ↔ ∃ ctxs, rm_dev rm = Some ctxs ∧ d ∈ cx_name <$> ctxs) ∧
     rm_regions (UnregisterMemory v' rm' addr).1.2 = rm_regions rm).
Proof.
  intros Htb Hok Ha Hl Hend. split; [intros r; by apply findRegion_contains|].
  intros flags v' rm' E Hdisj.
  destruct (RegisterMemory_cases _ _ _ _ _ _ _ _ Hok E)
    as [(Hc & _)|(_ & _ & _ & _ & _ & ctxs & mrs & Hdev & -> & Hdom & _)]; [done|].
  assert (rm_regions rm !! addr = None) as Hnone.
  { destruct (rm_regions rm !! addr) as [r|] eqn:Er; [|done].
    pose proof (tb_range _ Htb _ _ Er). destruct (Hdisj _ _ Er); lia. }
  assert (table_ok (<[addr := mkRegion addr len mrs]> (rm_regions rm))) as Htb'
    by (by apply table_ok_insert).
  split; [exact Htb'|]. split.
  - intros a l d Hal Hl0 Hae. unfold GetMemoryRegion.
    assert (0 < a) as Ha0 by lia. assert (a + l < 2 ^ 64) as Hae0 by lia.
    rewrite (proj2 (findRegion_contains (mkRdmaMemory (rm_dev rm) _) a l (mkRegion addr len mrs) Htb' Ha0 Hl0 Hae0)).
    + cbn [rr_device_mrs]. rewrite Hdom, Hdev. naive_solver.
    + exists addr. cbn [rm_regions rr_length]. by rewrite lookup_insert_eq.
  - unfold UnregisterMemory. cbn [rm_regions]. rewrite lookup_insert_eq. cbn [fst snd rm_regions].
    by rewrite delete_insert_eq, delete_id.
Qed.

(** the handles.  The handles in the table exist and are distinct, so that none is
    deregistered twice.  A registration that fails changes neither the table nor the set of
    handles; one that succeeds creates exactly the handles of its region; unregistering frees
    exactly the handles of the region; the destructor frees all handles of the table. *)
Theorem RdmaMemory_handle_accounting {V} `{VerbsLaws V} (v : V) rm : owned_ok v rm →
  (∀ addr len flags v' rm' c, RegisterMemory v rm addr len flags = (v', rm', c) →
     owned_ok v' rm' ∧
     (c ≠ None → rm' = rm ∧ live v' = live v) ∧
     (c = None → ∃ r, rm_regions rm' = <[addr := r]> (rm_regions rm) ∧
        live v' = (live v ∪ list_to_set (mrs_ids (rr_device_mrs r))) ∧
        ∀ x, x ∈ mrs_ids (rr_device_mrs r) → x ∉ live v)) ∧
  (∀ addr v' rm' c, UnregisterMemory v rm addr = (v', rm', c) →
     owned_ok v' rm' ∧
     match rm_regions rm !! addr with
     | None => c = Some NotFound ∧ rm' = rm ∧ v' = v
     | Some r => c = None ∧ rm_regions rm' = delete addr (rm_regions rm) ∧
         live v' = (live v ∖ list_to_set (mrs_ids (rr_device_mrs r)))
     end) ∧
  live (RdmaMemory_destroy v rm) = (live v ∖ list_to_set (table_ids (rm_regions rm))).
Proof.
  intros Hok. split; [|split].
  - intros addr len flags v' rm' c E.
    destruct (RegisterMemory_cases _ _ _ _ _ _ _ _ Hok E)
      as [(Hc & ? & ? & ?)|(-> & _ & _ & _ & Hok' & ctxs & mrs & _ & -> & _ & Hl & Hnew)].
    + by split.
    + split; [done|]. split; [done|]. intros _. by exists (mkRegion addr len mrs).
  - intros addr v' rm' c E. unfold UnregisterMemory in E. destruct Hok as [Hal Hnd].
    destruct (rm_regions rm !! addr) as [r|] eqn:Er; simplify_eq; [|done].
    apply (all_live_perm _ _ _ (table_ids_delete _ _ _ Er)) in Hal.
    destruct (UnregisterMrs_frees _ _ _ Hal) as [Hl Hal']. by split.
  - apply destroy_frees, Hok.
Qed.

(** * A verbs library that hands out consecutive handles *)
Record verbs_sim := mkVerbs { vs_next : Z; vs_live : list Z }.
Definition sim_ok (s : verbs_sim) : list Z := filter (λ x, x < vs_next s) (vs_live s).
#[export] Instance verbs_sim_verbs : Verbs verbs_sim := {
  ibv_reg_mr s pd _ _ _ :=
    if pd <? 0 then (s, None)
    else (mkVerbs (vs_next s + 1) (vs_next s :: sim_ok s), Some (mkMr (vs_next s) (vs_next s) (vs_next s)));
  ibv_dereg_mr s mr := (mkVerbs (vs_next s) (filter (λ x, x ≠ mr_id mr) (vs_live s)), 0);
}.
#[export, program] Instance verbs_sim_laws : VerbsLaws verbs_sim := {
  live s := list_to_set (sim_ok s);
}.
Next Obligation.
  intros s pd a l f s' mr E. cbn in E. destruct (pd <? 0); simplify_eq. cbn [mr_id].
  split; [unfold sim_ok; rewrite elem_of_list_to_set, list_elem_of_filter; lia|].
  apply set_eq. intros x. unfold sim_ok. cbn [vs_next vs_live].
  rewrite elem_of_union, elem_of_singleton, !elem_of_list_to_set, !list_elem_of_filter, elem_of_cons, list_elem_of_filter.
  naive_solver lia.
Qed.
Next Obligation.
  intros s pd a l f s' E. cbn in E. by destruct (pd <? 0); simplify_eq.
Qed.
Next Obligation.
  intros s mr s' ret E Hin. cbn in E. simplify_eq. split; [done|].
  apply set_eq. intros x. unfold sim_ok. cbn [vs_next vs_live].
  rewrite elem_of_difference, elem_of_singleton, !elem_of_list_to_set, !list_elem_of_filter. naive_solver.
Qed.

Definition mlx5_0 : str := list_ascii_of_string "mlx5_0".
Definition mlx5_1 : str := list_ascii_of_string "mlx5_1".
Definition demo_ctx (name : str) (pd : Z) : RdmaContext := mkRdmaContext name 1 pd 1 0 kZeroGid ibv_device_attr_zero.
Definition demo_ctxs : list RdmaContext := [demo_ctx mlx5_0 1; demo_ctx mlx5_1 2].
Definition demo_table : verbs_sim * RdmaMemory :=
  match RdmaMemory_new (Some demo_ctxs) with
  | Ok rm => (RegisterMemory (mkVerbs 1 []) rm 4096 4096 0).1
  | Fault _ => (mkVerbs 1 [], mkRdmaMemory None ∅)
  end.

(** Registering twice and looking up inside, across and outside the buffers. *)
Example demo_lookup :
  let '(v, rm) := demo_table in
  let '(v, rm, c) := RegisterMemory v rm 16384 64 0 in
  (c, GetLKey rm 4100 10 mlx5_1, GetLKey rm 16384 64 mlx5_0, GetRKey rm 8190 10 mlx5_0,
   GetLKey rm 4096 1 (list_ascii_of_string "eth0"), GetDefaultLKey rm mlx5_0, vs_live v) =
  (None, Some 2, Some 3, None, None, 1, [4; 3; 2; 1]).
Proof. vm_compute. reflexivity. Qed.

Lemma all_live_eq (v : verbs_sim) (l l' : list Z) :
  NoDup l → sim_ok v = l' → l ⊆ l' → all_live v l.
Proof. intros Hn Hv Hs. split; [done|]. intros x Hx. cbn. rewrite Hv. by apply elem_of_list_to_set, Hs. Qed.
Lemma demo_nodup : NoDup [2; 1].
Proof. repeat constructor; set_solver. Qed.
Lemma two_names_nodup (c d : RdmaContext) : cx_name c ≠ cx_name d → NoDup (cx_name <$> [c; d]).
Proof. intros Hne. repeat constructor; set_solver. Qed.
Lemma demo_owned : owned_ok demo_table.1 demo_table.2.
Proof.
  split.
  - replace (table_ids (rm_regions demo_table.2)) with [2; 1] by (vm_compute; reflexivity).
    apply (all_live_eq _ _ [2; 1]); [exact demo_nodup|vm_compute; reflexivity|done].
  - intros ctxs E. replace (rm_dev demo_table.2) with (Some demo_ctxs) in E by (vm_compute; reflexivity).
    injection E as <-. by apply two_names_nodup.
Qed.
Lemma demo_table_ok : table_ok (rm_regions demo_table.2).
Proof.
  change (rm_regions demo_table.2) with
    ({[4096 := mkRegion 4096 4096 (<[mlx5_1 := mkMr 2 2 2]> {[mlx5_0 := mkMr 1 1 1]})]} : gmap Z RegisteredRegion).
  split.
  - intros k r [<- <-]%lookup_singleton_Some. cbn. lia.
  - intros k1 r1 k2 r2 [<- <-]%lookup_singleton_Some [<- <-]%lookup_singleton_Some. lia.
Qed.

(** C1 at the demo table: the buffer at 4096 and a new one after it. *)
Lemma RdmaMemory_find_exact_witness :
  findRegion demo_table.2 8192 100 = None ∧
  is_Some (GetMemoryRegion (RegisterMemory demo_table.1 demo_table.2 8192 100 0).1.2 8200 50 mlx5_1).
Proof.
  assert (rm_regions demo_table.2 = {[4096 := mkRegion 4096 4096
    (<[mlx5_1 := mkMr 2 2 2]> {[mlx5_0 := mkMr 1 1 1]})]}) as Hreg by (vm_compute; reflexivity).
  destruct (RdmaMemory_find_exact demo_table.1 demo_table.2 8192 100 demo_table_ok demo_owned
    ltac:(lia) ltac:(lia) ltac:(lia)) as [Hfind Hregister].
  specialize (Hregister 0).
  split.
  - destruct (findRegion demo_table.2 8192 100) as [r|]; [|done]. exfalso.
    destruct (proj1 (Hfind r) eq_refl) as (b & Hb & _ & Hc).
    rewrite Hreg in Hb. apply lookup_singleton_Some in Hb as [<- <-]. cbn in Hc. lia.
  - assert (RegisterMemory demo_table.1 demo_table.2 8192 100 0 =
      ((RegisterMemory demo_table.1 demo_table.2 8192 100 0).1, None)) as E by (vm_compute; reflexivity).
    destruct (RegisterMemory demo_table.1 demo_table.2 8192 100 0) as [[v' rm'] c]. injection E as ->.
    destruct (Hregister v' rm' eq_refl) as (_ & Hget & _).
    + intros b r Hb. rewrite Hreg in Hb. apply lookup_singleton_Some in Hb as [<- <-]. cbn. lia.
    + apply (Hget 8200 50 mlx5_1); [lia..|]. exists demo_ctxs.
      split; [vm_compute; reflexivity|]. apply list_elem_of_here || (right; left).
Defined.

(** C2 at the demo table. *)
Lemma RdmaMemory_handle_accounting_witness :
  live (RdmaMemory_destroy demo_table.1 demo_table.2) = (live demo_table.1 ∖ {[2; 1]}) ∧
  live (RegisterMemory demo_table.1 (mkRdmaMemory (Some [demo_ctx mlx5_0 1; demo_ctx mlx5_1 (-1)])
    (rm_regions demo_table.2)) 8192 100 0).1.1 = live demo_table.1.
Proof.
  split.
  - destruct (RdmaMemory_handle_accounting demo_table.1 demo_table.2 demo_owned) as (_ & _ & ->).
    assert (table_ids (rm_regions demo_table.2) = [2; 1]) as -> by (vm_compute; reflexivity).
    by f_equal.
  - destruct (RdmaMemory_handle_accounting demo_table.1
      (mkRdmaMemory (Some [demo_ctx mlx5_0 1; demo_ctx mlx5_1 (-1)]) (rm_regions demo_table.2)))
      as (Hreg & _ & _).
    + split; [exact (proj1 demo_owned)|]. intros ctxs [= <-]. by apply two_names_nodup.
    + specialize (Hreg 8192 100 0). set (reg := RegisterMemory _ _ _ _ _) in *.
      assert (reg.2 = Some Internal) as E by (vm_compute; reflexivity). clearbody reg.
      destruct reg as [[v' rm'] c]. cbn in E. subst c.
      destruct (Hreg v' rm' (Some Internal) eq_refl) as (_ & Hfail & _). by apply Hfail.
Defined.

(** * What the table does not check *)

(** The end of the range is computed modulo [2^64]: a length that wraps is accepted. *)
Example findRegion_wraps :
  is_Some (findRegion demo_table.2 4100 (2 ^ 64 - 100)) ∧ 4096 + 4096 < 4100 + (2 ^ 64 - 100).
Proof. split; [|lia]. vm_compute. by eexists. Qed.

(** A longer registration at the same base replaces the entry, and its handles are never
    deregistered, not even by the destructor. *)
Example register_leaks :
  let '(v, rm, c) := RegisterMemory demo_table.1 demo_table.2 4096 8192 0 in
  c = None ∧ sim_ok (RdmaMemory_destroy v rm) = [2; 1].
Proof. vm_compute. done. Qed.

(** A registration inside the range of a later, longer one hides it: a range that the longer
    region contains is not found. *)
Example overlap_hides :
  let '(v, rm, c) := RegisterMemory demo_table.1 demo_table.2 2048 8192 0 in
  c = None ∧ findRegion rm 4096 5000 = None ∧
  ∃ r, rm_regions rm !! 2048 = Some r ∧ 2048 ≤ 4096 ∧ 4096 + 5000 ≤ 2048 + rr_length r.
Proof. vm_compute. split; [done|]. split; [done|]. eexists. split; [done|]. done. Qed.
