(* ===== verification/RdmaChannel.v ===== *)
(** The RDMA channel, [internal/channel/channel_rdma]: a one-sided write of one chunk.  The
    queue of the device is described by [WireLaws]: requests are posted, land in order, and
    are reported by the completion queue. *)

From Stdlib Require Import Ascii String.
From stdpp Require Import base tactics numbers gmap fin_maps sets list.
From S2P Require Import Prelude Codec IpAddr Endpoint Types Header HeaderFlatbuf NicInventory RdmaVerbs RdmaSim RdmaContext RdmaQPair RdmaMemory.
Local Open Scope Z_scope.

(** * The queue of a device *)

(** [posted] are the requests of a queue pair that are not reported yet, [landed] those whose
    data is in the memory of the peer and that were reported; both in order.  [patience]
    bounds how often the completion queue is empty before the next report. *)
Class WireLaws (V : Type) `{RdmaLaws V} := {
  posted : V → Z → list ibv_send_wr;
  landed : V → Z → list ibv_send_wr;
  patience : V → Z → nat;
  post_ok : ∀ v qp hw wr v' ret, objs v !! qp = Some (OQp hw) → ibv_post_send v qp wr = (v', ret) → objs v' = objs v ∧
    ((ret = 0 ∧ posted v' qp = posted v qp ++ [wr] ∧ landed v' qp = landed v qp) ∨
     (ret ≠ 0 ∧ posted v' qp = posted v qp ∧ landed v' qp = landed v qp));
  poll_ok : ∀ v qp hw v' r, objs v !! qp = Some (OQp hw) → ibv_poll_cq v (hq_cq hw) = (v', r) → objs v' = objs v ∧
    match r with
    | PollError => posted v' qp = posted v qp ∧ landed v' qp = landed v qp
    | PollEmpty => posted v' qp = posted v qp ∧ landed v' qp = landed v qp ∧
        (posted v qp ≠ [] → (patience v' (hq_cq hw) < patience v (hq_cq hw))%nat)
    | PollDone ok => ∃ wr, posted v qp = wr :: posted v' qp ∧ landed v' qp = landed v qp ++ (if ok : bool then [wr] else [])
    end;
}.

(** * The channel *)

(** [rl_this] is the address of the object. *)
Record RdmaChannel := mkRdmaChannel { rl_this : Z; rl_rdma : RdmaConn; rl_is_shutdown : bool }.

Section Ops.
Context {V : Type} `{RdmaLib V}.

Definition RdmaChannel_new (this : Z) (rdma : RdmaConn) : RdmaChannel := mkRdmaChannel this rdma false.

Definition err_attr : ibv_qp_attr := mkQpAttr IBV_QPS_ERR 0 0 [] IBV_MTU_256 0 0 0 0 ibv_ah_attr_zero 0 0 0 0 0.
Definition RdmaChannel_Shutdown (v : V) (ch : RdmaChannel) : V * RdmaChannel :=
  if rl_is_shutdown ch then (v, ch)
  else
    let ch' := mkRdmaChannel (rl_this ch) (rl_rdma ch) true in
    let qp := qr_qp (rn_qp (rl_rdma ch)) in
    if negb (qp =? 0) then ((ibv_modify_qp v qp err_attr [IBV_QP_STATE]).1, ch') else (v, ch').

Definition RdmaChannel_Read (ch : RdmaChannel) : Z := -1.

(** Another thread shuts the channel down before the [k]-th check of the flag, if [shut] is
    [Some k]. *)
Definition shut_seen (shut : option nat) (i : nat) : bool := match shut with Some k => (k <=? i)%nat | None => false end.

(** The polling loop, from its [i]-th check of the flag: the last report and the number of
    checks; [None] is an error. *)
Fixpoint poll_loop (fuel : nat) (v : V) (cq : Z) (shut : option nat) (i : nat) : res (V * option (poll_result * nat)) :=
  match fuel with
  | O => Fault Blocked
  | S fuel =>
      match ibv_poll_cq v cq with
      | (v, PollError) => Ok (v, None)
      | (v, PollEmpty) => if negb (shut_seen shut i) then poll_loop fuel v cq shut (S i) else Ok (v, Some (PollEmpty, S i))
      | (v, PollDone ok) => Ok (v, Some (PollDone ok, i))
      end
  end.

(** [wc.status == IBV_WC_SUCCESS]; the status that nobody wrote is zero, which is success. *)
Definition wc_success (wc : poll_result) : bool := match wc with PollDone ok => ok | PollEmpty | PollError => true end.

Definition kU32Max : Z := 2 ^ 32 - 1.
(** The work request for a chunk and its payload. *)
Definition write_wr (ch : RdmaChannel) (chunk : DataHeader) (payload : IoVec) : ibv_send_wr :=
  let sge := mkSge (iov_base payload) (u32 (iov_len payload)) (rn_lkey (rl_rdma ch)) in
  mkSendWr (rl_this ch) (if 0 <? iov_len payload then [sge] else []) true (dh_raddr chunk) (rn_rkey (rl_rdma ch)).

(** [load] reads the memory of a buffer. *)
Definition RdmaChannel_Write (fuel : nat) (load : IoVec → bytes) (shut : option nat) (v : V) (ch : RdmaChannel) (iovecs : list IoVec)
    : res (V * Z) :=
  if rl_is_shutdown ch then Ok (v, -1)
  else
    let qp := rn_qp (rl_rdma ch) in
    if qr_qp qp =? 0 then Ok (v, -1)
    else match iovecs with
    | [header; payload] =>
        match Deserialize_Data (load header) with
        | None => Ok (v, -1)
        | Some chunk =>
            if negb (DataHeader_IsData chunk) then Ok (v, -1)
            else if kU32Max <? iov_len payload then Ok (v, -1)
            else
              let '(v, ret) := ibv_post_send v (qr_qp qp) (write_wr ch chunk payload) in
              if negb (ret =? 0) then Ok (v, -1)
              else if qr_cq qp =? 0 then Ok (v, -1)
              else
                let* '(v, polled) := poll_loop fuel v (qr_cq qp) shut 0 in
                match polled with
                | None => Ok (v, -1)
                | Some (wc, i) =>
                    if shut_seen shut i then Ok (v, -1)
                    else if negb (wc_success wc) then Ok (v, -1)
                    else Ok (v, iov_len header + iov_len payload)
                end
        end
    | _ => Ok (v, -1)
    end.
End Ops.

(** * Lemmas *)

Section Lemmas.
Context {V : Type} `{W : WireLaws V}.

(** With one request outstanding the loop ends, and what it reports is the fate of that
    request. *)
Lemma poll_loop_ok qp hw shut wr fuel : ∀ v i, objs v !! qp = Some (OQp hw) → posted v qp = [wr] →
  (patience v (hq_cq hw) < fuel)%nat →
  ∃ v' r, poll_loop fuel v (hq_cq hw) shut i = Ok (v', r) ∧ objs v' = objs v ∧
    match r with
    | Some (PollDone ok, _) => posted v' qp = [] ∧ landed v' qp = landed v qp ++ (if ok : bool then [wr] else [])
    | Some (_, j) => shut_seen shut j = true ∧ posted v' qp = [wr] ∧ landed v' qp = landed v qp
    | None => posted v' qp = [wr] ∧ landed v' qp = landed v qp
    end.
Proof.
  induction fuel as [|fuel IH]; intros v i Ho Hp Hf; [lia|]. cbn [poll_loop].
  destruct (ibv_poll_cq v (hq_cq hw)) as [v1 r] eqn:E. destruct (poll_ok v qp hw v1 r Ho E) as [Eo Hr]. destruct r as [| |ok].
  - destruct Hr as [R1 R2]. exists v1, None. split_and!; try done. congruence.
  - destruct Hr as (R1 & R2 & R3). rewrite Hp in R1, R3. specialize (R3 ltac:(done)).
    destruct (shut_seen shut i) eqn:Hs; cbn [negb].
    + eexists v1, _. split; [done|]. split; [done|]. split; [|done]. unfold shut_seen in *. destruct shut as [k|]; [|done].
      apply Nat.leb_le in Hs. apply Nat.leb_le. lia.
    + destruct (IH v1 (S i)) as (v' & r & E' & Eo' & Hr'); [by rewrite Eo|done|lia|].
      exists v', r. rewrite Eo' , Eo. split; [done|]. split; [done|]. by rewrite <- R2.
  - destruct Hr as (x & R1 & R2). rewrite Hp in R1. injection R1 as <- R1. eexists v1, _. split; [done|]. split; [done|].
    by rewrite <- R1.
Qed.

(** [n] was returned and the payload of [iovecs] landed, once. *)
Definition wrote (v v' : V) (ch : RdmaChannel) (load : IoVec → bytes) (iovecs : list IoVec) (n : Z) : Prop :=
  let qp := qr_qp (rn_qp (rl_rdma ch)) in
  ∃ header payload chunk, iovecs = [header; payload] ∧ n = iov_len header + iov_len payload ∧
    Deserialize_Data (load header) = Some chunk ∧ DataHeader_IsData chunk = true ∧ iov_len payload < 2 ^ 32 ∧
    landed v' qp = landed v qp ++ [write_wr ch chunk payload] ∧ posted v' qp = [].
Definition write_outcome (v : V) (ch : RdmaChannel) (load : IoVec → bytes) (shut : option nat) (iovecs : list IoVec) (v' : V) (n : Z) : Prop :=
  let qp := qr_qp (rn_qp (rl_rdma ch)) in
  objs v' = objs v ∧ (n ≠ -1 → wrote v v' ch load iovecs n) ∧ (n = -1 → shut = None → landed v' qp = landed v qp).

Lemma write_fails v ch load shut iovecs v' : objs v' = objs v →
  (shut = None → landed v' (qr_qp (rn_qp (rl_rdma ch))) = landed v (qr_qp (rn_qp (rl_rdma ch)))) →
  ∃ v1 n, Ok (v', -1) = Ok (v1, n) ∧ write_outcome v ch load shut iovecs v1 n.
Proof. intros Eo El. exists v', (-1). by split_and!; [..|split_and!]. Qed.

Lemma Write_lands v ch load shut iovecs hw : qp_owns v (rn_qp (rl_rdma ch)) hw → posted v (qr_qp (rn_qp (rl_rdma ch))) = [] →
  Forall (λ io, 0 ≤ iov_len io) iovecs → ∃ fuel0, ∀ fuel, (fuel0 ≤ fuel)%nat →
  ∃ v' n, RdmaChannel_Write fuel load shut v ch iovecs = Ok (v', n) ∧ write_outcome v ch load shut iovecs v' n.
Proof.
  intros Ho Hp Hl. pose proof (qo_qp _ _ _ Ho) as Hq. destruct (qo_nz _ _ _ Ho) as [Hz1 Hz2]. destruct (qo_deps _ _ _ Ho) as [_ Hcq].
  unfold RdmaChannel_Write. destruct (rl_is_shutdown ch); [exists O; intros; by apply write_fails|].
  rewrite (proj2 (Z.eqb_neq (qr_qp _) 0)) by done.
  destruct iovecs as [|hd [|pl [|]]]; try (exists O; intros; by apply write_fails).
  destruct (Deserialize_Data (load hd)) as [chunk|] eqn:Ed; [|exists O; intros; by apply write_fails].
  destruct (DataHeader_IsData chunk) eqn:Edata; cbn [negb]; [|exists O; intros; by apply write_fails].
  destruct (Z.ltb_spec kU32Max (iov_len pl)) as [|Hlen]; [exists O; intros; by apply write_fails|].
  destruct (ibv_post_send v _ _) as [v1 ret] eqn:Epost. destruct (post_ok _ _ _ _ _ _ Hq Epost) as [Eo1 Hpost].
  destruct Hpost as [(-> & P1 & L1)|(Hr & P1 & L1)].
  2:{ exists O. intros. rewrite (proj2 (Z.eqb_neq _ _)) by done. by apply write_fails. }
  rewrite Hp in P1. cbn [negb Z.eqb app] in *. rewrite (proj2 (Z.eqb_neq (qr_cq _) 0)) by done.
  exists (S (patience v1 (hq_cq hw))). intros fuel Hf. rewrite <- Hcq.
  destruct (poll_loop_ok (qr_qp (rn_qp (rl_rdma ch))) hw shut _ fuel v1 0 ltac:(by rewrite Eo1) P1 ltac:(lia))
    as (v2 & r & -> & Eo2 & Hr). rewrite bind_Ok. rewrite L1 in Hr. assert (objs v2 = objs v) as Eo by congruence.
  destruct r as [[[| |ok] j]|]; [destruct Hr as (-> & _ & Hr2)..| |]; [apply write_fails; done..| |apply write_fails; [done|intros _; apply Hr]].
  destruct Hr as [R1 R2]. destruct (shut_seen shut j) eqn:Es; [apply write_fails; [done|]; by intros ->|].
  cbn [wc_success]. destruct ok; cbn [negb]; [|apply write_fails; [done|]; intros _; by rewrite R2, app_nil_r].
  eexists v2, _. split; [done|]. rewrite !Forall_cons in Hl. split; [done|]. split; [|lia]. intros _.
  exists hd, pl, chunk. split_and!; try done. unfold kU32Max in Hlen. lia.
Qed.

End Lemmas.

(** * Examples *)

#[export, program] Instance sim_wire : WireLaws rdma_sim := {
  posted s _ := sm_posted s; landed s _ := sm_landed s; patience s _ := sm_wait s;
}.
Next Obligation.
  intros s qp hw wr s' ret Ho E. cbn in Ho, E. rewrite Ho in E. destruct (bool_decide _); injection E as <- <-; (split; [done|]); [by left|by right].
Qed.
Next Obligation.
  intros s qp hw s' r _ E. cbn in E. destruct (sm_posted s) as [|wr wrs] eqn:Ep, (sm_wait s) as [|n] eqn:Ew; injection E as <- <-;
    (split; [done|]); rewrite ?Ep, ?Ew; cbn; try done; [by exists wr|]. split; [done|]. split; [done|]. intros _. lia.
Qed.

Definition sim_channel : RdmaChannel := RdmaChannel_new 4096 (RdmaConn_new sim_connected.1.2 7 8).
Definition sim_header : bytes := match Serialize_Data dh_sample 1 with Ok b => b | Fault _ => [] end.
Definition sim_iovecs : list IoVec := [mkIoVec 100 64; mkIoVec 8192 5].
Definition sim_write (s : rdma_sim) : option (Z * list Z * nat) :=
  match RdmaChannel_Write 10 (λ _, sim_header) None s sim_channel sim_iovecs with
  | Ok (s', n) => Some (n, wr_remote_addr <$> sm_landed s', length (sm_posted s'))
  | Fault _ => None
  end.
Example write_lands : sim_write sim_connected.1.1 = Some (69, [dh_raddr dh_sample], 0%nat).
Proof. vm_compute. reflexivity. Qed.

(** With a request of an earlier call outstanding, its report is taken for this one: the call
    succeeds while its own payload has not landed. *)
Example earlier_report_mistaken :
  let s := sim_connected.1.1 in
  sim_write (mkSim (sm_next s) (sm_table s) (sm_left s) [mkSendWr 4096 [] true 999 8] [] 1) = Some (69, [999], 1%nat).
Proof. vm_compute. reflexivity. Qed.

(** After [Shutdown] the device has the queue pair in its error state, and [IsConnected] still
    says that it is ready to send. *)
Example shutdown_still_connected :
  let '(s, ch) := RdmaChannel_Shutdown sim_connected.1.1 sim_channel in
  (IsConnected (rn_qp (rl_rdma ch)), sim_objs s !! qr_qp (rn_qp (rl_rdma ch)) ≫= λ o, match o with OQp h => Some (hq_state h) | _ => None end)
  = (true, Some IBV_QPS_ERR).
Proof. vm_compute. reflexivity. Qed.

(** A connection takes the keys of the first region, which are not those of another one. *)
Example default_key_is_first_region :
  let '(v, rm) := demo_table in
  let '(_, rm, c) := RegisterMemory v rm 16384 64 0 in
  (c, GetDefaultLKey rm mlx5_0, GetLKey rm 16384 64 mlx5_0) = (None, 1, Some 3).
Proof. vm_compute. reflexivity. Qed.

