(* ===== verification/Ownership.v ===== *)
(** Ownership of descriptors: a table of open descriptors is split among owners, each of
    which relies on something about its own, and a rest that nobody touches. *)

From stdpp Require Import base tactics numbers gmap fin_maps sets list.
From S2P Require Import Prelude.
Local Open Scope Z_scope.

(** A descriptor with what its owner relies on. *)
Definition cell_of (A : Type) : Type := Z * (A → Prop).

Record holds {A : Type} (t X : gmap Z A) (cs : list (cell_of A)) : Prop := {
  h_nodup : NoDup cs.*1;
  h_cell : ∀ c, c ∈ cs → ∃ i, t !! c.1 = Some i ∧ c.2 i;
  h_dom : dom t = list_to_set cs.*1 ∪ dom X;
  h_disj : list_to_set cs.*1 ## dom X;
  h_rest : X ⊆ t;
}.

#[export] Instance holds_Proper {A} (t X : gmap Z A) : Proper ((≡ₚ) ==> iff) (holds t X).
Proof.
  assert (∀ cs cs', cs ≡ₚ cs' → holds t X cs → holds t X cs') as Hp.
  { intros cs cs' E [Hn Hc Hd Hx Hr]. split; [..|done].
    - by rewrite <- E.
    - intros c Hin. apply Hc. by rewrite E.
    - rewrite Hd. f_equal. apply list_to_set_perm_L. by rewrite E.
    - intros x Hin. apply Hx. revert Hin. rewrite !elem_of_list_to_set. by rewrite E. }
  intros cs cs' E. split; by apply Hp.
Qed.

Section Holds.
Context {A : Type} (X : gmap Z A).

Lemma holds_fresh t cs fd : holds t X cs → t !! fd = None → (fd ∉ cs.*1) ∧ (fd ∉ dom X).
Proof. intros [_ _ Hd _ _] Hn%not_elem_of_dom. rewrite Hd in Hn. set_solver. Qed.

Lemma holds_insert t cs fd (P : A → Prop) i : holds t X cs → t !! fd = None → P i →
  holds (<[fd := i]> t) X ((fd, P) :: cs).
Proof.
  intros Hh Hn HP. destruct (holds_fresh t cs fd Hh Hn) as [Hc Hx]. destruct Hh as [Hnd Hcell Hd Hdj Hr]. split.
  - cbn [fmap list_fmap]. by constructor.
  - intros c [->|Hin]%elem_of_cons; [exists i; by rewrite lookup_insert_eq|].
    destruct (Hcell c Hin) as (j & Hj & ?). exists j. rewrite lookup_insert_ne; [done|].
    intros ->. congruence.
  - rewrite dom_insert_L, Hd. cbn [fmap list_fmap list_to_set fst]. set_solver.
  - cbn [fmap list_fmap list_to_set fst]. set_solver.
  - by apply insert_subseteq_r; [apply not_elem_of_dom|].
Qed.

Lemma holds_update t cs fd (P Q : A → Prop) i' : holds t X ((fd, P) :: cs) → Q i' →
  holds (<[fd := i']> t) X ((fd, Q) :: cs).
Proof.
  intros [Hnd Hcell Hd Hdj Hr] HQ. split; try done.
  - intros c [->|Hin]%elem_of_cons; [exists i'; by rewrite lookup_insert_eq|].
    destruct (Hcell c) as (j & Hj & ?); [by right|]. exists j. rewrite lookup_insert_ne; [done|].
    cbn in Hnd. apply NoDup_cons in Hnd as [Hnin _]. intros ->. by apply Hnin, list_elem_of_fmap_2.
  - rewrite dom_insert_lookup_L; [done|].
    destruct (Hcell (fd, P)) as (j & Hj & _); [by left|]. by exists j.
  - apply insert_subseteq_r; [|done]. apply not_elem_of_dom. cbn in Hdj. set_solver.
Qed.

Lemma holds_weaken t cs fd (P Q : A → Prop) : holds t X ((fd, P) :: cs) → (∀ i, P i → Q i) →
  holds t X ((fd, Q) :: cs).
Proof.
  intros [Hnd Hcell Hd Hdj Hr] HQ. split; try done. intros c [->|Hin]%elem_of_cons.
  - destruct (Hcell (fd, P)) as (j & Hj & ?); [by left|]. exists j. split; [done|by apply HQ].
  - apply Hcell. by right.
Qed.

(** The state of an owned descriptor is known exactly. *)
Lemma holds_exact t cs fd (P : A → Prop) i : holds t X ((fd, P) :: cs) → t !! fd = Some i →
  holds t X ((fd, eq i) :: cs).
Proof.
  intros [Hnd Hcell Hd Hdj Hr] Hi. split; try done. intros c [->|Hin]%elem_of_cons; [by exists i|].
  apply Hcell. by right.
Qed.

Lemma holds_delete t cs fd (P : A → Prop) : holds t X ((fd, P) :: cs) → holds (delete fd t) X cs.
Proof.
  intros [Hnd Hcell Hd Hdj Hr]. cbn [fmap list_fmap list_to_set fst] in *.
  apply NoDup_cons in Hnd as [Hnin Hnd]. split; [done| |rewrite dom_delete_L, Hd; set_solver|set_solver|].
  2:{ apply map_subseteq_spec. intros x i Hx. rewrite lookup_delete_ne; [by eapply lookup_weaken|].
      intros ->. assert (x ∈ dom X) by (apply elem_of_dom; eauto). set_solver. }
  intros c Hin. destruct (Hcell c) as (j & Hj & ?); [by right|]. exists j. split; [|done].
  rewrite lookup_delete_ne; [done|]. intros ->. by apply Hnin, list_elem_of_fmap_2.
Qed.

Lemma holds_lookup t cs c : holds t X cs → c ∈ cs → ∃ i, t !! c.1 = Some i ∧ c.2 i.
Proof. intros Hh. apply Hh. Qed.
Lemma holds_head t cs fd (P : A → Prop) : holds t X ((fd, P) :: cs) → ∃ i, t !! fd = Some i ∧ P i.
Proof. intros Hh. apply (holds_lookup t _ (fd, P) Hh). by left. Qed.

(** Two owners never share a descriptor. *)
Lemma holds_ne t cs c c' : holds t X (c :: cs) → c' ∈ cs → c'.1 ≠ c.1.
Proof.
  intros [Hn _ _ _ _] Hin E. cbn in Hn. apply NoDup_cons in Hn as [Hn _]. apply Hn. rewrite <- E.
  by apply list_elem_of_fmap_2.
Qed.
End Holds.
