(* ===== verification/FdTable.v ===== *)
(** The descriptor table: what the system promises about open descriptors, and the sockets
    and the event poller ([internal/event/poller]) on top of it.

    [fdt k] is the table of the open descriptors with what the code can observe of each:
    the socket name, whether it blocks, the epoll instances that watch it.  [FdLaws] says
    how each system call changes the table, after its manual page.  Ownership is stated in
    the style of separation logic: [holds t X cs] says that the table consists of exactly
    the descriptors of the cells [cs], each owned once and in the state its cell
    requires, and of the descriptors [X] of the rest of the process, unchanged.  An
    operation that leaks a descriptor, closes one twice or touches a foreign one cannot
    keep it. *)

From stdpp Require Import base tactics numbers gmap fin_maps sets list.
From S2P Require Import Prelude Ownership IpAddr Endpoint Socket.
Local Open Scope Z_scope.

(** * The event calls *)

Definition EPOLLIN : Z := 1.
Definition EPOLLOUT : Z := 4.
Definition EPOLLERR : Z := 8.
Definition EPOLLHUP : Z := 16.
Definition EPOLLRDHUP : Z := 8192.
Definition EPOLLET : Z := 2147483648.

(** Durations in nanoseconds, [None] for [absl::InfiniteDuration()]. *)
Definition Duration := option Z.

Class EventKernel (K : Type) := {
  epoll_create1 : K → K * Z * Z;
  epoll_ctl_add : K → Z → Z → Z → K * Z * Z;
  epoll_ctl_del : K → Z → Z → K * Z * Z;
  (* the result, errno, and the events as pairs of descriptor and flags *)
  epoll_wait : K → Z → Z → Z → K * Z * Z * list (Z * Z);
  (* one descriptor, POLLOUT *)
  poll_ : K → Z → Z → K * Z * Z;
  (* SO_ERROR: the result, the value, errno *)
  getsockopt_error : K → Z → K * Z * Z * Z;
  MonotonicNow : K → Z;
}.

(** * [Poller], by its epoll descriptor *)
Section Poller.
Context {K : Type} `{EventKernel K}.

Definition Poller_invariant (epoll_fd : Z) : bool := 0 <=? epoll_fd.

Definition Poller_Create (k : K) : res (K * option Z) :=
  let '(k, ret, _) := epoll_create1 k in
  if ret <? 0 then Ok (k, None)
  else do* dcheck (Poller_invariant ret); Ok (k, Some ret).

Definition Poller_destroy `{Kernel K} (k : K) (epoll_fd : Z) : res K :=
  do* dcheck (Poller_invariant epoll_fd); Ok (close_ k epoll_fd).

Definition Poller_Register (k : K) (epoll_fd fd events : Z) : K * Z :=
  let '(k, ret, _) := epoll_ctl_add k epoll_fd fd events in
  (k, if ret <? 0 then -1 else 0).

Definition Poller_Unregister (k : K) (epoll_fd fd : Z) : K * Z :=
  let '(k, ret, _) := epoll_ctl_del k epoll_fd fd in
  (k, if ret <? 0 then -1 else 0).

Definition BlockingWait (k : K) (epoll_fd max_events timeout_ms : Z) : res (K * Z * list (Z * Z)) :=
  do* dcheck (1 <=? max_events);
  let '(k, nfds, err, events) := epoll_wait k epoll_fd max_events timeout_ms in
  if (nfds <? 0) && (err =? EINTR) then Ok (k, 0, events) else Ok (k, nfds, events).

Definition GetSocketError (k : K) (fd : Z) : K * Z :=
  let '(k, ret, error, err) := getsockopt_error k fd in
  if ret <? 0 then (k, err) else (k, error).
End Poller.

(** * The table *)

Record fdinfo := mkFd {
  fi_stream : bool;             (* a TCP socket *)
  fi_name : option sockaddr;    (* getsockname *)
  fi_nonblock : bool;           (* O_NONBLOCK *)
  fi_watch : gset Z;            (* the epoll instances that watch it *)
}.

Definition set_name (a : option sockaddr) (i : fdinfo) : fdinfo := mkFd (fi_stream i) a (fi_nonblock i) (fi_watch i).
Definition set_nonblock (b : bool) (i : fdinfo) : fdinfo := mkFd (fi_stream i) (fi_name i) b (fi_watch i).
Definition set_watch (w : gset Z) (i : fdinfo) : fdinfo := mkFd (fi_stream i) (fi_name i) (fi_nonblock i) w.

Definition unwatch (w : Z) (i : fdinfo) : fdinfo := set_watch (fi_watch i ∖ {[w]}) i.

(** [backlog] counts the connections that have arrived and the interruptions to come. *)
Class FdKernel (K : Type) `{Kernel K} `{EventKernel K} := {
  fdt : K → gmap Z fdinfo;
  backlog : K → nat;
}.

(** Another descriptor of the same family, or none. *)
Definition renames (fd : Z) (i : fdinfo) (t t' : gmap Z fdinfo) : Prop :=
  t' = t ∨ ∃ a a', fi_name i = Some a ∧ sa_family a' = sa_family a ∧ t' = <[fd := set_name (Some a') i]> t.

(** The errors after which [Accept] tries again. *)
Definition Retry (err : Z) : bool := Interrupted err || (err =? EPROTO) || (err =? ECONNABORTED).

Class FdLaws (K : Type) `{FdKernel K} := {
  fl_view : ∀ (k : K) fd i, fdt k !! fd = Some i →
    0 ≤ fd ∧ 0 ≤ fcntl_getfd k fd ∧ 0 ≤ fcntl_getfl k fd ∧
    (Z.land (fcntl_getfl k fd) O_NONBLOCK =? 0) = negb (fi_nonblock i) ∧ getsockname k fd = fi_name i;
  fl_setfl : ∀ (k : K) fd i fl k' ret, fdt k !! fd = Some i → fcntl_setfl k fd fl = (k', ret) →
    ret = 0 ∧ fdt k' = <[fd := set_nonblock (negb (Z.land fl O_NONBLOCK =? 0)) i]> (fdt k) ∨
    ret ≠ 0 ∧ fdt k' = fdt k;
  fl_socket : ∀ (k : K) family type k' ret err, socket_ k family type = (k', ret, err) →
    ret < 0 ∧ fdt k' = fdt k ∨
    fdt k !! ret = None ∧ ∃ a, sa_family a = family ∧
      fdt k' = <[ret := mkFd (Z.land type 15 =? SOCK_STREAM) (Some a)
                          (negb (Z.land type SOCK_NONBLOCK =? 0)) ∅]> (fdt k);
  fl_setsockopt : ∀ (k : K) fd lvl opt v k' ret err, setsockopt k fd lvl opt v = (k', ret, err) →
    fdt k' = fdt k ∧ backlog k' = backlog k;
  fl_nodelay : ∀ (k : K) fd i k' ret err, fdt k !! fd = Some i → fi_stream i = true →
    setsockopt k fd IPPROTO_TCP TCP_NODELAY 1 = (k', ret, err) → 0 ≤ ret;
  fl_bind : ∀ (k : K) fd i sa k' ret err, fdt k !! fd = Some i → bind_ k fd sa = (k', ret, err) →
    renames fd i (fdt k) (fdt k');
  fl_connect : ∀ (k : K) fd i sa k' ret err, fdt k !! fd = Some i → connect_ k fd sa = (k', ret, err) →
    renames fd i (fdt k) (fdt k') ∧ (ret < 0 → fi_nonblock i = false → InProgress err = false);
  fl_listen : ∀ (k : K) fd n k' ret err, listen_ k fd n = (k', ret, err) → fdt k' = fdt k;
  fl_shutdown : ∀ (k : K) fd, fdt (shutdown_ k fd) = fdt k;
  fl_close : ∀ (k : K) fd i, fdt k !! fd = Some i → fi_stream i = true → fdt (close_ k fd) = delete fd (fdt k);
  fl_close_epoll : ∀ (k : K) fd i, fdt k !! fd = Some i → fi_stream i = false →
    fdt (close_ k fd) = delete fd (unwatch fd <$> fdt k);
  fl_watch : ∀ (k : K) fd i w, fdt k !! fd = Some i → w ∈ fi_watch i →
    ∃ j, fdt k !! w = Some j ∧ fi_stream j = false;
  fl_accept : ∀ (k : K) fd i a flags k' ret err, fdt k !! fd = Some i → fi_name i = Some a →
    accept4 k fd flags = (k', ret, err) →
    ret < 0 ∧ fdt k' = fdt k ∧ (Retry err = true → (backlog k' < backlog k)%nat) ∨
    fdt k !! ret = None ∧ (backlog k' < backlog k)%nat ∧ ∃ a', sa_family a' = sa_family a ∧
      fdt k' = <[ret := mkFd true (Some a') (negb (Z.land flags SOCK_NONBLOCK =? 0)) ∅]> (fdt k);
  fl_epoll_create : ∀ (k : K) k' ret err, epoll_create1 k = (k', ret, err) →
    ret < 0 ∧ fdt k' = fdt k ∨
    fdt k !! ret = None ∧ ∃ i, fi_stream i = false ∧ fi_watch i = ∅ ∧ fdt k' = <[ret := i]> (fdt k);
  fl_add : ∀ (k : K) ep fd i ev k' ret err, fdt k !! fd = Some i → epoll_ctl_add k ep fd ev = (k', ret, err) →
    ret < 0 ∧ fdt k' = fdt k ∨ 0 ≤ ret ∧ fdt k' = <[fd := set_watch ({[ep]} ∪ fi_watch i) i]> (fdt k);
  fl_del : ∀ (k : K) ep fd i k' ret err, fdt k !! fd = Some i → ep ∈ fi_watch i →
    epoll_ctl_del k ep fd = (k', ret, err) → fdt k' = <[fd := set_watch (fi_watch i ∖ {[ep]}) i]> (fdt k);
  fl_wait : ∀ (k : K) ep mx tmo k' n err evs, epoll_wait k ep mx tmo = (k', n, err, evs) →
    fdt k' = fdt k ∧ (0 ≤ n → n = Z.of_nat (length evs) ∧ n ≤ mx ∧ NoDup evs.*1 ∧
      ∀ fd, fd ∈ evs.*1 → ∃ i, fdt k !! fd = Some i ∧ ep ∈ fi_watch i);
  fl_poll : ∀ (k : K) fd tmo k' n err, poll_ k fd tmo = (k', n, err) → fdt k' = fdt k;
  fl_error : ∀ (k : K) fd k' ret v err, getsockopt_error k fd = (k', ret, v, err) → fdt k' = fdt k;
}.

Abbreviation cell := (cell_of fdinfo).

(** * Sockets as cells *)

Definition is_inet (family : Z) : bool := (family =? AF_INET) || (family =? AF_INET6).

Definition sock_ok (s : SocketBase) (i : fdinfo) : Prop :=
  fi_stream i = true ∧ fi_nonblock i = negb (sk_blocking s) ∧ is_inet (sk_family s) = true ∧
  ∃ a, fi_name i = Some a ∧ sa_family a = sk_family s.

(** A socket watched by exactly the epoll instances [W]. *)
Definition sock (W : gset Z) (s : SocketBase) : cell := (sk_fd s, λ i, sock_ok s i ∧ fi_watch i = W).

Lemma sock_set_connected W s b : sock W (set_connected s b) = sock W s.
Proof. done. Qed.

Lemma land_setfl_clear fl : (Z.land (Z.land fl (Z.lnot O_NONBLOCK)) O_NONBLOCK =? 0) = true.
Proof. rewrite <- Z.land_assoc, (Z.land_comm (Z.lnot _)), Z.land_lnot_diag, Z.land_0_r. done. Qed.
Lemma land_setfl_set fl : (Z.land (Z.lor fl O_NONBLOCK) O_NONBLOCK =? 0) = false.
Proof. rewrite Z.land_lor_distr_l, Z.land_diag. apply Z.eqb_neq. rewrite Z.lor_eq_0_iff. intros [_ ?]. done. Qed.

Section Triples.
Context {K : Type} `{FdLaws K}.
Implicit Types (k : K) (s : SocketBase) (cs : list cell) (X : gmap Z fdinfo) (W : gset Z).

Lemma matches_mode k fd i b : fdt k !! fd = Some i → fi_nonblock i = negb b → MatchesBlockingMode k fd b = true.
Proof.
  intros (_ & _ & Hfl & Hm & _)%fl_view Hb. rewrite Hb in Hm.
  unfold MatchesBlockingMode, IsBlockingMode, IsNonBlockingMode. apply Z.leb_le in Hfl.
  rewrite Hfl, Hm. by destruct b.
Qed.

Lemma sock_invariant k s i : fdt k !! sk_fd s = Some i → sock_ok s i → sk_invariant k s = true.
Proof.
  intros Hi (_ & Hb & Hf & a & Ha & Hfam). pose proof (matches_mode k _ i _ Hi Hb) as Hm.
  destruct (fl_view k _ i Hi) as (Hv1 & Hv2 & _ & _ & Hn).
  unfold sk_invariant, IsValidSocket, AddrFamily, MatchesBlocking.
  rewrite Hn, Ha. cbn [from_option]. unfold MatchesBlockingMode in Hm.
  rewrite Hm, Hfam, Z.eqb_refl. unfold is_inet in Hf. rewrite Hf.
  rewrite !andb_true_r. apply andb_true_intro; split; by apply Z.leb_le.
Qed.

Lemma holds_sock_invariant k X W s cs : holds (fdt k) X (sock W s :: cs) → sk_invariant k s = true.
Proof. intros (i & Hi & Hs & _)%holds_head. by eapply sock_invariant. Qed.

Lemma holds_sock_matches k X W s cs : holds (fdt k) X (sock W s :: cs) → MatchesBlocking k s = true.
Proof. intros Hh. by eapply invariant_matches, holds_sock_invariant. Qed.

Lemma IsNonBlocking_ok k s : MatchesBlocking k s = true → IsNonBlocking k s = Ok (negb (sk_blocking s)).
Proof. intros Hm. unfold IsNonBlocking. by rewrite Hm. Qed.
Lemma IsBlocking_ok k s : MatchesBlocking k s = true → IsBlocking k s = Ok (sk_blocking s).
Proof. intros Hm. unfold IsBlocking. by rewrite Hm. Qed.

(** The destructor releases the descriptor. *)
Lemma destroy_cell_ok k X s (P : fdinfo → Prop) cs : (∀ i, P i → sock_ok s i) →
  holds (fdt k) X ((sk_fd s, P) :: cs) → ∃ k', Socket_destroy k s = Ok k' ∧ holds (fdt k') X cs.
Proof.
  intros HP Hh. destruct (holds_head _ _ _ _ _ Hh) as (i & Hl & Hs%HP).
  pose proof (sock_invariant _ _ _ Hl Hs) as Hi.
  unfold Socket_destroy, Socket_Shutdown. rewrite !(bind_dcheck (sk_invariant k s)) by done.
  destruct (sk_connected s) eqn:Hc.
  - assert (sk_invariant (shutdown_ k (sk_fd s)) (set_connected s false) = true) as Hi'.
    { apply (sock_invariant _ _ i); [by rewrite fl_shutdown|done]. }
    rewrite bind_dcheck, bind_Ok, bind_dcheck, bind_dcheck by done.
    eexists. split; [done|]. rewrite (fl_close _ _ i), fl_shutdown by (rewrite ?fl_shutdown; by try destruct Hs). by eapply holds_delete.
  - rewrite bind_Ok, bind_dcheck, bind_dcheck by (rewrite ?Hc; done).
    eexists. split; [done|]. rewrite (fl_close _ _ i) by (by try destruct Hs). by eapply holds_delete.
Qed.
Lemma destroy_ok k X W s cs : holds (fdt k) X (sock W s :: cs) →
  ∃ k', Socket_destroy k s = Ok k' ∧ holds (fdt k') X cs.
Proof. apply destroy_cell_ok. by intros i [? _]. Qed.

Lemma shutdown_ok k s i : fdt k !! sk_fd s = Some i → sock_ok s i →
  ∃ k', Socket_Shutdown k s = Ok (k', set_connected s false) ∧ fdt k' = fdt k.
Proof.
  intros Hl Hs. unfold Socket_Shutdown. rewrite bind_dcheck by by eapply sock_invariant.
  rewrite bind_dcheck; [eexists; split; [done|]; by rewrite fl_shutdown|].
  apply (sock_invariant _ _ i); [by rewrite fl_shutdown|done].
Qed.

Lemma init_ok k X cs fd family b c : holds (fdt k) X (sock ∅ (mkSocketBase fd family b c) :: cs) →
  ∃ k', Tcp_init k fd family b c = Ok (k', Some (mkSocketBase fd family b c)) ∧
    holds (fdt k') X (sock ∅ (mkSocketBase fd family b c) :: cs) ∧ backlog k' = backlog k.
Proof.
  intros Hh. pose proof (holds_sock_invariant _ _ _ _ _ Hh) as Hi.
  destruct (holds_head _ _ _ _ _ Hh) as (i & Hl & (Hst & _ & Hf & _) & _).
  unfold Tcp_init, SocketBase_new, setNoDelay. cbn [sk_fd sk_family] in *.
  rewrite bind_dcheck by (apply Z.leb_le; by destruct (fl_view _ _ _ Hl)).
  rewrite (bind_dcheck (_ || _)) by done. rewrite bind_dcheck, bind_Ok, bind_dcheck by done.
  destruct (setsockopt k _ _ _ _) as [[k' ret] err] eqn:E. cbn [sk_fd] in E.
  pose proof (fl_nodelay _ _ _ _ _ _ Hl Hst E). destruct (fl_setsockopt _ _ _ _ _ _ _ _ E) as [Ht Hb].
  rewrite (proj2 (Z.ltb_ge ret 0)) by done. rewrite bind_Ok. cbn [Z.ltb Z.compare].
  exists k'. split; [done|]. by rewrite Ht.
Qed.

Lemma stream_type b : Z.land (Z.lor (Z.lor SOCK_STREAM (if b : bool then 0 else SOCK_NONBLOCK)) SOCK_CLOEXEC) 15 = 1 ∧
  negb (Z.land (Z.lor (Z.lor SOCK_STREAM (if b then 0 else SOCK_NONBLOCK)) SOCK_CLOEXEC) SOCK_NONBLOCK =? 0) = negb b.
Proof. by destruct b. Qed.

Lemma create_ok k X cs family b : is_inet family = true → holds (fdt k) X cs →
  ∃ k' o, Tcp_Create k family b = Ok (k', o) ∧
    match o with
    | Some s => sk_family s = family ∧ sk_blocking s = b ∧ sk_connected s = false ∧
        holds (fdt k') X (sock ∅ s :: cs)
    | None => holds (fdt k') X cs
    end.
Proof.
  intros Hf Hh. unfold Tcp_Create, CreateSocket. rewrite (bind_dcheck (_ || _)) by done.
  rewrite bind_dcheck by done. destruct (socket_ k family _) as [[k' ret] err] eqn:E.
  destruct (stream_type b) as [Hst Hnb].
  destruct (fl_socket _ _ _ _ _ _ E) as [[Hr Ht]|(Hn & a & Ha & Ht)].
  { rewrite (proj2 (Z.ltb_lt ret 0)) by done. rewrite bind_Ok. cbn [Z.ltb Z.compare].
    exists k', None. split; [done|by rewrite Ht]. }
  rewrite Hst, Hnb in Ht.
  assert (holds (fdt k') X (sock ∅ (mkSocketBase ret family b false) :: cs)) as Hh'.
  { rewrite Ht. apply holds_insert; [done..|]. split; [|done]. split_and!; try done. by exists a. }
  destruct (holds_head _ _ _ _ _ Hh') as (i & Hl & (_ & Hb & _) & _). cbn in Hl.
  pose proof (proj1 (fl_view _ _ _ Hl)) as Hpos.
  rewrite (proj2 (Z.ltb_ge ret 0)) by done.
  rewrite bind_dcheck by by eapply matches_mode. rewrite bind_Ok, (proj2 (Z.ltb_ge ret 0)) by done.
  destruct (init_ok k' X cs ret family b false Hh') as (k'' & E' & Hh'' & _). rewrite E'. by eexists k'', _.
Qed.

(** [bind] and [connect] may give the socket a name. *)
Lemma rename_ok k k' X W s cs i : holds (fdt k) X (sock W s :: cs) → fdt k !! sk_fd s = Some i →
  sock_ok s i → fi_watch i = W → renames (sk_fd s) i (fdt k) (fdt k') → holds (fdt k') X (sock W s :: cs).
Proof.
  intros Hh Hl (Hst & Hb & Hf & a0 & Ha0 & Hfam) Hw [->|(a & a' & Ha & Hfa & ->)]; [done|].
  eapply holds_update; [done|]. split; [|done]. split_and!; try done. exists a'. split; [done|]. congruence.
Qed.

Lemma BuildSockaddr_ok e : ∃ sa, BuildSockaddr e = Ok sa.
Proof. unfold BuildSockaddr, BuildIPv4Sockaddr, BuildIPv6Sockaddr. destruct e as [[a|a] p]; cbn; eauto. Qed.

Lemma bind_ok k X W s cs e : holds (fdt k) X (sock W s :: cs) →
  ∃ k' r, Socket_Bind k s e = Ok (k', r) ∧ holds (fdt k') X (sock W s :: cs).
Proof.
  intros Hh. pose proof (holds_sock_invariant _ _ _ _ _ Hh) as Hi.
  destruct (holds_head _ _ _ _ _ Hh) as (i & Hl & Hs & Hw).
  unfold Socket_Bind, Base_Bind. rewrite bind_dcheck by done.
  rewrite bind_dcheck by (apply Z.leb_le; by destruct (fl_view _ _ _ Hl) as (? & ? & _)).
  destruct (BuildSockaddr_ok e) as [sa ->]. rewrite !bind_Ok.
  destruct (bind_ k _ _) as [[k' ret] err] eqn:E. rewrite ?bind_Ok. eexists k', _. split; [done|].
  eapply rename_ok; [done..|]. by eapply fl_bind.
Qed.

(** [Connect]: a blocking socket is never left in progress. *)
Lemma connect_ok k X W s cs e : holds (fdt k) X (sock W s :: cs) → sk_connected s = false →
  HasNonzeroIpPort e = true →
  ∃ k' s' r, Tcp_Connect k s e = Ok (k', s', r) ∧ holds (fdt k') X (sock W s' :: cs) ∧
    (r = kConnectSuccess ∧ s' = set_connected s true ∨ r = kConnectError ∧ s' = s ∨
     r = kConnectInProgress ∧ s' = s ∧ sk_blocking s = false).
Proof.
  intros Hh Hc He. pose proof (holds_sock_invariant _ _ _ _ _ Hh) as Hi.
  pose proof (holds_sock_matches _ _ _ _ _ Hh) as Hm.
  destruct (holds_head _ _ _ _ _ Hh) as (i & Hl & Hs & Hw).
  unfold Tcp_Connect, Base_Connect. rewrite bind_dcheck by done. rewrite bind_dcheck by by rewrite Hc.
  rewrite IsNonBlocking_ok, IsBlocking_ok by done. rewrite !bind_Ok, bind_dcheck by by destruct (sk_blocking s).
  rewrite bind_dcheck by (apply Z.leb_le; by destruct (fl_view _ _ _ Hl) as (? & ? & _)).
  rewrite bind_dcheck by done. destruct (BuildSockaddr_ok e) as [sa ->]. rewrite !bind_Ok.
  destruct (connect_ k _ _) as [[k' ret] err] eqn:E. rewrite ?bind_Ok.
  destruct (fl_connect _ _ _ _ _ _ _ Hl E) as [Hr Hb].
  assert (holds (fdt k') X (sock W s :: cs)) as Hh' by by eapply rename_ok.
  destruct (ret <? 0) eqn:Er; [apply Z.ltb_lt in Er|eexists k', _, _; split; [done|]; by auto].
  eexists k', s, _. split; [done|]. split; [done|]. destruct (InProgress err) eqn:Ei; [|by auto].
  right. right. split_and!; try done. destruct (sk_blocking s) eqn:Eb; [|done].
  assert (fi_nonblock i = false) as Hf by (destruct Hs as (_ & -> & _); by rewrite Eb).
  pose proof (Hb Er Hf) as Hp. congruence.
Qed.

Lemma listen_ok k X W s cs e n : holds (fdt k) X (sock W s :: cs) →
  ∃ k' r, Tcp_Listen k s e n = Ok (k', r) ∧ holds (fdt k') X (sock W s :: cs).
Proof.
  intros Hh. pose proof (holds_sock_invariant _ _ _ _ _ Hh) as Hi.
  unfold Tcp_Listen, Base_Bind. rewrite bind_dcheck by done.
  destruct (setsockopt k _ _ _ _) as [[k1 ret] err] eqn:E.
  destruct (fl_setsockopt _ _ _ _ _ _ _ _ E) as [Ht _]. rewrite <- Ht in Hh.
  destruct (negb (ret =? 0)); [by eexists k1, _|].
  destruct (holds_head _ _ _ _ _ Hh) as (i & Hl & Hs & Hw).
  rewrite bind_dcheck by (apply Z.leb_le; by destruct (fl_view _ _ _ Hl) as (? & ? & _)).
  destruct (BuildSockaddr_ok e) as [sa ->]. rewrite !bind_Ok.
  destruct (bind_ k1 _ _) as [[k2 ret2] err2] eqn:E2. rewrite ?bind_Ok.
  assert (holds (fdt k2) X (sock W s :: cs)) as Hh2 by (eapply rename_ok; [done..|by eapply fl_bind]).
  destruct (ret2 <? 0); [by eexists k2, _|].
  destruct (listen_ k2 _ _) as [[k3 ret3] err3] eqn:E3. eexists k3, _. split; [done|].
  by rewrite (fl_listen _ _ _ _ _ _ E3).
Qed.

Lemma SetBlocking_ok k X W s cs b : holds (fdt k) X (sock W s :: cs) →
  ∃ k' s' r, SetBlocking k s b = Ok (k', s', r) ∧ holds (fdt k') X (sock W s' :: cs) ∧
    (r = 0 ∧ s' = set_blocking s b ∨ r = -1 ∧ s' = s).
Proof.
  intros Hh. pose proof (holds_sock_matches _ _ _ _ _ Hh) as Hm. unfold SetBlocking.
  destruct (Bool.eqb b (sk_blocking s)) eqn:Eb.
  { apply eqb_prop in Eb. rewrite bind_dcheck by done. eexists k, s, 0. split; [done|]. split; [done|].
    left. split; [done|]. subst b. by destruct s. }
  apply eqb_false_iff in Eb. destruct (holds_head _ _ _ _ _ Hh) as (i & Hl & Hs & Hw).
  unfold SetSocketBlockingMode. rewrite (proj2 (Z.ltb_ge (fcntl_getfl k (sk_fd s)) 0))
    by by destruct (fl_view _ _ _ Hl) as (_ & _ & ? & _).
  destruct (fcntl_setfl k _ _) as [k' ret] eqn:E.
  destruct (fl_setfl _ _ _ _ _ _ Hl E) as [[-> Ht]|[Hr Ht]].
  - cbn [Z.eqb]. assert (holds (fdt k') X (sock W (set_blocking s b) :: cs)) as Hh'.
    { rewrite Ht. eapply holds_update; [exact Hh|]. destruct Hs as (Hst & Hnb & Hf & Ha). split; [|done].
      split_and!; try done. cbn. by destruct b; rewrite ?land_setfl_clear, ?land_setfl_set. }
    rewrite bind_dcheck by by eapply holds_sock_matches. eexists k', _, 0. by auto.
  - rewrite (proj2 (Z.eqb_neq ret 0)) by done. rewrite <- Ht in Hh.
    rewrite bind_dcheck by by eapply holds_sock_matches. eexists k', s, (-1). by auto.
Qed.

(** [Accept] hands out one fresh descriptor or none. *)
Lemma accept_flags g : negb (Z.land (Z.lor (if g : bool then 0 else SOCK_NONBLOCK) SOCK_CLOEXEC) SOCK_NONBLOCK =? 0)
  = negb g.
Proof. by destruct g. Qed.

Lemma Accept_loop_ok fuel X s cs g : ∀ k i, holds (fdt k) X cs → fdt k !! sk_fd s = Some i → sock_ok s i →
  (backlog k < fuel)%nat →
  ∃ k' r, Accept_loop fuel k s g = Ok (k', r) ∧
    (r < 0 ∧ holds (fdt k') X cs ∨
     0 ≤ r ∧ (backlog k' < backlog k)%nat ∧
       holds (fdt k') X (sock ∅ (mkSocketBase r (sk_family s) g true) :: cs)).
Proof.
  induction fuel as [|fuel IH]; intros k i Hh Hl Hs Hf; [lia|]. cbn [Accept_loop].
  destruct Hs as (Hst & Hnb & Hfam & a & Ha & Hfa).
  destruct (accept4 k _ _) as [[k' ret] err] eqn:E.
  destruct (fl_accept _ _ _ _ _ _ _ _ Hl Ha E) as [(Hr & Ht & Hbl)|(Hn & Hbl & a' & Hfa' & Ht)].
  - rewrite (proj2 (Z.ltb_lt ret 0)) by done. rewrite <- Ht in Hh, Hl.
    destruct (WouldBlock err); [eexists k', _; split; [done|]; left; done|].
    destruct (Interrupted err || (err =? EPROTO) || (err =? ECONNABORTED)) eqn:Er.
    { specialize (Hbl Er). destruct (IH k' i Hh Hl) as (k2 & r & E2 & Hr2); [|lia|].
      { split_and!; try done. by exists a. }
      exists k2, r. split; [done|]. destruct Hr2 as [?|(? & ? & ?)]; [by left|]. right. split_and!; try done. lia. }
    destruct (err =? EINVAL); [|destruct (OutOfResource err)]; (eexists k', _; split; [done|]; by left).
  - assert (holds (fdt k') X (sock ∅ (mkSocketBase ret (sk_family s) g true) :: cs)) as Hh'.
    { rewrite Ht, accept_flags. apply holds_insert; [done..|]. split; [|done]. split_and!; try done.
      exists a'. split; [done|]. cbn. congruence. }
    destruct (holds_head _ _ _ _ _ Hh') as (j & Hj & (_ & Hb & _) & _). cbn in Hj, Hb.
    pose proof (proj1 (fl_view _ _ _ Hj)) as Hpos. rewrite (proj2 (Z.ltb_ge ret 0)) by done.
    rewrite bind_dcheck by by eapply matches_mode. eexists k', ret. split; [done|]. by right.
Qed.

Lemma accept_ok fuel X s cs g k i : holds (fdt k) X cs → fdt k !! sk_fd s = Some i → sock_ok s i →
  (backlog k < fuel)%nat →
  ∃ k' r, Tcp_Accept fuel k s g = Ok (k', r) ∧
    (r < 0 ∧ holds (fdt k') X cs ∨
     0 ≤ r ∧ (backlog k' < backlog k)%nat ∧
       holds (fdt k') X (sock ∅ (mkSocketBase r (sk_family s) g true) :: cs)).
Proof.
  intros Hh Hl Hs Hf. pose proof (sock_invariant _ _ _ Hl Hs) as Hi. pose proof (invariant_matches _ _ Hi) as Hm.
  unfold Tcp_Accept. rewrite bind_dcheck by done. rewrite IsNonBlocking_ok, IsBlocking_ok by done.
  rewrite !bind_Ok, bind_dcheck by by destruct (sk_blocking s). by eapply Accept_loop_ok.
Qed.

(** The poller. *)
Definition pollcell (ep : Z) : cell := (ep, λ i, fi_stream i = false ∧ fi_watch i = ∅).

(** No descriptor of the rest of the process is watched by [ep]. *)
Definition apart (ep : Z) (X : gmap Z fdinfo) : Prop := ∀ fd i, X !! fd = Some i → ep ∉ fi_watch i.

Lemma Poller_Create_ok k X cs : holds (fdt k) X cs →
  ∃ k' o, Poller_Create k = Ok (k', o) ∧
    match o with
    | Some ep => apart ep X ∧ holds (fdt k') X (pollcell ep :: cs)
    | None => holds (fdt k') X cs
    end.
Proof.
  intros Hh. unfold Poller_Create. destruct (epoll_create1 k) as [[k' ret] err] eqn:E.
  destruct (fl_epoll_create _ _ _ _ E) as [[Hr Ht]|(Hn & i & Hst & Hw & Ht)].
  - rewrite (proj2 (Z.ltb_lt ret 0)) by done. exists k', None. by rewrite Ht.
  - assert (holds (fdt k') X (pollcell ret :: cs)) as Hh' by (rewrite Ht; by apply holds_insert).
    destruct (holds_head _ _ _ _ _ Hh') as (j & Hj & _). pose proof (proj1 (fl_view _ _ _ Hj)) as Hpos.
    rewrite (proj2 (Z.ltb_ge ret 0)) by done. rewrite bind_dcheck by by apply Z.leb_le.
    exists k', (Some ret). split; [done|]. split; [|done]. intros fd x Hx Hin.
    destruct (fl_watch k fd x ret) as (y & Hy & _); [|done|congruence].
    by eapply lookup_weaken, h_rest.
Qed.

Lemma unwatch_id ep i : ep ∉ fi_watch i → unwatch ep i = i.
Proof. destruct i as [a b c w]. unfold unwatch, set_watch. cbn. intros Hn. f_equal. set_solver. Qed.

Lemma Poller_destroy_frame k X ep cs : holds (fdt k) X (pollcell ep :: cs) → apart ep X →
  (∀ c i, c ∈ cs → c.2 i → ep ∉ fi_watch i) → ∃ k', Poller_destroy k ep = Ok k' ∧ holds (fdt k') X cs.
Proof.
  intros Hh Hap Hcs. destruct (holds_head _ _ _ _ _ Hh) as (j & Hj & Hst & _).
  pose proof (proj1 (fl_view _ _ _ Hj)) as Hpos.
  unfold Poller_destroy. rewrite bind_dcheck by by apply Z.leb_le. eexists. split; [done|].
  rewrite (fl_close_epoll _ _ _ Hj Hst).
  assert (delete ep (unwatch ep <$> fdt k) = delete ep (fdt k)) as ->; [|by eapply holds_delete].
  apply map_eq. intros fd. destruct (decide (fd = ep)) as [->|Hne]; [by rewrite !lookup_delete_eq|].
  rewrite !lookup_delete_ne, lookup_fmap by done. destruct (fdt k !! fd) as [i|] eqn:Hi; [|done].
  cbn. f_equal. apply unwatch_id. destruct Hh as [_ Hc Hd _ Hr].
  assert (fd ∈ dom (fdt k)) as Hin by (apply elem_of_dom; eauto). rewrite Hd in Hin.
  apply elem_of_union in Hin as [Hin|Hin].
  - apply elem_of_list_to_set, list_elem_of_fmap in Hin as (c & -> & Hin).
    destruct (Hc c Hin) as (i' & Hi' & Hci). rewrite Hi in Hi'. injection Hi' as <-.
    apply elem_of_cons in Hin as [->|Hin]; [done|]. by apply (Hcs c).
  - apply elem_of_dom in Hin as [i' Hi']. apply (Hap fd). pose proof (lookup_weaken _ _ _ _ Hi' Hr). congruence.
Qed.
Lemma Poller_destroy_ok k X ep : holds (fdt k) X [pollcell ep] → apart ep X →
  ∃ k', Poller_destroy k ep = Ok k' ∧ holds (fdt k') X [].
Proof. intros Hh Ha. apply Poller_destroy_frame; [done..|]. by intros c i ?%elem_of_nil. Qed.

Lemma Register_cell_ok k X ep fd (P Q : fdinfo → Prop) cs ev : holds (fdt k) X ((fd, P) :: cs) →
  (∀ i, P i → Q (set_watch ({[ep]} ∪ fi_watch i) i)) →
  ∃ k' r, Poller_Register k ep fd ev = (k', r) ∧
    (r = 0 ∧ holds (fdt k') X ((fd, Q) :: cs) ∨ r = -1 ∧ holds (fdt k') X ((fd, P) :: cs)).
Proof.
  intros Hh HQ. destruct (holds_head _ _ _ _ _ Hh) as (i & Hl & HP). unfold Poller_Register.
  destruct (epoll_ctl_add k _ _ _) as [[k' ret] err] eqn:E.
  destruct (fl_add _ _ _ _ _ _ _ _ Hl E) as [[Hr Ht]|[Hr Ht]].
  - rewrite (proj2 (Z.ltb_lt ret 0)) by done. exists k', (-1). rewrite Ht. by auto.
  - rewrite (proj2 (Z.ltb_ge ret 0)) by done. exists k', 0. split; [done|]. left. split; [done|]. rewrite Ht.
    eapply holds_update; [done|]. by apply HQ.
Qed.
Lemma Register_ok k X ep s cs ev : holds (fdt k) X (sock ∅ s :: cs) →
  ∃ k' r, Poller_Register k ep (sk_fd s) ev = (k', r) ∧
    (r = 0 ∧ holds (fdt k') X (sock {[ep]} s :: cs) ∨ r = -1 ∧ holds (fdt k') X (sock ∅ s :: cs)).
Proof.
  intros Hh. eapply Register_cell_ok; [exact Hh|]. intros i [Hs Hw]. split; [done|]. cbn. rewrite Hw.
  by apply union_empty_r_L.
Qed.

Lemma Unregister_ok k X ep s cs : holds (fdt k) X (sock {[ep]} s :: cs) →
  ∃ k' r, Poller_Unregister k ep (sk_fd s) = (k', r) ∧ holds (fdt k') X (sock ∅ s :: cs).
Proof.
  intros Hh. destruct (holds_head _ _ _ _ _ Hh) as (i & Hl & Hs & Hw). unfold Poller_Unregister.
  destruct (epoll_ctl_del k _ _) as [[k' ret] err] eqn:E. eexists k', _. split; [done|].
  assert (ep ∈ fi_watch i) as Hin by (rewrite Hw; set_solver).
  rewrite (fl_del _ _ _ _ _ _ _ Hl Hin E), Hw.
  eapply holds_update; [done|]. split; [done|]. cbn. set_solver.
Qed.

Lemma BlockingWait_ok k X ep cs mx tmo : holds (fdt k) X cs → 1 ≤ mx →
  ∃ k' n evs, BlockingWait k ep mx tmo = Ok (k', n, evs) ∧ fdt k' = fdt k ∧
    (0 < n → n = Z.of_nat (length evs) ∧ n ≤ mx ∧ NoDup evs.*1 ∧
      ∀ fd, fd ∈ evs.*1 → ∃ i, fdt k !! fd = Some i ∧ ep ∈ fi_watch i).
Proof.
  intros Hh Hm. unfold BlockingWait. rewrite bind_dcheck by by apply Z.leb_le.
  destruct (epoll_wait k _ _ _) as [[[k' n] err] evs] eqn:E.
  destruct (fl_wait _ _ _ _ _ _ _ _ E) as [Ht Hev].
  destruct ((n <? 0) && (err =? EINTR)); eexists k', _, evs; (split; [done|]); (split; [done|]).
  - lia.
  - intros ?. apply Hev. lia.
Qed.

Lemma GetSocketError_ok k fd : ∃ k' e, GetSocketError k fd = (k', e) ∧ fdt k' = fdt k.
Proof.
  unfold GetSocketError. destruct (getsockopt_error k fd) as [[[k' ret] v] err] eqn:E.
  pose proof (fl_error _ _ _ _ _ _ E) as Ht. destruct (ret <? 0); eauto.
Qed.
End Triples.
