(* ===== verification/FdSim.v ===== *)
(** A small system with a descriptor table, on which the hypotheses about system calls hold and
    the socket code can be evaluated.  Every listener has [fr_backlog] connections
    waiting, a blocking connect succeeds, a non-blocking one completes later, and every
    watched socket is ready. *)

From stdpp Require Import base tactics numbers gmap fin_maps sets list.
From S2P Require Import Prelude IpAddr Endpoint Socket Ownership FdTable.
Local Open Scope Z_scope.

Record fraw := mkRaw { fr_tab : gmap Z fdinfo; fr_next : Z; fr_backlog : nat; fr_now : Z }.

(** Descriptors are not negative and only epoll instances watch. *)
Definition ok_tab (t : gmap Z fdinfo) : bool :=
  forallb (λ '(fd, i), (0 <=? fd) &&
    forallb (λ w, match t !! w with Some j => negb (fi_stream j) | None => false end) (elements (fi_watch i)))
    (map_to_list t).
Definition fsim : Type := { r : fraw | ok_tab (fr_tab r) = true }.
Definition tab (k : fsim) : gmap Z fdinfo := fr_tab (`k).

Definition put (r : fraw) : option fsim :=
  match bool_dec (ok_tab (fr_tab r)) true with left H => Some (exist _ r H) | right _ => None end.
Definition with_tab (k : fsim) (t : gmap Z fdinfo) : fraw := mkRaw t (fr_next (`k)) (fr_backlog (`k)) (fr_now (`k)).

(** A new descriptor; [used] connections are taken from the backlog. *)
Definition new_fd (k : fsim) (i : fdinfo) (used : nat) : fsim * Z * Z :=
  let fd := fr_next (`k) in
  match tab k !! fd with
  | Some _ => (k, -1, EMFILE)
  | None =>
      match put (mkRaw (<[fd := i]> (tab k)) (fd + 1) (fr_backlog (`k) - used) (fr_now (`k))) with
      | Some k' => (k', fd, 0)
      | None => (k, -1, EMFILE)
      end
  end.

(** Changes a descriptor, if it can. *)
Definition change (k : fsim) (fd : Z) (f : fdinfo → fdinfo) : fsim * Z * Z :=
  match tab k !! fd with
  | None => (k, -1, EINVAL)
  | Some i => match put (with_tab k (<[fd := f i]> (tab k))) with Some k' => (k', 0, 0) | None => (k, -1, EINVAL) end
  end.

Definition any_addr (family : Z) : sockaddr :=
  if family =? AF_INET then sockaddr_in 0 [0; 0; 0; 0]
  else if family =? AF_INET6 then sockaddr_in6 0 (replicate 16 0) else sockaddr_other family.
(** The address with an ephemeral port if it has none. *)
Definition with_port (fd : Z) (sa : sockaddr) : sockaddr :=
  match sa with
  | sockaddr_in p b => sockaddr_in (if p =? 0 then fd + 1000 else p) b
  | sockaddr_in6 p b => sockaddr_in6 (if p =? 0 then fd + 1000 else p) b
  | _ => sa
  end.

Definition sim_close (k : fsim) (fd : Z) : fsim :=
  match tab k !! fd with
  | None => k
  | Some i =>
      default k (put (with_tab k (delete fd (if fi_stream i then tab k else unwatch fd <$> tab k))))
  end.

#[export] Instance fsim_kernel : Kernel fsim := {|
  fcntl_getfd := λ k fd, from_option (λ _, 0) (-1) (tab k !! fd);
  fcntl_getfl := λ k fd, match tab k !! fd with Some i => if fi_nonblock i then O_NONBLOCK else 0 | None => -1 end;
  fcntl_setfl := λ k fd fl, (change k fd (set_nonblock (negb (Z.land fl O_NONBLOCK =? 0)))).1;
  getsockname := λ k fd, tab k !! fd ≫= fi_name;
  socket_ := λ k family type, new_fd k (mkFd (Z.land type 15 =? SOCK_STREAM) (Some (any_addr family))
                                         (negb (Z.land type SOCK_NONBLOCK =? 0)) ∅) 0;
  setsockopt := λ k _ _ _ _, (k, 0, 0);
  bind_ := λ k fd sa,
    match tab k !! fd ≫= fi_name with
    | Some a => if sa_family sa =? sa_family a then change k fd (set_name (Some (with_port fd sa))) else (k, -1, EINVAL)
    | None => (k, -1, EINVAL)
    end;
  listen_ := λ k _ _, (k, 0, 0);
  accept4 := λ k fd flags,
    match fr_backlog (`k), tab k !! fd ≫= fi_name with
    | S _, Some a => new_fd k (mkFd true (Some a) (negb (Z.land flags SOCK_NONBLOCK =? 0)) ∅) 1
    | _, _ => (k, -1, EAGAIN)
    end;
  connect_ := λ k fd _,
    match tab k !! fd with Some i => if fi_nonblock i then (k, -1, EINPROGRESS) else (k, 0, 0) | None => (k, -1, EINVAL) end;
  shutdown_ := λ k _, k;
  close_ := sim_close;
  sendmsg := λ k _ _, (k, -1, EINVAL);
  writev := λ k _ _, (k, -1, EINVAL);
  readv := λ k _ _, (k, -1, EINVAL, []);
|}.

#[export] Instance fsim_events : EventKernel fsim := {|
  epoll_create1 := λ k, new_fd k (mkFd false None false ∅) 0;
  epoll_ctl_add := λ k ep fd _, change k fd (λ i, set_watch ({[ep]} ∪ fi_watch i) i);
  epoll_ctl_del := λ k ep fd, change k fd (λ i, set_watch (fi_watch i ∖ {[ep]}) i);
  epoll_wait := λ k ep mx _,
    let evs := take (Z.to_nat mx)
      ((λ p, (p.1, Z.lor EPOLLIN EPOLLOUT)) <$> filter (λ p : Z * fdinfo, ep ∈ fi_watch p.2) (map_to_list (tab k))) in
    if mx <=? 0 then (k, -1, EINVAL, []) else (k, Z.of_nat (length evs), 0, evs);
  poll_ := λ k _ _, (k, 1, 0);
  getsockopt_error := λ k _, (k, 0, 0, 0);
  MonotonicNow := λ k, fr_now (`k);
|}.

#[export] Instance fsim_fds : FdKernel fsim := {| fdt := tab; backlog := λ k, fr_backlog (`k) |}.

Lemma ok_tab_spec t : ok_tab t = true ↔ ∀ fd i, t !! fd = Some i →
  0 ≤ fd ∧ ∀ w, w ∈ fi_watch i → ∃ j, t !! w = Some j ∧ fi_stream j = false.
Proof.
  unfold ok_tab. rewrite forallb_forall. setoid_rewrite <- list_elem_of_In. split.
  - intros Hf fd i Hi. destruct (andb_prop _ _ (Hf (fd, i) (proj2 (elem_of_map_to_list _ _ _) Hi))) as [Hp Hw].
    apply Z.leb_le in Hp. split; [done|]. intros w Hin. rewrite forallb_forall in Hw.
    specialize (Hw w). rewrite <- list_elem_of_In, elem_of_elements in Hw. specialize (Hw Hin).
    destruct (t !! w) as [j|]; [|done]. exists j. split; [done|]. by apply negb_true_iff.
  - intros Hf [fd i] Hi%elem_of_map_to_list. destruct (Hf fd i Hi) as [Hp Hw]. apply andb_true_intro.
    split; [by apply Z.leb_le|]. apply forallb_forall. intros w Hin%list_elem_of_In.
    apply elem_of_elements in Hin. destruct (Hw w Hin) as (j & -> & ->). done.
Qed.

Lemma tab_ok k : ∀ fd i, tab k !! fd = Some i →
  0 ≤ fd ∧ ∀ w, w ∈ fi_watch i → ∃ j, tab k !! w = Some j ∧ fi_stream j = false.
Proof. apply ok_tab_spec. exact (proj2_sig k). Qed.

Lemma put_tab r k : put r = Some k → tab k = fr_tab r ∧ fr_backlog (`k) = fr_backlog r.
Proof. unfold put. destruct (bool_dec _ _); [|done]. by intros [= <-]. Qed.
Lemma put_ok r : ok_tab (fr_tab r) = true → ∃ k, put r = Some k ∧ tab k = fr_tab r.
Proof. intros Hok. unfold put. destruct (bool_dec _ _); [|done]. eauto. Qed.

Lemma new_fd_spec k i used k' ret err : new_fd k i used = (k', ret, err) →
  ret < 0 ∧ k' = k ∧ err = EMFILE ∨
  tab k !! ret = None ∧ tab k' = <[ret := i]> (tab k) ∧ fr_backlog (`k') = (fr_backlog (`k) - used)%nat.
Proof.
  unfold new_fd. destruct (tab k !! fr_next (`k)) eqn:Hn; [intros [= <- <- <-]; by left|].
  destruct (put _) as [k1|] eqn:Hp; [|intros [= <- <- <-]; by left].
  destruct (put_tab _ _ Hp) as [Ht Hb]. intros [= <- <- <-]. by right.
Qed.

Lemma change_spec k fd f i k' ret err : tab k !! fd = Some i → change k fd f = (k', ret, err) →
  ret = -1 ∧ k' = k ∨ ret = 0 ∧ tab k' = <[fd := f i]> (tab k).
Proof.
  intros Hi. unfold change. rewrite Hi. destruct (put _) as [k1|] eqn:Hp; [|intros [= <- <- <-]; by left].
  destruct (put_tab _ _ Hp) as [Ht _]. intros [= <- <- <-]. by right.
Qed.

Lemma change_ok k fd f i : tab k !! fd = Some i → (∀ j, fi_watch (f j) ⊆ fi_watch j) →
  fi_stream (f i) = fi_stream i → ∃ k', change k fd f = (k', 0, 0) ∧ tab k' = <[fd := f i]> (tab k).
Proof.
  intros Hi Hw Hs. unfold change. rewrite Hi.
  destruct (put_ok (with_tab k (<[fd := f i]> (tab k)))) as (k1 & -> & Ht); [|by exists k1].
  apply ok_tab_spec. intros x j Hx. cbn in *.
  assert (∀ w, (∃ j, tab k !! w = Some j ∧ fi_stream j = false) →
    ∃ j, <[fd := f i]> (tab k) !! w = Some j ∧ fi_stream j = false) as Hst.
  { intros w (y & Hy & Hys). destruct (decide (w = fd)) as [->|]; [|exists y; by rewrite lookup_insert_ne].
    exists (f i). rewrite lookup_insert_eq. split; [done|]. congruence. }
  destruct (decide (x = fd)) as [->|Hne].
  - rewrite lookup_insert_eq in Hx. injection Hx as <-. destruct (tab_ok k fd i Hi) as [Hp Hf].
    split; [done|]. intros w Hin. by apply Hst, Hf, Hw.
  - rewrite lookup_insert_ne in Hx by done. destruct (tab_ok k x j Hx) as [Hp Hf]. split; [done|]. intros w Hin.
    by apply Hst, Hf.
Qed.

Lemma close_stream k fd i : tab k !! fd = Some i → fi_stream i = true → tab (sim_close k fd) = delete fd (tab k).
Proof.
  intros Hi Hs. unfold sim_close. rewrite Hi, Hs.
  destruct (put_ok (with_tab k (delete fd (tab k)))) as (k1 & -> & Ht); [|done].
  apply ok_tab_spec. cbn. intros x j [Hne Hx]%lookup_delete_Some. destruct (tab_ok k x j Hx) as [Hp Hf].
  split; [done|]. intros w Hin. destruct (Hf w Hin) as (y & Hy & Hys). exists y. split; [|done].
  rewrite lookup_delete_ne; [done|]. intros ->. congruence.
Qed.

Lemma close_epoll k fd i : tab k !! fd = Some i → fi_stream i = false →
  tab (sim_close k fd) = delete fd (unwatch fd <$> tab k).
Proof.
  intros Hi Hs. unfold sim_close. rewrite Hi, Hs.
  destruct (put_ok (with_tab k (delete fd (unwatch fd <$> tab k)))) as (k1 & -> & Ht); [|done].
  apply ok_tab_spec. cbn. intros x j [Hne Hx]%lookup_delete_Some. rewrite lookup_fmap in Hx.
  destruct (tab k !! x) as [y|] eqn:Hy; [|done]. injection Hx as <-. destruct (tab_ok k x y Hy) as [Hp Hf].
  split; [done|]. cbn. intros w [Hin Hw]%elem_of_difference. destruct (Hf w Hin) as (z & Hz & Hzs).
  exists (unwatch fd z). split; [|done]. rewrite lookup_delete_ne by set_solver. by rewrite lookup_fmap, Hz.
Qed.

Lemma any_addr_family f : sa_family (any_addr f) = f.
Proof.
  unfold any_addr. destruct (Z.eqb_spec f AF_INET); [done|]. by destruct (Z.eqb_spec f AF_INET6).
Qed.
Lemma with_port_family fd sa : sa_family (with_port fd sa) = sa_family sa.
Proof. by destruct sa. Qed.

#[export] Instance fsim_laws : FdLaws fsim.
Proof.
  split; cbn.
  - intros k fd i Hi. rewrite Hi. destruct (tab_ok k fd i Hi) as [Hp _]. cbn. split_and!; try done; by destruct (fi_nonblock i).
  - intros k fd i fl k' ret Hi E. destruct (change _ _ _) as [[k1 r1] e1] eqn:Ec. injection E as <- <-.
    destruct (change_spec _ _ _ _ _ _ _ Hi Ec) as [[-> ->]|[-> Ht]]; [by right|by left].
  - intros k f t k' ret err E. destruct (new_fd_spec _ _ _ _ _ _ E) as [(? & -> & _)|(Hn & Ht & _)]; [by left|].
    right. split; [done|]. eexists. split; [|done]. apply any_addr_family.
  - by intros k fd lvl opt v k' ret err [= <- <- <-].
  - by intros k fd i k' ret err _ _ [= <- <- <-].
  - intros k fd i sa k' ret err Hi E. rewrite Hi in E. cbn in E. destruct (fi_name i) as [a|] eqn:Ha; [|injection E as <- <- <-; by left].
    destruct (Z.eqb_spec (sa_family sa) (sa_family a)) as [Hf|]; [|injection E as <- <- <-; by left].
    destruct (change_spec _ _ _ _ _ _ _ Hi E) as [[_ ->]|[_ Ht]]; [by left|]. right.
    exists a, (with_port fd sa). split_and!; try done. by rewrite with_port_family.
  - intros k fd i sa k' ret err Hi E. rewrite Hi in E. destruct (fi_nonblock i); injection E as <- <- <-;
      (split; [by left|]); [done|lia].
  - by intros k fd n k' ret err [= <- <- <-].
  - done.
  - apply close_stream.
  - apply close_epoll.
  - intros k fd i w Hi Hw. by eapply tab_ok.
  - intros k fd i a flags k' ret err Hi Ha E. rewrite Hi in E. cbn in E. rewrite Ha in E.
    destruct (fr_backlog (`k)) as [|n] eqn:Hb; [injection E as <- <- <-; by left|].
    destruct (new_fd_spec _ _ _ _ _ _ E) as [(? & -> & ->)|(Hn & Ht & Hb')]; [left; by split_and!|].
    right. split; [done|]. split; [rewrite Hb', Hb; lia|]. by exists a.
  - intros k k' ret err E. destruct (new_fd_spec _ _ _ _ _ _ E) as [(? & -> & _)|(Hn & Ht & _)]; [by left|].
    right. split; [done|]. eexists. split; [|split; [|exact Ht]]; done.
  - intros k ep fd i ev k' ret err Hi E.
    destruct (change_spec _ _ _ _ _ _ _ Hi E) as [[-> ->]|[-> Ht]]; [by left|by right].
  - intros k ep fd i k' ret err Hi _ E.
    destruct (change_ok k fd (λ i, set_watch (fi_watch i ∖ {[ep]}) i) i Hi) as (k1 & E1 & Ht); [cbn; set_solver|done|].
    rewrite E1 in E. by injection E as <- <- <-.
  - intros k ep mx tmo k' n err evs E. destruct (Z.leb_spec mx 0); injection E as <- <- <- <-; (split; [done|]);
      intros Hn; [lia|]. split; [done|]. clear Hn.
    rewrite length_take. split; [lia|]. rewrite fmap_take, <- list_fmap_compose.
    assert (∀ l : list (Z * fdinfo), fst ∘ (λ p : Z * fdinfo, (p.1, Z.lor EPOLLIN EPOLLOUT)) <$> l = l.*1) as E
      by (intros; by apply list_fmap_ext). rewrite E. split.
    + apply (sublist_NoDup _ (map_to_list (tab k)).*1); [apply NoDup_fst_map_to_list|].
      etrans; [apply sublist_take|]. apply fmap_sublist, sublist_filter.
    + intros fd Hin. apply (sublist_subseteq _ _ (sublist_take _ _)) in Hin.
      apply list_elem_of_fmap in Hin as ([fd' i] & -> & [Hw Hi]%list_elem_of_filter).
      apply elem_of_map_to_list in Hi. by exists i.
  - by intros k fd tmo k' n err [= <- <- <-].
  - by intros k fd k' ret v err [= <- <- <- <-].
Qed.

(** Standard input, output and error are open. *)
Definition std_tab : gmap Z fdinfo := list_to_map ((λ fd, (fd, mkFd false None false ∅)) <$> [0; 1; 2]).
Definition fsim_start (backlog : nat) : fsim := exist _ (mkRaw std_tab 3 backlog 0) eq_refl.

Lemma fsim_start_holds n : holds (fdt (fsim_start n)) std_tab [].
Proof. split; [by apply NoDup_nil|by intros c ?%elem_of_nil|cbn; set_solver|cbn; set_solver|done]. Qed.
