(* ===== verification/FreePort.v ===== *)
(** Random data and the search for a free port ([util/util.cc]).

    [FindFreePort] makes up to a hundred sockets to find a port that can be bound and listened
    to.  It runs on the descriptor table of FdTable.v.  [IPPROTO_TCP] and [IPPROTO_UDP] are the
    default protocols of the two socket types, which is what [socket_] asks for. *)

From stdpp Require Import base tactics numbers gmap fin_maps sets list.
From S2P Require Import Prelude IpAddr Endpoint Socket Ownership FdTable FdSim.
Local Open Scope Z_scope.

(** * Random numbers *)

(** [absl::Uniform] over a closed interval. *)
Class Uniform (R : Type) := { uniform : R → Z → Z → R * Z }.
Class UniformLaws (R : Type) `{Uniform R} := {
  uniform_range : ∀ (g : R) a b, a ≤ b → a ≤ (uniform g a b).2 ≤ b;
}.

Definition SOMAXCONN : Z := 4096.
Definition kMinPort : Z := 10000.
Definition kMaxPort : Z := 65535.

Section Ops.
Context {K R : Type} `{Kernel K} `{Uniform R}.

Definition util_Random (g : R) (min max : Z) : res (R * Z) :=
  do* dcheck (min <=? max); Ok (uniform g min max).

(** The loop over [data]. *)
Fixpoint RandomNonZero (g : R) (data : list Z) : res (R * list Z) :=
  match data with
  | [] => Ok (g, [])
  | _ :: rest =>
      let* '(g, b) := util_Random g 0x01 0xff in
      do* dcheck (negb (b =? 0));
      let* '(g, rest) := RandomNonZero g rest in
      Ok (g, b :: rest)
  end.

(** * Ports *)

Definition util_Bind (k : K) (fd family port : Z) : res (K * Z * Z) :=
  if family =? AF_INET then Ok (bind_ k fd (sockaddr_in (bswap16 port) [0; 0; 0; 0]))
  else
    do* dcheck (family =? AF_INET6);
    Ok (bind_ k fd (sockaddr_in6 (bswap16 port) (replicate 16 0))).

(** An address of another family has no port. *)
Definition GetPort (ss : sockaddr) : res Z :=
  match ss with
  | sockaddr_in p _ => Ok (bswap16 p)
  | sockaddr_in6 p _ => Ok (bswap16 p)
  | sockaddr_other f => do* dcheck (is_inet f); Ok 0
  end.

(** Whether the bound socket has the family and the port. *)
Definition bound_to (k : K) (fd family port : Z) : res bool :=
  match getsockname k fd with
  | None => Ok false
  | Some ss => if negb (sa_family ss =? family) then Ok false else let* p := GetPort ss in Ok (p =? port)
  end.

(** One iteration: [Some port] to return it, [None] to continue. *)
Definition try_port (k : K) (g : R) (family : Z) (tcp : bool) : res (K * R * option Z) :=
  let '(k, fd, _) := socket_ k family (if tcp then SOCK_STREAM else SOCK_DGRAM) in
  if fd <? 0 then Ok (k, g, None)
  else
    let '(k, ret, _) := setsockopt k fd SOL_SOCKET SO_REUSEADDR 1 in
    if ret <? 0 then Ok (close_ k fd, g, None)
    else
      let* '(g, port) := util_Random g kMinPort kMaxPort in
      let* '(k, ret, _) := util_Bind k fd family port in
      if ret <? 0 then Ok (close_ k fd, g, None)
      else
        let* b := bound_to k fd family port in
        if negb b then Ok (close_ k fd, g, None)
        else
          let '(k, ret) := if tcp then (listen_ k fd SOMAXCONN).1 else (k, 0) in
          if tcp && (ret <? 0) then Ok (close_ k fd, g, None)
          else Ok (close_ k fd, g, Some port).

Fixpoint find_port (rest : nat) (k : K) (g : R) (family : Z) (tcp : bool) : res (K * Z) :=
  match rest with
  | O => Ok (k, 0)
  | S rest =>
      let* '(k, g, p) := try_port k g family tcp in
      match p with Some port => Ok (k, port) | None => find_port rest k g family tcp end
  end.

Definition FindFreePort (k : K) (g : R) (family : Z) (tcp : bool) : res (K * Z) :=
  do* dcheck ((family =? AF_INET) || (family =? AF_INET6));
  find_port 100 k g family tcp.
End Ops.

(** * Lemmas *)

Section Lemmas.
Context {K R : Type} `{L : FdLaws K} `{UL : UniformLaws R}.
Implicit Types (k : K) (g : R).

Lemma util_Random_ok g a b : a ≤ b → ∃ g' x, util_Random g a b = Ok (g', x) ∧ a ≤ x ≤ b.
Proof.
  intros Hab. unfold util_Random. rewrite bind_dcheck by by apply Z.leb_le.
  pose proof (uniform_range g a b Hab). destruct (uniform g a b) as [g' x]. by exists g', x.
Qed.

(** [RandomNonZero] keeps the length and stores bytes other than zero. *)
Lemma RandomNonZero_ok data g : ∃ g' out, RandomNonZero g data = Ok (g', out) ∧
  length out = length data ∧ Forall (λ b, 1 ≤ b ≤ 255) out.
Proof.
  revert g. induction data as [|x data IH]; intros g; [by exists g, []|]. cbn [RandomNonZero].
  destruct (util_Random_ok g 1 255) as (g1 & b & -> & Hb); [done|]. rewrite bind_Ok.
  rewrite bind_dcheck by (destruct (Z.eqb_spec b 0); [lia|done]).
  destruct (IH g1) as (g2 & out & -> & Hl & Hf). rewrite bind_Ok. exists g2, (b :: out).
  split; [done|]. split; [cbn; congruence|by constructor].
Qed.

(** A table with one more descriptor, of a new socket. *)
Definition with_socket (t : gmap Z fdinfo) (fd family : Z) (tcp : bool) (t' : gmap Z fdinfo) : Prop :=
  t !! fd = None ∧ ∃ a, sa_family a = family ∧ t' = <[fd := mkFd tcp (Some a) false ∅]> t.

Lemma close_socket k0 k fd family tcp : with_socket (fdt k0) fd family tcp (fdt k) → fdt (close_ k fd) = fdt k0.
Proof.
  intros (Hn & a & _ & E). assert (fdt k !! fd = Some (mkFd tcp (Some a) false ∅)) as Hi by by rewrite E, lookup_insert_eq.
  destruct tcp.
  - rewrite (fl_close _ _ _ Hi) by done. by rewrite E, delete_insert_id.
  - rewrite (fl_close_epoll _ _ _ Hi) by done. rewrite E, fmap_insert, delete_insert_id by by rewrite lookup_fmap, Hn.
    apply map_eq. intros x. rewrite lookup_fmap. destruct (fdt k0 !! x) as [i|] eqn:Ex; [|done].
    cbn. f_equal. apply unwatch_id. intros Hw. destruct (fl_watch _ _ _ _ Ex Hw) as (j & Hj & _). congruence.
Qed.

Lemma util_Bind_ok k0 k fd family tcp port : is_inet family = true → with_socket (fdt k0) fd family tcp (fdt k) →
  ∃ k' ret err, util_Bind k fd family port = Ok (k', ret, err) ∧ with_socket (fdt k0) fd family tcp (fdt k').
Proof.
  intros Hf (Hn & a & Ha & E). assert (fdt k !! fd = Some (mkFd tcp (Some a) false ∅)) as Hi by by rewrite E, lookup_insert_eq.
  assert (∀ sa k' ret err, bind_ k fd sa = (k', ret, err) → with_socket (fdt k0) fd family tcp (fdt k')) as Hb.
  { intros sa k' ret err Eb. split; [done|]. destruct (fl_bind _ _ _ _ _ _ _ Hi Eb) as [->|(a1 & a2 & [= <-] & Ha2 & ->)].
    - by exists a.
    - exists a2. split; [congruence|]. by rewrite E, insert_insert_eq. }
  unfold util_Bind, is_inet in *. destruct (family =? AF_INET).
  - destruct (bind_ _ _ _) as [[k' ret] err] eqn:Eb. eauto 6.
  - rewrite bind_dcheck by done. destruct (bind_ _ _ _) as [[k' ret] err] eqn:Eb. eauto 6.
Qed.

(** What [bound_to] says of the socket. *)
Lemma bound_to_ok k0 k fd family tcp port : is_inet family = true → with_socket (fdt k0) fd family tcp (fdt k) →
  ∃ b, bound_to k fd family port = Ok b ∧
    (b = true → ∃ a, fdt k = <[fd := mkFd tcp (Some a) false ∅]> (fdt k0) ∧ sa_family a = family ∧ GetPort a = Ok port).
Proof.
  intros Hf (Hn & a & Ha & E). assert (fdt k !! fd = Some (mkFd tcp (Some a) false ∅)) as Hi by by rewrite E, lookup_insert_eq.
  destruct (fl_view _ _ _ Hi) as (_ & _ & _ & _ & Hs). unfold bound_to. rewrite Hs. cbn [fi_name]. rewrite Ha, Z.eqb_refl. cbn [negb].
  assert (∃ p, GetPort a = Ok p) as [p Hp].
  { destruct a as [p b|p b|f]; cbn in *; [by eexists..|]. subst f. rewrite bind_dcheck by done. by eexists. }
  rewrite Hp, bind_Ok. eexists. split; [done|]. intros ->%Z.eqb_eq. by exists a.
Qed.

(** The port was bound by a socket of the family, and a TCP socket could listen to it, while the
    other descriptors were as they are. *)
Definition was_free (t : gmap Z fdinfo) (family : Z) (tcp : bool) (port : Z) : Prop :=
  ∃ k fd a, t !! fd = None ∧ fdt k = <[fd := mkFd tcp (Some a) false ∅]> t ∧ getsockname k fd = Some a ∧
    sa_family a = family ∧ GetPort a = Ok port ∧
    (tcp = true → ∃ k' ret err, listen_ k fd SOMAXCONN = (k', ret, err) ∧ 0 ≤ ret).

Lemma socket_new k family (tcp : bool) k' ret err : socket_ k family (if tcp then SOCK_STREAM else SOCK_DGRAM) = (k', ret, err) →
  ret < 0 ∧ fdt k' = fdt k ∨ with_socket (fdt k) ret family tcp (fdt k').
Proof.
  intros [?|(Hn & a & Ha & E)]%fl_socket; [by left|right]. split; [done|]. exists a. split; [done|]. rewrite E. by destruct tcp.
Qed.

Lemma try_port_ok k g family tcp : is_inet family = true →
  ∃ k' g' o, try_port k g family tcp = Ok (k', g', o) ∧ fdt k' = fdt k ∧
    (∀ port, o = Some port → kMinPort ≤ port ≤ kMaxPort ∧ was_free (fdt k) family tcp port).
Proof.
  intros Hf. unfold try_port. destruct (socket_ k family _) as [[k1 fd] e1] eqn:E1.
  destruct (socket_new _ _ _ _ _ _ E1) as [[Hr Ht]|Hs].
  { rewrite (proj2 (Z.ltb_lt fd 0)) by done. exists k1, g, None. by split_and!. }
  assert (0 ≤ fd) as Hfd by (destruct Hs as (_ & a & _ & E); eapply fl_view; rewrite E; by apply lookup_insert_eq).
  rewrite (proj2 (Z.ltb_ge fd 0)) by done. destruct (setsockopt _ _ _ _ _) as [[k2 r2] e2] eqn:E2.
  destruct (fl_setsockopt _ _ _ _ _ _ _ _ E2) as [Ht2 _]. rewrite <- Ht2 in Hs.
  assert (∀ (k' : K) (g' : R), with_socket (fdt k) fd family tcp (fdt k') →
    ∃ (k'' : K) (g'' : R) (o : option Z), Ok (close_ k' fd, g', None) = Ok (k'', g'', o) ∧ fdt k'' = fdt k ∧
    (∀ port, o = Some port → kMinPort ≤ port ≤ kMaxPort ∧ was_free (fdt k) family tcp port)) as Hfail.
  { intros k' g' Hw. exists (close_ k' fd), g', None. split_and!; [done|by eapply close_socket|done]. }
  destruct (r2 <? 0); [by apply Hfail|].
  destruct (util_Random_ok g kMinPort kMaxPort) as (g1 & port & -> & Hport); [done|]. rewrite bind_Ok.
  destruct (util_Bind_ok k k2 fd family tcp port Hf Hs) as (k3 & r3 & e3 & -> & Hs3). rewrite bind_Ok.
  destruct (r3 <? 0); [by apply Hfail|].
  destruct (bound_to_ok k k3 fd family tcp port Hf Hs3) as (b & -> & Hb). rewrite bind_Ok.
  destruct b; [|by apply Hfail]. destruct (Hb eq_refl) as (a & Ea & Hfam & Hp). cbn [negb].
  destruct (fl_view k3 fd (mkFd tcp (Some a) false ∅)) as (_ & _ & _ & _ & Hname); [by rewrite Ea, lookup_insert_eq|].
  destruct tcp; cbn [andb].
  - destruct (listen_ k3 fd SOMAXCONN) as [[k4 r4] e4] eqn:E4. cbn [fst]. pose proof (fl_listen _ _ _ _ _ _ E4) as Ht4.
    rewrite <- Ht4 in Hs3. destruct (Z.ltb_spec r4 0) as [|Hr]; [by apply Hfail|].
    exists (close_ k4 fd), g1, (Some port). split_and!; [done|by eapply close_socket|]. intros ? [= <-]. split; [done|].
    exists k3, fd, a. split_and!; [apply Hs|done..|]. intros _. by exists k4, r4, e4.
  - exists (close_ k3 fd), g1, (Some port). split_and!; [done|by eapply close_socket|]. intros ? [= <-]. split; [done|].
    exists k3, fd, a. split_and!; [apply Hs|done..].
Qed.

Lemma find_port_ok n k g family tcp : is_inet family = true →
  ∃ k' port, find_port n k g family tcp = Ok (k', port) ∧ fdt k' = fdt k ∧
    (port = 0 ∨ kMinPort ≤ port ≤ kMaxPort ∧ was_free (fdt k) family tcp port).
Proof.
  intros Hf. revert k g. induction n as [|n IH]; intros k g; [exists k, 0; auto|]. cbn [find_port].
  destruct (try_port_ok k g family tcp Hf) as (k1 & g1 & o & -> & Ht & Ho). rewrite bind_Ok.
  destruct o as [port|]; [exists k1, port; auto|]. rewrite <- Ht. apply IH.
Qed.
End Lemmas.

(** * Properties *)

(** C38: [FindFreePort] returns without failing an assertion whatever the system answers and
    whichever ports are drawn, and leaves the descriptor table of the process as it found it:
    the sockets of all its attempts, failed ones included, are closed.  It returns zero, or a
    port of [10000, 65535] that a socket of the requested family held under that very port
    while no other descriptor had changed, and on which, for TCP, listening succeeded. *)
Theorem FindFreePort_ok {K R : Type} `{L : FdLaws K} `{UL : UniformLaws R} (k : K) (g : R) family tcp :
  is_inet family = true →
  ∃ k' port, FindFreePort k g family tcp = Ok (k', port) ∧ fdt k' = fdt k ∧
    (port = 0 ∨ 10000 ≤ port ≤ 65535 ∧ was_free (K := K) (fdt k) family tcp port).
Proof. intros Hf. unfold FindFreePort. rewrite bind_dcheck by done. by apply find_port_ok. Qed.

(** * Examples *)

(** A generator that counts. *)
#[export] Instance count_uniform : Uniform Z := {| uniform g a b := (g + 1, a + g `mod` (b - a + 1)) |}.
#[export] Instance count_laws : UniformLaws Z.
Proof. split. intros g a b Hab. cbn. pose proof (Z.mod_pos_bound g (b - a + 1) ltac:(lia)). lia. Qed.

Definition free_port (family : Z) (tcp : bool) : option (nat * Z) :=
  match FindFreePort (fsim_start 0) 7 family tcp with Ok (k, p) => Some (size (tab k), p) | Fault _ => None end.
Example free_port_tcp : free_port AF_INET true = Some (3%nat, 10007).
Proof. vm_compute. reflexivity. Qed.
Example free_port_udp6 : free_port AF_INET6 false = Some (3%nat, 10007).
Proof. vm_compute. reflexivity. Qed.
(** A family that is none of the two fails the assertion. *)
Example free_port_unix : free_port 1 true = None.
Proof. vm_compute. reflexivity. Qed.

Lemma FindFreePort_ok_witness : ∃ k port, FindFreePort (fsim_start 0) 7 AF_INET true = Ok (k, port) ∧
  fdt k = fdt (fsim_start 0) ∧ port = 10007.
Proof.
  destruct (FindFreePort_ok (fsim_start 0) 7 AF_INET true eq_refl) as (k & port & E & Ht & _).
  exists k, port. split; [exact E|]. split; [exact Ht|]. pose proof free_port_tcp as Hp. unfold free_port in Hp.
  rewrite E in Hp. congruence.
Defined.
