(* ===== verification/TcpManager.v ===== *)
(** The TCP connection manager: [internal/socket/tcp_manager_base] (the listeners, connectors
    and produced sockets) and [internal/socket/tcp_manager] (listening, accepting,
    connecting).  The sockets a container drops are destroyed where the C++ code destroys
    them.  Iteration over a hash map is in the order of [map_to_list].  The running manager
    with its threads is in [TcpManagerLife]. *)

From Stdlib Require Import Ascii.
From stdpp Require Import base tactics numbers gmap fin_maps sets list.
From S2P Require Import Prelude IpAddr Endpoint Socket HostInfo Ownership FdTable FdSim.
Local Open Scope Z_scope.

(** * Containers, [TcpManagerBase] *)

Record Listener := mkListener { l_socket : SocketBase; l_endpoint : Endpoint }.
Record Connector := mkConnector { c_socket : SocketBase; c_expiration : Duration }.

Abbreviation Listeners := (gmap Z Listener).
Record Connectors := mkConnectors { cn_sealed : bool; cn_map : gmap Z Connector }.
Record Produced := mkProduced { pr_sealed : bool; pr_sockets : list SocketBase }.

(** The values of a map, in iteration order. *)
Definition vals {A} (m : gmap Z A) : list A := (map_to_list m).*2.

(** [std::all_of] with a predicate that asserts. *)
Fixpoint all_of {A} (f : A → res bool) (l : list A) : res bool :=
  match l with
  | [] => Ok true
  | x :: l => let* b := f x in if b : bool then all_of f l else Ok false
  end.

Section Ops.
Context {K : Type} `{Kernel K} `{EventKernel K}.

(** The destructors of a container's sockets. *)
Definition destroy_all (k : K) (ss : list SocketBase) : res K := foreach Socket_destroy k ss.

Definition IsPair (fd : Z) (s : SocketBase) : bool := fd =? sk_fd s.
Definition IsPairAndNonBlocking (k : K) (fd : Z) (s : SocketBase) : res bool :=
  if IsPair fd s then IsNonBlocking k s else Ok false.

Definition Listeners_Invariant (k : K) (ls : Listeners) : res bool :=
  all_of (λ '(fd, l),
    let* b := IsPairAndNonBlocking k fd (l_socket l) in
    Ok (b && Endpoint_eqb (l_endpoint l) (SelfEndpoint k fd) && HasNonzeroIpPort (l_endpoint l)))
    (map_to_list ls).
Definition Listeners_Get (ls : Listeners) (fd : Z) : option SocketBase := l_socket <$> ls !! fd.
Definition Listeners_Find (ls : Listeners) (endpoint : Endpoint) : option Listener :=
  snd <$> list_find (λ l, Endpoint_eqb (l_endpoint l) endpoint = true) (vals ls).
Definition Listeners_Remove (k : K) (ls : Listeners) (fd : Z) : res (K * Listeners) :=
  match ls !! fd with
  | None => Ok (k, ls)
  | Some l => let* k := Socket_destroy k (l_socket l) in Ok (k, delete fd ls)
  end.
Definition Listeners_Shutdown (k : K) (ls : Listeners) : res (K * Listeners) :=
  foreach (λ '(k, ls) '(fd, l),
    let* '(k, s) := Socket_Shutdown k (l_socket l) in
    Ok (k, <[fd := mkListener s (l_endpoint l)]> ls)) (k, ls) (map_to_list ls).
Definition Listeners_Close (k : K) (ls : Listeners) : res (K * Listeners) :=
  let* k := destroy_all k (l_socket <$> vals ls) in Ok (k, ∅).

Definition Connectors_Invariant (k : K) (cs : Connectors) : res bool :=
  all_of (λ '(fd, c), IsPairAndNonBlocking k fd (c_socket c)) (map_to_list (cn_map cs)).
Definition Connectors_Seal (cs : Connectors) : Connectors := mkConnectors true (cn_map cs).
Definition Connectors_Add (k : K) (cs : Connectors) (fd : Z) (connector : Connector)
    (on_add : K → Z → K * bool) : res (K * Connectors * bool) :=
  do* dcheck (fd =? sk_fd (c_socket connector));
  do* dcheck (negb (sk_connected (c_socket connector)));
  let '(k, added) :=
    if negb (cn_sealed cs) && bool_decide (cn_map cs !! fd = None) then on_add k fd else (k, false) in
  if added : bool then Ok (k, mkConnectors (cn_sealed cs) (<[fd := connector]> (cn_map cs)), true)
  else let* k := Socket_destroy k (c_socket connector) in Ok (k, cs, false).
Definition Connectors_Remove (cs : Connectors) (fd : Z) : res (Connectors * option SocketBase) :=
  match cn_map cs !! fd with
  | None => Ok (cs, None)
  | Some c =>
      do* dcheck (negb (sk_connected (c_socket c)));
      Ok (mkConnectors (cn_sealed cs) (delete fd (cn_map cs)), Some (c_socket c))
  end.
(** [c.expiration <= now]. *)
Definition expired (now : Z) (c : Connector) : bool := from_option (λ e, e <=? now) false (c_expiration c).
Definition RemoveExpired (cs : Connectors) (now : Z) : res (Connectors * list Connector) :=
  foreach (λ '(cs, ex) '(fd, c),
    if expired now c then
      do* dcheck (negb (sk_connected (c_socket c)));
      Ok (mkConnectors (cn_sealed cs) (delete fd (cn_map cs)), ex ++ [c])
    else Ok (cs, ex)) (cs, []) (map_to_list (cn_map cs)).
Definition Connectors_Close (k : K) (cs : Connectors) : res (K * Connectors) :=
  do* dcheck (cn_sealed cs);
  let* k := destroy_all k (c_socket <$> vals (cn_map cs)) in Ok (k, mkConnectors (cn_sealed cs) ∅).

Definition Produced_Invariant (p : Produced) : bool := forallb sk_connected (pr_sockets p).
Definition Produced_Seal (p : Produced) : Produced := mkProduced true (pr_sockets p).
Definition Produced_Add (k : K) (p : Produced) (socket : SocketBase) : res (K * Produced * bool) :=
  do* dcheck (sk_connected socket);
  if negb (pr_sealed p) then Ok (k, mkProduced (pr_sealed p) (pr_sockets p ++ [socket]), true)
  else let* k := Socket_destroy k socket in Ok (k, p, false).
Definition MoveAll (p : Produced) : Produced * list SocketBase := (mkProduced (pr_sealed p) [], pr_sockets p).
Definition Produced_Close (k : K) (p : Produced) : res (K * Produced) :=
  do* dcheck (pr_sealed p);
  let* k := destroy_all k (pr_sockets p) in Ok (k, mkProduced (pr_sealed p) []).

(** * The manager *)

Record TcpManager := mkTcpManager {
  tm_self : HostInfo; tm_stop : bool; tm_poller : Z; tm_listeners : Listeners;
  tm_connectors : Connectors; tm_incoming : Produced; tm_outgoing : Produced;
}.
Definition with_stop (m : TcpManager) (b : bool) : TcpManager :=
  mkTcpManager (tm_self m) b (tm_poller m) (tm_listeners m) (tm_connectors m) (tm_incoming m) (tm_outgoing m).
Definition with_listeners (m : TcpManager) (x : Listeners) : TcpManager :=
  mkTcpManager (tm_self m) (tm_stop m) (tm_poller m) x (tm_connectors m) (tm_incoming m) (tm_outgoing m).
Definition with_connectors (m : TcpManager) (x : Connectors) : TcpManager :=
  mkTcpManager (tm_self m) (tm_stop m) (tm_poller m) (tm_listeners m) x (tm_incoming m) (tm_outgoing m).
Definition with_incoming (m : TcpManager) (x : Produced) : TcpManager :=
  mkTcpManager (tm_self m) (tm_stop m) (tm_poller m) (tm_listeners m) (tm_connectors m) x (tm_outgoing m).
Definition with_outgoing (m : TcpManager) (x : Produced) : TcpManager :=
  mkTcpManager (tm_self m) (tm_stop m) (tm_poller m) (tm_listeners m) (tm_connectors m) (tm_incoming m) x.

Definition invariant (k : K) (m : TcpManager) : res bool :=
  if negb (IsDataPlaneValid (tm_self m)) then Ok false
  else
    let* b := Listeners_Invariant k (tm_listeners m) in
    if negb b then Ok false
    else
      let* b := Connectors_Invariant k (tm_connectors m) in
      Ok (b && Produced_Invariant (tm_incoming m) && Produced_Invariant (tm_outgoing m)).

Definition kTcpListenBacklog : Z := 8192.
Definition kIncomingEvents : Z := EPOLLIN.
Definition kOutgoingEvents : Z := Z.lor EPOLLOUT EPOLLRDHUP.
Definition kEpollMaxNumEvents : Z := 128.
Definition kEpollWaitTimeoutMs : Z := 100.

(** Returning [nullptr] drops the local socket. *)
Definition drop_null {A} (k : K) (a : A) (socket : SocketBase) : res (K * A * option SocketBase) :=
  let* k := Socket_destroy k socket in Ok (k, a, None).

Definition createListener (k : K) (poller : Z) (endpoint : Endpoint)
    : res (K * Endpoint * option SocketBase) :=
  do* dcheck (negb (HasZeroIpAddr endpoint));
  let family := AddressFamily (ep_ipaddr endpoint) in
  let* '(k, socket) := Tcp_Create k family false in
  match socket with
  | None => Ok (k, endpoint, None)
  | Some socket =>
      let* nb := IsNonBlocking k socket in
      do* dcheck nb;
      let* '(k, ret) := Tcp_Listen k socket endpoint kTcpListenBacklog in
      if ret <? 0 then drop_null k endpoint socket
      else
        let e := SelfEndpoint k (sk_fd socket) in
        if negb (HasNonzeroIpPort e) then drop_null k endpoint socket
        else
          let '(k, ret) := Poller_Register k poller (sk_fd socket) kIncomingEvents in
          if ret <? 0 then drop_null k endpoint socket
          else Ok (k, e, Some socket)
  end.

(** [NicInfo::GetTcpListenerCandidates], of what [util::FindRoutableIpAddrs] returns. *)
Definition GetTcpListenerCandidates (routable : list (str * (NicType * list IpAddr))) (include_loopback : bool)
    : list (str * NicInfo) :=
  foldl (λ candidates '(ifc, (type, addrs)),
    if bool_decide (type = kIP) then
      let es := (λ ip, mkEndpoint ip 0) <$> filter (λ ip, include_loopback || negb (IpAddr_IsLoopback ip)) addrs in
      if bool_decide (es = []) then candidates else candidates ++ [(ifc, mkNicInfo ifc type es)]
    else candidates) [] routable.

(** The inner loop of [Create]: one listener per endpoint. *)
Definition create_endpoint (poller : Z) : K * Listeners * list Endpoint → Endpoint → res (K * Listeners * list Endpoint) :=
  λ '(k, listeners, es) e,
    let* '(k, e, socket) := createListener k poller e in
    match socket with
    | None => Ok (k, listeners, es)
    | Some socket =>
        let fd := sk_fd socket in
        do* dcheck (HasNonzeroIpPort e);
        do* dcheck (Endpoint_eqb e (SelfEndpoint k fd));
        do* dcheck (bool_decide (listeners !! fd = None));
        Ok (k, <[fd := mkListener socket e]> listeners, es ++ [e])
    end.

(** The outer loop: one interface. *)
Definition create_nic (poller : Z) : K * Listeners * HostInfo → str * NicInfo → res (K * Listeners * HostInfo) :=
  λ '(k, listeners, host) '(_, ni),
    let* '(k, listeners, es) := foreach (create_endpoint poller) (k, listeners, []) (nic_endpoints ni) in
    let nic := mkNicInfo (nic_name ni) (nic_type ni) es in
    Ok (k, listeners,
        if NicInfo_IsValid nic
        then mkHostInfo (control_plane_listener host) (data_plane_listeners host ++ [nic]) else host).

(** The constructor. *)
Definition TcpManager_new (k : K) (self : HostInfo) (poller : Z) (sockets : Listeners) : res TcpManager :=
  let m := mkTcpManager self false poller sockets (mkConnectors false ∅) (mkProduced false []) (mkProduced false []) in
  let* b := Listeners_Invariant k sockets in
  do* dcheck b;
  let* b := invariant k m in
  do* dcheck b;
  Ok m.

(** The second component is the updated [self]. *)
Definition TcpManager_Create (k : K) (routable : list (str * (NicType * list IpAddr))) (self : HostInfo)
    : res (K * HostInfo * option TcpManager) :=
  let* '(k, poller) := Poller_Create k in
  match poller with
  | None => Ok (k, self, None)
  | Some poller =>
      let loopback := IpAddr_IsLoopback (ep_ipaddr (control_plane_listener self)) in
      let candidates := GetTcpListenerCandidates routable loopback in
      if bool_decide (candidates = []) then
        let* k := Poller_destroy k poller in Ok (k, self, None)
      else
        let* '(k, listeners, host) := foreach (create_nic poller) (k, ∅, self) candidates in
        if bool_decide (listeners = ∅) then
          let* k := Poller_destroy k poller in Ok (k, self, None)
        else if negb (IsDataPlaneValid host) then
          let* '(k, _) := Listeners_Close k listeners in
          let* k := Poller_destroy k poller in Ok (k, self, None)
        else
          let* m := TcpManager_new k host poller listeners in
          Ok (k, host, Some m)
  end.

(** ** Connecting *)

(** Returning [nullptr] from the synchronous connect. *)
Definition fail_null (k : K) (socket : SocketBase) : res (K * option SocketBase) :=
  let* k := Socket_destroy k socket in Ok (k, None).

Definition connectSync (k : K) (socket : SocketBase) (peer : Endpoint) (timeout_ms : Z)
    : res (K * option SocketBase) :=
  let* b := IsBlocking k socket in
  let* nb := IsNonBlocking k socket in
  do* dcheck (b && (timeout_ms <=? 0) || nb && (0 <? timeout_ms));
  do* dcheck (HasNonzeroIpPort peer);
  let* '(k, socket, ret) := Tcp_Connect k socket peer in
  let* '(k, connected) :=
    if ret =? kConnectError then fail_null k socket
    else if ret =? kConnectInProgress then
      do* dcheck (1 <=? timeout_ms);
      let* nb := IsNonBlocking k socket in
      do* dcheck nb;
      do* dcheck (negb (sk_connected socket));
      let fd := sk_fd socket in
      let '(k, n, _) := poll_ k fd timeout_ms in
      if n <? 0 then fail_null k socket
      else if n =? 0 then fail_null k socket
      else
        let '(k, err) := GetSocketError k fd in
        if negb (err =? 0) then fail_null k socket
        else Ok (k, Some (set_connected socket true))
    else Ok (k, Some socket) in
  match connected with
  | None => Ok (k, None)
  | Some socket =>
      do* dcheck (sk_connected socket);
      let* '(k, socket, ret) := SetBlocking k socket true in
      if ret <? 0 then fail_null k socket else Ok (k, Some socket)
  end.

(** The two [Connect]s open the socket the same way: [None] is a failure to create or bind. *)
Definition open_socket (k : K) (self peer : Endpoint) (blocking : bool) : res (K * option SocketBase) :=
  let family := AddressFamily (ep_ipaddr peer) in
  let* '(k, socket) := Tcp_Create k family blocking in
  match socket with
  | None => Ok (k, None)
  | Some socket =>
      if negb (HasZeroIpAddr self) then
        let* '(k, ret) := Socket_Bind k socket self in
        if ret <? 0 then fail_null k socket else Ok (k, Some socket)
      else Ok (k, Some socket)
  end.

(** The static [Connect]. *)
Definition Connect_static (k : K) (self peer : Endpoint) (timeout_ms : Z) : res (K * option SocketBase) :=
  do* dcheck (HasNonzeroIpPort peer);
  let blocking := timeout_ms <=? 0 in
  let* '(k, socket) := open_socket k self peer blocking in
  match socket with
  | None => Ok (k, None)
  | Some socket => connectSync k socket peer timeout_ms
  end.

Definition addConnected (k : K) (m : TcpManager) (socket : SocketBase) : res (K * TcpManager * Z) :=
  do* dcheck (sk_connected socket);
  let* '(k, p, ok) := Produced_Add k (tm_outgoing m) socket in
  Ok (k, with_outgoing m p, if ok : bool then kConnectSuccess else kConnectError).

Definition connectBlocking (k : K) (m : TcpManager) (socket : SocketBase) (peer : Endpoint)
    : res (K * TcpManager * Z) :=
  let* b := IsBlocking k socket in
  do* dcheck b;
  let* '(k, socket, ret) := Tcp_Connect k socket peer in
  if ret <? 0 then let* k := Socket_destroy k socket in Ok (k, m, kConnectError)
  else addConnected k m socket.

(** [util::MonotonicNow() + timeout]. *)
Definition expiration_of (now : Z) (timeout : Duration) : Duration := Z.add now <$> timeout.

Definition connectNonBlocking (k : K) (m : TcpManager) (socket : SocketBase) (peer : Endpoint)
    (timeout : Duration) : res (K * TcpManager * Z) :=
  let* nb := IsNonBlocking k socket in
  do* dcheck nb;
  let* '(k, socket, ret) := Tcp_Connect k socket peer in
  if ret =? kConnectSuccess then addConnected k m socket
  else if ret =? kConnectInProgress then
    do* dcheck (negb (sk_connected socket));
    let fd := sk_fd socket in
    let register_fd k added :=
      let '(k, ret) := Poller_Register k (tm_poller m) added kOutgoingEvents in (k, ret =? 0) in
    let expiration := expiration_of (MonotonicNow k) timeout in
    let* '(k, cs, ok) := Connectors_Add k (tm_connectors m) fd (mkConnector socket expiration) register_fd in
    Ok (k, with_connectors m cs, if ok : bool then kConnectInProgress else kConnectError)
  else let* k := Socket_destroy k socket in Ok (k, m, kConnectError).

(** The part of [Connect] after the socket is open. *)
Definition finish_connect (k : K) (m : TcpManager) (socket : SocketBase) (peer : Endpoint) (blocking : bool)
    (timeout : Duration) : res (K * TcpManager * Z) :=
  if blocking then connectBlocking k m socket peer else connectNonBlocking k m socket peer timeout.

Definition Connect (k : K) (m : TcpManager) (self peer : Endpoint) (blocking : bool) (timeout : Duration)
    : res (K * TcpManager * Z) :=
  do* dcheck (HasNonzeroIpPort peer);
  do* dcheck (negb blocking || bool_decide (timeout = None));
  if tm_stop m then Ok (k, m, kConnectError)
  else
    let* '(k, socket) := open_socket k self peer blocking in
    match socket with
    | None => Ok (k, m, kConnectError)
    | Some socket => finish_connect k m socket peer blocking timeout
    end.

Definition GetIncomingSockets (m : TcpManager) : TcpManager * list SocketBase :=
  let '(p, ss) := MoveAll (tm_incoming m) in (with_incoming m p, ss).
Definition GetOutgoingSockets (m : TcpManager) : TcpManager * list SocketBase :=
  let '(p, ss) := MoveAll (tm_outgoing m) in (with_outgoing m p, ss).
Definition FindListener (m : TcpManager) (target : Endpoint) : res (option Listener) :=
  do* dcheck (HasNonzeroIpPort target); Ok (Listeners_Find (tm_listeners m) target).

(** ** Events *)

Definition removeListener (k : K) (m : TcpManager) (fd : Z) : res (K * TcpManager) :=
  let '(k, _) := Poller_Unregister k (tm_poller m) fd in
  let* '(k, ls) := Listeners_Remove k (tm_listeners m) fd in
  Ok (k, with_listeners m ls).

Definition has (flag mask : Z) : bool := negb (Z.land flag mask =? 0).

(** One round of the accept loop on the listener [fd]: [true] goes on.  The code holds a
    pointer to the listener. *)
Definition accept_one (fuel : nat) (k : K) (m : TcpManager) (fd : Z) (gen_blocking : bool)
    : res (K * TcpManager * bool) :=
  let* listener := at_or BadPointer (Listeners_Get (tm_listeners m) fd) in
  let family := sk_family listener in
  let* '(k, ret) := Tcp_Accept fuel k listener gen_blocking in
  if ret <? 0 then
    if ret =? kAcceptWouldBlock then Ok (k, m, false)
    else if ret =? kAcceptShutdown then
      let* '(k, m) := removeListener k m fd in Ok (k, m, false)
    else Ok (k, m, false)
  else
    let* '(k, socket) := Tcp_Create_accepted k ret family gen_blocking in
    let* socket := at_or BadPointer socket in
    do* dcheck (MatchesBlocking k socket);
    do* dcheck (sk_connected socket);
    let* '(k, p, ok) := Produced_Add k (tm_incoming m) socket in
    Ok (k, with_incoming m p, ok).

Fixpoint accept_all (fuel : nat) (k : K) (m : TcpManager) (fd : Z) (gen_blocking : bool) : res (K * TcpManager) :=
  match fuel with
  | O => Fault Blocked
  | S fuel' =>
      if tm_stop m then Ok (k, m)
      else
        let* '(k, m, go) := accept_one fuel k m fd gen_blocking in
        if go : bool then accept_all fuel' k m fd gen_blocking else Ok (k, m)
  end.

Definition handleAllIncoming (fuel : nat) (k : K) (m : TcpManager) (fd flag : Z) (gen_blocking : bool)
    : res (K * TcpManager * bool) :=
  match Listeners_Get (tm_listeners m) fd with
  | None => Ok (k, m, false)
  | Some _ =>
      let* '(k, m) :=
        if has flag (Z.lor EPOLLERR EPOLLHUP) then removeListener k m fd
        else if has flag EPOLLIN then accept_all fuel k m fd gen_blocking
        else Ok (k, m) in
      Ok (k, m, true)
  end.

Definition handleOneOutgoing (k : K) (m : TcpManager) (fd flag : Z) : res (K * TcpManager * bool) :=
  let* '(cs, socket) := Connectors_Remove (tm_connectors m) fd in
  match socket with
  | None => Ok (k, m, false)
  | Some socket =>
      let m := with_connectors m cs in
      let '(k, _) := Poller_Unregister k (tm_poller m) fd in
      let '(k, err) := GetSocketError k fd in
      if negb (err =? 0) || has flag (Z.lor EPOLLERR EPOLLHUP) || negb (has flag EPOLLOUT)
      then let* k := Socket_destroy k socket in Ok (k, m, true)
      else if has flag EPOLLRDHUP then let* k := Socket_destroy k socket in Ok (k, m, true)
      else
        let* nb := IsNonBlocking k socket in
        do* dcheck nb;
        do* dcheck (negb (sk_connected socket));
        let socket := set_connected socket true in
        do* dcheck (sk_connected socket);
        let* '(k, m, _) := addConnected k m socket in
        Ok (k, m, true)
  end.

Definition removeExpiredOutgoing (k : K) (m : TcpManager) : res (K * TcpManager) :=
  let now := MonotonicNow k in
  let* '(cs, gone) := RemoveExpired (tm_connectors m) now in
  let* k := foreach (λ k c, Ok (fst (Poller_Unregister k (tm_poller m) (sk_fd (c_socket c))))) k gone in
  let* k := destroy_all k (c_socket <$> gone) in
  Ok (k, with_connectors m cs).

(** One event of a batch. *)
Definition handle_event (fuel : nat) (k : K) (m : TcpManager) (e : Z * Z) (gen_blocking : bool)
    : res (K * TcpManager) :=
  let '(fd, flag) := e in
  let* '(k, m, handled) := handleAllIncoming fuel k m fd flag gen_blocking in
  if handled : bool then Ok (k, m)
  else
    let* '(k, m, handled) := handleOneOutgoing k m fd flag in
    do* dcheck handled; Ok (k, m).

(** The end of [Start]. *)
Definition Start_exit (k : K) (m : TcpManager) : res (K * TcpManager) :=
  let* '(k, ls) := Listeners_Close k (tm_listeners m) in
  let* '(k, cs) := Connectors_Close k (tm_connectors m) in
  Ok (k, with_connectors (with_listeners m ls) cs).

(** [Start] when no other thread acts: rounds of the event loop until [stop_]. *)
Fixpoint Start_loop (fuel : nat) (k : K) (m : TcpManager) (gen_blocking : bool) : res (K * TcpManager) :=
  match fuel with
  | O => Fault Blocked
  | S fuel' =>
      if tm_stop m then Start_exit k m
      else
        let* '(k, nfds, events) := BlockingWait k (tm_poller m) kEpollMaxNumEvents kEpollWaitTimeoutMs in
        if tm_stop m then Start_exit k m
        else
          let* '(k, m) :=
            if 0 <? nfds
            then foreach (λ '(k, m) e, handle_event fuel k m e gen_blocking) (k, m) events
            else Ok (k, m) in
          let* '(k, m) := removeExpiredOutgoing k m in
          Start_loop fuel' k m gen_blocking
  end.

Definition Start (fuel : nat) (k : K) (m : TcpManager) (gen_blocking : bool) : res (K * TcpManager) :=
  let* b := invariant k m in
  do* dcheck b;
  Start_loop fuel k m gen_blocking.

(** The statements of [Stop], in order. *)
Definition Stop_statements : list (K → TcpManager → res (K * TcpManager)) :=
  [ (λ k m, let* b := invariant k m in do* dcheck b; Ok (k, m));
    (λ k m, Ok (k, with_connectors m (Connectors_Seal (tm_connectors m))));
    (λ k m, Ok (k, with_incoming m (Produced_Seal (tm_incoming m))));
    (λ k m, Ok (k, with_outgoing m (Produced_Seal (tm_outgoing m))));
    (λ k m, Ok (k, with_stop m true));
    (λ k m, let* '(k, ls) := Listeners_Shutdown k (tm_listeners m) in Ok (k, with_listeners m ls));
    (λ k m, let* '(k, p) := Produced_Close k (tm_incoming m) in Ok (k, with_incoming m p));
    (λ k m, let* '(k, p) := Produced_Close k (tm_outgoing m) in Ok (k, with_outgoing m p)) ].

Definition Stop (k : K) (m : TcpManager) : res (K * TcpManager) :=
  foreach (λ '(k, m) (f : K → TcpManager → res (K * TcpManager)), f k m) (k, m) Stop_statements.
End Ops.

(** * Ownership of the manager's sockets *)

Lemma all_of_true {A} (f : A → res bool) l : (∀ x, x ∈ l → f x = Ok true) → all_of f l = Ok true.
Proof.
  induction l as [|x l IH]; intros Hf; [done|]. cbn [all_of]. rewrite Hf, bind_Ok by by left.
  apply IH. intros y Hy. apply Hf. by right.
Qed.

Lemma vals_delete {A} (m : gmap Z A) i x : m !! i = Some x → vals m ≡ₚ x :: vals (delete i m).
Proof. intros Hi. unfold vals. by rewrite <- (map_to_list_delete m i x Hi). Qed.
Lemma vals_insert {A} (m : gmap Z A) i x : m !! i = None → vals (<[i := x]> m) ≡ₚ x :: vals m.
Proof. intros Hi. unfold vals. by rewrite (map_to_list_insert m i x Hi). Qed.
Lemma elem_of_vals {A} (m : gmap Z A) x : x ∈ vals m ↔ ∃ i, m !! i = Some x.
Proof.
  unfold vals. rewrite list_elem_of_fmap. split.
  - intros ([i y] & -> & Hin%elem_of_map_to_list). by exists i.
  - intros [i Hi]. exists (i, x). split; [done|by apply elem_of_map_to_list].
Qed.
Lemma vals_empty {A} : vals (∅ : gmap Z A) = [].
Proof. unfold vals. by rewrite map_to_list_empty. Qed.

(** The name [SelfEndpoint] reads. *)
Definition named (i : fdinfo) : Endpoint := from_option Endpoint_of_sockaddr Endpoint_default (fi_name i).

(** The cells of the four containers. *)
Definition lcell (ep : Z) (l : Listener) : cell :=
  (sk_fd (l_socket l), λ i, sock_ok (l_socket l) i ∧ fi_watch i = {[ep]} ∧ named i = l_endpoint l).
Definition ccell (ep : Z) (c : Connector) : cell := sock {[ep]} (c_socket c).
Definition mcells (m : TcpManager) : list cell :=
  pollcell (tm_poller m) :: (lcell (tm_poller m) <$> vals (tm_listeners m)) ++
  (ccell (tm_poller m) <$> vals (cn_map (tm_connectors m))) ++
  (sock ∅ <$> pr_sockets (tm_incoming m)) ++ (sock ∅ <$> pr_sockets (tm_outgoing m)).

Definition listener_wf (fd : Z) (l : Listener) : Prop :=
  fd = sk_fd (l_socket l) ∧ sk_blocking (l_socket l) = false ∧ sk_connected (l_socket l) = false ∧
  HasNonzeroIpPort (l_endpoint l) = true.
Definition connector_wf (fd : Z) (c : Connector) : Prop :=
  fd = sk_fd (c_socket c) ∧ sk_blocking (c_socket c) = false ∧ sk_connected (c_socket c) = false.

Record mwf (m : TcpManager) : Prop := {
  w_self : IsDataPlaneValid (tm_self m) = true;
  w_listeners : map_Forall listener_wf (tm_listeners m);
  w_connectors : map_Forall connector_wf (cn_map (tm_connectors m));
  w_incoming : Forall (λ s, sk_connected s = true) (pr_sockets (tm_incoming m));
  w_outgoing : Forall (λ s, sk_connected s = true) (pr_sockets (tm_outgoing m));
}.

(** The manager owns its sockets; [cs] are the cells of its environment. *)
Definition owned {K} `{FdKernel K} (k : K) (X : gmap Z fdinfo) (m : TcpManager) (cs : list cell) : Prop :=
  holds (fdt k) X (mcells m ++ cs) ∧ mwf m.

(** How an operation may change the manager while events on descriptors outside [S] may be
    pending: the flags stay, sealed containers do not grow, listeners are never added, and
    what is watched outside [S] stays watched. *)
Record evolves (S : gset Z) (m m' : TcpManager) : Prop := {
  ev_poller : tm_poller m' = tm_poller m;
  ev_stop : tm_stop m' = tm_stop m;
  ev_cn_sealed : cn_sealed (tm_connectors m') = cn_sealed (tm_connectors m);
  ev_in_sealed : pr_sealed (tm_incoming m') = pr_sealed (tm_incoming m);
  ev_out_sealed : pr_sealed (tm_outgoing m') = pr_sealed (tm_outgoing m);
  ev_in : pr_sealed (tm_incoming m) = true → tm_incoming m' = tm_incoming m;
  ev_out : pr_sealed (tm_outgoing m) = true → tm_outgoing m' = tm_outgoing m;
  ev_ls_sub : dom (tm_listeners m') ⊆ dom (tm_listeners m);
  ev_cs_sub : cn_sealed (tm_connectors m) = true →
    dom (cn_map (tm_connectors m')) ⊆ dom (cn_map (tm_connectors m));
  ev_ls_keep : dom (tm_listeners m) ∖ S ⊆ dom (tm_listeners m');
  ev_cs_keep : dom (cn_map (tm_connectors m)) ∖ S ⊆ dom (cn_map (tm_connectors m'));
}.

Lemma evolves_refl S m : evolves S m m.
Proof. split; set_solver. Qed.
Lemma keep_trans (S A B C : gset Z) : A ∖ S ⊆ B → B ∖ S ⊆ C → A ∖ S ⊆ C.
Proof. set_solver. Qed.
Lemma keep_weaken (S S' A B : gset Z) : A ∖ S ⊆ B → S ⊆ S' → A ∖ S' ⊆ B.
Proof. set_solver. Qed.
Lemma evolves_trans S m1 m2 m3 : evolves S m1 m2 → evolves S m2 m3 → evolves S m1 m3.
Proof.
  intros E1 E2. destruct E1, E2. split; try congruence.
  - intros Hs. rewrite <- ev_in0 by done. apply ev_in1. congruence.
  - intros Hs. rewrite <- ev_out0 by done. apply ev_out1. congruence.
  - by etrans.
  - intros Hs. etrans; [apply ev_cs_sub1; congruence|by apply ev_cs_sub0].
  - by eapply keep_trans.
  - by eapply keep_trans.
Qed.
Lemma evolves_weaken S S' m m' : evolves S m m' → S ⊆ S' → evolves S' m m'.
Proof. intros [] Hs. split; try done; by eapply keep_weaken. Qed.

(** The descriptors of a manager. *)
Lemma mcells_fds m fd : mwf m → fd ∈ (mcells m).*1 ↔
  fd = tm_poller m ∨ fd ∈ dom (tm_listeners m) ∨ fd ∈ dom (cn_map (tm_connectors m)) ∨
  fd ∈ sk_fd <$> pr_sockets (tm_incoming m) ∨ fd ∈ sk_fd <$> pr_sockets (tm_outgoing m).
Proof.
  intros Hw. unfold mcells. cbn [fmap list_fmap fst pollcell].
  rewrite elem_of_cons, !fmap_app, !elem_of_app, <- !list_fmap_compose.
  assert (fd ∈ fst ∘ lcell (tm_poller m) <$> vals (tm_listeners m) ↔ fd ∈ dom (tm_listeners m)) as ->.
  { rewrite list_elem_of_fmap, elem_of_dom. split.
    - intros (l & -> & [f Hf]%elem_of_vals). destruct (w_listeners m Hw f l Hf) as (E & _). cbn. rewrite <- E. eauto.
    - intros [l Hl]. exists l. split; [exact (proj1 (w_listeners m Hw fd l Hl))|]. apply elem_of_vals. eauto. }
  assert (fd ∈ fst ∘ ccell (tm_poller m) <$> vals (cn_map (tm_connectors m)) ↔ fd ∈ dom (cn_map (tm_connectors m))) as ->.
  { rewrite list_elem_of_fmap, elem_of_dom. split.
    - intros (l & -> & [f Hf]%elem_of_vals). destruct (w_connectors m Hw f l Hf) as (E & _). cbn. rewrite <- E. eauto.
    - intros [l Hl]. exists l. split; [exact (proj1 (w_connectors m Hw fd l Hl))|]. apply elem_of_vals. eauto. }
  done.
Qed.

(** A sealed manager owns no new descriptor. *)
Lemma evolves_fds S m m' : evolves S m m' → mwf m → mwf m' → cn_sealed (tm_connectors m) = true →
  pr_sealed (tm_incoming m) = true → pr_sealed (tm_outgoing m) = true → (mcells m').*1 ⊆ (mcells m).*1.
Proof.
  intros He Hw Hw' Hc Hi Ho fd. rewrite !mcells_fds by done.
  rewrite (ev_poller _ _ _ He), (ev_in _ _ _ He), (ev_out _ _ _ He) by done.
  pose proof (ev_ls_sub _ _ _ He). pose proof (ev_cs_sub _ _ _ He Hc). set_solver.
Qed.

Section Proofs.
Context {K : Type} `{FdLaws K}.
Implicit Types (k : K) (s : SocketBase) (cs : list cell) (X : gmap Z fdinfo) (m : TcpManager).

Lemma destroy_all_ok {A} k X (f : A → SocketBase) (P : A → fdinfo → Prop) l cs :
  (∀ x i, P x i → sock_ok (f x) i) → holds (fdt k) X (((λ x, (sk_fd (f x), P x)) <$> l) ++ cs) →
  ∃ k', destroy_all k (f <$> l) = Ok k' ∧ holds (fdt k') X cs.
Proof.
  intros HP. revert k. induction l as [|x l IH]; intros k Hh; [by exists k|].
  unfold destroy_all in *. cbn [fmap list_fmap foreach].
  destruct (destroy_cell_ok k X (f x) (P x) _ (HP x) Hh) as (k1 & -> & Hh1). rewrite bind_Ok. by apply IH.
Qed.

Lemma owned_proper k X m cs cs' : cs ≡ₚ cs' → owned k X m cs → owned k X m cs'.
Proof. intros E [Hh Hw]. split; [|done]. by rewrite <- E. Qed.

(** What is known of one socket of the manager. *)
Lemma owned_listener k X m cs fd l : owned k X m cs → tm_listeners m !! fd = Some l →
  listener_wf fd l ∧ ∃ i, fdt k !! fd = Some i ∧ sock_ok (l_socket l) i ∧
    fi_watch i = {[tm_poller m]} ∧ named i = l_endpoint l.
Proof.
  intros [Hh Hw] Hl. pose proof (w_listeners m Hw fd l Hl) as Hwf. split; [done|].
  destruct Hwf as (-> & _). apply (holds_lookup X _ _ (lcell (tm_poller m) l) Hh).
  unfold mcells. rewrite elem_of_app, elem_of_cons, elem_of_app. left. right. left.
  apply list_elem_of_fmap_2, elem_of_vals. eauto.
Qed.
Lemma owned_connector k X m cs fd c : owned k X m cs → cn_map (tm_connectors m) !! fd = Some c →
  connector_wf fd c ∧ ∃ i, fdt k !! fd = Some i ∧ sock_ok (c_socket c) i ∧ fi_watch i = {[tm_poller m]}.
Proof.
  intros [Hh Hw] Hl. pose proof (w_connectors m Hw fd c Hl) as Hwf. split; [done|].
  destruct Hwf as (-> & _). apply (holds_lookup X _ _ (ccell (tm_poller m) c) Hh).
  unfold mcells. rewrite elem_of_app, elem_of_cons, !elem_of_app. left. right. right. left.
  apply list_elem_of_fmap_2, elem_of_vals. eauto.
Qed.

Lemma IsPairAndNonBlocking_ok k fd s i : fdt k !! fd = Some i → sock_ok s i → fd = sk_fd s →
  sk_blocking s = false → IsPairAndNonBlocking k fd s = Ok true.
Proof.
  intros Hi Hs -> Hb. unfold IsPairAndNonBlocking, IsPair. rewrite Z.eqb_refl, IsNonBlocking_ok, Hb; [done|].
  by eapply invariant_matches, sock_invariant.
Qed.

Lemma Listeners_Invariant_ok k X m cs : owned k X m cs → Listeners_Invariant k (tm_listeners m) = Ok true.
Proof.
  intros Ho. apply all_of_true. intros [fd l] Hin%elem_of_map_to_list.
  destruct (owned_listener _ _ _ _ _ _ Ho Hin) as ((Hfd & Hb & _ & Hn) & i & Hi & Hs & _ & Hnm).
  rewrite (IsPairAndNonBlocking_ok k fd _ i), bind_Ok by done. rewrite Hn.
  unfold SelfEndpoint. destruct (fl_view _ _ _ Hi) as (_ & _ & _ & _ & ->).
  unfold named in Hnm. by rewrite Hnm, Endpoint_eqb_refl.
Qed.

(** Every assertion of the manager's own invariant. *)
Lemma invariant_ok k X m cs : owned k X m cs → invariant k m = Ok true.
Proof.
  intros Ho. unfold invariant. pose proof (proj2 Ho) as Hw. rewrite (w_self m Hw). cbn [negb].
  rewrite (Listeners_Invariant_ok k X m cs Ho), bind_Ok. cbn [negb].
  unfold Connectors_Invariant. rewrite all_of_true, bind_Ok.
  - unfold Produced_Invariant. f_equal. cbn [andb]. apply andb_true_intro.
    split; apply forallb_forall; intros s Hs%list_elem_of_In;
      [pose proof (w_incoming m Hw) as Hf|pose proof (w_outgoing m Hw) as Hf];
      rewrite list.Forall_forall in Hf; by apply Hf.
  - intros [fd c] Hin%elem_of_map_to_list.
    destruct (owned_connector _ _ _ _ _ _ Ho Hin) as ((Hfd & Hb & _) & i & Hi & Hs & _).
    by eapply IsPairAndNonBlocking_ok.
Qed.

(** ** Containers *)

Lemma Produced_Add_ok k X p s cs : sk_connected s = true →
  holds (fdt k) X (sock ∅ s :: (sock ∅ <$> pr_sockets p) ++ cs) →
  Forall (λ s, sk_connected s = true) (pr_sockets p) →
  ∃ k' p', Produced_Add k p s = Ok (k', p', negb (pr_sealed p)) ∧
    holds (fdt k') X ((sock ∅ <$> pr_sockets p') ++ cs) ∧ (backlog k' = backlog k ∨ pr_sealed p = true) ∧
    Forall (λ s, sk_connected s = true) (pr_sockets p') ∧ pr_sealed p' = pr_sealed p ∧
    (pr_sealed p = true → p' = p).
Proof.
  intros Hc Hh Hf. unfold Produced_Add. rewrite bind_dcheck by done. destruct p as [[] ss]; cbn in *.
  - destruct (destroy_ok _ _ _ _ _ Hh) as (k' & -> & Hh'). rewrite bind_Ok.
    eexists k', _. split; [done|]. split_and!; try done. by right.
  - eexists k, _. split; [done|]. cbn. split_and!; try done.
    + rewrite fmap_app. cbn [fmap list_fmap].
      enough (((sock ∅ <$> ss) ++ [sock ∅ s]) ++ cs ≡ₚ sock ∅ s :: (sock ∅ <$> ss) ++ cs) as ->; [done|].
      solve_Permutation.
    + by left.
    + apply Forall_app. split; [done|]. by repeat constructor.
Qed.

(** Nothing is produced once the containers are sealed. *)
Definition sealed (m : TcpManager) : bool := cn_sealed (tm_connectors m) && pr_sealed (tm_outgoing m).

Lemma add_outgoing_ok k X m s cs : owned k X m (sock ∅ s :: cs) → sk_connected s = true →
  ∃ k' m' r, addConnected k m s = Ok (k', m', r) ∧ owned k' X m' cs ∧ evolves ∅ m m' ∧
    (sealed m = true → r = kConnectError).
Proof.
  intros [Hh Hw] Hc. unfold addConnected. rewrite bind_dcheck by done.
  assert (mcells m ++ sock ∅ s :: cs ≡ₚ sock ∅ s :: (sock ∅ <$> pr_sockets (tm_outgoing m)) ++
     pollcell (tm_poller m) :: (lcell (tm_poller m) <$> vals (tm_listeners m)) ++
     (ccell (tm_poller m) <$> vals (cn_map (tm_connectors m))) ++
     (sock ∅ <$> pr_sockets (tm_incoming m)) ++ cs) as E by (unfold mcells; solve_Permutation).
  rewrite E in Hh.
  destruct (Produced_Add_ok k X (tm_outgoing m) s _ Hc Hh (w_outgoing m Hw)) as (k' & p' & -> & Hh' & _ & Hf & Hs & Hp).
  rewrite bind_Ok. eexists k', _, _. split; [done|]. split; [split|split].
  - revert Hh'. apply holds_Proper. unfold mcells. cbn. solve_Permutation.
  - by destruct Hw; split.
  - split; cbn; try done; set_solver.
  - intros [_ ->]%andb_prop. done.
Qed.

Lemma add_incoming_ok k X m s cs : owned k X m (sock ∅ s :: cs) → sk_connected s = true →
  ∃ k' p', Produced_Add k (tm_incoming m) s = Ok (k', p', negb (pr_sealed (tm_incoming m))) ∧
    owned k' X (with_incoming m p') cs ∧ evolves ∅ m (with_incoming m p') ∧
    (backlog k' = backlog k ∨ pr_sealed (tm_incoming m) = true).
Proof.
  intros [Hh Hw] Hc.
  assert (mcells m ++ sock ∅ s :: cs ≡ₚ sock ∅ s :: (sock ∅ <$> pr_sockets (tm_incoming m)) ++
     pollcell (tm_poller m) :: (lcell (tm_poller m) <$> vals (tm_listeners m)) ++
     (ccell (tm_poller m) <$> vals (cn_map (tm_connectors m))) ++
     (sock ∅ <$> pr_sockets (tm_outgoing m)) ++ cs) as E by (unfold mcells; solve_Permutation).
  rewrite E in Hh.
  destruct (Produced_Add_ok k X (tm_incoming m) s _ Hc Hh (w_incoming m Hw)) as (k' & p' & -> & Hh' & Hb & Hf & Hs & Hp).
  eexists k', _. split; [done|]. split; [split|split; [|done]].
  - revert Hh'. apply holds_Proper. unfold mcells. cbn. solve_Permutation.
  - by destruct Hw; split.
  - split; cbn; try done; set_solver.
Qed.

(** Taking a listener or a connector out of the manager. *)
Lemma take_listener k X m cs fd l : owned k X m cs → tm_listeners m !! fd = Some l →
  owned k X (with_listeners m (delete fd (tm_listeners m))) (lcell (tm_poller m) l :: cs) ∧
  evolves {[fd]} m (with_listeners m (delete fd (tm_listeners m))).
Proof.
  intros [Hh Hw] Hl. split; [split|].
  - revert Hh. apply holds_Proper. unfold mcells. cbn. rewrite (vals_delete (tm_listeners m) fd l Hl).
    cbn [fmap list_fmap]. solve_Permutation.
  - destruct Hw; split; try done. cbn. by apply map_Forall_delete.
  - split; cbn; try done; set_solver.
Qed.
Definition drop_connector (m : TcpManager) (fd : Z) : TcpManager :=
  with_connectors m (mkConnectors (cn_sealed (tm_connectors m)) (delete fd (cn_map (tm_connectors m)))).
Lemma take_connector k X m cs fd c : owned k X m cs → cn_map (tm_connectors m) !! fd = Some c →
  owned k X (drop_connector m fd) (ccell (tm_poller m) c :: cs) ∧ evolves {[fd]} m (drop_connector m fd).
Proof.
  intros [Hh Hw] Hl. split; [split|].
  - revert Hh. apply holds_Proper. unfold mcells. cbn. rewrite (vals_delete (cn_map (tm_connectors m)) fd c Hl).
    cbn [fmap list_fmap]. solve_Permutation.
  - destruct Hw; split; try done. cbn. by apply map_Forall_delete.
  - split; cbn; try done; set_solver.
Qed.

Lemma owned_perm_head k X m c cs : owned k X m (c :: cs) ↔ holds (fdt k) X (c :: mcells m ++ cs) ∧ mwf m.
Proof.
  unfold owned. enough (mcells m ++ c :: cs ≡ₚ c :: mcells m ++ cs) as -> by done. solve_Permutation.
Qed.

(** Operations on a socket outside the containers, in the frame of the manager. *)
Lemma owned_destroy k X m s W cs : owned k X m (sock W s :: cs) →
  ∃ k', Socket_destroy k s = Ok k' ∧ owned k' X m cs.
Proof.
  intros [Hh Hw]%owned_perm_head. destruct (destroy_ok _ _ _ _ _ Hh) as (k' & -> & Hh'). by exists k'.
Qed.
Lemma owned_unregister k X m s cs ep : owned k X m (sock {[ep]} s :: cs) →
  ∃ k' r, Poller_Unregister k ep (sk_fd s) = (k', r) ∧ owned k' X m (sock ∅ s :: cs).
Proof.
  intros [Hh Hw]%owned_perm_head. destruct (Unregister_ok _ _ _ _ _ Hh) as (k' & r & -> & Hh').
  exists k', r. split; [done|]. by apply owned_perm_head.
Qed.
Lemma owned_fdt k k' X m cs : fdt k' = fdt k → owned k X m cs → owned k' X m cs.
Proof. unfold owned. by intros ->. Qed.

(** ** Connecting *)

Lemma is_inet_family a : is_inet (AddressFamily a) = true.
Proof. by destruct a. Qed.

Lemma fail_null_ok k X s cs : holds (fdt k) X (sock ∅ s :: cs) →
  ∃ k', fail_null k s = Ok (k', None) ∧ holds (fdt k') X cs.
Proof.
  intros Hh. unfold fail_null. destruct (destroy_ok _ _ _ _ _ Hh) as (k' & -> & Hh'). rewrite bind_Ok.
  by exists k'.
Qed.

(** What a call that returns a socket or [nullptr] owns afterwards. *)
Definition returns (k' : K) (X : gmap Z fdinfo) (cs : list cell) (P : SocketBase → Prop) (o : option SocketBase) : Prop :=
  match o with
  | Some s => P s ∧ holds (fdt k') X (sock ∅ s :: cs)
  | None => holds (fdt k') X cs
  end.

Lemma fail_null_returns k X s cs P : holds (fdt k) X (sock ∅ s :: cs) →
  ∃ k' o, fail_null k s = Ok (k', o) ∧ returns k' X cs P o.
Proof. intros (k' & -> & Hh')%fail_null_ok. by exists k', None. Qed.

Lemma open_socket_ok k X cs self peer b : holds (fdt k) X cs →
  ∃ k' o, open_socket k self peer b = Ok (k', o) ∧
    returns k' X cs (λ s, sk_blocking s = b ∧ sk_connected s = false) o.
Proof.
  intros Hh. unfold open_socket.
  destruct (create_ok k X cs _ b (is_inet_family (ep_ipaddr peer)) Hh) as (k1 & [s|] & -> & Hs); rewrite bind_Ok;
    [|by exists k1, None].
  destruct Hs as (_ & Hb & Hc & Hh1). destruct (negb (HasZeroIpAddr self)); [|by exists k1, (Some s)].
  destruct (bind_ok k1 X _ s cs self Hh1) as (k2 & r & -> & Hh2). rewrite bind_Ok.
  destruct (r <? 0); [by apply fail_null_returns|]. by exists k2, (Some s).
Qed.

Lemma connectSync_ok k X s cs peer tmo : holds (fdt k) X (sock ∅ s :: cs) → sk_connected s = false →
  HasNonzeroIpPort peer = true → sk_blocking s = (tmo <=? 0) →
  ∃ k' o, connectSync k s peer tmo = Ok (k', o) ∧
    returns k' X cs (λ s', sk_blocking s' = true ∧ sk_connected s' = true ∧ sk_fd s' = sk_fd s) o.
Proof.
  intros Hh Hc Hp Hb. pose proof (holds_sock_matches _ _ _ _ _ Hh) as Hm. unfold connectSync.
  rewrite IsBlocking_ok, IsNonBlocking_ok, !bind_Ok by done.
  rewrite bind_dcheck by (rewrite Hb; destruct (Z.leb_spec tmo 0); cbn; [done|by apply Z.ltb_lt]).
  rewrite bind_dcheck by done.
  destruct (connect_ok k X ∅ s cs peer Hh Hc Hp) as (k1 & s1 & r & -> & Hh1 & Hr). rewrite bind_Ok.
  (* the connection, before the socket is made blocking *)
  assert (∃ k2 o, (if r =? kConnectError then fail_null k1 s1 else if r =? kConnectInProgress then
      do* dcheck (1 <=? tmo); let* nb := IsNonBlocking k1 s1 in do* dcheck nb;
      do* dcheck (negb (sk_connected s1));
      let '(k, n, _) := poll_ k1 (sk_fd s1) tmo in
      if n <? 0 then fail_null k s1 else if n =? 0 then fail_null k s1
      else let '(k, err) := GetSocketError k (sk_fd s1) in
           if negb (err =? 0) then fail_null k s1 else Ok (k, Some (set_connected s1 true))
      else Ok (k1, Some s1)) = Ok (k2, o) ∧ returns k2 X cs (λ s', sk_connected s' = true ∧ sk_fd s' = sk_fd s) o)
    as (k2 & o & -> & Ho).
  { destruct Hr as [[-> ->]|[[-> ->]|(-> & -> & Hbl)]]; cbn [Z.eqb kConnectError kConnectSuccess kConnectInProgress Pos.eqb].
    - eexists k1, (Some _). by split.
    - by apply fail_null_returns.
    - rewrite Hbl in Hb. symmetry in Hb. apply Z.leb_gt in Hb.
      rewrite bind_dcheck by (apply Z.leb_le; lia).
      rewrite IsNonBlocking_ok, bind_Ok by by eapply holds_sock_matches.
      rewrite bind_dcheck, bind_dcheck by (by rewrite ?Hbl, ?Hc).
      destruct (poll_ k1 _ _) as [[k2 n] err] eqn:Ep. rewrite <- (fl_poll _ _ _ _ _ _ Ep) in Hh1.
      destruct (n <? 0); [by apply fail_null_returns|]. destruct (n =? 0); [by apply fail_null_returns|].
      destruct (GetSocketError_ok k2 (sk_fd s)) as (k3 & e & -> & Ht). rewrite <- Ht in Hh1.
      destruct (negb (e =? 0)); [by apply fail_null_returns|]. eexists k3, (Some _). by split. }
  rewrite bind_Ok. destruct o as [s2|]; [|by exists k2, None]. destruct Ho as [[Hc2 Hf2] Hh2].
  rewrite bind_dcheck by done.
  destruct (SetBlocking_ok k2 X ∅ s2 cs true Hh2) as (k3 & s3 & r3 & -> & Hh3 & Hr3). rewrite bind_Ok.
  destruct Hr3 as [[-> ->]|[-> ->]]; cbn [Z.ltb Z.compare]; [by eexists k3, (Some _)|by apply fail_null_returns].
Qed.

Lemma Connect_static_ok k X cs self peer tmo : holds (fdt k) X cs → HasNonzeroIpPort peer = true →
  ∃ k' o, Connect_static k self peer tmo = Ok (k', o) ∧
    returns k' X cs (λ s, sk_blocking s = true ∧ sk_connected s = true) o.
Proof.
  intros Hh Hp. unfold Connect_static. rewrite bind_dcheck by done.
  destruct (open_socket_ok k X cs self peer (tmo <=? 0) Hh) as (k1 & [s|] & -> & Hs); rewrite bind_Ok;
    [|by exists k1, None].
  destruct Hs as [[Hb Hc] Hh1]. destruct (connectSync_ok k1 X s cs peer tmo Hh1 Hc Hp Hb) as (k2 & o & E & Ho). exists k2, o.
  split; [done|]. destruct o as [s2|]; [|done]. destruct Ho as [(? & ? & _) ?]. done.
Qed.

Lemma owned_connect k X m W s cs e : owned k X m (sock W s :: cs) → sk_connected s = false →
  HasNonzeroIpPort e = true →
  ∃ k' s' r, Tcp_Connect k s e = Ok (k', s', r) ∧ owned k' X m (sock W s' :: cs) ∧
    (r = kConnectSuccess ∧ s' = set_connected s true ∨ r = kConnectError ∧ s' = s ∨
     r = kConnectInProgress ∧ s' = s ∧ sk_blocking s = false).
Proof.
  intros [Hh Hw]%owned_perm_head Hc He.
  destruct (connect_ok k X W s _ e Hh Hc He) as (k' & s' & r & -> & Hh' & Hr).
  exists k', s', r. split; [done|]. split; [|done]. by apply owned_perm_head.
Qed.

Lemma owned_matches k X m W s cs : owned k X m (sock W s :: cs) → MatchesBlocking k s = true.
Proof. intros [Hh Hw]%owned_perm_head. by eapply holds_sock_matches. Qed.

Lemma connectBlocking_ok k X m s cs peer : owned k X m (sock ∅ s :: cs) → sk_connected s = false →
  sk_blocking s = true → HasNonzeroIpPort peer = true →
  ∃ k' m' r, connectBlocking k m s peer = Ok (k', m', r) ∧ owned k' X m' cs ∧ evolves ∅ m m' ∧
    (sealed m = true → r = kConnectError).
Proof.
  intros Ho Hc Hb Hp. unfold connectBlocking. rewrite IsBlocking_ok, bind_Ok by by eapply owned_matches.
  rewrite bind_dcheck by done.
  destruct (owned_connect k X m ∅ s cs peer Ho Hc Hp) as (k1 & s1 & r & -> & Ho1 & Hr). rewrite bind_Ok.
  destruct Hr as [[-> ->]|[[-> ->]|(_ & _ & ?)]]; cbn [Z.ltb Z.compare kConnectSuccess kConnectError]; [| |congruence].
  - by eapply add_outgoing_ok.
  - destruct (owned_destroy _ _ _ _ _ _ Ho1) as (k2 & -> & Ho2). rewrite bind_Ok. eexists k2, m, _.
    split; [done|]. split; [done|]. split; [apply evolves_refl|done].
Qed.

(** A connector that is added is watched; one that is refused is closed. *)
Lemma Connectors_Add_ok k X m s cs d ev : owned k X m (sock ∅ s :: cs) → sk_connected s = false →
  sk_blocking s = false →
  ∃ k' cn ok, Connectors_Add k (tm_connectors m) (sk_fd s) (mkConnector s d)
      (λ k added, let '(k, ret) := Poller_Register k (tm_poller m) added ev in (k, ret =? 0)) = Ok (k', cn, ok) ∧
    owned k' X (with_connectors m cn) cs ∧ evolves ∅ m (with_connectors m cn) ∧ (sealed m = true → ok = false).
Proof.
  intros Ho Hc Hb. unfold Connectors_Add. cbn [c_socket]. rewrite bind_dcheck by apply Z.eqb_refl.
  rewrite bind_dcheck by by rewrite Hc.
  assert (∀ k1, owned k1 X m (sock ∅ s :: cs) → ∃ k' cn ok,
     (let* k2 := Socket_destroy k1 s in Ok (k2, tm_connectors m, false)) = Ok (k', cn, ok) ∧
     owned k' X (with_connectors m cn) cs ∧ evolves ∅ m (with_connectors m cn) ∧ (sealed m = true → ok = false)) as Hrej.
  { intros k1 Ho1. destruct (owned_destroy _ _ _ _ _ _ Ho1) as (k2 & -> & Ho2). rewrite bind_Ok.
    eexists k2, _, _. split; [done|]. destruct m. split; [done|]. split; [apply evolves_refl|done]. }
  destruct (cn_sealed (tm_connectors m)) eqn:Hse; cbn [negb andb]; [by apply Hrej|].
  case_bool_decide as Hn; [|by apply Hrej].
  destruct (proj1 (owned_perm_head _ _ _ _ _) Ho) as [Hh Hw].
  destruct (Register_ok k X (tm_poller m) s _ ev Hh) as (k1 & r & -> & [[-> Hh1]|[-> Hh1]]); cbn [Z.eqb];
    [|apply Hrej; by apply owned_perm_head].
  eexists k1, _, _. split; [done|]. split; [split|split].
  - revert Hh1. apply holds_Proper. unfold mcells. cbn. rewrite vals_insert by done.
    cbn [fmap list_fmap]. unfold ccell at 1. cbn [c_socket]. solve_Permutation.
  - destruct Hw; split; try done. cbn. apply map_Forall_insert_2; [by split_and!|done].
  - split; cbn; try done; try set_solver. congruence.
  - unfold sealed. by rewrite Hse.
Qed.

Lemma connectNonBlocking_ok k X m s cs peer tmo : owned k X m (sock ∅ s :: cs) → sk_connected s = false →
  sk_blocking s = false → HasNonzeroIpPort peer = true →
  ∃ k' m' r, connectNonBlocking k m s peer tmo = Ok (k', m', r) ∧ owned k' X m' cs ∧ evolves ∅ m m' ∧
    (sealed m = true → r = kConnectError).
Proof.
  intros Ho Hc Hb Hp. unfold connectNonBlocking. rewrite IsNonBlocking_ok, bind_Ok by by eapply owned_matches.
  rewrite bind_dcheck by by rewrite Hb.
  destruct (owned_connect k X m ∅ s cs peer Ho Hc Hp) as (k1 & s1 & r & -> & Ho1 & Hr). rewrite bind_Ok.
  destruct Hr as [[-> ->]|[[-> ->]|(-> & -> & _)]];
    cbn [Z.eqb Pos.eqb kConnectSuccess kConnectError kConnectInProgress].
  - by eapply add_outgoing_ok.
  - destruct (owned_destroy _ _ _ _ _ _ Ho1) as (k2 & -> & Ho2). rewrite bind_Ok. eexists k2, m, _.
    split; [done|]. split; [done|]. split; [apply evolves_refl|done].
  - rewrite bind_dcheck by by rewrite Hc.
    destruct (Connectors_Add_ok k1 X m s cs (expiration_of (MonotonicNow k1) tmo) kOutgoingEvents Ho1 Hc Hb)
      as (k2 & cn & ok & -> & Ho2 & He & Hse). rewrite bind_Ok. eexists k2, _, _. split_and!; try done.
    by intros ->%Hse.
Qed.

Lemma finish_connect_ok k X m s cs peer b tmo : owned k X m (sock ∅ s :: cs) → sk_connected s = false →
  sk_blocking s = b → HasNonzeroIpPort peer = true →
  ∃ k' m' r, finish_connect k m s peer b tmo = Ok (k', m', r) ∧ owned k' X m' cs ∧ evolves ∅ m m' ∧
    (sealed m = true → r = kConnectError).
Proof. destruct b; [apply connectBlocking_ok|apply connectNonBlocking_ok]. Qed.

(** ** Events *)

Lemma owned_unlisten k X m l cs ep : owned k X m (lcell ep l :: cs) →
  owned k X m (sock {[ep]} (l_socket l) :: cs).
Proof.
  intros [Hh Hw]%owned_perm_head. apply owned_perm_head. split; [|done].
  eapply holds_weaken; [exact Hh|]. by intros i (? & ? & _).
Qed.

Lemma removeListener_ok k X m cs fd l : owned k X m cs → tm_listeners m !! fd = Some l →
  ∃ k', removeListener k m fd = Ok (k', with_listeners m (delete fd (tm_listeners m))) ∧
    owned k' X (with_listeners m (delete fd (tm_listeners m))) cs ∧
    evolves {[fd]} m (with_listeners m (delete fd (tm_listeners m))).
Proof.
  intros Ho Hl. destruct (owned_listener _ _ _ _ _ _ Ho Hl) as ((Hfd & _) & _).
  destruct (take_listener k X m cs fd l Ho Hl) as [Ho1%owned_unlisten He].
  destruct (owned_unregister _ _ _ _ _ _ Ho1) as (k1 & r & Eu & Ho2).
  destruct (owned_destroy _ _ _ _ _ _ Ho2) as (k2 & Ed & Ho3).
  unfold removeListener, Listeners_Remove. rewrite <- Hfd in Eu. rewrite Eu, Hl, Ed, !bind_Ok. by exists k2.
Qed.

(** One round of the accept loop: going on means that a connection was taken. *)
Lemma accept_one_ok fuel k X m cs fd g : owned k X m cs → is_Some (tm_listeners m !! fd) →
  (backlog k < fuel)%nat →
  ∃ k' m' go, accept_one fuel k m fd g = Ok (k', m', go) ∧ owned k' X m' cs ∧ evolves {[fd]} m m' ∧
    (go = true → (backlog k' < backlog k)%nat ∧ evolves ∅ m m').
Proof.
  intros Ho [l Hl] Hf. unfold accept_one, Listeners_Get. rewrite Hl. cbn [fmap option_fmap option_map at_or].
  rewrite bind_Ok. destruct (owned_listener _ _ _ _ _ _ Ho Hl) as ((Hfd & Hlb & _) & i & Hi & Hs & _).
  rewrite Hfd in Hi. destruct Ho as [Hh Hw] eqn:Eo; clear Eo.
  destruct (accept_ok fuel X (l_socket l) _ g k i Hh Hi Hs Hf) as (k1 & r & -> & [[Hr Hh1]|(Hr & Hbl & Hh1)]);
    rewrite bind_Ok.
  - rewrite (proj2 (Z.ltb_lt r 0)) by done. assert (owned k1 X m cs) as Ho1 by done.
    destruct (r =? kAcceptWouldBlock); [exists k1, m, false; split_and!; [done..|apply evolves_refl|done]|].
    destruct (r =? kAcceptShutdown); [|exists k1, m, false; split_and!; [done..|apply evolves_refl|done]].
    destruct (removeListener_ok k1 X m cs fd l Ho1 Hl) as (k2 & -> & Ho2 & He). rewrite bind_Ok.
    by eexists k2, _, _.
  - rewrite (proj2 (Z.ltb_ge r 0)) by done. unfold Tcp_Create_accepted.
    destruct (init_ok k1 X _ r (sk_family (l_socket l)) g true Hh1) as (k2 & -> & Hh2 & Hb2).
    rewrite bind_Ok. cbn [at_or]. rewrite bind_Ok.
    rewrite bind_dcheck by by eapply holds_sock_matches. rewrite bind_dcheck by done.
    assert (owned k2 X m (sock ∅ (mkSocketBase r (sk_family (l_socket l)) g true) :: cs)) as Ho2
      by by apply owned_perm_head.
    destruct (add_incoming_ok k2 X m _ cs Ho2 eq_refl) as (k3 & p & -> & Ho3 & He & Hb3). rewrite bind_Ok.
    eexists k3, _, _. split; [done|]. split; [done|]. split; [by eapply evolves_weaken; [done|set_solver]|].
    intros Hse%negb_true_iff. destruct Hb3 as [Hb3|?]; [|congruence]. split; [|done]. lia.
Qed.

Lemma accept_all_ok fuel X cs fd g : ∀ k m, owned k X m cs → is_Some (tm_listeners m !! fd) →
  (backlog k < fuel)%nat →
  ∃ k' m', accept_all fuel k m fd g = Ok (k', m') ∧ owned k' X m' cs ∧ evolves {[fd]} m m'.
Proof.
  induction fuel as [|fuel IH]; intros k m Ho Hl Hf; [lia|]. cbn [accept_all].
  destruct (tm_stop m); [eexists k, m; eauto using evolves_refl|].
  destruct (accept_one_ok (S fuel) k X m cs fd g Ho Hl Hf) as (k1 & m1 & go & -> & Ho1 & He & Hgo). rewrite bind_Ok.
  destruct go; [|by eexists k1, m1]. destruct (Hgo eq_refl) as [Hb He1].
  assert (is_Some (tm_listeners m1 !! fd)) as Hl1.
  { apply elem_of_dom, (ev_ls_keep ∅ m m1 He1), elem_of_difference. split; [by apply elem_of_dom|set_solver]. }
  destruct (IH k1 m1 Ho1 Hl1) as (k2 & m2 & -> & Ho2 & He2); [lia|]. exists k2, m2.
  split; [done|]. split; [done|]. by eapply evolves_trans.
Qed.

Lemma handleAllIncoming_ok fuel k X m cs fd flag g : owned k X m cs → (backlog k < fuel)%nat →
  ∃ k' m', handleAllIncoming fuel k m fd flag g = Ok (k', m', bool_decide (is_Some (tm_listeners m !! fd))) ∧
    owned k' X m' cs ∧ evolves {[fd]} m m' ∧ (tm_listeners m !! fd = None → k' = k ∧ m' = m).
Proof.
  intros Ho Hf. unfold handleAllIncoming, Listeners_Get.
  destruct (tm_listeners m !! fd) as [l|] eqn:Hl; cbn [fmap option_fmap option_map];
    [|eexists k, m; eauto using evolves_refl].
  rewrite bool_decide_eq_true_2 by by eexists.
  destruct (has flag (Z.lor EPOLLERR EPOLLHUP)).
  { destruct (removeListener_ok k X m cs fd l Ho Hl) as (k1 & -> & Ho1 & He). rewrite bind_Ok. by eexists k1, _. }
  destruct (has flag EPOLLIN); [|rewrite bind_Ok; eexists k, m; eauto using evolves_refl].
  destruct (accept_all_ok fuel X cs fd g k m Ho) as (k1 & m1 & -> & Ho1 & He); [by eexists|done|].
  rewrite bind_Ok. by eexists k1, m1.
Qed.

Lemma handleOneOutgoing_ok k X m cs fd flag : owned k X m cs →
  ∃ k' m', handleOneOutgoing k m fd flag = Ok (k', m', bool_decide (is_Some (cn_map (tm_connectors m) !! fd))) ∧
    owned k' X m' cs ∧ evolves {[fd]} m m'.
Proof.
  intros Ho. unfold handleOneOutgoing, Connectors_Remove.
  destruct (cn_map (tm_connectors m) !! fd) as [c|] eqn:Hl;
    [|rewrite bind_Ok; eexists k, m; eauto using evolves_refl].
  rewrite bool_decide_eq_true_2 by by eexists.
  destruct (owned_connector _ _ _ _ _ _ Ho Hl) as ((Hfd & Hb & Hc) & _). rewrite bind_dcheck by by rewrite Hc.
  rewrite bind_Ok. fold (drop_connector m fd).
  destruct (take_connector k X m cs fd c Ho Hl) as [Ho1 He].
  destruct (owned_unregister _ _ _ _ _ _ Ho1) as (k1 & r & Eu & Ho2).
  change (tm_poller (drop_connector m fd)) with (tm_poller m). rewrite <- Hfd in Eu. rewrite Eu.
  destruct (GetSocketError_ok k1 fd) as (k2 & e & Ee & Ht). rewrite Ee.
  apply (owned_fdt _ _ _ _ _ Ht) in Ho2.
  assert (∃ k' m', (let* k3 := Socket_destroy k2 (c_socket c) in Ok (k3, drop_connector m fd, true)) = Ok (k', m', true) ∧
    owned k' X m' cs ∧ evolves {[fd]} m m') as Hdrop.
  { destruct (owned_destroy _ _ _ _ _ _ Ho2) as (k3 & -> & Ho3). rewrite bind_Ok. by eexists k3, _. }
  destruct (negb (e =? 0) || _ || _); [exact Hdrop|]. destruct (has flag EPOLLRDHUP); [exact Hdrop|].
  rewrite IsNonBlocking_ok, bind_Ok by by eapply owned_matches.
  rewrite bind_dcheck by by rewrite Hb. rewrite bind_dcheck by by rewrite Hc. rewrite bind_dcheck by done.
  destruct (add_outgoing_ok k2 X (drop_connector m fd) (set_connected (c_socket c) true) cs Ho2 eq_refl)
    as (k3 & m3 & r3 & -> & Ho3 & He3 & _). rewrite bind_Ok. eexists k3, m3. split; [done|]. split; [done|].
  eapply evolves_trans; [exact He|]. by eapply evolves_weaken; [exact He3|set_solver].
Qed.

Lemma handle_event_ok fuel k X m cs e g : owned k X m cs → (backlog k < fuel)%nat →
  e.1 ∈ dom (tm_listeners m) ∪ dom (cn_map (tm_connectors m)) →
  ∃ k' m', handle_event fuel k m e g = Ok (k', m') ∧ owned k' X m' cs ∧ evolves {[e.1]} m m'.
Proof.
  destruct e as [fd flag]. cbn [fst]. intros Ho Hf Hin. unfold handle_event.
  destruct (handleAllIncoming_ok fuel k X m cs fd flag g Ho Hf) as (k1 & m1 & -> & Ho1 & He1 & Hn1). rewrite bind_Ok.
  case_bool_decide as Hl; [by eexists k1, m1|].
  destruct Hn1 as [-> ->]; [by apply eq_None_not_Some|].
  destruct (handleOneOutgoing_ok k X m cs fd flag Ho) as (k2 & m2 & -> & Ho2 & He2). rewrite bind_Ok.
  rewrite bind_dcheck; [by eexists k2, m2|]. apply bool_decide_eq_true_2.
  apply elem_of_union in Hin as [Hin|Hin]; apply elem_of_dom in Hin; done.
Qed.

(** ** Expiry *)

(** [RemoveExpired] splits the connectors by their deadline. *)
Lemma RemoveExpired_ok (cn : Connectors) now : map_Forall connector_wf (cn_map cn) →
  RemoveExpired cn now = Ok (mkConnectors (cn_sealed cn) (filter (λ p, expired now p.2 = false) (cn_map cn)),
                             filter (λ c, expired now c = true) (vals (cn_map cn))).
Proof.
  intros Hwf. unfold RemoveExpired.
  destruct (foreach_ok (λ '(cs, ex) '(fd, c),
    if expired now c then
      do* dcheck (negb (sk_connected (c_socket c)));
      Ok (mkConnectors (cn_sealed cs) (delete fd (cn_map cs)), ex ++ [c])
    else Ok (cs, ex))
    (λ rest '(cs, ex), ∃ l1, l1 ++ rest = map_to_list (cn_map cn) ∧ cn_sealed cs = cn_sealed cn ∧
       ex = filter (λ c, expired now c = true) l1.*2 ∧
       ∀ fd c, cn_map cs !! fd = Some c ↔ cn_map cn !! fd = Some c ∧ ((fd, c) ∈ l1 → expired now c = false))
    (map_to_list (cn_map cn)) (cn, [])) as ([cs ex] & -> & l1 & El & Hse & -> & Hm).
  - intros [fd c] rest [cs ex] (l1 & El & Hse & -> & Hm).
    assert (cn_map cn !! fd = Some c) as Hfd by (apply elem_of_map_to_list; rewrite <- El; set_solver).
    assert (∀ fd' c', (fd', c') ∈ l1 ++ [(fd, c)] ↔ (fd', c') ∈ l1 ∨ fd' = fd ∧ c' = c) as Hin.
    { intros. rewrite elem_of_app, list_elem_of_singleton. naive_solver. }
    destruct (expired now c) eqn:Ex.
    + rewrite bind_dcheck by (destruct (Hwf fd c Hfd) as (_ & _ & ->); done).
      eexists. split; [done|]. exists (l1 ++ [(fd, c)]). rewrite <- app_assoc. split_and!; try done.
      { rewrite fmap_app, filter_app. cbn. by rewrite decide_True by done. }
      intros fd' c'. cbn. rewrite lookup_delete_Some, Hm, Hin. naive_solver congruence.
    + eexists. split; [done|]. exists (l1 ++ [(fd, c)]). rewrite <- app_assoc. split_and!; try done.
      { rewrite fmap_app, filter_app. cbn. rewrite decide_False by congruence. by rewrite app_nil_r. }
      intros fd' c'. rewrite Hm, Hin. naive_solver.
  - exists []. split_and!; try done. intros. split; [|by intros [? _]]. intros ?. split; [done|]. by intros ?%elem_of_nil.
  - rewrite app_nil_r in El. subst l1. destruct cs as [se cs]. cbn in Hse, Hm. subst se.
    do 3 f_equal. apply map_eq. intros fd. apply option_eq. intros c. rewrite Hm, map_lookup_filter_Some. cbn.
    rewrite elem_of_map_to_list. naive_solver.
Qed.

Lemma vals_filter {A} (P : A → Prop) `{∀ x, Decision (P x)} (Q : Z * A → Prop) `{∀ p, Decision (Q p)} (m : gmap Z A) :
  (∀ i x, Q (i, x) ↔ P x) → vals (filter Q m) ≡ₚ filter P (vals m).
Proof.
  intros HQ. unfold vals. rewrite map_filter_alt, map_to_list_to_map.
  - induction (map_to_list m) as [|[i x] l IH]; [done|]. rewrite fmap_cons, !filter_cons. cbn [snd].
    destruct (decide (Q (i, x))) as [Hq|Hq]; rewrite HQ in Hq;
      [rewrite decide_True by done; by rewrite fmap_cons, IH|by rewrite decide_False].
  - apply (sublist_NoDup _ (map_to_list m).*1); [apply NoDup_fst_map_to_list|]. apply fmap_sublist, sublist_filter.
Qed.

Lemma vals_split (now : Z) (cn : gmap Z Connector) :
  vals cn ≡ₚ filter (λ c, expired now c = true) (vals cn) ++ vals (filter (λ p, expired now p.2 = false) cn).
Proof.
  etrans; [|apply Permutation_app_head; symmetry; by apply (vals_filter (λ c, expired now c = false))].
  induction (vals cn) as [|c l IH]; [done|]. rewrite !filter_cons.
  destruct (expired now c); repeat (first [rewrite decide_True by done|rewrite decide_False by done]);
    rewrite IH at 1; solve_Permutation.
Qed.

Lemma unregister_all_ok X m (gone : list Connector) : ∀ k cs,
  owned k X m ((ccell (tm_poller m) <$> gone) ++ cs) →
  ∃ k', foreach (λ k c, Ok (fst (Poller_Unregister k (tm_poller m) (sk_fd (c_socket c))))) k gone = Ok k' ∧
    owned k' X m ((sock ∅ <$> (c_socket <$> gone)) ++ cs).
Proof.
  induction gone as [|c gone IH]; intros k cs Ho; [by exists k|]. cbn [fmap list_fmap foreach app] in *.
  destruct (owned_unregister _ _ _ _ _ _ Ho) as (k1 & r & -> & Ho1). rewrite bind_Ok. cbn [fst].
  destruct (IH k1 (sock ∅ (c_socket c) :: cs)) as (k2 & -> & Ho2).
  { eapply owned_proper; [|exact Ho1]. solve_Permutation. }
  exists k2. split; [done|]. eapply owned_proper; [|exact Ho2]. solve_Permutation.
Qed.

Lemma owned_destroy_all X m W cs (ss : list SocketBase) : ∀ k, owned k X m ((sock W <$> ss) ++ cs) →
  ∃ k', destroy_all k ss = Ok k' ∧ owned k' X m cs.
Proof.
  unfold destroy_all. induction ss as [|s ss IH]; intros k Ho; [by exists k|]. cbn [fmap list_fmap foreach app] in *.
  destruct (owned_destroy _ _ _ _ _ _ Ho) as (k1 & -> & Ho1). rewrite bind_Ok. by apply IH.
Qed.

Lemma removeExpiredOutgoing_ok k X m cs : owned k X m cs →
  ∃ k' cn, removeExpiredOutgoing k m = Ok (k', with_connectors m cn) ∧
    cn = mkConnectors (cn_sealed (tm_connectors m))
           (filter (λ p, expired (MonotonicNow k) p.2 = false) (cn_map (tm_connectors m))) ∧
    owned k' X (with_connectors m cn) cs ∧
    evolves (dom (cn_map (tm_connectors m))) m (with_connectors m cn).
Proof.
  intros [Hh Hw]. unfold removeExpiredOutgoing. rewrite RemoveExpired_ok, bind_Ok by apply Hw.
  set (now := MonotonicNow k). set (cn := mkConnectors _ _). set (gone := filter _ _).
  assert (owned k X (with_connectors m cn) ((ccell (tm_poller (with_connectors m cn)) <$> gone) ++ cs)) as Ho.
  { split.
    - revert Hh. apply holds_Proper. unfold mcells. cbn. rewrite (vals_split now (cn_map (tm_connectors m))).
      rewrite fmap_app. fold gone. solve_Permutation.
    - destruct Hw; split; try done. cbn.
      intros fd c [Hc _]%map_lookup_filter_Some. by apply w_connectors0. }
  destruct (unregister_all_ok X _ gone k cs Ho) as (k1 & E1 & Ho1). cbn [tm_poller with_connectors] in E1.
  rewrite E1, bind_Ok.
  destruct (owned_destroy_all X _ ∅ cs _ k1 Ho1) as (k2 & -> & Ho2). rewrite bind_Ok.
  exists k2, cn. split_and!; try done. split; cbn; try done; try set_solver.
  intros _. apply dom_filter_subseteq.
Qed.

(** ** Closing *)

Lemma Listeners_Close_ok k X m cs : owned k X m cs →
  ∃ k', Listeners_Close k (tm_listeners m) = Ok (k', ∅) ∧ owned k' X (with_listeners m ∅) cs.
Proof.
  intros [Hh Hw]. unfold Listeners_Close.
  destruct (destroy_all_ok k X l_socket
    (λ l i, sock_ok (l_socket l) i ∧ fi_watch i = {[tm_poller m]} ∧ named i = l_endpoint l)
    (vals (tm_listeners m)) (mcells (with_listeners m ∅) ++ cs)) as (k' & -> & Hh').
  - by intros l i [? _].
  - revert Hh. apply holds_Proper. unfold mcells. cbn. rewrite vals_empty. cbn [fmap list_fmap].
    fold (lcell (tm_poller m)). solve_Permutation.
  - rewrite bind_Ok. exists k'. split; [done|]. split; [done|]. destruct Hw; split; try done.
Qed.

Lemma Connectors_Close_ok k X m cs : owned k X m cs → cn_sealed (tm_connectors m) = true →
  ∃ k', Connectors_Close k (tm_connectors m) = Ok (k', mkConnectors true ∅) ∧
    owned k' X (with_connectors m (mkConnectors true ∅)) cs.
Proof.
  intros [Hh Hw] Hse. unfold Connectors_Close. rewrite bind_dcheck, Hse by done.
  destruct (destroy_all_ok k X c_socket (λ c i, sock_ok (c_socket c) i ∧ fi_watch i = {[tm_poller m]})
    (vals (cn_map (tm_connectors m))) (mcells (with_connectors m (mkConnectors true ∅)) ++ cs)) as (k' & -> & Hh').
  - by intros l i [? _].
  - revert Hh. apply holds_Proper. unfold mcells. cbn. rewrite vals_empty. cbn [fmap list_fmap].
    fold (ccell (tm_poller m)). solve_Permutation.
  - rewrite bind_Ok. exists k'. split; [done|]. split; [done|]. destruct Hw; split; try done.
Qed.

Lemma incoming_Close_ok k X m cs : owned k X m cs → pr_sealed (tm_incoming m) = true →
  ∃ k', Produced_Close k (tm_incoming m) = Ok (k', mkProduced true []) ∧
    owned k' X (with_incoming m (mkProduced true [])) cs.
Proof.
  intros [Hh Hw] Hse. unfold Produced_Close. rewrite bind_dcheck, Hse by done.
  destruct (owned_destroy_all X (with_incoming m (mkProduced true [])) ∅ cs (pr_sockets (tm_incoming m)) k)
    as (k' & -> & Ho'); [|by exists k'].
  split; [|destruct Hw; split; try done; constructor].
  revert Hh. apply holds_Proper. unfold mcells. cbn. solve_Permutation.
Qed.
Lemma outgoing_Close_ok k X m cs : owned k X m cs → pr_sealed (tm_outgoing m) = true →
  ∃ k', Produced_Close k (tm_outgoing m) = Ok (k', mkProduced true []) ∧
    owned k' X (with_outgoing m (mkProduced true [])) cs.
Proof.
  intros [Hh Hw] Hse. unfold Produced_Close. rewrite bind_dcheck, Hse by done.
  destruct (owned_destroy_all X (with_outgoing m (mkProduced true [])) ∅ cs (pr_sockets (tm_outgoing m)) k)
    as (k' & -> & Ho'); [|by exists k'].
  split; [|destruct Hw; split; try done; constructor].
  revert Hh. apply holds_Proper. unfold mcells. cbn. solve_Permutation.
Qed.

Lemma set_connected_id s : sk_connected s = false → set_connected s false = s.
Proof. destruct s. cbn. by intros ->. Qed.

(** Shutting down the listeners leaves the table and the container as they are. *)
Lemma Listeners_Shutdown_ok k X m cs : owned k X m cs →
  ∃ k', Listeners_Shutdown k (tm_listeners m) = Ok (k', tm_listeners m) ∧ fdt k' = fdt k.
Proof.
  intros Ho. unfold Listeners_Shutdown.
  edestruct (foreach_ok (λ '(k, ls) '(fd, l), let* '(k, s) := Socket_Shutdown k (l_socket l) in
      Ok (k, <[fd := mkListener s (l_endpoint l)]> ls))
    (λ rest '(k', ls), fdt k' = fdt k ∧ ls = tm_listeners m ∧ ∀ fd l, (fd, l) ∈ rest → tm_listeners m !! fd = Some l)
    (map_to_list (tm_listeners m)) (k, tm_listeners m)) as ([k' ls] & -> & Ht & -> & _).
  - intros [fd l] rest [k1 ls] (Ht & -> & Hin).
    assert (tm_listeners m !! fd = Some l) as Hl by (apply Hin; by left).
    destruct (owned_listener _ _ _ _ _ _ Ho Hl) as ((Hfd & _ & Hc & _) & i & Hi & Hs & _).
    rewrite <- Ht, Hfd in Hi. destruct (shutdown_ok k1 _ i Hi Hs) as (k2 & -> & Ht2). rewrite bind_Ok.
    eexists (k2, _). split; [done|]. split; [by rewrite Ht2|]. split; [|intros; apply Hin; by right].
    rewrite set_connected_id by done. apply insert_id. rewrite Hl. by destruct l.
  - split_and!; try done. by intros fd l ?%elem_of_map_to_list.
  - by exists k'.
Qed.

(** ** Creation *)

Lemma drop_null_ok {A} k X s cs (a : A) : holds (fdt k) X (sock ∅ s :: cs) →
  ∃ k', drop_null k a s = Ok (k', a, None) ∧ holds (fdt k') X cs.
Proof.
  intros Hh. unfold drop_null. destruct (destroy_ok _ _ _ _ _ Hh) as (k' & -> & Hh'). rewrite bind_Ok.
  by exists k'.
Qed.

Definition listening (k' : K) (X : gmap Z fdinfo) (cs : list cell) (ep : Z) (e : Endpoint) (o : option SocketBase) : Prop :=
  match o with
  | Some s => listener_wf (sk_fd s) (mkListener s e) ∧ holds (fdt k') X (lcell ep (mkListener s e) :: cs)
  | None => holds (fdt k') X cs
  end.

Lemma createListener_ok k X cs ep e : holds (fdt k) X cs → HasZeroIpAddr e = false →
  ∃ k' e' o, createListener k ep e = Ok (k', e', o) ∧ listening k' X cs ep e' o.
Proof.
  intros Hh Hz. unfold createListener. rewrite bind_dcheck by by rewrite Hz.
  destruct (create_ok k X cs _ false (is_inet_family (ep_ipaddr e)) Hh) as (k1 & [s|] & -> & Hs); rewrite bind_Ok;
    [|by eexists k1, _, None].
  destruct Hs as (_ & Hb & Hc & Hh1).
  rewrite IsNonBlocking_ok, bind_Ok by by eapply holds_sock_matches. rewrite bind_dcheck by by rewrite Hb.
  destruct (listen_ok k1 X ∅ s cs e kTcpListenBacklog Hh1) as (k2 & r & -> & Hh2). rewrite bind_Ok.
  assert (∀ k', holds (fdt k') X (sock ∅ s :: cs) →
    ∃ k'' e' o, drop_null k' e s = Ok (k'', e', o) ∧ listening k'' X cs ep e' o) as Hdrop.
  { intros k' (k'' & -> & Hh')%(drop_null_ok _ _ _ _ e). by eexists k'', _, None. }
  destruct (r <? 0); [by apply Hdrop|]. destruct (negb (HasNonzeroIpPort _)) eqn:Hn; [by apply Hdrop|].
  apply negb_false_iff in Hn. destruct (holds_head _ _ _ _ _ Hh2) as (i & Hi & Hs & Hw).
  destruct (fl_view _ _ _ Hi) as (_ & _ & _ & _ & Hnm).
  destruct (Register_cell_ok k2 X ep (sk_fd s) (eq i)
    (lcell ep (mkListener s (SelfEndpoint k2 (sk_fd s)))).2 cs kIncomingEvents)
    as (k3 & r3 & -> & [[-> Hh3]|[-> Hh3]]); cbn [Z.ltb Z.compare].
  - by eapply holds_exact.
  - intros ? <-. split; [done|]. cbn. rewrite Hw, union_empty_r_L. split; [done|].
    unfold named, SelfEndpoint. by rewrite Hnm.
  - eexists k3, _, (Some s). split; [done|]. by split.
  - apply Hdrop. eapply holds_weaken; [exact Hh3|]. intros ? <-. by split.
Qed.

(** The state of the loops of [Create]: every announced endpoint has its listener. *)
Definition creating (X : gmap Z fdinfo) (cs : list cell) (ep : Z) (k : K) (ls : Listeners) (es : list Endpoint) : Prop :=
  holds (fdt k) X ((lcell ep <$> vals ls) ++ cs) ∧ map_Forall listener_wf ls ∧
  ∀ e, e ∈ es → ∃ fd l, ls !! fd = Some l ∧ l_endpoint l = e.

Lemma create_endpoint_ok X cs ep k ls es e : creating X cs ep k ls es → HasZeroIpAddr e = false →
  ∃ k' ls' es', create_endpoint ep (k, ls, es) e = Ok (k', ls', es') ∧ creating X cs ep k' ls' es' ∧ ls ⊆ ls'.
Proof.
  intros (Hh & Hwf & Hes) Hz. unfold create_endpoint.
  destruct (createListener_ok k X _ ep e Hh Hz) as (k1 & e1 & [s|] & -> & Ho); rewrite bind_Ok;
    [|by exists k1, ls, es].
  destruct Ho as [(Hfd & Hb & Hc & Hn) Hh1]. cbn in Hn. rewrite bind_dcheck by done.
  destruct (holds_head _ _ _ _ _ Hh1) as (i & Hi & _ & _ & Hnm). cbn in Hi, Hnm.
  destruct (fl_view _ _ _ Hi) as (_ & _ & _ & _ & Hg).
  rewrite bind_dcheck by (unfold SelfEndpoint; rewrite Hg; unfold named in Hnm; rewrite Hnm; apply Endpoint_eqb_refl).
  assert (ls !! sk_fd s = None) as Hnone.
  { destruct (ls !! sk_fd s) as [l|] eqn:Hl; [|done]. exfalso.
    eapply (holds_ne _ _ _ _ (lcell ep l) Hh1); [|symmetry; exact (proj1 (Hwf _ _ Hl))].
    apply elem_of_app. left. apply list_elem_of_fmap_2, elem_of_vals. eauto. }
  rewrite bind_dcheck by by apply bool_decide_eq_true_2.
  eexists k1, _, _. split; [done|]. split; [split_and!|by apply insert_subseteq].
  - revert Hh1. apply holds_Proper. by rewrite (vals_insert ls _ _ Hnone).
  - by apply map_Forall_insert_2.
  - intros e' [He|[->|Hin%elem_of_nil]%elem_of_cons]%elem_of_app; [|by eexists _, _; rewrite lookup_insert_eq|done].
    destruct (Hes e' He) as (fd & l & Hl & <-). exists fd, l. split; [|done].
    rewrite lookup_insert_ne; [done|]. congruence.
Qed.

Lemma create_endpoints_ok X cs ep l : ∀ k ls es, creating X cs ep k ls es →
  (∀ e, e ∈ l → HasZeroIpAddr e = false) →
  ∃ k' ls' es', foreach (create_endpoint ep) (k, ls, es) l = Ok (k', ls', es') ∧
    creating X cs ep k' ls' es' ∧ ls ⊆ ls'.
Proof.
  induction l as [|e l IH]; intros k ls es Hc Hz; [by eexists k, ls, es|]. cbn [foreach].
  destruct (create_endpoint_ok X cs ep k ls es e Hc) as (k1 & ls1 & es1 & -> & Hc1 & Hs1); [apply Hz; by left|].
  rewrite bind_Ok. destruct (IH k1 ls1 es1 Hc1) as (k2 & ls2 & es2 & -> & Hc2 & Hs2); [intros; apply Hz; by right|].
  eexists k2, ls2, es2. split_and!; try done. by etrans.
Qed.

Lemma create_nics_ok X cs ep (self : HostInfo) l : ∀ k ls added,
  creating X cs ep k ls (added ≫= nic_endpoints) →
  (∀ n ni e, (n, ni) ∈ l → e ∈ nic_endpoints ni → HasZeroIpAddr e = false) →
  ∃ k' ls' added', foreach (create_nic ep)
      (k, ls, mkHostInfo (control_plane_listener self) (data_plane_listeners self ++ added)) l =
      Ok (k', ls', mkHostInfo (control_plane_listener self) (data_plane_listeners self ++ added')) ∧
    creating X cs ep k' ls' (added' ≫= nic_endpoints).
Proof.
  induction l as [|[n ni] l IH]; intros k ls added (Hh & Hwf & Hes) Hz; [by eexists k, ls, added|]. cbn [foreach].
  destruct (create_endpoints_ok X cs ep (nic_endpoints ni) k ls []) as (k1 & ls1 & es1 & E1 & (Hh1 & Hwf1 & Hes1) & Hs1).
  { split_and!; try done. by intros e ?%elem_of_nil. }
  { intros e He. eapply Hz; [by left|done]. }
  set (nic := mkNicInfo (nic_name ni) (nic_type ni) es1).
  set (host := mkHostInfo _ (_ ++ added)).
  assert (create_nic ep (k, ls, host) (n, ni) = Ok (k1, ls1,
    if NicInfo_IsValid nic then mkHostInfo (control_plane_listener host) (data_plane_listeners host ++ [nic]) else host))
    as -> by (cbn [create_nic]; unfold create_nic; rewrite E1, bind_Ok; done).
  rewrite bind_Ok.
  destruct (IH k1 ls1 (if NicInfo_IsValid nic then added ++ [nic] else added)) as (k2 & ls2 & added2 & E2 & Hc2).
  { split_and!; try done. intros e He.
    assert (e ∈ added ≫= nic_endpoints ∨ e ∈ es1) as [He1|He1]; [|destruct (Hes e He1) as (fd & x & Hx & <-)|by apply Hes1].
    - destruct (NicInfo_IsValid nic); [|by left]. rewrite bind_app, bind_singleton in He.
      apply elem_of_app in He as [?|?]; [by left|by right].
    - exists fd, x. split; [|done]. by eapply lookup_weaken. }
  { intros ? ? ? ?. eapply Hz. by right. }
  exists k2, ls2, added2. split; [|done]. rewrite <- E2. do 2 f_equal.
  destruct (NicInfo_IsValid nic); [by rewrite app_assoc|done].
Qed.

(** [util::FindRoutableIpAddrs] leaves out unspecified addresses. *)
Definition routable_ok (routable : list (str * (NicType * list IpAddr))) : Prop :=
  ∀ ifc t addrs ip, (ifc, (t, addrs)) ∈ routable → ip ∈ addrs → IpAddr_IsZero ip = false.

Lemma candidates_nonzero routable lo : routable_ok routable →
  ∀ n ni e, (n, ni) ∈ GetTcpListenerCandidates routable lo → e ∈ nic_endpoints ni → HasZeroIpAddr e = false.
Proof.
  intros Hr. unfold GetTcpListenerCandidates.
  assert (∀ n ni e, (n, ni) ∈ @nil (str * NicInfo) → e ∈ nic_endpoints ni → HasZeroIpAddr e = false) as Hacc
    by (intros n ni e Hin; by apply elem_of_nil in Hin).
  match goal with |- context [foldl ?f _ _] => set (F := f) end.
  revert Hacc. generalize (@nil (str * NicInfo)) as acc.
  induction routable as [|[ifc [t addrs]] l IH]; intros acc Hacc; [done|]. cbn [foldl].
  apply IH; [intros ? ? ? ? Hin; eapply Hr; by right|]. unfold F.
  case_bool_decide; [|done]. case_bool_decide; [done|].
  intros n ni e [Hin|[[= -> ->]|Hin%elem_of_nil]%elem_of_cons]%elem_of_app He; [by eapply Hacc| |done].
  cbn in He. apply list_elem_of_fmap in He as (ip & -> & [_ Hip]%list_elem_of_filter).
  unfold HasZeroIpAddr. cbn. eapply Hr; [by left|done].
Qed.

Lemma owned_new k X cs ep self ls : IsDataPlaneValid self = true → map_Forall listener_wf ls →
  holds (fdt k) X ((lcell ep <$> vals ls) ++ pollcell ep :: cs) →
  ∃ m, TcpManager_new k self ep ls = Ok m ∧ owned k X m cs ∧ tm_self m = self ∧ tm_listeners m = ls ∧
    m = mkTcpManager self false ep ls (mkConnectors false ∅) (mkProduced false []) (mkProduced false []).
Proof.
  intros Hs Hwf Hh.
  set (m := mkTcpManager self false ep ls (mkConnectors false ∅) (mkProduced false []) (mkProduced false [])).
  assert (owned k X m cs) as Ho.
  { split; [|by split; cbn]. revert Hh. apply holds_Proper. unfold mcells. cbn. rewrite vals_empty. cbn [fmap list_fmap].
    solve_Permutation. }
  exists m. split; [|done]. unfold TcpManager_new. fold m.
  change ls with (tm_listeners m). rewrite (Listeners_Invariant_ok k X m cs Ho), bind_Ok, bind_dcheck by done.
  by rewrite (invariant_ok k X m cs Ho), bind_Ok, bind_dcheck by done.
Qed.

(** A failed creation gives back everything it opened. *)
Lemma Create_ok k X routable self : holds (fdt k) X [] → routable_ok routable →
  ∃ k' self' o, TcpManager_Create k routable self = Ok (k', self', o) ∧
    match o with
    | None => self' = self ∧ holds (fdt k') X []
    | Some m => owned k' X m [] ∧ apart (tm_poller m) X ∧ tm_self m = self' ∧ tm_listeners m ≠ ∅ ∧
        m = mkTcpManager self' false (tm_poller m) (tm_listeners m) (mkConnectors false ∅)
              (mkProduced false []) (mkProduced false []) ∧
        ∃ added, self' = mkHostInfo (control_plane_listener self) (data_plane_listeners self ++ added) ∧
          ∀ e, e ∈ added ≫= nic_endpoints → ∃ fd l, tm_listeners m !! fd = Some l ∧ l_endpoint l = e
    end.
Proof.
  intros Hh Hr. unfold TcpManager_Create.
  destruct (Poller_Create_ok k X [] Hh) as (k1 & [ep|] & -> & Ho); rewrite bind_Ok; [|by eexists k1, self, None].
  destruct Ho as [Hep Hh1].
  assert (∀ k2, holds (fdt k2) X [pollcell ep] → ∃ k', Poller_destroy k2 ep = Ok k' ∧ holds (fdt k') X [])
    as Hdrop by (intros k2 ?; by apply Poller_destroy_ok).
  case_bool_decide as Hcand.
  { destruct (Hdrop k1 Hh1) as (k2 & -> & Hh2). rewrite bind_Ok. by eexists k2, self, None. }
  destruct (create_nics_ok X [pollcell ep] ep self (GetTcpListenerCandidates routable
    (IpAddr_IsLoopback (ep_ipaddr (control_plane_listener self)))) k1 ∅ []) as (k2 & ls & added & E & Hh2 & Hwf & Hes).
  { split_and!; [by rewrite vals_empty|done|by intros e ?%elem_of_nil]. }
  { by apply candidates_nonzero. }
  rewrite app_nil_r in E.
  assert (mkHostInfo (control_plane_listener self) (data_plane_listeners self) = self) as Eself by by destruct self.
  rewrite Eself in E. rewrite E, bind_Ok. clear E.
  case_bool_decide as Hls.
  { subst ls. rewrite vals_empty in Hh2. destruct (Hdrop k2 Hh2) as (k3 & -> & Hh3). rewrite bind_Ok.
    by eexists k3, self, None. }
  destruct (negb (IsDataPlaneValid _)) eqn:Hv.
  - unfold Listeners_Close. destruct (destroy_all_ok k2 X l_socket (λ l, (lcell ep l).2) (vals ls) _ ltac:(by intros ? ? [? _]) Hh2)
      as (k3 & -> & Hh3). rewrite !bind_Ok. destruct (Hdrop k3 Hh3) as (k4 & -> & Hh4). rewrite bind_Ok.
    by eexists k4, self, None.
  - apply negb_false_iff in Hv. destruct (owned_new k2 X [] ep _ ls Hv Hwf Hh2) as (m & -> & Hom & Hs & Hl & Em).
    rewrite bind_Ok. eexists k2, _, (Some m). split; [done|]. split; [done|]. rewrite Hl, Hs. split_and!; try done.
    + by subst m.
    + by subst m.
    + by exists added.
Qed.
End Proofs.

Lemma holds_nil (t X : gmap Z fdinfo) : holds t X [] ↔ t = X.
Proof.
  split; [|intros <-; split; [by apply NoDup_nil|by intros c ?%elem_of_nil|cbn; set_solver|cbn; set_solver|done]].
  intros [_ _ Hd _ Hr]. cbn in Hd. rewrite union_empty_l_L in Hd. symmetry. apply map_eq. intros fd.
  destruct (X !! fd) as [i|] eqn:Hi; [symmetry; by eapply lookup_weaken|].
  symmetry. apply not_elem_of_dom. rewrite Hd. by apply not_elem_of_dom.
Qed.

(** * Properties *)

(** C16: [TcpManager::Create] is all or nothing.  It always returns without failing an assertion.
    When it returns [nullptr], whatever step failed, every descriptor it opened is closed
    again, the others are as before, and [self] is unchanged.  When it returns a manager, its
    invariant holds, the new descriptors are exactly the poller and the listeners, and
    [self] has become the manager's host information: valid, with the new interfaces
    appended, and every endpoint it now announces has its listening socket. *)
Theorem TcpManager_Create_all_or_nothing {K} `{FdLaws K} (k : K) routable (self : HostInfo) :
  routable_ok routable →
  ∃ k' self' o, TcpManager_Create k routable self = Ok (k', self', o) ∧
    match o with
    | None => self' = self ∧ fdt k' = fdt k
    | Some m => invariant k' m = Ok true ∧ tm_self m = self' ∧ IsDataPlaneValid self' = true ∧
        tm_listeners m ≠ ∅ ∧ fdt k ⊆ fdt k' ∧
        dom (fdt k') = {[tm_poller m]} ∪ dom (tm_listeners m) ∪ dom (fdt k) ∧
        ({[tm_poller m]} ∪ dom (tm_listeners m)) ## dom (fdt k) ∧
        ∃ added, self' = mkHostInfo (control_plane_listener self) (data_plane_listeners self ++ added) ∧
          ∀ e, e ∈ added ≫= nic_endpoints → ∃ fd l, tm_listeners m !! fd = Some l ∧ l_endpoint l = e
    end.
Proof.
  intros Hr. destruct (Create_ok k (fdt k) routable self) as (k' & self' & o & E & Ho); [by apply holds_nil|done|].
  exists k', self', o. split; [done|]. destruct o as [m|]; [|destruct Ho; split; [done|by apply holds_nil]].
  destruct Ho as (Ho & Hap & Hs & Hne & Em & Hadd).
  assert (list_to_set (mcells m ++ []).*1 = {[tm_poller m]} ∪ dom (tm_listeners m) :> gset Z) as Hc.
  { apply set_eq. intros fd. rewrite app_nil_r, elem_of_list_to_set, mcells_fds by apply Ho. rewrite Em. cbn. set_solver. }
  pose proof (invariant_ok _ _ _ _ Ho) as Hi. destruct Ho as [[_ _ Hd Hx Hrest] Hw]. rewrite Hc in Hd, Hx.
  split_and!; try done. rewrite <- Hs. apply Hw.
Qed.

(** A failed static [Connect] leaks nothing and a successful one hands over exactly one socket.
    For every peer and timeout, whatever the system calls answer, the call returns without
    failing an assertion; [nullptr] leaves the descriptor table as it was (the socket it
    may have opened is closed), and otherwise one new descriptor is open, a connected
    blocking socket that no poller watches. *)
Theorem TcpManager_Connect_no_leak {K} `{FdLaws K} (k : K) (self peer : Endpoint) (timeout_ms : Z) :
  HasNonzeroIpPort peer = true →
  ∃ k' o, Connect_static k self peer timeout_ms = Ok (k', o) ∧
    match o with
    | None => fdt k' = fdt k
    | Some s => sk_blocking s = true ∧ sk_connected s = true ∧ sk_invariant k' s = true ∧
        fdt k !! sk_fd s = None ∧ fdt k ⊆ fdt k' ∧ dom (fdt k') = {[sk_fd s]} ∪ dom (fdt k) ∧
        (fi_watch <$> fdt k' !! sk_fd s) = Some ∅
    end.
Proof.
  intros Hp. destruct (Connect_static_ok k (fdt k) [] self peer timeout_ms) as (k' & o & E & Ho); [by apply holds_nil|done|].
  exists k', o. split; [done|]. destruct o as [s|]; [|by apply holds_nil]. destruct Ho as [[Hb Hc] Hh].
  pose proof (holds_sock_invariant _ _ _ _ _ Hh) as Hi. destruct (holds_head _ _ _ _ _ Hh) as (i & Hl & _ & Hw).
  destruct Hh as [_ _ Hd Hx Hr]. cbn in Hd, Hx. rewrite union_empty_r_L in Hd, Hx.
  split_and!; try done; [apply not_elem_of_dom; set_solver|]. by rewrite Hl; cbn; rewrite Hw.
Qed.

(** The accept loop relies on [TcpSocket::Create]: a null result is dereferenced. *)
Lemma accept_one_null {K} `{Kernel K} `{EventKernel K} fuel (k : K) m fd s g k1 r k2 : Listeners_Get (tm_listeners m) fd = Some s →
  Tcp_Accept fuel k s g = Ok (k1, r) → 0 ≤ r → Tcp_Create_accepted k1 r (sk_family s) g = Ok (k2, None) →
  accept_one fuel k m fd g = Fault BadPointer.
Proof.
  intros Hs Ha Hr Hc. unfold accept_one. rewrite Hs. cbn [at_or]. rewrite bind_Ok, Ha, bind_Ok.
  rewrite (proj2 (Z.ltb_ge r 0)) by done. by rewrite Hc, bind_Ok.
Qed.

(** * Examples *)

Definition sample_routable : list (str * (NicType * list IpAddr)) :=
  [(["e"%char; "0"%char], (kIP, [IPv4 [10; 0; 0; 1]])); (["l"%char; "o"%char], (kIP, [IPv4 [127; 0; 0; 1]]))].
Definition sample_self : HostInfo := mkHostInfo (mkEndpoint (IPv4 [10; 0; 0; 1]) 56789) [].

Lemma sample_routable_ok : routable_ok sample_routable.
Proof.
  intros ifc t addrs ip Hin Hip. unfold sample_routable in Hin.
  apply elem_of_cons in Hin as [[= -> -> ->]|[[= -> -> ->]|Hin%elem_of_nil]%elem_of_cons];
    [| |done]; apply list_elem_of_singleton in Hip; by subst ip.
Qed.

(** Only the interface that is not the loopback is listened on. *)
Lemma TcpManager_Create_all_or_nothing_witness : ∃ k' self' m,
  TcpManager_Create (fsim_start 2) sample_routable sample_self = Ok (k', self', Some m) ∧
  invariant k' m = Ok true ∧ length (vals (tm_listeners m)) = 1%nat.
Proof.
  destruct (TcpManager_Create_all_or_nothing (fsim_start 2) sample_routable sample_self sample_routable_ok)
    as (k' & self' & o & E & Ho).
  assert (match TcpManager_Create (fsim_start 2) sample_routable sample_self with
          | Ok (_, _, Some m) => Nat.eqb (length (vals (tm_listeners m))) 1 | _ => false end = true) as Hn
    by (vm_compute; reflexivity).
  rewrite E in Hn. destruct o as [m|]; [|discriminate Hn]. exists k', self', m.
  split; [exact E|]. split; [apply Ho|by apply Nat.eqb_eq].
Defined.

Lemma TcpManager_Connect_no_leak_witness : ∃ k' s,
  Connect_static (fsim_start 0) Endpoint_default ep_sample 100 = Ok (k', Some s) ∧ sk_connected s = true ∧
  dom (fdt k') = {[sk_fd s]} ∪ dom std_tab.
Proof.
  destruct (TcpManager_Connect_no_leak (fsim_start 0) Endpoint_default ep_sample 100 eq_refl) as (k' & o & E & Ho).
  assert (match Connect_static (fsim_start 0) Endpoint_default ep_sample 100 with
          | Ok (_, Some _) => true | _ => false end = true) as Hn by (vm_compute; reflexivity).
  rewrite E in Hn. destruct o as [s|]; [|discriminate Hn]. exists k', s. split; [exact E|]. split; apply Ho.
Defined.
