(* ===== verification/TcpManagerLife.v ===== *)
(** The running TCP manager: the thread in [Start], the thread in [Stop], any number of threads
    in [Connect] and in the [Get...Sockets] calls, and the rest of the process, interleaved.

    A step is one critical section of the C++ code with the thread-local work around it: one
    statement of [Stop], one access of the event loop (a wait, a test of the stop flag, one
    event, one accepted connection), the opening of a socket by [Connect] up to its connect
    call, and the rest of [Connect].  A step is an outcome, so that a failed assertion or a
    bad pointer anywhere is a step to [Fault]. *)

From stdpp Require Import base tactics numbers gmap fin_maps sets list.
From S2P Require Import Prelude IpAddr Endpoint Socket HostInfo Ownership FdTable FdSim TcpManager.
Local Open Scope Z_scope.

(** Where the thread in [Start] is. *)
Inductive start_pc : Type :=
  | NotStarted
  | Polling                                       (* before the loop's first test *)
  | Waited (nfds : Z) (events : list (Z * Z))     (* after BlockingWait *)
  | Handling (events : list (Z * Z))              (* events still to handle *)
  | Accepting (fd : Z) (events : list (Z * Z))    (* in the accept loop of a listener *)
  | Expiring
  | Closing                                       (* the loop has ended *)
  | ClosingConnectors
  | Returned.

#[export] Instance start_pc_eq_dec : EqDecision start_pc.
Proof. solve_decision. Defined.

(** A [Connect] that has opened its socket. *)
Record Pending := mkPending { pd_socket : SocketBase; pd_peer : Endpoint; pd_timeout : Duration }.

Section Life.
Context {K : Type} `{FdKernel K}.

(** [sy_X] are the descriptors of the rest of the process, [sy_stop] counts the statements of
    [Stop] that are done, [sy_given] are sockets handed to callers. *)
Record sys := mkSys {
  sy_k : K; sy_X : gmap Z fdinfo; sy_m : TcpManager; sy_start : start_pc; sy_stop : nat;
  sy_flight : list Pending; sy_given : list SocketBase;
}.

(** The next action of the thread in [Start].  The fuel of [accept_one] exceeds the
    interruptions to come. *)
Definition start_step (g : bool) (k : K) (m : TcpManager) (pc : start_pc) : res (K * TcpManager * start_pc) :=
  match pc with
  | NotStarted => let* b := invariant k m in do* dcheck b; Ok (k, m, Polling)
  | Polling =>
      if tm_stop m then Ok (k, m, Closing)
      else
        let* '(k, nfds, events) := BlockingWait k (tm_poller m) kEpollMaxNumEvents kEpollWaitTimeoutMs in
        Ok (k, m, Waited nfds events)
  | Waited nfds events =>
      if tm_stop m then Ok (k, m, Closing)
      else Ok (k, m, if 0 <? nfds then Handling events else Expiring)
  | Handling [] => Ok (k, m, Expiring)
  | Handling ((fd, flag) :: rest) =>
      if bool_decide (is_Some (tm_listeners m !! fd)) && negb (has flag (Z.lor EPOLLERR EPOLLHUP)) && has flag EPOLLIN
      then Ok (k, m, Accepting fd rest)
      else let* '(k, m) := handle_event (S (backlog k)) k m (fd, flag) g in Ok (k, m, Handling rest)
  | Accepting fd rest =>
      if tm_stop m then Ok (k, m, Handling rest)
      else
        let* '(k, m, go) := accept_one (S (backlog k)) k m fd g in
        Ok (k, m, if go : bool then Accepting fd rest else Handling rest)
  | Expiring => let* '(k, m) := removeExpiredOutgoing k m in Ok (k, m, Polling)
  | Closing => let* '(k, ls) := Listeners_Close k (tm_listeners m) in Ok (k, with_listeners m ls, ClosingConnectors)
  | ClosingConnectors =>
      let* '(k, cs) := Connectors_Close k (tm_connectors m) in Ok (k, with_connectors m cs, Returned)
  | Returned => Ok (k, m, Returned)
  end.

Definition after_start (σ : sys) (r : res (K * TcpManager * start_pc)) : res sys :=
  let* '(k, m, pc) := r in Ok (mkSys k (sy_X σ) m pc (sy_stop σ) (sy_flight σ) (sy_given σ)).
Definition after_stop (σ : sys) (r : res (K * TcpManager)) : res sys :=
  let* '(k, m) := r in Ok (mkSys k (sy_X σ) m (sy_start σ) (S (sy_stop σ)) (sy_flight σ) (sy_given σ)).

(** The first half of the member [Connect]. *)
Definition open_step (σ : sys) (self peer : Endpoint) (blocking : bool) (timeout : Duration) : res sys :=
  do* dcheck (HasNonzeroIpPort peer);
  do* dcheck (negb blocking || bool_decide (timeout = None));
  if tm_stop (sy_m σ) then Ok σ
  else
    let* '(k, o) := open_socket (sy_k σ) self peer blocking in
    Ok (mkSys k (sy_X σ) (sy_m σ) (sy_start σ) (sy_stop σ)
          (sy_flight σ ++ from_option (λ s, [mkPending s peer timeout]) [] o) (sy_given σ)).
(** The second half. *)
Definition finish_step (σ : sys) (p : Pending) (others : list Pending) : res sys :=
  let* '(k, m, _) := finish_connect (sy_k σ) (sy_m σ) (pd_socket p) (pd_peer p) (sk_blocking (pd_socket p)) (pd_timeout p) in
  Ok (mkSys k (sy_X σ) m (sy_start σ) (sy_stop σ) others (sy_given σ)).
Definition static_step (σ : sys) (self peer : Endpoint) (timeout_ms : Z) : res sys :=
  let* '(k, o) := Connect_static (sy_k σ) self peer timeout_ms in
  Ok (mkSys k (sy_X σ) (sy_m σ) (sy_start σ) (sy_stop σ) (sy_flight σ)
        (sy_given σ ++ from_option (λ s, [s]) [] o)).
Definition take_step (σ : sys) (r : TcpManager * list SocketBase) : sys :=
  mkSys (sy_k σ) (sy_X σ) r.1 (sy_start σ) (sy_stop σ) (sy_flight σ) (sy_given σ ++ r.2).

(** The cells of everything opened through the manager. *)
Definition envcells (σ : sys) : list cell := (sock ∅ <$> (pd_socket <$> sy_flight σ)) ++ (sock ∅ <$> sy_given σ).
Definition sysfds (σ : sys) : gset Z := list_to_set (mcells (sy_m σ) ++ envcells σ).*1.

(** The label tells the steps of the thread in [Start]. *)
Inductive step (g : bool) (σ : sys) : bool → res sys → Prop :=
  | step_start : sy_start σ ≠ Returned →
      step g σ true (after_start σ (start_step g (sy_k σ) (sy_m σ) (sy_start σ)))
  | step_stop f : Stop_statements !! sy_stop σ = Some f → step g σ false (after_stop σ (f (sy_k σ) (sy_m σ)))
  | step_open self peer blocking timeout :
      HasNonzeroIpPort peer = true → (blocking = true → timeout = None) →
      step g σ false (open_step σ self peer blocking timeout)
  | step_finish p others : sy_flight σ ≡ₚ p :: others → step g σ false (finish_step σ p others)
  | step_static self peer timeout_ms : HasNonzeroIpPort peer = true → step g σ false (static_step σ self peer timeout_ms)
  | step_incoming : step g σ false (Ok (take_step σ (GetIncomingSockets (sy_m σ))))
  | step_outgoing : step g σ false (Ok (take_step σ (GetOutgoingSockets (sy_m σ))))
  (* a caller keeps its sockets elsewhere, or closes them *)
  | step_release : step g σ false (Ok (mkSys (sy_k σ) (sy_X σ ∪ filter (λ p, p.1 ∈ sk_fd <$> sy_given σ) (fdt (sy_k σ)))
                                  (sy_m σ) (sy_start σ) (sy_stop σ) (sy_flight σ) []))
  (* time passes, connections arrive, the rest of the process opens and closes its own descriptors *)
  | step_env k' X' : (∀ fd, fd ∈ sysfds σ → fdt k' !! fd = fdt (sy_k σ) !! fd) →
      dom (fdt k') = sysfds σ ∪ dom X' → sysfds σ ## dom X' → X' ⊆ fdt k' → apart (tm_poller (sy_m σ)) X' →
      step g σ false (Ok (mkSys k' X' (sy_m σ) (sy_start σ) (sy_stop σ) (sy_flight σ) (sy_given σ))).

(** A manager that [Create] has just returned. *)
Definition initial (σ : sys) : Prop :=
  ∃ k0 routable self self', holds (fdt k0) (sy_X σ) [] ∧ routable_ok routable ∧
    TcpManager_Create k0 routable self = Ok (sy_k σ, self', Some (sy_m σ)) ∧
    sy_start σ = NotStarted ∧ sy_stop σ = 0%nat ∧ sy_flight σ = [] ∧ sy_given σ = [].

Inductive reachable (g : bool) : sys → Prop :=
  | reach_init σ : initial σ → reachable g σ
  | reach_step b σ σ' : reachable g σ → step g σ b (Ok σ') → reachable g σ'.

(** An execution in which the thread in [Start] makes [n] steps. *)
Inductive exec (g : bool) (σ : sys) : nat → sys → Prop :=
  | exec_nil : exec g σ 0 σ
  | exec_step n b σ1 σ2 : exec g σ n σ1 → step g σ1 b (Ok σ2) → exec g σ (if b : bool then S n else n) σ2.
End Life.
Arguments sys : clear implicits.

(** * The invariant *)

Definition events_ok (m : TcpManager) (evs : list (Z * Z)) : Prop :=
  NoDup evs.*1 ∧ (Z.of_nat (length evs) ≤ kEpollMaxNumEvents) ∧ ∀ fd, fd ∈ evs.*1 → fd ∈ dom (tm_listeners m) ∪ dom (cn_map (tm_connectors m)).

(** What the thread in [Start] relies on: every event it still has to handle belongs to a
    socket of the manager, and the listener it accepts from is still there. *)
Definition pc_ok (m : TcpManager) (pc : start_pc) : Prop :=
  match pc with
  | Waited n evs => 0 < n → events_ok m evs
  | Handling evs => events_ok m evs
  | Accepting fd rest => fd ∈ dom (tm_listeners m) ∧ events_ok m rest ∧ fd ∉ rest.*1
  | Closing => tm_stop m = true
  | ClosingConnectors => tm_stop m = true ∧ tm_listeners m = ∅
  | Returned => tm_stop m = true ∧ tm_listeners m = ∅ ∧ cn_map (tm_connectors m) = ∅
  | _ => True
  end.

(** How far [Stop] is. *)
Record phase (n : nat) (m : TcpManager) : Prop := {
  ph_max : (n ≤ 8)%nat;
  ph_cn : (2 ≤ n)%nat → cn_sealed (tm_connectors m) = true;
  ph_in : (3 ≤ n)%nat → pr_sealed (tm_incoming m) = true;
  ph_out : (4 ≤ n)%nat → pr_sealed (tm_outgoing m) = true;
  ph_stop : tm_stop m = true ↔ (5 ≤ n)%nat;
  ph_in_empty : (7 ≤ n)%nat → pr_sockets (tm_incoming m) = [];
  ph_out_empty : (8 ≤ n)%nat → pr_sockets (tm_outgoing m) = [];
}.

Section Invariant.
Context {K : Type} `{FdLaws K}.
Implicit Types (σ : sys K) (m : TcpManager) (k : K).

Record life σ : Prop := {
  li_owned : owned (sy_k σ) (sy_X σ) (sy_m σ) (envcells σ);
  li_apart : apart (tm_poller (sy_m σ)) (sy_X σ);
  li_pc : pc_ok (sy_m σ) (sy_start σ);
  li_phase : phase (sy_stop σ) (sy_m σ);
  li_flight : Forall (λ p, sk_connected (pd_socket p) = false ∧ HasNonzeroIpPort (pd_peer p) = true) (sy_flight σ);
  li_given : Forall (λ s, sk_connected s = true) (sy_given σ);
}.

Lemma events_evolves S m m' evs : evolves S m m' → events_ok m evs → (∀ fd, fd ∈ evs.*1 → fd ∉ S) → events_ok m' evs.
Proof.
  intros He (Hn & Hlen & Hin) HS. split_and!; [done..|]. intros fd Hfd. specialize (Hin fd Hfd). specialize (HS fd Hfd).
  pose proof (ev_ls_keep _ _ _ He). pose proof (ev_cs_keep _ _ _ He). set_solver.
Qed.

Lemma dom_sub_empty {A} (a b : gmap Z A) : dom a ⊆ dom b → b = ∅ → a = ∅.
Proof. intros Hd ->. apply dom_empty_inv_L. rewrite dom_empty_L in Hd. set_solver. Qed.

Lemma pc_evolves m m' pc n : evolves ∅ m m' → phase n m → pc_ok m pc → pc_ok m' pc.
Proof.
  intros He Hp. pose proof (ev_ls_keep _ _ _ He) as Hk. pose proof (ev_stop _ _ _ He) as Hst.
  assert (tm_stop m = true → cn_map (tm_connectors m) = ∅ → cn_map (tm_connectors m') = ∅) as Hcs.
  { intros Hs. apply dom_sub_empty, (ev_cs_sub _ _ _ He), (ph_cn _ _ Hp).
    apply (ph_stop _ _ Hp) in Hs. lia. }
  assert (tm_listeners m = ∅ → tm_listeners m' = ∅) as Hls by apply dom_sub_empty, (ev_ls_sub _ _ _ He).
  assert (∀ evs, events_ok m evs → events_ok m' evs) as Hev by (intros; eapply events_evolves; set_solver).
  destruct pc; cbn; rewrite ?Hst; naive_solver set_solver.
Qed.

Lemma phase_evolves S m m' n : evolves S m m' → phase n m → phase n m'.
Proof.
  intros [_ Hst Hcs His Hos Hin Hout _ _ _ _] [Hm Hcn Hi Ho Hs Hie Hoe].
  split; rewrite ?Hcs, ?His, ?Hos, ?Hst; try done.
  - intros Hn. rewrite Hin by (apply Hi; lia). by apply Hie.
  - intros Hn. rewrite Hout by (apply Ho; lia). by apply Hoe.
Qed.

(** ** The thread in [Start] *)

(** An event of the poller belongs to a socket of the manager. *)
Lemma watched_member k X m cs fd i : owned k X m cs → (∀ c, c ∈ cs → ∃ s, c = sock ∅ s) →
  apart (tm_poller m) X → fdt k !! fd = Some i → tm_poller m ∈ fi_watch i →
  fd ∈ dom (tm_listeners m) ∪ dom (cn_map (tm_connectors m)).
Proof.
  intros [Hh Hw] Hcs HX Hi Hin.
  assert (fd ∈ (mcells m ++ cs).*1) as Hfd.
  { assert (fd ∈ dom (fdt k)) as Hd by (apply elem_of_dom; eauto). rewrite (h_dom _ _ _ Hh) in Hd.
    apply elem_of_union in Hd as [Hd|[j Hj]%elem_of_dom]; [by apply elem_of_list_to_set in Hd|].
    pose proof (lookup_weaken _ _ _ _ Hj (h_rest _ _ _ Hh)). assert (j = i) as -> by congruence.
    by destruct (HX fd i Hj). }
  apply list_elem_of_fmap in Hfd as (c & -> & Hc).
  destruct (holds_lookup X _ _ c Hh Hc) as (j & Hj & HP). assert (j = i) as -> by congruence.
  assert (∀ s, c ≠ sock ∅ s) as Hns. { intros s ->. destruct HP as [_ HP]. rewrite HP in Hin. set_solver. }
  apply elem_of_app in Hc as [Hc|Hc]; [|destruct (Hcs c Hc) as [s ->]; by destruct (Hns s)].
  unfold mcells in Hc. apply elem_of_cons in Hc as [->|Hc]; [destruct HP as [_ HP]; rewrite HP in Hin; set_solver|].
  rewrite !elem_of_app, !list_elem_of_fmap in Hc. apply elem_of_union.
  destruct Hc as [(l & -> & [f Hl]%elem_of_vals)|[(l & -> & [f Hl]%elem_of_vals)|[(s & -> & _)|(s & -> & _)]]].
  - left. destruct (w_listeners m Hw f l Hl) as (E & _). apply elem_of_dom. cbn. rewrite <- E. eauto.
  - right. destruct (w_connectors m Hw f l Hl) as (E & _). apply elem_of_dom. cbn. rewrite <- E. eauto.
  - by destruct (Hns s).
  - by destruct (Hns s).
Qed.

(** What a step of the thread establishes. *)
Definition steps_to (r : res (K * TcpManager * start_pc)) (X : gmap Z fdinfo) (m : TcpManager) (cs : list cell)
    (n : nat) : Prop :=
  ∃ k' m' pc', r = Ok (k', m', pc') ∧ owned k' X m' cs ∧ pc_ok m' pc' ∧ phase n m' ∧ tm_poller m' = tm_poller m.

Lemma stopped_sealed n m : phase n m → tm_stop m = true → cn_sealed (tm_connectors m) = true.
Proof. intros Hp Hs. apply (ph_cn _ _ Hp). apply (ph_stop _ _ Hp) in Hs. lia. Qed.

Lemma poll_step_ok g k X m cs n : owned k X m cs → (∀ c, c ∈ cs → ∃ s, c = sock ∅ s) → apart (tm_poller m) X →
  phase n m → steps_to (start_step g k m Polling) X m cs n.
Proof.
  intros Ho Hcs Hap Hp. cbn [start_step]. destruct (tm_stop m) eqn:Hs.
  { by eexists k, m, Closing. }
  destruct (BlockingWait_ok k X (tm_poller m) _ kEpollMaxNumEvents kEpollWaitTimeoutMs (proj1 Ho)) as (k' & r & evs & -> & Ht & Hev); [done|].
  rewrite bind_Ok. eexists k', m, _. split; [done|]. split_and!; try done; [by eapply owned_fdt|].
  intros Hr. destruct (Hev Hr) as (-> & Hmx & Hn & Hin). split_and!; [done..|]. intros fd (i & Hi & Hw)%Hin.
  by eapply watched_member.
Qed.

Lemma handling_step_ok g k X m cs n e rest : owned k X m cs → phase n m → events_ok m (e :: rest) →
  steps_to (start_step g k m (Handling (e :: rest))) X m cs n.
Proof.
  intros Ho Hp (Hn & Hlen & Hin). destruct e as [fd flag]. cbn [start_step]. cbn in Hn. apply NoDup_cons in Hn as [Hnin Hn].
  assert (events_ok m rest) as Hrest by (split_and!; [done|cbn in Hlen; lia|intros; apply Hin; by right]).
  destruct (_ && _) eqn:Ec.
  - apply andb_prop in Ec as [[Hl%bool_decide_eq_true _]%andb_prop _]. eexists k, m, _. split; [done|].
    split_and!; try done. split; [by apply elem_of_dom|done].
  - destruct (handle_event_ok (S (backlog k)) k X m cs (fd, flag) g Ho) as (k1 & m1 & -> & Ho1 & He); [lia|apply Hin; by left|].
    rewrite bind_Ok. eexists k1, m1, _. split; [done|]. split_and!; try done.
    + eapply events_evolves; [done..|]. cbn. set_solver.
    + by eapply phase_evolves.
    + apply He.
Qed.

Lemma accepting_step_ok g k X m cs n fd rest : owned k X m cs → phase n m → pc_ok m (Accepting fd rest) →
  steps_to (start_step g k m (Accepting fd rest)) X m cs n.
Proof.
  intros Ho Hp (Hl & Hrest & Hnin). cbn [start_step]. destruct (tm_stop m); [by eexists k, m, _|].
  destruct (accept_one_ok (S (backlog k)) k X m cs fd g Ho) as (k1 & m1 & go & -> & Ho1 & He & Hgo); [by apply elem_of_dom|lia|].
  rewrite bind_Ok. eexists k1, m1, _. split; [done|].
  assert (events_ok m1 rest) as Hr1 by (eapply events_evolves; [done..|set_solver]).
  split_and!; try done; [|by eapply phase_evolves|apply He].
  destruct go; [|done]. destruct (Hgo eq_refl) as [_ He1]. pose proof (ev_ls_keep _ _ _ He1) as Hk.
  split_and!; try done. set_solver.
Qed.

Lemma start_step_ok g k X m cs n pc : owned k X m cs → (∀ c, c ∈ cs → ∃ s, c = sock ∅ s) → apart (tm_poller m) X →
  phase n m → pc_ok m pc → steps_to (start_step g k m pc) X m cs n.
Proof.
  intros Ho Hcs Hap Hp Hpc. destruct pc as [| |r evs|[|e rest]|fd rest| | | |]; cbn in Hpc.
  - cbn [start_step]. rewrite (invariant_ok k X m cs Ho), bind_Ok, bind_dcheck by done. by eexists k, m, _.
  - by apply poll_step_ok.
  - cbn [start_step]. destruct (tm_stop m) eqn:Hs; [by eexists k, m, _|]. eexists k, m, _. split; [done|].
    split_and!; try done. destruct (Z.ltb_spec 0 r); [by apply Hpc|done].
  - by eexists k, m, Expiring.
  - by apply handling_step_ok.
  - by apply accepting_step_ok.
  - cbn [start_step]. destruct (removeExpiredOutgoing_ok k X m cs Ho) as (k1 & cn & -> & _ & Ho1 & He). rewrite bind_Ok.
    eexists k1, _, Polling. split; [done|]. split_and!; try done. by eapply phase_evolves.
  - cbn [start_step]. destruct (Listeners_Close_ok k X m cs Ho) as (k1 & -> & Ho1). rewrite bind_Ok.
    eexists k1, _, ClosingConnectors. split; [done|]. split_and!; try done. by destruct Hp; split.
  - cbn [start_step]. destruct Hpc as [Hs Hl].
    destruct (Connectors_Close_ok k X m cs Ho (stopped_sealed _ _ Hp Hs)) as (k1 & -> & Ho1). rewrite bind_Ok.
    eexists k1, _, Returned. split; [done|]. split_and!; try done. by destruct Hp; split.
  - by eexists k, m, Returned.
Qed.

(** ** The thread in [Stop] *)

Lemma pc_same m m' pc : tm_listeners m' = tm_listeners m → cn_map (tm_connectors m') = cn_map (tm_connectors m) →
  (tm_stop m = true → tm_stop m' = true) → pc_ok m pc → pc_ok m' pc.
Proof. intros E1 E2 Hs. destruct pc; cbn; unfold events_ok; rewrite ?E1, ?E2; naive_solver. Qed.

Ltac phase_next := split; cbn; try done; first [lia | naive_solver lia].

Lemma stop_step_ok k X m cs n f pc : owned k X m cs → phase n m → pc_ok m pc → Stop_statements !! n = Some f →
  ∃ k' m', f k m = Ok (k', m') ∧ owned k' X m' cs ∧ pc_ok m' pc ∧ phase (S n) m' ∧ tm_poller m' = tm_poller m.
Proof.
  intros Ho Hp Hpc Hf.
  assert (∀ m', mcells m' = mcells m → mwf m' → owned k X m' cs) as Hsame
    by (intros m' E Hw; split; [rewrite E; apply Ho|done]).
  destruct Ho as [Hh Hw] eqn:Eo; clear Eo. destruct Hp as [Hm Hcn Hi Hout Hs Hie Hoe] eqn:Ep; clear Ep.
  destruct n as [|[|[|[|[|[|[|[|n]]]]]]]]; [injection Hf as <-..|done].
  - rewrite (invariant_ok k X m cs), bind_Ok, bind_dcheck by done. eexists k, m. split; [done|].
    split_and!; try done. phase_next.
  - eexists k, _. split; [done|]. split_and!; [|by apply (pc_same m)| |done].
    + apply Hsame; [done|by destruct Hw; split].
    + phase_next.
  - eexists k, _. split; [done|]. split_and!; [|by apply (pc_same m)| |done].
    + apply Hsame; [done|by destruct Hw; split].
    + phase_next.
  - eexists k, _. split; [done|]. split_and!; [|by apply (pc_same m)| |done].
    + apply Hsame; [done|by destruct Hw; split].
    + phase_next.
  - eexists k, _. split; [done|]. split_and!; [|by apply (pc_same m)| |done].
    + apply Hsame; [done|by destruct Hw; split].
    + phase_next.
  - destruct (Listeners_Shutdown_ok k X m cs) as (k1 & -> & Ht); [done|]. rewrite bind_Ok.
    eexists k1, _. split; [done|]. split_and!; [|by apply (pc_same m)| |done].
    + apply (owned_fdt k k1 _ _ _ Ht), Hsame; [done|by destruct Hw; split].
    + phase_next.
  - destruct (incoming_Close_ok k X m cs) as (k1 & -> & Ho1); [done|apply Hi; lia|]. rewrite bind_Ok.
    eexists k1, _. split; [done|]. split_and!; [done|by apply (pc_same m)| |done]. phase_next.
  - destruct (outgoing_Close_ok k X m cs) as (k1 & -> & Ho1); [done|apply Hout; lia|]. rewrite bind_Ok.
    eexists k1, _. split; [done|]. split_and!; [done|by apply (pc_same m)| |done]. phase_next.
Qed.

(** ** Every thread *)

Lemma envcells_sock σ c : c ∈ envcells σ → ∃ s, c = sock ∅ s.
Proof. unfold envcells. rewrite elem_of_app, !list_elem_of_fmap. intros [(s & -> & _)|(s & -> & _)]; eauto. Qed.

(** Cells can be handed to the rest of the process. *)
Lemma holds_release (t X : gmap Z fdinfo) (cs gone : list cell) (l : list Z) :
  holds t X (gone ++ cs) → gone.*1 = l → holds t (X ∪ filter (λ p, p.1 ∈ l) t) cs.
Proof.
  intros [Hn Hc Hd Hx Hr] <-. rewrite fmap_app, list_to_set_app_L in Hd, Hx. rewrite fmap_app in Hn.
  apply NoDup_app in Hn as (_ & Hdj & Hn).
  assert (dom (filter (λ p, p.1 ∈ gone.*1) t) = list_to_set gone.*1) as Hf.
  { apply set_eq. intros fd. rewrite elem_of_dom, elem_of_list_to_set. split.
    - intros [i [_ ?]%map_lookup_filter_Some]. done.
    - intros Hin. apply list_elem_of_fmap in Hin as Hin'. destruct Hin' as (c & -> & Hcin).
      destruct (Hc c) as (i & Hi & _); [apply elem_of_app; by left|]. exists i. by apply map_lookup_filter_Some. }
  split; [done| | | |].
  - intros c Hin. apply Hc, elem_of_app. by right.
  - rewrite dom_union_L, Hf, Hd. set_solver.
  - rewrite dom_union_L, Hf. set_solver.
  - apply map_union_least; [done|apply map_filter_subseteq].
Qed.

Lemma apart_release (t X : gmap Z fdinfo) ep (ss : list SocketBase) cs :
  apart ep X → holds t X ((sock ∅ <$> ss) ++ cs) → apart ep (X ∪ filter (λ p, p.1 ∈ sk_fd <$> ss) t).
Proof.
  intros Hap Hh fd i [Hx|[_ Hf]]%lookup_union_Some_raw; [by eapply Hap|].
  apply map_lookup_filter_Some in Hf as [Hi Hin]. cbn in Hin.
  apply list_elem_of_fmap in Hin as (s & -> & Hs).
  destruct (holds_lookup X _ _ (sock ∅ s) Hh) as (j & Hj & _ & Hw).
  { apply elem_of_app. left. by apply list_elem_of_fmap_2. }
  cbn in Hj. assert (j = i) as -> by congruence. rewrite Hw. set_solver.
Qed.

Lemma life_open σ self peer b tmo : life σ → HasNonzeroIpPort peer = true → (b = true → tmo = None) →
  ∃ σ', open_step σ self peer b tmo = Ok σ' ∧ life σ'.
Proof.
  intros [[Hh Hw] Hap Hpc Hp Hfl Hgi] He Hb. unfold open_step. rewrite bind_dcheck by done.
  rewrite bind_dcheck by (destruct b; [by rewrite bool_decide_eq_true_2 by auto|done]).
  destruct (tm_stop (sy_m σ)); [by exists σ|].
  destruct (open_socket_ok (sy_k σ) (sy_X σ) _ self peer b Hh) as (k' & o & -> & Ho). rewrite bind_Ok.
  eexists. split; [done|]. split; cbn; try done.
  - split; [|done]. destruct o as [s|]; cbn.
    + destruct Ho as [_ Ho]. revert Ho. apply holds_Proper. unfold envcells. cbn. rewrite !fmap_app. cbn. solve_Permutation.
    + unfold envcells. cbn. rewrite app_nil_r. exact Ho.
  - apply Forall_app. split; [done|]. destruct o as [s|]; [|constructor]. destruct Ho as [[_ Hc] _]. by repeat constructor.
Qed.

Lemma life_finish σ p others : life σ → sy_flight σ ≡ₚ p :: others → ∃ σ', finish_step σ p others = Ok σ' ∧ life σ'.
Proof.
  intros [[Hh Hw] Hap Hpc Hp Hfl Hgi] E. unfold finish_step. rewrite E in Hfl.
  apply Forall_cons in Hfl as [[Hc He] Hfl].
  set (cs := (sock ∅ <$> (pd_socket <$> others)) ++ (sock ∅ <$> sy_given σ)).
  destruct (finish_connect_ok (sy_k σ) (sy_X σ) (sy_m σ) (pd_socket p) cs (pd_peer p) (sk_blocking (pd_socket p))
    (pd_timeout p)) as (k' & m' & r & -> & Ho & Hev & _); try done.
  { split; [|done]. revert Hh. apply holds_Proper. unfold envcells. rewrite E. cbn. solve_Permutation. }
  rewrite bind_Ok. eexists. split; [done|]. split; cbn; try done.
  - by rewrite (ev_poller _ _ _ Hev).
  - by eapply pc_evolves.
  - by eapply phase_evolves.
Qed.

Lemma life_static σ self peer tmo : life σ → HasNonzeroIpPort peer = true →
  ∃ σ', static_step σ self peer tmo = Ok σ' ∧ life σ'.
Proof.
  intros [[Hh Hw] Hap Hpc Hp Hfl Hgi] He. unfold static_step.
  destruct (Connect_static_ok (sy_k σ) (sy_X σ) _ self peer tmo Hh He) as (k' & o & -> & Ho). rewrite bind_Ok.
  eexists. split; [done|]. split; cbn; try done.
  - split; [|done]. destruct o as [s|]; cbn.
    + destruct Ho as [_ Ho]. revert Ho. apply holds_Proper. unfold envcells. cbn. rewrite !fmap_app. cbn. solve_Permutation.
    + unfold envcells. cbn. rewrite app_nil_r. exact Ho.
  - apply Forall_app. split; [done|]. destruct o as [s|]; [|constructor]. destruct Ho as [[_ Hc] _]. by repeat constructor.
Qed.

Lemma life_take_incoming σ : life σ → life (take_step σ (GetIncomingSockets (sy_m σ))).
Proof.
  intros [[Hh Hw] Hap Hpc Hp Hfl Hgi]. split; cbn; try done.
  - split; [|by destruct Hw; split; cbn]. revert Hh. apply holds_Proper. unfold envcells, mcells. cbn.
    rewrite fmap_app. solve_Permutation.
  - destruct Hp; split; cbn; try done.
  - apply Forall_app. split; [done|apply Hw].
Qed.
Lemma life_take_outgoing σ : life σ → life (take_step σ (GetOutgoingSockets (sy_m σ))).
Proof.
  intros [[Hh Hw] Hap Hpc Hp Hfl Hgi]. split; cbn; try done.
  - split; [|by destruct Hw; split; cbn]. revert Hh. apply holds_Proper. unfold envcells, mcells. cbn.
    rewrite fmap_app. solve_Permutation.
  - destruct Hp; split; cbn; try done.
  - apply Forall_app. split; [done|apply Hw].
Qed.

Lemma life_release σ : life σ → life (mkSys (sy_k σ)
  (sy_X σ ∪ filter (λ p, p.1 ∈ sk_fd <$> sy_given σ) (fdt (sy_k σ))) (sy_m σ) (sy_start σ) (sy_stop σ) (sy_flight σ) []).
Proof.
  intros [[Hh Hw] Hap Hpc Hp Hfl Hgi].
  assert (holds (fdt (sy_k σ)) (sy_X σ) ((sock ∅ <$> sy_given σ) ++ mcells (sy_m σ) ++ (sock ∅ <$> (pd_socket <$> sy_flight σ))))
    as Hh' by (revert Hh; apply holds_Proper; unfold envcells; solve_Permutation).
  split; cbn; try done.
  - split; [|done]. unfold envcells. cbn. rewrite app_nil_r. eapply holds_release; [exact Hh'|].
    rewrite <- list_fmap_compose. by apply list_fmap_ext.
  - by eapply apart_release.
Qed.

Lemma life_env σ (k' : K) X' : life σ → (∀ fd, fd ∈ sysfds σ → fdt k' !! fd = fdt (sy_k σ) !! fd) →
  dom (fdt k') = sysfds σ ∪ dom X' → sysfds σ ## dom X' → X' ⊆ fdt k' → apart (tm_poller (sy_m σ)) X' →
  life (mkSys k' X' (sy_m σ) (sy_start σ) (sy_stop σ) (sy_flight σ) (sy_given σ)).
Proof.
  intros [[[Hn Hc _ _ _] Hw] _ Hpc Hp Hfl Hgi] Hsame Hd Hx Hr Hap'. split; cbn; try done. split; [|done].
  split; try done. intros c Hin. destruct (Hc c Hin) as (i & Hi & HP). exists i. split; [|done].
  rewrite Hsame; [done|]. unfold sysfds. apply elem_of_list_to_set. by apply list_elem_of_fmap_2.
Qed.

Lemma life_step g σ b r : life σ → step g σ b r → ∃ σ', r = Ok σ' ∧ life σ'.
Proof.
  intros Hl Hs. destruct Hs as [Hne|f Hf|self peer bl tmo He Hb|p others E|self peer tmo He| | | |k' X' ? ? ? ? ?].
  - destruct Hl as [Ho Hap Hpc Hp Hfl Hgi].
    destruct (start_step_ok g (sy_k σ) (sy_X σ) (sy_m σ) _ _ (sy_start σ) Ho (envcells_sock σ) Hap Hp Hpc)
      as (k' & m' & pc' & -> & Ho' & Hpc' & Hp' & Hpo). eexists. split; [done|]. split; cbn; try done. by rewrite Hpo.
  - destruct Hl as [Ho Hap Hpc Hp Hfl Hgi].
    destruct (stop_step_ok (sy_k σ) (sy_X σ) (sy_m σ) _ _ f (sy_start σ) Ho Hp Hpc Hf)
      as (k' & m' & -> & Ho' & Hpc' & Hp' & Hpo). eexists. split; [done|]. split; cbn; try done. by rewrite Hpo.
  - by apply life_open.
  - by apply life_finish.
  - by apply life_static.
  - eexists. split; [done|]. by apply life_take_incoming.
  - eexists. split; [done|]. by apply life_take_outgoing.
  - eexists. split; [done|]. by apply life_release.
  - eexists. split; [done|]. by apply life_env.
Qed.

Lemma life_initial σ : initial σ → life σ.
Proof.
  intros (k0 & routable & self & self' & Hh & Hr & E & Hpc & Hst & Hfl & Hgi).
  destruct (Create_ok k0 (sy_X σ) routable self Hh Hr) as (k' & s' & o & E' & Ho).
  rewrite E in E'. injection E' as <- <- <-. destruct Ho as (Ho & Hap & Hs & _ & Em & _).
  split; rewrite ?Hpc, ?Hst, ?Hfl, ?Hgi; try done.
  - unfold envcells. by rewrite Hfl, Hgi.
  - rewrite Em. split; cbn; try done; try lia.
Qed.

Lemma life_reachable g σ : reachable g σ → life σ.
Proof.
  induction 1 as [σ Hi|b σ σ' _ IH Hs]; [by apply life_initial|].
  destruct (life_step g σ b _ IH Hs) as (σ1 & [= <-] & Hl). done.
Qed.

(** ** Progress of [Start] once the manager is stopped *)

(** The actions the thread has left. *)
Definition remaining (pc : start_pc) : nat :=
  match pc with
  | Returned => 0
  | ClosingConnectors => 1
  | Closing => 2
  | Polling | Waited _ _ => 3
  | NotStarted | Expiring => 4
  | Handling evs => 5 + 2 * length evs
  | Accepting _ rest => 6 + 2 * length rest
  end.

Lemma start_step_decreases g k m pc k' m' pc' : tm_stop m = true → pc ≠ Returned →
  start_step g k m pc = Ok (k', m', pc') → (remaining pc' < remaining pc)%nat.
Proof.
  intros Hs Hne E. destruct pc as [| |r evs|[|[fd fl] rest]|fd rest| | | |]; cbn [start_step] in E;
    rewrite ?Hs in E; try done; try (injection E as <- <- <-; cbn; lia);
    try (apply bind_Ok_inv in E as ([k1 m1] & _ & [= <- <- <-]); cbn; lia).
  - apply bind_Ok_inv in E as (b & _ & E). apply bind_Ok_inv in E as (? & _ & [= <- <- <-]). cbn. lia.
  - destruct (_ && _); [injection E as <- <- <-; cbn; lia|].
    apply bind_Ok_inv in E as ([k1 m1] & _ & [= <- <- <-]). cbn. lia.
Qed.

Lemma step_start_decreases g σ σ' : tm_stop (sy_m σ) = true → step g σ true (Ok σ') →
  (remaining (sy_start σ') < remaining (sy_start σ))%nat.
Proof.
  intros Hs Hst. inversion Hst as [Hne Hb E| | | | | | | |]. unfold after_start in E.
  apply bind_Ok_inv in E as ([[k' m'] pc'] & E1 & [= <-]). cbn. by eapply start_step_decreases.
Qed.

Lemma step_stop_grows g σ b σ' : step g σ b (Ok σ') → (sy_stop σ ≤ sy_stop σ')%nat ∧
  (b = false → sy_start σ' = sy_start σ).
Proof.
  intros Hst. inversion Hst as [Hne Hb E|f Hf Hb E|? ? ? ? ? ? Hb E|? ? ? Hb E|? ? ? ? Hb E| | | |]; subst; cbn; try done.
  - unfold after_start in E. apply bind_Ok_inv in E as ([[? ?] ?] & _ & [= <-]). done.
  - unfold after_stop in E. apply bind_Ok_inv in E as ([? ?] & _ & [= <-]). cbn. split; [lia|done].
  - unfold open_step in E. apply bind_Ok_inv in E as (? & _ & E). apply bind_Ok_inv in E as (? & _ & E).
    destruct (tm_stop (sy_m σ)); [by injection E as <-|].
    apply bind_Ok_inv in E as ([? ?] & _ & [= <-]). done.
  - unfold finish_step in E. apply bind_Ok_inv in E as ([[? ?] ?] & _ & [= <-]). done.
  - unfold static_step in E. apply bind_Ok_inv in E as ([? ?] & _ & [= <-]). done.
Qed.

Lemma exec_reachable g σ n σ' : reachable g σ → exec g σ n σ' → reachable g σ'.
Proof. intros Hr. induction 1; [done|]. by eapply reach_step. Qed.

Lemma exec_bound g σ n σ' : reachable g σ → tm_stop (sy_m σ) = true → exec g σ n σ' →
  tm_stop (sy_m σ') = true ∧ (n + remaining (sy_start σ') ≤ remaining (sy_start σ))%nat.
Proof.
  intros Hr Hs. induction 1 as [|n b σ1 σ2 He IH Hst]; [done|].
  destruct IH as [Hs1 IH]. pose proof (life_reachable _ _ (exec_reachable _ _ _ _ Hr He)) as Hl1.
  destruct (life_step _ _ _ _ Hl1 Hst) as (σ3 & [= <-] & Hl2). destruct (step_stop_grows _ _ _ _ Hst) as [Hg Hb].
  split.
  - apply (ph_stop _ _ (li_phase _ Hl2)). apply (ph_stop _ _ (li_phase _ Hl1)) in Hs1. lia.
  - destruct b; [|rewrite Hb by done; done]. pose proof (step_start_decreases _ _ _ Hs1 Hst). lia.
Qed.

Lemma remaining_bound m pc : pc_ok m pc → (remaining pc ≤ 262)%nat.
Proof.
  destruct pc; cbn; try lia.
  - intros (_ & Hlen & _). unfold kEpollMaxNumEvents in Hlen. lia.
  - intros (Hl & (Hn & Hlen & Hin) & Hnin). unfold kEpollMaxNumEvents in Hlen. lia.
Qed.
End Invariant.

(** * Properties *)


(** C14: [Stop] stops for good.  Once [Stop] has returned, in every later state nothing is waiting in
    the incoming or outgoing sockets and every [Connect] still under way fails, closing its
    socket; once [Start] has returned too, the manager holds no listener and no connector,
    and the only descriptors still open through it are the poller and the sockets of
    callers. *)
Theorem TcpManager_stop_drains {K} `{FdLaws K} (g : bool) (σ : sys K) : reachable g σ → sy_stop σ = 8%nat →
  tm_stop (sy_m σ) = true ∧ pr_sockets (tm_incoming (sy_m σ)) = [] ∧ pr_sockets (tm_outgoing (sy_m σ)) = [] ∧
  (∀ p, p ∈ sy_flight σ → ∃ k' m',
     finish_connect (sy_k σ) (sy_m σ) (pd_socket p) (pd_peer p) (sk_blocking (pd_socket p)) (pd_timeout p)
       = Ok (k', m', kConnectError) ∧ fdt k' !! sk_fd (pd_socket p) = None) ∧
  (sy_start σ = Returned → tm_listeners (sy_m σ) = ∅ ∧ cn_map (tm_connectors (sy_m σ)) = ∅ ∧
     dom (fdt (sy_k σ)) = {[tm_poller (sy_m σ)]} ∪ list_to_set (envcells σ).*1 ∪ dom (sy_X σ)).
Proof.
  intros [Ho _ Hpc Hp Hfl _]%life_reachable E. rewrite E in Hp. pose proof Hp as [_ Hcn Hi Hout Hs Hie Hoe].
  split_and!; [apply Hs; lia|apply Hie; lia|apply Hoe; lia| |].
  - intros p Hin. apply elem_of_Permutation in Hin as [others Ep]. destruct Ho as [Hh Hw].
    rewrite Ep in Hfl. apply Forall_cons in Hfl as [[Hc He] _].
    set (cs := (sock ∅ <$> (pd_socket <$> others)) ++ (sock ∅ <$> sy_given σ)).
    destruct (finish_connect_ok (sy_k σ) (sy_X σ) (sy_m σ) (pd_socket p) cs (pd_peer p) (sk_blocking (pd_socket p))
      (pd_timeout p)) as (k' & m' & r & Ef & Ho' & Hev & Hr); try done.
    { split; [|done]. revert Hh. apply holds_Proper. unfold envcells. rewrite Ep. cbn. solve_Permutation. }
    assert (holds (fdt (sy_k σ)) (sy_X σ) (sock ∅ (pd_socket p) :: mcells (sy_m σ) ++ cs)) as Hh1
      by (revert Hh; apply holds_Proper; unfold envcells; rewrite Ep; cbn; solve_Permutation).
    rewrite Hr in Ef by (unfold sealed; rewrite Hcn, Hout by lia; done).
    exists k', m'. split; [done|]. destruct Ho' as [[_ _ Hd _ _] Hw'].
    pose proof (evolves_fds _ _ _ Hev Hw Hw' (Hcn ltac:(lia)) (Hi ltac:(lia)) (Hout ltac:(lia))) as Hsub.
    destruct Hh1 as [Hn1 _ _ Hx1 _]. rewrite fmap_cons, fmap_app in Hn1, Hx1.
    apply NoDup_cons in Hn1 as [Hn1 _]. rewrite elem_of_app in Hn1. rewrite fmap_app in Hd. apply not_elem_of_dom.
    rewrite Hd, elem_of_union, elem_of_list_to_set, elem_of_app. clear -Hn1 Hx1 Hsub.
    intros [[Hin|Hin]|Hin]; [apply Hn1; left; by apply Hsub|apply Hn1; by right|]. eapply Hx1; [|exact Hin]. apply elem_of_list_to_set. by left.
  - intros Er. rewrite Er in Hpc. destruct Hpc as (_ & Hl & Hc). split_and!; try done.
    destruct Ho as [[_ _ Hd _ _] _]. rewrite Hd. unfold mcells. rewrite Hl, Hc, !vals_empty, Hie, Hoe by lia. cbn. set_solver.
Qed.

(** C15: [Start] returns promptly after [Stop] has set the flag.  From then on, however the other
    threads interleave, the thread in [Start] makes at most 262 more steps (two for each of
    the at most 128 events of its batch and six to leave the loop and close the sockets), and
    as long as it has not returned its next step is possible and succeeds. *)
Theorem TcpManager_Start_returns {K} `{FdLaws K} (g : bool) (σ σ' : sys K) (n : nat) :
  reachable g σ → tm_stop (sy_m σ) = true → exec g σ n σ' →
  (n ≤ 262)%nat ∧ (sy_start σ' ≠ Returned → ∃ σ'', step g σ' true (Ok σ'') ∧
     (remaining (sy_start σ'') < remaining (sy_start σ') ≤ 262)%nat).
Proof.
  intros Hr Hs He. pose proof (life_reachable _ _ Hr) as Hl.
  pose proof (life_reachable _ _ (exec_reachable _ _ _ _ Hr He)) as Hl'.
  destruct (exec_bound g σ n σ' Hr Hs He) as [Hs' Hb]. pose proof (remaining_bound _ _ (li_pc _ Hl)) as Hb0.
  split; [lia|]. intros Hne. pose proof (step_start g σ' Hne) as Hst.
  destruct (life_step g σ' true _ Hl' Hst) as (σ'' & E & _). rewrite E in Hst. exists σ''. split; [done|].
  pose proof (step_start_decreases g σ' σ'' Hs' Hst). lia.
Qed.

(** * Examples *)

(** A schedule of the two threads: [true] is a step of [Start]. *)
Definition act {K} `{FdKernel K} (g b : bool) (σ : sys K) : res (sys K) :=
  if b then
    match sy_start σ with Returned => Fault Blocked | pc => after_start σ (start_step g (sy_k σ) (sy_m σ) pc) end
  else match Stop_statements !! sy_stop σ with
       | Some f => after_stop σ (f (sy_k σ) (sy_m σ))
       | None => Fault Blocked
       end.
Fixpoint run {K} `{FdKernel K} (g : bool) (l : list bool) (σ : sys K) : res (sys K) :=
  match l with [] => Ok σ | b :: l => let* σ := act g b σ in run g l σ end.

Lemma act_step {K} `{FdKernel K} g b (σ σ' : sys K) : act g b σ = Ok σ' → step g σ b (Ok σ').
Proof.
  unfold act. destruct b.
  - intros E. assert (sy_start σ ≠ Returned) as Hne by (intros Hr; by rewrite Hr in E).
    assert (after_start σ (start_step g (sy_k σ) (sy_m σ) (sy_start σ)) = Ok σ') as <- by (by destruct (sy_start σ)).
    by constructor.
  - destruct (Stop_statements !! sy_stop σ) as [f|] eqn:Hf; [|done]. intros <-. by constructor.
Qed.
Lemma run_reachable {K} `{FdKernel K} g l : ∀ σ σ' : sys K, reachable g σ → run g l σ = Ok σ' → reachable g σ'.
Proof.
  induction l as [|b l IH]; intros σ σ' Hr; cbn [run]; [by intros [= <-]|].
  intros (σ1 & E1 & E2)%bind_Ok_inv. eapply IH; [|exact E2]. eapply reach_step; [exact Hr|]. by apply act_step.
Qed.

(** The manager of the sample host, with two connections waiting on its listener. *)
Definition sample_sys : res (sys fsim) :=
  let* '(k, self, o) := TcpManager_Create (fsim_start 2) sample_routable sample_self in
  let* m := at_or BadPointer o in
  Ok (mkSys k std_tab m NotStarted 0 [] []).
Lemma sample_initial σ : sample_sys = Ok σ → initial σ.
Proof.
  unfold sample_sys. intros ([[k self] o] & E & E2)%bind_Ok_inv. apply bind_Ok_inv in E2 as (m & Ho & [= <-]).
  apply at_or_Ok_inv in Ho as ->. exists (fsim_start 2), sample_routable, sample_self, self.
  split; [apply fsim_start_holds|]. split; [apply sample_routable_ok|]. split; [exact E|]. cbn. auto.
Qed.
Lemma sample_run g l P : (match (let* σ := sample_sys in run g l σ) with Ok σ => P σ | Fault _ => false end) = true →
  ∃ σ : sys fsim, reachable g σ ∧ P σ = true.
Proof.
  intros HP. destruct (let* σ := sample_sys in run g l σ) as [σ|] eqn:E; [|discriminate HP].
  apply bind_Ok_inv in E as (σ0 & E0 & E). exists σ. split; [|done].
  eapply run_reachable; [|exact E]. by apply reach_init, sample_initial.
Qed.

(** The event loop accepts the two connections, then [Stop] runs, then [Start] returns. *)
Definition sample_accept : list bool := replicate 6 true.
Definition sample_stop : list bool := replicate 8 false.
Definition sample_return : list bool := replicate 6 true.


Lemma TcpManager_stop_drains_witness : ∃ σ : sys fsim, reachable true σ ∧ sy_start σ = Returned ∧
  tm_listeners (sy_m σ) = ∅ ∧ pr_sockets (tm_incoming (sy_m σ)) = [].
Proof.
  destruct (sample_run true (sample_accept ++ sample_stop ++ sample_return) (λ σ, Nat.eqb (sy_stop σ) 8
    && bool_decide (sy_start σ = Returned))) as (σ & Hr & [Hn%Nat.eqb_eq Hret%bool_decide_eq_true]%andb_prop).
  { vm_compute. reflexivity. }
  destruct (TcpManager_stop_drains true σ Hr Hn) as (_ & Hin & _ & _ & Hd).
  exists σ. split; [exact Hr|]. split; [exact Hret|]. split; [apply (Hd Hret)|exact Hin].
Defined.

Lemma TcpManager_Start_returns_witness : ∃ σ σ'' : sys fsim, reachable true σ ∧ tm_stop (sy_m σ) = true ∧
  step true σ true (Ok σ'') ∧ (remaining (sy_start σ'') < remaining (sy_start σ))%nat.
Proof.
  destruct (sample_run true (replicate 4 true ++ replicate 5 false) (λ σ, tm_stop (sy_m σ)
    && bool_decide (sy_start σ ≠ Returned))) as (σ & Hr & [Hs Hne%bool_decide_eq_true]%andb_prop).
  { vm_compute. reflexivity. }
  destruct (TcpManager_Start_returns true σ σ 0 Hr Hs (exec_nil true σ)) as [_ Hst].
  destruct (Hst Hne) as (σ'' & H1 & H2). exists σ, σ''. split; [exact Hr|]. split; [exact Hs|].
  split; [exact H1|apply H2].
Defined.
