(* ===== verification/ControlMessage.v ===== *)
(** Control messages, [internal/control/message]: conversions between the program's data and
    the protocol-buffer messages of [message.proto] and [message_internal.proto].  A message
    is a record whose optional fields carry their presence; [mutable_x] creates a missing
    sub-message and never returns null.  A conversion updates its output argument in place,
    also when it fails half-way, so it maps the previous output to the new one with the
    returned flag. *)

From Stdlib Require Import Ascii.
From stdpp Require Import base tactics numbers gmap sets list.
From S2P Require Import Prelude Codec IpAddr Endpoint Types HostInfo.
Local Open Scope Z_scope.

(** * Messages *)

Record proto_Request := mkPRequest {
  pq_op : option Z; pq_laddr : option Z; pq_raddr : option Z; pq_len : option Z; pq_rkey : option Z;
}.
Record proto_Endpoint := mkPEndpoint { pe_ip_port : option str }.
Record proto_NicInfo := mkPNicInfo {
  pn_name : option str; pn_type : option Z; pn_endpoints : list proto_Endpoint;
}.
Record proto_HostInfo := mkPHostInfo {
  ph_control_plane_listener : option proto_Endpoint; ph_data_plane_listeners : list proto_NicInfo;
}.
Record proto_PspToken := mkPPspToken { pt_spi : option Z; pt_gen : option Z; pt_key : option bytes }.
Record proto_PeerReq := mkPPeerReq { pp_peer : option proto_HostInfo; pp_reqs : list proto_Request }.
Record proto_PspTcpReq := mkPPspTcpReq { pc_psp : option proto_PspToken; pc_peer_target : option proto_Endpoint }.
Record proto_PspTcpResp := mkPPspTcpResp { pr_psp : option proto_PspToken }.

Record proto_RdmaConnReq := mkPRdmaConnReq {
  rc_peer : option proto_HostInfo; rc_device_name : option str; rc_qpn : option Z; rc_gid : option bytes;
  rc_psn : option Z; rc_rkey : option Z;
}.
Record proto_RdmaConnResp := mkPRdmaConnResp {
  rr_qpn : option Z; rr_gid : option bytes; rr_psn : option Z; rr_rkey : option Z;
}.

(** [oneof msg] of [ReqMsg]; the RDMA connection request is not converted by this class. *)
Inductive proto_ReqMsg : Type :=
  | MSG_NOT_SET
  | kHostInfo (h : proto_HostInfo)
  | kPeerReq (p : proto_PeerReq)
  | kPspTcpReq (p : proto_PspTcpReq)
  | kRdmaConnReq (r : proto_RdmaConnReq).

Definition PRequest_new : proto_Request := mkPRequest None None None None None.
Definition PEndpoint_new : proto_Endpoint := mkPEndpoint None.
Definition PNicInfo_new : proto_NicInfo := mkPNicInfo None None [].
Definition PHostInfo_new : proto_HostInfo := mkPHostInfo None [].
Definition PPspToken_new : proto_PspToken := mkPPspToken None None None.

(** Enumerators of [proto::Request::Op] and [proto::NicInfo::Type]. *)
Definition Request_READ : Z := 1.
Definition Request_WRITE : Z := 2.
Definition NicInfo_IP : Z := 1.
Definition NicInfo_RDMA : Z := 2.

(** [struct PspToken]. *)
Definition kPspKeyLen : nat := 16.
Record PspToken := mkPspToken { psp_spi : Z; psp_gen : Z; psp_key : bytes }.
Definition PspToken_IsValid (t : PspToken) : bool := negb (psp_spi t =? 0).

(** * Loops over repeated fields *)

(** [for (const auto& a : l) { auto* p = out.add_x(); if (!ser(a, *p)) return false; }]. *)
Fixpoint add_all {A P} (ser : A → P → res (P * bool)) (new : P) (l : list A) (acc : list P) : res (list P * bool) :=
  match l with
  | [] => Ok (acc, true)
  | a :: l' =>
      let* '(p, ok) := ser a new in
      if (ok : bool) then add_all ser new l' (acc ++ [p]) else Ok (acc ++ [p], false)
  end.

(** [for (const auto& p : ps) { if (!des(p, cur)) return false; out.push_back(cur); }]. *)
Fixpoint parse_all {A P} (des : P → A → A * bool) (ps : list P) (cur : A) (acc : list A) : list A * bool :=
  match ps with
  | [] => (acc, true)
  | p :: ps' =>
      let '(cur, ok) := des p cur in
      if ok then parse_all des ps' cur (acc ++ [cur]) else (acc, false)
  end.

(** * Components *)

Definition serialize_Request (req : Request) (proto : proto_Request) : res (proto_Request * bool) :=
  if negb (Request_IsValid req) then Ok (proto, false)
  else
    do* dcheck ((rq_op req =? kRead) || (rq_op req =? kWrite));
    Ok (mkPRequest (Some (if rq_op req =? kRead then Request_READ else Request_WRITE))
          (Some (rq_laddr req)) (Some (rq_raddr req)) (Some (rq_len req)) (Some (rq_rkey req)), true).

Definition deserialize_Request (proto : proto_Request) (req : Request) : Request * bool :=
  let op := default 0 (pq_op proto) in
  if negb (op =? Request_READ) && negb (op =? Request_WRITE) then (req, false)
  else
    let req := mkRequest (u8 op) (default 0 (pq_laddr proto)) (default 0 (pq_raddr proto))
                 (default 0 (pq_len proto)) (default 0 (pq_rkey proto)) (rq_metadata req) in
    (req, Request_IsValid req).

Section Text.
Context `{NetText}.

Definition serialize_Endpoint (endpoint : Endpoint) (proto : proto_Endpoint) : proto_Endpoint * bool :=
  if negb (HasNonzeroIpPort endpoint) then (proto, false)
  else (mkPEndpoint (Some (Endpoint_ToString endpoint)), true).

Definition deserialize_Endpoint (proto : proto_Endpoint) (endpoint : Endpoint) : Endpoint * bool :=
  match pe_ip_port proto with
  | None => (endpoint, false)
  | Some s => let endpoint := Endpoint_Create s in (endpoint, HasNonzeroIpPort endpoint)
  end.

Definition serialize_NicInfo (nic : NicInfo) (proto : proto_NicInfo) : res (proto_NicInfo * bool) :=
  if negb (NicInfo_IsValid nic) then Ok (proto, false)
  else
    let* '(es, ok) := add_all (λ e p, Ok (serialize_Endpoint e p)) PEndpoint_new (nic_endpoints nic) (pn_endpoints proto) in
    Ok (mkPNicInfo (Some (nic_name nic)) (Some (NicType_u8 (nic_type nic))) es, ok).

Definition deserialize_NicInfo (proto : proto_NicInfo) (nic : NicInfo) : NicInfo * bool :=
  match pn_name proto, pn_type proto with
  | Some name, Some type =>
      if negb (type =? NicInfo_IP) && negb (type =? NicInfo_RDMA) then (nic, false)
      else
        let t := if type =? NicInfo_IP then kIP else kRDMA in
        let '(es, ok) := parse_all deserialize_Endpoint (pn_endpoints proto) Endpoint_default [] in
        let nic := mkNicInfo name t es in
        if ok then (nic, NicInfo_IsValid nic) else (nic, false)
  | _, _ => (nic, false)
  end.

Definition serialize_PspToken (token : PspToken) (proto : proto_PspToken) : proto_PspToken * bool :=
  if negb (PspToken_IsValid token) then (proto, false)
  else (mkPPspToken (Some (psp_spi token)) (Some (psp_gen token)) (Some (psp_key token)), true).

Definition deserialize_PspToken (proto : proto_PspToken) (token : PspToken) : PspToken * bool :=
  match pt_spi proto, pt_gen proto, pt_key proto with
  | Some spi, Some gen, Some key =>
      if negb (Nat.eqb (length key) kPspKeyLen) then (token, false)
      else let token := mkPspToken spi gen key in (token, PspToken_IsValid token)
  | _, _, _ => (token, false)
  end.

(** * Whole messages *)

Definition Serialize_HostInfo (host : HostInfo) (proto : proto_HostInfo) : res (proto_HostInfo * bool) :=
  if negb (HostInfo_IsValid host) then Ok (proto, false)
  else
    let '(pc, ok) := serialize_Endpoint (control_plane_listener host)
                       (default PEndpoint_new (ph_control_plane_listener proto)) in
    if negb ok then Ok (mkPHostInfo (Some pc) (ph_data_plane_listeners proto), false)
    else
      let* '(ns, ok) := add_all serialize_NicInfo PNicInfo_new (data_plane_listeners host) (ph_data_plane_listeners proto) in
      Ok (mkPHostInfo (Some pc) ns, ok).

Definition Deserialize_HostInfo (proto : proto_HostInfo) (host : HostInfo) : HostInfo * bool :=
  match ph_control_plane_listener proto with
  | None => (host, false)
  | Some pc =>
      let '(c, ok) := deserialize_Endpoint pc (control_plane_listener host) in
      if negb ok then (mkHostInfo c (data_plane_listeners host), false)
      else
        let '(ns, ok) := parse_all deserialize_NicInfo (ph_data_plane_listeners proto) NicInfo_default [] in
        let host := mkHostInfo c ns in
        if ok then (host, HostInfo_IsValid host) else (host, false)
  end.

(** [Serialize(host, reqs, msg)]. *)
Definition Serialize_ReqMsg (host : HostInfo) (reqs : list Request) (msg : proto_ReqMsg) : res (proto_ReqMsg * bool) :=
  if negb (HostInfo_IsValid host) then Ok (msg, false)
  else if negb (Requests_IsValid reqs) then Ok (msg, false)
  else
    let* '(pp, ok) := Serialize_HostInfo host PHostInfo_new in
    if negb ok then Ok (kPeerReq (mkPPeerReq (Some pp) []), false)
    else
      let* '(rs, ok) := add_all serialize_Request PRequest_new reqs [] in
      Ok (kPeerReq (mkPPeerReq (Some pp) rs), ok).

(** The default [Request req;]. *)
Definition Request_default : Request := mkRequest kWrite 0 0 0 0 Metadata_zero.

(** [Deserialize(msg)]. *)
Definition Deserialize_ReqMsg (msg : proto_ReqMsg) : res (HostInfo * list Request) :=
  let invalid := (HostInfo_default, []) in
  match msg with
  | kPeerReq pr =>
      match pp_peer pr with
      | None => Ok invalid
      | Some peer =>
          let '(host, ok) := Deserialize_HostInfo peer HostInfo_default in
          if negb ok then Ok invalid
          else
            do* dcheck (HostInfo_IsValid host);
            let '(reqs, ok) := parse_all deserialize_Request (pp_reqs pr) Request_default [] in
            if negb ok then Ok invalid
            else if negb (Requests_IsValid reqs) then Ok invalid
            else Ok (host, reqs)
      end
  | _ => Ok invalid
  end.

Definition Serialize_PspTcpReq (token : PspToken) (peer_target : Endpoint) (proto : proto_PspTcpReq)
    : proto_PspTcpReq * bool :=
  let '(psp, ok) := serialize_PspToken token (default PPspToken_new (pc_psp proto)) in
  if negb ok then (mkPPspTcpReq (Some psp) (pc_peer_target proto), false)
  else
    let '(target, ok) := serialize_Endpoint peer_target (default PEndpoint_new (pc_peer_target proto)) in
    (mkPPspTcpReq (Some psp) (Some target), ok).

Definition Deserialize_PspTcpReq (proto : proto_PspTcpReq) (token : PspToken) (peer_target : Endpoint)
    : PspToken * Endpoint * bool :=
  match pc_psp proto with
  | None => (token, peer_target, false)
  | Some psp =>
      let '(token, ok) := deserialize_PspToken psp token in
      if negb ok then (token, peer_target, false)
      else match pc_peer_target proto with
      | None => (token, peer_target, false)
      | Some target =>
          let '(peer_target, ok) := deserialize_Endpoint target peer_target in
          (token, peer_target, ok)
      end
  end.

Definition Serialize_PspTcpResp (token : PspToken) (proto : proto_PspTcpResp) : proto_PspTcpResp * bool :=
  let '(psp, ok) := serialize_PspToken token (default PPspToken_new (pr_psp proto)) in
  (mkPPspTcpResp (Some psp), ok).

Definition Deserialize_PspTcpResp (proto : proto_PspTcpResp) (token : PspToken) : PspToken * bool :=
  match pr_psp proto with
  | None => (token, false)
  | Some psp => deserialize_PspToken psp token
  end.
End Text.

(** * Lemmas *)

Lemma add_all_ok {A P} (ser : A → P → res (P * bool)) (f : A → P) new l : ∀ acc,
  (∀ a, a ∈ l → ser a new = Ok (f a, true)) → add_all ser new l acc = Ok (acc ++ (f <$> l), true).
Proof.
  induction l as [|a l IH]; intros acc Hs; cbn [add_all].
  - by rewrite app_nil_r.
  - rewrite Hs by left. cbn. rewrite IH by (intros; apply Hs; by right). by rewrite <- app_assoc.
Qed.

(** [I] is what parsing keeps of the reused variable. *)
Lemma parse_all_ok {A B P} (des : P → A → A * bool) (f : B → P) (g : B → A) (I : A → Prop) l : ∀ cur acc,
  (∀ b cur, b ∈ l → I cur → des (f b) cur = (g b, true) ∧ I (g b)) → I cur →
  parse_all des (f <$> l) cur acc = (acc ++ (g <$> l), true).
Proof.
  induction l as [|b l IH]; intros cur acc Hd HI; cbn [fmap list_fmap parse_all].
  - by rewrite app_nil_r.
  - destruct (Hd b cur ltac:(left) HI) as [-> HI']. rewrite IH; [by rewrite <- app_assoc| |done].
    intros; apply Hd; [by right|done].
Qed.

Lemma parse_all_sound {A P} (des : P → A → A * bool) (Q : A → Prop) ps :
  (∀ p cur a, des p cur = (a, true) → Q a) → ∀ cur acc out,
  Forall Q acc → parse_all des ps cur acc = (out, true) → Forall Q out.
Proof.
  intros Hd. induction ps as [|p ps IH]; intros cur acc out Hacc E; cbn [parse_all] in E; [by simplify_eq|].
  destruct (des p cur) as [a []] eqn:Ea; [|done]. eapply IH; [|exact E].
  apply Forall_app. split; [done|]. constructor; [|done]. by eapply Hd.
Qed.

Definition op_ok (r : Request) : Prop := rq_op r = kRead ∨ rq_op r = kWrite.
Definition host_wf (h : HostInfo) : Prop := Forall endpoint_wf (host_endpoints h).

(** The message holds no metadata. *)
Definition without_metadata (r : Request) : Request :=
  mkRequest (rq_op r) (rq_laddr r) (rq_raddr r) (rq_len r) (rq_rkey r) Metadata_zero.

Definition proto_of_request (r : Request) : proto_Request :=
  mkPRequest (Some (rq_op r)) (Some (rq_laddr r)) (Some (rq_raddr r)) (Some (rq_len r)) (Some (rq_rkey r)).

Lemma serialize_Request_ok r p : op_ok r → Request_IsValid r = true →
  serialize_Request r p = Ok (proto_of_request r, true).
Proof.
  intros Hop Hv. unfold serialize_Request. rewrite Hv. cbn [negb].
  unfold proto_of_request. by destruct Hop as [->| ->].
Qed.
Lemma deserialize_Request_ok r cur : op_ok r → Request_IsValid r = true → rq_metadata cur = Metadata_zero →
  deserialize_Request (proto_of_request r) cur = (without_metadata r, true) ∧
  rq_metadata (without_metadata r) = Metadata_zero.
Proof.
  intros Hop Hv Hm. split; [|done]. unfold deserialize_Request, without_metadata, proto_of_request.
  cbn [pq_op pq_laddr pq_raddr pq_len pq_rkey default]. rewrite Hm.
  destruct Hop as [->| ->]; cbn; (f_equal; exact Hv).
Qed.

Section RoundTrip.
Context `{T : NetText} `{!NetTextLaws T}.

Definition proto_of_endpoint (e : Endpoint) : proto_Endpoint := mkPEndpoint (Some (Endpoint_ToString e)).
Definition proto_of_nic (n : NicInfo) : proto_NicInfo :=
  mkPNicInfo (Some (nic_name n)) (Some (NicType_u8 (nic_type n))) (proto_of_endpoint <$> nic_endpoints n).
Definition proto_of_host (h : HostInfo) : proto_HostInfo :=
  mkPHostInfo (Some (proto_of_endpoint (control_plane_listener h))) (proto_of_nic <$> data_plane_listeners h).

Lemma serialize_Endpoint_ok e p : HasNonzeroIpPort e = true → serialize_Endpoint e p = (proto_of_endpoint e, true).
Proof. unfold serialize_Endpoint. by intros ->. Qed.
Lemma deserialize_Endpoint_ok e cur : endpoint_wf e → HasNonzeroIpPort e = true →
  deserialize_Endpoint (proto_of_endpoint e) cur = (e, true).
Proof. intros Hwf Hn. unfold deserialize_Endpoint. cbn. by rewrite Endpoint_Create_ToString, Hn. Qed.

Lemma serialize_NicInfo_ok n : NicInfo_IsValid n = true →
  serialize_NicInfo n PNicInfo_new = Ok (proto_of_nic n, true).
Proof.
  intros Hv. unfold serialize_NicInfo. rewrite Hv. cbn [negb].
  apply NicInfo_IsValid_spec in Hv as (_ & _ & _ & He).
  rewrite (add_all_ok _ proto_of_endpoint); [done|]. intros e Hin. f_equal.
  by apply serialize_Endpoint_ok, He.
Qed.
Lemma deserialize_NicInfo_ok n cur : Forall endpoint_wf (nic_endpoints n) → NicInfo_IsValid n = true →
  deserialize_NicInfo (proto_of_nic n) cur = (n, true).
Proof.
  intros Hwf Hv. pose proof Hv as (_ & Ht & _ & He)%NicInfo_IsValid_spec.
  rewrite Forall_forall in Hwf. unfold deserialize_NicInfo. cbn [proto_of_nic pn_name pn_type pn_endpoints].
  rewrite (parse_all_ok _ proto_of_endpoint id (λ _, True)); [|intros e cur' Hin _|done].
  - rewrite app_nil_l, list_fmap_id.
    destruct n as [name [] es]; cbn [nic_name nic_type nic_endpoints NicType_u8] in *; [done| |]; cbn; by rewrite Hv.
  - split; [|done]. apply deserialize_Endpoint_ok; [by apply Hwf|by apply He].
Qed.

Lemma host_wf_nic h n : host_wf h → n ∈ data_plane_listeners h → Forall endpoint_wf (nic_endpoints n).
Proof.
  unfold host_wf, host_endpoints. rewrite !Forall_forall. intros Hwf Hin e He.
  apply Hwf. right. apply list_elem_of_bind. eauto.
Qed.

Lemma Serialize_HostInfo_ok h : HostInfo_IsValid h = true →
  Serialize_HostInfo h PHostInfo_new = Ok (proto_of_host h, true).
Proof.
  intros Hv. unfold Serialize_HostInfo. rewrite Hv. cbn [negb].
  apply HostInfo_IsValid_spec in Hv as (Hc & _ & Hn & _).
  rewrite serialize_Endpoint_ok by done. cbn [negb].
  rewrite (add_all_ok _ proto_of_nic); [done|]. intros n Hin. by apply serialize_NicInfo_ok, Hn.
Qed.
Lemma Deserialize_HostInfo_ok h cur : host_wf h → HostInfo_IsValid h = true →
  Deserialize_HostInfo (proto_of_host h) cur = (h, true).
Proof.
  intros Hwf Hv. pose proof Hv as (Hc & _ & Hn & _)%HostInfo_IsValid_spec.
  unfold Deserialize_HostInfo. cbn [proto_of_host ph_control_plane_listener ph_data_plane_listeners].
  rewrite deserialize_Endpoint_ok; [|by inversion Hwf|done]. cbn [negb].
  rewrite (parse_all_ok _ proto_of_nic id (λ _, True)); [|intros n cur' Hin _|done].
  - rewrite app_nil_l, list_fmap_id. destruct h; cbn in *. by rewrite Hv.
  - split; [|done]. apply deserialize_NicInfo_ok; [by eapply host_wf_nic|by apply Hn].
Qed.

Lemma deserialize_Endpoint_sound p cur e : deserialize_Endpoint p cur = (e, true) →
  endpoint_wf e ∧ HasNonzeroIpPort e = true.
Proof.
  unfold deserialize_Endpoint. destruct (pe_ip_port p); intros [= <- Hn]. split; [apply Endpoint_Create_wf|done].
Qed.
Lemma deserialize_NicInfo_sound p cur n : deserialize_NicInfo p cur = (n, true) →
  Forall endpoint_wf (nic_endpoints n) ∧ NicInfo_IsValid n = true.
Proof.
  unfold deserialize_NicInfo. destruct (pn_name p), (pn_type p); try by intros [=].
  destruct (negb _ && negb _); [by intros [=]|].
  destruct (parse_all _ _ _ _) as [es ok] eqn:Ep. destruct ok; intros [= <- Hv]. split; [|done].
  apply (parse_all_sound _ endpoint_wf) in Ep; [done| |done].
  intros p' cur' e He. by eapply deserialize_Endpoint_sound.
Qed.
Lemma Deserialize_HostInfo_sound p cur h : Deserialize_HostInfo p cur = (h, true) →
  host_wf h ∧ HostInfo_IsValid h = true.
Proof.
  unfold Deserialize_HostInfo. destruct (ph_control_plane_listener p) as [pc|]; [|by intros [=]].
  destruct (deserialize_Endpoint pc _) as [c []] eqn:Ec; [|by intros [=]]. cbn [negb].
  destruct (parse_all _ _ _ _) as [ns ok] eqn:Ep. destruct ok; intros [= <- Hv]. split; [|done].
  apply (parse_all_sound _ (λ n, Forall endpoint_wf (nic_endpoints n))) in Ep; [| |done].
  - unfold host_wf, host_endpoints. cbn. constructor; [by eapply deserialize_Endpoint_sound|].
    rewrite Forall_forall. intros e (n & He & Hn)%list_elem_of_bind.
    rewrite Forall_forall in Ep. specialize (Ep n Hn). rewrite Forall_forall in Ep. by apply Ep.
  - intros p' cur' n Hn. by eapply deserialize_NicInfo_sound.
Qed.
Lemma deserialize_Request_sound p cur r : deserialize_Request p cur = (r, true) → op_ok r ∧ Request_IsValid r = true.
Proof.
  unfold deserialize_Request. destruct (negb _ && negb _) eqn:E; intros [= <- Hv]. split; [|done].
  unfold op_ok. cbn [rq_op]. apply andb_false_iff in E as [E|E]; to_prop; rewrite E; auto.
Qed.
(** The messages of the PSP handshake, both ways. *)
Lemma psp_messages token target p0 r0 token0 target0 :
  endpoint_wf target → length (psp_key token) = kPspKeyLen →
  (let '(p, ok) := Serialize_PspTcpReq token target p0 in
   ok = (PspToken_IsValid token && HasNonzeroIpPort target) ∧
   (ok = true → Deserialize_PspTcpReq p token0 target0 = (token, target, true))) ∧
  (let '(r, ok) := Serialize_PspTcpResp token r0 in
   ok = PspToken_IsValid token ∧ (ok = true → Deserialize_PspTcpResp r token0 = (token, true))) ∧
  (∀ p t e, Deserialize_PspTcpReq p token0 target0 = (t, e, true) →
     psp_spi t ≠ 0 ∧ length (psp_key t) = kPspKeyLen ∧ endpoint_wf e ∧ HasNonzeroIpPort e = true).
Proof.
  intros Hwf Hk.
  assert (∀ p, serialize_PspToken token p = if PspToken_IsValid token then
      (mkPPspToken (Some (psp_spi token)) (Some (psp_gen token)) (Some (psp_key token)), true) else (p, false)) as Hs.
  { intros p. unfold serialize_PspToken. by destruct (PspToken_IsValid token). }
  assert (PspToken_IsValid token = true → ∀ cur, deserialize_PspToken
      (mkPPspToken (Some (psp_spi token)) (Some (psp_gen token)) (Some (psp_key token))) cur = (token, true)) as Hd.
  { intros Hv cur. unfold deserialize_PspToken. cbn [pt_spi pt_gen pt_key]. rewrite Hk. cbn [Nat.eqb negb kPspKeyLen].
    replace (mkPspToken (psp_spi token) (psp_gen token) (psp_key token)) with token by (by destruct token).
    by rewrite Hv. }
  split; [|split].
  - unfold Serialize_PspTcpReq. rewrite Hs. destruct (PspToken_IsValid token); [|done]. cbn [negb andb].
    unfold serialize_Endpoint at 1. destruct (HasNonzeroIpPort target) eqn:Hn; [|done]. cbn [negb].
    split; [done|]. intros _. unfold Deserialize_PspTcpReq. cbn [pc_psp pc_peer_target].
    rewrite Hd by done. cbn [negb].
    pose proof (deserialize_Endpoint_ok target target0 Hwf Hn) as He. unfold proto_of_endpoint in He. by rewrite He.
  - unfold Serialize_PspTcpResp. rewrite Hs. destruct (PspToken_IsValid token); [|done].
    split; [done|]. intros _. by apply Hd.
  - intros p t e. unfold Deserialize_PspTcpReq. destruct (pc_psp p) as [psp|]; [|by intros [=]].
    destruct (deserialize_PspToken psp token0) as [t' []] eqn:Et; [|by intros [=]]. cbn [negb].
    destruct (pc_peer_target p) as [tg|]; [|by intros [=]].
    destruct (deserialize_Endpoint tg target0) as [e' ok] eqn:Ee. intros [= <- <- ->].
    apply deserialize_Endpoint_sound in Ee as [? ?]. unfold deserialize_PspToken in Et.
    destruct (pt_spi psp), (pt_gen psp), (pt_key psp) as [key|]; try by simplify_eq.
    destruct (Nat.eqb_spec (length key) kPspKeyLen); cbn [negb] in Et; [|by simplify_eq].
    injection Et as <- Hv. unfold PspToken_IsValid in Hv. cbn [psp_spi psp_key] in *. by to_prop.
Qed.
End RoundTrip.

(** * Properties *)

Section Properties.
Context `{T : NetText} `{!NetTextLaws T}.

(** a peer request travels unchanged.  [Serialize] succeeds exactly for valid host
    information and a valid, non-empty batch, and leaves the message alone otherwise; what it
    writes, [Deserialize] reads back as the same host and the same requests, except for their
    metadata, which the message does not carry. *)
Theorem ControlMessage_peer_roundtrip host reqs msg0 :
  host_wf host → Forall op_ok reqs →
  ∃ msg, Serialize_ReqMsg host reqs msg0 = Ok (msg, HostInfo_IsValid host && Requests_IsValid reqs) ∧
    if HostInfo_IsValid host && Requests_IsValid reqs
    then Deserialize_ReqMsg msg = Ok (host, without_metadata <$> reqs)
    else msg = msg0.
Proof.
  intros Hwf Hop. unfold Serialize_ReqMsg.
  destruct (HostInfo_IsValid host) eqn:Hv; [|by exists msg0].
  destruct (Requests_IsValid reqs) eqn:Hr; [|by exists msg0]. cbn [negb andb].
  rewrite (Serialize_HostInfo_ok host Hv), bind_Ok. cbn [negb].
  pose proof Hr as [Hne Hall]%andb_prop. rewrite forallb_forall in Hall. rewrite Forall_forall in Hop.
  rewrite (add_all_ok _ proto_of_request).
  2: { intros r Hin. apply serialize_Request_ok; [by apply Hop|]. by apply Hall, list_elem_of_In. }
  rewrite bind_Ok, app_nil_l. eexists. split; [reflexivity|].
  unfold Deserialize_ReqMsg. cbn [pp_peer pp_reqs]. rewrite Deserialize_HostInfo_ok by done.
  cbn [negb]. rewrite bind_dcheck by done.
  rewrite (parse_all_ok _ proto_of_request without_metadata (λ r, rq_metadata r = Metadata_zero)).
  - rewrite app_nil_l. cbn [negb].
    assert (Requests_IsValid (without_metadata <$> reqs) = true) as ->; [|done].
    apply andb_true_intro. split; [by destruct reqs|]. apply forallb_forall.
    intros r (r' & -> & Hin)%list_elem_of_In%list_elem_of_fmap. by apply (Hall r'), list_elem_of_In.
  - intros r cur Hin Hm. apply deserialize_Request_ok; [by apply Hop| |done]. by apply Hall, list_elem_of_In.
  - done.
Qed.

(** whatever message arrives, parsing it trips no check, and gives the invalid pair or
    valid, well-formed host information with at least one request, each valid and of a known
    operation. *)
Theorem ControlMessage_parse_sound msg :
  ∃ host reqs, Deserialize_ReqMsg msg = Ok (host, reqs) ∧
    ((host = HostInfo_default ∧ reqs = []) ∨
     (HostInfo_IsValid host = true ∧ host_wf host ∧ reqs ≠ [] ∧
      Forall (λ r, op_ok r ∧ Request_IsValid r = true) reqs)).
Proof.
  unfold Deserialize_ReqMsg.
  destruct msg as [| |pr| |]; try (do 2 eexists; split; [reflexivity|by left]).
  destruct (pp_peer pr) as [peer|]; [|do 2 eexists; split; [reflexivity|by left]].
  destruct (Deserialize_HostInfo peer HostInfo_default) as [host ok] eqn:Eh.
  destruct ok; [|do 2 eexists; split; [reflexivity|by left]].
  apply Deserialize_HostInfo_sound in Eh as [Hwf Hv]. cbn [negb]. rewrite bind_dcheck by done.
  destruct (parse_all _ _ _ _) as [reqs ok] eqn:Ep.
  destruct ok; [|do 2 eexists; split; [reflexivity|by left]]. cbn [negb].
  destruct (Requests_IsValid reqs) eqn:Hr; [|do 2 eexists; split; [reflexivity|by left]]. cbn [negb].
  exists host, reqs. split; [done|]. right. split; [done|]. split; [done|]. split.
  - apply andb_prop in Hr as [Hr _]. by to_prop.
  - eapply parse_all_sound; [|constructor|exact Ep]. apply deserialize_Request_sound.
Qed.

(** the PSP handshake: the token and the target of a request, and the token of a
    response, are read back as they were written, whatever the output variables held; the
    writer succeeds exactly for a valid token and a connectable target; and the reader accepts
    only a non-zero index with a key of 16 bytes, and a connectable target. *)
Theorem ControlMessage_psp_roundtrip token target p0 r0 token0 target0 :
  endpoint_wf target → length (psp_key token) = kPspKeyLen →
  (let '(p, ok) := Serialize_PspTcpReq token target p0 in
   ok = (PspToken_IsValid token && HasNonzeroIpPort target) ∧
   (ok = true → Deserialize_PspTcpReq p token0 target0 = (token, target, true))) ∧
  (let '(r, ok) := Serialize_PspTcpResp token r0 in
   ok = PspToken_IsValid token ∧ (ok = true → Deserialize_PspTcpResp r token0 = (token, true))) ∧
  (∀ p t e, Deserialize_PspTcpReq p token0 target0 = (t, e, true) →
     psp_spi t ≠ 0 ∧ length (psp_key t) = kPspKeyLen ∧ endpoint_wf e ∧ HasNonzeroIpPort e = true).
Proof. apply psp_messages. Qed.
End Properties.

(** * Witnesses *)

Definition reqs_sample : list Request :=
  [mkRequest kWrite 4096 8192 100 7 Metadata_zero; mkRequest kRead 64 128 1 0 Metadata_zero].

Lemma ControlMessage_peer_roundtrip_witness :
  ∃ msg, @Serialize_ReqMsg HexText.text host_sample reqs_sample MSG_NOT_SET = Ok (msg, true) ∧
    @Deserialize_ReqMsg HexText.text msg = Ok (host_sample, reqs_sample).
Proof.
  refine (@ControlMessage_peer_roundtrip HexText.text HexText.text_laws host_sample reqs_sample MSG_NOT_SET _ _).
  - repeat constructor; done.
  - apply Forall_cons; split; [by right|]. apply Forall_cons; split; [by left|constructor].
Defined.

Lemma ControlMessage_psp_roundtrip_witness :
  let t := mkPspToken 5 1 (replicate 16 9) in
  (@Deserialize_PspTcpResp (@Serialize_PspTcpResp t (mkPPspTcpResp None)).1 (mkPspToken 0 0 [])).1 = t.
Proof.
  pose proof (@ControlMessage_psp_roundtrip HexText.text HexText.text_laws (mkPspToken 5 1 (replicate 16 9)) ep_sample
    (mkPPspTcpReq None None) (mkPPspTcpResp None) (mkPspToken 0 0 []) ep_sample
    ltac:(apply (bool_decide_eq_true _); vm_compute; reflexivity) eq_refl) as (_ & Hr & _).
  cbn zeta. destruct (Serialize_PspTcpResp _ _) as [r ok] eqn:E. destruct Hr as [Hok Hr].
  cbn [fst]. rewrite Hr by exact Hok. reflexivity.
Defined.

(** A message with an unknown operation is rejected as a whole. *)
Lemma ControlMessage_parse_sound_witness :
  let m := kPeerReq (mkPPeerReq (Some (@proto_of_host HexText.text host_sample))
             [mkPRequest (Some 3) (Some 1) (Some 1) (Some 1) None]) in
  @Deserialize_ReqMsg HexText.text m = Ok (HostInfo_default, []).
Proof.
  intros m. destruct (@ControlMessage_parse_sound HexText.text HexText.text_laws m)
    as (host & reqs & E & [[-> ->]|(_ & _ & Hne & _)]); [exact E|exfalso].
  assert (@Deserialize_ReqMsg HexText.text m = Ok (HostInfo_default, [])) as E' by (vm_compute; reflexivity).
  rewrite E' in E. injection E as _ <-. by apply Hne.
Defined.
