(* ===== verification/Control.v ===== *)
(** The control plane, [internal/control/control], with [internal/base/config] and the gRPC
    wrappers [grpc_client] and [grpc_server].

    The gRPC library is the wire: a call reaches the server listening at the peer's endpoint
    or not, and its answer comes back or not ([Link]).  The running processes form a world,
    a map from control-plane endpoints to their [Control] objects, so that a call of one
    process runs the handler of another (or its own).  The handler of the PSP manager is a
    function held by the object; the handler of the RDMA manager captures the manager, an
    object of some type [Obj] that a call may change.  A status is [None] when it is
    OK; messages of statuses are left out. *)

From Stdlib Require Import Ascii.
From stdpp Require Import base tactics numbers gmap fin_maps sets list.
From S2P Require Import Prelude Codec IpAddr Endpoint Types HostInfo ControlMessage.
Local Open Scope Z_scope.

(** * Data *)

Record Config := mkConfig {
  transport_type : TransportType; num_conns_per_peer : Z; require_dataplane_encryption : bool;
}.
(** Every value of the enumeration is allowed. *)
Definition Config_IsValid (c : Config) : bool :=
  match transport_type c with kAny | kTcp | kRdma => true end &&
  (1 <=? num_conns_per_peer c) && (num_conns_per_peer c <=? 100).

(** Credentials are null or not. *)
Record SecurityCredentials := mkCreds { has_server_creds : bool; has_client_creds : bool }.
Definition Creds_IsValid (c : SecurityCredentials) : bool := has_server_creds c && has_client_creds c.

(** [oneof msg] of [RespMsg]. *)
Inductive proto_RespMsg : Type :=
  | RESP_NOT_SET
  | kHostInfoResp (h : proto_HostInfo)
  | kPeerResp
  | kPspTcpResp (r : proto_PspTcpResp)
  | kRdmaConnResp (r : proto_RdmaConnResp).

(** [mutable_x()] of a oneof: the current value if it is set, a new one otherwise. *)
Definition mutable_host_info (m : proto_RespMsg) : proto_HostInfo :=
  match m with kHostInfoResp h => h | _ => PHostInfo_new end.
Definition mutable_psp_tcp_resp (m : proto_RespMsg) : proto_PspTcpResp :=
  match m with kPspTcpResp r => r | _ => mkPPspTcpResp None end.
Definition mutable_rdma_conn_resp (m : proto_RespMsg) : proto_RdmaConnResp :=
  match m with kRdmaConnResp r => r | _ => mkPRdmaConnResp None None None None end.

(** The invariant of such an object, which its handler keeps. *)
Class ObjInv (Obj : Type) := obj_inv : Obj → Prop.

Section WithObj.
Context {Obj : Type} {OI : ObjInv Obj}.

Definition PspTcpHandler : Type := PspToken → Endpoint → StatusOr PspToken.
(** A closure: the object it captures and its body. *)
Record RdmaConnHandler := mkRdmaConnHandler {
  rh_obj : Obj; rh_call : Obj → proto_RdmaConnReq → proto_RdmaConnResp → res (Obj * proto_RdmaConnResp * absl_Status);
}.

(** [grpc_server_] is null or a server with its port; [peer_clients_] are the peers with a
    client; [self_] is the host information the object refers to. *)
Record Control := mkControl {
  co_config : Config; co_self : HostInfo; co_creds : SecurityCredentials; co_server : option Z;
  co_serving : bool; co_received : Z; co_clients : gset Endpoint; co_hosts : gmap Endpoint HostInfo;
  co_psp_handler : option PspTcpHandler; co_rdma_handler : option RdmaConnHandler;
}.
Definition with_server (c : Control) (self : HostInfo) (server : option Z) (serving : bool) : Control :=
  mkControl (co_config c) self (co_creds c) server serving (co_received c) (co_clients c) (co_hosts c)
    (co_psp_handler c) (co_rdma_handler c).
Definition with_received (c : Control) (n : Z) : Control :=
  mkControl (co_config c) (co_self c) (co_creds c) (co_server c) (co_serving c) n (co_clients c) (co_hosts c)
    (co_psp_handler c) (co_rdma_handler c).
Definition with_clients (c : Control) (s : gset Endpoint) : Control :=
  mkControl (co_config c) (co_self c) (co_creds c) (co_server c) (co_serving c) (co_received c) s (co_hosts c)
    (co_psp_handler c) (co_rdma_handler c).
Definition with_hosts (c : Control) (m : gmap Endpoint HostInfo) : Control :=
  mkControl (co_config c) (co_self c) (co_creds c) (co_server c) (co_serving c) (co_received c) (co_clients c) m
    (co_psp_handler c) (co_rdma_handler c).
Definition SetPspTcpHandler (c : Control) (h : PspTcpHandler) : Control :=
  mkControl (co_config c) (co_self c) (co_creds c) (co_server c) (co_serving c) (co_received c) (co_clients c)
    (co_hosts c) (Some h) (co_rdma_handler c).
(** [None] is a null function. *)
Definition SetRdmaConnHandler (c : Control) (h : option RdmaConnHandler) : Control :=
  mkControl (co_config c) (co_self c) (co_creds c) (co_server c) (co_serving c) (co_received c) (co_clients c)
    (co_hosts c) (co_psp_handler c) h.

(** * Life cycle *)

(** The constructor. *)
Definition Control_new (config : Config) (self : HostInfo) (creds : SecurityCredentials) : res Control :=
  do* dcheck (Config_IsValid config);
  do* dcheck (negb (HasZeroIpAddr (control_plane_listener self)));
  do* dcheck (has_server_creds creds);
  do* dcheck (has_client_creds creds);
  Ok (mkControl config self creds None false 0 ∅ ∅ None None).

Definition Control_Create (config : Config) (self : HostInfo) (creds : SecurityCredentials) : res (option Control) :=
  if HasZeroIpAddr (control_plane_listener self) then Ok None
  else if negb (Creds_IsValid creds) then Ok None
  else let* c := Control_new config self creds in Ok (Some c).

Definition Control_invariant (c : Control) : bool :=
  Config_IsValid (co_config c) && HasNonzeroIpPort (control_plane_listener (co_self c)) &&
  has_client_creds (co_creds c) && bool_decide (is_Some (co_server c)).

(** [GrpcServer::Create] with the port the library bound, [None] if it could not start. *)
Definition GrpcServer_Create (creds_ok : bool) (bound : option Z) : res (StatusOr Z) :=
  if negb creds_ok then Ok (inr InvalidArgument)
  else match bound with
  | None => Ok (inr Internal)
  | Some port => do* dcheck (0 <? port); Ok (inl port)
  end.

Definition Control_Start (c : Control) (bound : option Z) : res (Control * bool) :=
  if bool_decide (is_Some (co_server c)) then Ok (c, true)
  else
    let e := control_plane_listener (co_self c) in
    do* dcheck (negb (HasZeroIpAddr e));
    let* server := GrpcServer_Create (has_server_creds (co_creds c)) bound in
    match server with
    | inr _ => Ok (c, false)
    | inl port =>
        let self := mkHostInfo (SetPort e (u16 port)) (data_plane_listeners (co_self c)) in
        let c := with_server c self (Some port) (co_serving c) in
        do* dcheck (Control_invariant c);
        do* dcheck (HostInfo_IsValid (co_self c));
        Ok (with_server c self (Some port) true, true)
    end.

(** The destructor. *)
Definition Control_destroy (c : Control) : Control :=
  if bool_decide (is_Some (co_server c)) then with_server c (co_self c) None (co_serving c) else c.

(** The processes, by the endpoint they listen at. *)
Abbreviation World := (gmap Endpoint Control).

(** What happens to one call: it is refused before it reaches the server, its answer is lost,
    or it succeeds. *)
Inductive Link : Type := Refused (e : StatusCode) | ReplyLost (e : StatusCode) | Delivered.
#[export] Instance Link_eq_dec : EqDecision Link.
Proof. solve_decision. Defined.

Section Text.
Context `{NetText}.

(** * Server side *)

Definition handleHostInfoExchange (c : Control) (req : proto_HostInfo) (resp : proto_HostInfo)
    : res (Control * proto_HostInfo * absl_Status) :=
  let '(peer_info, ok) := Deserialize_HostInfo req HostInfo_default in
  if negb ok then Ok (c, resp, Some Internal)
  else
    do* dcheck (HostInfo_IsValid peer_info);
    let peer := control_plane_listener peer_info in
    do* dcheck (HasNonzeroIpPort peer);
    let c := with_hosts c (<[peer := peer_info]> (co_hosts c)) in
    do* dcheck (HostInfo_IsValid (co_self c));
    let* '(resp, ok) := Serialize_HostInfo (co_self c) resp in
    if negb ok then Ok (c, resp, Some Internal) else Ok (c, resp, None).

Definition handlePspTokenExchange (c : Control) (req : proto_PspTcpReq) (resp : proto_PspTcpResp)
    : res (proto_PspTcpResp * absl_Status) :=
  let '(peer_token, self_target, ok) := Deserialize_PspTcpReq req (mkPspToken 0 0 (replicate kPspKeyLen 0)) Endpoint_default in
  if negb ok then Ok (resp, Some InvalidArgument)
  else
    do* dcheck (PspToken_IsValid peer_token);
    do* dcheck (HasNonzeroIpPort self_target);
    match co_psp_handler c with
    | None => Ok (resp, Some Unimplemented)
    | Some handler =>
        match handler peer_token self_target with
        | inr status => Ok (resp, Some status)
        | inl self_token =>
            if negb (PspToken_IsValid self_token) then Ok (resp, Some Internal)
            else
              let '(resp, ok) := Serialize_PspTcpResp self_token resp in
              Ok (resp, if negb ok then Some Internal else None)
        end
    end.

Definition handleRdmaConnect (c : Control) (req : proto_RdmaConnReq) (resp : proto_RdmaConnResp)
    : res (Control * proto_RdmaConnResp * absl_Status) :=
  match co_rdma_handler c with
  | None => Ok (c, resp, Some Unimplemented)
  | Some handler =>
      let* '(obj, resp, s) := rh_call handler (rh_obj handler) req resp in
      Ok (SetRdmaConnHandler c (Some (mkRdmaConnHandler obj (rh_call handler))), resp, s)
  end.

(** [None] for a null response. *)
Definition handleAllRequest (c : Control) (req : proto_ReqMsg) (resp : option proto_RespMsg)
    : res (Control * option proto_RespMsg * absl_Status) :=
  if negb (co_serving c) then Ok (c, resp, Some Unavailable)
  else match resp with
  | None => Ok (c, resp, Some InvalidArgument)
  | Some resp =>
      let c := with_received c (u64 (co_received c + 1)) in
      match req with
      | kHostInfo req =>
          let* '(c, r, s) := handleHostInfoExchange c req (mutable_host_info resp) in
          Ok (c, Some (kHostInfoResp r), s)
      | kPspTcpReq req =>
          let* '(r, s) := handlePspTokenExchange c req (mutable_psp_tcp_resp resp) in
          Ok (c, Some (kPspTcpResp r), s)
      | kRdmaConnReq req =>
          let* '(c, r, s) := handleRdmaConnect c req (mutable_rdma_conn_resp resp) in
          Ok (c, Some (kRdmaConnResp r), s)
      | _ => Ok (c, Some resp, Some Unimplemented)
      end
  end.

(** [GrpcServer::ProcessUnary], as the library calls it: no argument is null. *)
Definition ProcessUnary (c : Control) (req : proto_ReqMsg) (resp : proto_RespMsg)
    : res (Control * option proto_RespMsg * absl_Status) :=
  do* dcheck (bool_decide (is_Some (co_server c)));
  handleAllRequest c req (Some resp).

(** * The wire *)

Definition SendUnary (link : Link) (w : World) (peer : Endpoint) (req : proto_ReqMsg) : res (World * StatusOr proto_RespMsg) :=
  match link, w !! peer with
  | Refused e, _ => Ok (w, inr e)
  | _, None => Ok (w, inr Unavailable)
  | _, Some server =>
      let* '(server, resp, s) := ProcessUnary server req RESP_NOT_SET in
      let w := <[peer := server]> w in
      match link, s with
      | ReplyLost e, _ => Ok (w, inr e)
      | _, Some e => Ok (w, inr e)
      | _, None => Ok (w, inl (default RESP_NOT_SET resp))
      end
  end.

(** * Client side: [a] is the endpoint of the calling process *)

Definition getOrCreateClient (w : World) (a peer : Endpoint) : res World :=
  let* c := at_or BadPointer (w !! a) in
  do* dcheck (Control_invariant c);
  Ok (<[a := with_clients c ({[peer]} ∪ co_clients c)]> w).

Definition sendRequest (link : Link) (w : World) (a peer : Endpoint) (req : proto_ReqMsg)
    : res (World * StatusOr proto_RespMsg) :=
  let* c := at_or BadPointer (w !! a) in
  do* dcheck (Control_invariant c);
  let* w := getOrCreateClient w a peer in
  SendUnary link w peer req.

Definition GetPeerHostInfo (link : Link) (w : World) (a peer : Endpoint) : res (World * StatusOr HostInfo) :=
  let* c := at_or BadPointer (w !! a) in
  if negb (HasNonzeroIpPort peer) then Ok (w, inr InvalidArgument)
  else match co_hosts c !! peer with
  | Some info => Ok (w, inl info)
  | None =>
      let* '(self, ok) := Serialize_HostInfo (co_self c) PHostInfo_new in
      if negb ok then Ok (w, inr Internal)
      else
        let* '(w, resp) := sendRequest link w a peer (kHostInfo self) in
        match resp with
        | inr e => Ok (w, inr e)
        | inl (kHostInfoResp h) =>
            let '(peer_info, ok) := Deserialize_HostInfo h HostInfo_default in
            if negb ok then Ok (w, inr Internal)
            else
              do* dcheck (HostInfo_IsValid peer_info);
              do* dcheck (Endpoint_eqb (control_plane_listener peer_info) peer);
              let* c := at_or BadPointer (w !! a) in
              Ok (<[a := with_hosts c (<[peer := peer_info]> (co_hosts c))]> w, inl peer_info)
        | inl _ => Ok (w, inr Internal)
        end
  end.

Definition ExchangePspTokens (link : Link) (w : World) (a : Endpoint) (self_token : PspToken) (peer_target peer : Endpoint)
    : res (World * StatusOr PspToken) :=
  if negb (HasNonzeroIpPort peer) then Ok (w, inr InvalidArgument)
  else if negb (HasNonzeroIpPort peer_target) then Ok (w, inr InvalidArgument)
  else if negb (PspToken_IsValid self_token) then Ok (w, inr InvalidArgument)
  else
    let '(req, ok) := Serialize_PspTcpReq self_token peer_target (mkPPspTcpReq None None) in
    if negb ok then Ok (w, inr Internal)
    else
      let* '(w, resp) := sendRequest link w a peer (kPspTcpReq req) in
      match resp with
      | inr e => Ok (w, inr e)
      | inl (kPspTcpResp r) =>
          let '(peer_token, ok) := Deserialize_PspTcpResp r (mkPspToken 0 0 (replicate kPspKeyLen 0)) in
          if negb ok then Ok (w, inr Internal)
          else do* dcheck (PspToken_IsValid peer_token); Ok (w, inl peer_token)
      | inl _ => Ok (w, inr Internal)
      end.

Definition kGidSize : nat := 16.
Definition ConnectRdmaPeer (link : Link) (w : World) (a peer : Endpoint) (device_name : str) (qpn : Z) (gid : bytes)
    (psn rkey : Z) : res (World * StatusOr proto_RdmaConnResp) :=
  if negb (HasNonzeroIpPort peer) then Ok (w, inr InvalidArgument)
  else if negb (Nat.eqb (length gid) kGidSize) then Ok (w, inr InvalidArgument)
  else
    let req := mkPRdmaConnReq None (Some device_name) (Some qpn) (Some gid) (Some psn)
                 (if negb (rkey =? 0) then Some rkey else None) in
    let* '(w, resp) := sendRequest link w a peer (kRdmaConnReq req) in
    match resp with
    | inr e => Ok (w, inr e)
    | inl (kRdmaConnResp r) => Ok (w, inl r)
    | inl _ => Ok (w, inr Internal)
    end.
End Text.

(** * Well-formed processes and coherent worlds *)

(** The handler answers every request and keeps the invariant of its object. *)
Definition handler_safe (h : RdmaConnHandler) : Prop := obj_inv (rh_obj h) ∧
  ∀ o req resp, obj_inv o → ∃ o' r s, rh_call h o req resp = Ok (o', r, s) ∧ obj_inv o'.

(** A process that serves at [e]: what it caches is valid and filed under its own endpoint. *)
Record ctrl_ok (e : Endpoint) (c : Control) : Prop := {
  ck_self : control_plane_listener (co_self c) = e;
  ck_valid : HostInfo_IsValid (co_self c) = true;
  ck_wf : host_wf (co_self c);
  ck_config : Config_IsValid (co_config c) = true;
  ck_creds : has_client_creds (co_creds c) = true;
  ck_server : is_Some (co_server c);
  ck_serving : co_serving c = true;
  ck_hosts : map_Forall (λ p h, control_plane_listener h = p ∧ HostInfo_IsValid h = true ∧ host_wf h) (co_hosts c);
  ck_handler : ∀ h, co_rdma_handler c = Some h → handler_safe h;
}.

(** Every cached entry is the host information of the process it is about. *)
Definition coherent (w : World) : Prop := ∀ e c, w !! e = Some c →
  ctrl_ok e c ∧ ∀ p h, co_hosts c !! p = Some h → ∃ c', w !! p = Some c' ∧ co_self c' = h.

(** Operations do not change who the processes are. *)
Definition same_selves (w w' : World) : Prop := ∀ e, co_self <$> w' !! e = co_self <$> w !! e.

Lemma same_selves_refl w : same_selves w w.
Proof. done. Qed.
Lemma same_selves_trans w1 w2 w3 : same_selves w1 w2 → same_selves w2 w3 → same_selves w1 w3.
Proof. intros H1 H2 e. by rewrite H2. Qed.
Lemma same_selves_insert w e c c' : w !! e = Some c → co_self c' = co_self c → same_selves w (<[e := c']> w).
Proof.
  intros Hc Hs x. destruct (decide (x = e)) as [->|]; [rewrite lookup_insert_eq, Hc; cbn; by rewrite Hs|].
  by rewrite lookup_insert_ne.
Qed.
Lemma same_selves_some w w' e c : same_selves w w' → w !! e = Some c → ∃ c', w' !! e = Some c' ∧ co_self c' = co_self c.
Proof. intros Hs Hc. specialize (Hs e). rewrite Hc in Hs. destruct (w' !! e) as [c'|]; [|done]. injection Hs. eauto. Qed.

Lemma ctrl_ok_same e c c' : ctrl_ok e c → co_self c' = co_self c → co_config c' = co_config c → co_creds c' = co_creds c →
  co_server c' = co_server c → co_serving c' = co_serving c → co_hosts c' = co_hosts c →
  (∀ h, co_rdma_handler c' = Some h → handler_safe h) → ctrl_ok e c'.
Proof. intros [] E1 E2 E3 E4 E5 E6 Hh. split; rewrite ?E1, ?E2, ?E3, ?E4, ?E5, ?E6; done. Qed.

(** Updating one process with entries that are about processes of the world. *)
Lemma coherent_insert w e c c' : coherent w → w !! e = Some c → co_self c' = co_self c → ctrl_ok e c' →
  (∀ p h, co_hosts c' !! p = Some h → co_hosts c !! p = Some h ∨ co_self <$> w !! p = Some h) →
  coherent (<[e := c']> w).
Proof.
  intros Hw Hc Hs Hok Hh x y Hx. pose proof (same_selves_insert w e c c' Hc Hs) as Hss.
  assert (ctrl_ok x y ∧ ∀ p h, co_hosts y !! p = Some h → ∃ z, w !! p = Some z ∧ co_self z = h) as [Hy Hyh].
  { destruct (decide (x = e)) as [->|Hne].
    - rewrite lookup_insert_eq in Hx. injection Hx as <-. split; [done|]. intros p h [Hp|Hp]%Hh.
      + destruct (Hw e c Hc) as [_ Hw']. by apply Hw'.
      + apply fmap_Some in Hp as (z & Hz & ->). eauto.
    - rewrite lookup_insert_ne in Hx by done. by apply Hw. }
  split; [done|]. intros p h Hp. destruct (Hyh p h Hp) as (z & Hz & <-). by apply (same_selves_some w).
Qed.

Lemma ctrl_ok_invariant e c : ctrl_ok e c → Control_invariant c = true.
Proof.
  intros [Hs Hv Hwf Hc Hcr Hse _ _ _]. unfold Control_invariant. rewrite Hc, Hcr, bool_decide_eq_true_2 by done.
  apply HostInfo_IsValid_spec in Hv as [-> _]. done.
Qed.

Section Proofs.
Context `{T : NetText} `{!NetTextLaws T}.

(** ** Handlers *)

(** The handler of a host information exchange, on any message. *)
Lemma handleHostInfo_ok e c req : ctrl_ok e c →
  ∃ c' r s, handleHostInfoExchange c req PHostInfo_new = Ok (c', r, s) ∧ ctrl_ok e c' ∧ co_self c' = co_self c ∧
    match s with
    | None => ∃ h, Deserialize_HostInfo req HostInfo_default = (h, true) ∧
        c' = with_hosts c (<[control_plane_listener h := h]> (co_hosts c)) ∧ r = proto_of_host (co_self c)
    | Some _ => c' = c ∧ (Deserialize_HostInfo req HostInfo_default).2 = false
    end.
Proof.
  intros Hok. unfold handleHostInfoExchange.
  destruct (Deserialize_HostInfo req HostInfo_default) as [h []] eqn:Ed; cbn [negb]; [|by eexists c, _, _].
  destruct (Deserialize_HostInfo_sound _ _ _ Ed) as [Hwf Hv]. rewrite bind_dcheck by done.
  pose proof Hv as (Hn & _)%HostInfo_IsValid_spec. rewrite bind_dcheck by done.
  rewrite bind_dcheck by (cbn; apply Hok). cbn [with_hosts co_self].
  rewrite Serialize_HostInfo_ok, bind_Ok by apply Hok. cbn [negb].
  eexists _, _, None. split; [done|]. split; [|split; [done|by exists h]].
  destruct Hok; split; try done. cbn. apply map_Forall_insert_2; [by split_and!|done].
Qed.

Lemma Deserialize_PspTcpReq_sound p t0 e0 t e : Deserialize_PspTcpReq p t0 e0 = (t, e, true) →
  PspToken_IsValid t = true ∧ HasNonzeroIpPort e = true.
Proof.
  intros E. destruct (psp_messages (mkPspToken 0 0 (replicate kPspKeyLen 0)) Endpoint_default
    (mkPPspTcpReq None None) (mkPPspTcpResp None) t0 e0) as (_ & _ & Hs).
  - apply (bool_decide_eq_true _). vm_compute. reflexivity.
  - done.
  - destruct (Hs p t e E) as (Hz & _ & _ & Hn). split; [|done]. unfold PspToken_IsValid. by apply negb_true_iff, Z.eqb_neq.
Qed.

Lemma handlePsp_ok c req : ∃ r s, handlePspTokenExchange c req (mkPPspTcpResp None) = Ok (r, s).
Proof.
  unfold handlePspTokenExchange.
  destruct (Deserialize_PspTcpReq req _ _) as [[t e] []] eqn:Ed; cbn [negb]; [|by eexists _, _].
  destruct (Deserialize_PspTcpReq_sound _ _ _ _ _ Ed) as [Hv Hn]. rewrite !bind_dcheck by done.
  destruct (co_psp_handler c) as [f|]; [|by eexists _, _]. destruct (f t e) as [t'|]; [|by eexists _, _].
  destruct (negb (PspToken_IsValid t')); [by eexists _, _|].
  destruct (Serialize_PspTcpResp t' _) as [r ok]. by eexists _, _.
Qed.

Lemma received_ok e c n : ctrl_ok e c → ctrl_ok e (with_received c n).
Proof. intros Hok. eapply ctrl_ok_same; try done. apply Hok. Qed.

(** Any message whatsoever: the handler answers, and what it stores is well-formed. *)
Lemma handleAll_ok e c req : ctrl_ok e c →
  ∃ c' r s, handleAllRequest c req (Some RESP_NOT_SET) = Ok (c', Some r, s) ∧ ctrl_ok e c' ∧ co_self c' = co_self c ∧
    ∀ p h, co_hosts c' !! p = Some h → co_hosts c !! p = Some h ∨
      ∃ m, req = kHostInfo m ∧ Deserialize_HostInfo m HostInfo_default = (h, true) ∧ control_plane_listener h = p.
Proof.
  intros Hok. unfold handleAllRequest. rewrite (ck_serving _ _ Hok). cbn [negb].
  pose proof (received_ok e c (u64 (co_received c + 1)) Hok) as Hok'.
  destruct req as [|m|p|p|r].
  - eexists _, _, _. split; [done|]. by auto.
  - destruct (handleHostInfo_ok e _ m Hok') as (c' & r & s & E & Hc' & Hs & Hspec). cbn [mutable_host_info]. rewrite E, bind_Ok.
    eexists c', _, s. split; [done|]. split; [done|]. split; [done|]. intros p h Hp. destruct s as [err|].
    + destruct Hspec as [-> _]. by left.
    + destruct Hspec as (h' & Ed & -> & _). cbn in Hp. apply lookup_insert_Some in Hp as [[<- <-]|[_ Hp]]; [|by left].
      right. by exists m.
  - eexists _, _, _. split; [done|]. by auto.
  - destruct (handlePsp_ok (with_received c (u64 (co_received c + 1))) p) as (r & s & E). cbn [mutable_psp_tcp_resp].
    rewrite E, bind_Ok. eexists _, _, _. split; [done|]. by auto.
  - unfold handleRdmaConnect. destruct (co_rdma_handler _) as [f|] eqn:Ef.
    2:{ rewrite bind_Ok. eexists _, _, _. split; [done|]. by auto. }
    destruct (ck_handler _ _ Hok' f Ef) as [Hi Hsafe]. destruct (Hsafe _ r (mutable_rdma_conn_resp RESP_NOT_SET) Hi) as (o & r' & s & -> & Ho).
    rewrite !bind_Ok. eexists _, _, _. split; [done|]. split; [|by auto]. eapply ctrl_ok_same; try done. by intros h [= <-].
Qed.

(** ** Calls *)

(** A host information message is about a process of the world. *)
Definition req_ok (w : World) (req : proto_ReqMsg) : Prop := ∀ m h,
  req = kHostInfo m → Deserialize_HostInfo m HostInfo_default = (h, true) →
  co_self <$> w !! control_plane_listener h = Some h.

(** The world after the caller has a client for the peer. *)
Definition with_client (w : World) (a peer : Endpoint) (ca : Control) : World :=
  <[a := with_clients ca ({[peer]} ∪ co_clients ca)]> w.

Lemma with_client_ok w a peer ca : coherent w → w !! a = Some ca →
  coherent (with_client w a peer ca) ∧ same_selves w (with_client w a peer ca).
Proof.
  intros Hw Ha. split; [|by eapply same_selves_insert]. eapply coherent_insert; [done..| |].
  - destruct (Hw a ca Ha) as [Hok _]. eapply ctrl_ok_same; try done. apply Hok.
  - by left.
Qed.

Lemma getOrCreateClient_ok w a peer ca : coherent w → w !! a = Some ca →
  getOrCreateClient w a peer = Ok (with_client w a peer ca).
Proof.
  intros Hw Ha. unfold getOrCreateClient. rewrite Ha. cbn [at_or]. rewrite bind_Ok, bind_dcheck; [done|].
  by eapply ctrl_ok_invariant, Hw.
Qed.

(** The outcome of one call. *)
Definition call_spec (link : Link) (w1 : World) (peer : Endpoint) (req : proto_ReqMsg) (w' : World)
    (r : StatusOr proto_RespMsg) : Prop :=
  match w1 !! peer with
  | Some cb => ∃ cb' resp s, handleAllRequest cb req (Some RESP_NOT_SET) = Ok (cb', Some resp, s) ∧
      match link with
      | Refused e => w' = w1 ∧ r = inr e
      | ReplyLost e => w' = <[peer := cb']> w1 ∧ r = inr e
      | Delivered => w' = <[peer := cb']> w1 ∧ r = match s with None => inl resp | Some e => inr e end
      end
  | None => w' = w1 ∧ ∃ e, r = inr e
  end.

Lemma sendRequest_ok link w a peer req ca : coherent w → w !! a = Some ca → req_ok w req →
  ∃ w' r, sendRequest link w a peer req = Ok (w', r) ∧ coherent w' ∧ same_selves w w' ∧
    call_spec link (with_client w a peer ca) peer req w' r.
Proof.
  intros Hw Ha Hreq. unfold sendRequest. rewrite Ha. cbn [at_or]. rewrite bind_Ok.
  rewrite bind_dcheck by by eapply ctrl_ok_invariant, Hw.
  rewrite (getOrCreateClient_ok w a peer ca), bind_Ok by done.
  destruct (with_client_ok w a peer ca Hw Ha) as [Hw1 Hs1]. set (w1 := with_client w a peer ca) in *.
  unfold SendUnary, call_spec. destruct (w1 !! peer) as [cb|] eqn:Hb.
  2:{ destruct link; eexists w1, _; split_and!; try done; eauto. }
  destruct (Hw1 peer cb Hb) as [Hcb _]. destruct (handleAll_ok peer cb req Hcb) as (cb' & resp & s & E & Hok' & Hself & Hh).
  assert (coherent (<[peer := cb']> w1) ∧ same_selves w (<[peer := cb']> w1)) as [Hw2 Hs2].
  { split; [|eapply same_selves_trans; [done|]; by eapply same_selves_insert].
    eapply coherent_insert; [done..|]. intros p h [Hp|(m & -> & Ed & <-)]%Hh; [by left|]. right.
    rewrite Hs1. by eapply Hreq. }
  unfold ProcessUnary. rewrite bind_dcheck, E by (apply bool_decide_eq_true_2, Hcb).
  destruct link as [e|e|]; rewrite ?bind_Ok.
  - eexists w1, _. split_and!; try done. eauto 10.
  - eexists _, _. split; [done|]. split_and!; try done. eauto 10.
  - destruct s as [e|]; (eexists _, _; split; [done|]); split_and!; try done; eauto 10.
Qed.

(** Asking a peer for its host information. *)
Lemma self_req_ok w a ca : coherent w → w !! a = Some ca → req_ok w (kHostInfo (proto_of_host (co_self ca))).
Proof.
  intros Hw Ha m h [= <-] Ed. destruct (Hw a ca Ha) as [[Hs Hv Hwf _ _ _ _ _ _] _].
  rewrite Deserialize_HostInfo_ok in Ed by done. injection Ed as <-. by rewrite Hs, Ha.
Qed.

(** How the peer answers a host information message. *)
Lemma handle_self_info a ca peer cb cb' resp s : ctrl_ok a ca → ctrl_ok peer cb →
  handleAllRequest cb (kHostInfo (proto_of_host (co_self ca))) (Some RESP_NOT_SET) = Ok (cb', Some resp, s) →
  resp = kHostInfoResp (proto_of_host (co_self cb)) ∧ s = None ∧
  cb' = with_hosts (with_received cb (u64 (co_received cb + 1))) (<[a := co_self ca]> (co_hosts cb)).
Proof.
  intros Hca Hcb E. unfold handleAllRequest in E. rewrite (ck_serving _ _ Hcb) in E. cbn [negb mutable_host_info] in E.
  destruct (handleHostInfo_ok peer _ (proto_of_host (co_self ca)) (received_ok _ _ (u64 (co_received cb + 1)) Hcb))
    as (c2 & r2 & s2 & E2 & _ & _ & Hspec). rewrite E2, bind_Ok in E. injection E as <- <- <-.
  rewrite Deserialize_HostInfo_ok in Hspec by apply Hca. destruct s2 as [e|]; [by destruct Hspec|].
  destruct Hspec as (h & [= <-] & -> & ->). by rewrite (ck_self _ _ Hca).
Qed.

(** Storing what the peer answered. *)
Lemma store_ok w a ca peer cb : coherent w → w !! a = Some ca → w !! peer = Some cb →
  let w' := <[a := with_hosts ca (<[peer := co_self cb]> (co_hosts ca))]> w in coherent w' ∧ same_selves w w'.
Proof.
  intros Hw Ha Hb. split; [|by eapply same_selves_insert]. eapply coherent_insert; [done..| |].
  - destruct (Hw a ca Ha) as [[] _], (Hw peer cb Hb) as [[] _]. split; try done. cbn.
    apply map_Forall_insert_2; [by split_and!|done].
  - cbn. intros p h [[<- <-]|[_ Hold]]%lookup_insert_Some; [|by left]. right. by rewrite Hb.
Qed.

Lemma GetPeerHostInfo_ok link w a peer ca : coherent w → w !! a = Some ca →
  ∃ w' r, GetPeerHostInfo link w a peer = Ok (w', r) ∧ coherent w' ∧ same_selves w w' ∧
    (∀ h, r = inl h → co_self <$> w !! peer = Some h ∧
       (∃ ca', w' !! a = Some ca' ∧ co_hosts ca' !! peer = Some h) ∧
       (co_hosts ca !! peer = None → ∃ cb', w' !! peer = Some cb' ∧ co_hosts cb' !! a = Some (co_self ca))) ∧
    (link = Delivered → HasNonzeroIpPort peer = true → is_Some (w !! peer) → ∃ h, r = inl h).
Proof.
  intros Hw Ha. unfold GetPeerHostInfo. rewrite Ha. cbn [at_or]. rewrite bind_Ok.
  destruct (HasNonzeroIpPort peer) eqn:Hp; cbn [negb]; [|by eexists w, _].
  destruct (Hw a ca Ha) as [Hca Hcoh]. destruct (co_hosts ca !! peer) as [h|] eqn:Hh.
  { destruct (Hcoh peer h Hh) as (cb & Hb & Hsb). eexists w, _. split; [done|]. split; [done|]. split; [done|].
    split; [|by eauto]. intros h' [= <-]. split_and!; [by rewrite Hb; cbn; rewrite Hsb|by eauto|done]. }
  rewrite Serialize_HostInfo_ok, bind_Ok by apply Hca. cbn [negb].
  destruct (sendRequest_ok link w a peer _ ca Hw Ha (self_req_ok w a ca Hw Ha)) as (w1 & r & -> & Hw1 & Hs1 & Hcall).
  rewrite bind_Ok. unfold call_spec in Hcall. destruct (with_client w a peer ca !! peer) as [cb|] eqn:Hb.
  2:{ destruct Hcall as (-> & e & ->). eexists _, _. split_and!; try done. intros _ _ [c Hc].
      destruct (same_selves_some _ _ _ _ Hs1 Hc) as (c' & Hc' & _). unfold with_client in Hc', Hb. congruence. }
  destruct Hcall as (cb' & resp & s & E & Hlink).
  destruct (with_client_ok w a peer ca Hw Ha) as [Hwc Hsc]. destruct (Hwc peer cb Hb) as [Hcb _].
  destruct (handle_self_info a ca peer cb cb' resp s Hca Hcb E) as (-> & -> & ->).
  destruct link as [e|e|]; destruct Hlink as [-> ->]; [by eexists _, _..|].
  rewrite Deserialize_HostInfo_ok by apply Hcb. cbn [negb]. rewrite bind_dcheck by apply Hcb.
  rewrite bind_dcheck by (rewrite (ck_self _ _ Hcb); apply Endpoint_eqb_refl).
  destruct (same_selves_some _ _ _ _ Hs1 Ha) as (ca1 & Ha1 & Hsa1). rewrite Ha1. cbn [at_or]. rewrite bind_Ok.
  assert (co_self <$> w !! peer = Some (co_self cb)) as Hpe by (rewrite <- (Hsc peer), Hb; done).
  destruct (store_ok _ a ca1 peer _ Hw1 Ha1 (lookup_insert_eq _ _ _)) as [Hw2 Hs2]. cbn [with_hosts co_self] in Hw2, Hs2.
  eexists _, _. split; [done|]. split; [exact Hw2|]. split; [exact (same_selves_trans _ _ _ Hs1 Hs2)|]. split; [|by eauto].
  intros h [= <-]. split; [done|]. split.
  - rewrite lookup_insert_eq. eexists. split; [done|]. cbn. apply lookup_insert_eq.
  - intros _. destruct (decide (peer = a)) as [->|Hne].
    + rewrite lookup_insert_eq. eexists. split; [done|]. cbn. rewrite lookup_insert_eq.
      rewrite Ha in Hpe. cbn in Hpe. congruence.
    + rewrite lookup_insert_ne, lookup_insert_eq by done. eexists. split; [done|]. cbn. apply lookup_insert_eq.
Qed.

(** The other two calls. *)
Lemma psp_req_ok w p : req_ok w (kPspTcpReq p).
Proof. by intros m h [=]. Qed.
Lemma rdma_req_ok w r : req_ok w (kRdmaConnReq r).
Proof. by intros m h [=]. Qed.

Lemma Deserialize_PspTcpResp_sound r t0 t : Deserialize_PspTcpResp r t0 = (t, true) → PspToken_IsValid t = true.
Proof.
  unfold Deserialize_PspTcpResp, deserialize_PspToken. destruct (pr_psp r) as [p|]; [|by intros [=]].
  destruct (pt_spi p), (pt_gen p), (pt_key p); try by intros [=]. destruct (negb _); [by intros [=]|]. by intros [= <- ->].
Qed.

Lemma ExchangePspTokens_ok link w a tok target peer ca : coherent w → w !! a = Some ca →
  ∃ w' r, ExchangePspTokens link w a tok target peer = Ok (w', r) ∧ coherent w' ∧ same_selves w w'.
Proof.
  intros Hw Ha. unfold ExchangePspTokens. do 3 (destruct (negb _); [by eexists w, _|]).
  destruct (Serialize_PspTcpReq _ _ _) as [req ok]. destruct (negb ok); [by eexists w, _|].
  destruct (sendRequest_ok link w a peer _ ca Hw Ha (psp_req_ok w req)) as (w1 & r & -> & Hw1 & Hs1 & _). rewrite bind_Ok.
  destruct r as [[]|]; try by eexists w1, _. destruct (Deserialize_PspTcpResp _ _) as [t []] eqn:Ed; [|by eexists w1, _].
  cbn [negb]. rewrite bind_dcheck by by eapply Deserialize_PspTcpResp_sound. by eexists w1, _.
Qed.

Lemma ConnectRdmaPeer_ok link w a peer dev qpn gid psn rkey ca : coherent w → w !! a = Some ca →
  ∃ w' r, ConnectRdmaPeer link w a peer dev qpn gid psn rkey = Ok (w', r) ∧ coherent w' ∧ same_selves w w'.
Proof.
  intros Hw Ha. unfold ConnectRdmaPeer. do 2 (destruct (negb _); [by eexists w, _|]).
  edestruct (sendRequest_ok link w a peer) as (w1 & r & -> & Hw1 & Hs1 & _); [done..|apply rdma_req_ok|]. rewrite bind_Ok.
  destruct r as [[]|]; by eexists w1, _.
Qed.

(** ** What a call does to the objects of the handlers *)

Definition same_handler (w w' : World) (e : Endpoint) : Prop := co_rdma_handler <$> w' !! e = co_rdma_handler <$> w !! e.
Lemma same_handler_insert w x c c' : w !! x = Some c → co_rdma_handler c' = co_rdma_handler c →
  ∀ e, same_handler w (<[x := c']> w) e.
Proof.
  intros Hc Hh e. unfold same_handler. destruct (decide (e = x)) as [->|Hne]; [rewrite lookup_insert_eq, Hc; cbn; by rewrite Hh|].
  by rewrite lookup_insert_ne.
Qed.
Lemma same_handler_trans w1 w2 w3 e : same_handler w1 w2 e → same_handler w2 w3 e → same_handler w1 w3 e.
Proof. unfold same_handler. congruence. Qed.

(** A request of another kind leaves the object alone. *)
Lemma handleAll_same_handler c req resp c' r s : (∀ q, req ≠ kRdmaConnReq q) →
  handleAllRequest c req (Some resp) = Ok (c', r, s) → co_rdma_handler c' = co_rdma_handler c.
Proof.
  intros Hreq. unfold handleAllRequest. destruct (negb (co_serving c)); [by intros [= <- _ _]|].
  destruct req as [|m|p|p|q]; try by intros [= <- _ _].
  - intros ([[c1 r1] s1] & E & [= <- _ _])%bind_Ok_inv. unfold handleHostInfoExchange in E.
    destruct (Deserialize_HostInfo m _) as [h []]; cbn [negb] in E; [|by injection E as <- _ _].
    apply bind_Ok_inv in E as (? & _ & E). apply bind_Ok_inv in E as (? & _ & E). apply bind_Ok_inv in E as (? & _ & E).
    apply bind_Ok_inv in E as ([r2 ok] & _ & E). destruct (negb ok); by injection E as <- _ _.
  - by intros ([r1 s1] & _ & [= <- _ _])%bind_Ok_inv.
  - by destruct (Hreq q).
Qed.

Lemma sendRequest_same_handler link w a peer req w' r : (∀ q, req ≠ kRdmaConnReq q) →
  sendRequest link w a peer req = Ok (w', r) → ∀ e, same_handler w w' e.
Proof.
  intros Hreq (ca & Ha%at_or_Ok_inv & E)%bind_Ok_inv e. apply bind_Ok_inv in E as (? & _ & E).
  apply bind_Ok_inv in E as (w1 & E1 & E). unfold getOrCreateClient in E1. rewrite Ha in E1. cbn [at_or] in E1.
  rewrite bind_Ok in E1. apply bind_Ok_inv in E1 as (? & _ & [= <-]).
  set (w1 := <[a := with_clients ca ({[peer]} ∪ co_clients ca)]> w) in *.
  assert (same_handler w w1 e) as S1 by by eapply same_handler_insert. apply (same_handler_trans w w1); [done|].
  unfold SendUnary in E. destruct link as [err|err|]; [by injection E as <- _|..];
    (destruct (w1 !! peer) as [cb|] eqn:Hb; [|by injection E as <- _]);
    apply bind_Ok_inv in E as ([[c1 r1] s1] & Ep & E); unfold ProcessUnary in Ep; apply bind_Ok_inv in Ep as (? & _ & Ep);
    pose proof (handleAll_same_handler _ _ _ _ _ _ Hreq Ep) as Hh; [|destruct s1]; injection E as <- _;
    by eapply same_handler_insert.
Qed.

Lemma GetPeerHostInfo_same_handler link w a peer w' r : GetPeerHostInfo link w a peer = Ok (w', r) → ∀ e, same_handler w w' e.
Proof.
  intros (ca & Ha%at_or_Ok_inv & E)%bind_Ok_inv e. destruct (negb _); [by injection E as <- _|].
  destruct (co_hosts ca !! peer); [by injection E as <- _|]. apply bind_Ok_inv in E as ([m ok] & _ & E).
  destruct (negb ok); [by injection E as <- _|]. apply bind_Ok_inv in E as ([w1 resp] & Es & E).
  assert (same_handler w w1 e) as S1 by (eapply sendRequest_same_handler; [|exact Es]; done).
  destruct resp as [[]|]; try by injection E as <- _. destruct (Deserialize_HostInfo _ _) as [i ok']. destruct (negb ok'); [by injection E as <- _|].
  apply bind_Ok_inv in E as (? & _ & E). apply bind_Ok_inv in E as (? & _ & E).
  apply bind_Ok_inv in E as (c & Hc%at_or_Ok_inv & [= <- _]). apply (same_handler_trans w w1); [done|].
  by apply (same_handler_insert w1 a c).
Qed.

(** A connection request runs the peer's handler on its object, unless it does not arrive. *)
Lemma ConnectRdmaPeer_effect link w a peer dev qpn gid psn rkey ca : coherent w → w !! a = Some ca →
  HasNonzeroIpPort peer = true → length gid = kGidSize →
  ∃ w' r, ConnectRdmaPeer link w a peer dev qpn gid psn rkey = Ok (w', r) ∧ coherent w' ∧ same_selves w w' ∧
    (∀ e, e ≠ peer → same_handler w w' e) ∧
    ((same_handler w w' peer ∧ (∃ e, r = inr e) ∧
      (∀ cb h, w !! peer = Some cb → co_rdma_handler cb = Some h → link ≠ Delivered)) ∨
     ∃ cb h o' resp s, w !! peer = Some cb ∧ co_rdma_handler cb = Some h ∧
       rh_call h (rh_obj h) (mkPRdmaConnReq None (Some dev) (Some qpn) (Some gid) (Some psn)
         (if negb (rkey =? 0) then Some rkey else None)) (mkPRdmaConnResp None None None None) = Ok (o', resp, s) ∧
       co_rdma_handler <$> w' !! peer = Some (Some (mkRdmaConnHandler o' (rh_call h))) ∧
       (link = Delivered → r = match s with None => inl resp | Some e => inr e end) ∧
       (link ≠ Delivered → ∃ e, r = inr e)).
Proof.
  intros Hw Ha Hp Hg. unfold ConnectRdmaPeer. rewrite Hp, (proj2 (Nat.eqb_eq _ _) Hg). cbn [negb].
  edestruct (sendRequest_ok link w a peer) as (w1 & r & -> & Hw1 & Hs1 & Hcall); [done..|apply rdma_req_ok|]. rewrite bind_Ok.
  set (wc := with_client w a peer ca) in *. assert (∀ e, same_handler w wc e) as Hc by by eapply same_handler_insert.
  unfold call_spec in Hcall. destruct (wc !! peer) as [cb|] eqn:Hb.
  2:{ destruct Hcall as (-> & e & ->). eexists wc, _. split_and!; try done. left. split; [done|]. split; [eauto|].
      intros cb h Hcb. specialize (Hc peer). unfold same_handler in Hc. rewrite Hb, Hcb in Hc. done. }
  destruct Hcall as (cb' & resp & s & E & Hlink). destruct (with_client_ok w a peer ca Hw Ha) as [Hwc _].
  destruct (Hwc peer cb Hb) as [Hcb _]. specialize (Hc peer) as Hcp. unfold same_handler in Hcp. rewrite Hb in Hcp. cbn in Hcp.
  assert (∃ c0, w !! peer = Some c0 ∧ co_rdma_handler c0 = co_rdma_handler cb) as (c0 & Hc0 & Hh0).
  { destruct (w !! peer) as [c0|]; [|done]. injection Hcp. eauto. }
  assert (∀ e, e ≠ peer → same_handler w (<[peer := cb']> wc) e) as Hother.
  { intros e Hne. unfold same_handler. rewrite lookup_insert_ne by done. apply Hc. }
  unfold handleAllRequest in E. rewrite (ck_serving _ _ Hcb) in E. cbn [negb mutable_rdma_conn_resp] in E.
  apply bind_Ok_inv in E as ([[c1 r1] s1] & E & [= <- <- <-]). unfold handleRdmaConnect in E. cbn [with_received co_rdma_handler] in E.
  destruct (co_rdma_handler cb) as [h|] eqn:Eh.
  2:{ injection E as <- <- <-. assert (same_handler w (<[peer := with_received cb (u64 (co_received cb + 1))]> wc) peer) as Hsame.
      { unfold same_handler. rewrite lookup_insert_eq, Hc0. cbn. by rewrite Eh, Hh0. }
      destruct link as [e|e|]; destruct Hlink as [-> ->]; eexists _, _; (split; [done|]);
        (split_and!; try done); left; (split; [done|]); (split; [by eauto|]); intros c' h'; rewrite Hc0; intros [= <-]; congruence. }
  apply bind_Ok_inv in E as ([[o' r'] s'] & E & [= <- <- <-]).
  destruct link as [e|e|]; destruct Hlink as [-> ->].
  - eexists _, _. split; [done|]. split_and!; try done. left. split; [apply Hc|]. split; [by eauto|done].
  - eexists _, _. split; [done|]. split_and!; try done. right. exists c0, h, o', r', s'. rewrite lookup_insert_eq.
    split_and!; try done. by eauto.
  - destruct s' as [e|]; (eexists _, _; split; [done|]); (split_and!; try done); right; exists c0, h, o', r';
      eexists; rewrite lookup_insert_eq; split_and!; done.
Qed.

(** ** Worlds *)

(** The worlds that arise: processes are created and started, install their handlers, and
    call each other over links that may fail at any point. *)
Inductive world_reach : World → Prop :=
  | wr_empty : world_reach ∅
  | wr_join w config self creds c0 c port : world_reach w →
      Control_Create config self creds = Ok (Some c0) → Control_Start c0 (Some port) = Ok (c, true) →
      host_wf (co_self c) → w !! control_plane_listener (co_self c) = None →
      world_reach (<[control_plane_listener (co_self c) := c]> w)
  | wr_psp_handler w a c h : world_reach w → w !! a = Some c → world_reach (<[a := SetPspTcpHandler c h]> w)
  | wr_rdma_handler w a c h : world_reach w → w !! a = Some c → (∀ f, h = Some f → handler_safe f) →
      world_reach (<[a := SetRdmaConnHandler c h]> w)
  | wr_host_info w a link peer w' r : world_reach w → GetPeerHostInfo link w a peer = Ok (w', r) → world_reach w'
  | wr_psp w a link tok target peer w' r : world_reach w →
      ExchangePspTokens link w a tok target peer = Ok (w', r) → world_reach w'
  | wr_rdma w a link peer dev qpn gid psn rkey w' r : world_reach w →
      ConnectRdmaPeer link w a peer dev qpn gid psn rkey = Ok (w', r) → world_reach w'.

Lemma started_ok config self creds c0 c port : Control_Create config self creds = Ok (Some c0) →
  Control_Start c0 (Some port) = Ok (c, true) → host_wf (co_self c) →
  ctrl_ok (control_plane_listener (co_self c)) c ∧ co_hosts c = ∅.
Proof.
  intros Hc Hs Hwf. unfold Control_Create in Hc. destruct (HasZeroIpAddr _); [done|].
  destruct (Creds_IsValid creds) eqn:Hcr; cbn [negb] in Hc; [|done].
  apply bind_Ok_inv in Hc as (c1 & Hn & [= <-]). unfold Control_new in Hn.
  apply bind_Ok_inv in Hn as (? & Hcfg%dcheck_Ok_inv & Hn). apply bind_Ok_inv in Hn as (? & _ & Hn).
  apply bind_Ok_inv in Hn as (? & _ & Hn). apply bind_Ok_inv in Hn as (? & Hcl%dcheck_Ok_inv & [= <-]).
  unfold Control_Start in Hs. cbn [co_server] in Hs. rewrite bool_decide_eq_false_2 in Hs by (by intros [? [=]]).
  apply bind_Ok_inv in Hs as (? & _ & Hs). apply bind_Ok_inv in Hs as (server & _ & Hs).
  destruct server as [p|]; [|done]. apply bind_Ok_inv in Hs as (? & _ & Hs).
  apply bind_Ok_inv in Hs as (? & Hv%dcheck_Ok_inv & [= <-]). split; [|done]. split; try done.
Qed.

Lemma coherent_join w e c : coherent w → ctrl_ok e c → co_hosts c = ∅ → w !! e = None → coherent (<[e := c]> w).
Proof.
  intros Hw Hok Hh Hn x y Hx. destruct (decide (x = e)) as [->|Hne].
  - rewrite lookup_insert_eq in Hx. injection Hx as <-. split; [done|]. intros p h. by rewrite Hh, lookup_empty.
  - rewrite lookup_insert_ne in Hx by done. destruct (Hw x y Hx) as [Hy Hyh]. split; [done|].
    intros p h Hp. destruct (Hyh p h Hp) as (z & Hz & <-). exists z. split; [|done].
    rewrite lookup_insert_ne; [done|]. congruence.
Qed.

Lemma at_caller {A} (w : World) a (f : Control → res A) x : (let* c := at_or BadPointer (w !! a) in f c) = Ok x →
  ∃ c, w !! a = Some c.
Proof. intros (c & Hc%at_or_Ok_inv & _)%bind_Ok_inv. eauto. Qed.

Lemma sendRequest_caller link w a peer req x : sendRequest link w a peer req = Ok x → ∃ c, w !! a = Some c.
Proof. apply at_caller. Qed.

Lemma world_coherent w : world_reach w → coherent w.
Proof.
  induction 1 as [|w config self creds c0 c port _ IH Hc Hs Hwf Hn|w a c h _ IH Ha|w a c h _ IH Ha Hf
    |w a link peer w' r _ IH E|w a link tok target peer w' r _ IH E|w a link peer dev qpn gid psn rkey w' r _ IH E].
  - by intros e c ?.
  - destruct (started_ok _ _ _ _ _ _ Hc Hs Hwf) as [Hok Hh]. by apply coherent_join.
  - eapply coherent_insert; [done..| |by left]. destruct (IH a c Ha) as [Hok _]. eapply ctrl_ok_same; try done. apply Hok.
  - eapply coherent_insert; [done..| |by left]. destruct (IH a c Ha) as [Hok _]. by eapply ctrl_ok_same.
  - destruct (at_caller _ _ _ _ E) as [ca Ha].
    destruct (GetPeerHostInfo_ok link w a peer ca IH Ha) as (w1 & r1 & E1 & Hw1 & _). rewrite E in E1. by injection E1 as -> ->.
  - destruct (w !! a) as [ca|] eqn:Ha.
    + destruct (ExchangePspTokens_ok link w a tok target peer ca IH Ha) as (w1 & r1 & E1 & Hw1 & _).
      rewrite E in E1. by injection E1 as -> ->.
    + unfold ExchangePspTokens in E. do 3 (destruct (negb _); [by injection E as <- _|]).
      destruct (Serialize_PspTcpReq _ _ _) as [req ok]. destruct (negb ok); [by injection E as <- _|].
      apply bind_Ok_inv in E as (x & Es & _). apply sendRequest_caller in Es as [c ?]. congruence.
  - destruct (w !! a) as [ca|] eqn:Ha.
    + destruct (ConnectRdmaPeer_ok link w a peer dev qpn gid psn rkey ca IH Ha) as (w1 & r1 & E1 & Hw1 & _).
      rewrite E in E1. by injection E1 as -> ->.
    + unfold ConnectRdmaPeer in E. do 2 (destruct (negb _); [by injection E as <- _|]).
      apply bind_Ok_inv in E as (x & Es & _). apply sendRequest_caller in Es as [c ?]. congruence.
Qed.

(** The answer of the peer's PSP handler. *)
Definition psp_answer (cb : Control) (tok : PspToken) (target : Endpoint) : StatusOr PspToken :=
  match co_psp_handler cb with
  | None => inr Unimplemented
  | Some f => match f tok target with inl t => if PspToken_IsValid t then inl t else inr Internal | inr e => inr e end
  end.

(** Keys are arrays of 16 bytes. *)
Definition handler_ok (cb : Control) : Prop := ∀ f t e t', co_psp_handler cb = Some f → f t e = inl t' →
  length (psp_key t') = kPspKeyLen.

Lemma handle_psp cb p tok target : Deserialize_PspTcpReq p (mkPspToken 0 0 (replicate kPspKeyLen 0)) Endpoint_default
    = (tok, target, true) → handler_ok cb →
  ∃ r s, handlePspTokenExchange cb p (mkPPspTcpResp None) = Ok (r, s) ∧
    match s with
    | Some e => psp_answer cb tok target = inr e
    | None => ∃ t, psp_answer cb tok target = inl t ∧ ∀ t0, Deserialize_PspTcpResp r t0 = (t, true)
    end.
Proof.
  intros Ed Hh. unfold handlePspTokenExchange, psp_answer. rewrite Ed. cbn [negb].
  destruct (Deserialize_PspTcpReq_sound _ _ _ _ _ Ed) as [Hv Hn]. rewrite !bind_dcheck by done.
  destruct (co_psp_handler cb) as [f|] eqn:Ef; [|by eexists _, _].
  destruct (f tok target) as [t|e] eqn:Et; [|by eexists _, _].
  destruct (PspToken_IsValid t) eqn:Hvt; cbn [negb]; [|by eexists _, _].
  pose proof (λ t0, psp_messages t Endpoint_default (mkPPspTcpReq None None) (mkPPspTcpResp None) t0 Endpoint_default
    ltac:(apply (bool_decide_eq_true _); vm_compute; reflexivity) (Hh f tok target t Ef Et)) as Hm.
  destruct (Serialize_PspTcpResp t (mkPPspTcpResp None)) as [r ok] eqn:Es.
  destruct (Hm t) as (_ & [Hok _] & _). rewrite Hvt in Hok. subst ok. cbn [negb].
  eexists _, _. split; [done|]. exists t. split; [done|]. intros t0. destruct (Hm t0) as (_ & [_ Hr] & _). by apply Hr.
Qed.

Lemma with_client_lookup w a peer ca cb : w !! a = Some ca → w !! peer = Some cb →
  ∃ cb1, with_client w a peer ca !! peer = Some cb1 ∧ co_psp_handler cb1 = co_psp_handler cb.
Proof.
  intros Ha Hb. unfold with_client. destruct (decide (peer = a)) as [->|Hne].
  - rewrite lookup_insert_eq. eexists. split; [done|]. cbn. congruence.
  - rewrite lookup_insert_ne by done. eauto.
Qed.

Lemma psp_exchange_ok w a peer tok target ca cb : coherent w → w !! a = Some ca → w !! peer = Some cb →
  HasNonzeroIpPort peer = true → HasNonzeroIpPort target = true → endpoint_wf target →
  PspToken_IsValid tok = true → length (psp_key tok) = kPspKeyLen → handler_ok cb →
  ∃ w', ExchangePspTokens Delivered w a tok target peer = Ok (w', psp_answer cb tok target).
Proof.
  intros Hw Ha Hb Hp Hn Hwf Hv Hk Hh. unfold ExchangePspTokens. rewrite Hp, Hn, Hv. cbn [negb].
  destruct (psp_messages tok target (mkPPspTcpReq None None) (mkPPspTcpResp None)
    (mkPspToken 0 0 (replicate kPspKeyLen 0)) Endpoint_default Hwf Hk) as (Hreq & _ & _).
  destruct (Serialize_PspTcpReq tok target _) as [req ok] eqn:Es. rewrite Hv, Hn in Hreq. destruct Hreq as [-> Hd].
  specialize (Hd eq_refl). cbn [negb andb].
  destruct (sendRequest_ok Delivered w a peer _ ca Hw Ha (psp_req_ok w req)) as (w1 & r & -> & Hw1 & Hs1 & Hcall).
  rewrite bind_Ok. destruct (with_client_lookup w a peer ca cb Ha Hb) as (cb1 & Hb1 & Hhand).
  unfold call_spec in Hcall. rewrite Hb1 in Hcall. destruct Hcall as (cb' & resp & s & E & -> & ->).
  destruct (with_client_ok w a peer ca Hw Ha) as [Hwc _]. destruct (Hwc peer cb1 Hb1) as [Hcb _].
  unfold handleAllRequest in E. rewrite (ck_serving _ _ Hcb) in E. cbn [negb mutable_psp_tcp_resp] in E.
  destruct (handle_psp (with_received cb1 (u64 (co_received cb1 + 1))) req tok target Hd) as (r & s1 & E1 & Hs).
  { intros f t e t'. cbn. rewrite Hhand. apply Hh. }
  rewrite E1, bind_Ok in E. injection E as <- <- <-.
  assert (psp_answer (with_received cb1 (u64 (co_received cb1 + 1))) tok target = psp_answer cb tok target) as Ha1
    by (unfold psp_answer; cbn; by rewrite Hhand).
  rewrite Ha1 in Hs. destruct s1 as [e|]; [rewrite Hs; by eexists|]. destruct Hs as (t & -> & Ht).
  rewrite Ht. cbn [negb]. rewrite bind_dcheck by exact (Deserialize_PspTcpResp_sound _ _ _ (Ht tok)). by eexists.
Qed.
End Proofs.

(** * Properties *)

Section Properties.
Context `{T : NetText} `{!NetTextLaws T}.

(** C18: No message can break the control plane.  On every request message at all, of any kind and
    with any content, the handler of a serving process returns a status without failing an
    assertion; the process stays well-formed, and an entry the call adds to its cache is valid
    host information filed under the control endpoint it names. *)
Theorem Control_handler_total (e : Endpoint) (c : Control) (req : proto_ReqMsg) : ctrl_ok e c →
  ∃ c' r s, handleAllRequest c req (Some RESP_NOT_SET) = Ok (c', Some r, s) ∧ ctrl_ok e c' ∧ co_self c' = co_self c ∧
    ∀ p h, co_hosts c' !! p = Some h → co_hosts c !! p = Some h ∨
      (control_plane_listener h = p ∧ HostInfo_IsValid h = true ∧ host_wf h).
Proof.
  intros Hok. destruct (handleAll_ok e c req Hok) as (c' & r & s & E & Hok' & Hs & Hh).
  exists c', r, s. split_and!; try done. intros p h Hp. right. exact (ck_hosts _ _ Hok' p h Hp).
Qed.

(** C17: Host information is exchanged both ways and never goes wrong.  In every world of processes
    that started and called each other over failing links, each cached entry is the host
    information of the process it is about.  [GetPeerHostInfo] returns without failing an
    assertion; if it returns host information, it is the peer's own; the caller
    then answers the same question from its cache whatever the link does, and if the
    call went over the wire the peer has cached the caller in turn; and a call that is
    delivered to a running peer succeeds. *)
Theorem Control_host_info_coherent (w : World) (link : Link) (a peer : Endpoint) (ca : Control) :
  world_reach w → w !! a = Some ca →
  ∃ w' r, GetPeerHostInfo link w a peer = Ok (w', r) ∧
    (∀ e c p h, w' !! e = Some c → co_hosts c !! p = Some h → co_self <$> w !! p = Some h) ∧
    (∀ h, r = inl h → co_self <$> w !! peer = Some h ∧
       (∀ link', GetPeerHostInfo link' w' a peer = Ok (w', inl h)) ∧
       (co_hosts ca !! peer = None → ∃ cb', w' !! peer = Some cb' ∧ co_hosts cb' !! a = Some (co_self ca))) ∧
    (link = Delivered → HasNonzeroIpPort peer = true → is_Some (w !! peer) → ∃ h, r = inl h).
Proof.
  intros Hw%world_coherent Ha.
  destruct (GetPeerHostInfo_ok link w a peer ca Hw Ha) as (w' & r & E & Hw' & Hs & Hr & Hd).
  exists w', r. split; [done|]. split; [|split; [|done]].
  - intros e c p h Hc Hp. destruct (Hw' e c Hc) as [_ Hcoh]. destruct (Hcoh p h Hp) as (c' & Hc' & <-).
    by rewrite <- (Hs p), Hc'.
  - intros h ->. destruct (Hr h eq_refl) as (Hpe & (ca' & Ha' & Hca') & Hback). split; [done|]. split; [|done].
    intros link'. unfold GetPeerHostInfo. rewrite Ha'. cbn [at_or]. rewrite bind_Ok, Hca'.
    destruct (HasNonzeroIpPort peer) eqn:Hn; [done|]. unfold GetPeerHostInfo in E. rewrite Ha in E. cbn [at_or] in E.
    rewrite bind_Ok, Hn in E. done.
Qed.

(** The PSP handshake answers with the peer's token.  Between two running processes, a delivered
    [ExchangePspTokens] with valid arguments returns exactly what the peer's handler answers
    for the token and target that were sent: its token if it is valid, its own error, an
    internal error for an invalid token, and unimplemented if no handler is installed. *)
Theorem Control_psp_exchange (w : World) (a peer target : Endpoint) (tok : PspToken) (ca cb : Control) :
  world_reach w → w !! a = Some ca → w !! peer = Some cb → HasNonzeroIpPort peer = true →
  HasNonzeroIpPort target = true → endpoint_wf target → PspToken_IsValid tok = true →
  length (psp_key tok) = kPspKeyLen → handler_ok cb →
  ∃ w', ExchangePspTokens Delivered w a tok target peer = Ok (w', psp_answer cb tok target).
Proof. intros Hw%world_coherent. by apply psp_exchange_ok. Qed.
End Properties.
End WithObj.
Arguments RdmaConnHandler : clear implicits.
Arguments Control : clear implicits.

(** * Examples: two processes *)

#[export] Instance unit_inv : ObjInv unit := λ _, True.
Definition config_sample : Config := mkConfig kTcp 1 false.
Definition creds_sample : SecurityCredentials := mkCreds true true.
Definition host_b : HostInfo :=
  mkHostInfo (mkEndpoint (IPv4 [10; 0; 0; 2]) 20000)
    [mkNicInfo ["e"%char] kIP [mkEndpoint (IPv4 [10; 0; 0; 2]) 43522]].
Definition started (h : HostInfo) : Control unit :=
  mkControl config_sample h creds_sample (Some (ep_port (control_plane_listener h))) true 0 ∅ ∅ None None.
(** Answers with its own key, or refuses the token it was given. *)
Definition psp_sample : PspTcpHandler := λ t _, if psp_gen t =? 1 then inl (mkPspToken 7 1 (replicate 16 3)) else inr Internal.
Definition ep_a : Endpoint := control_plane_listener host_sample.
Definition ep_b : Endpoint := control_plane_listener host_b.
Definition world_two : gmap Endpoint (Control unit) :=
  <[ep_b := SetPspTcpHandler (started host_b) psp_sample]> (<[ep_b := started host_b]> (<[ep_a := started host_sample]> ∅)).

Lemma started_host_wf : host_wf host_sample ∧ host_wf host_b.
Proof. split; repeat constructor; done. Qed.

Lemma joined_two_reach : @world_reach _ _ HexText.text (<[ep_b := started host_b]> (<[ep_a := started host_sample]> ∅)).
Proof.
  apply (wr_join (<[ep_a := started host_sample]> ∅) config_sample host_b creds_sample
    (mkControl config_sample host_b creds_sample None false 0 ∅ ∅ None None) (started host_b) 20000);
    [|vm_compute; reflexivity|vm_compute; reflexivity|apply started_host_wf|vm_compute; reflexivity].
  apply (wr_join ∅ config_sample host_sample creds_sample
    (mkControl config_sample host_sample creds_sample None false 0 ∅ ∅ None None) (started host_sample) 10000);
    [apply wr_empty|vm_compute; reflexivity|vm_compute; reflexivity|apply started_host_wf|apply lookup_empty].
Qed.
Lemma world_two_reach : @world_reach _ _ HexText.text world_two.
Proof. apply wr_psp_handler; [apply joined_two_reach|by rewrite lookup_insert_eq]. Qed.
Lemma world_two_a : world_two !! ep_a = Some (started host_sample).
Proof. unfold world_two. rewrite !lookup_insert_ne by (by vm_compute). by rewrite lookup_insert_eq. Qed.
Lemma world_two_b : world_two !! ep_b = Some (SetPspTcpHandler (started host_b) psp_sample).
Proof. unfold world_two. by rewrite lookup_insert_eq. Qed.

Lemma Control_handler_total_witness : ∃ c' r s,
  @handleAllRequest _ HexText.text (started host_sample) (kHostInfo (@proto_of_host HexText.text host_b)) (Some RESP_NOT_SET)
    = Ok (c', Some r, s) ∧ ctrl_ok ep_a c'.
Proof.
  assert (ctrl_ok ep_a (started host_sample)) as Hok.
  { split; try done; apply started_host_wf. }
  destruct (@Control_handler_total _ _ HexText.text HexText.text_laws ep_a (started host_sample)
    (kHostInfo (@proto_of_host HexText.text host_b)) Hok) as (c' & r & s & E & Hc & _).
  exists c', r, s. split; [exact E|exact Hc].
Defined.

Lemma Control_host_info_coherent_witness : ∃ w',
  @GetPeerHostInfo _ HexText.text Delivered world_two ep_a ep_b = Ok (w', inl host_b) ∧
  @GetPeerHostInfo _ HexText.text (Refused Unavailable) w' ep_a ep_b = Ok (w', inl host_b) ∧
  ∃ cb, w' !! ep_b = Some cb ∧ co_hosts cb !! ep_a = Some host_sample.
Proof.
  destruct (@Control_host_info_coherent _ _ HexText.text HexText.text_laws world_two Delivered ep_a ep_b
    (started host_sample) world_two_reach world_two_a) as (w' & r & E & _ & Hr & Hd).
  destruct (Hd eq_refl eq_refl (ex_intro _ _ world_two_b)) as [h ->].
  destruct (Hr h eq_refl) as (Hpe & Hc & Hback). rewrite world_two_b in Hpe. injection Hpe as <-.
  exists w'. split; [exact E|]. split; [apply Hc|apply Hback; reflexivity].
Defined.

Lemma Control_psp_exchange_witness : ∃ w',
  @ExchangePspTokens _ HexText.text Delivered world_two ep_a (mkPspToken 5 1 (replicate 16 9)) ep_sample ep_b
    = Ok (w', inl (mkPspToken 7 1 (replicate 16 3))).
Proof.
  apply (@Control_psp_exchange _ _ HexText.text HexText.text_laws world_two ep_a ep_b ep_sample
    (mkPspToken 5 1 (replicate 16 9)) _ _ world_two_reach world_two_a world_two_b);
    [reflexivity|reflexivity|apply (bool_decide_eq_true _); vm_compute; reflexivity|reflexivity|reflexivity|].
  intros f t e t' [= <-]. unfold psp_sample. destruct (psp_gen t =? 1); [|discriminate]. by intros [= <-].
Defined.

(** A peer that is started again at the same endpoint with other listeners stays cached with
    the old ones: nothing removes an entry. *)
Lemma restarted_peer_stale : ∃ w',
  @GetPeerHostInfo _ HexText.text Delivered world_two ep_a ep_b = Ok (w', inl host_b) ∧
  let host_b' := mkHostInfo ep_b [mkNicInfo ["f"%char] kIP [mkEndpoint (IPv4 [10; 0; 0; 2]) 999]] in
  ∀ link, ∃ w'', @GetPeerHostInfo _ HexText.text link (<[ep_b := started host_b']> w') ep_a ep_b = Ok (w'', inl host_b).
Proof.
  destruct (@GetPeerHostInfo_ok _ _ HexText.text HexText.text_laws Delivered world_two ep_a ep_b _
    (@world_coherent _ _ HexText.text HexText.text_laws _ world_two_reach) world_two_a) as (w' & r & E & _ & _ & Hr & Hd).
  destruct (Hd eq_refl eq_refl (ex_intro _ _ world_two_b)) as [h ->].
  destruct (Hr h eq_refl) as (Hpe & (ca' & Ha' & Hc) & _). rewrite world_two_b in Hpe. injection Hpe as <-.
  exists w'. split; [exact E|]. intros host_b' link. eexists. unfold GetPeerHostInfo.
  rewrite lookup_insert_ne by (by vm_compute). rewrite Ha'. cbn [at_or]. rewrite bind_Ok.
  change (HasNonzeroIpPort ep_b) with true. cbn [negb]. rewrite Hc. reflexivity.
Qed.
