(* ===== verification/RdmaManager.v ===== *)
(** The RDMA manager, [internal/rdma/rdma_manager]: it opens the adapters of the host, keeps
    the registered memory and the queue pairs of incoming connections, and connects to peers
    through the control plane.

    The manager is shared by the engine helper and the handler that it installs in [Control];
    it lives in one place, the object that the handler captures, together with the RDMA
    library of its host ([RdmaHost]).  A connection attempt runs the peer's handler in the
    world of [Control], so that both ends of the handshake are the code of this file. *)

From Stdlib Require Import Ascii String.
From stdpp Require Import base tactics numbers gmap fin_maps sets list.
From S2P Require Import Prelude Codec IpAddr Endpoint Types HostInfo ControlMessage Control NicInventory RdmaVerbs RdmaSim RdmaContext RdmaQPair RdmaMemory.
Local Open Scope Z_scope.

(** [util::Random<uint32_t>] on the state of a generator. *)
Class Random (R : Type) := { random_u32 : R → R * Z }.

(** * Data *)

Record RdmaManager (R : Type) := mkRdmaManager {
  mg_device : option RdmaDevice; mg_bitgen : R; mg_memory : option RdmaMemory; mg_inbound : list RdmaQPair;
}.
Arguments mkRdmaManager {R}.
Arguments mg_device {R}.
Arguments mg_bitgen {R}.
Arguments mg_memory {R}.
Arguments mg_inbound {R}.

Record RdmaHost (V R : Type) := mkRdmaHost { ht_lib : V; ht_mgr : RdmaManager R }.
Arguments mkRdmaHost {V R}.
Arguments ht_lib {V R}.
Arguments ht_mgr {V R}.

Section Ops.
Context {V R : Type} `{RdmaLib V} `{Verbs V} `{Random R} `{NetText}.
Abbreviation Host := (RdmaHost V R).
Abbreviation RdmaWorld := (gmap Endpoint (Control Host)).

Definition with_lib (h : Host) (v : V) : Host := mkRdmaHost v (ht_mgr h).
Definition with_bitgen (h : Host) (g : R) : Host :=
  let m := ht_mgr h in mkRdmaHost (ht_lib h) (mkRdmaManager (mg_device m) g (mg_memory m) (mg_inbound m)).
Definition with_memory (h : Host) (v : V) (rm : option RdmaMemory) : Host :=
  let m := ht_mgr h in mkRdmaHost v (mkRdmaManager (mg_device m) (mg_bitgen m) rm (mg_inbound m)).
Definition with_inbound (h : Host) (qps : list RdmaQPair) : Host :=
  let m := ht_mgr h in mkRdmaHost (ht_lib h) (mkRdmaManager (mg_device m) (mg_bitgen m) (mg_memory m) qps).

(** * Operations on one host *)

Definition genPsn (h : Host) : Host * Z :=
  let '(g, x) := random_u32 (mg_bitgen (ht_mgr h)) in (with_bitgen h g, Z.land x 0xFFFFFF).

Definition Manager_RegisterMemory (h : Host) (addr length flags : Z) : Host * absl_Status :=
  match mg_memory (ht_mgr h) with
  | Some rm => let '(v, rm, s) := RegisterMemory (ht_lib h) rm addr length flags in (with_memory h v (Some rm), s)
  | None => (h, Some FailedPrecondition)
  end.
Definition Manager_UnregisterMemory (h : Host) (addr : Z) : Host * absl_Status :=
  match mg_memory (ht_mgr h) with
  | Some rm => let '(v, rm, s) := UnregisterMemory (ht_lib h) rm addr in (with_memory h v (Some rm), s)
  | None => (h, Some FailedPrecondition)
  end.

(** The default keys of a device, 0 without a memory manager. *)
Definition default_keys (h : Host) (name : str) : Z * Z :=
  match mg_memory (ht_mgr h) with Some rm => (GetDefaultLKey rm name, GetDefaultRKey rm name) | None => (0, 0) end.

(** [None] for a null response.  The new queue pair dies on the error paths. *)
Definition handleConnect (h : Host) (req : proto_RdmaConnReq) (resp : option proto_RdmaConnResp)
    : res (Host * option proto_RdmaConnResp * absl_Status) :=
  match mg_device (ht_mgr h) with
  | None => Ok (h, resp, Some FailedPrecondition)
  | Some device =>
      if negb (Nat.eqb (length (default [] (rc_gid req))) kGidSize) then Ok (h, resp, Some InvalidArgument)
      else match resp with
      | None => Ok (h, resp, Some InvalidArgument)
      | Some r =>
          match GetContext device (default [] (rc_device_name req)) with
          | None => Ok (h, resp, Some NotFound)
          | Some ctx =>
              let* '(v, qp_or) := RdmaQPair_Create (ht_lib h) (Some ctx) Options_default in
              match qp_or with
              | inr e => Ok (with_lib h v, resp, Some e)
              | inl qp =>
                  let remote_gid := default [] (rc_gid req) in
                  let '(h, local_psn) := genPsn (with_lib h v) in
                  let '(v, qp, status) := QPair_Connect v qp (default 0 (rc_qpn req)) remote_gid (default 0 (rc_psn req)) local_psn in
                  match status with
                  | Some e => Ok (with_lib h (RdmaQPair_destroy v qp), resp, Some e)
                  | None =>
                      let h := with_lib h v in
                      let r := mkPRdmaConnResp (Some (Qpn v qp)) (Some (cx_local_gid ctx)) (Some local_psn)
                                 (match mg_memory (ht_mgr h) with
                                  | Some rm => Some (GetDefaultRKey rm (cx_name ctx))
                                  | None => rr_rkey r
                                  end) in
                      Ok (with_inbound h (mg_inbound (ht_mgr h) ++ [qp]), Some r, None)
                  end
              end
          end
      end
  end.

(** The lambda installed in [Control]: its response is not null. *)
Definition handler_body (h : Host) (req : proto_RdmaConnReq) (resp : proto_RdmaConnResp)
    : res (Host * proto_RdmaConnResp * absl_Status) :=
  let* '(h, r, s) := handleConnect h req (Some resp) in Ok (h, default resp r, s).

(** The constructor. *)
Definition RdmaManager_new (g : R) (device : RdmaDevice) : res (RdmaManager R) :=
  let* memory := RdmaMemory_new (Some (dv_ctxs device)) in
  Ok (mkRdmaManager (Some device) g (Some memory) []).

(** The destructor: the handler is removed, and the members die in reverse order. *)
Definition RdmaManager_destroy (c : Control Host) (h : Host) : Control Host * V :=
  let c := SetRdmaConnHandler c None in
  let m := ht_mgr h in
  let v := foldl RdmaQPair_destroy (ht_lib h) (mg_inbound m) in
  let v := match mg_memory m with Some rm => RdmaMemory_destroy v rm | None => v end in
  (c, match mg_device m with Some d => RdmaDevice_destroy v d | None => v end).

Definition nic_of (ctx : RdmaContext) : NicInfo :=
  mkNicInfo (cx_name ctx) kRDMA [mkEndpoint (IPv6 (cx_local_gid ctx)) kDefaultPort].
Fixpoint nics_loop (ctxs : list RdmaContext) : res (list NicInfo) :=
  match ctxs with
  | [] => Ok []
  | ctx :: ctxs => let nic := nic_of ctx in do* dcheck (NicInfo_IsValid nic); let* nics := nics_loop ctxs in Ok (nic :: nics)
  end.
(** [self] is the host information that [control] refers to.  The result is the library and,
    unless null is returned, the control object that now holds the manager. *)
Definition RdmaManager_Create (config : Config) (v : V) (g : R) (control : Control Host) : res (V * option (Control Host)) :=
  if negb (bool_decide (transport_type config = kRdma)) then Ok (v, None)
  else
    let* '(v, device_or) := RdmaDevice_Create v in
    match device_or with
    | inr _ => Ok (v, None)
    | inl device =>
        let* nics := nics_loop (dv_ctxs device) in
        if bool_decide (nics = []) then Ok (RdmaDevice_destroy v device, None)
        else
          let self := co_self control in
          let self := mkHostInfo (control_plane_listener self) (data_plane_listeners self ++ nics) in
          let* mgr := RdmaManager_new g device in
          let control := with_server control self (co_server control) (co_serving control) in
          Ok (v, Some (SetRdmaConnHandler control (Some (mkRdmaConnHandler (mkRdmaHost v mgr) handler_body))))
    end.

(** * Connecting to a peer; [a] is the endpoint of the calling process *)

Definition get_host (w : RdmaWorld) (a : Endpoint) : res Host :=
  let* c := at_or BadPointer (w !! a) in
  let* f := at_or BadPointer (co_rdma_handler c) in
  Ok (rh_obj f).
Definition put_host (w : RdmaWorld) (a : Endpoint) (h : Host) : res RdmaWorld :=
  let* c := at_or BadPointer (w !! a) in
  let* f := at_or BadPointer (co_rdma_handler c) in
  Ok (<[a := SetRdmaConnHandler c (Some (mkRdmaConnHandler h (rh_call f)))]> w).

(** The queue pair dies when an attempt is given up. *)
Definition abandon (w : RdmaWorld) (a : Endpoint) (qp : RdmaQPair) : res (RdmaWorld * option RdmaConn) :=
  let* h := get_host w a in
  let* w := put_host w a (with_lib h (RdmaQPair_destroy (ht_lib h) qp)) in
  Ok (w, None).

(** One iteration of the loop of [Connect]. *)
Definition connect_once (link : Link) (w : RdmaWorld) (a peer : Endpoint) (ctxs : list RdmaContext) (remotes : list NicInfo)
    (i : nat) : res (RdmaWorld * option RdmaConn) :=
  let* h := get_host w a in
  let* ctx := at_or OutOfRange (ctxs !! (i mod length ctxs)%nat) in
  let* remote := at_or OutOfRange (remotes !! (i mod length remotes)%nat) in
  let* '(v, qp_or) := RdmaQPair_Create (ht_lib h) (Some ctx) Options_default in
  match qp_or with
  | inr _ => let* w := put_host w a (with_lib h v) in Ok (w, None)
  | inl qp =>
      let '(h, local_psn) := genPsn (with_lib h v) in
      let '(local_lkey, initiator_rkey) := default_keys h (cx_name ctx) in
      let* w := put_host w a h in
      let* '(w, resp_or) := ConnectRdmaPeer link w a peer (nic_name remote) (Qpn v qp) (cx_local_gid ctx) local_psn initiator_rkey in
      match resp_or with
      | inr _ => abandon w a qp
      | inl resp =>
          let remote_gid := default [] (rr_gid resp) in
          if negb (Nat.eqb (length remote_gid) kGidSize) then abandon w a qp
          else
            let* h := get_host w a in
            let '(v, qp, status) := QPair_Connect (ht_lib h) qp (default 0 (rr_qpn resp)) remote_gid (default 0 (rr_psn resp)) local_psn in
            let* w := put_host w a (with_lib h v) in
            match status with
            | Some _ => abandon w a qp
            | None => Ok (w, Some (RdmaConn_new qp local_lkey (default 0 (rr_rkey resp))))
            end
      end
  end.

(** The loop with [n] iterations left; [links i] is what happens to the call of iteration [i]. *)
Fixpoint connect_loop (links : nat → Link) (n : nat) (w : RdmaWorld) (a peer : Endpoint) (ctxs : list RdmaContext)
    (remotes : list NicInfo) (num_conns : Z) (i : nat) (conns : list RdmaConn) : res (RdmaWorld * list RdmaConn) :=
  match n with
  | O => Ok (w, conns)
  | S n =>
      let* '(w, c) := connect_once (links i) w a peer ctxs remotes i in
      match c with
      | None => connect_loop links n w a peer ctxs remotes num_conns (S i) conns
      | Some c =>
          let conns := conns ++ [c] in
          if num_conns <=? Z.of_nat (length conns) then Ok (w, conns)
          else connect_loop links n w a peer ctxs remotes num_conns (S i) conns
      end
  end.

Definition Manager_Connect (info_link : Link) (links : nat → Link) (w : RdmaWorld) (a peer : Endpoint) (num_conns : Z)
    : res (RdmaWorld * list RdmaConn) :=
  let* h := get_host w a in
  match mg_device (ht_mgr h) with
  | None => Ok (w, [])
  | Some device =>
      if bool_decide (dv_ctxs device = []) then Ok (w, [])
      else
        let* '(w, peer_info) := GetPeerHostInfo info_link w a peer in
        match peer_info with
        | inr _ => Ok (w, [])
        | inl info =>
            let remote_interfaces := filter (λ nic, nic_type nic = kRDMA) (data_plane_listeners info) in
            if bool_decide (remote_interfaces = []) then Ok (w, [])
            else connect_loop links (Z.to_nat (2 * num_conns)) w a peer (dv_ctxs device) remote_interfaces num_conns 0 []
        end
  end.
End Ops.

(** * Tables that grow *)

(** Objects stay, and what is added does not use an old completion queue. *)
Record tab_ext (m m' : table) : Prop := {
  te_keep : ∀ x o, m !! x = Some o → m' !! x = Some o;
  te_cq : ∀ h o d c, m' !! h = Some o → d ∈ deps o → m !! d = Some (OCq c) → m !! h = Some o;
}.
Lemma tab_ext_refl m : tab_ext m m.
Proof. by split. Qed.
Lemma tab_ext_trans m1 m2 m3 : tab_ext m1 m2 → tab_ext m2 m3 → tab_ext m1 m3.
Proof.
  intros [K1 C1] [K2 C2]. split; [by auto|]. intros h o d c Hh Hd Hc.
  eapply C1; [|done..]. eapply C2; [done..|]. by apply K1.
Qed.

Section Pairs.
Context {V : Type} `{L : RdmaLaws V}.

Lemma opened_ext (v v' : V) c : tab_ext (objs v) (objs v') → opened v c → opened v' c.
Proof.
  intros [K _] Ho. apply (opened_frame v); [|done]. destruct Ho as [(d & E1 & _) E2 E3 _ _].
  intros h. unfold cx_handles. rewrite !elem_of_cons, elem_of_nil.
  intros [->|[->|[->|[]]]]; rewrite ?E1, ?E2, ?E3; by apply K.
Qed.
Lemma qp_owns_ext (v v' : V) q hw : tab_ext (objs v) (objs v') → qp_owns v q hw → qp_owns v' q hw.
Proof. intros [K _] [X1 X2 X3 X4 X5 X6]. split; try done; by apply K. Qed.
Lemma qp_idle_ext (v v' : V) q hw : tab_ext (objs v) (objs v') → qp_owns v q hw → qp_idle v q → qp_idle v' q.
Proof. intros [K C] Ho Hi h o Hh Hin. apply (Hi h o); [|done]. exact (C h o _ _ Hh Hin (qo_cq _ _ _ Ho)). Qed.

(** The library has the objects [m] and those of the pair [q]. *)
Record pair_on (m : table) (v : V) (q : RdmaQPair) (hw : hw_qp) : Prop := {
  po_frame : ∀ h, h ∉ qp_handles q → objs v !! h = m !! h;
  po_new : ∀ h, h ∈ qp_handles q → m !! h = None;
  po_owns : qp_owns v q hw;
  po_idle : qp_idle v q;
  po_closed : closed (objs v);
  po_ctx : m !! cx_pd (qr_ctx q) = Some (OPd (cx_ctx (qr_ctx q))) ∧ ∃ d, m !! cx_ctx (qr_ctx q) = Some (OCtx d);
}.

Lemma in_qp_handles h q : h ∈ qp_handles q ↔ h = qr_qp q ∨ h = qr_cq q.
Proof. unfold qp_handles. rewrite !elem_of_cons, elem_of_nil. tauto. Qed.

Lemma pair_ext m v q hw : pair_on m v q hw → tab_ext m (objs v).
Proof.
  intros [F N O I C (Ep & d0 & Ec)]. split.
  - intros x o Hx. rewrite F; [done|]. intros Hin. by rewrite (N x Hin) in Hx.
  - intros h o d c Hh Hd Hc. destruct (decide (h ∈ qp_handles q)) as [Hin|Hnin]; [exfalso|by rewrite <- F].
    destruct O as [Oq Oc [Od1 Od2] _ _ _]. apply in_qp_handles in Hin as [->| ->].
    + rewrite Hh in Oq. injection Oq as ->. cbn in Hd. apply elem_of_cons in Hd as [->|Hd].
      * rewrite Od1 in Hc. congruence.
      * apply list_elem_of_singleton in Hd as ->. rewrite Od2, (N (qr_cq q)) in Hc; [done|]. apply in_qp_handles. by right.
    + rewrite Hh in Oc. injection Oc as ->. apply list_elem_of_singleton in Hd as ->. congruence.
Qed.

Lemma pair_create v ctx : closed (objs v) → opened v ctx →
  ∃ v' r, RdmaQPair_Create v (Some ctx) Options_default = Ok (v', r) ∧
    match r with
    | inr _ => objs v' = objs v
    | inl q => qr_state q = kInit ∧ qr_ctx q = ctx ∧ ∃ hw, pair_on (objs v) v' q hw
    end.
Proof.
  intros Hc Ho. destruct (RdmaQPair_Create_ok v ctx Options_default Hc Ho) as (v' & r & E & Hr). exists v', r. split; [done|].
  destruct r as [q|e]; [|apply Hr]. destruct Hr as (A & Hi & Hst & Hctx & hw & Hw). split; [done|]. split; [done|].
  exists hw. destruct A as [_ Nw F C]. split; try done; [intros h Hh; by apply Nw|]. rewrite Hctx. split; [apply Ho|].
  destruct (op_ctx _ _ Ho) as (d & Ed & _). eauto.
Qed.

Lemma pair_connect m v q hw qpn gid psn lpsn : pair_on m v q hw → qr_state q = kInit →
  ∃ v' q' s hw', QPair_Connect v q qpn gid psn lpsn = (v', q', s) ∧ pair_on m v' q' hw' ∧
    qr_ctx q' = qr_ctx q ∧ qr_qp q' = qr_qp q ∧
    match s with
    | None => IsConnected q' = true ∧ hq_num hw' = hq_num hw ∧ peer_of hw' = (qpn, gid, psn, lpsn)
    | Some _ => True
    end.
Proof.
  intros [F N O I C X] Hst. destruct (Connect_ok v q hw qpn gid psn lpsn O) as (v' & q' & s & hw' & E & Sm & O' & (x & Eq) & Hs).
  exists v', q', s, hw'. split; [done|]. assert (qr_qp q' = qr_qp q ∧ qr_cq q' = qr_cq q ∧ qr_ctx q' = qr_ctx q) as (E1 & E2 & E3)
    by by rewrite Eq.
  assert (∀ h, h ∈ qp_handles q' ↔ h ∈ qp_handles q) as Hh by (intros h; by rewrite !in_qp_handles, E1, E2).
  split; [|split; [done|split; [done|]]].
  2:{ destruct s; [done|]. destruct Hs as (_ & Hk & Hn & Hp). split_and!; [by apply bool_decide_eq_true|done|done]. }
  split; rewrite ?E3; try done.
  - intros h Hnin. rewrite Hh in Hnin. rewrite Sm; [by apply F|]. intros ->. apply Hnin, in_qp_handles. by left.
  - intros h Hin. by apply N, Hh.
  - intros h o Ho Hin. rewrite E1, E2 in *. destruct (decide (h = qr_qp q)) as [|Hne]; [done|]. rewrite (Sm h Hne) in Ho. by apply (I h o).
  - assert (objs v' = <[qr_qp q := OQp hw']> (objs v)) as ->.
    { apply map_eq. intros h. destruct (decide (h = qr_qp q)) as [->|Hne].
      - rewrite lookup_insert_eq, <- E1. apply O'.
      - rewrite lookup_insert_ne by done. by apply Sm. }
    apply (closed_update _ _ (OQp hw)); [done|apply O| |done]. destruct O as [_ _ [D1 D2] _ _ _], O' as [_ _ [D1' D2'] _ _ _].
    cbn. by rewrite D1, D2, D1', D2', E2, E3.
Qed.

Lemma pair_destroy m v q hw : pair_on m v q hw → objs (RdmaQPair_destroy v q) = m ∧ closed m.
Proof.
  intros [F N O I C _]. pose proof (RdmaQPair_destroy_ok v q hw O I) as Rm.
  assert (objs (RdmaQPair_destroy v q) = m) as E.
  { apply map_eq. intros h. rewrite Rm. destruct (decide (h ∈ qp_handles q)) as [Hin|Hnin]; [by rewrite N|by apply F]. }
  split; [done|]. intros h o d Hh Hd. assert (h ∉ qp_handles q) as Hnin by (intros Hin; by rewrite (N h Hin) in Hh).
  assert (objs v !! h = Some o) as Hv by by rewrite F. destruct (C h o d Hv Hd) as (x & Hx & Hu). exists x. split; [|done].
  rewrite <- F; [done|]. intros [->| ->]%in_qp_handles.
  - rewrite (qo_qp _ _ _ O) in Hx. by injection Hx as <-.
  - apply Hnin, in_qp_handles. left. by apply (I h o).
Qed.

Lemma pair_unique m m' v q hw : pair_on m v q hw → pair_on m' v q hw → m' = m.
Proof.
  intros [F N _ _ _ _] [F' N' _ _ _ _]. apply map_eq. intros h.
  destruct (decide (h ∈ qp_handles q)); [by rewrite N, N'|by rewrite <- F, <- F'].
Qed.

(** A pair stays while the library is used by others. *)
Lemma pair_later m v q hw v' : pair_on m v q hw → tab_ext (objs v) (objs v') → closed (objs v') →
  ∃ m', pair_on m' v' q hw ∧ tab_ext m m'.
Proof.
  intros P Hext C'. pose proof P as [F N O I C (Ep & d0 & Ec)]. pose proof (qp_owns_ext _ _ _ _ Hext O) as O'.
  set (m' := delete (qr_qp q) (delete (qr_cq q) (objs v'))).
  assert (∀ h, m' !! h = if decide (h ∈ qp_handles q) then None else objs v' !! h) as Em.
  { intros h. unfold m'. destruct (decide (h ∈ qp_handles q)) as [[->| ->]%in_qp_handles|Hn]; rewrite ?in_qp_handles in *.
    - apply lookup_delete_eq.
    - destruct (decide (qr_qp q = qr_cq q)) as [->|]; [apply lookup_delete_eq|]. rewrite lookup_delete_ne by done. apply lookup_delete_eq.
    - rewrite !lookup_delete_ne; naive_solver. }
  assert (tab_ext m m') as Hmm.
  { split.
    - intros x o Hx. rewrite Em. destruct (decide (x ∈ qp_handles q)) as [Hin|Hn]; [by rewrite (N x Hin) in Hx|].
      apply Hext. by rewrite F.
    - intros h o d c Hh Hd Hc. rewrite Em in Hh. destruct (decide (h ∈ qp_handles q)) as [|Hn]; [done|].
      rewrite <- F by done. apply (te_cq _ _ Hext h o d c Hh Hd). rewrite F; [done|]. intros Hin. by rewrite (N d Hin) in Hc. }
  exists m'. split; [|done]. split; try done.
  - intros h Hn. rewrite Em. by destruct (decide (h ∈ qp_handles q)).
  - intros h Hin. rewrite Em. by destruct (decide (h ∈ qp_handles q)).
  - by apply (qp_idle_ext v v' q hw).
  - split; [by apply Hmm|]. exists d0. by apply Hmm.
Qed.
End Pairs.

(** * Hosts *)

Section Hosts.
Context {V R : Type} `{L : RdmaLaws V} `{G : Random R}.
Abbreviation Host := (RdmaHost V R).

Definition inbound_ok (v : V) (q : RdmaQPair) : Prop := IsConnected q = true ∧ qp_idle v q ∧ ∃ hw, qp_owns v q hw.
Record host_ok (h : Host) : Prop := {
  ho_closed : closed (objs (ht_lib h));
  ho_device : ∃ d, mg_device (ht_mgr h) = Some d ∧ dv_ctxs d ≠ [] ∧ dv_ctx_map d = ctx_map (dv_ctxs d) ∧
    Forall (opened (ht_lib h)) (dv_ctxs d);
  ho_memory : ∃ rm, mg_memory (ht_mgr h) = Some rm ∧ all_live (ht_lib h) (table_ids (rm_regions rm));
  ho_inbound : Forall (inbound_ok (ht_lib h)) (mg_inbound (ht_mgr h));
}.
#[export] Instance host_inv : ObjInv Host := host_ok.

(** The host later: it has the same adapters and memory, no connection was dropped, and the
    queue pairs of new connections are new objects. *)
Definition fresh_pairs (m : table) (l : list RdmaQPair) : Prop := ∀ q x, q ∈ l → x ∈ qp_handles q → m !! x = None.
Record host_ext (h h' : Host) : Prop := {
  he_tab : tab_ext (objs (ht_lib h)) (objs (ht_lib h'));
  he_device : mg_device (ht_mgr h') = mg_device (ht_mgr h);
  he_memory : mg_memory (ht_mgr h') = mg_memory (ht_mgr h);
  he_inbound : ∃ l, mg_inbound (ht_mgr h') = mg_inbound (ht_mgr h) ++ l ∧ fresh_pairs (objs (ht_lib h)) l;
}.
Lemma fresh_pairs_ext m m' l : tab_ext m m' → fresh_pairs m' l → fresh_pairs m l.
Proof. intros [K _] Hf q x Hq Hx. destruct (m !! x) as [o|] eqn:E; [|done]. apply K in E. by rewrite (Hf q x Hq Hx) in E. Qed.
Lemma host_ext_refl h : host_ext h h.
Proof. split; [apply tab_ext_refl|done|done|]. exists []. rewrite app_nil_r. split; [done|]. by intros q x ?%elem_of_nil. Qed.
Lemma host_ext_trans h1 h2 h3 : host_ext h1 h2 → host_ext h2 h3 → host_ext h1 h3.
Proof.
  intros [A1 A2 A3 (l1 & A4 & F1)] [B1 B2 B3 (l2 & B4 & F2)]. split; [by eapply tab_ext_trans|congruence|congruence|].
  exists (l1 ++ l2). rewrite B4, A4, app_assoc. split; [done|]. intros q x [Hq|Hq]%elem_of_app Hx; [by apply (F1 q)|].
  by apply (fresh_pairs_ext _ _ _ A1 F2 q).
Qed.

Lemma inbound_ok_ext v v' q : tab_ext (objs v) (objs v') → inbound_ok v q → inbound_ok v' q.
Proof.
  intros Hx (Hc & Hi & hw & Ho). split; [done|]. split; [by apply (qp_idle_ext v v' q hw)|]. exists hw. by apply (qp_owns_ext v).
Qed.
Lemma all_live_ext v v' l : tab_ext (objs v) (objs v') → all_live v l → all_live v' l.
Proof.
  intros Hx [Hn Hl]. split; [done|]. intros x Hin. apply elem_of_mrs_of. apply Hl, elem_of_mrs_of in Hin as [pd Hp].
  exists pd. by apply Hx.
Qed.

(** A host whose library grew, with more connections. *)
Lemma host_grow h h' l : host_ok h → tab_ext (objs (ht_lib h)) (objs (ht_lib h')) → closed (objs (ht_lib h')) →
  mg_device (ht_mgr h') = mg_device (ht_mgr h) → mg_memory (ht_mgr h') = mg_memory (ht_mgr h) →
  mg_inbound (ht_mgr h') = mg_inbound (ht_mgr h) ++ l → Forall (inbound_ok (ht_lib h')) l →
  fresh_pairs (objs (ht_lib h)) l → host_ok h' ∧ host_ext h h'.
Proof.
  intros [C (d & D1 & D2 & D3 & D4) (rm & M1 & M2) I] Hx C' Ed Em Ei Hl Hf. split; [|split; [done..|by exists l]]. split; [done| | |].
  - exists d. rewrite Ed. split_and!; try done. apply (Forall_impl _ _ _ D4). intros c. by apply opened_ext.
  - exists rm. rewrite Em. split; [done|]. by apply (all_live_ext (ht_lib h)).
  - rewrite Ei. apply Forall_app. split; [|done]. apply (Forall_impl _ _ _ I). intros q. by apply inbound_ok_ext.
Qed.
Lemma host_same h h' : host_ok h → objs (ht_lib h') = objs (ht_lib h) →
  mg_device (ht_mgr h') = mg_device (ht_mgr h) → mg_memory (ht_mgr h') = mg_memory (ht_mgr h) →
  mg_inbound (ht_mgr h') = mg_inbound (ht_mgr h) → host_ok h' ∧ host_ext h h'.
Proof.
  intros Hok E. intros. apply (host_grow h h' []); [done|rewrite E; apply tab_ext_refl|rewrite E; apply Hok|done|done|by rewrite app_nil_r|done|by intros q x ?%elem_of_nil].
Qed.

Lemma Qpn_owns v q hw : qp_owns v q hw → Qpn v q = hq_num hw.
Proof.
  intros Ho. unfold Qpn. destruct (qo_nz _ _ _ Ho) as [Hz _]. rewrite (proj2 (Z.eqb_neq _ _)) by done. cbn [negb].
  apply qp_num_ok, Ho.
Qed.

(** What the response says of the queue pair [q]. *)
Definition answers (r : proto_RdmaConnResp) (q : RdmaQPair) (hw : hw_qp) (psn : Z) : Prop :=
  rr_qpn r = Some (hq_num hw) ∧ rr_gid r = Some (cx_local_gid (qr_ctx q)) ∧ rr_psn r = Some psn.

Lemma genPsn_spec (h : Host) : ∃ g psn, genPsn h = (with_bitgen h g, psn) ∧ 0 ≤ psn < 2 ^ 24.
Proof.
  unfold genPsn. destruct (random_u32 _) as [g x]. exists g, (Z.land x 0xFFFFFF). split; [done|].
  change 0xFFFFFF with (Z.ones 24). rewrite Z.land_ones by lia. by apply Z.mod_pos_bound.
Qed.

Lemma handleConnect_ok h req resp : host_ok h → ∃ h' r s,
  handleConnect h req (Some resp) = Ok (h', Some r, s) ∧ host_ok h' ∧ host_ext h h' ∧
  match s with
  | Some _ => objs (ht_lib h') = objs (ht_lib h) ∧ mg_inbound (ht_mgr h') = mg_inbound (ht_mgr h) ∧ r = resp
  | None => ∃ q hw psn, mg_inbound (ht_mgr h') = mg_inbound (ht_mgr h) ++ [q] ∧ qp_owns (ht_lib h') q hw ∧ IsConnected q = true ∧
      cx_name (qr_ctx q) = default [] (rc_device_name req) ∧
      peer_of hw = (default 0 (rc_qpn req), default [] (rc_gid req), default 0 (rc_psn req), psn) ∧ answers r q hw psn ∧
      length (cx_local_gid (qr_ctx q)) = kGidSize
  end.
Proof.
  intros Hok. unfold handleConnect. destruct (ho_device _ Hok) as (d & -> & _ & Dm & Dop).
  assert (∀ e, host_ok h ∧ host_ext h h ∧ match Some e : absl_Status with Some _ => objs (ht_lib h) = objs (ht_lib h) ∧ mg_inbound (ht_mgr h) = mg_inbound (ht_mgr h) ∧ resp = resp | None => True end) as Same
    by (intros; split_and!; try done; apply host_ext_refl).
  destruct (negb _); [eexists _, _, _; split; [done|]; by apply (Same InvalidArgument)|]. unfold GetContext. rewrite Dm.
  destruct (ctx_map (dv_ctxs d) !! _) as [ctx|] eqn:Ec; [|eexists _, _, _; split; [done|]; by apply (Same NotFound)]. clear Same.
  apply ctx_map_spec in Ec as [Hin Hname]. rewrite Forall_forall in Dop. pose proof (Dop ctx Hin) as Hop.
  destruct (pair_create (ht_lib h) ctx (ho_closed _ Hok) Hop) as (v1 & r1 & -> & Hr). rewrite bind_Ok.
  destruct r1 as [q|e].
  2:{ eexists _, _, _. split; [done|]. destruct (host_same h (with_lib h v1)) as [A B]; [done..|]. by split_and!. }
  destruct Hr as (Hst & Hctx & hw & P). destruct (genPsn_spec (with_lib h v1)) as (g & psn & -> & _). cbn [with_bitgen with_lib ht_mgr ht_lib].
  destruct (pair_connect _ _ _ _ (default 0 (rc_qpn req)) (default [] (rc_gid req)) (default 0 (rc_psn req)) psn P Hst)
    as (v2 & q2 & s & hw2 & -> & P2 & Ec2 & _ & Hs). destruct s as [e|].
  - destruct (pair_destroy _ _ _ _ P2) as [Ed _]. eexists _, _, _. split; [done|].
    destruct (host_same h (mkRdmaHost (RdmaQPair_destroy v2 q2)
      (mkRdmaManager (mg_device (ht_mgr h)) g (mg_memory (ht_mgr h)) (mg_inbound (ht_mgr h))))) as [A B]; [done..|]. by split_and!.
  - destruct Hs as (Hcon & Hn & Hp). eexists _, _, _. split; [done|]. pose proof (po_owns _ _ _ _ P2) as Ho2.
    destruct (host_grow h (mkRdmaHost v2 (mkRdmaManager (mg_device (ht_mgr h)) g (mg_memory (ht_mgr h)) (mg_inbound (ht_mgr h) ++ [q2]))) [q2])
      as [A B]; try done; [by eapply pair_ext|apply P2|apply Forall_singleton; split_and!; [done|apply P2|by exists hw2]
      |intros y x ->%list_elem_of_singleton Hx; by apply (po_new _ _ _ _ P2)|].
    split; [exact A|]. split; [exact B|]. exists q2, hw2, psn. cbn. split_and!; try done; [by rewrite Ec2, Hctx| |].
    + split_and!; [by rewrite (Qpn_owns v2 q2 hw2)|by rewrite Ec2, Hctx|done].
    + rewrite Ec2, Hctx. apply Hop.
Qed.

(** The host of the caller during an attempt: [h1] has the new pair [q] on top of [h0], and the
    peer's handler made [h2] of it.  Without the pair, the host is one that grew from [h0]. *)
Lemma host_without h0 h1 h2 q hw : host_ok h0 → pair_on (objs (ht_lib h0)) (ht_lib h1) q hw →
  mg_device (ht_mgr h1) = mg_device (ht_mgr h0) → mg_memory (ht_mgr h1) = mg_memory (ht_mgr h0) →
  mg_inbound (ht_mgr h1) = mg_inbound (ht_mgr h0) → host_ok h2 → host_ext h1 h2 →
  ∃ m, pair_on m (ht_lib h2) q hw ∧ ∀ v, objs v = m → host_ok (with_lib h2 v) ∧ host_ext h0 (with_lib h2 v).
Proof.
  intros Hok P Ed Em Ei Hok2 [Ht Hd Hm (l & Hl & Hf)].
  destruct (pair_later _ _ _ _ _ P Ht (ho_closed _ Hok2)) as (m & P2 & Hx). exists m. split; [done|]. intros v Ev.
  pose proof (pair_destroy _ _ _ _ P2) as [_ Hc]. apply (host_grow h0 (with_lib h2 v) l); cbn; try congruence.
  - by rewrite Ev.
  - apply Forall_forall. intros qi Hqi. destruct Hok2 as [_ _ _ I]. rewrite Hl, Forall_app in I. destruct I as [_ I].
    rewrite Forall_forall in I. destruct (I qi Hqi) as (Hcon & Hi & hwi & [O1 O2 O3 O4 O5 O6]). split; [done|].
    assert (∀ x, x ∈ qp_handles qi → objs v !! x = objs (ht_lib h2) !! x) as Hsame.
    { intros x Hxi. rewrite Ev. symmetry. apply (po_frame _ _ _ _ P2). intros Hq.
      pose proof (Hf qi x Hqi Hxi) as Hnone. pose proof (po_owns _ _ _ _ P) as [Q1 Q2 _ _ _ _].
      apply in_qp_handles in Hq as [->| ->]; congruence. }
    split.
    + intros h o Hh Hin. apply (Hi h o); [|done]. rewrite Ev in Hh. by apply (te_keep _ _ (pair_ext _ _ _ _ P2)).
    + exists hwi. split; try done; rewrite Hsame; try done; apply in_qp_handles; auto.
  - apply (fresh_pairs_ext _ _ _ (pair_ext _ _ _ _ P) Hf).
Qed.

Lemma handler_body_safe h : host_ok h → handler_safe (mkRdmaConnHandler h handler_body).
Proof.
  intros Hok. split; [exact Hok|]. cbn. intros o req resp Ho. unfold handler_body.
  destruct (handleConnect_ok o req resp Ho) as (h' & r & s & -> & Hok' & _). rewrite bind_Ok. by eexists _, _, _.
Qed.
End Hosts.

(** * Creation *)

Section Creation.
Context {V R : Type} `{L : RdmaLaws V} `{G : Random R}.

Lemma nics_loop_ok ctxs : Forall (λ c, NicInfo_IsValid (nic_of c) = true) ctxs → nics_loop ctxs = Ok (nic_of <$> ctxs).
Proof.
  induction 1 as [|c ctxs Hc _ IH]; [done|]. cbn [nics_loop]. by rewrite bind_dcheck, IH.
Qed.

(** Creating the manager: nothing is left of a failure; otherwise the host is well-formed, its
    adapters are published after the listeners that were there, and the handler is
    installed. *)
Lemma RdmaManager_Create_ok config (v : V) (g : R) c : closed (objs v) →
  (∀ v' d, RdmaDevice_Create v = Ok (v', inl d) → Forall (λ x, NicInfo_IsValid (nic_of x) = true) (dv_ctxs d)) →
  ∃ v' r, RdmaManager_Create config v g c = Ok (v', r) ∧
    match r with
    | None => objs v' = objs v
    | Some c' => ∃ d h, mg_device (ht_mgr h) = Some d ∧ host_ok h ∧ ht_lib h = v' ∧
        co_rdma_handler c' = Some (mkRdmaConnHandler h handler_body) ∧
        co_self c' = mkHostInfo (control_plane_listener (co_self c)) (data_plane_listeners (co_self c) ++ (nic_of <$> dv_ctxs d)) ∧
        transport_type config = kRdma ∧ objs (RdmaManager_destroy c' h).2 = objs v
    end.
Proof.
  intros Hc Hv. unfold RdmaManager_Create. destruct (bool_decide_reflect (transport_type config = kRdma)) as [Ht|]; cbn [negb]; [|by eexists v, _].
  destruct (RdmaDevice_Create_ok v Hc) as (v1 & [d|e] & E & Hr); rewrite E, bind_Ok; [|eexists v1, _; split; [done|apply Hr]].
  destruct Hr as (Hne & A & Ha & Hm). rewrite (nics_loop_ok _ (Hv v1 d E)), bind_Ok.
  rewrite bool_decide_eq_false_2 by (by destruct (dv_ctxs d)). unfold RdmaManager_new, RdmaMemory_new.
  rewrite bind_dcheck by (apply bool_decide_eq_true; eauto). rewrite !bind_Ok. eexists v1, _. split; [done|].
  eexists d, _. split; [|split; [|split; [|split; [|split; [|split]]]]]; [|split|..]; try done; cbn; try done.
  - apply (ad_closed _ _ _ A).
  - exists d. split_and!; try done. apply Ha.
  - eexists. split; [done|]. cbn. split; [constructor|]. by intros x ?%elem_of_nil.
  - apply (adds_removes v _ v1 _ A). by apply destroy_contexts.
Qed.
End Creation.

(** * The handshake in a world *)

Section Worlds.
Context {V R : Type} `{L : RdmaLaws V} `{G : Random R} `{T : NetText} `{!NetTextLaws T}.
Abbreviation Host := (RdmaHost V R).
Abbreviation RdmaWorld := (gmap Endpoint (Control Host)).
Implicit Types (w : RdmaWorld) (h : Host).

(** A coherent world whose RDMA handlers are those of this file. *)
Definition world_ok (w : RdmaWorld) : Prop := coherent w ∧
  ∀ e c f, w !! e = Some c → co_rdma_handler c = Some f → rh_call f = handler_body.
Definition world_ext (w w' : RdmaWorld) : Prop := ∀ e h, get_host w e = Ok h → ∃ h', get_host w' e = Ok h' ∧ host_ext h h'.

Lemma world_ext_refl w : world_ext w w.
Proof. intros e h Hh. exists h. split; [done|apply host_ext_refl]. Qed.
Lemma world_ext_trans w1 w2 w3 : world_ext w1 w2 → world_ext w2 w3 → world_ext w1 w3.
Proof.
  intros E1 E2 e h Hh. destruct (E1 e h Hh) as (h1 & Hh1 & X1). destruct (E2 e h1 Hh1) as (h2 & Hh2 & X2).
  exists h2. split; [done|]. by eapply host_ext_trans.
Qed.

Lemma get_host_some w e h : get_host w e = Ok h ↔ ∃ c f, w !! e = Some c ∧ co_rdma_handler c = Some f ∧ rh_obj f = h.
Proof.
  unfold get_host. split.
  - intros (c & Hc%at_or_Ok_inv & E)%bind_Ok_inv. apply bind_Ok_inv in E as (f & Hf%at_or_Ok_inv & [= <-]). eauto.
  - intros (c & f & -> & Hf & <-). cbn [at_or]. rewrite bind_Ok, Hf. cbn [at_or]. by rewrite bind_Ok.
Qed.
Lemma get_host_same w w' e : same_handler w w' e → get_host w' e = get_host w e.
Proof.
  unfold same_handler, get_host. destruct (w !! e) as [c|], (w' !! e) as [c'|]; cbn [at_or fmap option_fmap option_map]; try done.
  intros [= E]. by rewrite !bind_Ok, E.
Qed.
Lemma get_host_ok w e h : world_ok w → get_host w e = Ok h → host_ok h.
Proof.
  intros [Hw _] (c & f & Hc & Hf & <-)%get_host_some. destruct (Hw e c Hc) as [Hok _]. by destruct (ck_handler _ _ Hok f Hf).
Qed.

Lemma put_host_ok w a h h' : world_ok w → get_host w a = Ok h → host_ok h' →
  ∃ w', put_host w a h' = Ok w' ∧ world_ok w' ∧ same_selves w w' ∧ get_host w' a = Ok h' ∧
    ∀ e, e ≠ a → get_host w' e = get_host w e.
Proof.
  intros [Hw Hs] (c & f & Hc & Hf & _)%get_host_some Hok. unfold put_host. rewrite Hc. cbn [at_or]. rewrite bind_Ok, Hf. cbn [at_or].
  rewrite bind_Ok. eexists. split; [done|]. split; [split|split; [|split]].
  - apply (coherent_insert w a c); [done|done|done| |by left]. destruct (Hw a c Hc) as [Hca _]. eapply ctrl_ok_same; try done.
    cbn. intros g [= <-]. rewrite (Hs a c f Hc Hf). by apply handler_body_safe.
  - intros e x g Hx Hg. apply lookup_insert_Some in Hx as [[<- <-]|[_ Hx]]; [|by apply (Hs e x)].
    cbn in Hg. injection Hg as <-. exact (Hs a c f Hc Hf).
  - by eapply same_selves_insert.
  - apply get_host_some. rewrite lookup_insert_eq. by eexists _, _.
  - intros e Hne. unfold get_host. by rewrite lookup_insert_ne.
Qed.

(** The outcome of the call to the peer. *)
Lemma rpc_ok link w a peer dev qpn gid psn rkey h : world_ok w → get_host w a = Ok h →
  HasNonzeroIpPort peer = true → length gid = kGidSize →
  ∃ w' r, ConnectRdmaPeer link w a peer dev qpn gid psn rkey = Ok (w', r) ∧ world_ok w' ∧ same_selves w w' ∧ world_ext w w' ∧
    (∀ e, e ≠ peer → get_host w' e = get_host w e) ∧
    ∀ resp, r = inl resp → ∃ hb q hw psn', get_host w' peer = Ok hb ∧ q ∈ mg_inbound (ht_mgr hb) ∧ qp_owns (ht_lib hb) q hw ∧
      IsConnected q = true ∧ peer_of hw = (qpn, gid, psn, psn') ∧ answers resp q hw psn' ∧
      length (cx_local_gid (qr_ctx q)) = kGidSize.
Proof.
  intros [Hw Hs] Hh Hp Hg. pose proof Hh as (ca & f & Ha & Hf & _)%get_host_some.
  destruct (ConnectRdmaPeer_effect link w a peer dev qpn gid psn rkey ca Hw Ha Hp Hg)
    as (w' & r & E & Hw' & Hsame & Hother & Hcase). exists w', r. split; [done|].
  destruct Hcase as [(Hpeer & (e & ->) & _)|(cb & f2 & o & resp & s & Hb & Hf2 & Ecall & Hnew & Hdel & Hlost)].
  - assert (∀ x, same_handler w w' x) as Hall by (intros x; destruct (decide (x = peer)) as [->|]; [done|by apply Hother]).
    split; [split; [done|]|split; [done|split; [|split; [|done]]]]; [| |intros x _; by apply get_host_same].
    + intros x c g Hx Hgx. specialize (Hall x). unfold same_handler in Hall. rewrite Hx in Hall. cbn in Hall.
      destruct (w !! x) as [c0|] eqn:Hx0; [|done]. injection Hall as Hgc. apply (Hs x c0); congruence.
    + intros x h' Hh'. exists h'. split; [by rewrite (get_host_same w w' x)|apply host_ext_refl].
  - rewrite (Hs peer cb f2 Hb Hf2) in Ecall, Hnew. unfold handler_body at 1 in Ecall.
    assert (host_ok (rh_obj f2)) as Hokb by (apply (get_host_ok w peer); [by split|]; apply get_host_some; eauto).
    destruct (handleConnect_ok (rh_obj f2) (mkPRdmaConnReq None (Some dev) (Some qpn) (Some gid) (Some psn)
      (if negb (rkey =? 0) then Some rkey else None)) (mkPRdmaConnResp None None None None) Hokb) as (hb & rb & sb & Eb & Hokb' & Hext & Hsb).
    rewrite Eb, bind_Ok in Ecall. injection Ecall as <- <- <-.
    assert (get_host w' peer = Ok hb) as Hgb.
    { apply get_host_some. destruct (w' !! peer) as [c'|]; [|done]. injection Hnew as Hc'. by eexists c', _. }
    split; [split; [done|]|split; [done|split; [|split]]]; [| |intros x Hne; by apply get_host_same, Hother|].
    + intros x c g Hx Hgx. destruct (decide (x = peer)) as [->|Hne].
      * rewrite Hx in Hnew. injection Hnew as Hc'. rewrite Hgx in Hc'. by injection Hc' as ->.
      * pose proof (Hother x Hne) as Hall. unfold same_handler in Hall. rewrite Hx in Hall. cbn in Hall.
        destruct (w !! x) as [c0|] eqn:Hx0; [|done]. injection Hall as Hgc. apply (Hs x c0); congruence.
    + intros x h' Hh'. destruct (decide (x = peer)) as [->|Hne].
      * exists hb. split; [done|]. apply get_host_some in Hh' as (c & g & Hc & Hgc & <-). by simplify_eq.
      * exists h'. split; [by rewrite (get_host_same w w' x) by by apply Hother|apply host_ext_refl].
    + intros rs ->. destruct (decide (link = Delivered)) as [Hlink|Hlink]; [|by destruct (Hlost Hlink)].
      specialize (Hdel Hlink). destruct sb as [e|]; [done|]. injection Hdel as ->. cbn in *.
      destruct Hsb as (q & hw & psn' & Hin & Ho & Hcon & _ & Hpo & Hans & Hlen).
      exists hb, q, hw, psn'. split_and!; try done. rewrite Hin. apply elem_of_app. right. by apply list_elem_of_singleton.
Qed.

(** The queue pair of [c] at [a] and one of the accepted queue pairs of [peer] are connected
    to each other: numbers, addresses and sequence numbers match in both directions. *)
Definition paired w (a peer : Endpoint) (c : RdmaConn) : Prop :=
  ∃ ha hb hwa q hwb psn_a psn_b, get_host w a = Ok ha ∧ get_host w peer = Ok hb ∧
    qp_owns (ht_lib ha) (rn_qp c) hwa ∧ hq_state hwa = IBV_QPS_RTS ∧
    q ∈ mg_inbound (ht_mgr hb) ∧ qp_owns (ht_lib hb) q hwb ∧ hq_state hwb = IBV_QPS_RTS ∧
    peer_of hwa = (hq_num hwb, cx_local_gid (qr_ctx q), psn_b, psn_a) ∧
    peer_of hwb = (hq_num hwa, cx_local_gid (qr_ctx (rn_qp c)), psn_a, psn_b).

Lemma paired_ext w w' a peer c : world_ext w w' → paired w a peer c → paired w' a peer c.
Proof.
  intros Hx (ha & hb & hwa & q & hwb & pa & pb & Ha & Hb & Oa & Sa & Hin & Ob & Sb & P1 & P2).
  destruct (Hx a ha Ha) as (ha' & Ha' & Xa), (Hx peer hb Hb) as (hb' & Hb' & Xb).
  exists ha', hb', hwa, q, hwb, pa, pb. split_and!; try done.
  - by apply (qp_owns_ext (ht_lib ha)); [apply Xa|].
  - destruct (he_inbound _ _ Xb) as (l & -> & _). apply elem_of_app. by left.
  - by apply (qp_owns_ext (ht_lib hb)); [apply Xb|].
Qed.

Lemma connected_rts v q hw : qp_owns v q hw → IsConnected q = true → hq_state hw = IBV_QPS_RTS.
Proof. intros Ho Hc%bool_decide_eq_true. apply (qo_state _ _ _ Ho). by rewrite Hc. Qed.

(** Writing back a host that grew is a step of the world. *)
Lemma put_host_ext w0 w a h0 h h' : world_ok w → world_ext w0 w → get_host w0 a = Ok h0 → get_host w a = Ok h →
  host_ok h' → host_ext h0 h' →
  ∃ w', put_host w a h' = Ok w' ∧ world_ok w' ∧ same_selves w w' ∧ get_host w' a = Ok h' ∧ world_ext w0 w' ∧
    ∀ e, e ≠ a → get_host w' e = get_host w e.
Proof.
  intros Hw Hx H0' Hh Hok Hext. destruct (put_host_ok w a h h' Hw Hh Hok) as (w' & E & Hw' & Hs & Hg & Ho).
  exists w'. split_and!; try done. intros e x Hex. destruct (decide (e = a)) as [->|Hne].
  - exists h'. split; [done|]. rewrite H0' in Hex. by injection Hex as <-.
  - rewrite Ho by done. by apply Hx.
Qed.

(** Giving up an attempt: the world is one that grew from the one before it. *)
Lemma abandon_ok w0 w a h0 h q hw m : world_ok w → world_ext w0 w → get_host w0 a = Ok h0 → get_host w a = Ok h →
  pair_on m (ht_lib h) q hw → (∀ v, objs v = m → host_ok (with_lib h v) ∧ host_ext h0 (with_lib h v)) →
  ∃ w', abandon w a q = Ok (w', None) ∧ world_ok w' ∧ same_selves w w' ∧ world_ext w0 w' ∧
    ∃ v, get_host w' a = Ok (with_lib h v) ∧ objs v = m.
Proof.
  intros Hw Hx H0' Hh P Hm. unfold abandon. rewrite Hh, bind_Ok. destruct (pair_destroy _ _ _ _ P) as [Ed _].
  destruct (Hm _ Ed) as [Hok Hext]. destruct (put_host_ext w0 w a h0 h _ Hw Hx H0' Hh Hok Hext) as (w' & -> & Hw' & Hs & Hg & Hx' & _).
  rewrite bind_Ok. eauto 10.
Qed.

(** The objects of the pair of a connection. *)
Definition conn_handles (r : option RdmaConn) : list Z := match r with Some c => qp_handles (rn_qp c) | None => [] end.

(** The last step: the response configures the local queue pair. *)
Lemma finish_ok w0 w a peer h0 h q hw m local_psn lkey resp hb qb hwb psn_b :
  world_ok w → world_ext w0 w → get_host w0 a = Ok h0 → get_host w a = Ok h →
  pair_on m (ht_lib h) q hw → qr_state q = kInit →
  (∀ v, objs v = m → host_ok (with_lib h v) ∧ host_ext h0 (with_lib h v)) →
  get_host w peer = Ok hb → qb ∈ mg_inbound (ht_mgr hb) → qp_owns (ht_lib hb) qb hwb → IsConnected qb = true →
  peer_of hwb = (hq_num hw, cx_local_gid (qr_ctx q), local_psn, psn_b) → answers resp qb hwb psn_b →
  ∃ w' r, (let '(v, qp, status) := QPair_Connect (ht_lib h) q (default 0 (rr_qpn resp)) (default [] (rr_gid resp))
             (default 0 (rr_psn resp)) local_psn in
           let* w := put_host w a (with_lib h v) in
           match status with
           | Some _ => abandon w a qp
           | None => Ok (w, Some (RdmaConn_new qp lkey (default 0 (rr_rkey resp))))
           end) = Ok (w', r) ∧
    world_ok w' ∧ same_selves w w' ∧ world_ext w0 w' ∧ (∀ c, r = Some c → paired w' a peer c) ∧
    ∃ v, get_host w' a = Ok (with_lib h v) ∧ ∀ x, x ∉ conn_handles r → objs v !! x = m !! x.
Proof.
  intros Hw Hx Ha0 Ha P Hst Hm Hb Hqb Ob Cb Pb (A1 & A2 & A3). rewrite A1, A2, A3. cbn [default].
  destruct (pair_connect _ _ _ _ (hq_num hwb) (cx_local_gid (qr_ctx qb)) psn_b local_psn P Hst) as (v3 & q3 & s & hw3 & E3 & P3 & Ec & _ & Hs).
  change (default 0 (Some ?x)) with x. cbn [from_option id]. rewrite E3.
  destruct (pair_destroy _ _ _ _ P) as [Ed _]. destruct (Hm _ Ed) as [Hokd Hextd].
  assert (tab_ext (objs (RdmaQPair_destroy (ht_lib h) q)) (objs v3)) as Hd3 by (rewrite Ed; by eapply pair_ext).
  destruct (host_grow (with_lib h (RdmaQPair_destroy (ht_lib h) q)) (with_lib h v3) []) as [Hok3 Hext3]; try done;
    [apply P3|by rewrite app_nil_r|by intros ? ? ?%elem_of_nil|].
  destruct (put_host_ext w0 w a h0 h (with_lib h v3) Hw Hx Ha0 Ha Hok3 (host_ext_trans _ _ _ Hextd Hext3))
    as (w3 & -> & Hw3 & Hs3 & Hg3 & Hx3 & Ho3). rewrite bind_Ok. destruct s as [e|].
  - destruct (abandon_ok w0 w3 a h0 (with_lib h v3) q3 hw3 m Hw3 Hx3 Ha0 Hg3 P3 Hm) as (w' & -> & Hw' & Hs' & Hx' & v & Hv & Ev).
    eexists w', None. split_and!; try done; [by eapply same_selves_trans|]. exists v. split; [done|]. by rewrite Ev.
  - destruct Hs as (Hcon & Hn & Hp). eexists w3, _. split; [done|]. split_and!; try done; [intros c [= <-]|exists v3; split; [done|]; intros x Hnx; by apply (po_frame _ _ _ _ P3)].
    assert (∃ hb3, get_host w3 peer = Ok hb3 ∧ qb ∈ mg_inbound (ht_mgr hb3) ∧ qp_owns (ht_lib hb3) qb hwb) as (hb3 & Hb3 & Hin3 & Ob3).
    { destruct (decide (peer = a)) as [->|Hne]; [|exists hb; by rewrite Ho3]. rewrite Ha in Hb. injection Hb as <-.
      exists (with_lib h v3). split; [done|]. split; [done|]. apply (qp_owns_ext (RdmaQPair_destroy (ht_lib h) q)); [done|].
      pose proof (ho_inbound _ Hokd) as I. rewrite Forall_forall in I. destruct (I qb Hqb) as (_ & _ & hw' & Od). cbn in Od.
      pose proof (te_keep _ _ (pair_ext _ _ _ _ P) _ _ ltac:(rewrite <- Ed; exact (qo_qp _ _ _ Od))) as Eq.
      rewrite (qo_qp _ _ _ Ob) in Eq. by injection Eq as ->. }
    exists (with_lib h v3), hb3, hw3, qb, hwb, local_psn, psn_b. split; [done|]. split; [done|]. split; [apply P3|]. split; [|split; [done|split; [done|split; [|split]]]]; [by apply (connected_rts v3 q3); [apply P3|]|
      by apply (connected_rts (ht_lib hb3) qb)|done|]. rewrite Pb, Hn. cbn [rn_qp RdmaConn_new]. by rewrite Ec.
Qed.

Lemma connect_once_ok link w a peer remotes i h d : world_ok w → get_host w a = Ok h → mg_device (ht_mgr h) = Some d →
  remotes ≠ [] → HasNonzeroIpPort peer = true →
  ∃ w' r, connect_once link w a peer (dv_ctxs d) remotes i = Ok (w', r) ∧ world_ok w' ∧ same_selves w w' ∧ world_ext w w' ∧
    (∀ c, r = Some c → paired w' a peer c) ∧
    (a ≠ peer → ∃ h', get_host w' a = Ok h' ∧ ∀ x, x ∉ conn_handles r → objs (ht_lib h') !! x = objs (ht_lib h) !! x).
Proof.
  intros Hw Ha Ed Hr Hp. pose proof (get_host_ok w a h Hw Ha) as Hok. unfold connect_once. rewrite Ha, bind_Ok.
  destruct (ho_device _ Hok) as (d' & Ed' & Hne & _ & Hops). rewrite Ed in Ed'. injection Ed' as <-.
  destruct (lookup_lt_is_Some_2 (dv_ctxs d) (i mod length (dv_ctxs d))) as [ctx Hctx].
  { apply Nat.mod_upper_bound. by destruct (dv_ctxs d). }
  destruct (lookup_lt_is_Some_2 remotes (i mod length remotes)) as [rem Hrem]; [apply Nat.mod_upper_bound; by destruct remotes|].
  rewrite Hctx, Hrem. cbn [at_or]. rewrite !bind_Ok. rewrite Forall_forall in Hops.
  assert (opened (ht_lib h) ctx) as Hop by (apply Hops; by eapply list_elem_of_lookup_2).
  destruct (pair_create (ht_lib h) ctx (ho_closed _ Hok) Hop) as (v1 & r1 & -> & Hr1). rewrite bind_Ok. destruct r1 as [q|e].
  2:{ destruct (host_same h (with_lib h v1)) as [Hok1 Hx1]; [done..|].
      destruct (put_host_ext w w a h h _ Hw (world_ext_refl w) Ha Ha Hok1 Hx1) as (w' & -> & Hw' & Hs & Hg & Hx & _).
      rewrite bind_Ok. eexists w', None. split_and!; try done. intros _. eexists. split; [exact Hg|]. cbn. by rewrite Hr1. }
  destruct Hr1 as (Hst & Hqc & hw & P). destruct (genPsn_spec (with_lib h v1)) as (g & psn & -> & _).
  set (h1 := with_bitgen (with_lib h v1) g). destruct (default_keys h1 (cx_name ctx)) as [lkey rkey].
  destruct (host_grow h h1 []) as [Hok1 Hx1]; try done; [by eapply pair_ext|apply P|by rewrite app_nil_r|by intros ? ? ?%elem_of_nil|].
  destruct (put_host_ext w w a h h h1 Hw (world_ext_refl w) Ha Ha Hok1 Hx1) as (w1 & -> & Hw1 & Hs1 & Hg1 & Hxw1 & _). rewrite bind_Ok.
  destruct (rpc_ok link w1 a peer (nic_name rem) (Qpn v1 q) (cx_local_gid ctx) psn rkey h1 Hw1 Hg1 Hp (op_gid _ _ Hop))
    as (w2 & r2 & -> & Hw2 & Hs2 & Hxw2 & Hsame & Hresp). rewrite bind_Ok. destruct (Hxw2 a h1 Hg1) as (h2 & Hg2 & Hx2).
  destruct (host_without h h1 h2 q hw Hok P eq_refl eq_refl eq_refl (get_host_ok _ _ _ Hw2 Hg2) Hx2) as (m & P2 & Hm).
  assert (a ≠ peer → m = objs (ht_lib h)) as Hbase.
  { intros Hap. rewrite (Hsame a Hap), Hg1 in Hg2. injection Hg2 as <-. by apply (pair_unique _ m v1 q hw P). }
  pose proof (world_ext_trans _ _ _ Hxw1 Hxw2) as Hx02. pose proof (same_selves_trans _ _ _ Hs1 Hs2) as Hs02.
  destruct (abandon_ok w w2 a h h2 q hw m Hw2 Hx02 Ha Hg2 P2 Hm) as (wg & Eg & Hwg & Hsg & Hxg & vg & Hvg & Evg).
  assert (∃ w' r, abandon w2 a q = Ok (w', r) ∧ world_ok w' ∧ same_selves w w' ∧ world_ext w w' ∧ (∀ c, r = Some c → paired w' a peer c) ∧
    (a ≠ peer → ∃ h', get_host w' a = Ok h' ∧ ∀ x, x ∉ conn_handles r → objs (ht_lib h') !! x = objs (ht_lib h) !! x)) as Hgive.
  { exists wg, None. split_and!; try done; [by eapply same_selves_trans|]. intros Hap. exists (with_lib h2 vg). split; [done|].
    intros x _. cbn. by rewrite Evg, Hbase. }
  destruct r2 as [resp|e]; [|done]. destruct (negb _); [done|]. rewrite Hg2, bind_Ok.
  destruct (Hresp resp eq_refl) as (hb & qb & hwb & psn_b & Hb & Hin & Ob & Cb & Pb & Hans & _).
  rewrite (Qpn_owns _ _ _ (po_owns _ _ _ _ P)), <- Hqc in Pb.
  destruct (finish_ok w w2 a peer h h2 q hw m psn lkey resp hb qb hwb psn_b Hw2 Hx02 Ha Hg2 P2 Hst Hm Hb Hin Ob Cb Pb Hans)
    as (w' & r & E & Hw' & Hs' & Hx' & Hpair & v & Hv & Ev). rewrite E. exists w', r. split_and!; try done; [by eapply same_selves_trans|].
  intros Hap. exists (with_lib h2 v). split; [done|]. intros x Hnx. cbn. rewrite <- (Hbase Hap). by apply Ev.
Qed.

Definition conns_handles (cs : list RdmaConn) : list Z := cs ≫= λ c, qp_handles (rn_qp c).

Lemma connect_loop_ok links peer remotes num a d n : ∀ w i cs h, world_ok w → get_host w a = Ok h → mg_device (ht_mgr h) = Some d →
  remotes ≠ [] → HasNonzeroIpPort peer = true → Forall (paired w a peer) cs → Z.of_nat (length cs) < num →
  ∃ w' cs' h', connect_loop links n w a peer (dv_ctxs d) remotes num i cs = Ok (w', cs ++ cs') ∧ world_ok w' ∧ same_selves w w' ∧
    world_ext w w' ∧ Forall (paired w' a peer) (cs ++ cs') ∧ Z.of_nat (length (cs ++ cs')) ≤ num ∧ get_host w' a = Ok h' ∧
    (a ≠ peer → ∀ x, x ∉ conns_handles cs' → objs (ht_lib h') !! x = objs (ht_lib h) !! x).
Proof.
  induction n as [|n IH]; intros w i cs h Hw Ha Ed Hr Hp Hcs Hlt; cbn [connect_loop].
  { exists w, [], h. rewrite app_nil_r. split_and!; try done; [apply world_ext_refl|lia]. }
  destruct (connect_once_ok (links i) w a peer remotes i h d Hw Ha Ed Hr Hp) as (w1 & r & -> & Hw1 & Hs1 & Hx1 & Hpair & Hfr).
  rewrite bind_Ok. destruct (Hx1 a h Ha) as (h1 & Ha1 & Hext1).
  assert (mg_device (ht_mgr h1) = Some d) as Ed1 by (rewrite (he_device _ _ Hext1); done).
  assert (Forall (paired w1 a peer) cs) as Hcs1 by (apply (Forall_impl _ _ _ Hcs); intros c; by apply paired_ext).
  assert (a ≠ peer → ∀ x, x ∉ conn_handles r → objs (ht_lib h1) !! x = objs (ht_lib h) !! x) as Hfr1.
  { intros Hap. destruct (Hfr Hap) as (h' & Hh' & Hf). rewrite Ha1 in Hh'. by injection Hh' as <-. }
  destruct r as [c|].
  2:{ destruct (IH w1 (S i) cs h1 Hw1 Ha1 Ed1 Hr Hp Hcs1 Hlt) as (w' & cs' & h' & E & Hw' & Hs' & Hx' & Hcs' & Hl & Ha' & Hf').
      exists w', cs', h'. split_and!; try done; [by eapply same_selves_trans|by eapply world_ext_trans|].
      intros Hap x Hx. rewrite Hf' by done. apply Hfr1; [done|]. by intros ?%elem_of_nil. }
  assert (Forall (paired w1 a peer) (cs ++ [c])) as Hcs2 by (apply Forall_app; split; [done|apply Forall_singleton; by apply Hpair]).
  destruct (Z.leb_spec num (Z.of_nat (length (cs ++ [c])))) as [Hge|Hlt2].
  - exists w1, [c], h1. split_and!; try done. rewrite length_app in *. cbn in *. lia.
  - destruct (IH w1 (S i) (cs ++ [c]) h1 Hw1 Ha1 Ed1 Hr Hp Hcs2 Hlt2) as (w' & cs' & h' & E & Hw' & Hs' & Hx' & Hcs' & Hl & Ha' & Hf').
    exists w', (c :: cs'), h'. rewrite <- app_assoc in E, Hcs', Hl. cbn [app] in E, Hcs', Hl.
    split_and!; try done; [by eapply same_selves_trans|by eapply world_ext_trans|].
    intros Hap x Hx. change (conns_handles (c :: cs')) with (conn_handles (Some c) ++ conns_handles cs') in Hx. rewrite elem_of_app in Hx.
    rewrite Hf'; [apply Hfr1; tauto|tauto|tauto].
Qed.

Lemma Manager_Connect_ok info_link links w a peer n h : world_ok w → get_host w a = Ok h → 1 ≤ n →
  ∃ w' conns h', Manager_Connect info_link links w a peer n = Ok (w', conns) ∧ world_ok w' ∧ world_ext w w' ∧
    Z.of_nat (length conns) ≤ n ∧ Forall (paired w' a peer) conns ∧ get_host w' a = Ok h' ∧
    (a ≠ peer → ∀ x, x ∉ conns_handles conns → objs (ht_lib h') !! x = objs (ht_lib h) !! x).
Proof.
  intros Hw Ha Hn. unfold Manager_Connect. rewrite Ha, bind_Ok. pose proof (get_host_ok w a h Hw Ha) as Hok.
  destruct (ho_device _ Hok) as (d & Ed & Hne & _). rewrite Ed, bool_decide_eq_false_2 by done.
  pose proof Ha as (ca & f & Hca & Hf & _)%get_host_some. destruct Hw as [Hw Hstd].
  destruct (GetPeerHostInfo_ok info_link w a peer ca Hw Hca) as (w1 & r & E & Hw1 & Hs1 & Hinfo & _). rewrite E, bind_Ok.
  assert (∀ e, get_host w1 e = get_host w e) as Hg1
    by (intros e; by apply get_host_same, (GetPeerHostInfo_same_handler _ _ _ _ _ _ E)).
  assert (world_ok w1) as Hwo1.
  { split; [done|]. intros e c g Hc Hgc. pose proof (GetPeerHostInfo_same_handler _ _ _ _ _ _ E e) as Hsh.
    unfold same_handler in Hsh. rewrite Hc in Hsh. cbn in Hsh. destruct (w !! e) as [c0|] eqn:Hc0; [|done].
    injection Hsh as Hsh. apply (Hstd e c0); congruence. }
  assert (world_ext w w1) as Hx1 by (intros e x Hx; exists x; split; [by rewrite Hg1|apply host_ext_refl]).
  assert (∃ w' conns h', Ok (w1, []) = Ok (w', conns) ∧ world_ok w' ∧ world_ext w w' ∧
    Z.of_nat (length conns) ≤ n ∧ Forall (paired w' a peer) conns ∧ get_host w' a = Ok h' ∧
    (a ≠ peer → ∀ x, x ∉ conns_handles conns → objs (ht_lib h') !! x = objs (ht_lib h) !! x)) as Hnone
    by (exists w1, [], h; split_and!; try done; [cbn; lia|by rewrite Hg1]).
  destruct r as [info|e]; [|done]. case_bool_decide as Hrem; [done|]. clear Hnone.
  assert (HasNonzeroIpPort peer = true) as Hp.
  { unfold GetPeerHostInfo in E. rewrite Hca in E. cbn [at_or] in E. rewrite bind_Ok in E.
    destruct (HasNonzeroIpPort peer); [done|]. by injection E. }
  destruct (connect_loop_ok links peer _ n a d (Z.to_nat (2 * n)) w1 0 [] h Hwo1 ltac:(by rewrite Hg1) Ed Hrem Hp)
    as (w' & cs & h' & E' & Hw' & _ & Hx' & Hcs & Hl & Hh' & Hfr); [done|cbn; lia|].
  exists w', cs, h'. split_and!; try done. by eapply world_ext_trans.
Qed.

(** C32: the RDMA handshake pairs queue pairs.  In a world of processes whose hosts are
    well-formed, [Connect] to any peer, over links that fail in any way and with an RDMA
    library that refuses any call, ends without failing an assertion.  It returns at most the
    number of connections asked for, and each is complete at both ends: the local queue pair
    and one that the peer keeps are ready to send, each with the number and address of the
    other, and each expects the sequence number that the other starts with.  Later attempts
    and failures do not disturb the connections of either side, and for a peer on another
    host nothing else remains on the caller's device. *)
Theorem RdmaManager_handshake info_link links w a peer n h : world_ok w → get_host w a = Ok h → 1 ≤ n →
  ∃ w' conns h', Manager_Connect info_link links w a peer n = Ok (w', conns) ∧ world_ok w' ∧ world_ext w w' ∧
    Z.of_nat (length conns) ≤ n ∧ Forall (paired w' a peer) conns ∧ get_host w' a = Ok h' ∧
    (a ≠ peer → ∀ x, x ∉ conns_handles conns → objs (ht_lib h') !! x = objs (ht_lib h) !! x).
Proof. apply Manager_Connect_ok. Qed.
End Worlds.

(** * Examples: two hosts *)

#[export] Instance counter_random : Random Z := { random_u32 g := (g + 1, 7919 * g) }.
Definition rdma_config : Config := mkConfig kRdma 2 false.
Definition rdma_listener (n : Z) : Endpoint := mkEndpoint (IPv4 [10; 0; 0; n]) 20000.
(** A process that serves and has no data plane yet. *)
Definition rdma_control (n : Z) : Control (RdmaHost rdma_sim Z) :=
  mkControl rdma_config (mkHostInfo (rdma_listener n) []) (mkCreds true true) (Some 20000) true 0 ∅ ∅ None None.
(** The same with its manager, on a library that grants [left] allocations. *)
Definition rdma_process (n : Z) (left : nat) : Control (RdmaHost rdma_sim Z) :=
  match RdmaManager_Create rdma_config (sim_new left) n (rdma_control n) with Ok (_, Some c) => c | _ => rdma_control n end.
Definition two_hosts (left : nat) : gmap Endpoint (Control (RdmaHost rdma_sim Z)) :=
  <[rdma_listener 2 := rdma_process 2 40]> {[rdma_listener 1 := rdma_process 1 left]}.
Definition run_connect (left : nat) (links : nat → Link) :=
  @Manager_Connect rdma_sim Z sim_lib counter_random HexText.text Delivered links (two_hosts left) (rdma_listener 1) (rdma_listener 2) 2.
(** The connections, and how many queue pairs the peer keeps. *)
Definition outcome (left : nat) (links : nat → Link) : option (nat * nat) :=
  match run_connect left links with
  | Ok (w, cs) => match get_host w (rdma_listener 2) with
                  | Ok h => Some (length cs, length (mg_inbound (ht_mgr h)))
                  | Fault _ => None
                  end
  | Fault _ => None
  end.

(** Both connections; the first attempt is refused; the library of the caller runs dry. *)
Example connect_all : outcome 40 (λ _, Delivered) = Some (2%nat, 2%nat).
Proof. vm_compute. reflexivity. Qed.
Example connect_retry : outcome 40 (λ i, if (i =? 0)%nat then Refused Unavailable else Delivered) = Some (2%nat, 2%nat).
Proof. vm_compute. reflexivity. Qed.
Example connect_dry : outcome 9 (λ _, Delivered) = Some (1%nat, 1%nat).
Proof. vm_compute. reflexivity. Qed.
(** When answers are lost the caller has no connection, and the peer keeps the queue pairs of
    all four attempts: nothing releases an accepted queue pair before the manager dies. *)
Example accepted_pairs_stay : outcome 40 (λ _, ReplyLost Unavailable) = Some (0%nat, 4%nat).
Proof. vm_compute. reflexivity. Qed.

Lemma rdma_process_ok n : (n = 1 ∨ n = 2) → ∃ h, host_ok h ∧ co_rdma_handler (rdma_process n 40) = Some (mkRdmaConnHandler h handler_body).
Proof.
  intros Hn. destruct (RdmaManager_Create_ok rdma_config (sim_new 40) n (rdma_control n) (sim_new_closed 40)) as (v & r & E & Hr).
  { assert (match RdmaDevice_Create (sim_new 40) with
            | Ok (_, inl d) => forallb (λ x, NicInfo_IsValid (nic_of x)) (dv_ctxs d) | _ => true end = true) as Hv by (vm_compute; reflexivity).
    intros v' d Ed. rewrite Ed in Hv. apply Forall_forall. intros x Hx. rewrite forallb_forall in Hv. by apply Hv, list_elem_of_In. }
  assert (match RdmaManager_Create rdma_config (sim_new 40) n (rdma_control n) with Ok (_, Some _) => true | _ => false end = true) as Hs
    by (destruct Hn as [->| ->]; vm_compute; reflexivity).
  unfold rdma_process. rewrite E in *. destruct r as [c|]; [|done]. destruct Hr as (d & h & _ & Hok & _ & Hc & _). exists h. split; [exact Hok|exact Hc].
Qed.

Lemma two_hosts_ok : world_ok (two_hosts 40).
Proof.
  assert (∀ n, n = 1 ∨ n = 2 → ctrl_ok (rdma_listener n) (rdma_process n 40)) as Hp.
  { intros n Hn. destruct (rdma_process_ok n Hn) as (h & Hok & Hh). split.
    - destruct Hn as [->| ->]; vm_compute; reflexivity.
    - destruct Hn as [->| ->]; vm_compute; reflexivity.
    - destruct Hn as [->| ->]; (apply (bool_decide_unpack _); vm_compute; exact I).
    - destruct Hn as [->| ->]; vm_compute; reflexivity.
    - destruct Hn as [->| ->]; vm_compute; reflexivity.
    - destruct Hn as [->| ->]; vm_compute; eauto.
    - destruct Hn as [->| ->]; vm_compute; reflexivity.
    - assert (co_hosts (rdma_process n 40) = ∅) as -> by (destruct Hn as [->| ->]; vm_compute; reflexivity). apply map_Forall_empty.
    - rewrite Hh. intros f [= <-]. by apply handler_body_safe. }
  assert (∀ e c, two_hosts 40 !! e = Some c → ∃ n, (n = 1 ∨ n = 2) ∧ e = rdma_listener n ∧ c = rdma_process n 40) as Hin.
  { unfold two_hosts. intros e c [[<- <-]|[_ [<- <-]%lookup_singleton_Some]]%lookup_insert_Some; [exists 2|exists 1]; split_and!; auto. }
  split.
  - intros e c (n & Hn & -> & ->)%Hin. split; [by apply Hp|].
    assert (co_hosts (rdma_process n 40) = ∅) as -> by (destruct Hn as [->| ->]; vm_compute; reflexivity). by intros p x ?%lookup_empty_Some.
  - intros e c f (n & Hn & -> & ->)%Hin Hf. destruct (rdma_process_ok n Hn) as (h & _ & Hh). rewrite Hh in Hf. by injection Hf as <-.
Qed.

Lemma RdmaManager_handshake_witness : ∃ w' c1 c2,
  run_connect 40 (λ _, Delivered) = Ok (w', [c1; c2]) ∧
  paired w' (rdma_listener 1) (rdma_listener 2) c1 ∧ paired w' (rdma_listener 1) (rdma_listener 2) c2.
Proof.
  destruct (rdma_process_ok 1 ltac:(auto)) as (h & _ & Hh).
  assert (get_host (two_hosts 40) (rdma_listener 1) = Ok h) as Hg.
  { unfold get_host, two_hosts. rewrite lookup_insert_ne by (by vm_compute). rewrite lookup_singleton_eq. cbn [at_or].
    rewrite bind_Ok, Hh. reflexivity. }
  destruct (RdmaManager_handshake (T := HexText.text) (NetTextLaws0 := HexText.text_laws) Delivered (λ _, Delivered) (two_hosts 40) (rdma_listener 1) (rdma_listener 2) 2 h two_hosts_ok Hg ltac:(lia))
    as (w' & cs & h' & E & _ & _ & _ & Hcs & _).
  assert (match run_connect 40 (λ _, Delivered) with Ok (_, cs) => length cs | Fault _ => 0%nat end = 2%nat) as Hl by (vm_compute; reflexivity).
  unfold run_connect in *. rewrite E in Hl. destruct cs as [|c1 [|c2 [|]]]; try discriminate Hl.
  exists w', c1, c2. split; [exact E|]. rewrite !Forall_cons in Hcs. tauto.
Defined.
