(* ===== verification/EngineHelper.v ===== *)
(** The engine's helper, [internal/engine/engine_helper]: it owns the TCP and the RDMA manager
    of a process, turns their connections into channels, and forwards memory registration
    and tracing.

    The process is the entry of the world of [Control] at the endpoint [a]; its RDMA manager
    lives in the handler installed there (see [RdmaManager]).  The TCP manager has a thread of
    its own: the functions [other i] are what that thread does between the calls of a
    connection loop. *)

From Stdlib Require Import Ascii String.
From stdpp Require Import base tactics numbers gmap fin_maps sets list.
From S2P Require Import Prelude Containers Codec IpAddr Endpoint Types Socket Trace ChromeTrace ChromeRender Metrics HostInfo Ownership FdTable FdSim TcpManager TcpManagerLife ControlMessage Control RdmaVerbs RdmaSim RdmaContext RdmaQPair RdmaMemory RdmaChannel RdmaManager.
Local Open Scope Z_scope.

(** The address [getpeername] returns. *)
Class PeerNames (K : Type) := { getpeername : K → Z → option sockaddr }.

(** * Data *)

(** The channels the helper creates. *)
Inductive EngineChannel : Type := TcpCh (socket : SocketBase) | RdmaCh (ch : RdmaChannel).

Record EngineHelper := mkEngineHelper {
  eh_config : Config; eh_metrics : EngineMetrics; eh_tracer : TraceRecorder;
  eh_tcp_mgr : TcpManager; eh_rdma_mgr : bool;   (* whether it is not null *)
}.
Definition with_metrics (h : EngineHelper) (m : EngineMetrics) : EngineHelper :=
  mkEngineHelper (eh_config h) m (eh_tracer h) (eh_tcp_mgr h) (eh_rdma_mgr h).
Definition with_tracer (h : EngineHelper) (t : TraceRecorder) : EngineHelper :=
  mkEngineHelper (eh_config h) (eh_metrics h) t (eh_tcp_mgr h) (eh_rdma_mgr h).
Definition with_tcp_mgr (h : EngineHelper) (m : TcpManager) : EngineHelper :=
  mkEngineHelper (eh_config h) (eh_metrics h) (eh_tracer h) m (eh_rdma_mgr h).

(** The members' initial values. *)
Definition OpMetrics_new : OpMetrics :=
  mkOpMetrics (Log2Histogram_new 32) (Log2Histogram_new 32) (MetricCounter_new 0) (MetricCounter_new 0).
Definition EngineMetrics_new : EngineMetrics :=
  mkEngineMetrics OpMetrics_new OpMetrics_new (Log2Histogram_new 32) (MetricCounter_new 0).

(** [metrics_.tcp_connect_failures.Add]. *)
Definition add_failures (m : EngineMetrics) (failures : Z) : EngineMetrics :=
  mkEngineMetrics (em_write m) (em_read m) (em_recv_post_latency_us m)
    (MetricCounter_Add (em_tcp_connect_failures m) failures).

Section Ops.
Context {K V R : Type} `{Kernel K} `{EventKernel K} `{PeerNames K} `{RdmaLib V} `{Verbs V} `{Random R} `{T : NetText}.
Abbreviation Host := (RdmaHost V R).
Abbreviation RdmaWorld := (gmap Endpoint (Control Host)).

Definition PeerEndpoint (k : K) (fd : Z) : Endpoint :=
  from_option Endpoint_of_sockaddr Endpoint_default (getpeername k fd).

(** [CreateTcpChannel]; the assertions are those of the constructor of [TcpChannel]. *)
Definition CreateTcpChannel (k : K) (socket : SocketBase) : res EngineChannel :=
  do* dcheck (IsValidSocket k (sk_fd socket));
  let* b := IsBlocking k socket in
  let* ok := if b : bool then Ok true else IsNonBlocking k socket in
  do* dcheck ok;
  Ok (TcpCh socket).
Definition CreateRdmaChannel (this : Z) (conn : RdmaConn) : EngineChannel := RdmaCh (RdmaChannel_new this conn).

Definition Helper_invariant (h : EngineHelper) (self : HostInfo) : bool :=
  Config_IsValid (eh_config h) && IsDataPlaneValid self.

(** The members of [TcpManager] die in reverse order; it has no destructor of its own. *)
Definition TcpManager_destroy (k : K) (m : TcpManager) : res K :=
  let* k := destroy_all k (pr_sockets (tm_outgoing m)) in
  let* k := destroy_all k (pr_sockets (tm_incoming m)) in
  let* k := destroy_all k (c_socket <$> vals (cn_map (tm_connectors m))) in
  let* k := destroy_all k (l_socket <$> vals (tm_listeners m)) in
  Poller_destroy k (tm_poller m).

(** The destructor of a nullable RDMA manager; the library is free again. *)
Definition drop_rdma (control : Control Host) : Control Host * option V :=
  match co_rdma_handler control with
  | Some f => let '(control, v) := RdmaManager_destroy control (rh_obj f) in (control, Some v)
  | None => (control, None)
  end.

Definition EngineHelper_new (config : Config) (self : HostInfo) (tcp_mgr : TcpManager) (rdma_mgr : bool) : res EngineHelper :=
  let h := mkEngineHelper config EngineMetrics_new (TraceRecorder_new 0) tcp_mgr rdma_mgr in
  do* dcheck (Helper_invariant h self);
  Ok h.

(** [self] is the host information that [control] refers to.  The RDMA library is given back
    unless a manager has it. *)
Definition EngineHelper_Create (config : Config) (k : K) (routable : list (str * (NicType * list IpAddr))) (v : V) (g : R)
    (control : Control Host) : res (K * Control Host * option V * option EngineHelper) :=
  do* dcheck (Config_IsValid config);
  let with_self (c : Control Host) self := with_server c self (co_server c) (co_serving c) in
  let control := with_self control (mkHostInfo (control_plane_listener (co_self control)) []) in
  let* '(v, rdma_mgr) := RdmaManager_Create config v g control in
  if negb (bool_decide (is_Some rdma_mgr)) && bool_decide (transport_type config = kRdma)
  then Ok (k, control, Some v, None)
  else
    let control := default control rdma_mgr in
    let rdma := bool_decide (is_Some rdma_mgr) in
    let drop c := if rdma : bool then drop_rdma c else (c, Some v) in
    let* '(k, self, tcp_mgr) := TcpManager_Create k routable (co_self control) in
    let control := with_self control self in
    match tcp_mgr with
    | None => let '(control, v) := drop control in Ok (k, control, v, None)
    | Some tcp_mgr =>
        if negb (IsDataPlaneValid self) then
          let* k := TcpManager_destroy k tcp_mgr in
          let '(control, v) := drop control in Ok (k, control, v, None)
        else
          do* dcheck (negb (require_dataplane_encryption config));
          let* h := EngineHelper_new config self tcp_mgr rdma in
          Ok (k, control, if rdma : bool then None else Some v, Some h)
    end.

(** The destructor: [Stop], then the members in reverse order.  Joining the thread runs
    [Start] to its end. *)
Definition EngineHelper_destroy (fuel : nat) (k : K) (control : Control Host) (h : EngineHelper) : res (K * Control Host * option V) :=
  do* dcheck (Helper_invariant h (co_self control));
  let* '(k, m) := Stop k (eh_tcp_mgr h) in
  let* '(k, m) := Start_loop fuel k m true in
  let '(control, v) := if eh_rdma_mgr h then drop_rdma control else (control, None) in
  let* k := TcpManager_destroy k m in
  Ok (k, control, v).

(** The accepted sockets; one whose peer is unknown is dropped. *)
Definition accepted_loop : K * list EngineChannel → SocketBase → res (K * list EngineChannel) :=
  λ '(k, chs) socket,
    if negb (HasNonzeroIpPort (PeerEndpoint k (sk_fd socket)))
    then let* k := Socket_destroy k socket in Ok (k, chs)
    else let* ch := CreateTcpChannel k socket in Ok (k, chs ++ [ch]).
Definition GetAcceptedChannels (k : K) (h : EngineHelper) : res (K * EngineHelper * list EngineChannel) :=
  let '(m, sockets) := GetIncomingSockets (eh_tcp_mgr h) in
  let* '(k, chs) := foreach accepted_loop (k, []) sockets in
  Ok (k, with_tcp_mgr h m, chs).

(** The loop of [connectTcp] with [fuel] iterations left until [i = 2 * n]. *)
Fixpoint connectTcp_loop (other : nat → K → TcpManager → res (K * TcpManager)) (encrypt : bool) (peers : list Endpoint) (n : Z)
    (fuel : nat) (k : K) (m : TcpManager) (i : nat) (chs : list EngineChannel) (failures : Z)
    : res (K * TcpManager * list EngineChannel * Z) :=
  if negb (Z.of_nat (length chs) <? n) then Ok (k, m, chs, failures)
  else match fuel with
  | O => Ok (k, m, chs, failures)
  | S fuel =>
      do* dcheck (negb encrypt);
      let* peer := at_or OutOfRange (peers !! (i mod length peers)%nat) in
      let* '(k, m) := other (2 * i)%nat k m in
      let* '(k, m, ret) := Connect k m Endpoint_default peer true None in
      let failures := if ret <? 0 then failures + 1 else failures in
      let* '(k, m) := other (2 * i + 1)%nat k m in
      let '(m, sockets) := GetOutgoingSockets m in
      let* chs := foreach (λ chs s, let* ch := CreateTcpChannel k s in Ok (chs ++ [ch])) chs sockets in
      connectTcp_loop other encrypt peers n fuel k m (S i) chs failures
  end.

(** [now] is the time at which the host information is there. *)
Definition connectTcp (link : Link) (other : nat → K → TcpManager → res (K * TcpManager)) (w : RdmaWorld) (a : Endpoint)
    (k : K) (h : EngineHelper) (peer_control : Endpoint) (n : Z) (traced : bool) (handle now : Z)
    : res (RdmaWorld * K * EngineHelper * list EngineChannel) :=
  let* '(w, peer_info) := GetPeerHostInfo link w a peer_control in
  let h := with_tracer h (RecordGetPeerHostInfoDone (eh_tracer h) traced handle now) in
  match peer_info with
  | inr _ => Ok (w, k, h, [])
  | inl info =>
      let peers := GetTcpListeners info in
      if bool_decide (peers = []) then Ok (w, k, h, [])
      else
        let* '(k, m, chs, failures) := connectTcp_loop other (require_dataplane_encryption (eh_config h)) peers n
                                         (Z.to_nat (2 * n)) k (eh_tcp_mgr h) 0 [] 0 in
        let h := with_tcp_mgr h m in
        Ok (w, k, if 0 <? failures then with_metrics h (add_failures (eh_metrics h) failures) else h, chs)
  end.

(** [addr i] is the address of the channel object number [i]. *)
Definition connectRdma (link : Link) (links : nat → Link) (addr : nat → Z) (w : RdmaWorld) (a : Endpoint) (h : EngineHelper)
    (peer_control : Endpoint) (n : Z) : res (RdmaWorld * list EngineChannel) :=
  if negb (eh_rdma_mgr h) then Ok (w, [])
  else
    let* '(w, conns) := Manager_Connect link links w a peer_control n in
    Ok (w, imap (λ i c, CreateRdmaChannel (addr i) c) conns).

(** [now i]: the times of the three trace points. *)
Definition Helper_Connect (link : Link) (links : nat → Link) (addr : nat → Z) (other : nat → K → TcpManager → res (K * TcpManager))
    (w : RdmaWorld) (a : Endpoint) (k : K) (h : EngineHelper) (peer_control : Endpoint) (traced : bool) (handle : Z) (now : nat → Z)
    : res (RdmaWorld * K * EngineHelper * list EngineChannel) :=
  let n := num_conns_per_peer (eh_config h) in
  let h := with_tracer h (RecordConnSetupStart (eh_tracer h) traced handle n (now 0%nat)) in
  let* '(w, k, h, chs) :=
    if bool_decide (transport_type (eh_config h) = kRdma)
    then let* '(w, chs) := connectRdma link links addr w a h peer_control n in Ok (w, k, h, chs)
    else connectTcp link other w a k h peer_control n traced handle (now 1%nat) in
  let h := with_tracer h (RecordConnSetupDone (eh_tracer h) traced handle (Z.of_nat (length chs)) (now 2%nat)) in
  Ok (w, k, h, chs).

Definition checkRdmaManager (h : EngineHelper) : res absl_Status :=
  do* dcheck (negb (eh_rdma_mgr h));
  Ok (if bool_decide (transport_type (eh_config h) = kRdma) then Some FailedPrecondition else None).
Definition Helper_RegisterMemory (w : RdmaWorld) (a : Endpoint) (h : EngineHelper) (addr length flags : Z) : res (RdmaWorld * absl_Status) :=
  if eh_rdma_mgr h then
    let* host := get_host w a in
    let '(host, s) := Manager_RegisterMemory host addr length flags in
    let* w := put_host w a host in Ok (w, s)
  else let* s := checkRdmaManager h in Ok (w, s).
Definition Helper_UnregisterMemory (w : RdmaWorld) (a : Endpoint) (h : EngineHelper) (addr : Z) : res (RdmaWorld * absl_Status) :=
  if eh_rdma_mgr h then
    let* host := get_host w a in
    let '(host, s) := Manager_UnregisterMemory host addr in
    let* w := put_host w a host in Ok (w, s)
  else let* s := checkRdmaManager h in Ok (w, s).

Definition ConfigureTrace (h : EngineHelper) (sample_every_n : Z) : EngineHelper :=
  with_tracer h (Configure (eh_tracer h) sample_every_n).
Definition ClearTrace (h : EngineHelper) : EngineHelper := with_tracer h (TraceRecorder_Clear (eh_tracer h)).
Definition ExportChromeTraceJson `{Formatter} `{HashOrder} (h : EngineHelper) (self : HostInfo) : string :=
  Export (TraceBuffer_Snapshot (tr_buffer (eh_tracer h))) (string_of_list_ascii (Endpoint_ToString (control_plane_listener self))).
End Ops.

(** * The TCP manager between two calls of the helper *)

Section Manager.
Context {K : Type} `{L : FdLaws K}.
Implicit Types (k : K) (m : TcpManager) (X : gmap Z fdinfo) (cs : list cell) (s : SocketBase).

(** Everything but the listeners and the accepted sockets stays. *)
Record same_rest (m m' : TcpManager) : Prop := {
  sr_self : tm_self m' = tm_self m;
  sr_poller : tm_poller m' = tm_poller m;
  sr_stop : tm_stop m' = tm_stop m;
  sr_connectors : tm_connectors m' = tm_connectors m;
  sr_outgoing : tm_outgoing m' = tm_outgoing m;
}.
Lemma same_rest_refl m : same_rest m m.
Proof. done. Qed.
Lemma same_rest_trans m1 m2 m3 : same_rest m1 m2 → same_rest m2 m3 → same_rest m1 m3.
Proof. intros [] []. split; congruence. Qed.

(** What the thread of the manager does while the helper, which only makes blocking
    connections, is at work. *)
Definition quiet (f : K → TcpManager → res (K * TcpManager)) : Prop := ∀ k X m cs,
  owned k X m cs → cn_map (tm_connectors m) = ∅ →
  ∃ k' m', f k m = Ok (k', m') ∧ owned k' X m' cs ∧ same_rest m m'.

Lemma removeListener_rest k m fd k' m' : removeListener k m fd = Ok (k', m') → same_rest m m'.
Proof.
  unfold removeListener. destruct (Poller_Unregister k (tm_poller m) fd) as [k1 r]. intros ([k2 ls] & _ & [= _ <-])%bind_Ok_inv. done.
Qed.
Lemma accept_one_rest fuel k m fd g k' m' go : accept_one fuel k m fd g = Ok (k', m', go) → same_rest m m'.
Proof.
  unfold accept_one. intros (l & _ & E)%bind_Ok_inv. apply bind_Ok_inv in E as ([k1 r] & _ & E).
  destruct (r <? 0).
  - destruct (r =? kAcceptWouldBlock); [by injection E as _ <- _|]. destruct (r =? kAcceptShutdown); [|by injection E as _ <- _].
    apply bind_Ok_inv in E as ([k2 m2] & E2%removeListener_rest & E). by injection E as _ <- _.
  - apply bind_Ok_inv in E as ([k2 s] & _ & E). apply bind_Ok_inv in E as (s' & _ & E).
    apply bind_Ok_inv in E as ([] & _ & E). apply bind_Ok_inv in E as ([] & _ & E).
    apply bind_Ok_inv in E as ([[k3 p] ok] & _ & E). by injection E as _ <- _.
Qed.
Lemma accept_all_rest fuel fd g : ∀ k m k' m', accept_all fuel k m fd g = Ok (k', m') → same_rest m m'.
Proof.
  induction fuel as [|fuel IH]; intros k m k' m'; cbn [accept_all]; [done|].
  destruct (tm_stop m); [by intros [= _ <-]|]. intros ([[k1 m1] go] & E1%accept_one_rest & E)%bind_Ok_inv.
  destruct go; [|by injection E as _ <-]. eapply same_rest_trans; [exact E1|by eapply IH].
Qed.
Lemma handleAllIncoming_rest fuel k m fd flag g k' m' b : handleAllIncoming fuel k m fd flag g = Ok (k', m', b) → same_rest m m'.
Proof.
  unfold handleAllIncoming. destruct (Listeners_Get (tm_listeners m) fd); [|by intros [= _ <- _]].
  intros ([k1 m1] & E1 & [= _ <- _])%bind_Ok_inv. destruct (has flag _); [by eapply removeListener_rest|].
  destruct (has flag EPOLLIN); [by eapply accept_all_rest|by injection E1 as _ <-].
Qed.

(** A round of the event loop for one event. *)
Definition serve (fd flag : Z) (k : K) (m : TcpManager) : res (K * TcpManager) :=
  let* '(k, m) :=
    match tm_listeners m !! fd with
    | Some _ => handle_event (S (backlog k)) k m (fd, flag) true
    | None => Ok (k, m)
    end in
  removeExpiredOutgoing k m.

Lemma serve_quiet fd flag : quiet (serve fd flag).
Proof.
  intros k X m cs Ho Hcn. unfold serve.
  assert (∃ k1 m1, match tm_listeners m !! fd with Some _ => handle_event (S (backlog k)) k m (fd, flag) true | None => Ok (k, m) end
    = Ok (k1, m1) ∧ owned k1 X m1 cs ∧ same_rest m m1) as (k1 & m1 & -> & Ho1 & Hr1).
  { destruct (tm_listeners m !! fd) as [l|] eqn:Hl; [|by exists k, m]. unfold handle_event.
    destruct (handleAllIncoming_ok (S (backlog k)) k X m cs fd flag true Ho ltac:(lia)) as (k1 & m1 & E & Ho1 & _).
    rewrite E, bind_Ok, bool_decide_eq_true_2 by (rewrite Hl; by eexists). exists k1, m1. split; [done|]. split; [done|].
    by eapply handleAllIncoming_rest. }
  rewrite bind_Ok. destruct (removeExpiredOutgoing_ok k1 X m1 cs Ho1) as (k2 & cn & -> & -> & Ho2 & _).
  eexists k2, _. split; [done|]. split; [done|]. eapply same_rest_trans; [exact Hr1|]. split; try done. cbn.
  destruct Hr1 as [_ _ _ Hc _]. rewrite Hc in *. destruct (tm_connectors m) as [se mp]. cbn in *. subst mp. by rewrite map_filter_empty.
Qed.

Lemma with_outgoing_id m : with_outgoing m (tm_outgoing m) = m.
Proof. by destruct m. Qed.

(** A blocking [Connect] leaves the manager alone or adds one blocking socket. *)
Lemma Connect_blocking_ok k X m cs self peer : owned k X m cs → HasNonzeroIpPort peer = true →
  ∃ k' m' r, Connect k m self peer true None = Ok (k', m', r) ∧ owned k' X m' cs ∧
    (r = kConnectError ∧ m' = m ∨ r = kConnectSuccess ∧ ∃ s, sk_blocking s = true ∧
       m' = with_outgoing m (mkProduced (pr_sealed (tm_outgoing m)) (pr_sockets (tm_outgoing m) ++ [s]))).
Proof.
  intros Ho Hp. unfold Connect. rewrite !bind_dcheck by done. destruct (tm_stop m).
  { eexists k, m, _. split; [done|]. split; [done|]. by left. }
  destruct Ho as [Hh Hw]. destruct (open_socket_ok k X _ self peer true Hh) as (k1 & [s|] & -> & Hs); rewrite bind_Ok.
  2:{ eexists k1, m, _. split; [done|]. split; [by split|]. by left. }
  destruct Hs as [[Hb Hc] Hh1]. assert (owned k1 X m (sock ∅ s :: cs)) as Ho1 by by apply owned_perm_head.
  cbn [finish_connect]. unfold connectBlocking. rewrite IsBlocking_ok, bind_Ok by by eapply owned_matches.
  rewrite bind_dcheck by done.
  destruct (owned_connect k1 X m ∅ s cs peer Ho1 Hc Hp) as (k2 & s2 & r & -> & Ho2 & Hr). rewrite bind_Ok.
  destruct Hr as [[-> ->]|[[-> ->]|(_ & _ & ?)]]; cbn [Z.ltb Z.compare kConnectSuccess kConnectError]; [| |congruence].
  - destruct (add_outgoing_ok k2 X m _ cs Ho2 eq_refl) as (k3 & m3 & r3 & E & Ho3 & _). rewrite E. exists k3, m3, r3.
    split; [done|]. split; [done|]. revert E. unfold addConnected, Produced_Add. rewrite bind_dcheck by done.
    destruct (tm_outgoing m) as [[] ss] eqn:Eo; cbn [pr_sealed pr_sockets negb];
      intros (p3 & E3 & E)%bind_Ok_inv; rewrite ?bind_dcheck in E3 by done.
    + apply bind_Ok_inv in E3 as (k4 & _ & [= <-]). injection E as _ <- <-. left. split; [done|]. rewrite <- Eo. apply with_outgoing_id.
    + injection E3 as <-. injection E as _ <- <-. right. split; [done|]. by exists (set_connected s true).
  - destruct (owned_destroy _ _ _ _ _ _ Ho2) as (k3 & -> & Ho3). rewrite bind_Ok. eexists k3, m, _.
    split; [done|]. split; [done|]. by left.
Qed.

(** Taking the produced sockets. *)
Lemma take_outgoing k X m cs m' ss : owned k X m cs → GetOutgoingSockets m = (m', ss) →
  owned k X m' ((sock ∅ <$> ss) ++ cs) ∧ ss = pr_sockets (tm_outgoing m) ∧
  m' = with_outgoing m (mkProduced (pr_sealed (tm_outgoing m)) []).
Proof.
  intros [Hh Hw] [= <- <-]. split; [|done]. split; [|destruct Hw; split; try done; constructor].
  revert Hh. apply holds_Proper. unfold mcells. cbn. solve_Permutation.
Qed.
Lemma take_incoming k X m cs m' ss : owned k X m cs → GetIncomingSockets m = (m', ss) →
  owned k X m' ((sock ∅ <$> ss) ++ cs) ∧ same_rest m m'.
Proof.
  intros [Hh Hw] [= <- <-]. split; [|done]. split; [|destruct Hw; split; try done; constructor].
  revert Hh. apply holds_Proper. unfold mcells. cbn. solve_Permutation.
Qed.

Lemma CreateTcpChannel_ok k s i : fdt k !! sk_fd s = Some i → sock_ok s i → CreateTcpChannel k s = Ok (TcpCh s).
Proof.
  intros Hi Hs. unfold CreateTcpChannel. destruct (fl_view _ _ _ Hi) as (_ & Hf & _).
  rewrite bind_dcheck by by apply Z.leb_le.
  assert (MatchesBlocking k s = true) as Hm by by eapply invariant_matches, sock_invariant.
  rewrite IsBlocking_ok, bind_Ok by done. destruct (sk_blocking s) eqn:Hb; [by rewrite bind_Ok, bind_dcheck|].
  by rewrite IsNonBlocking_ok, bind_Ok, Hb, bind_dcheck.
Qed.
Lemma create_channels k X m cs ss : owned k X m ((sock ∅ <$> ss) ++ cs) → ∀ chs,
  foreach (λ chs s, let* ch := CreateTcpChannel k s in Ok (chs ++ [ch])) chs ss = Ok (chs ++ (TcpCh <$> ss)).
Proof.
  intros [Hh _]. assert (∀ s, s ∈ ss → CreateTcpChannel k s = Ok (TcpCh s)) as Hc.
  { intros s Hs. destruct (holds_lookup X _ _ (sock ∅ s) Hh) as (i & Hi & Hok & _); [|by eapply CreateTcpChannel_ok].
    rewrite !elem_of_app. right. left. by apply list_elem_of_fmap_2. }
  clear Hh. induction ss as [|s ss IH]; intros chs; cbn [foreach fmap list_fmap]; [by rewrite app_nil_r|].
  rewrite (Hc s), !bind_Ok by by left. rewrite IH by (intros; apply Hc; by right). by rewrite <- app_assoc.
Qed.

(** The descriptors of channels. *)
Definition chcell (ch : EngineChannel) : list cell := match ch with TcpCh s => [sock ∅ s] | RdmaCh _ => [] end.
Definition chcells (chs : list EngineChannel) : list cell := chs ≫= chcell.
Lemma chcells_app chs chs' : chcells (chs ++ chs') = chcells chs ++ chcells chs'.
Proof. apply bind_app. Qed.
Lemma chcells_tcp ss : chcells (TcpCh <$> ss) = sock ∅ <$> ss.
Proof. induction ss as [|s ss IH]; [done|]. cbn. by rewrite <- IH. Qed.
Definition blocking_tcp (ch : EngineChannel) : Prop := ∃ s, ch = TcpCh s ∧ sk_blocking s = true.

(** One attempt: a new blocking channel, or a failure that is counted. *)
Lemma attempt_ok (other : nat → K → TcpManager → res (K * TcpManager)) k X m cs peer i :
  (∀ i, quiet (other i)) → HasNonzeroIpPort peer = true → owned k X m cs → cn_map (tm_connectors m) = ∅ →
  pr_sockets (tm_outgoing m) = [] →
  ∃ k1 m1 k2 m2 r k3 m3 m4 ss, other (2 * i)%nat k m = Ok (k1, m1) ∧ Connect k1 m1 Endpoint_default peer true None = Ok (k2, m2, r) ∧
    other (2 * i + 1)%nat k2 m2 = Ok (k3, m3) ∧ GetOutgoingSockets m3 = (m4, ss) ∧
    owned k3 X m4 ((sock ∅ <$> ss) ++ cs) ∧ same_rest m m4 ∧
    ((r <? 0) = true ∧ ss = [] ∨ (r <? 0) = false ∧ ∃ s, ss = [s] ∧ sk_blocking s = true).
Proof.
  intros Hq Hp Ho Hcn Hout. destruct (Hq (2 * i)%nat k X m cs Ho Hcn) as (k1 & m1 & E1 & Ho1 & R1).
  destruct (Connect_blocking_ok k1 X m1 cs Endpoint_default peer Ho1 Hp) as (k2 & m2 & r & E2 & Ho2 & Hr).
  assert (cn_map (tm_connectors m2) = ∅) as Hcn2.
  { destruct Hr as [[_ ->]|(_ & s & _ & ->)]; cbn; by rewrite (sr_connectors _ _ R1). }
  destruct (Hq (2 * i + 1)%nat k2 X m2 cs Ho2 Hcn2) as (k3 & m3 & E3 & Ho3 & R3).
  destruct (GetOutgoingSockets m3) as [m4 ss] eqn:E4. destruct (take_outgoing k3 X m3 cs m4 ss Ho3 E4) as (Ho4 & Ess & Em4).
  exists k1, m1, k2, m2, r, k3, m3, m4, ss. do 5 (split; [done|]). destruct R1 as [S1 P1 T1 C1 O1], R3 as [S3 P3 T3 C3 O3]. rewrite O3 in Ess, Em4.
  destruct Hr as [[-> ->]|(-> & s & Hb & ->)]; (split; [subst m4; split; cbn in *; try congruence; rewrite O1; by destruct (tm_outgoing m); cbn in *; subst|]).
  - left. split; [done|]. by rewrite Ess, O1.
  - right. split; [done|]. exists s. split; [|done]. rewrite Ess. cbn. by rewrite O1, Hout.
Qed.

Lemma connectTcp_loop_ok (other : nat → K → TcpManager → res (K * TcpManager)) X cs peers n :
  (∀ i, quiet (other i)) → peers ≠ [] → (∀ e, e ∈ peers → HasNonzeroIpPort e = true) →
  ∀ fuel k m i chs failures, owned k X m (chcells chs ++ cs) → cn_map (tm_connectors m) = ∅ → pr_sockets (tm_outgoing m) = [] →
  Z.of_nat (length chs) ≤ n →
  ∃ k' m' new f, connectTcp_loop other false peers n fuel k m i chs failures = Ok (k', m', chs ++ new, failures + f) ∧
    owned k' X m' (chcells (chs ++ new) ++ cs) ∧ same_rest m m' ∧ Forall blocking_tcp new ∧
    Z.of_nat (length (chs ++ new)) ≤ n ∧ 0 ≤ f ∧ f + Z.of_nat (length new) ≤ Z.of_nat fuel ∧
    (Z.of_nat (length (chs ++ new)) < n → f + Z.of_nat (length new) = Z.of_nat fuel).
Proof.
  intros Hq Hne Hp. induction fuel as [|fuel IH]; intros k m i chs failures Ho Hcn Hout Hlen.
  { exists k, m, [], 0. cbn [connectTcp_loop]. rewrite app_nil_r, Z.add_0_r. split; [by destruct (negb _)|]. cbn. split_and!; try done; lia. }
  cbn [connectTcp_loop]. destruct (Z.ltb_spec (Z.of_nat (length chs)) n) as [Hlt|Hge]; cbn [negb].
  2:{ exists k, m, [], 0. rewrite app_nil_r, Z.add_0_r. split; [done|]. cbn. split_and!; try done; lia. }
  rewrite bind_dcheck by done. destruct (lookup_lt_is_Some_2 peers (i mod length peers)) as [peer Hpeer].
  { apply Nat.mod_upper_bound. by destruct peers. }
  rewrite Hpeer. cbn [at_or]. rewrite bind_Ok.
  destruct (attempt_ok other k X m _ peer i Hq (Hp _ (list_elem_of_lookup_2 _ _ _ Hpeer)) Ho Hcn Hout)
    as (k1 & m1 & k2 & m2 & r & k3 & m3 & m4 & ss & E1 & E2 & E3 & E4 & Ho4 & R4 & Hr).
  rewrite E1, bind_Ok, E2, bind_Ok, E3, bind_Ok, E4, (create_channels k3 X m4 _ ss Ho4), bind_Ok.
  assert (owned k3 X m4 (chcells (chs ++ (TcpCh <$> ss)) ++ cs)) as Ho5.
  { eapply owned_proper; [|exact Ho4]. rewrite chcells_app, chcells_tcp. solve_Permutation. }
  assert (Forall blocking_tcp (TcpCh <$> ss) ∧ Z.of_nat (length ss) + (if r <? 0 then 1 else 0) = 1) as [Hb Hcount].
  { destruct Hr as [[-> ->]|(-> & s & -> & Hb)]; cbn; [by split; [constructor|]|]. split; [|done]. constructor; [by exists s|done]. }
  destruct (IH k3 m4 (S i) (chs ++ (TcpCh <$> ss)) (if r <? 0 then failures + 1 else failures) Ho5)
    as (k' & m' & new & f & E & Ho' & R' & Hbl & Hl & Hf & Hsum & Hall).
  { by rewrite (sr_connectors _ _ R4). }
  { by rewrite (sr_outgoing _ _ R4). }
  { rewrite length_app, length_fmap. destruct (r <? 0); lia. }
  exists k', m', ((TcpCh <$> ss) ++ new), ((if r <? 0 then 1 else 0) + f). rewrite E, app_assoc.
  split; [do 2 f_equal; destruct (r <? 0); lia|]. split; [done|].
  split; [by eapply same_rest_trans|]. split; [by apply Forall_app|]. split; [done|].
  rewrite length_app, length_fmap. split; [by destruct (r <? 0); lia|]. split; [lia|]. intros Hlt'. specialize (Hall Hlt'). lia.
Qed.
(** Stopping, joining the thread and destroying the manager. *)
Lemma Stop_run X cs : ∀ l n k m, drop n (Stop_statements (K := K)) = l → owned k X m cs → phase n m →
  ∃ k' m', foreach (λ '(k, m) (f : K → TcpManager → res (K * TcpManager)), f k m) (k, m) l = Ok (k', m') ∧
    owned k' X m' cs ∧ phase 8 m' ∧ tm_poller m' = tm_poller m.
Proof.
  induction l as [|f l IH]; intros n k m El Ho Hp; cbn [foreach].
  - exists k, m. split; [done|]. split; [done|]. split; [|done].
    assert (length (drop n (Stop_statements (K := K))) = 0)%nat as Hl by by rewrite El. rewrite length_drop in Hl. cbn in Hl.
    pose proof (ph_max _ _ Hp). by replace 8%nat with n by lia.
  - assert (Stop_statements !! n = Some f) as Hf by (rewrite <- (Nat.add_0_r n), <- lookup_drop, El; done).
    destruct (stop_step_ok k X m cs n f NotStarted Ho Hp I Hf) as (k1 & m1 & -> & Ho1 & _ & Hp1 & Em). rewrite bind_Ok.
    destruct (IH (S n) k1 m1) as (k2 & m2 & -> & Ho2 & Hp2 & Em2); [|done|done|exists k2, m2; split_and!; try done; congruence].
    by rewrite (drop_S _ _ _ Hf) in El; injection El.
Qed.
Lemma Stop_ok k X m cs : owned k X m cs → tm_stop m = false →
  ∃ k' m', Stop k m = Ok (k', m') ∧ owned k' X m' cs ∧ phase 8 m' ∧ tm_poller m' = tm_poller m.
Proof.
  intros Ho Hs. apply (Stop_run X cs _ 0); [done|done|]. split; try lia. rewrite Hs. split; [done|lia].
Qed.

Lemma Start_exit_ok k X m cs : owned k X m cs → cn_sealed (tm_connectors m) = true →
  ∃ k' m', Start_exit k m = Ok (k', m') ∧ owned k' X m' cs ∧ tm_poller m' = tm_poller m.
Proof.
  intros Ho Hs. unfold Start_exit. destruct (Listeners_Close_ok k X m cs Ho) as (k1 & -> & Ho1). rewrite bind_Ok.
  destruct (Connectors_Close_ok k1 X _ cs Ho1 Hs) as (k2 & E2 & Ho2). cbn [tm_connectors with_listeners] in E2.
  rewrite E2, bind_Ok. by eexists k2, _.
Qed.

Lemma TcpManager_destroy_ok k X m cs : owned k X m cs → apart (tm_poller m) X →
  (∀ c i, c ∈ cs → c.2 i → tm_poller m ∉ fi_watch i) → ∃ k', TcpManager_destroy k m = Ok k' ∧ holds (fdt k') X cs.
Proof.
  intros [Hh _] Ha Hcs. unfold TcpManager_destroy.
  assert (mcells m ++ cs ≡ₚ (sock ∅ <$> pr_sockets (tm_outgoing m)) ++ (sock ∅ <$> pr_sockets (tm_incoming m)) ++
    (ccell (tm_poller m) <$> vals (cn_map (tm_connectors m))) ++ (lcell (tm_poller m) <$> vals (tm_listeners m)) ++
    pollcell (tm_poller m) :: cs) as E by (unfold mcells; solve_Permutation). rewrite E in Hh. clear E.
  destruct (destroy_all_ok k X id (λ s i, sock_ok s i ∧ fi_watch i = ∅) _ _ ltac:(by intros ? ? [? _]) Hh) as (k1 & E1 & Hh1).
  rewrite list_fmap_id in E1. rewrite E1, bind_Ok.
  destruct (destroy_all_ok k1 X id (λ s i, sock_ok s i ∧ fi_watch i = ∅) _ _ ltac:(by intros ? ? [? _]) Hh1) as (k2 & E2 & Hh2).
  rewrite list_fmap_id in E2. rewrite E2, bind_Ok.
  destruct (destroy_all_ok k2 X c_socket (λ c, (ccell (tm_poller m) c).2) _ _ ltac:(by intros ? ? [? _]) Hh2) as (k3 & -> & Hh3).
  rewrite bind_Ok.
  destruct (destroy_all_ok k3 X l_socket (λ l, (lcell (tm_poller m) l).2) _ _ ltac:(by intros ? ? [? _]) Hh3) as (k4 & -> & Hh4).
  rewrite bind_Ok. by apply Poller_destroy_frame.
Qed.

Lemma chcells_unwatched ep chs c i : c ∈ chcells chs → c.2 i → ep ∉ fi_watch i.
Proof.
  intros (ch & Hc & _)%list_elem_of_bind Hi. destruct ch as [s|rc]; [|by apply elem_of_nil in Hc].
  apply list_elem_of_singleton in Hc as ->. destruct Hi as [_ ->]. set_solver.
Qed.
End Manager.

(** * The helper in a world *)

Section Worlds.
Context {K V R : Type} `{L : FdLaws K} `{PN : PeerNames K} `{RL : RdmaLaws V} `{G : Random R} `{T : NetText} `{!NetTextLaws T}.
Abbreviation Host := (RdmaHost V R).
Abbreviation RdmaWorld := (gmap Endpoint (Control Host)).
Implicit Types (k : K) (w : RdmaWorld) (h : EngineHelper) (X : gmap Z fdinfo) (chs : list EngineChannel).

Definition failures_of (h : EngineHelper) : Z := mc_value (em_tcp_connect_failures (eh_metrics h)).

(** Between two calls: the descriptors of the process are those of the manager, of the
    channels [chs] that were handed out, and the others [X]; no connection is pending. *)
Record tcp_part (k : K) (X : gmap Z fdinfo) (h : EngineHelper) (chs : list EngineChannel) : Prop := {
  tk_owned : owned k X (eh_tcp_mgr h) (chcells chs);
  tk_apart : apart (tm_poller (eh_tcp_mgr h)) X;
  tk_running : tm_stop (eh_tcp_mgr h) = false;
  tk_connectors : cn_map (tm_connectors (eh_tcp_mgr h)) = ∅;
  tk_outgoing : pr_sockets (tm_outgoing (eh_tcp_mgr h)) = [];
  tk_config : Config_IsValid (eh_config h) = true;
  tk_plain : require_dataplane_encryption (eh_config h) = false;
  tk_counter : 0 ≤ failures_of h < 2 ^ 64;
}.
(** The process of the helper in a world. *)
Record helper_ok (w : RdmaWorld) (a : Endpoint) (k : K) (X : gmap Z fdinfo) (h : EngineHelper) (chs : list EngineChannel) : Prop := {
  hk_tcp : tcp_part k X h chs;
  hk_world : world_ok w;
  hk_process : is_Some (w !! a);
  hk_rdma : eh_rdma_mgr h = true → ∃ host, get_host w a = Ok host;
}.

Lemma tcp_next k X h chs k' h' chs' : tcp_part k X h chs → eh_config h' = eh_config h → 0 ≤ failures_of h' < 2 ^ 64 →
  same_rest (eh_tcp_mgr h) (eh_tcp_mgr h') → owned k' X (eh_tcp_mgr h') (chcells chs') → tcp_part k' X h' chs'.
Proof. intros [] Ec Hf [S P St C O] Ho. split; rewrite ?Ec, ?P, ?St, ?C, ?O; done. Qed.
Lemma helper_tcp w a k X h chs k' h' chs' : helper_ok w a k X h chs → eh_rdma_mgr h' = eh_rdma_mgr h →
  tcp_part k' X h' chs' → helper_ok w a k' X h' chs'.
Proof. intros [] Er Ht. split; rewrite ?Er; done. Qed.

(** The world may change under the helper. *)
Lemma helper_world w w' a k X h chs : helper_ok w a k X h chs → world_ok w' → is_Some (w' !! a) →
  (eh_rdma_mgr h = true → ∃ host, get_host w' a = Ok host) → helper_ok w' a k X h chs.
Proof. intros []. by split. Qed.

Lemma peer_info_ok link w a peer : world_ok w → is_Some (w !! a) →
  ∃ w' r, GetPeerHostInfo link w a peer = Ok (w', r) ∧ world_ok w' ∧ is_Some (w' !! a) ∧ (∀ e, get_host w' e = get_host w e) ∧
    (∀ info, r = inl info → ∃ cb, w !! peer = Some cb ∧ co_self cb = info ∧ HostInfo_IsValid info = true) ∧
    (link = Delivered → HasNonzeroIpPort peer = true → is_Some (w !! peer) → ∃ info, r = inl info).
Proof.
  intros [Hw Hs] [ca Ha]. destruct (GetPeerHostInfo_ok link w a peer ca Hw Ha) as (w' & r & E & Hw' & Hsame & Hinfo & Hdel).
  exists w', r. split; [done|]. pose proof (GetPeerHostInfo_same_handler _ _ _ _ _ _ E) as Hsh.
  split; [split; [done|]|split; [|split; [|split; [|done]]]].
  - intros e c f Hc Hf. specialize (Hsh e). unfold same_handler in Hsh. rewrite Hc in Hsh. cbn in Hsh.
    destruct (w !! e) as [c0|] eqn:Hc0; [|done]. injection Hsh as Hsh. apply (Hs e c0); congruence.
  - specialize (Hsame a). rewrite Ha in Hsame. by destruct (w' !! a).
  - intros e. by apply get_host_same.
  - intros info Hi. destruct (Hinfo info Hi) as (Hb & _). destruct (w !! peer) as [cb|] eqn:Hcb; [|done]. injection Hb as Hb.
    exists cb. split; [done|]. split; [done|]. rewrite <- Hb. apply (Hw peer cb Hcb).
Qed.

(** What [connectTcp] leaves behind and returns. *)
Definition tcp_outcome (link : Link) w a X h chs (peer : Endpoint) w' k' h' (new : list EngineChannel) : Prop :=
  let n := num_conns_per_peer (eh_config h) in
  helper_ok w' a k' X h' (chs ++ new) ∧ eh_config h' = eh_config h ∧ Z.of_nat (length new) ≤ n ∧ Forall blocking_tcp new ∧
  ∃ failures, failures_of h' = u64 (failures_of h + failures) ∧ 0 ≤ failures ∧ failures + Z.of_nat (length new) ≤ 2 * n ∧
    (link = Delivered → HasNonzeroIpPort peer = true → ∀ cb, w !! peer = Some cb → GetTcpListeners (co_self cb) ≠ [] →
       Z.of_nat (length new) < n → failures + Z.of_nat (length new) = 2 * n).

Lemma num_conns_pos h : Config_IsValid (eh_config h) = true → 1 ≤ num_conns_per_peer (eh_config h).
Proof. unfold Config_IsValid. lia. Qed.
Lemma failures_same h : 0 ≤ failures_of h < 2 ^ 64 → failures_of h = u64 (failures_of h + 0).
Proof. rewrite Z.add_0_r. intros. symmetry. by apply Z.mod_small. Qed.

Lemma connectTcp_ok link other w a k h X chs peer traced handle now :
  helper_ok w a k X h chs → (∀ i, quiet (other i)) →
  ∃ w' k' h' new, connectTcp link other w a k h peer (num_conns_per_peer (eh_config h)) traced handle now = Ok (w', k', h', new) ∧
    tcp_outcome link w a X h chs peer w' k' h' new.
Proof.
  intros Hok Hq. set (n := num_conns_per_peer (eh_config h)). pose proof (num_conns_pos h (tk_config _ _ _ _ (hk_tcp _ _ _ _ _ _ Hok))) as Hn. fold n in Hn.
  unfold connectTcp. destruct (peer_info_ok link w a peer (hk_world _ _ _ _ _ _ Hok) (hk_process _ _ _ _ _ _ Hok))
    as (w1 & r & -> & Hw1 & Ha1 & Hg1 & Hinfo & Hdel). rewrite bind_Ok.
  set (h1 := with_tracer h _). assert (helper_ok w1 a k X h1 chs) as Hok1.
  { apply (helper_world w); try done; [by destruct Hok as [[] ? ? ?]|]. intros Hr. rewrite Hg1. by apply (hk_rdma _ _ _ _ _ _ Hok). }
  assert ((∀ info, r = inl info → GetTcpListeners info = []) → tcp_outcome link w a X h chs peer w1 k h1 []) as Hnone.
  { intros Hno. unfold tcp_outcome. fold n. rewrite app_nil_r. cbn [length]. split; [done|]. split; [done|]. split; [lia|].
    split; [done|]. exists 0. split; [apply (failures_same h), Hok|]. split; [done|]. split; [lia|]. intros Hl Hp cb Hcb Hne.
    destruct (Hdel Hl Hp (ex_intro _ _ Hcb)) as [info Hi]. destruct (Hinfo info Hi) as (cb' & Hcb' & <- & _).
    rewrite Hcb in Hcb'. injection Hcb' as <-. by rewrite (Hno _ Hi) in Hne. }
  destruct r as [info|e]; [|eexists _, _, _, _; split; [done|]; by apply Hnone].
  case_bool_decide as Hpe; [eexists _, _, _, _; split; [done|]; apply Hnone; by intros ? [= <-]|]. clear Hnone.
  destruct (Hinfo info eq_refl) as (cb & Hcb & Hself & Hv).
  destruct (connectTcp_loop_ok other X (chcells chs) (GetTcpListeners info) n Hq Hpe) with (fuel := Z.to_nat (2 * n)) (k := k)
    (m := eh_tcp_mgr h) (i := 0%nat) (chs := @nil EngineChannel) (failures := 0)
    as (k' & m' & new & f & E & Ho' & R' & Hbl & Hl & Hf & Hsum & Hall); [|apply Hok|apply Hok|apply Hok|cbn; lia|].
  { intros e He. by apply (HostInfo_listeners_connectable info Hv). }
  cbn [app] in E, Ho', Hl, Hall. change (eh_tcp_mgr h1) with (eh_tcp_mgr h). change (eh_config h1) with (eh_config h).
  rewrite (tk_plain _ _ _ _ (hk_tcp _ _ _ _ _ _ Hok)), E, bind_Ok. rewrite Z.add_0_l.
  eexists w1, k', _, new. split; [done|]. unfold tcp_outcome. fold n.
  split; [|split; [by destruct (0 <? f)|split; [done|split; [done|exists f]]]].
  - apply (helper_tcp w1 a k X h1 chs); [done|by destruct (0 <? f)|].
    apply (tcp_next k X h1 chs); [apply Hok1|by destruct (0 <? f)| |by destruct (0 <? f)|].
    + destruct (0 <? f); [|apply Hok]. apply Z.mod_pos_bound. lia.
    + rewrite chcells_app. eapply owned_proper; [apply Permutation_app_comm|]. by destruct (0 <? f).
  - split; [|split; [done|split; [lia|]]].
    + destruct (Z.ltb_spec 0 f); [done|]. replace f with 0 by lia. apply (failures_same h), Hok.
    + intros _ _ cb' Hcb' _ Hlt. specialize (Hall Hlt). lia.
Qed.

(** The channels that [connectRdma] returns. *)
Definition rdma_outcome w a h (peer : Endpoint) w' (new : list EngineChannel) : Prop :=
  Z.of_nat (length new) ≤ num_conns_per_peer (eh_config h) ∧
  Forall (λ ch, ∃ rc, ch = RdmaCh rc ∧ rl_is_shutdown rc = false ∧ paired w' a peer (rl_rdma rc)) new.

Lemma chcells_rdma addr (conns : list RdmaConn) : chcells (imap (λ i c, CreateRdmaChannel (addr i) c) conns) = [].
Proof. revert addr. induction conns as [|c conns IH]; intros addr; [done|]. cbn. apply (IH (addr ∘ S)). Qed.

Lemma connectRdma_ok link links addr w a k h X chs peer : helper_ok w a k X h chs →
  ∃ w' new, connectRdma link links addr w a h peer (num_conns_per_peer (eh_config h)) = Ok (w', new) ∧
    helper_ok w' a k X h (chs ++ new) ∧ rdma_outcome w a h peer w' new.
Proof.
  intros Hok. pose proof (num_conns_pos h (tk_config _ _ _ _ (hk_tcp _ _ _ _ _ _ Hok))) as Hn. unfold connectRdma.
  destruct (eh_rdma_mgr h) eqn:Hr; cbn [negb].
  2:{ exists w, []. rewrite app_nil_r. split; [done|]. split; [done|]. split; [cbn; lia|done]. }
  destruct (hk_rdma _ _ _ _ _ _ Hok Hr) as [host Hhost].
  destruct (Manager_Connect_ok link links w a peer _ host (hk_world _ _ _ _ _ _ Hok) Hhost Hn)
    as (w' & conns & host' & -> & Hw' & _ & Hlen & Hp & Hh' & _). rewrite bind_Ok.
  eexists w', _. split; [done|]. split.
  - assert (owned k X (eh_tcp_mgr h) (chcells (chs ++ imap (λ i c, CreateRdmaChannel (addr i) c) conns))) as Ho
      by (rewrite chcells_app, chcells_rdma, app_nil_r; apply Hok).
    pose proof Hh' as (c & _ & Hc & _)%get_host_some. destruct Hok as [[] ? ? ?]. split; [by split|done|by eexists|by eexists].
  - split; [by rewrite length_imap|]. apply Forall_lookup. intros i ch Hi. rewrite list_lookup_imap in Hi.
    destruct (conns !! i) as [c|] eqn:Hc; [|done]. injection Hi as <-. eexists. split; [done|]. split; [done|].
    rewrite Forall_lookup in Hp. by apply (Hp i).
Qed.

(** ** Accepted connections *)

Lemma accepted_ok X m cs : ∀ ss k chs, owned k X m ((sock ∅ <$> ss) ++ chcells chs ++ cs) →
  ∃ k' new, foreach accepted_loop (k, chs) ss = Ok (k', chs ++ (TcpCh <$> new)) ∧ owned k' X m (chcells (chs ++ (TcpCh <$> new)) ++ cs) ∧
    sublist new ss.
Proof.
  induction ss as [|s ss IH]; intros k chs Ho; cbn [foreach fmap list_fmap app] in *.
  { exists k, []. cbn. rewrite app_nil_r. by split; [|split; [|constructor]]. }
  unfold accepted_loop at 2. cbn beta iota. destruct (negb (HasNonzeroIpPort (PeerEndpoint k (sk_fd s)))).
  - destruct (owned_destroy _ _ _ _ _ _ Ho) as (k1 & -> & Ho1). rewrite bind_Ok.
    destruct (IH k1 chs Ho1) as (k2 & new & E & Ho2 & Hsub). rewrite bind_Ok, E. exists k2, new. split; [done|]. split; [done|]. by constructor.
  - destruct (proj1 (owned_perm_head _ _ _ _ _) Ho) as [Hh _]. destruct (holds_head _ _ _ _ _ Hh) as (i & Hi & Hs & _).
    rewrite (CreateTcpChannel_ok k s i), !bind_Ok by done.
    destruct (IH k (chs ++ [TcpCh s])) as (k2 & new & E & Ho2 & Hsub).
    { eapply owned_proper; [|exact Ho]. rewrite chcells_app. cbn. solve_Permutation. }
    rewrite <- app_assoc in E, Ho2. exists k2, (s :: new). split; [done|]. split; [done|]. by constructor.
Qed.

Lemma GetAcceptedChannels_ok k X h chs : tcp_part k X h chs →
  ∃ k' m new, GetAcceptedChannels k h = Ok (k', with_tcp_mgr h m, TcpCh <$> new) ∧ tcp_part k' X (with_tcp_mgr h m) (chs ++ (TcpCh <$> new)) ∧
    sublist new (pr_sockets (tm_incoming (eh_tcp_mgr h))) ∧ pr_sockets (tm_incoming m) = [].
Proof.
  intros Hok. unfold GetAcceptedChannels. destruct (GetIncomingSockets (eh_tcp_mgr h)) as [m ss] eqn:Eg.
  destruct (take_incoming k X _ _ m ss (tk_owned _ _ _ _ Hok) Eg) as [Ho Rs].
  destruct (accepted_ok X m (chcells chs) ss k [] Ho) as (k' & new & -> & Ho' & Hsub). rewrite bind_Ok.
  injection Eg as <- <-. eexists k', _, new. split; [done|]. split; [|done].
  apply (tcp_next k X h chs); try done; [apply Hok|]. rewrite chcells_app. eapply owned_proper; [apply Permutation_app_comm|done].
Qed.

(** ** Destruction *)

Lemma EngineHelper_destroy_ok k X h chs (c : Control Host) fuel : tcp_part k X h chs → IsDataPlaneValid (co_self c) = true → (0 < fuel)%nat →
  ∃ k' c' v, EngineHelper_destroy fuel k c h = Ok (k', c', v) ∧ holds (fdt k') X (chcells chs) ∧
    (if eh_rdma_mgr h then drop_rdma c else (c, None)) = (c', v) ∧ (eh_rdma_mgr h = true → co_rdma_handler c' = None).
Proof.
  intros Hok Hv Hfuel. unfold EngineHelper_destroy, Helper_invariant.
  rewrite bind_dcheck by (by rewrite (tk_config _ _ _ _ Hok), Hv).
  destruct (Stop_ok k X _ _ (tk_owned _ _ _ _ Hok) (tk_running _ _ _ _ Hok)) as (k1 & m1 & -> & Ho1 & Hp1 & Em1). rewrite bind_Ok.
  destruct fuel as [|fuel]; [lia|]. cbn [Start_loop]. rewrite (proj2 (ph_stop _ _ Hp1)) by lia.
  destruct (Start_exit_ok k1 X m1 _ Ho1 (ph_cn _ _ Hp1 ltac:(lia))) as (k2 & m2 & -> & Ho2 & Em2). rewrite bind_Ok.
  assert (tm_poller m2 = tm_poller (eh_tcp_mgr h)) as Em by congruence.
  destruct (TcpManager_destroy_ok k2 X m2 _ Ho2) as (k3 & E3 & Hh3); [rewrite Em; apply Hok|intros ? ?; apply chcells_unwatched|].
  destruct (if eh_rdma_mgr h then drop_rdma c else (c, None)) as [c' v] eqn:Ed. rewrite E3, bind_Ok.
  exists k3, c', v. split; [done|]. split; [done|]. split; [done|]. intros Hr. rewrite Hr in Ed. unfold drop_rdma, RdmaManager_destroy in Ed.
  destruct (co_rdma_handler c) eqn:Hcr; by injection Ed as <- _.
Qed.
Lemma process_valid w a c : world_ok w → w !! a = Some c → IsDataPlaneValid (co_self c) = true.
Proof.
  intros [Hw _] Hc. pose proof (ck_valid _ _ (proj1 (Hw a c Hc))) as Hv. unfold HostInfo_IsValid in Hv. by destruct (andb_prop _ _ Hv).
Qed.

(** ** Creation *)

(** What the rest of [Create] finds after the RDMA manager: the control object, whether there
    is a manager, and how it is undone. *)
Definition rdma_part (config : Config) (v : V) (control c : Control Host) (rdma : bool) (v1 : V) (nics : list NicInfo) : Prop :=
  control_plane_listener (co_self c) = control_plane_listener (co_self control) ∧ data_plane_listeners (co_self c) = nics ∧
  if rdma then ∃ host d, transport_type config = kRdma ∧ co_rdma_handler c = Some (mkRdmaConnHandler host handler_body) ∧
      host_ok host ∧ mg_device (ht_mgr host) = Some d ∧ nics = nic_of <$> dv_ctxs d ∧ objs (RdmaManager_destroy c host).2 = objs v
  else transport_type config ≠ kRdma ∧ nics = [] ∧ co_rdma_handler c = None ∧ objs v1 = objs v.

Lemma drop_rdma_ok config v control c rdma v1 nics self : rdma_part config v control c rdma v1 nics →
  ∃ c' v', (if rdma then drop_rdma (with_server c self (co_server c) (co_serving c))
            else (with_server c self (co_server c) (co_serving c), Some v1)) = (c', Some v') ∧
    objs v' = objs v ∧ co_rdma_handler c' = None ∧ co_self c' = self.
Proof.
  intros (_ & _ & Hr). destruct rdma; [|destruct Hr as (_ & _ & Hh & Hv); by eexists _, v1].
  destruct Hr as (host & d & _ & Hh & _ & _ & _ & Hv). unfold drop_rdma. cbn [co_rdma_handler with_server]. rewrite Hh.
  cbn [rh_obj]. by eexists _, _.
Qed.

Lemma helper_new_ok config self (m : TcpManager) rdma : Config_IsValid config = true → IsDataPlaneValid self = true →
  EngineHelper_new config self m rdma = Ok (mkEngineHelper config EngineMetrics_new (TraceRecorder_new 0) m rdma).
Proof. intros Hc Hs. unfold EngineHelper_new, Helper_invariant. cbn [eh_config]. by rewrite bind_dcheck by (by rewrite Hc, Hs). Qed.
Lemma helper_create_ok config (k : K) routable (v : V) (g : R) (control : Control Host) :
  Config_IsValid config = true → require_dataplane_encryption config = false → routable_ok routable → closed (objs v) →
  (∀ v' d, RdmaDevice_Create v = Ok (v', inl d) → Forall (λ x, NicInfo_IsValid (nic_of x) = true) (dv_ctxs d)) →
  co_rdma_handler control = None →
  ∃ k' c lib o, EngineHelper_Create config k routable v g control = Ok (k', c, lib, o) ∧
    control_plane_listener (co_self c) = control_plane_listener (co_self control) ∧
    match o with
    | None => fdt k' = fdt k ∧ (∃ v', lib = Some v' ∧ objs v' = objs v) ∧ co_rdma_handler c = None
    | Some h => eh_config h = config ∧ IsDataPlaneValid (co_self c) = true ∧
        owned k' (fdt k) (eh_tcp_mgr h) [] ∧ apart (tm_poller (eh_tcp_mgr h)) (fdt k) ∧ tm_stop (eh_tcp_mgr h) = false ∧
        cn_map (tm_connectors (eh_tcp_mgr h)) = ∅ ∧ pr_sockets (tm_outgoing (eh_tcp_mgr h)) = [] ∧ failures_of h = 0 ∧
        ∃ rdma_nics added, data_plane_listeners (co_self c) = rdma_nics ++ added ∧
          (∀ e, e ∈ added ≫= nic_endpoints → ∃ fd l, tm_listeners (eh_tcp_mgr h) !! fd = Some l ∧ l_endpoint l = e) ∧
          if eh_rdma_mgr h
          then transport_type config = kRdma ∧ lib = None ∧ ∃ host d, co_rdma_handler c = Some (mkRdmaConnHandler host handler_body) ∧
                 host_ok host ∧ mg_device (ht_mgr host) = Some d ∧ rdma_nics = nic_of <$> dv_ctxs d ∧
                 objs (RdmaManager_destroy c host).2 = objs v
          else transport_type config ≠ kRdma ∧ rdma_nics = [] ∧ co_rdma_handler c = None ∧ ∃ v', lib = Some v' ∧ objs v' = objs v
    end.
Proof.
  intros Hcfg Henc Hr Hcl Hnics Hh0. unfold EngineHelper_Create. rewrite bind_dcheck by done.
  set (c0 := with_server control _ _ _).
  destruct (RdmaManager_Create_ok config v g c0 Hcl Hnics) as (v1 & r & -> & Hrd). rewrite bind_Ok.
  destruct (negb (bool_decide (is_Some r)) && bool_decide (transport_type config = kRdma)) eqn:Hfail.
  { destruct r; [done|]. eexists k, c0, _, None. split; [done|]. split; [done|]. split; [done|]. split; [by eexists|done]. }
  assert (rdma_part config v control (default c0 r) (bool_decide (is_Some r)) v1 (data_plane_listeners (co_self (default c0 r)))) as Hpart.
  { destruct r as [c1|]; cbn [default from_option id].
    - rewrite bool_decide_eq_true_2 by by eexists. destruct Hrd as (d & host & Hd & Hok & _ & Hh & Hs & Ht & Hv).
      unfold rdma_part. rewrite Hs. split; [done|]. split; [done|]. by exists host, d.
    - rewrite bool_decide_eq_false_2 in Hfail |- * by (by intros [? ?]). cbn [negb andb] in Hfail.
      apply bool_decide_eq_false in Hfail. done. }
  set (c1 := default c0 r) in *. set (rdma := bool_decide (is_Some r)) in *. clearbody c1 rdma. clear Hrd Hfail.
  pose proof (proj2 (holds_nil (fdt k) (fdt k)) eq_refl) as Hh.
  destruct (Create_ok k (fdt k) routable (co_self c1) Hh Hr) as (k1 & self & o & -> & Ho). rewrite bind_Ok. destruct o as [m|].
  - destruct Ho as (Hom & Hap & Hts & _ & Em & added & Hself & Hadd).
    assert (IsDataPlaneValid self = true) as Hv by (rewrite <- Hts; apply Hom). rewrite Hv. cbn [negb].
    rewrite bind_dcheck by by rewrite Henc. rewrite helper_new_ok, bind_Ok by done.
    eexists k1, _, _, (Some _). split; [done|]. destruct Hpart as (Hcp & Hdp & Hpart). cbn [co_self with_server].
    split; [by rewrite Hself|]. cbn [eh_config eh_tcp_mgr eh_rdma_mgr]. do 4 (split; [done|]). do 3 (split; [by rewrite Em|]). split; [done|].
    exists (data_plane_listeners (co_self c1)), added. split; [by rewrite Hself|]. split; [done|]. destruct rdma.
    + destruct Hpart as (host & d & Ht & Hrh & Hok & Hd & Hn & Hrel). split; [done|]. split; [done|]. by exists host, d.
    + destruct Hpart as (Ht & Hn & Hrh & Hv1). split; [done|]. split; [done|]. split; [done|]. by exists v1.
  - destruct Ho as [-> Hh1]. destruct (drop_rdma_ok _ _ _ _ _ _ _ (co_self c1) Hpart) as (c2 & v2 & -> & Hv2 & Hc2 & Hs2).
    eexists k1, c2, _, None. split; [done|]. split; [rewrite Hs2; apply Hpart|]. split; [by apply holds_nil|]. split; [by eexists|done].
Qed.

(** A helper that was created, in a world where its process serves. *)
Lemma helper_created config k routable v g control k' c lib h w a c2 :
  Config_IsValid config = true → require_dataplane_encryption config = false → routable_ok routable → closed (objs v) →
  (∀ v' d, RdmaDevice_Create v = Ok (v', inl d) → Forall (λ x, NicInfo_IsValid (nic_of x) = true) (dv_ctxs d)) →
  co_rdma_handler control = None → EngineHelper_Create config k routable v g control = Ok (k', c, lib, Some h) →
  world_ok w → w !! a = Some c2 → co_rdma_handler c2 = co_rdma_handler c → helper_ok w a k' (fdt k) h [].
Proof.
  intros Hcfg Henc Hr Hcl Hnics Hh0 E Hw Ha Hsame.
  destruct (helper_create_ok config k routable v g control Hcfg Henc Hr Hcl Hnics Hh0) as (k1 & c1 & lib1 & o & E1 & _ & Ho).
  rewrite E in E1. injection E1 as <- <- <- <-. destruct Ho as (Hc & _ & Hown & Hap & Hst & Hcn & Hout & Hf & nics & added & _ & _ & Hr1).
  split; [split; rewrite ?Hc, ?Hf; done|done|by eexists|]. intros Er. rewrite Er in Hr1. destruct Hr1 as (_ & _ & host & d & Hh & _).
  exists host. apply get_host_some. eexists c2, _. split; [done|]. by rewrite Hsame, Hh.
Qed.

(** ** Sequences of calls *)

Inductive helper_op : Type :=
  | HConnect (link : Link) (links : nat → Link) (addr : nat → Z) (other : nat → K → TcpManager → res (K * TcpManager))
      (peer : Endpoint) (traced : bool) (handle : Z) (now : nat → Z)
  | HAccept
  | HServe (f : K → TcpManager → res (K * TcpManager)).   (* the manager's thread *)

Record helper_state := mkHelperState { hs_world : RdmaWorld; hs_k : K; hs_helper : EngineHelper; hs_channels : list EngineChannel }.

Definition helper_exec (a : Endpoint) (σ : helper_state) (op : helper_op) : res helper_state :=
  let 'mkHelperState w k h chs := σ in
  match op with
  | HConnect link links addr other peer traced handle now =>
      let* '(w, k, h, new) := Helper_Connect link links addr other w a k h peer traced handle now in
      Ok (mkHelperState w k h (chs ++ new))
  | HAccept => let* '(k, h, new) := GetAcceptedChannels k h in Ok (mkHelperState w k h (chs ++ new))
  | HServe f => let* '(k, m) := f k (eh_tcp_mgr h) in Ok (mkHelperState w k (with_tcp_mgr h m) chs)
  end.
Definition op_quiet (op : helper_op) : Prop :=
  match op with HConnect _ _ _ other _ _ _ _ => ∀ i, quiet (other i) | HAccept => True | HServe f => quiet f end.
Definition state_ok (a : Endpoint) (X : gmap Z fdinfo) (σ : helper_state) : Prop :=
  helper_ok (hs_world σ) a (hs_k σ) X (hs_helper σ) (hs_channels σ).

Lemma helper_tracer w a k X h chs t : helper_ok w a k X h chs → helper_ok w a k X (with_tracer h t) chs.
Proof. intros [[] ? ? ?]. split; [by split|done..]. Qed.

Lemma Helper_Connect_ok link links addr other w a k h X chs peer traced handle now :
  helper_ok w a k X h chs → (∀ i, quiet (other i)) →
  ∃ w' k' h' new, Helper_Connect link links addr other w a k h peer traced handle now = Ok (w', k', h', new) ∧
    helper_ok w' a k' X h' (chs ++ new) ∧ eh_config h' = eh_config h ∧
    (transport_type (eh_config h) ≠ kRdma → ∃ h1, tcp_outcome link w a X h chs peer w' k' h1 new ∧ failures_of h' = failures_of h1) ∧
    (transport_type (eh_config h) = kRdma → k' = k ∧ rdma_outcome w a h peer w' new).
Proof.
  intros Hok Hq. unfold Helper_Connect. set (h0 := with_tracer h _).
  assert (helper_ok w a k X h0 chs) as Hok0 by by apply helper_tracer. change (eh_config h0) with (eh_config h).
  destruct (bool_decide_reflect (transport_type (eh_config h) = kRdma)) as [Ht|Ht].
  - destruct (connectRdma_ok link links addr w a k h0 X chs peer Hok0) as (w' & new & E & Hok' & Hout).
    change (eh_config h0) with (eh_config h) in E. rewrite E, !bind_Ok. eexists w', k, _, new. split; [done|].
    split; [by apply helper_tracer|]. split; [done|]. by split.
  - destruct (connectTcp_ok link other w a k h0 X chs peer traced handle (now 1%nat) Hok0 Hq) as (w' & k' & h' & new & E & Hout).
    change (eh_config h0) with (eh_config h) in E. rewrite E, !bind_Ok. eexists w', k', _, new. split; [done|].
    split; [by apply helper_tracer, Hout|]. split; [apply Hout|]. split; [|done]. intros _. exists h'. by split.
Qed.

Lemma helper_exec_ok a X σ op : state_ok a X σ → op_quiet op → ∃ σ', helper_exec a σ op = Ok σ' ∧ state_ok a X σ' ∧
  ∃ new, hs_channels σ' = hs_channels σ ++ new.
Proof.
  destruct σ as [w k h chs]. unfold state_ok. cbn [hs_world hs_k hs_helper hs_channels]. intros Hok Hq.
  destruct op as [link links addr other peer traced handle now| |f]; cbn [helper_exec op_quiet] in *.
  - destruct (Helper_Connect_ok link links addr other w a k h X chs peer traced handle now Hok Hq) as (w' & k' & h' & new & -> & Hok' & _).
    rewrite bind_Ok. eexists. split; [done|]. split; [done|]. by exists new.
  - destruct (GetAcceptedChannels_ok k X h chs (hk_tcp _ _ _ _ _ _ Hok)) as (k' & m & new & -> & Hok' & _). rewrite bind_Ok.
    eexists. split; [done|]. split; [|by eexists]. by apply (helper_tcp w a k X h chs).
  - destruct (Hq k X _ _ (tk_owned _ _ _ _ (hk_tcp _ _ _ _ _ _ Hok)) (tk_connectors _ _ _ _ (hk_tcp _ _ _ _ _ _ Hok))) as (k' & m' & -> & Ho & Rs). rewrite bind_Ok.
    eexists. split; [done|]. split; [|exists []; by rewrite app_nil_r]. cbn. apply (helper_tcp w a k X h chs); try done.
    apply (tcp_next k X h chs); try done; apply Hok.
Qed.
Lemma helper_run_ok a X ops : Forall op_quiet ops → ∀ σ, state_ok a X σ → ∃ σ', foreach (helper_exec a) σ ops = Ok σ' ∧ state_ok a X σ'.
Proof.
  intros Hq σ Hok. destruct (foreach_ok (helper_exec a) (λ l σ, Forall op_quiet l ∧ state_ok a X σ) ops σ) as (σ' & E & _ & Hok').
  - intros op l σ1 [[Hq1 Hql]%Forall_cons Hs1]. destruct (helper_exec_ok a X σ1 op Hs1 Hq1) as (σ2 & -> & Hs2 & _). by exists σ2.
  - by split.
  - by exists σ'.
Qed.
End Worlds.

(** * Properties *)

Section Properties.
Context {K V R : Type} `{L : FdLaws K} `{PN : PeerNames K} `{RL : RdmaLaws V} `{G : Random R} `{T : NetText} `{!NetTextLaws T}.
Abbreviation Host := (RdmaHost V R).
Abbreviation RdmaWorld := (gmap Endpoint (Control Host)).

(** [EngineHelper::Create] is all or nothing across both managers.  It always returns
    without failing an assertion.  When it returns null, whatever failed, every descriptor and
    every object of the RDMA library that it made is gone and no handler is installed.
    Otherwise [self] is valid and announces the RDMA adapters, if the transport is RDMA, and
    interfaces whose every endpoint has a listening socket; the new descriptors are exactly the
    TCP manager's; and the handler is installed exactly if the transport is RDMA, with a manager
    whose destruction gives back every object of the library. *)
Theorem EngineHelper_Create_all_or_nothing config (k : K) routable (v : V) (g : R) (control : Control Host) :
  Config_IsValid config = true → require_dataplane_encryption config = false → routable_ok routable → closed (objs v) →
  (∀ v' d, RdmaDevice_Create v = Ok (v', inl d) → Forall (λ x, NicInfo_IsValid (nic_of x) = true) (dv_ctxs d)) →
  co_rdma_handler control = None →
  ∃ k' c lib o, EngineHelper_Create config k routable v g control = Ok (k', c, lib, o) ∧
    control_plane_listener (co_self c) = control_plane_listener (co_self control) ∧
    match o with
    | None => fdt k' = fdt k ∧ (∃ v', lib = Some v' ∧ objs v' = objs v) ∧ co_rdma_handler c = None
    | Some h => eh_config h = config ∧ IsDataPlaneValid (co_self c) = true ∧
        owned k' (fdt k) (eh_tcp_mgr h) [] ∧ apart (tm_poller (eh_tcp_mgr h)) (fdt k) ∧ tm_stop (eh_tcp_mgr h) = false ∧
        ∃ rdma_nics added, data_plane_listeners (co_self c) = rdma_nics ++ added ∧
          (∀ e, e ∈ added ≫= nic_endpoints → ∃ fd l, tm_listeners (eh_tcp_mgr h) !! fd = Some l ∧ l_endpoint l = e) ∧
          if eh_rdma_mgr h
          then transport_type config = kRdma ∧ lib = None ∧ ∃ host d, co_rdma_handler c = Some (mkRdmaConnHandler host handler_body) ∧
                 host_ok host ∧ mg_device (ht_mgr host) = Some d ∧ rdma_nics = nic_of <$> dv_ctxs d ∧
                 objs (RdmaManager_destroy c host).2 = objs v
          else transport_type config ≠ kRdma ∧ rdma_nics = [] ∧ co_rdma_handler c = None ∧ ∃ v', lib = Some v' ∧ objs v' = objs v
    end.
Proof.
  intros Hcfg Henc Hr Hcl Hnics Hh0. destruct (helper_create_ok config k routable v g control Hcfg Henc Hr Hcl Hnics Hh0)
    as (k' & c & lib & o & E & Hcp & Ho). exists k', c, lib, o. split; [done|]. split; [done|]. destruct o as [h|]; [|done].
  destruct Ho as (Hc & Hv & Hown & Hap & Hst & _ & _ & _ & Hrest). done.
Qed.

(** C30: what [EngineHelper::Connect] delivers, while the TCP manager's own thread serves
    and whatever the links and the system calls do.  It never fails an assertion, never
    disturbs earlier channels and returns at most the configured number of channels.  With
    TCP each is a blocking channel with a descriptor of its own, the failed attempts are added
    to the counter, and fewer channels than configured, although the peer was reached and
    listens, means that twice as many attempts were made.  With RDMA every channel is open
    and its queue pair is connected to one that the peer keeps. *)
Theorem EngineHelper_Connect_exact link links addr other (w : RdmaWorld) a (k : K) h X chs peer traced handle now :
  helper_ok w a k X h chs → (∀ i, quiet (other i)) → let n := num_conns_per_peer (eh_config h) in
  ∃ w' k' h' new, Helper_Connect link links addr other w a k h peer traced handle now = Ok (w', k', h', new) ∧
    helper_ok w' a k' X h' (chs ++ new) ∧ Z.of_nat (length new) ≤ n ∧
    (transport_type (eh_config h) ≠ kRdma → Forall blocking_tcp new ∧ ∃ failures,
       failures_of h' = u64 (failures_of h + failures) ∧ 0 ≤ failures ∧ failures + Z.of_nat (length new) ≤ 2 * n ∧
       (link = Delivered → HasNonzeroIpPort peer = true → ∀ cb, w !! peer = Some cb → GetTcpListeners (co_self cb) ≠ [] →
          Z.of_nat (length new) < n → failures + Z.of_nat (length new) = 2 * n)) ∧
    (transport_type (eh_config h) = kRdma → k' = k ∧
       Forall (λ ch, ∃ rc, ch = RdmaCh rc ∧ rl_is_shutdown rc = false ∧ paired w' a peer (rl_rdma rc)) new).
Proof.
  intros Hok Hq n. destruct (Helper_Connect_ok link links addr other w a k h X chs peer traced handle now Hok Hq)
    as (w' & k' & h' & new & E & Hok' & _ & Htcp & Hrdma). exists w', k', h', new. split; [done|]. split; [done|].
  destruct (decide (transport_type (eh_config h) = kRdma)) as [Ht|Ht].
  - destruct (Hrdma Ht) as [-> [Hl Hf]]. split; [done|]. split; [done|]. by split.
  - destruct (Htcp Ht) as (h1 & (_ & _ & Hl & Hb & failures & Hf) & E1). split; [done|]. split; [|done]. intros _. split; [done|].
    exists failures. by rewrite E1.
Qed.

End Properties.

(** * Examples: two processes on TCP *)

#[export] Instance fsim_peers : PeerNames fsim := { getpeername := λ k fd, tab k !! fd ≫= fi_name }.
Definition eng_config : Config := mkConfig kTcp 2 false.
Definition eng_control (n : Z) : Control (RdmaHost rdma_sim Z) :=
  mkControl eng_config (mkHostInfo (rdma_listener n) []) (mkCreds true true) (Some 20000) true 0 ∅ ∅ None None.
Definition eng_routable (n : Z) : list (str * (NicType * list IpAddr)) := [(["e"%char; "0"%char], (kIP, [IPv4 [10; 0; 0; n]]))].
Definition eng_create (config : Config) (n : Z) (left : nat) :=
  EngineHelper_Create config (fsim_start 2) (eng_routable n) (sim_new left) n (eng_control n).
(** The descriptors, the objects of the RDMA library and the announced interfaces. *)
Definition created (config : Config) (left : nat) : option (bool * nat * option nat * nat) :=
  match eng_create config 1 left with
  | Ok (k, c, lib, o) => Some (bool_decide (is_Some o), size (tab k), (λ s, size (sim_objs s)) <$> lib, length (data_plane_listeners (co_self c)))
  | Fault _ => None
  end.

(** TCP only; RDMA and TCP; no RDMA device can be opened. *)
Example create_tcp : created eng_config 0 = Some (true, 5%nat, Some 0%nat, 1%nat).
Proof. vm_compute. reflexivity. Qed.
Example create_rdma : created rdma_config 40 = Some (true, 5%nat, None, 3%nat).
Proof. vm_compute. reflexivity. Qed.
Example create_no_rdma : created rdma_config 2 = Some (false, 3%nat, Some 0%nat, 0%nat).
Proof. vm_compute. reflexivity. Qed.

Definition eng_process (n : Z) : Control (RdmaHost rdma_sim Z) :=
  match eng_create eng_config n 0 with Ok (_, c, _, _) => c | Fault _ => eng_control n end.
Definition eng_world : gmap Endpoint (Control (RdmaHost rdma_sim Z)) :=
  <[rdma_listener 2 := eng_process 2]> {[rdma_listener 1 := eng_process 1]}.
(** Meanwhile a connection arrives at the listener. *)
Definition eng_other (i : nat) : fsim → TcpManager → res (fsim * TcpManager) := serve 4 EPOLLIN.
Definition eng_connect (link : Link) (k : fsim) (h : EngineHelper) :=
  Helper_Connect (T := HexText.text) link (λ _, Delivered) (λ i, Z.of_nat i) eng_other eng_world (rdma_listener 1) k h (rdma_listener 2) true 5 (λ i, Z.of_nat i).
(** Channels, accepted sockets and failures. *)
Definition eng_outcome (link : Link) : option (nat * nat * Z) :=
  match eng_create eng_config 1 0 with
  | Ok (k, _, _, Some h) => match eng_connect link k h with
                            | Ok (_, _, h, chs) => Some (length chs, length (pr_sockets (tm_incoming (eh_tcp_mgr h))), failures_of h)
                            | Fault _ => None
                            end
  | _ => None
  end.
Example connect_delivered : eng_outcome Delivered = Some (2%nat, 2%nat, 0).
Proof. vm_compute. reflexivity. Qed.
Example connect_refused : eng_outcome (Refused Unavailable) = Some (0%nat, 0%nat, 0).
Proof. vm_compute. reflexivity. Qed.

(** Another thread that connects to a third host at the same time: its socket is taken for
    one of ours, so that the caller has its two channels after one attempt of its own (two
    sockets were opened in all), one of them leads to the third host, and the other thread
    finds none. *)
Definition other_connect (i : nat) (k : fsim) (m : TcpManager) : res (fsim * TcpManager) :=
  if (i =? 0)%nat then let* '(k, m, _) := Connect k m Endpoint_default (mkEndpoint (IPv4 [10; 0; 0; 3]) 9) true None in Ok (k, m) else Ok (k, m).
Example concurrent_connects_mix :
  match eng_create eng_config 1 0 with
  | Ok (k, _, _, Some h) =>
      match connectTcp_loop other_connect false [mkEndpoint (IPv4 [10; 0; 0; 2]) 8] 2 4 k (eh_tcp_mgr h) 0 [] 0 with
      | Ok (k', m, chs, _) => Some (length chs, length (pr_sockets (tm_outgoing m)), (size (tab k') - size (tab k))%nat)
      | Fault _ => None
      end
  | _ => None
  end = Some (2%nat, 0%nat, 2%nat).
Proof. vm_compute. reflexivity. Qed.

Lemma no_device v' d : RdmaDevice_Create (sim_new 0) = Ok (v', inl d) → Forall (λ x, NicInfo_IsValid (nic_of x) = true) (dv_ctxs d).
Proof.
  intros E. assert (match RdmaDevice_Create (sim_new 0) with Ok (_, inl _) => false | _ => true end = true) as Hn by (vm_compute; reflexivity).
  rewrite E in Hn. discriminate.
Qed.
Lemma eng_routable_ok n : routable_ok (eng_routable n) ↔ IpAddr_IsZero (IPv4 [10; 0; 0; n]) = false.
Proof.
  split; [intros Hr; apply (Hr _ kIP [IPv4 [10; 0; 0; n]] _ (list_elem_of_here _ _)); by left|].
  intros Hz ifc t addrs ip Hin Hip. apply list_elem_of_singleton in Hin. injection Hin as -> -> ->. by apply list_elem_of_singleton in Hip as ->.
Qed.
Lemma eng_world_ok : world_ok eng_world.
Proof.
  assert (∀ n, n = 1 ∨ n = 2 → ctrl_ok (rdma_listener n) (eng_process n)) as Hp.
  { intros n Hn. split.
    - destruct Hn as [->| ->]; vm_compute; reflexivity.
    - destruct Hn as [->| ->]; vm_compute; reflexivity.
    - destruct Hn as [->| ->]; (apply (bool_decide_unpack _); vm_compute; exact I).
    - destruct Hn as [->| ->]; vm_compute; reflexivity.
    - destruct Hn as [->| ->]; vm_compute; reflexivity.
    - destruct Hn as [->| ->]; vm_compute; eauto.
    - destruct Hn as [->| ->]; vm_compute; reflexivity.
    - assert (co_hosts (eng_process n) = ∅) as -> by (destruct Hn as [->| ->]; vm_compute; reflexivity). apply map_Forall_empty.
    - assert (co_rdma_handler (eng_process n) = None) as -> by (destruct Hn as [->| ->]; vm_compute; reflexivity). done. }
  assert (∀ e c, eng_world !! e = Some c → ∃ n, (n = 1 ∨ n = 2) ∧ e = rdma_listener n ∧ c = eng_process n) as Hin.
  { unfold eng_world. intros e c [[<- <-]|[_ [<- <-]%lookup_singleton_Some]]%lookup_insert_Some; [exists 2|exists 1]; split_and!; auto. }
  split.
  - intros e c (n & Hn & -> & ->)%Hin. split; [by apply Hp|].
    assert (co_hosts (eng_process n) = ∅) as -> by (destruct Hn as [->| ->]; vm_compute; reflexivity). by intros p x ?%lookup_empty_Some.
  - intros e c f (n & Hn & -> & ->)%Hin Hf.
    assert (co_rdma_handler (eng_process n) = None) as Hz by (destruct Hn as [->| ->]; vm_compute; reflexivity). by rewrite Hz in Hf.
Qed.
Lemma eng_world_1 : eng_world !! rdma_listener 1 = Some (eng_process 1).
Proof. unfold eng_world. rewrite lookup_insert_ne by (by vm_compute). apply lookup_singleton_eq. Qed.
Lemma eng_created : ∃ k lib h, eng_create eng_config 1 0 = Ok (k, eng_process 1, lib, Some h).
Proof.
  assert (match eng_create eng_config 1 0 with Ok (_, _, _, Some _) => true | _ => false end = true) as Hs by (vm_compute; reflexivity).
  unfold eng_process. destruct (eng_create eng_config 1 0) as [[[[k c] lib] [h|]]|]; [|discriminate..]. by exists k, lib, h.
Qed.

(** Without devices the RDMA transport cannot be set up, and nothing is left. *)
Lemma EngineHelper_Create_all_or_nothing_witness : ∃ k c v,
  eng_create rdma_config 1 0 = Ok (k, c, Some v, None) ∧ fdt k = fdt (fsim_start 2) ∧ objs v = objs (sim_new 0).
Proof.
  destruct (EngineHelper_Create_all_or_nothing rdma_config (fsim_start 2) (eng_routable 1) (sim_new 0) 1 (eng_control 1) eq_refl eq_refl
    (proj2 (eng_routable_ok 1) eq_refl) (sim_new_closed 0) no_device eq_refl) as (k & c & lib & o & E & _ & Ho).
  assert (match eng_create rdma_config 1 0 with Ok (_, _, _, None) => true | _ => false end = true) as Hs by (vm_compute; reflexivity).
  unfold eng_create in *. rewrite E in Hs. destruct o as [h|]; [discriminate|]. destruct Ho as (Hk & (v & -> & Hv) & _).
  exists k, c, v. split; [exact E|]. split; [exact Hk|exact Hv].
Defined.

Lemma EngineHelper_Connect_exact_witness : ∃ k h w' k' h' s1 s2,
  eng_connect Delivered k h = Ok (w', k', h', [TcpCh s1; TcpCh s2]) ∧ sk_blocking s1 = true ∧ sk_blocking s2 = true ∧ failures_of h' = 0.
Proof.
  destruct eng_created as (k & lib & h & E).
  pose proof (helper_created eng_config (fsim_start 2) (eng_routable 1) (sim_new 0) 1 (eng_control 1) k (eng_process 1) lib h eng_world
    (rdma_listener 1) (eng_process 1) eq_refl eq_refl (proj2 (eng_routable_ok 1) eq_refl) (sim_new_closed 0) no_device eq_refl E
    eng_world_ok eng_world_1 eq_refl) as Hok.
  destruct (EngineHelper_Connect_exact (T := HexText.text) (NetTextLaws0 := HexText.text_laws) Delivered (λ _, Delivered) (λ i, Z.of_nat i) eng_other eng_world (rdma_listener 1) k h
    _ [] (rdma_listener 2) true 5 (λ i, Z.of_nat i) Hok (λ i, serve_quiet 4 EPOLLIN)) as (w' & k' & h' & new & E' & Hok' & _ & Htcp & _).
  assert (eng_outcome Delivered = Some (2%nat, 2%nat, 0)) as Hs by (vm_compute; reflexivity).
  assert (eh_config h = eng_config) as Hcfg.
  { assert (match eng_create eng_config 1 0 with Ok (_, _, _, Some h) => eh_config h | _ => rdma_config end = eng_config) as Hc by (vm_compute; reflexivity).
    rewrite E in Hc. exact Hc. }
  unfold eng_outcome in Hs. rewrite E in Hs. unfold eng_connect in *. rewrite E' in Hs. injection Hs as Hl _ Hf.
  destruct Htcp as [Hb _]; [rewrite Hcfg; discriminate|]. destruct new as [|c1 [|c2 [|]]]; try discriminate Hl.
  rewrite !Forall_cons in Hb. destruct Hb as ((s1 & -> & Hb1) & (s2 & -> & Hb2) & _).
  exists k, h, w', k', h', s1, s2. split; [exact E'|]. split; [exact Hb1|]. split; [exact Hb2|exact Hf].
Defined.

(** A connection, and the accepted sockets are taken. *)
Definition eng_ops : list helper_op :=
  [HConnect Delivered (λ _, Delivered) (λ i, Z.of_nat i) eng_other (rdma_listener 2) true 5 (λ i, Z.of_nat i); HServe (serve 4 EPOLLIN); HAccept].
