(* ===== verification/SocketText.v ===== *)
(** The rest of [internal/socket/socket_util]: the text forms of socket addresses and sockets,
    used in messages and in the log, with the [ToString] of the socket classes, and the
    timeouts of a socket. *)

From Stdlib Require Import Ascii String.
From stdpp Require Import base tactics list numbers strings gmap.
From S2P Require Import Prelude IpAddr Endpoint Socket Ownership FdTable FdSim EngineHelper.
Local Open Scope Z_scope.
Local Open Scope list_scope.

Definition ENOTCONN : Z := 107.
(** [errno] after a [getpeername] that failed. *)
Class PeerErrno (K : Type) := { getpeername_errno : K → Z → Z }.

Definition chars (s : string) : str := String.list_ascii_of_string s.

Section Ops.
Context {K : Type} `{Kernel K} `{PeerNames K} `{PeerErrno K} `{T : NetText}.

Definition ToIpAddrPortString (ss : sockaddr) : str :=
  match ss with
  | sockaddr_in p a => ToIPv4String a ++ ":"%char :: StrCatInt (bswap16 p)
  | sockaddr_in6 p a => "["%char :: ToIPv6String a ++ "]"%char :: ":"%char :: StrCatInt (bswap16 p)
  | sockaddr_other f => chars "invalid addr family: " ++ StrCatInt f
  end.

Definition SelfAddrPort (k : K) (fd : Z) : str :=
  match getsockname k fd with Some ss => ToIpAddrPortString ss | None => chars "?" end.
Definition PeerAddrPort (k : K) (fd : Z) : str :=
  match getpeername k fd with
  | Some ss => ToIpAddrPortString ss
  | None => if getpeername_errno k fd =? ENOTCONN then chars "*" else chars "?"
  end.
Definition AddrPortPair (k : K) (fd : Z) : str := SelfAddrPort k fd ++ chars "--" ++ PeerAddrPort k fd.

Definition SuccessMsg (k : K) (who what : str) (fd : Z) : str :=
  who ++ chars " socket " ++ what ++ chars ", fd=" ++ StrCatInt fd ++ chars " " ++ AddrPortPair k fd.
Definition SuccessMsg_io (k : K) (who what : str) (fd bytes : Z) : str :=
  who ++ chars " socket " ++ what ++ chars ", fd=" ++ StrCatInt fd ++ chars " " ++ AddrPortPair k fd ++
  chars " #bytes=" ++ StrCatInt bytes.

Definition SocketBase_ToString (k : K) (s : SocketBase) : res str :=
  do* dcheck (sk_invariant k s);
  let flag (b : bool) := StrCatInt (if b then 1 else 0) in
  Ok (chars "ipv" ++ StrCatInt (if sk_family s =? AF_INET then 4 else 6) ++ chars " socket fd=" ++ StrCatInt (sk_fd s) ++
      chars " " ++ AddrPortPair k (sk_fd s) ++ chars " (blocking=" ++ flag (sk_blocking s) ++
      chars ", connected=" ++ flag (sk_connected s) ++ chars ")").
Definition Tcp_ToString (k : K) (s : SocketBase) : res str :=
  let* t := SocketBase_ToString k s in Ok (chars "tcp/" ++ t).
Definition Udp_ToString (k : K) (s : SocketBase) : res str :=
  let* t := SocketBase_ToString k s in Ok (chars "udp/" ++ t).
End Ops.

(** * The text of an address is the text of its endpoint *)

Section Lemmas.
Context {K : Type} `{Kernel K} `{PeerNames K} `{PeerErrno K} `{T : NetText} `{!NetTextLaws T}.

Definition sockaddr_wf (ss : sockaddr) : Prop :=
  match ss with sockaddr_in p a => fits 16 p ∧ is_bytes 4 a | sockaddr_in6 p a => fits 16 p ∧ is_bytes 16 a | sockaddr_other _ => False end.

Lemma bswap16_fits x : fits 16 x → fits 16 (bswap16 x).
Proof.
  intros Hx. rewrite bswap16_spec by done. unfold fits in *. change (2 ^ 16) with 65536 in *.
  pose proof (Z.mod_pos_bound x 256 ltac:(lia)). assert (0 ≤ x `div` 256 < 256) by (split; [apply Z.div_pos|apply Z.div_lt_upper_bound]; lia). lia.
Qed.

(** Reading the text of a socket's own address or of its peer's gives the endpoint that the
    socket reports. *)
Lemma text_endpoint ss : sockaddr_wf ss → Endpoint_Create (ToIpAddrPortString ss) = Endpoint_of_sockaddr ss.
Proof.
  intros Hs. transitivity (Endpoint_Create (Endpoint_ToString (Endpoint_of_sockaddr ss))).
  - by destruct ss.
  - apply Endpoint_Create_ToString. destruct ss as [p a|p a|f]; [|..|done]; destruct Hs as [Hp Ha]; (split; [done|by apply bswap16_fits]).
Qed.
Lemma self_text_endpoint k fd ss : getsockname k fd = Some ss → sockaddr_wf ss → Endpoint_Create (SelfAddrPort k fd) = SelfEndpoint k fd.
Proof. intros E Hs. unfold SelfAddrPort, SelfEndpoint. rewrite E. by apply text_endpoint. Qed.
Lemma peer_text_endpoint k fd ss : getpeername k fd = Some ss → sockaddr_wf ss → Endpoint_Create (PeerAddrPort k fd) = PeerEndpoint k fd.
Proof. intros E Hs. unfold PeerAddrPort, PeerEndpoint. rewrite E. by apply text_endpoint. Qed.
End Lemmas.

(** * Timeouts *)

Definition SO_RCVTIMEO : Z := 20.
Definition SO_SNDTIMEO : Z := 21.

(** A [timeval] is seconds and microseconds; the conversions from and to nanoseconds are
    Abseil's. *)
Class TimeoutKernel (K : Type) := {
  getsockopt_timeval : K → Z → Z → Z * (Z * Z);
  setsockopt_timeval : K → Z → Z → Z * Z → K * Z;
  ToTimeval : Z → Z * Z;
  DurationFromTimeval : Z * Z → Z;
}.

Section Timeouts.
Context {K : Type} `{TimeoutKernel K}.

Definition timeout_opt (send : bool) : Z := if send then SO_SNDTIMEO else SO_RCVTIMEO.
Definition GetTimeout (k : K) (fd : Z) (send : bool) : Z :=
  let '(ret, tv) := getsockopt_timeval k fd (timeout_opt send) in
  if ret =? 0 then DurationFromTimeval tv else 0.
Definition SetTimeout (k : K) (fd : Z) (send : bool) (timeout : Z) : res (K * Z) :=
  do* dcheck (0 <=? timeout);
  Ok (setsockopt_timeval k fd (timeout_opt send) (ToTimeval timeout)).
End Timeouts.

(** The system keeps the value, rounded up to its clock, without changing the other direction;
    Abseil truncates to microseconds. *)
Class TimeoutLaws (K : Type) `{TimeoutKernel K} := {
  tk_same : ∀ (k : K) fd opt tv k', setsockopt_timeval k fd opt tv = (k', 0) →
    ∃ tv', getsockopt_timeval k' fd opt = (0, tv') ∧ DurationFromTimeval tv ≤ DurationFromTimeval tv';
  tk_other : ∀ (k : K) fd opt tv k' ret opt', setsockopt_timeval k fd opt tv = (k', ret) → opt' ≠ opt →
    getsockopt_timeval k' fd opt' = getsockopt_timeval k fd opt';
  tk_duration : ∀ d, 0 ≤ d → DurationFromTimeval (ToTimeval d) = d `div` 1000 * 1000;
}.

(** A timeout that was set is read back at least as long, up to a microsecond, and the timeout of
    the other direction is as before. *)
Lemma SetTimeout_read {K} `{TimeoutLaws K} (k : K) fd send timeout : 0 ≤ timeout →
  ∃ k' ret, SetTimeout k fd send timeout = Ok (k', ret) ∧
    GetTimeout k' fd (negb send) = GetTimeout k fd (negb send) ∧
    (ret = 0 → timeout - 1000 < GetTimeout k' fd send).
Proof.
  intros Ht. unfold SetTimeout, GetTimeout. rewrite bind_dcheck by by apply Z.leb_le.
  destruct (setsockopt_timeval _ _ _ _) as [k' ret] eqn:E. exists k', ret. split; [done|]. split.
  - rewrite (tk_other _ _ _ _ _ _ (timeout_opt (negb send)) E) by by destruct send. done.
  - intros ->. destruct (tk_same _ _ _ _ _ E) as (tv' & -> & Hle). cbn. rewrite tk_duration in Hle by done.
    pose proof (Z.div_mod timeout 1000 ltac:(lia)). pose proof (Z.mod_pos_bound timeout 1000 ltac:(lia)). lia.
Qed.
