(* ===== verification/TransportCreate.v ===== *)
(** Creation of a transport: [Engine::Create], [Engine::~Engine] and [TransportImpl::Create]
    ([internal/engine/engine.cc], [internal/transport_impl.cc]), and the loops of the engine's
    threads composed with the helper that makes their channels.

    [TransportImpl::Create] builds the control plane, then the data plane, which fills in the
    host information, and only then starts to serve.  While it does so the threads of the
    engine and of the TCP manager already run: [acts] is what they do until the control plane
    has started. *)

From Stdlib Require Import Ascii String.
From stdpp Require Import base tactics numbers gmap fin_maps sets list.
From S2P Require Import Prelude Codec IpAddr Endpoint Types Header Channel RequestTracker Trace Metrics Worker Engine Socket HostInfo Ownership FdTable FdSim TcpManager ControlMessage Control RdmaVerbs RdmaSim RdmaContext RdmaQPair RdmaMemory RdmaChannel RdmaManager EngineHelper.
Local Open Scope Z_scope.

(** [Channel::Type] of a channel object. *)
Definition channel_type (ch : EngineChannel) : ChannelType := match ch with TcpCh _ => kTCP | RdmaCh _ => Channel.kRDMA end.

(** [self_] is a reference: the engine sees the control endpoint that is bound later. *)
Definition set_self (e : Engine) (self : Endpoint) : Engine :=
  mkEngine self (en_num_conns e) (en_stop e) (en_next_handle e) (en_next_reqid e) (en_posts e)
    (en_out e) (en_in e) (en_send_workers e) (en_recv_workers e) (en_closures e) (en_evs e).

Section Ops.
Context {K V R : Type} `{Kernel K} `{EventKernel K} `{PeerNames K} `{RdmaLib V} `{Verbs V} `{Random R} `{T : NetText}.
Abbreviation Host := (RdmaHost V R).
Abbreviation RdmaWorld := (gmap Endpoint (Control Host)).

(** ** The engine *)

(** The initial identifiers are drawn from the engine's own generator [bitgen]. *)
Definition Engine_Create (config : Config) (k : K) (routable : list (str * (NicType * list IpAddr))) (v : V) (g bitgen : R)
    (control : Control Host) (recv_post : bool) (resolve : option (Metadata → Metadata → Z))
    : res (K * Control Host * option V * option (EngineHelper * Engine)) :=
  if negb (Config_IsValid config) then Ok (k, control, Some v, None)
  else
    let* '(k, control, lib, helper) := EngineHelper_Create config k routable v g control in
    match helper with
    | None => Ok (k, control, lib, None)
    | Some helper =>
        do* dcheck (IsDataPlaneValid (co_self control));
        let '(bitgen, next_handle) := random_u32 bitgen in
        let '(_, next_reqid) := random_u32 bitgen in
        do* dcheck (Config_IsValid config);
        Ok (k, control, lib, Some (helper,
          Engine_new (control_plane_listener (co_self control)) (num_conns_per_peer config) next_handle next_reqid recv_post resolve))
    end.

(** One iteration of [tcpmgrLoop] with the channels it takes; [None] when it ends. *)
Definition tcpmgrLoop_iter (k : K) (h : EngineHelper) (e : Engine) : res (option (K * EngineHelper * Engine * list EngineChannel)) :=
  if en_stop e then Ok None
  else
    let* '(k, h, chs) := GetAcceptedChannels k h in
    Ok (Some (k, h, (createRecvWorkers e (channel_type <$> chs)).1, chs)).

(** One iteration of [mainLoop] with the channels it makes; [None] when it ends. *)
Definition mainLoop_step (link : Link) (links : nat → Link) (addr : nat → Z) (other : nat → K → TcpManager → res (K * TcpManager))
    (w : RdmaWorld) (a : Endpoint) (k : K) (h : EngineHelper) (e : Engine) (times : nat → Z) (now : Z)
    : res (option (RdmaWorld * K * EngineHelper * Engine * list EngineChannel)) :=
  if negb (hasWork e) then Fault Blocked
  else match en_posts e with
  | [] => do* dcheck (en_stop e); Ok None
  | post :: posts =>
      let e := set_posts e posts in
      let few := Z.of_nat (length (default [] (en_send_workers e !! pe_peer post))) <? en_num_conns e in
      let* '(w, k, h, chs) :=
        if few then Helper_Connect link links addr other w a k h (pe_peer post) (pe_trace_ctx post) (pe_handle post) times
        else Ok (w, k, h, []) in
      let e := if few then createSendWorkers e (pe_peer post) (channel_type <$> chs) else e in
      let* e := process e post now in
      Ok (Some (w, k, h, e, chs))
  end.

(** The end of a worker: its channel is shut down and destroyed. *)
Definition close_channel : K * Control Host → EngineChannel → res (K * Control Host) :=
  λ '(k, control) ch,
    match ch with
    | TcpCh s => let* '(k, s) := Socket_Shutdown k s in let* k := Socket_destroy k s in Ok (k, control)
    | RdmaCh rc =>
        let* f := at_or BadPointer (co_rdma_handler control) in
        let '(v, rc) := RdmaChannel_Shutdown (ht_lib (rh_obj f)) rc in
        let v := RdmaQPair_destroy v (rn_qp (rl_rdma rc)) in
        Ok (k, SetRdmaConnHandler control (Some (mkRdmaConnHandler (with_lib (rh_obj f) v) (rh_call f))))
    end.

(** The destructor, once its threads are joined: the workers with their channels, then the
    helper. *)
Definition Engine_destroy (fuel : nat) (k : K) (control : Control Host) (h : EngineHelper) (chs : list EngineChannel)
    : res (K * Control Host * option V) :=
  let* '(k, control) := foreach close_channel (k, control) chs in
  EngineHelper_destroy fuel k control h.

(** ** The transport *)

(** What the threads do meanwhile. *)
Inductive act : Type := AServe (f : K → TcpManager → res (K * TcpManager)) | AAccept.

Record Running := mkRunning { rg_k : K; rg_helper : EngineHelper; rg_engine : Engine; rg_channels : list EngineChannel }.

Definition act_step (r : Running) (a : act) : res Running :=
  let 'mkRunning k h e chs := r in
  match a with
  | AServe f => let* '(k, m) := f k (eh_tcp_mgr h) in Ok (mkRunning k (with_tcp_mgr h m) e chs)
  | AAccept =>
      let* next := tcpmgrLoop_iter k h e in
      Ok (match next with Some (k, h, e, new) => mkRunning k h e (chs ++ new) | None => r end)
  end.

(** [bound] is the port that the gRPC library binds.  The result has the RDMA library unless a
    manager has it, the control plane and the running data plane. *)
Definition TransportImpl_Create (fuel : nat) (config : Config) (endpoint : Endpoint) (creds : SecurityCredentials) (recv_post : bool)
    (resolve : option (Metadata → Metadata → Z)) (bound : option Z) (acts : list act)
    (k : K) (routable : list (str * (NicType * list IpAddr))) (v : V) (g bitgen : R)
    : res (K * option V * option (Control Host * Running)) :=
  if negb (Config_IsValid config) then Ok (k, Some v, None)
  else if HasZeroIpAddr endpoint then Ok (k, Some v, None)
  else if negb (Creds_IsValid creds) then Ok (k, Some v, None)
  else
    let* control := Control_Create config (mkHostInfo endpoint []) creds in
    match control with
    | None => Ok (k, Some v, None)
    | Some control =>
        let* '(k, control, lib, engine) := Engine_Create config k routable v g bitgen control recv_post resolve in
        match engine with
        | None => Ok (k, lib, None)
        | Some (h, e) =>
            let* r := foreach act_step (mkRunning k h e []) acts in
            let* '(control, ok) := Control_Start control bound in
            if negb ok then
              let* '(k, control, lib') := Engine_destroy fuel (rg_k r) control (rg_helper r) (rg_channels r) in
              Ok (k, if eh_rdma_mgr (rg_helper r) then lib' else lib, None)
            else
              do* dcheck (HostInfo_IsValid (co_self control));
              Ok (rg_k r, lib, Some (control,
                mkRunning (rg_k r) (rg_helper r) (set_self (rg_engine r) (control_plane_listener (co_self control))) (rg_channels r)))
        end
    end.

(** ** Calls that the transport forwards *)

Definition GetControlEndpoint (control : Control Host) : str := Endpoint_ToString (control_plane_listener (co_self control)).
(** [Control::GetMetrics] and [Engine::GetMetrics] fill a fresh object. *)
Definition GetTransportMetrics (control : Control Host) (h : EngineHelper) (m : TransportMetrics) : TransportMetrics :=
  EngineMetrics_Snapshot (eh_metrics h)
    (mkTransportMetrics (tm_write m) (tm_read m) (tm_recv_post_latency_us m) (tm_tcp_connect_failures m) (co_received control)).
End Ops.

(** * Lemmas *)

Section Steps.
Context {K V R : Type} `{L : FdLaws K} `{PN : PeerNames K} `{RL : RdmaLaws V} `{G : Random R}.
Abbreviation Host := (RdmaHost V R).
Abbreviation RdmaWorld := (gmap Endpoint (Control Host)).
Implicit Types (k : K) (h : EngineHelper) (X : gmap Z fdinfo) (chs : list EngineChannel) (c : Control Host).

Definition is_tcp (ch : EngineChannel) : Prop := match ch with TcpCh _ => True | RdmaCh _ => False end.
Lemma tcp_channels (ss : list SocketBase) : Forall is_tcp (TcpCh <$> ss).
Proof. by induction ss; constructor. Qed.

Lemma close_channels_ok X (m : TcpManager) cs c chs : Forall is_tcp chs → ∀ k, owned k X m (chcells chs ++ cs) →
  ∃ k', foreach close_channel (k, c) chs = Ok (k', c) ∧ owned k' X m cs.
Proof.
  induction chs as [|ch chs IH]; intros Ht k Ho; cbn [foreach]; [by exists k|]. apply Forall_cons in Ht as [Hch Ht].
  destruct ch as [s|]; [|done]. cbn in Ho. unfold close_channel at 2.
  destruct (proj1 (owned_perm_head _ _ _ _ _) Ho) as [Hh _]. destruct (holds_head _ _ _ _ _ Hh) as (i & Hi & Hs & _).
  destruct (shutdown_ok k s i Hi Hs) as (k1 & -> & Hk1). rewrite bind_Ok.
  destruct (owned_destroy k1 X m (set_connected s false) ∅ (chcells chs ++ cs)) as (k2 & -> & Ho2); [by apply (owned_fdt k)|].
  rewrite !bind_Ok. by apply IH.
Qed.

(** The engine while nothing has been posted. *)
Definition running_ok (X : gmap Z fdinfo) (config : Config) (rdma : bool) (self : Endpoint) (r : Running (K := K)) : Prop :=
  tcp_part (rg_k r) X (rg_helper r) (rg_channels r) ∧ eh_config (rg_helper r) = config ∧ eh_rdma_mgr (rg_helper r) = rdma ∧
  en_self (rg_engine r) = self ∧ Forall is_tcp (rg_channels r).
Definition act_quiet (a : act (K := K)) : Prop := match a with AServe f => quiet f | AAccept => True end.

Lemma createRecvWorkers_self e types : en_self (createRecvWorkers e types).1 = en_self e.
Proof. unfold createRecvWorkers. by destruct types. Qed.

Lemma act_step_ok X config rdma self r a : running_ok X config rdma self r → act_quiet a →
  ∃ r', act_step r a = Ok r' ∧ running_ok X config rdma self r'.
Proof.
  destruct r as [k h e chs]. intros (Ht & Hc & Hr & Hs & Htcp) Hq. cbn [rg_k rg_helper rg_engine rg_channels] in *.
  destruct a as [f|]; cbn [act_step act_quiet] in *.
  - destruct (Hq k X _ _ (tk_owned _ _ _ _ Ht) (tk_connectors _ _ _ _ Ht)) as (k' & m' & -> & Ho & Rs). rewrite bind_Ok.
    eexists. split; [done|]. split; [|done]. cbn. apply (tcp_next k X h chs); try done; apply Ht.
  - unfold tcpmgrLoop_iter. destruct (en_stop e); [rewrite bind_Ok; by eexists|].
    destruct (GetAcceptedChannels_ok k X h chs Ht) as (k' & m & new & -> & Ht' & _). rewrite !bind_Ok.
    eexists. split; [done|]. split; [done|]. cbn. rewrite createRecvWorkers_self. do 3 (split; [done|]).
    apply Forall_app. split; [done|apply tcp_channels].
Qed.
Lemma acts_ok X config rdma self acts : Forall act_quiet acts → ∀ r, running_ok X config rdma self r →
  ∃ r', foreach act_step r acts = Ok r' ∧ running_ok X config rdma self r'.
Proof.
  intros Hq r Hr. destruct (foreach_ok act_step (λ l r, Forall act_quiet l ∧ running_ok X config rdma self r) acts r)
    as (r' & E & _ & Hr'); [|done|by exists r'].
  intros a l r1 [[Ha Hl]%Forall_cons Hr1]. destruct (act_step_ok X config rdma self r1 a Hr1 Ha) as (r2 & -> & Hr2). by exists r2.
Qed.

(** Creating the helper leaves the server alone. *)
Record same_server (c c' : Control Host) : Prop := {
  ss_config : co_config c' = co_config c;
  ss_creds : co_creds c' = co_creds c;
  ss_server : co_server c' = co_server c;
  ss_hosts : co_hosts c' = co_hosts c;
}.
Lemma helper_create_server config k routable v g c k' c' lib h :
  EngineHelper_Create config k routable v g c = Ok (k', c', lib, Some h) → same_server c c'.
Proof.
  unfold EngineHelper_Create. intros ([] & _ & E)%bind_Ok_inv. apply bind_Ok_inv in E as ([v1 r] & Er & E).
  set (c0 := with_server c _ _ _) in Er. assert (same_server c (default c0 r)) as Hr.
  { unfold RdmaManager_Create in Er. destruct (negb (bool_decide (transport_type config = kRdma))); [by injection Er as _ <-|].
    apply bind_Ok_inv in Er as ([v2 d] & _ & Er). destruct d as [d|]; [|by injection Er as _ <-].
    apply bind_Ok_inv in Er as (nics & _ & Er). destruct (bool_decide (nics = [])); [by injection Er as _ <-|].
    apply bind_Ok_inv in Er as (mgr & _ & Er). by injection Er as _ <-. }
  destruct (_ && _); [done|]. apply bind_Ok_inv in E as ([[k1 self] o] & _ & E). destruct o as [m|].
  2:{ by destruct (if bool_decide (is_Some r) then _ else _). }
  destruct (negb (IsDataPlaneValid self)).
  { apply bind_Ok_inv in E as (k2 & _ & E). by destruct (if bool_decide (is_Some r) then _ else _). }
  apply bind_Ok_inv in E as ([] & _ & E). apply bind_Ok_inv in E as (h1 & _ & E). injection E as _ <- _ _.
  by destruct Hr.
Qed.

(** The control object that [TransportImpl::Create] starts from. *)
Definition control_init (config : Config) (endpoint : Endpoint) (creds : SecurityCredentials) : Control Host :=
  mkControl config (mkHostInfo endpoint []) creds None false 0 ∅ ∅ None None.
Lemma control_create_ok config endpoint creds : Config_IsValid config = true → HasZeroIpAddr endpoint = false → Creds_IsValid creds = true →
  Control_Create config (mkHostInfo endpoint []) creds = Ok (Some (control_init config endpoint creds)).
Proof.
  intros Hc Hz Hv. unfold Control_Create, Control_new. cbn [control_plane_listener]. rewrite Hz, Hv. cbn [negb].
  unfold Creds_IsValid in Hv. apply andb_prop in Hv as [Hs Hcl]. by rewrite !bind_dcheck.
Qed.

(** The library that [lib] gives back or that the handler of [c] releases. *)
Definition releases (v : V) (c : Control Host) (lib : option V) (rdma : bool) : Prop :=
  if rdma then ∃ host v', co_rdma_handler c = Some (mkRdmaConnHandler host handler_body) ∧ host_ok host ∧
    drop_rdma c = (SetRdmaConnHandler c None, Some v') ∧ objs v' = objs v
  else co_rdma_handler c = None ∧ ∃ v', lib = Some v' ∧ objs v' = objs v.

Context (config : Config) (endpoint : Endpoint) (creds : SecurityCredentials) (recv_post : bool)
  (resolve : option (Metadata → Metadata → Z)) (routable : list (str * (NicType * list IpAddr))) (v : V) (g bitgen : R).
Hypothesis plain : require_dataplane_encryption config = false.
Hypothesis routes : routable_ok routable.
Hypothesis library : closed (objs v).
Hypothesis devices : ∀ v' d, RdmaDevice_Create v = Ok (v', inl d) → Forall (λ x, NicInfo_IsValid (nic_of x) = true) (dv_ctxs d).

Lemma engine_create_ok k : Config_IsValid config = true →
  ∃ k' c lib o, Engine_Create config k routable v g bitgen (control_init config endpoint creds) recv_post resolve = Ok (k', c, lib, o) ∧
    control_plane_listener (co_self c) = endpoint ∧
    match o with
    | None => fdt k' = fdt k ∧ ∃ v', lib = Some v' ∧ objs v' = objs v
    | Some (h, e) => same_server (control_init config endpoint creds) c ∧ IsDataPlaneValid (co_self c) = true ∧
        releases v c lib (eh_rdma_mgr h) ∧ running_ok (fdt k) config (eh_rdma_mgr h) endpoint (mkRunning k' h e [])
    end.
Proof.
  intros Hc. unfold Engine_Create. rewrite Hc. cbn [negb].
  destruct (helper_create_ok config k routable v g (control_init config endpoint creds) Hc plain routes library devices eq_refl)
    as (k1 & c1 & lib & o & E & Hcp & Ho). rewrite E, bind_Ok. destruct o as [h|].
  2:{ destruct Ho as (Hk & Hv & _). by exists k1, c1, lib, None. }
  destruct Ho as (Ec & Hv & Hown & Hap & Hst & Hcn & Hout & Hf & nics & added & _ & _ & Hr). rewrite bind_dcheck by done.
  destruct (random_u32 bitgen) as [b1 nh]. destruct (random_u32 b1) as [b2 nr]. rewrite bind_dcheck by done.
  eexists k1, c1, lib, _. split; [done|]. split; [done|]. cbn beta iota. split; [by eapply helper_create_server|]. split; [done|]. split.
  - unfold releases. destruct (eh_rdma_mgr h); [|by destruct Hr as (_ & _ & Hh & Hv1)].
    destruct Hr as (_ & _ & host & d & Hh & Hok & _ & _ & Hrel). exists host, (RdmaManager_destroy c1 host).2.
    split; [done|]. split; [done|]. split; [|done]. unfold drop_rdma. by rewrite Hh.
  - split; [split; cbn; rewrite ?Ec, ?Hf; done|]. by do 3 (split; [done|]).
Qed.

(** [Start] with a port that no listener of this process has. *)
Lemma start_ok c bound : same_server (control_init config endpoint creds) c → Config_IsValid config = true → Creds_IsValid creds = true →
  IsDataPlaneValid (co_self c) = true →
  (∀ port, bound = Some port → 0 < port < 2 ^ 16 ∧
     SetPort (control_plane_listener (co_self c)) port ∉ data_plane_listeners (co_self c) ≫= nic_endpoints) →
  match bound with
  | None => Control_Start c bound = Ok (c, false)
  | Some port =>
      let self := mkHostInfo (SetPort (control_plane_listener (co_self c)) port) (data_plane_listeners (co_self c)) in
      Control_Start c bound = Ok (with_server c self (Some port) true, true) ∧ HostInfo_IsValid self = true
  end.
Proof.
  intros [Ec Er Es _] Hcfg Hcr Hv Hport. cbn in Ec, Er, Es. unfold Creds_IsValid in Hcr. apply andb_prop in Hcr as [Hsc Hcc].
  pose proof (proj1 (IsDataPlaneValid_spec _) Hv) as (Hz & _).
  unfold Control_Start. rewrite Es, bool_decide_eq_false_2 by (by intros [? [=]]). rewrite bind_dcheck by by rewrite Hz.
  unfold GrpcServer_Create. rewrite Er, Hsc. cbn [negb]. destruct bound as [port|]; [|done].
  destruct (Hport port eq_refl) as [Hp Hnew]. rewrite bind_dcheck by lia. rewrite bind_Ok.
  replace (u16 port) with port by (symmetry; apply Z.mod_small; lia).
  assert (HostInfo_IsValid (mkHostInfo (SetPort (control_plane_listener (co_self c)) port) (data_plane_listeners (co_self c))) = true) as Hi.
  { apply HostInfo_bound; [by destruct (co_self c)|lia|done]. }
  cbn zeta. split; [|done]. rewrite bind_dcheck; [by rewrite bind_dcheck|]. unfold Control_invariant. cbn. rewrite Ec, Hcfg, Er, Hcc.
  unfold HostInfo_IsValid in Hi. cbn [control_plane_listener] in Hi. by apply andb_prop in Hi as [-> _].
Qed.

Lemma engine_destroy_ok fuel X c r lib self : (0 < fuel)%nat → IsDataPlaneValid (co_self c) = true →
  releases v c lib (eh_rdma_mgr (rg_helper r)) → running_ok X config (eh_rdma_mgr (rg_helper r)) self r →
  ∃ k' c' lib', Engine_destroy fuel (rg_k r) c (rg_helper r) (rg_channels r) = Ok (k', c', lib') ∧ fdt k' = X ∧
    ∃ v', (if eh_rdma_mgr (rg_helper r) then lib' else lib) = Some v' ∧ objs v' = objs v.
Proof.
  intros Hf Hv Hrel (Ht & _ & _ & _ & Htcp). destruct r as [k h e chs]. cbn [rg_k rg_helper rg_channels] in *. unfold Engine_destroy.
  destruct (close_channels_ok X (eh_tcp_mgr h) [] c chs Htcp k) as (k1 & -> & Ho1); [rewrite app_nil_r; apply Ht|]. rewrite bind_Ok.
  assert (tcp_part k1 X h []) as Ht1 by (destruct Ht; by split).
  destruct (EngineHelper_destroy_ok k1 X h [] c fuel Ht1 Hv Hf) as (k2 & c2 & v2 & -> & Hh & Ed & _).
  exists k2, c2, v2. split; [done|]. split; [by apply holds_nil|]. unfold releases in Hrel.
  destruct (eh_rdma_mgr h); [|apply Hrel]. destruct Hrel as (host & v' & _ & _ & E & Hv'). rewrite E in Ed. injection Ed as _ <-. by exists v'.
Qed.

(** A started process can join a world. *)
Lemma join_world w c lib port k h chs X :
  let self := mkHostInfo (SetPort endpoint port) (data_plane_listeners (co_self c)) in
  same_server (control_init config endpoint creds) c → Config_IsValid config = true → Creds_IsValid creds = true →
  releases v c lib (eh_rdma_mgr h) → HostInfo_IsValid self = true → tcp_part k X h chs →
  world_ok w → w !! SetPort endpoint port = None → host_wf self →
  helper_ok (<[SetPort endpoint port := with_server c self (Some port) true]> w) (SetPort endpoint port) k X h chs.
Proof.
  intros self [Ec Er Es Eh] Hcfg Hcr Hrel Hi Ht [Hw Hs] Hnone Hwf. cbn in Ec, Er, Eh. unfold Creds_IsValid in Hcr. apply andb_prop in Hcr as [_ Hcc].
  assert (∀ f, co_rdma_handler c = Some f → rh_call f = handler_body ∧ handler_safe f) as Hhand.
  { intros f Hf. unfold releases in Hrel. destruct (eh_rdma_mgr h); [|destruct Hrel as [Hn _]; congruence].
    destruct Hrel as (host & v' & Hh & Hok & _). rewrite Hh in Hf. injection Hf as <-. split; [done|by apply handler_body_safe]. }
  split; [done| |rewrite lookup_insert_eq; by eexists|].
  - split.
    + apply coherent_join; [done| |done|done]. split; cbn; rewrite ?Ec, ?Er, ?Eh; try done. intros f Hf. by apply Hhand.
    + intros e x f [[<- <-]|[_ Hx]]%lookup_insert_Some Hf; [by apply Hhand|by apply (Hs e x)].
  - intros Hr. unfold releases in Hrel. rewrite Hr in Hrel. destruct Hrel as (host & v' & Hh & _). exists host. apply get_host_some.
    rewrite lookup_insert_eq. eexists _, _. split; [done|]. by split; [exact Hh|].
Qed.
End Steps.

(** * Properties *)

Section Properties.
Context {K V R : Type} `{L : FdLaws K} `{PN : PeerNames K} `{RL : RdmaLaws V} `{G : Random R}.
Abbreviation Host := (RdmaHost V R).
Abbreviation RdmaWorld := (gmap Endpoint (Control Host)).

(** The iteration of the engine's main loop that makes real channels does to the engine what
    [Engine.mainLoop_iter] does with their types. *)
Lemma mainLoop_step_iter `{T : NetText} link links addr other (w : RdmaWorld) a (k : K) h e times now w' k' h' e' chs :
  mainLoop_step link links addr other w a k h e times now = Ok (Some (w', k', h', e', chs)) →
  mainLoop_iter e (channel_type <$> chs) now = Ok (Some e').
Proof.
  unfold mainLoop_step, mainLoop_iter. destruct (negb (hasWork e)); [done|]. destruct (en_posts e) as [|post posts].
  { intros ([] & _ & [=])%bind_Ok_inv. }
  cbn beta iota zeta. set (few := _ <? _). intros ([[[w1 k1] h1] chs1] & E1 & E)%bind_Ok_inv.
  apply bind_Ok_inv in E as (e2 & E2 & [= <- <- <- <- <-]). destruct few; [by rewrite E2|]. by rewrite E2.
Qed.

End Properties.

(** * Examples: a process on TCP *)

Definition tr_creds : SecurityCredentials := mkCreds true true.
Definition tr_endpoint : Endpoint := mkEndpoint (IPv4 [10; 0; 0; 1]) 0.
(** Meanwhile the TCP manager accepts a connection and the engine takes it. *)
Definition tr_acts : list (act (K := fsim)) := [AServe (serve 4 EPOLLIN); AAccept].
Definition tr_create (config : Config) (endpoint : Endpoint) (bound : option Z) :=
  TransportImpl_Create 1 config endpoint tr_creds false None bound tr_acts (fsim_start 2) (eng_routable 1) (sim_new 0) 1 1.
(** Whether there is a transport, its descriptors and channels, and its control endpoint. *)
Definition tr_outcome (config : Config) (endpoint : Endpoint) (bound : option Z) : option (nat * option (nat * str)) :=
  match tr_create config endpoint bound with
  | Ok (k, _, o) => Some (size (tab k), (λ '(c, r), (length (rg_channels r), GetControlEndpoint (T := HexText.text) c)) <$> o)
  | Fault _ => None
  end.
Example tr_started : match tr_outcome eng_config tr_endpoint (Some 7000) with Some (n, Some (m, _)) => Some (n, m) | _ => None end = Some (7%nat, 2%nat).
Proof. vm_compute. reflexivity. Qed.
(** The control plane does not start; the zero address; no RDMA device. *)
Example tr_not_started : tr_outcome eng_config tr_endpoint None = Some (3%nat, None).
Proof. vm_compute. reflexivity. Qed.
Example tr_zero : tr_outcome eng_config (mkEndpoint (IPv4 [0; 0; 0; 0]) 7000) (Some 7000) = Some (3%nat, None).
Proof. vm_compute. reflexivity. Qed.
Example tr_no_device : tr_outcome rdma_config tr_endpoint (Some 7000) = Some (3%nat, None).
Proof. vm_compute. reflexivity. Qed.

Lemma tr_port_free c0 k1 c lib data :
  Control_Create (Obj := RdmaHost rdma_sim Z) eng_config (mkHostInfo tr_endpoint []) tr_creds = Ok (Some c0) →
  Engine_Create eng_config (fsim_start 2) (eng_routable 1) (sim_new 0) 1 1 c0 false None = Ok (k1, c, lib, Some data) →
  SetPort tr_endpoint 7000 ∉ data_plane_listeners (co_self c) ≫= nic_endpoints.
Proof.
  assert (match Control_Create (Obj := RdmaHost rdma_sim Z) eng_config (mkHostInfo tr_endpoint []) tr_creds with
    | Ok (Some c0) => match Engine_Create eng_config (fsim_start 2) (eng_routable 1) (sim_new 0) 1 1 c0 false None with
        | Ok (_, c, _, _) => bool_decide (SetPort tr_endpoint 7000 ∈ data_plane_listeners (co_self c) ≫= nic_endpoints) | _ => true end
    | _ => true end = false) as Hf by (vm_compute; reflexivity).
  intros E1 E2. rewrite E1, E2 in Hf. by apply bool_decide_eq_false in Hf.
Qed.
