(* ===== verification/TransportUtil.v ===== *)
(** The public constructor of transports, [CreateTransport], and the registry of a transport
    that stands in for RDMA ([api/transport_util.cc], [api/transport_registry.cc]).

    A factory is code that is linked from elsewhere: its type [F] and what a call of it
    answers, [call], are parameters. *)

From Stdlib Require Import Ascii String.
From stdpp Require Import base tactics numbers gmap fin_maps sets list.
From S2P Require Import Prelude Codec IpAddr Endpoint Types Header Channel RequestTracker Trace Metrics Worker Engine Socket HostInfo Ownership FdTable FdSim TcpManager ControlMessage Control RdmaVerbs RdmaSim RdmaContext RdmaQPair RdmaMemory RdmaChannel RdmaManager EngineHelper TransportCreate.
Local Open Scope Z_scope.

(** * Data *)

(** [Options] of [api/transport_types.h]; of the receive callback only whether there is one. *)
Record TransportOptions := mkTransportOptions {
  op_transport_type : TransportType;
  num_parallel_connections : Z;
  recv_post_callback : bool;
  resolve_addr_callback : option (Metadata → Metadata → Z);
}.
Definition with_parallel (o : TransportOptions) (n : Z) : TransportOptions :=
  mkTransportOptions (op_transport_type o) n (recv_post_callback o) (resolve_addr_callback o).

(** * The registry *)

(** [RdmaTransportSlot]: the factory, if one is registered. *)
Section Slot.
Context {F : Type}.

(** The argument is [None] for a null factory. *)
Definition Slot_Set (slot factory : option F) : option F * absl_Status :=
  match factory with
  | None => (slot, Some InvalidArgument)
  | Some f => match slot with Some _ => (slot, Some AlreadyExists) | None => (Some f, None) end
  end.

Definition Slot_Find (slot : option F) : option F := slot.

Definition RegisterRdmaTransport (slot factory : option F) : option F * absl_Status := Slot_Set slot factory.
Definition GetRegisteredRdmaTransport (slot : option F) : option F := Slot_Find slot.

(** [CHECK_OK] ends the process. *)
Definition RegisterRdmaTransportStatically (slot factory : option F) : res (option F * bool) :=
  let '(slot, s) := Slot_Set slot factory in
  match s with None => Ok (slot, true) | Some _ => Fault CheckFailed end.

(** The registrations of a process, in the order in which they take the lock, with their
    answers. *)
Fixpoint register_all (slot : option F) (fs : list (option F)) : option F * list absl_Status :=
  match fs with
  | [] => (slot, [])
  | f :: fs =>
      let '(slot, s) := RegisterRdmaTransport slot f in
      let '(slot, ss) := register_all slot fs in (slot, s :: ss)
  end.
End Slot.

(** * Creation *)

Section Create.
Context {K V R F E : Type} `{Kernel K} `{EventKernel K} `{PeerNames K} `{RdmaLib V} `{Verbs V} `{Random R} `{T : NetText}.
Context (call : F → str → TransportOptions → E).

(** [min(max(1, n), 100)]. *)
Definition clamp_conns (n : Z) : Z := Z.min (Z.max 1 n) 100.

Definition transport_config (options : TransportOptions) : Config :=
  mkConfig (op_transport_type options) (clamp_conns (num_parallel_connections options)) false.
(** gRPC's insecure credentials are not null. *)
Definition insecure_creds : SecurityCredentials := mkCreds true true.

(** [inl] is the answer of the registered factory, [inr] that of the built-in transport. *)
Definition CreateTransport (slot : option F) (endpoint : str) (options : TransportOptions) (fuel : nat) (bound : option Z)
    (acts : list (act (K := K))) (k : K) (routable : list (str * (NicType * list IpAddr))) (v : V) (g bitgen : R)
    : E + res (K * option V * option (Control (RdmaHost V R) * Running (K := K))) :=
  let n := clamp_conns (num_parallel_connections options) in
  match (if bool_decide (op_transport_type options = kRdma) then GetRegisteredRdmaTransport slot else None) with
  | Some f => inl (call f endpoint (with_parallel options n))
  | None =>
      inr (TransportImpl_Create fuel (transport_config options) (Endpoint_Create endpoint) insecure_creds
        (recv_post_callback options) (resolve_addr_callback options) bound acts k routable v g bitgen)
  end.
End Create.

(** * Lemmas *)

(** Once a factory is registered, the slot keeps it and further registrations are refused. *)
Lemma register_all_kept {F} (f : F) fs :
  register_all (Some f) fs = (Some f, (λ g, Some (if g is Some _ then AlreadyExists else InvalidArgument)) <$> fs).
Proof. induction fs as [|[g|] fs IH]; cbn; [done|by rewrite IH..]. Qed.

(** The first factory that is not null is registered; null ones are refused and change nothing. *)
Lemma register_all_first {F} n (f : F) fs :
  register_all None (replicate n None ++ Some f :: fs) =
    (Some f, replicate n (Some InvalidArgument) ++ None :: ((λ g, Some (if g is Some _ then AlreadyExists else InvalidArgument)) <$> fs)).
Proof. induction n as [|n IH]; cbn; [by rewrite register_all_kept|by rewrite IH]. Qed.

Lemma clamp_range n : 1 ≤ clamp_conns n ≤ 100.
Proof. unfold clamp_conns. lia. Qed.
Lemma clamp_id n : 1 ≤ n ≤ 100 → clamp_conns n = n.
Proof. unfold clamp_conns. lia. Qed.

(** The configuration is valid for any options. *)
Lemma transport_config_valid o : Config_IsValid (transport_config o) = true.
Proof.
  unfold Config_IsValid. cbn. pose proof (clamp_range (num_parallel_connections o)).
  rewrite !andb_true_iff, !Z.leb_le. split_and!; [by destruct (op_transport_type o)|lia..].
Qed.

Section Properties.
Context {K V R F E : Type} `{L : FdLaws K} `{PN : PeerNames K} `{RL : RdmaLaws V} `{G : Random R} `{T : NetText}.
Context (call : F → str → TransportOptions → E).

(** [CreateTransport] with a registry in any state that registrations can leave it in: only
    RDMA uses the first factory registered, with the number of connections in range; every
    other type, and RDMA without a registration, gets the built-in transport, which is null for
    an endpoint that is not an address and a port, and for the zero address. *)
Lemma CreateTransport_dispatch fs endpoint options fuel bound acts (k : K) routable (v : V) (g bitgen : R) :
  let run := CreateTransport call (register_all None fs).1 endpoint options fuel bound acts k routable v g bitgen in
  match run with
  | inl e => op_transport_type options = kRdma ∧ ∃ n f rest, fs = replicate n None ++ Some f :: rest ∧
      e = call f endpoint (with_parallel options (clamp_conns (num_parallel_connections options)))
  | inr r => (op_transport_type options = kRdma → Forall (λ f, f = None) fs) ∧
      (HasZeroIpAddr (Endpoint_Create endpoint) = true → r = Ok (k, Some v, None))
  end.
Proof.
  cbn zeta. unfold CreateTransport.
  assert (∀ ty, match (if bool_decide (ty = kRdma) then GetRegisteredRdmaTransport (register_all None fs).1 else None) with
    | Some f => ty = kRdma ∧ ∃ n rest, fs = replicate n None ++ Some f :: rest
    | None => ty = kRdma → Forall (λ f, f = None) fs end) as Hslot.
  { intros ty. destruct (bool_decide_reflect (ty = kRdma)) as [->|]; [|done].
    induction fs as [|[f|] fs IH]; [by constructor|cbn; rewrite register_all_kept; cbn; split; [done|by exists O, fs]|].
    cbn in *. destruct (register_all None fs) as [[f|] ss]; cbn in *.
    - destruct IH as (_ & n & rest & ->). split; [done|]. by exists (S n), rest.
    - intros _. constructor; [done|]. by apply IH. }
  specialize (Hslot (op_transport_type options)). destruct (if bool_decide _ then _ else _) as [f|].
  - destruct Hslot as (Hty & n & rest & Hfs). split; [done|]. by exists n, f, rest.
  - split; [done|]. intros Hz. unfold TransportImpl_Create. rewrite transport_config_valid. cbn [negb]. by rewrite Hz.
Qed.
End Properties.

(** * Examples *)

Definition cu_options (ty : TransportType) (n : Z) : TransportOptions := mkTransportOptions ty n false None.
(** A factory named by a number answers its name and the number of connections. *)
Definition cu_create (slot : option Z) (ty : TransportType) (n : Z) (endpoint : str) : option (Z * Z) + option (nat * bool) :=
  match CreateTransport (T := HexText.text) (λ f _ o, (f, num_parallel_connections o)) slot endpoint (cu_options ty n) 1 (Some 7000)
      tr_acts (fsim_start 2) (eng_routable 1) (sim_new 0) 1 1 with
  | inl e => inl (Some e)
  | inr (Ok (k, _, o)) => inr (Some (size (tab k), match o with Some _ => true | None => false end))
  | inr (Fault _) => inr None
  end.
Definition cu_endpoint : str := Endpoint_ToString (H := HexText.text) tr_endpoint.
(** A registered factory serves RDMA only, with the number of connections clamped. *)
Example cu_rdma : cu_create (register_all None [None; Some 5; Some 6]).1 kRdma 500 cu_endpoint = inl (Some (5, 100)).
Proof. vm_compute. reflexivity. Qed.
Example cu_tcp : cu_create (Some 5) kTcp 0 cu_endpoint = inr (Some (7%nat, true)).
Proof. vm_compute. reflexivity. Qed.
(** Text that is not an endpoint. *)
Example cu_malformed : cu_create None kTcp 2 [] = inr (Some (3%nat, false)).
Proof. vm_compute. reflexivity. Qed.
