(* ===== verification/PspTcpManager.v ===== *)
(** Encrypted TCP connections, [internal/socket/tcp_psp_manager]: the connecting side takes a
    token of its socket, exchanges it for a token of the peer through the control plane, gives
    that to the socket and connects; the listening side answers with a token of its listener.

    The interface [psp_util.h] is the class [PspUtil]; the open-source implementation,
    [psp/oss/psp_util.cc], which supports nothing, is its instance [oss_psp].  The exchange is a
    function on the rest of the world, as in the code; [Control] provides one. *)

From Stdlib Require Import Ascii.
From stdpp Require Import base tactics numbers gmap fin_maps sets list.
From S2P Require Import Prelude Ownership IpAddr Endpoint Types Socket FdTable FdSim HostInfo TcpManager ControlMessage Control.
Local Open Scope Z_scope.

Class PspUtil (K : Type) := {
  GetInitialRxSpi : K → Z → K * StatusOr Z;
  AcquireRxSpiAndKey : K → Z → K * StatusOr PspToken;
  SetTxSpiAndKey : K → Z → PspToken → K * absl_Status;
  AddSecureListener : K → Z → PspToken → K * StatusOr PspToken;
}.
(** The calls neither open, close nor rename descriptors, and keys are arrays of 16 bytes. *)
Class PspLaws (K : Type) `{FdKernel K} `{PspUtil K} := {
  pl_spi : ∀ (k : K) fd, fdt (GetInitialRxSpi k fd).1 = fdt k;
  pl_acquire : ∀ (k : K) fd, fdt (AcquireRxSpiAndKey k fd).1 = fdt k;
  pl_set : ∀ (k : K) fd t, fdt (SetTxSpiAndKey k fd t).1 = fdt k;
  pl_add : ∀ (k : K) fd t, fdt (AddSecureListener k fd t).1 = fdt k;
  pl_acquire_key : ∀ (k : K) fd t, (AcquireRxSpiAndKey k fd).2 = inl t → length (psp_key t) = kPspKeyLen;
  pl_add_key : ∀ (k : K) fd t t', (AddSecureListener k fd t).2 = inl t' → length (psp_key t') = kPspKeyLen;
}.

(** * The open-source implementation *)

Definition oss_unsupported {K A} (k : K) : K * StatusOr A := (k, inr Unimplemented).
Definition oss_psp (K : Type) : PspUtil K := {|
  GetInitialRxSpi k _ := oss_unsupported k;
  AcquireRxSpiAndKey k _ := oss_unsupported k;
  SetTxSpiAndKey k _ _ := (k, Some Unimplemented);
  AddSecureListener k _ _ := oss_unsupported k;
|}.
Lemma oss_psp_laws {K} `{FdKernel K} : PspLaws K (H2 := oss_psp K).
Proof. by split. Qed.

(** * Operations *)

Section Ops.
Context {K : Type} `{Kernel K} `{EventKernel K} `{PspUtil K}.

Definition token_ok (t : StatusOr PspToken) : bool := match t with inl t => PspToken_IsValid t | inr _ => false end.

Definition Psp_ExchangePspTokens (k : K) (tcp_mgr : TcpManager) (peer_token : PspToken) (self_target : Endpoint)
    : res (K * StatusOr PspToken) :=
  do* dcheck (PspToken_IsValid peer_token);
  do* dcheck (HasNonzeroIpPort self_target);
  let* l := FindListener tcp_mgr self_target in
  match l with
  | None => Ok (k, inr NotFound)
  | Some l =>
      let fd := sk_fd (l_socket l) in
      let '(k, self_token) := AddSecureListener k fd peer_token in
      if negb (token_ok self_token) then Ok (k, inr Internal) else Ok (k, self_token)
  end.

(** [psp_token_xchg], on the state [W] of the other processes. *)
Context {W : Type}.
Definition PspTokenExchange : Type := W → PspToken → Endpoint → Endpoint → res (W * StatusOr PspToken).

Definition ConfigPspToken (k : K) (w : W) (fd : Z) (peer peer_control : Endpoint) (xchg : PspTokenExchange)
    : res (K * W * StatusOr PspToken) :=
  let '(k, self_token) := AcquireRxSpiAndKey k fd in
  match self_token with
  | inr _ => Ok (k, w, inr Internal)
  | inl self_token =>
      if negb (PspToken_IsValid self_token) then Ok (k, w, inr Internal)
      else
        let* '(w, peer_token) := xchg w self_token peer peer_control in
        match peer_token with
        | inr _ => Ok (k, w, inr Internal)
        | inl peer_token =>
            let '(k, status) := SetTxSpiAndKey k fd peer_token in
            match status with
            | Some _ => Ok (k, w, inr Internal)
            | None => Ok (k, w, inl self_token)
            end
        end
  end.

Definition CheckPspToken (k : K) (fd : Z) (self_token : PspToken) : K * bool :=
  let '(k, spi) := GetInitialRxSpi k fd in
  (k, match spi with inl spi => spi =? psp_spi self_token | inr _ => false end).

(** Returning [nullptr] with the socket in a local variable. *)
Definition drop_socket (k : K) (w : W) (socket : SocketBase) : res (K * W * option SocketBase) :=
  let* '(k, s) := fail_null k socket in Ok (k, w, s).

(** [TcpSocket::Create] and [Bind] are those of [TcpManager::Connect]. *)
Definition ConnectPsp (k : K) (w : W) (self peer peer_control : Endpoint) (xchg : PspTokenExchange) (timeout_ms : Z)
    : res (K * W * option SocketBase) :=
  do* dcheck (HasNonzeroIpPort peer);
  do* dcheck (HasNonzeroIpPort peer_control);
  let blocking := timeout_ms <=? 0 in
  let* '(k, socket) := open_socket k self peer blocking in
  match socket with
  | None => Ok (k, w, None)
  | Some socket =>
      let fd := sk_fd socket in
      let* '(k, w, self_token) := ConfigPspToken k w fd peer peer_control xchg in
      match self_token with
      | inr _ => drop_socket k w socket
      | inl self_token =>
          if negb (PspToken_IsValid self_token) then drop_socket k w socket
          else
            let* '(k, socket) := connectSync k socket peer timeout_ms in
            match socket with
            | None => Ok (k, w, None)
            | Some socket =>
                let '(k, ok) := CheckPspToken k fd self_token in
                if negb ok then drop_socket k w socket
                else do* dcheck (sk_connected socket); Ok (k, w, Some socket)
            end
      end
  end.
End Ops.
Arguments PspTokenExchange : clear implicits.

(** * Properties of one side *)

Section Proofs.
Context {K : Type} `{FdLaws K} `{P : PspUtil K} `{!PspLaws K}.

(** What stands behind a connection of descriptor [fd]: the socket's own token [t1] was
    exchanged for the peer's token [t2], which the socket sends with, and it receives with [t1]. *)
Definition secured {W} (xchg : PspTokenExchange W) (w : W) (fd : Z) (peer peer_control : Endpoint) (w' : W) (t1 t2 : PspToken) : Prop :=
  PspToken_IsValid t1 = true ∧ length (psp_key t1) = kPspKeyLen ∧ xchg w t1 peer peer_control = Ok (w', inl t2) ∧
  (∃ k, (AcquireRxSpiAndKey k fd).2 = inl t1 ∧ (SetTxSpiAndKey (AcquireRxSpiAndKey k fd).1 fd t2).2 = None) ∧
  (∃ k, (GetInitialRxSpi k fd).2 = inl (psp_spi t1)).

Lemma drop_socket_ok {W} k X s cs (w : W) : holds (fdt k) X (sock ∅ s :: cs) →
  ∃ k', drop_socket k w s = Ok (k', w, None) ∧ holds (fdt k') X cs.
Proof. intros (k' & E & Hh)%fail_null_ok. unfold drop_socket. rewrite E, bind_Ok. by exists k'. Qed.

Lemma ConfigPspToken_ok {W} k (w : W) fd peer peer_control xchg :
  (∀ t, PspToken_IsValid t = true → ∃ w' r, xchg w t peer peer_control = Ok (w', r)) →
  ∃ k' w' r, ConfigPspToken k w fd peer peer_control xchg = Ok (k', w', r) ∧ fdt k' = fdt k ∧
    match r with
    | inr _ => True
    | inl t1 => PspToken_IsValid t1 = true ∧ length (psp_key t1) = kPspKeyLen ∧ (AcquireRxSpiAndKey k fd).2 = inl t1 ∧
        ∃ t2, xchg w t1 peer peer_control = Ok (w', inl t2) ∧ (SetTxSpiAndKey (AcquireRxSpiAndKey k fd).1 fd t2).2 = None
    end.
Proof.
  intros Hx. unfold ConfigPspToken. pose proof (pl_acquire k fd) as Hk. pose proof (pl_acquire_key k fd) as Hl.
  destruct (AcquireRxSpiAndKey k fd) as [k1 [t1|e]]; cbn [fst snd] in *; [|by eexists k1, w, _].
  destruct (PspToken_IsValid t1) eqn:Hv; cbn [negb]; [|by eexists k1, w, _].
  destruct (Hx t1 Hv) as (w1 & [t2|e] & E); rewrite E, bind_Ok; [|by eexists k1, w1, _].
  pose proof (pl_set k1 fd t2) as Hs. destruct (SetTxSpiAndKey k1 fd t2) as [k2 [e|]] eqn:Es; cbn [fst] in Hs; eexists k2, w1, _.
  - split; [done|]. by rewrite Hs.
  - split; [done|]. split; [by rewrite Hs|]. split; [done|]. split; [by apply Hl|]. split; [done|]. exists t2. by rewrite Es.
Qed.

Lemma ConnectPsp_ok {W} k X cs (w : W) self peer peer_control xchg timeout_ms : holds (fdt k) X cs →
  HasNonzeroIpPort peer = true → HasNonzeroIpPort peer_control = true →
  (∀ t, PspToken_IsValid t = true → ∃ w' r, xchg w t peer peer_control = Ok (w', r)) →
  ∃ k' w' o, ConnectPsp k w self peer peer_control xchg timeout_ms = Ok (k', w', o) ∧
    returns k' X cs (λ s, sk_blocking s = true ∧ sk_connected s = true ∧ ∃ t1 t2, secured xchg w (sk_fd s) peer peer_control w' t1 t2) o.
Proof.
  intros Hh Hp Hpc Hx. unfold ConnectPsp. rewrite !bind_dcheck by done.
  destruct (open_socket_ok k X cs self peer (timeout_ms <=? 0) Hh) as (k1 & [s|] & -> & Hs); rewrite bind_Ok; [|by exists k1, w, None].
  destruct Hs as [[Hb Hc] Hh1].
  destruct (ConfigPspToken_ok k1 w (sk_fd s) peer peer_control xchg Hx) as (k2 & w2 & r & -> & Hk2 & Hr). rewrite bind_Ok.
  rewrite <- Hk2 in Hh1. destruct r as [t1|e]; [|destruct (drop_socket_ok k2 X s cs w2 Hh1) as (k3 & -> & Hh3); by exists k3, w2, None].
  destruct Hr as (Hv & Hl & Ha & t2 & Ex & Es). rewrite Hv. cbn [negb].
  destruct (connectSync_ok k2 X s cs peer timeout_ms Hh1 Hc Hp Hb) as (k3 & [s3|] & -> & Ho); rewrite bind_Ok; [|by exists k3, w2, None].
  destruct Ho as [(Hb3 & Hc3 & Hf3) Hh3]. unfold CheckPspToken. pose proof (pl_spi k3 (sk_fd s)) as Hk4.
  destruct (GetInitialRxSpi k3 (sk_fd s)) as [k4 spi] eqn:Eg. cbn [fst] in Hk4. rewrite <- Hk4 in Hh3.
  destruct (match spi with inl spi => spi =? psp_spi t1 | inr _ => false end) eqn:Ei; cbn [negb].
  2:{ destruct (drop_socket_ok k4 X s3 cs w2 Hh3) as (k5 & -> & Hh5). by exists k5, w2, None. }
  rewrite bind_dcheck by done. eexists k4, w2, (Some s3). split; [done|]. split; [|done]. split; [done|]. split; [done|]. exists t1, t2.
  rewrite Hf3. split; [done|]. split; [done|]. split; [done|]. split; [by exists k1|]. exists k3. rewrite Eg. cbn.
  destruct spi as [spi|]; [|done]. by apply Z.eqb_eq in Ei as ->.
Qed.

(** The listening side: a token is that of the listener at the target. *)
Lemma Psp_ExchangePspTokens_ok k m tok target : PspToken_IsValid tok = true → HasNonzeroIpPort target = true →
  ∃ k' r, Psp_ExchangePspTokens k m tok target = Ok (k', r) ∧ fdt k' = fdt k ∧
    match r with
    | inl t => ∃ l, l ∈ vals (tm_listeners m) ∧ Endpoint_eqb (l_endpoint l) target = true ∧
        (AddSecureListener k (sk_fd (l_socket l)) tok).2 = inl t ∧ PspToken_IsValid t = true
    | inr e => e = NotFound ∧ Forall (λ l, Endpoint_eqb (l_endpoint l) target = false) (vals (tm_listeners m)) ∨ e = Internal
    end.
Proof.
  intros Hv Hn. unfold Psp_ExchangePspTokens, FindListener, Listeners_Find. rewrite !bind_dcheck by done. rewrite bind_Ok.
  destruct (list_find _ _) as [[i l]|] eqn:Ef; cbn [fmap option_fmap option_map snd].
  - apply list_find_Some in Ef as (Hl & He & _). pose proof (pl_add k (sk_fd (l_socket l)) tok) as Hk.
    destruct (AddSecureListener k (sk_fd (l_socket l)) tok) as [k1 r] eqn:Ea. cbn [fst] in Hk.
    destruct (token_ok r) eqn:Ht; cbn [negb]; eexists k1, _; (split; [done|]); (split; [done|]); [|by right].
    destruct r as [t|]; [|done]. exists l. split; [by eapply list_elem_of_lookup_2|]. by rewrite Ea.
  - exists k, (inr NotFound). split; [done|]. split; [done|]. left. split; [done|]. apply list_find_None in Ef.
    eapply Forall_impl; [exact Ef|]. cbn. intros l Hl. by destruct (Endpoint_eqb _ _).
Qed.
End Proofs.

(** * Both sides *)

(** The handler of a process with manager [m], in the state [k] of its system. *)
Definition psp_handler {K} `{PspUtil K} (k : K) (m : TcpManager) : PspTcpHandler :=
  λ tok target, match Psp_ExchangePspTokens k m tok target with Ok (_, r) => r | Fault _ => inr Internal end.

Section Both.
Context {Obj : Type} {OI : ObjInv Obj} `{T : NetText} `{!NetTextLaws T}.
Context {K : Type} `{FdLaws K} `{P : PspUtil K} `{!PspLaws K}.

(** An exchange that succeeds, over whatever link, is the answer of the peer's handler. *)
Lemma psp_exchange_answer link (w : gmap Endpoint (Control Obj)) a peer tok target ca cb w' t : coherent w → w !! a = Some ca → w !! peer = Some cb →
  endpoint_wf target → length (psp_key tok) = kPspKeyLen → handler_ok cb →
  ExchangePspTokens link w a tok target peer = Ok (w', inl t) → psp_answer cb tok target = inl t.
Proof.
  intros Hw Ha Hb Hwf Hk Hh E. pose proof E as E0. unfold ExchangePspTokens in E.
  destruct (HasNonzeroIpPort peer) eqn:Hp; [|done]. destruct (HasNonzeroIpPort target) eqn:Hn; [|done].
  destruct (PspToken_IsValid tok) eqn:Hv; [|done]. cbn [negb] in E. destruct (decide (link = Delivered)) as [->|Hne].
  - destruct (psp_exchange_ok w a peer tok target ca cb Hw Ha Hb Hp Hn Hwf Hv Hk Hh) as (w1 & E1). congruence.
  - destruct (Serialize_PspTcpReq _ _ _) as [req ok]. destruct (negb ok); [done|].
    destruct (sendRequest_ok link w a peer _ ca Hw Ha (psp_req_ok w req)) as (w1 & r & E1 & _ & _ & Hc). rewrite E1, bind_Ok in E.
    unfold call_spec in Hc. destruct (with_client_lookup w a peer ca cb Ha Hb) as (cb1 & Hb1 & _). rewrite Hb1 in Hc.
    destruct Hc as (cb' & resp & s & _ & Hc). destruct link; [..|done]; by destruct Hc as [_ ->].
Qed.

Lemma psp_handler_ok (k : K) m (cb : Control Obj) : co_psp_handler cb = Some (psp_handler k m) → handler_ok cb.
Proof.
  intros Hf f t e t'. rewrite Hf. intros [= <-]. unfold psp_handler.
  destruct (Psp_ExchangePspTokens k m t e) as [[k1 r]|] eqn:E; [|done]. intros ->. unfold Psp_ExchangePspTokens in E.
  apply bind_Ok_inv in E as ([] & _ & E). apply bind_Ok_inv in E as ([] & _ & E). apply bind_Ok_inv in E as (l & _ & E).
  destruct l as [l|]; [|done]. pose proof (pl_add_key k (sk_fd (l_socket l)) t) as Hk.
  destruct (AddSecureListener k _ t) as [k2 r]. cbn [snd] in Hk. destruct (negb (token_ok r)); [done|]. injection E as _ ->. by apply Hk.
Qed.

End Both.

(** * Examples *)

(** The open-source build never connects and never answers with a token. *)
Lemma oss_never_connects {K W} `{FdLaws K} (k : K) (w : W) self peer peer_control xchg timeout_ms :
  HasNonzeroIpPort peer = true → HasNonzeroIpPort peer_control = true →
  ∃ k', ConnectPsp (H1 := oss_psp K) k w self peer peer_control xchg timeout_ms = Ok (k', w, None) ∧ fdt k' = fdt k.
Proof.
  intros Hp Hpc. unfold ConnectPsp. rewrite !bind_dcheck by done.
  destruct (open_socket_ok k (fdt k) [] self peer (timeout_ms <=? 0)) as (k1 & [s|] & -> & Hs); [by apply holds_nil|..]; rewrite bind_Ok.
  - destruct Hs as [_ Hh]. destruct (drop_socket_ok k1 (fdt k) s [] w Hh) as (k2 & E & Hh2).
    cbn [ConfigPspToken oss_psp AcquireRxSpiAndKey oss_unsupported]. rewrite bind_Ok, E. exists k2. split; [done|]. by apply holds_nil.
  - exists k1. split; [done|]. by apply holds_nil.
Qed.

(** A system whose tokens name the descriptor. *)
Definition sim_token (fd : Z) : PspToken := mkPspToken (fd + 1) 1 (replicate kPspKeyLen fd).
#[export] Instance fsim_psp : PspUtil fsim := {|
  GetInitialRxSpi k fd := (k, inl (fd + 1));
  AcquireRxSpiAndKey k fd := (k, inl (sim_token fd));
  SetTxSpiAndKey k _ _ := (k, None);
  AddSecureListener k fd _ := (k, inl (sim_token fd));
|}.
#[export] Instance fsim_psp_laws : PspLaws fsim.
Proof. split; try done; [by intros k fd t [= <-]|by intros k fd t t' [= <-]]. Qed.

(** The second process listens at [psp_peer] on descriptor 4. *)
Definition psp_peer : Endpoint := mkEndpoint (IPv4 [10; 0; 0; 2]) 43522.
Definition psp_manager : TcpManager :=
  mkTcpManager host_b false 3 {[4 := mkListener (mkSocketBase 4 AF_INET true false) psp_peer]} (mkConnectors false ∅) (mkProduced false []) (mkProduced false []).
Definition world_psp : gmap Endpoint (Control unit) :=
  <[ep_b := SetPspTcpHandler (started host_b) (psp_handler (fsim_start 0) psp_manager)]> world_two.
Lemma world_psp_reach : @world_reach _ _ HexText.text world_psp.
Proof. unfold world_psp, world_two. rewrite insert_insert_eq. apply wr_psp_handler; [apply joined_two_reach|by rewrite lookup_insert_eq]. Qed.
Definition psp_connect (link : Link) : res (fsim * gmap Endpoint (Control unit) * option SocketBase) :=
  ConnectPsp (fsim_start 0) world_psp Endpoint_default psp_peer ep_b (λ w tok target control, @ExchangePspTokens _ HexText.text link w ep_a tok target control) 100.
(** A delivered exchange gives a connection, a lost one none. *)
Example psp_connected : (λ r, match r with Ok (k, _, o) => Some (sk_fd <$> o, dom (tab k) ∖ dom std_tab) | Fault _ => None end) (psp_connect Delivered) = Some (Some 3, {[3]}).
Proof. vm_compute. reflexivity. Qed.
Example psp_not_connected : (λ r, match r with Ok (k, _, o) => Some (sk_fd <$> o, dom (tab k) ∖ dom std_tab) | Fault _ => None end) (psp_connect (ReplyLost Unavailable)) = Some (None, ∅).
Proof. vm_compute. reflexivity. Qed.

