(* ===== verification/TcpSocketUtil.v ===== *)
(** Exact transfers on blocking sockets with a deadline: [internal/socket/tcp_socket_util.cc]
    and the functions of [api/v1/socket_util.h] that check their arguments first.

    The system calls with their flags are the parameter [IoKernel].  Times are nanoseconds of
    the monotonic clock. *)

From stdpp Require Import base tactics numbers gmap fin_maps sets list list_numbers.
From S2P Require Import Prelude Codec Types IoVecCursor Channel Transfer Socket.
Local Open Scope Z_scope.

Definition POLLIN : Z := 1.
Definition POLLOUT : Z := 4.
Definition kMs : Z := 1000000.
Definition kMaxInt : Z := 2 ^ 31 - 1.

Class IoKernel (K : Type) := {
  io_valid : K → Z → bool;                       (* IsValidSocket *)
  io_blocking : K → Z → bool;                    (* IsBlockingMode *)
  io_now : K → Z;                                (* MonotonicNow *)
  io_sendmsg : K → Z → bytes → bool → K * Z * Z;            (* the flag is MSG_DONTWAIT *)
  io_recvmsg : K → Z → Z → bool → K * Z * Z * bytes;        (* total size of the buffers; the bytes stored *)
  io_poll : K → Z → Z → Z → K * Z * Z;                      (* one descriptor: events, timeout in ms *)
}.

(** The bytes of buffers, and storing bytes at their front. *)
Definition gather_span (m : mem) (vs : list IoVec) : bytes := (λ a, default 0 (m !! a)) <$> span_addrs vs.
Definition scatter_span (m : mem) (vs : list IoVec) (data : bytes) : mem :=
  foldl (λ m ab, <[ab.1 := ab.2]> m) m (zip (span_addrs vs) data).

(** The vectors from index [i] on, after [b] bytes: the inner loop and the adjustment that
    follows it. *)
Fixpoint advance_vecs (vs : list IoVec) (b : Z) : list IoVec :=
  match vs with
  | [] => []
  | v :: rest =>
      if iov_len v <=? b then advance_vecs rest (b - iov_len v)
      else (if 0 <? b then mkIoVec (iov_base v + b) (iov_len v - b) else v) :: rest
  end.

Section Ops.
Context {K : Type} `{IoKernel K}.

(** [None] is the infinite duration. *)
Definition GetDeadline (k : K) (timeout_ms : Z) : option Z :=
  if 0 <=? timeout_ms then Some (io_now k + timeout_ms * kMs) else None.

Fixpoint Wait_loop (fuel : nat) (k : K) (fd event deadline : Z) : res (K * bool) :=
  match fuel with
  | O => Fault Blocked
  | S fuel =>
      let ms := Z.quot (deadline - io_now k) kMs in
      if ms <=? 0 then Ok (k, false)
      else
        let '(k, ret, err) := io_poll k fd event (Z.min ms kMaxInt) in
        if (ret <? 0) && Interrupted err then Wait_loop fuel k fd event deadline
        else Ok (k, 0 <? ret)
  end.
Definition Wait (fuel : nat) (k : K) (fd event : Z) (deadline : option Z) : res (K * bool) :=
  do* dcheck ((event =? POLLIN) || (event =? POLLOUT));
  match deadline with
  | None => Fault DCheckFailed
  | Some deadline => Wait_loop fuel k fd event deadline
  end.

(** [vecs] are the vectors from index [i] on. *)
Fixpoint send_loop (fuel : nat) (k : K) (fd : Z) (m : mem) (vecs : list IoVec) (len sent : Z) (deadline : option Z) (dontwait : bool)
    : res (K * absl_Status) :=
  match fuel with
  | O => Fault Blocked
  | S fuel =>
      if bool_decide (vecs = []) then do* dcheck (sent =? len); Ok (k, None)
      else
        let '(k, bytes, err) := io_sendmsg k fd (gather_span m vecs) dontwait in
        if 0 <? bytes then
          let sent := u64 (sent + bytes) in
          if len <=? sent then do* dcheck (sent =? len); Ok (k, None)
          else
            let vecs := advance_vecs vecs bytes in
            if bool_decide (vecs = []) then do* dcheck (sent =? len); Ok (k, None)
            else send_loop fuel k fd m vecs len sent deadline dontwait
        else if bytes <? 0 then
          if Interrupted err then send_loop fuel k fd m vecs len sent deadline dontwait
          else if WouldBlock err then
            if dontwait then
              let* '(k, ready) := Wait fuel k fd POLLOUT deadline in
              if ready : bool then send_loop fuel k fd m vecs len sent deadline dontwait else Ok (k, Some Internal)
            else Ok (k, Some Internal)
          else Ok (k, Some Internal)
        else do* dcheck (bytes =? 0); Ok (k, Some Internal)
  end.
Definition transfer_checks (k : K) (fd : Z) (iovecs : list IoVec) : res unit :=
  do* dcheck (io_valid k fd);
  do* dcheck (io_blocking k fd);
  do* dcheck (IoVecs_IsValid iovecs);
  do* dcheck (Z.of_nat (length iovecs) <=? IOV_MAX);
  do* dcheck (1 <=? TotalLength iovecs);
  dcheck (TotalLength iovecs <=? 2 ^ 63 - 1).
Definition Util_Send (fuel : nat) (k : K) (fd : Z) (m : mem) (iovecs : list IoVec) (timeout_ms : Z) : res (K * absl_Status) :=
  do* transfer_checks k fd iovecs;
  send_loop fuel k fd m iovecs (TotalLength iovecs) 0 (GetDeadline k timeout_ms) (0 <=? timeout_ms).

Fixpoint recv_loop (fuel : nat) (k : K) (fd : Z) (m : mem) (vecs : list IoVec) (len rcvd : Z) (deadline : option Z) (dontwait : bool)
    : res (K * mem * absl_Status) :=
  match fuel with
  | O => Fault Blocked
  | S fuel =>
      if bool_decide (vecs = []) then do* dcheck (rcvd =? len); Ok (k, m, None)
      else
        let '(k, bytes, err, data) := io_recvmsg k fd (iov_sum vecs) dontwait in
        let m := scatter_span m vecs data in
        if 0 <? bytes then
          let rcvd := u64 (rcvd + bytes) in
          if len <=? rcvd then do* dcheck (rcvd =? len); Ok (k, m, None)
          else
            let vecs := advance_vecs vecs bytes in
            if bool_decide (vecs = []) then do* dcheck (rcvd =? len); Ok (k, m, None)
            else recv_loop fuel k fd m vecs len rcvd deadline dontwait
        else if bytes =? 0 then Ok (k, m, Some Internal)
        else if Interrupted err then recv_loop fuel k fd m vecs len rcvd deadline dontwait
        else if WouldBlock err then
          if dontwait then
            let* '(k, ready) := Wait fuel k fd POLLIN deadline in
            if ready : bool then recv_loop fuel k fd m vecs len rcvd deadline dontwait else Ok (k, m, Some Internal)
          else Ok (k, m, Some Internal)
        else Ok (k, m, Some Internal)
  end.
Definition Util_Recv (fuel : nat) (k : K) (fd : Z) (m : mem) (iovecs : list IoVec) (timeout_ms : Z) : res (K * mem * absl_Status) :=
  do* transfer_checks k fd iovecs;
  recv_loop fuel k fd m iovecs (TotalLength iovecs) 0 (GetDeadline k timeout_ms) (0 <=? timeout_ms).

(** * [api/v1/socket_util.h] *)

Definition WriteVExact (fuel : nat) (k : K) (fd : Z) (m : mem) (iovs : list IoVec) (timeout_ms : Z) : res (K * absl_Status) :=
  if TotalLength iovs =? 0 then Ok (k, None)
  else
    do* dcheck (io_valid k fd);
    do* dcheck (io_blocking k fd);
    do* dcheck (IoVecs_IsValid iovs);
    let n := Z.of_nat (length iovs) in
    if (1 <=? n) && (n <=? IOV_MAX) then Util_Send fuel k fd m iovs timeout_ms else Ok (k, Some InvalidArgument).
Definition WriteExact (fuel : nat) (k : K) (fd : Z) (m : mem) (buf len timeout_ms : Z) : res (K * absl_Status) :=
  WriteVExact fuel k fd m [mkIoVec buf len] timeout_ms.
Definition ReadVExact (fuel : nat) (k : K) (fd : Z) (m : mem) (iovs : list IoVec) (timeout_ms : Z) : res (K * mem * absl_Status) :=
  if TotalLength iovs =? 0 then Ok (k, m, None)
  else
    do* dcheck (io_valid k fd);
    do* dcheck (io_blocking k fd);
    do* dcheck (IoVecs_IsValid iovs);
    let n := Z.of_nat (length iovs) in
    if (1 <=? n) && (n <=? IOV_MAX) then Util_Recv fuel k fd m iovs timeout_ms else Ok (k, m, Some InvalidArgument).
Definition ReadExact (fuel : nat) (k : K) (fd : Z) (m : mem) (buf len timeout_ms : Z) : res (K * mem * absl_Status) :=
  ReadVExact fuel k fd m [mkIoVec buf len] timeout_ms.
End Ops.

(** * Laws *)

(** The bytes a socket has accepted and those that are there to receive.  Interruptions,
    calls that would block and early wake-ups end: [io_patience] bounds how many come in a
    row.  A poll that returns zero has waited. *)
Class IoLaws (K : Type) `{IoKernel K} := {
  io_out : K → Z → bytes;
  io_in : K → Z → bytes;
  io_patience : K → nat;
  io_signals : nat;
  il_patience : ∀ k, (io_patience k ≤ io_signals)%nat;
  il_send : ∀ k fd data dontwait k' n err, data ≠ [] → io_sendmsg k fd data dontwait = (k', n, err) →
    n ≤ Z.of_nat (length data) ∧ io_out k' fd = io_out k fd ++ take (Z.to_nat n) data ∧ io_in k' fd = io_in k fd ∧ io_now k ≤ io_now k' ∧
    (n < 0 → Interrupted err || WouldBlock err = true → (io_patience k' < io_patience k)%nat);
  il_recv : ∀ k fd cap dontwait k' n err data, 0 < cap → io_recvmsg k fd cap dontwait = (k', n, err, data) →
    n ≤ cap ∧ length data = Z.to_nat n ∧ io_in k fd = data ++ io_in k' fd ∧ io_out k' fd = io_out k fd ∧ io_now k ≤ io_now k' ∧
    (n < 0 → Interrupted err || WouldBlock err = true → (io_patience k' < io_patience k)%nat);
  il_poll : ∀ k fd event ms k' n err, io_poll k fd event ms = (k', n, err) →
    io_out k' fd = io_out k fd ∧ io_in k' fd = io_in k fd ∧ io_now k ≤ io_now k' ∧ (io_patience k' ≤ io_patience k)%nat ∧
    (n < 0 → Interrupted err = true → (io_patience k' < io_patience k)%nat) ∧ (n = 0 → io_now k + ms * kMs ≤ io_now k');
}.

(** * Advancing *)

(** The loop agrees with that of [IoVecCursor::Advance]. *)
Lemma advance_vecs_cursor vs b : 0 ≤ b → advance_vecs vs b = let '(n, items) := Advance_loop vs b in drop n items.
Proof.
  revert b. induction vs as [|v vs IH]; intros b Hb; [done|]. cbn [advance_vecs Advance_loop].
  destruct (Z.leb_spec (iov_len v) b) as [Hle|Hlt].
  - rewrite (proj2 (Z.ltb_ge b (iov_len v))) by lia. rewrite IH by lia. by destruct (Advance_loop vs (b - iov_len v)).
  - rewrite (proj2 (Z.ltb_lt b (iov_len v))) by lia. cbn [drop]. destruct (Z.ltb_spec 0 b); [done|]. replace b with 0 by lia.
    rewrite Z.add_0_r, Z.sub_0_r. by destruct v.
Qed.
Lemma advance_vecs_ok vs b : Forall iov_ok vs → 0 ≤ b < iov_sum vs →
  Forall iov_ok (advance_vecs vs b) ∧ advance_vecs vs b ≠ [] ∧ iov_sum (advance_vecs vs b) = iov_sum vs - b ∧
  span_addrs (advance_vecs vs b) = drop (Z.to_nat b) (span_addrs vs).
Proof.
  intros Hf Hb. rewrite advance_vecs_cursor by lia. pose proof (Advance_loop_spec vs b Hf Hb) as Hs.
  destruct (Advance_loop vs b) as [n items]. destruct Hs as (Hn & Hl & Hok & Hsum & Hsp).
  split; [by apply Forall_drop|]. split; [|done]. intros E. apply (f_equal length) in E. rewrite length_drop in E. cbn in E. lia.
Qed.

Section Lemmas.
Context {K : Type} `{L : IoLaws K}.
Implicit Types (k : K) (m : mem) (vecs : list IoVec).

(** Waiting ends.  It is given up when less than a millisecond is left, when the poll fails,
    or after the longest time that a poll can wait. *)
Lemma Wait_loop_ok fd event deadline : ∀ fuel k, (io_patience k < fuel)%nat →
  ∃ k' b, Wait_loop fuel k fd event deadline = Ok (k', b) ∧ io_out k' fd = io_out k fd ∧ io_in k' fd = io_in k fd ∧
    (io_patience k' ≤ io_patience k)%nat ∧ io_now k ≤ io_now k' ∧
    (b = false → deadline - io_now k' < kMs ∨ io_now k + kMaxInt * kMs ≤ io_now k' ∨
       ∃ k1 ms n err, io_poll k1 fd event ms = (k', n, err) ∧ n < 0).
Proof.
  induction fuel as [|fuel IH]; intros k Hfuel; [lia|]. cbn [Wait_loop].
  destruct (Z.leb_spec (Z.quot (deadline - io_now k) kMs) 0) as [Hms|Hms].
  { exists k, false. split; [done|]. do 4 (split; [done|]). intros _. left.
    destruct (Z.lt_ge_cases (deadline - io_now k) kMs) as [?|Hge]; [done|]. assert (0 < kMs) as Hk by done.
    pose proof (Z.quot_str_pos _ _ (conj Hk Hge)). lia. }
  destruct (io_poll k fd event (Z.min _ kMaxInt)) as [[k1 n] err] eqn:E.
  destruct (il_poll _ _ _ _ _ _ _ E) as (Ho & Hi & Hnow & Hp & Hint & Hz).
  destruct ((n <? 0) && Interrupted err) eqn:Eint.
  - apply andb_prop in Eint as [Hn%Z.ltb_lt He]. specialize (Hint Hn He).
    destruct (IH k1 ltac:(lia)) as (k' & b & -> & Ho' & Hi' & Hp' & Hnow' & Hb). exists k', b. split; [done|].
    split; [congruence|]. split; [congruence|]. split; [lia|]. split; [lia|]. intros Hbf. destruct (Hb Hbf) as [?|[?|?]]; [by left|right; left; lia|by right; right].
  - exists k1, (0 <? n). split; [done|]. do 4 (split; [done|]). intros Hn%Z.ltb_ge. destruct (decide (n = 0)) as [->|Hne].
    + specialize (Hz eq_refl). destruct (Z.min_spec (Z.quot (deadline - io_now k) kMs) kMaxInt) as [[_ Em]|[_ Em]]; rewrite Em in Hz.
      * left. pose proof (Z.quot_rem' (deadline - io_now k) kMs). pose proof (Z.rem_bound_pos (deadline - io_now k) kMs). unfold kMs in *. lia.
      * right. by left.
    + right. right. exists k, (Z.min (Z.quot (deadline - io_now k) kMs) kMaxInt), n, err. split; [done|lia].
Qed.

Definition io_effort k vecs : nat := (Z.to_nat (iov_sum vecs) * S (io_signals (K := K)) + io_patience k)%nat.
Lemma effort_moved k k' vecs vecs' n : 0 < n ≤ iov_sum vecs → iov_sum vecs' = iov_sum vecs - n → (io_effort k' vecs' < io_effort k vecs)%nat.
Proof.
  intros Hn Hs. unfold io_effort. pose proof (il_patience k').
  replace (Z.to_nat (iov_sum vecs)) with (Z.to_nat n + Z.to_nat (iov_sum vecs'))%nat by lia. assert (1 ≤ Z.to_nat n)%nat by lia. nia.
Qed.

(** What a loop is given. *)
Record loop_in (fuel : nat) k vecs (len moved : Z) (deadline : option Z) (dontwait : bool) : Prop := {
  li_vecs : Forall iov_ok vecs;
  li_some : vecs ≠ [];
  li_moved : 0 ≤ moved;
  li_len : moved + iov_sum vecs = len;
  li_bound : len < 2 ^ 63;
  li_fuel : (io_effort k vecs < fuel)%nat;
  li_deadline : dontwait = true → is_Some deadline;
}.
Lemma vecs_positive vecs : Forall iov_ok vecs → vecs ≠ [] → 0 < iov_sum vecs.
Proof. intros [|v vs [_ Hv] Hf] Hne; [done|]. pose proof (iov_sum_nonneg _ Hf). cbn. unfold iov_sum in *. lia. Qed.
Lemma loop_again fuel k k' vecs len moved deadline dontwait : loop_in (S fuel) k vecs len moved deadline dontwait →
  (io_patience k' < io_patience k)%nat → loop_in fuel k' vecs len moved deadline dontwait.
Proof. intros [] Hp. split; try done. unfold io_effort in *. lia. Qed.
Lemma loop_advance fuel k k' vecs len moved deadline dontwait n : loop_in (S fuel) k vecs len moved deadline dontwait → 0 < n < iov_sum vecs →
  loop_in fuel k' (advance_vecs vecs n) len (moved + n) deadline dontwait.
Proof.
  intros [Hf _ Hm Hl Hb Hfu Hd] Hn. destruct (advance_vecs_ok vecs n Hf ltac:(lia)) as (Hf' & Hne & Hs & _).
  split; try done; [lia|lia|]. pose proof (effort_moved k k' vecs (advance_vecs vecs n) n ltac:(lia) Hs). lia.
Qed.

(** Waiting inside a loop. *)
Lemma wait_ok fuel k vecs len moved deadline fd event : loop_in fuel k vecs len moved deadline true →
  (event =? POLLIN) || (event =? POLLOUT) = true →
  ∃ k' b, Wait fuel k fd event deadline = Ok (k', b) ∧ io_out k' fd = io_out k fd ∧ io_in k' fd = io_in k fd ∧
    loop_in fuel k' vecs len moved deadline true.
Proof.
  intros Hin He. unfold Wait. rewrite bind_dcheck by done. destruct (li_deadline _ _ _ _ _ _ _ Hin eq_refl) as [d ->].
  pose proof (li_fuel _ _ _ _ _ _ _ Hin) as Hfu. unfold io_effort in Hfu.
  destruct (Wait_loop_ok fd event d fuel k ltac:(lia)) as (k' & b & -> & Ho & Hi & Hp & _). exists k', b. do 3 (split; [done|]).
  destruct Hin. split; try done. unfold io_effort in *. lia.
Qed.

(** ** Sending *)

Lemma gather_span_length m vecs : Forall iov_ok vecs → Z.of_nat (length (gather_span m vecs)) = iov_sum vecs.
Proof. intros Hf. unfold gather_span. rewrite length_fmap. by apply span_addrs_length. Qed.

(** The first [n] bytes are sent; all of them exactly if the result is OK. *)
Definition sent_upto (fd : Z) m k vecs k' (r : absl_Status) (n : Z) : Prop :=
  0 ≤ n ≤ iov_sum vecs ∧ io_out k' fd = io_out k fd ++ take (Z.to_nat n) (gather_span m vecs) ∧ io_in k' fd = io_in k fd ∧
  (r = None ∧ n = iov_sum vecs ∨ r = Some Internal ∧ n < iov_sum vecs).
Lemma sent_none fd m k k' vecs : 0 < iov_sum vecs → io_out k' fd = io_out k fd → io_in k' fd = io_in k fd →
  sent_upto fd m k vecs k' (Some Internal) 0.
Proof. intros Hs Ho Hi. split; [lia|]. rewrite take_0, app_nil_r. split; [done|]. split; [done|]. by right. Qed.
Lemma sent_same fd m k k1 k' vecs r n : io_out k1 fd = io_out k fd → io_in k1 fd = io_in k fd →
  sent_upto fd m k1 vecs k' r n → sent_upto fd m k vecs k' r n.
Proof. intros Ho Hi (Hn & Ho' & Hi' & Hr). split; [done|]. by rewrite Ho', Hi', Ho, Hi. Qed.
Lemma sent_more fd m k k1 k' vecs vecs' r n n' : 0 ≤ n → iov_sum vecs' = iov_sum vecs - n → span_addrs vecs' = drop (Z.to_nat n) (span_addrs vecs) →
  io_out k1 fd = io_out k fd ++ take (Z.to_nat n) (gather_span m vecs) → io_in k1 fd = io_in k fd →
  sent_upto fd m k1 vecs' k' r n' → sent_upto fd m k vecs k' r (n + n').
Proof.
  intros Hn Hs Hsp Ho Hi (Hn' & Ho' & Hi' & Hr). rewrite Hs in Hn', Hr. split; [lia|]. split; [|split; [congruence|]].
  - rewrite Ho', Ho, <- app_assoc. f_equal. unfold gather_span. rewrite Hsp, fmap_drop, Z2Nat.inj_add by lia. apply take_take_drop.
  - destruct Hr as [[-> ->]|[-> ?]]; [left|right]; (split; [done|lia]).
Qed.

Lemma send_loop_ok fd m len deadline dontwait : ∀ fuel k vecs sent, loop_in fuel k vecs len sent deadline dontwait →
  ∃ k' r n, send_loop fuel k fd m vecs len sent deadline dontwait = Ok (k', r) ∧ sent_upto fd m k vecs k' r n.
Proof.
  induction fuel as [|fuel IH]; intros k vecs sent Hin; [by pose proof (li_fuel _ _ _ _ _ _ _ Hin); lia|].
  pose proof Hin as [Hf Hne Hs Hl Hb Hfu Hd]. pose proof (vecs_positive _ Hf Hne) as Hpos. pose proof (gather_span_length m _ Hf) as Hg.
  cbn [send_loop]. rewrite bool_decide_eq_false_2 by done.
  destruct (io_sendmsg k fd (gather_span m vecs) dontwait) as [[k1 n] err] eqn:E.
  destruct (il_send _ _ _ _ _ _ _ ltac:(intros E0; rewrite E0 in Hg; cbn in Hg; lia) E) as (Hle & Ho & Hi & _ & Hp).
  destruct (Z.ltb_spec 0 n) as [Hn|Hn].
  - replace (u64 (sent + n)) with (sent + n) by (symmetry; apply Z.mod_small; lia).
    destruct (Z.leb_spec len (sent + n)) as [Hfin|Hmore].
    { rewrite bind_dcheck by lia. exists k1, None, n. split; [done|]. split; [lia|]. split; [done|]. split; [done|]. left. split; [done|lia]. }
    destruct (advance_vecs_ok vecs n Hf ltac:(lia)) as (_ & Hne' & Hs' & Hsp). rewrite bool_decide_eq_false_2 by done.
    destruct (IH k1 _ _ (loop_advance fuel k k1 _ _ _ _ _ n Hin ltac:(lia))) as (k' & r & n' & -> & Hsent).
    exists k', r, (n + n'). split; [done|]. by eapply sent_more; [lia|..].
  - replace (Z.to_nat n) with 0%nat in Ho by lia. rewrite take_0, app_nil_r in Ho. pose proof (sent_none fd m k k1 vecs Hpos Ho Hi) as Hfail.
    destruct (Z.ltb_spec n 0) as [Hneg|]; [|rewrite bind_dcheck by lia; by eexists k1, _, 0].
    specialize (Hp Hneg). destruct (Interrupted err) eqn:Ei.
    { destruct (IH k1 _ _ (loop_again _ _ k1 _ _ _ _ _ Hin (Hp eq_refl))) as (k' & r & n' & -> & Hsent).
      exists k', r, n'. split; [done|]. by eapply sent_same. }
    destruct (WouldBlock err) eqn:Ew; [|by eexists k1, _, 0]. destruct dontwait; [|by eexists k1, _, 0].
    destruct (wait_ok _ _ _ _ _ _ fd POLLOUT (loop_again _ _ k1 _ _ _ _ _ Hin (Hp eq_refl)) eq_refl) as (k2 & b & -> & Ho2 & Hi2 & Hin2).
    rewrite bind_Ok. destruct b; [|eexists k2, _, 0; split; [done|]; apply sent_none; congruence].
    destruct (IH k2 _ _ Hin2) as (k' & r & n' & -> & Hsent). exists k', r, n'. split; [done|]. apply (sent_same fd m k k2); congruence.
Qed.

(** ** Receiving *)

(** The first [n] bytes of the stream are in the first [n] places, and nothing else changed. *)
Definition rcvd_upto (fd : Z) m k vecs k' m' (r : absl_Status) (n : Z) (got : bytes) : Prop :=
  0 ≤ n ≤ iov_sum vecs ∧ io_in k fd = got ++ io_in k' fd ∧ length got = Z.to_nat n ∧ io_out k' fd = io_out k fd ∧
  (λ a, m' !! a) <$> take (Z.to_nat n) (span_addrs vecs) = Some <$> got ∧
  (∀ x, x ∉ take (Z.to_nat n) (span_addrs vecs) → m' !! x = m !! x) ∧
  (r = None ∧ n = iov_sum vecs ∨ r = Some Internal ∧ n < iov_sum vecs).
Lemma scatter_none m vecs : scatter_span m vecs [] = m.
Proof. unfold scatter_span. by rewrite (zip_with_nil_r pair). Qed.
Lemma rcvd_none fd m k k' vecs : 0 < iov_sum vecs → io_out k' fd = io_out k fd → io_in k' fd = io_in k fd →
  rcvd_upto fd m k vecs k' m (Some Internal) 0 [].
Proof. intros Hs Ho Hi. split; [lia|]. cbn. rewrite take_0. do 5 (split; [done|]). by right. Qed.
Lemma rcvd_same fd m k k1 k' m' vecs r n got : io_out k1 fd = io_out k fd → io_in k1 fd = io_in k fd →
  rcvd_upto fd m k1 vecs k' m' r n got → rcvd_upto fd m k vecs k' m' r n got.
Proof. intros Ho Hi. unfold rcvd_upto. by rewrite Ho, Hi. Qed.
Lemma scatter_reads m vecs data : NoDup (span_addrs vecs) → (length data ≤ length (span_addrs vecs))%nat →
  (λ a, scatter_span m vecs data !! a) <$> take (length data) (span_addrs vecs) = Some <$> data ∧
  (∀ x, x ∉ take (length data) (span_addrs vecs) → scatter_span m vecs data !! x = m !! x).
Proof.
  intros Hnd Hl. split; [by apply scatter_inside|]. intros x Hx. unfold scatter_span.
  rewrite <- (zip_with_take_l' pair (length data)) by lia. by apply scatter_outside.
Qed.
Lemma take_both {A} n n' (l : list A) : take (n + n') l = take n l ++ take n' (drop n l).
Proof. by rewrite take_take_drop. Qed.
Lemma rcvd_more fd m k k1 k' m' vecs vecs' r data n' got' : NoDup (span_addrs vecs) → (length data ≤ length (span_addrs vecs))%nat →
  iov_sum vecs' = iov_sum vecs - Z.of_nat (length data) → span_addrs vecs' = drop (length data) (span_addrs vecs) →
  io_in k fd = data ++ io_in k1 fd → io_out k1 fd = io_out k fd →
  rcvd_upto fd (scatter_span m vecs data) k1 vecs' k' m' r n' got' →
  rcvd_upto fd m k vecs k' m' r (Z.of_nat (length data) + n') (data ++ got').
Proof.
  intros Hnd Hl Hs Hsp Hi Ho (Hn' & Hi' & Hg' & Ho' & Hm' & Hx' & Hr). rewrite Hs in Hn', Hr. rewrite Hsp in Hm', Hx'.
  destruct (scatter_reads m vecs data Hnd Hl) as [Hin Hout].
  unfold rcvd_upto. rewrite Z2Nat.inj_add, Nat2Z.id, take_both by lia. split; [lia|]. split; [by rewrite Hi, Hi', app_assoc|].
  split; [rewrite length_app; lia|]. split; [congruence|]. split; [|split].
  - rewrite fmap_app, Hm', fmap_app. f_equal. rewrite <- Hin. apply list_fmap_ext. intros i a Ha. apply Hx'.
    intros Hd. apply list_elem_of_lookup_2 in Ha. apply elem_of_take in Hd as (j & Hd & _). apply list_elem_of_lookup_2 in Hd.
    rewrite <- (take_drop (length data) (span_addrs vecs)), NoDup_app in Hnd. destruct Hnd as (_ & Hnd & _). by apply (Hnd a).
  - intros x Hx. rewrite elem_of_app in Hx. rewrite Hx', Hout by tauto. done.
  - destruct Hr as [[-> ->]|[-> ?]]; [left|right]; (split; [done|lia]).
Qed.

Lemma recv_loop_ok fd len deadline dontwait : ∀ fuel k m vecs rcvd, NoDup (span_addrs vecs) → loop_in fuel k vecs len rcvd deadline dontwait →
  ∃ k' m' r n got, recv_loop fuel k fd m vecs len rcvd deadline dontwait = Ok (k', m', r) ∧ rcvd_upto fd m k vecs k' m' r n got.
Proof.
  induction fuel as [|fuel IH]; intros k m vecs rcvd Hnd Hin; [by pose proof (li_fuel _ _ _ _ _ _ _ Hin); lia|].
  pose proof Hin as [Hf Hne Hs Hl Hb Hfu Hd]. pose proof (vecs_positive _ Hf Hne) as Hpos. pose proof (span_addrs_length _ Hf) as Hsl.
  cbn [recv_loop]. rewrite bool_decide_eq_false_2 by done.
  destruct (io_recvmsg k fd (iov_sum vecs) dontwait) as [[[k1 n] err] data] eqn:E.
  destruct (il_recv _ _ _ _ _ _ _ _ Hpos E) as (Hle & Hdl & Hi & Ho & _ & Hp). destruct (Z.ltb_spec 0 n) as [Hn|Hn].
  - assert (n = Z.of_nat (length data)) as En by lia. destruct (scatter_reads m vecs data Hnd ltac:(lia)) as [Hin1 Hout1].
    replace (u64 (rcvd + n)) with (rcvd + n) by (symmetry; apply Z.mod_small; lia).
    destruct (Z.leb_spec len (rcvd + n)) as [Hfin|Hmore].
    { rewrite bind_dcheck by lia. eexists k1, _, None, n, data. split; [done|]. split; [lia|]. rewrite <- Hdl. do 5 (split; [done|]). left. split; [done|lia]. }
    destruct (advance_vecs_ok vecs n Hf ltac:(lia)) as (_ & Hne' & Hs' & Hsp). rewrite bool_decide_eq_false_2 by done.
    rewrite <- Hdl in Hsp. destruct (IH k1 (scatter_span m vecs data) (advance_vecs vecs n) (rcvd + n)) as (k' & m' & r & n' & got' & -> & Hr).
    { rewrite Hsp. eapply sublist_NoDup; [exact Hnd|apply sublist_drop]. }
    { apply (loop_advance fuel k k1); [done|lia]. }
    exists k', m', r, (n + n'), (data ++ got'). split; [done|]. rewrite En. eapply rcvd_more; try done; lia.
  - assert (data = []) as -> by (apply nil_length_inv; lia). rewrite scatter_none. assert (io_in k1 fd = io_in k fd) as Hi1 by done.
    pose proof (rcvd_none fd m k k1 vecs Hpos Ho Hi1) as Hfail.
    destruct (Z.eqb_spec n 0) as [|Hn0]; [by eexists k1, m, _, 0, []|].
    specialize (Hp ltac:(lia)). destruct (Interrupted err) eqn:Ei.
    { destruct (IH k1 m _ _ Hnd (loop_again _ _ k1 _ _ _ _ _ Hin (Hp eq_refl))) as (k' & m' & r & n' & got & -> & Hr).
      exists k', m', r, n', got. split; [done|]. by apply (rcvd_same fd m k k1). }
    destruct (WouldBlock err) eqn:Ew; [|by eexists k1, m, _, 0, []]. destruct dontwait; [|by eexists k1, m, _, 0, []].
    destruct (wait_ok _ _ _ _ _ _ fd POLLIN (loop_again _ _ k1 _ _ _ _ _ Hin (Hp eq_refl)) eq_refl) as (k2 & b & -> & Ho2 & Hi2 & Hin2).
    rewrite bind_Ok. destruct b; [|eexists k2, m, _, 0, []; split; [done|]; apply rcvd_none; congruence].
    destruct (IH k2 m _ _ Hnd Hin2) as (k' & m' & r & n' & got & -> & Hr). exists k', m', r, n', got. split; [done|].
    apply (rcvd_same fd m k k2); congruence.
Qed.
End Lemmas.

(** * Properties *)

Lemma total_length_ok iovs : Forall iov_ok iovs → iov_sum iovs < 2 ^ 63 → TotalLength iovs = iov_sum iovs.
Proof. intros Hf Hs. apply TotalLength_sum. pose proof (iov_sum_nonneg _ Hf). unfold fits. lia. Qed.
Lemma transfer_checks_ok {K} `{IoKernel K} (k : K) fd iovs : io_valid k fd = true → io_blocking k fd = true → Forall iov_ok iovs → iovs ≠ [] →
  iov_sum iovs < 2 ^ 63 → Z.of_nat (length iovs) ≤ IOV_MAX → transfer_checks k fd iovs = Ok ().
Proof.
  intros Hv Hb Hf Hne Hs Hl. unfold transfer_checks. rewrite total_length_ok by done. pose proof (vecs_positive _ Hf Hne).
  rewrite !bind_dcheck; try done; [|lia|lia|by apply iov_valid]. apply dcheck_true. lia.
Qed.
Lemma loop_start {K} `{IoLaws K} fuel (k : K) iovs timeout_ms : Forall iov_ok iovs → iovs ≠ [] → iov_sum iovs < 2 ^ 63 → (io_effort k iovs < fuel)%nat →
  loop_in fuel k iovs (TotalLength iovs) 0 (GetDeadline k timeout_ms) (0 <=? timeout_ms).
Proof.
  intros Hf Hne Hs Hfu. rewrite total_length_ok by done. split; try done. unfold GetDeadline. intros ->. by eexists.
Qed.

(** C39: exact transfers.  On an open blocking socket, with any deadline or none, whatever
    partial transfers, interruptions, early wake-ups and errors the system produces,
    [WriteVExact] and [ReadVExact] return without failing an assertion.  The socket has then
    accepted a prefix of the bytes of the buffers, in order; respectively a prefix of the
    stream is at the first addresses of the buffers and gone from the stream, and no other
    memory changed.  The result is OK exactly if that is all of it; otherwise it is an
    internal error, or the vector was too long and nothing was transferred. *)
Theorem ExactIO_all_or_error {K} `{IoLaws K} (fuel : nat) (k : K) (fd : Z) (m : mem) (iovs : list IoVec) (timeout_ms : Z) :
  io_valid k fd = true → io_blocking k fd = true → Forall iov_ok iovs → NoDup (span_addrs iovs) → iov_sum iovs < 2 ^ 63 →
  (io_effort k iovs < fuel)%nat →
  let ended r n := r = None ∧ n = iov_sum iovs ∨ r = Some Internal ∧ n < iov_sum iovs ∨
                   r = Some InvalidArgument ∧ n = 0 ∧ IOV_MAX < Z.of_nat (length iovs) in
  (∃ k' r n, WriteVExact fuel k fd m iovs timeout_ms = Ok (k', r) ∧ 0 ≤ n ≤ iov_sum iovs ∧ ended r n ∧
     io_out k' fd = io_out k fd ++ take (Z.to_nat n) (gather_span m iovs) ∧ io_in k' fd = io_in k fd) ∧
  (∃ k' m' r n got, ReadVExact fuel k fd m iovs timeout_ms = Ok (k', m', r) ∧ 0 ≤ n ≤ iov_sum iovs ∧ ended r n ∧
     io_in k fd = got ++ io_in k' fd ∧ length got = Z.to_nat n ∧ io_out k' fd = io_out k fd ∧
     (λ a, m' !! a) <$> take (Z.to_nat n) (span_addrs iovs) = Some <$> got ∧
     (∀ x, x ∉ take (Z.to_nat n) (span_addrs iovs) → m' !! x = m !! x)).
Proof.
  intros Hv Hb Hf Hnd Hs Hfu ended. unfold WriteVExact, ReadVExact. rewrite total_length_ok by done.
  destruct (decide (iovs = [])) as [->|Hne].
  { split; [eexists k, _, 0|eexists k, m, _, 0, []]; cbn; rewrite ?app_nil_r; split_and!; try done; by left. }
  pose proof (vecs_positive _ Hf Hne) as Hpos. rewrite (proj2 (Z.eqb_neq (iov_sum iovs) 0)) by lia. rewrite !bind_dcheck by (done || by apply iov_valid).
  assert (1 ≤ Z.of_nat (length iovs)) as H1 by (destruct iovs; [done|cbn; lia]). rewrite (proj2 (Z.leb_le 1 (Z.of_nat (length iovs)))) by done.
  cbn [andb]. destruct (Z.leb_spec (Z.of_nat (length iovs)) IOV_MAX) as [Hl|Hl].
  2:{ split; [eexists k, _, 0|eexists k, m, _, 0, []]; cbn; rewrite ?app_nil_r; split_and!; try done; try lia; by right; right. }
  unfold Util_Send, Util_Recv. rewrite transfer_checks_ok, !bind_Ok by done. pose proof (loop_start fuel k iovs timeout_ms Hf Hne Hs Hfu) as Hin. split.
  - destruct (send_loop_ok fd m _ _ _ fuel k iovs 0 Hin) as (k' & r & n & -> & Hn & Ho & Hi & Hr). exists k', r, n. split; [done|].
    split; [done|]. split; [|done]. destruct Hr; [by left|by right; left].
  - destruct (recv_loop_ok fd _ _ _ fuel k m iovs 0 Hnd Hin) as (k' & m' & r & n & got & -> & Hn & Hi & Hg & Ho & Hm & Hx & Hr).
    exists k', m', r, n, got. split; [done|]. split; [done|]. split; [|done]. destruct Hr; [by left|by right; left].
Qed.

(** * Examples *)

(** A socket that moves two bytes at a time and refuses every other call with [is_err]. *)
Record iosim := mkIosim { is_out : bytes; is_in : bytes; is_flaky : bool; is_err : Z; is_now : Z }.
#[export] Instance iosim_kernel : IoKernel iosim := {|
  io_valid _ _ := true;
  io_blocking _ _ := true;
  io_now := is_now;
  io_sendmsg k _ data _ :=
    if is_flaky k then (mkIosim (is_out k) (is_in k) false (is_err k) (is_now k + kMs), -1, is_err k)
    else (mkIosim (is_out k ++ take 2 data) (is_in k) true (is_err k) (is_now k), Z.of_nat (length (take 2 data)), 0);
  io_recvmsg k _ cap _ :=
    let data := take (Z.to_nat (Z.min 2 cap)) (is_in k) in
    if is_flaky k then (mkIosim (is_out k) (is_in k) false (is_err k) (is_now k + kMs), -1, is_err k, [])
    else (mkIosim (is_out k) (drop (Z.to_nat (Z.min 2 cap)) (is_in k)) true (is_err k) (is_now k), Z.of_nat (length data), 0, data);
  io_poll k _ _ _ := (mkIosim (is_out k) (is_in k) (is_flaky k) (is_err k) (is_now k + kMs), 1, 0);
|}.
#[export, program] Instance iosim_laws : IoLaws iosim := {|
  io_out k _ := is_out k; io_in k _ := is_in k; io_patience k := if is_flaky k then 1%nat else 0%nat; io_signals := 1%nat |}.
Next Obligation. intros k. cbn. destruct (is_flaky k); lia. Qed.
Next Obligation.
  intros k fd data dw k' n err Hd. cbn. destruct (is_flaky k) eqn:Ef; intros [= <- <- <-]; cbn.
  - rewrite app_nil_r. split_and!; try done; lia || (unfold kMs; lia).
  - rewrite Nat2Z.id, length_take. split_and!; try done; [lia|]. by destruct data as [|a [|b data]].
Qed.
Next Obligation.
  intros k fd cap dw k' n err data Hc. cbn. destruct (is_flaky k) eqn:Ef; intros [= <- <- <- <-]; cbn.
  - split_and!; try done; lia || (unfold kMs; lia).
  - rewrite Nat2Z.id, length_take, take_drop. split_and!; try done; lia.
Qed.
Next Obligation. intros k fd event ms k' n err [= <- <- <-]. cbn. split_and!; try done; unfold kMs; lia. Qed.

Definition io_vecs : list IoVec := [mkIoVec 100 3; mkIoVec 200 4].
Definition io_mem : mem := list_to_map (zip (span_addrs io_vecs) [1; 2; 3; 4; 5; 6; 7]).
Definition io_write (err timeout_ms : Z) : option (bytes * absl_Status) :=
  match WriteVExact 20 (mkIosim [] [] true err 0) 4 io_mem io_vecs timeout_ms with Ok (k, r) => Some (is_out k, r) | Fault _ => None end.
(** Interruptions and waits are survived, without a deadline a call that would block is not,
    and a short deadline ends the transfer. *)
Example write_interrupted : io_write EINTR (-1) = Some ([1; 2; 3; 4; 5; 6; 7], None).
Proof. vm_compute. reflexivity. Qed.
Example write_waits : io_write EAGAIN 1000 = Some ([1; 2; 3; 4; 5; 6; 7], None).
Proof. vm_compute. reflexivity. Qed.
Example write_expires : io_write EAGAIN 5 = Some ([1; 2; 3; 4], Some Internal).
Proof. vm_compute. reflexivity. Qed.
Example write_would_block : io_write EAGAIN (-1) = Some ([], Some Internal).
Proof. vm_compute. reflexivity. Qed.

Lemma ExactIO_all_or_error_witness : ∃ k r, WriteVExact 20 (mkIosim [] [] true EAGAIN 0) 4 io_mem io_vecs 1000 = Ok (k, r) ∧ is_out k = [1; 2; 3; 4; 5; 6; 7].
Proof.
  destruct (ExactIO_all_or_error 20 (mkIosim [] [] true EAGAIN 0) 4 io_mem io_vecs 1000) as [(k & r & n & E & _ & _ & Ho & _) _].
  - reflexivity.
  - reflexivity.
  - apply (bool_decide_unpack _). vm_compute. exact I.
  - apply (bool_decide_unpack _). vm_compute. exact I.
  - vm_compute. reflexivity.
  - vm_compute. lia.
  - exists k, r. split; [exact E|]. assert (io_write EAGAIN 1000 = Some ([1; 2; 3; 4; 5; 6; 7], None)) as Hs by (vm_compute; reflexivity).
    unfold io_write in Hs. rewrite E in Hs. injection Hs as Hs _. exact Hs.
Defined.
