(* ===== verification/RateLimiter.v ===== *)
(** The blocking rate limiter, [internal/lib/rate_limiter], which [api/v1/rate_limiter.h]
    wraps.  Durations are ticks of the monotonic clock.  The cost of a number of bytes is
    computed in floating point, which is the parameter [RateCost]. *)

From stdpp Require Import base tactics numbers list.
From S2P Require Import Prelude.
Local Open Scope Z_scope.

(** [absl::Nanoseconds(double(bytes) * (1e9 / rate))], never negative. *)
Class RateCost := { cost : Z → Z → Z; cost_nonneg : ∀ rate bytes, 0 ≤ cost rate bytes }.

(** [deadline_]; [None] is minus infinity. *)
Record BlockingRateLimiter := mkLimiter { rl_rate : Z; rl_deadline : option Z }.
Definition BlockingRateLimiter_new (bytes_per_sec : Z) : BlockingRateLimiter := mkLimiter (Z.max 1 bytes_per_sec) None.
Definition Rate (l : BlockingRateLimiter) : Z := rl_rate l.

Section Ops.
Context `{RateCost}.

(** The part of [reserve] under the lock, at time [now]: the wait. *)
Definition reserve (l : BlockingRateLimiter) (bytes now : Z) : res (BlockingRateLimiter * Z) :=
  do* dcheck (1 <=? bytes);
  let c := cost (rl_rate l) bytes in
  do* dcheck (0 <=? c);
  let start := match rl_deadline l with Some d => Z.max now d | None => now end in
  let deadline := start + c in
  Ok (mkLimiter (rl_rate l) (Some deadline), deadline - now).

(** The wait that [Consume] sleeps for. *)
Definition Consume (l : BlockingRateLimiter) (bytes now : Z) : res (BlockingRateLimiter * Z) :=
  if 1 <=? bytes then reserve l bytes now else Ok (l, 0).

(** Calls by any threads, in the order in which they take the lock: bytes and time.  The
    result has the start and the end of each one's slot. *)
Fixpoint consume_all (l : BlockingRateLimiter) (calls : list (Z * Z)) : res (BlockingRateLimiter * list (Z * Z)) :=
  match calls with
  | [] => Ok (l, [])
  | (bytes, now) :: calls =>
      let* '(l, wait) := Consume l bytes now in
      let* '(l, slots) := consume_all l calls in
      Ok (l, (now + wait - (if 1 <=? bytes then cost (rl_rate l) bytes else 0), now + wait) :: slots)
  end.

(** * Lemmas *)

Definition after (l : BlockingRateLimiter) (t : Z) : Prop := match rl_deadline l with Some d => d ≤ t | None => True end.

Lemma Consume_ok l bytes now : 1 ≤ bytes → ∃ wait, Consume l bytes now = Ok (mkLimiter (rl_rate l) (Some (now + wait)), wait) ∧
  cost (rl_rate l) bytes ≤ wait ∧ after l (now + wait - cost (rl_rate l) bytes).
Proof.
  intros Hb. unfold Consume, reserve. rewrite (proj2 (Z.leb_le 1 bytes)) by done. pose proof (cost_nonneg (rl_rate l) bytes) as Hc.
  rewrite !bind_dcheck by lia. set (start := match rl_deadline l with Some d => _ | None => _ end).
  exists (start + cost (rl_rate l) bytes - now). split; [do 2 f_equal; do 2 f_equal; lia|].
  unfold after, start. destruct (rl_deadline l); lia.
Qed.

Lemma consume_all_ok calls : ∀ l, Forall (λ c, 1 ≤ c.1) calls →
  ∃ l' slots, consume_all l calls = Ok (l', slots) ∧ rl_rate l' = rl_rate l ∧
    Forall2 (λ c s, c.2 ≤ s.1 ∧ s.2 = s.1 + cost (rl_rate l) c.1) calls slots ∧
    (∀ s, head slots = Some s → after l s.1) ∧ (∀ i s s', slots !! i = Some s → slots !! S i = Some s' → s.2 ≤ s'.1).
Proof.
  induction calls as [|[bytes now] calls IH]; intros l Hf; cbn [consume_all].
  { exists l, []. split; [done|]. split; [done|]. split; [constructor|]. done. }
  apply Forall_cons in Hf as [Hb Hf]. cbn in Hb. destruct (Consume_ok l bytes now Hb) as (wait & -> & Hw & Ha). rewrite bind_Ok.
  destruct (IH (mkLimiter (rl_rate l) (Some (now + wait))) Hf) as (l' & slots & -> & Hr & Hs & Hh & Ho). rewrite bind_Ok. cbn in Hr, Hs.
  rewrite (proj2 (Z.leb_le 1 bytes)) by done. eexists l', _. split; [done|]. split; [done|]. rewrite Hr. split; [|split].
  - constructor; [|done]. cbn. lia.
  - intros s [= <-]. exact Ha.
  - intros [|i] s s'; [|apply Ho]. destruct slots as [|s2 slots]; [done|]. intros [= <-] [= <-]. by apply (Hh s2).
Qed.

(** Slots that follow each other have room for their costs between the first start and the last
    end. *)
Definition total_cost (rate : Z) (calls : list (Z * Z)) : Z := foldr (λ c sum, cost rate c.1 + sum) 0 calls.
Lemma slots_sum rate (calls : list (Z * Z)) : ∀ slots s0 s1,
  Forall2 (λ c s, c.2 ≤ s.1 ∧ s.2 = s.1 + cost rate c.1) calls slots →
  (∀ i s s', slots !! i = Some s → slots !! S i = Some s' → s.2 ≤ s'.1) →
  head slots = Some s0 → last slots = Some s1 → total_cost rate calls ≤ s1.2 - s0.1.
Proof.
  induction calls as [|c calls IH]; intros slots s0 s1 Hs Ho Hh Hl; inversion Hs as [|? s ? slots' [Hc1 Hc2] Hs']; subst; [done|].
  injection Hh as <-. cbn [total_cost foldr]. fold (total_cost rate calls). destruct slots' as [|s2 slots'].
  - inversion Hs'; subst. injection Hl as <-. cbn. lia.
  - specialize (IH (s2 :: slots') s2 s1 Hs' (λ i, Ho (S i)) eq_refl Hl). specialize (Ho 0%nat s s2 eq_refl eq_refl). lia.
Qed.

(** The limiter paces its callers.  However many threads consume, at whatever times, each gets a
    slot of the shared timeline that starts no earlier than its call, lasts for the cost of
    its bytes and ends when it stops waiting; slots follow each other without overlap in the
    order of the calls, so the calls together cost no more than the time from the first start
    to the last end: time in which nothing was consumed is never made up for. *)
Theorem RateLimiter_paced (bytes_per_sec : Z) (before calls : list (Z * Z)) :
  Forall (λ c, 1 ≤ c.1) (before ++ calls) →
  ∃ l0 slots0 l slots, consume_all (BlockingRateLimiter_new bytes_per_sec) before = Ok (l0, slots0) ∧ consume_all l0 calls = Ok (l, slots) ∧
    let rate := Z.max 1 bytes_per_sec in
    Forall2 (λ c s, c.2 ≤ s.1 ∧ s.2 = s.1 + cost rate c.1) calls slots ∧
    (∀ i s s', slots !! i = Some s → slots !! S i = Some s' → s.2 ≤ s'.1) ∧
    (∀ s0 s1, head slots = Some s0 → last slots = Some s1 → total_cost rate calls ≤ s1.2 - s0.1).
Proof.
  intros [Hb Hc]%Forall_app. destruct (consume_all_ok before (BlockingRateLimiter_new bytes_per_sec) Hb) as (l0 & slots0 & E0 & Hr & _).
  destruct (consume_all_ok calls l0 Hc) as (l & slots & E & _ & Hs & _ & Ho). rewrite Hr in Hs.
  exists l0, slots0, l, slots. split; [done|]. split; [done|]. split; [done|]. split; [done|]. intros s0 s1. by apply slots_sum.
Qed.
End Ops.

(** * Examples *)

(** One tick for each byte that a rate of one per tick allows. *)
#[local, program] Instance unit_cost : RateCost := {| cost rate bytes := Z.max 0 bytes |}.
Next Obligation. intros. cbn. lia. Qed.
(** A burst is spread, and an idle time is not made up for. *)
Example paced : (λ r, match r with Ok (_, slots) => slots | Fault _ => [] end) (consume_all (BlockingRateLimiter_new 0) [(3, 0); (2, 0); (4, 1); (1, 100); (1, 100)]) =
  [(0, 3); (3, 5); (5, 9); (100, 101); (101, 102)].
Proof. vm_compute. reflexivity. Qed.
