(* ===== verification/ConnUtil.v ===== *)
(** Connections of the v1 API, [api/v1/conn_util.cc]: blocking sockets that are bound to a
    local address, connected with a time limit and retried.

    The operating system and the C library are the parameter [ConnKernel]; [ConnLaws]
    states what the calls do to a table of open descriptors with the peer each is connected
    to and its send timeout.  The times written for verbose logs are left out. *)

From Stdlib Require Import Ascii String.
From stdpp Require Import base tactics numbers gmap fin_maps sets list.
From S2P Require Import Prelude IpAddr Endpoint Types Socket PciTopology.
Local Open Scope Z_scope.

Definition ETIMEDOUT : Z := 110.
Definition SO_SNDBUF : Z := 7.
Definition SO_RCVBUF : Z := 8.
(** [absl::DeadlineExceededError]. *)
Definition DeadlineExceeded : StatusCode := OtherCode 4.
Definition IsDeadlineExceeded (s : absl_Status) : bool := match s with Some (OtherCode 4) => true | _ => false end.

Record addrinfo := mkAddrinfo { ai_family : Z; ai_socktype : Z; ai_protocol : Z; ai_addr : sockaddr }.

(** Results are followed by [errno]; durations are in milliseconds. *)
Class ConnKernel (K : Type) := {
  getenv : K → str → option str;
  getaddrinfo : K → str → str → K * Z * list addrinfo;
  v1_socket : K → Z → Z → Z → K * Z * Z;
  v1_setsockopt : K → Z → Z → Z → Z → K;
  get_sndtimeo : K → Z → Z;
  set_sndtimeo : K → Z → Z → K;
  v1_bind : K → Z → sockaddr → K * Z;
  v1_connect : K → Z → sockaddr → K * Z * Z;
  v1_shutdown : K → Z → K;
  v1_close : K → Z → K;
  poll_in : K → Z → K * Z;                    (* POLLIN, no waiting *)
  sleep_about : K → Z → K;                    (* [SleepFor], between half and one and a half times as long *)
  ErrnoToStatus : Z → StatusCode;
}.

(** * Splitting an address *)

(** [find]. *)
Fixpoint find_char (c : ascii) (s : str) : option nat :=
  match s with
  | [] => None
  | x :: s => if decide (x = c) then Some 0%nat else S <$> find_char c s
  end.

(** [SplitHostPort], which [ip_util.cc] has too. *)
Definition SplitHostPort (peer : str) : StatusOr (str * str) :=
  if bool_decide (head peer = Some "["%char) then
    match find_char "]" peer with
    | None => inr InvalidArgument
    | Some closing_bracket =>
        if (length peer <=? closing_bracket + 1)%nat || negb (bool_decide (peer !! (closing_bracket + 1)%nat = Some ":"%char))
        then inr InvalidArgument
        else inl (substr peer 1 (closing_bracket - 1), drop (closing_bracket + 2) peer)
    end
  else match split_on ":" peer with
  | [host; port] => inl (host, port)
  | _ => inr InvalidArgument
  end.

(** * Connecting *)

Definition kDefaultConnectTimeoutMs : Z := 3000.
Definition kDefaultMaxConnectAttempts : Z := 4.
Definition kDefaultInitialBackoffMs : Z := 200.
Definition kMaxConnectBackoff : Z := 4000.

(** The open-source implementation of [PspTcpConnect]. *)
Definition PspTcpConnect : absl_Status := Some Unimplemented.

Section Ops.
Context {K : Type} `{ConnKernel K} `{T : NetText}.

Definition ParseEnvVarInteger (k : K) (name : str) (default_value : Z) : Z :=
  match getenv k name with
  | None => default_value
  | Some ev => default default_value (SimpleAtoi ev)
  end.

Definition ConnectWithTimeout (k : K) (fd : Z) (addr : addrinfo) (timeout : Z) (require_psp : bool) : K * absl_Status :=
  let saved_timeout := get_sndtimeo k fd in
  let k := set_sndtimeo k fd timeout in
  let '(k, s) :=
    if require_psp then (k, PspTcpConnect)
    else
      let '(k, ret, err) := v1_connect k fd (ai_addr addr) in
      (k, if ret =? 0 then None
          else if (err =? EINPROGRESS) || (err =? ETIMEDOUT) || (err =? EINTR) then Some DeadlineExceeded
          else Some (ErrnoToStatus err)) in
  (set_sndtimeo k fd saved_timeout, s).

Definition should_bind (local_ip : str) : bool :=
  negb (bool_decide (local_ip = [])) && negb (bool_decide (local_ip = lit "0.0.0.0")) && negb (bool_decide (local_ip = lit "::")).
(** The result of [bind] is only logged. *)
Definition bind_local (k : K) (fd : Z) (rp : addrinfo) (local_ip : str) : K :=
  if negb (should_bind local_ip) then k
  else
    let is_ipv6 := bool_decide (":"%char ∈ local_ip) in
    if is_ipv6 && (ai_family rp =? AF_INET6) then
      match inet_pton6 local_ip with Some addr => (v1_bind k fd (sockaddr_in6 0 addr)).1 | None => k end
    else if negb is_ipv6 && (ai_family rp =? AF_INET) then
      match inet_pton4 local_ip with Some addr => (v1_bind k fd (sockaddr_in 0 addr)).1 | None => k end
    else k.

Definition set_options (k : K) (fd : Z) : K :=
  let k := v1_setsockopt k fd IPPROTO_TCP TCP_NODELAY 1 in
  let buf_opt := 16 * 1024 * 1024 in
  let k := v1_setsockopt k fd SOL_SOCKET SO_SNDBUF buf_opt in
  v1_setsockopt k fd SOL_SOCKET SO_RCVBUF buf_opt.

(** The loop over the addresses with [sock_fd], [last_errno] and [last_status]. *)
Fixpoint try_addresses (k : K) (rps : list addrinfo) (local_ip : str) (timeout : Z) (require_psp : bool)
    (sock_fd last_errno : Z) (last_status : absl_Status) : K * Z * Z * absl_Status :=
  match rps with
  | [] => (k, sock_fd, last_errno, last_status)
  | rp :: rps =>
      let '(k, sock_fd, err) := v1_socket k (ai_family rp) (ai_socktype rp) (ai_protocol rp) in
      if sock_fd <? 0 then try_addresses k rps local_ip timeout require_psp sock_fd err last_status
      else
        let k := set_options k sock_fd in
        let k := bind_local k sock_fd rp local_ip in
        let '(k, s) := ConnectWithTimeout k sock_fd rp timeout require_psp in
        match s with
        | None => (k, sock_fd, last_errno, last_status)
        | Some _ => try_addresses (v1_close k sock_fd) rps local_ip timeout require_psp (-1) last_errno s
        end
  end.

(** The attempts that are left; [attempt] counts those before. *)
Fixpoint try_attempts (rest : nat) (k : K) (rps : list addrinfo) (local_ip : str) (timeout initial_backoff : Z) (require_psp : bool)
    (attempt sock_fd last_errno : Z) (last_status : absl_Status) : K * Z * Z * absl_Status :=
  match rest with
  | O => (k, sock_fd, last_errno, last_status)
  | S rest =>
      let '(k, sock_fd, last_errno, last_status) := try_addresses k rps local_ip timeout require_psp sock_fd last_errno last_status in
      if 0 <=? sock_fd then (k, sock_fd, last_errno, last_status)
      else if negb (IsDeadlineExceeded last_status) || (rest =? 0)%nat then (k, sock_fd, last_errno, last_status)
      else
        let base_backoff := Z.min (initial_backoff * Z.shiftl 1 (Z.min attempt 10)) kMaxConnectBackoff in
        let k := sleep_about k base_backoff in
        try_attempts rest k rps local_ip timeout initial_backoff require_psp (attempt + 1) sock_fd last_errno last_status
  end.

(** [channel]: whether it is not null. *)
Definition ConnectToPeer (k : K) (peer local_ip : str) (require_psp channel : bool) : K * StatusOr Z :=
  if require_psp && negb channel then (k, inr InvalidArgument)
  else match SplitHostPort peer with
  | inr e => (k, inr e)
  | inl (host, port) =>
      let '(k, ret, result) := getaddrinfo k host port in
      if negb (ret =? 0) || bool_decide (result = []) then (k, inr InvalidArgument)
      else
        let timeout := ParseEnvVarInteger k (lit "TPU_RAIDEN_TCP_CONNECT_TIMEOUT_MS") kDefaultConnectTimeoutMs in
        let max_attempts := ParseEnvVarInteger k (lit "TPU_RAIDEN_TCP_CONNECT_MAX_ATTEMPTS") kDefaultMaxConnectAttempts in
        let initial_backoff := ParseEnvVarInteger k (lit "TPU_RAIDEN_TCP_CONNECT_INITIAL_BACKOFF_MS") kDefaultInitialBackoffMs in
        let '(k, sock_fd, _, _) := try_attempts (Z.to_nat max_attempts) k result local_ip timeout initial_backoff require_psp 0 (-1) 0 None in
        if sock_fd <? 0 then (k, inr Unavailable) else (k, inl sock_fd)
  end.
End Ops.

(** * The table of descriptors *)

Record cfd := mkCfd { cf_peer : option sockaddr; cf_timeo : Z }.

(** A descriptor is open, connected to [cf_peer] and has the send timeout [cf_timeo], zero for
    none. *)
Class ConnLaws (K : Type) `{ConnKernel K} := {
  ctab : K → gmap Z cfd;
  cl_getaddrinfo : ∀ k host port k' ret r, getaddrinfo k host port = (k', ret, r) → ctab k' = ctab k;
  cl_socket : ∀ k family type protocol k' ret err, v1_socket k family type protocol = (k', ret, err) →
    ret < 0 ∧ ctab k' = ctab k ∨ 0 ≤ ret ∧ ctab k !! ret = None ∧ ctab k' = <[ret := mkCfd None 0]> (ctab k);
  cl_setsockopt : ∀ k fd level opt v, ctab (v1_setsockopt k fd level opt v) = ctab k;
  cl_get_timeo : ∀ k fd i, ctab k !! fd = Some i → get_sndtimeo k fd = cf_timeo i;
  cl_set_timeo : ∀ k fd i t, ctab k !! fd = Some i →
    ∃ t', ctab (set_sndtimeo k fd t) = <[fd := mkCfd (cf_peer i) t']> (ctab k) ∧ (0 ≤ t → t' = t);
  cl_bind : ∀ k fd sa k' ret, v1_bind k fd sa = (k', ret) → ctab k' = ctab k;
  cl_connect : ∀ k fd i sa k' ret err, ctab k !! fd = Some i → v1_connect k fd sa = (k', ret, err) →
    ctab k' = (if ret =? 0 then <[fd := mkCfd (Some sa) (cf_timeo i)]> (ctab k) else ctab k);
  cl_shutdown : ∀ k fd, ctab (v1_shutdown k fd) = ctab k;
  cl_close : ∀ k fd i, ctab k !! fd = Some i → ctab (v1_close k fd) = delete fd (ctab k);
  cl_poll : ∀ k fd k' n, poll_in k fd = (k', n) → ctab k' = ctab k;
  cl_sleep : ∀ k t, ctab (sleep_about k t) = ctab k;
}.

Section Lemmas.
Context {K : Type} `{L : ConnLaws K} `{T : NetText}.
Implicit Types (k : K) (rps : list addrinfo) (m : gmap Z cfd).

Lemma set_options_tab k fd : ctab (set_options k fd) = ctab k.
Proof. unfold set_options. by rewrite !cl_setsockopt. Qed.
Lemma bind_local_tab k fd rp local_ip : ctab (bind_local k fd rp local_ip) = ctab k.
Proof.
  unfold bind_local. destruct (negb (should_bind local_ip)); [done|].
  destruct (_ && _); [destruct (inet_pton6 local_ip) as [b|]; [|done]|destruct (_ && _); [|done]; destruct (inet_pton4 local_ip) as [b|]; [|done]].
  all: match goal with |- context [v1_bind ?k ?fd ?sa] => destruct (v1_bind k fd sa) as [k' ret] eqn:E end; by apply cl_bind in E.
Qed.

(** The send timeout is back when [ConnectWithTimeout] returns, whatever happened. *)
Lemma ConnectWithTimeout_ok k fd rp timeout psp i k' s : ctab k !! fd = Some i → 0 ≤ cf_timeo i →
  ConnectWithTimeout k fd rp timeout psp = (k', s) →
  ∃ p, ctab k' = <[fd := mkCfd p (cf_timeo i)]> (ctab k) ∧ (s = None → p = Some (ai_addr rp)).
Proof.
  intros Hi Ht. unfold ConnectWithTimeout. rewrite (cl_get_timeo _ _ _ Hi).
  destruct (cl_set_timeo k fd i timeout Hi) as (t1 & E1 & _). set (k1 := set_sndtimeo k fd timeout) in *.
  assert (∀ k2 p t, ctab k2 = <[fd := mkCfd p t]> (ctab k) →
    ctab (set_sndtimeo k2 fd (cf_timeo i)) = <[fd := mkCfd p (cf_timeo i)]> (ctab k)) as Hset.
  { intros k2 p t E2. destruct (cl_set_timeo k2 fd (mkCfd p t) (cf_timeo i)) as (t2 & E3 & Ht2); [by rewrite E2, lookup_insert_eq|].
    rewrite E3, E2, insert_insert_eq. by rewrite Ht2. }
  destruct psp; [intros [= <- <-]; eexists; split; [by eapply Hset|done]|].
  destruct (v1_connect k1 fd (ai_addr rp)) as [[k2 ret] err] eqn:E2. intros [= <- <-].
  eapply (cl_connect k1 fd (mkCfd (cf_peer i) t1)) in E2; [|by rewrite E1, lookup_insert_eq]. cbn [cf_timeo] in E2.
  destruct (ret =? 0).
  - eexists. split; [eapply Hset; rewrite E2, E1; apply insert_insert_eq|done].
  - eexists. split; [eapply Hset; by rewrite E2|]. by destruct (_ || _).
Qed.

(** What a search for a connection leaves: nothing, or one new connected descriptor. *)
Definition searched m m' rps fd : Prop :=
  fd < 0 ∧ m' = m ∨
  0 ≤ fd ∧ m !! fd = None ∧ ∃ rp, rp ∈ rps ∧ m' = <[fd := mkCfd (Some (ai_addr rp)) 0]> m.
Lemma searched_more m m' rps rps' fd : searched m m' rps fd → rps ⊆ rps' → searched m m' rps' fd.
Proof. intros [?|(? & ? & rp & Hin & ?)] Hs; [by left|]. right. split; [done|]. split; [done|]. exists rp. split; [by apply Hs|done]. Qed.

Lemma try_addresses_ok local_ip timeout psp rps : ∀ k fd0 e0 s0 k' fd e s, fd0 < 0 →
  try_addresses k rps local_ip timeout psp fd0 e0 s0 = (k', fd, e, s) → searched (ctab k) (ctab k') rps fd.
Proof.
  induction rps as [|rp rps IH]; intros k fd0 e0 s0 k' fd e s Hfd0; cbn [try_addresses]; [intros [= <- <- _ _]; by left|].
  destruct (v1_socket k _ _ _) as [[k1 fd1] err] eqn:E1. apply cl_socket in E1.
  destruct (Z.ltb_spec fd1 0) as [Hneg|Hpos].
  { destruct E1 as [[_ E1]|[? _]]; [|lia]. intros E. rewrite <- E1. eapply searched_more; [by eapply IH|set_solver]. }
  destruct E1 as [[? _]|(_ & Hn & E1)]; [lia|].
  destruct (ConnectWithTimeout _ fd1 rp timeout psp) as [k2 s2] eqn:E2.
  assert (∃ p, ctab k2 = <[fd1 := mkCfd p 0]> (ctab k) ∧ (s2 = None → p = Some (ai_addr rp))) as (p & E3 & Hp).
  { eapply ConnectWithTimeout_ok in E2 as (p & E3 & Hp); rewrite ?bind_local_tab, ?set_options_tab, ?E1 in *; [|by rewrite lookup_insert_eq|done].
    exists p. by rewrite E3, insert_insert_eq. }
  destruct s2 as [c|].
  - intros E. apply IH in E; [|lia]. rewrite (cl_close _ _ (mkCfd p 0)) in E by (by rewrite E3, lookup_insert_eq).
    rewrite E3, delete_insert_eq, delete_id in E by done. eapply searched_more; [done|set_solver].
  - intros [= <- <- _ _]. right. split; [done|]. split; [done|]. exists rp. split; [by left|]. by rewrite E3, Hp.
Qed.

Lemma try_attempts_ok local_ip timeout ib psp rps n : ∀ k a fd0 e0 s0 k' fd e s, fd0 < 0 →
  try_attempts n k rps local_ip timeout ib psp a fd0 e0 s0 = (k', fd, e, s) → searched (ctab k) (ctab k') rps fd.
Proof.
  induction n as [|n IH]; intros k a fd0 e0 s0 k' fd e s Hfd0; cbn [try_attempts]; [intros [= <- <- _ _]; by left|].
  destruct (try_addresses k rps local_ip timeout psp fd0 e0 s0) as [[[k1 fd1] e1] s1] eqn:E1.
  apply try_addresses_ok in E1; [|done]. destruct (Z.leb_spec 0 fd1) as [Hpos|Hneg]; [by intros [= <- <- _ _]|].
  destruct E1 as [[_ E1]|[? _]]; [|lia]. destruct (_ || _); [intros [= <- <- _ _]; by left|].
  intros E. apply IH in E; [|done]. by rewrite cl_sleep, E1 in E.
Qed.

(** The addresses that the library knows for a peer. *)
Definition resolves k (peer : str) rps : Prop :=
  ∃ host port k', SplitHostPort peer = inl (host, port) ∧ getaddrinfo k host port = (k', 0, rps).

Lemma ConnectToPeer_ok k peer local_ip psp channel k' r : ConnectToPeer k peer local_ip psp channel = (k', r) →
  match r with
  | inl fd => 0 ≤ fd ∧ ctab k !! fd = None ∧
      ∃ rps rp, resolves k peer rps ∧ rp ∈ rps ∧ ctab k' = <[fd := mkCfd (Some (ai_addr rp)) 0]> (ctab k)
  | inr e => ctab k' = ctab k ∧ (e = Unavailable ↔ (psp = true → channel = true) ∧ ∃ rps, resolves k peer rps ∧ rps ≠ []) ∧
      (e = Unavailable ∨ e = InvalidArgument)
  end.
Proof.
  unfold ConnectToPeer. destruct (psp && negb channel) eqn:Ep.
  { intros [= <- <-]. split; [done|]. split; [|by right]. split; [done|]. intros [Hc _]. destruct psp; [|done]. by rewrite Hc in Ep. }
  assert (psp = true → channel = true) as Hc by (by destruct psp, channel).
  destruct (SplitHostPort peer) as [[host port]|e] eqn:Es.
  2:{ assert (e = InvalidArgument) as ->.
      { revert Es. unfold SplitHostPort. repeat (case_match; try done; try by intros [= <-]). }
      intros [= <- <-]. split; [done|]. split; [|by right]. split; [done|]. intros (_ & rps & (? & ? & ? & Hs & _) & _). congruence. }
  destruct (getaddrinfo k host port) as [[k1 ret] rps] eqn:Eg. pose proof (cl_getaddrinfo _ _ _ _ _ _ Eg) as E1.
  destruct (negb (ret =? 0) || bool_decide (rps = [])) eqn:Ef.
  { intros [= <- <-]. split; [done|]. split; [|by right]. split; [done|].
    intros (_ & rps' & (? & ? & ? & Hs & Hg) & Hne). rewrite Es in Hs. injection Hs as <- <-. rewrite Eg in Hg. injection Hg as <- -> <-.
    cbn in Ef. by apply bool_decide_eq_true in Ef. }
  apply orb_false_iff in Ef as [Hret%negb_false_iff%Z.eqb_eq Hne%bool_decide_eq_false]. subst ret.
  assert (resolves k peer rps) as Hres by (by exists host, port, k1).
  destruct (try_attempts _ _ _ _ _ _ _ _ _ _ _) as [[[k2 fd] e2] s2] eqn:E2. apply try_attempts_ok in E2; [|lia]. rewrite E1 in E2.
  destruct (Z.ltb_spec fd 0) as [Hneg|Hpos]; intros [= <- <-].
  - destruct E2 as [[_ E2]|[? _]]; [|lia]. split; [done|]. split; [|by left]. split; [|done]. intros _. split; [done|]. by exists rps.
  - destruct E2 as [[? _]|(_ & Hn & rp & Hin & E2)]; [lia|]. split; [done|]. split; [done|]. by exists rps, rp.
Qed.
End Lemmas.

(** * The accepted addresses *)

Lemma find_char_Some c s i : find_char c s = Some i ↔ ∃ s1 s2, s = s1 ++ c :: s2 ∧ (c ∉ s1) ∧ length s1 = i.
Proof.
  revert i. induction s as [|x s IH]; intros i; cbn [find_char].
  { split; [done|]. by intros ([|] & ? & ? & _). }
  destruct (decide (x = c)) as [->|Hx].
  - split; [intros [= <-]; by exists [], s; split_and!; [|set_solver|]|]. intros ([|y s1] & s2 & E & Hn & <-); [done|].
    injection E as <- _. set_solver.
  - rewrite fmap_Some. split.
    + intros (j & (s1 & s2 & -> & Hn & <-)%IH & ->). exists (x :: s1), s2. split_and!; [done|set_solver|done].
    + intros ([|y s1] & s2 & E & Hn & <-); injection E as -> ->; [done|]. exists (length s1). split; [|done]. apply IH.
      exists s1, s2. split_and!; [done|set_solver|done].
Qed.
Lemma split_on_nonempty c s : split_on c s ≠ [].
Proof. destruct s as [|x s]; cbn; [done|]. destruct (decide _); [done|]. by destruct (split_on c s). Qed.
Lemma split_on_singleton c s p : split_on c s = [p] → s = p ∧ c ∉ p.
Proof.
  revert p. induction s as [|x s IH]; intros p; cbn [split_on]; [intros [= <-]; split; [done|set_solver]|].
  destruct (decide (x = c)) as [->|Hx]; [intros [= _ E]; by apply split_on_nonempty in E|].
  destruct (split_on c s) as [|q ps] eqn:E; [by apply split_on_nonempty in E|]. intros [= <- ->].
  destruct (IH q eq_refl) as [-> Hc]. split; [done|set_solver].
Qed.
Lemma split_on_pair c s p q : split_on c s = [p; q] ↔ s = p ++ c :: q ∧ (c ∉ p) ∧ c ∉ q.
Proof.
  split; [|intros (-> & Hp & Hq); by rewrite split_on_app, split_on_none].
  revert p. induction s as [|x s IH]; intros p; cbn [split_on]; [done|].
  destruct (decide (x = c)) as [->|Hx]; [intros [= <- [-> Hc]%split_on_singleton]; split_and!; [done|set_solver|done]|].
  destruct (split_on c s) as [|p' ps] eqn:E; [by apply split_on_nonempty in E|]. intros [= <- ->].
  destruct (IH p' eq_refl) as (-> & Hp & Hq). split_and!; [done|set_solver|done].
Qed.

Lemma bracketed h p : let s := "["%char :: h ++ "]"%char :: ":"%char :: p in
  substr s 1 (S (length h) - 1) = h ∧ drop (S (length h) + 2) s = p ∧ s !! (S (length h) + 1)%nat = Some ":"%char.
Proof.
  intros s. unfold substr, s. rewrite Nat.sub_1_r. cbn [Nat.pred skipn drop]. split; [apply take_app_length|].
  change (drop (S (length h) + 2) ("["%char :: ?x)) with (drop (length h + 2) x). split.
  - rewrite drop_app_ge by lia. by replace (length h + 2 - length h)%nat with 2%nat by lia.
  - change ((h ++ "]"%char :: ":"%char :: p) !! (length h + 1)%nat = Some ":"%char). rewrite lookup_app_r by lia.
    by replace (length h + 1 - length h)%nat with 1%nat by lia.
Qed.

(** [SplitHostPort] accepts exactly [[host]:port], where [host] has no closing bracket, and
    [host:port] with a single colon and no opening bracket in front. *)
Lemma SplitHostPort_exact s h p : SplitHostPort s = inl (h, p) ↔
  s = "["%char :: h ++ "]"%char :: ":"%char :: p ∧ ("]"%char ∉ h) ∨
  s = h ++ ":"%char :: p ∧ (":"%char ∉ h) ∧ (":"%char ∉ p) ∧ head s ≠ Some "["%char.
Proof.
  unfold SplitHostPort. destruct (bool_decide_reflect (head s = Some "["%char)) as [Hb|Hb].
  - destruct s as [|x s]; [done|]. injection Hb as ->. cbn [find_char]. rewrite decide_False by done. split.
    + destruct (find_char "]" s) as [i|] eqn:Ef; cbn [fmap option_fmap option_map]; [|done].
      apply find_char_Some in Ef as (s1 & s2 & -> & Hn & <-). destruct (_ || _) eqn:Eo; [done|].
      apply orb_false_iff in Eo as [Hl%Nat.leb_gt Hc%negb_false_iff%bool_decide_eq_true].
      change ((s1 ++ "]"%char :: s2) !! (length s1 + 1)%nat = Some ":"%char) in Hc. rewrite lookup_app_r in Hc by lia.
      replace (length s1 + 1 - length s1)%nat with 1%nat in Hc by lia. destruct s2 as [|y s2]; [done|]. injection Hc as ->.
      destruct (bracketed s1 s2) as (-> & -> & _). intros [= <- <-]. by left.
    + intros [[[= ->] Hn]|(E & Hh & Hp & Hb)]; [|by destruct Hb].
      assert (find_char "]" (h ++ "]"%char :: ":"%char :: p) = Some (length h)) as -> by (apply find_char_Some; by exists h, (":"%char :: p)).
      cbn [fmap option_fmap option_map]. rewrite (proj2 (Nat.leb_gt _ _)) by (cbn; rewrite length_app; cbn; lia). cbn [orb].
      destruct (bracketed h p) as (-> & -> & ->). by rewrite bool_decide_eq_true_2.
  - pose proof (split_on_pair ":" s h p) as Hs. split.
    + intros E. right. destruct (split_on ":" s) as [|a [|b [|]]]; try done. injection E as -> ->.
      destruct (proj1 Hs eq_refl) as (? & ? & ?). done.
    + intros [[-> _]|(E & Hh & Hp & _)]; [done|]. by rewrite (proj2 Hs).
Qed.

(** * A system for examples *)

(** Descriptors count up; connections answer with the errors of a script, zero for success;
    the descriptors of [cs_ready] are readable. *)
Record csim := mkCsim { cs_tab : gmap Z cfd; cs_next : Z; cs_script : list Z; cs_ready : gset Z; cs_slept : list Z }.
Definition set_tab (k : csim) (m : gmap Z cfd) : csim := mkCsim m (cs_next k) (cs_script k) (cs_ready k) (cs_slept k).
Definition sim_socket (k : csim) : csim * Z * Z :=
  if (0 <=? cs_next k) && bool_decide (cs_tab k !! cs_next k = None)
  then (mkCsim (<[cs_next k := mkCfd None 0]> (cs_tab k)) (cs_next k + 1) (cs_script k) (cs_ready k) (cs_slept k), cs_next k, 0)
  else (k, -1, EMFILE).
Definition sim_connect (k : csim) (fd : Z) (sa : sockaddr) : csim * Z * Z :=
  let err := default 0 (head (cs_script k)) in
  let k := mkCsim (cs_tab k) (cs_next k) (tail (cs_script k)) (cs_ready k) (cs_slept k) in
  if err =? 0 then (set_tab k (alter (λ i, mkCfd (Some sa) (cf_timeo i)) fd (cs_tab k)), 0, 0) else (k, -1, err).
Definition sim_address (host port : str) : addrinfo :=
  mkAddrinfo AF_INET SOCK_STREAM 0 (sockaddr_in (Z.of_nat (length port)) [10; 0; 0; Z.of_nat (length host)]).
#[export] Instance csim_kernel : ConnKernel csim := {|
  getenv _ _ := None;
  getaddrinfo k host port := (k, 0, [sim_address host port]);
  v1_socket k _ _ _ := sim_socket k;
  v1_setsockopt k _ _ _ _ := k;
  get_sndtimeo k fd := from_option cf_timeo 0 (cs_tab k !! fd);
  set_sndtimeo k fd t := set_tab k (alter (λ i, mkCfd (cf_peer i) t) fd (cs_tab k));
  v1_bind k _ _ := (k, 0);
  v1_connect := sim_connect;
  v1_shutdown k _ := k;
  v1_close k fd := set_tab k (delete fd (cs_tab k));
  poll_in k fd := (k, if bool_decide (fd ∈ cs_ready k) then 1 else 0);
  sleep_about k t := mkCsim (cs_tab k) (cs_next k) (cs_script k) (cs_ready k) (cs_slept k ++ [t]);
  ErrnoToStatus err := OtherCode err;
|}.
#[export, program] Instance csim_laws : ConnLaws csim := {| ctab := cs_tab |}.
Next Obligation. by intros k host port k' ret r [= <- _ _]. Qed.
Next Obligation.
  intros k family type protocol k' ret err. cbn. unfold sim_socket. destruct (_ && _) eqn:E; intros [= <- <- _]; [right|by left].
  apply andb_prop in E as [Hn%Z.leb_le Ht%bool_decide_eq_true]. done.
Qed.
Next Obligation. done. Qed.
Next Obligation. intros k fd i Hi. cbn. by rewrite Hi. Qed.
Next Obligation.
  intros k fd i t Hi. cbn. exists t. split; [|done]. apply map_eq. intros x. destruct (decide (x = fd)) as [->|Hx].
  - by rewrite lookup_alter_eq, lookup_insert_eq, Hi.
  - by rewrite lookup_alter_ne, lookup_insert_ne.
Qed.
Next Obligation. by intros k fd sa k' ret [= <- _]. Qed.
Next Obligation.
  intros k fd i sa k' ret err Hi. cbn. unfold sim_connect. destruct (default 0 (head (cs_script k)) =? 0); intros [= <- <- _]; [|done]. cbn.
  apply map_eq. intros x. destruct (decide (x = fd)) as [->|Hx].
  - by rewrite lookup_alter_eq, lookup_insert_eq, Hi.
  - by rewrite lookup_alter_ne, lookup_insert_ne.
Qed.
Next Obligation. done. Qed.
Next Obligation. done. Qed.
Next Obligation. by intros k fd k' n [= <- _]. Qed.
Next Obligation. done. Qed.

Definition csim_start (script : list Z) : csim := mkCsim ∅ 5 script ∅ [].
Definition csim_connect (script : list Z) (peer : string) : option (Z + StatusCode) * nat * list Z :=
  let '(k, r) := ConnectToPeer (T := HexText.text) (csim_start script) (lit peer) (lit "10.0.0.1") false false in (Some r, size (cs_tab k), cs_slept k).
(** Two attempts time out and the third succeeds; a refusal is final; four timeouts; and an
    address that cannot be split. *)
Example connect_retried : csim_connect [EINPROGRESS; EINTR; 0] "host:7" = (Some (inl 7), 1%nat, [200; 400]).
Proof. vm_compute. reflexivity. Qed.
Example connect_refused_once : csim_connect [111; 0] "host:7" = (Some (inr Unavailable), 0%nat, []).
Proof. vm_compute. reflexivity. Qed.
Example connect_exhausted : csim_connect [115; 115; 110; 4; 0] "[::1]:7" = (Some (inr Unavailable), 0%nat, [200; 400; 800]).
Proof. vm_compute. reflexivity. Qed.
Example connect_malformed : csim_connect [0] "::1:7" = (Some (inr InvalidArgument), 0%nat, []).
Proof. vm_compute. reflexivity. Qed.
