(* ===== verification/ConnPool.v ===== *)
(** The connection pool of the v1 API, [api/v1/conn_pool]: idle connections by the pair of
    local address and peer.

    Every call holds the pool's lock while it looks at the pool; dialling and the closing of
    the connections that [CloseIdle] took out happen outside it.  [pool_exec] runs these pieces
    in any order.  A connection is made in one step: it only concerns a descriptor that nobody
    else has.  [flat_hash_map] is a finite map, and its order shows only in the order in which
    descriptors are closed. *)

From Stdlib Require Import Ascii String.
From stdpp Require Import base tactics numbers gmap fin_maps sets list.
From S2P Require Import Prelude IpAddr Endpoint Socket Ownership PciTopology Types ConnUtil.
Local Open Scope Z_scope.

(** * Data *)

Record ConnPool := mkPool { cp_stop : bool; cp_pool : gmap str (list Z) }.
Definition ConnPool_new : ConnPool := mkPool false ∅.
(** The destructor only checks. *)
Definition ConnPool_destroy (p : ConnPool) : res unit := dcheck (cp_stop p && bool_decide (cp_pool p = ∅)).

Definition arrow : str := lit "->".
Definition GenPoolKey (peer local_ip : str) : str := local_ip ++ arrow ++ peer.
Definition GenPoolKeySuffix (peer : str) : str := arrow ++ peer.
Definition EndsWith (s t : str) : bool := bool_decide (t `suffix_of` s).

(** * Operations *)

Section Ops.
Context {K : Type} `{ConnKernel K} `{T : NetText}.

Definition HasReadableData (k : K) (fd : Z) : K * bool := let '(k, n) := poll_in k fd in (k, 0 <? n).
Definition CloseSocket (k : K) (fd : Z) : res K :=
  do* dcheck (0 <=? fd); Ok (v1_close (v1_shutdown k fd) fd).
Definition close_fds (k : K) (fds : list Z) : res K := foreach CloseSocket k fds.

(** The loop of [Borrow] over the vector, last element first: [reused_fd], -1 if there is
    none, and what is left. *)
Fixpoint reuse_loop (k : K) (rev_fds : list Z) : res (K * Z * list Z) :=
  match rev_fds with
  | [] => Ok (k, -1, [])
  | fd :: rest =>
      let '(k, readable) := HasReadableData k fd in
      if readable : bool then let* k := CloseSocket k fd in reuse_loop k rest
      else Ok (k, fd, rest)
  end.
(** The part of [Borrow] under the lock. *)
Definition Borrow_locked (k : K) (p : ConnPool) (key : str) : res (K * ConnPool * StatusOr Z) :=
  if cp_stop p then Ok (k, p, inr FailedPrecondition)
  else match cp_pool p !! key with
  | None => Ok (k, p, inl (-1))
  | Some fds =>
      let* '(k, reused_fd, rest) := reuse_loop k (reverse fds) in
      Ok (k, mkPool false (<[key := reverse rest]> (cp_pool p)), inl reused_fd)
  end.
Definition Borrow (k : K) (p : ConnPool) (peer local_ip : str) (require_psp channel : bool) : res (K * ConnPool * StatusOr Z) :=
  let* '(k, p, r) := Borrow_locked k p (GenPoolKey peer local_ip) in
  match r with
  | inr e => Ok (k, p, inr e)
  | inl reused_fd =>
      if 0 <=? reused_fd then Ok (k, p, inl reused_fd)
      else let '(k, r) := ConnectToPeer k peer local_ip require_psp channel in Ok (k, p, r)
  end.

Definition Return (k : K) (p : ConnPool) (ok : bool) (fd : Z) (peer local_ip : str) : res (K * ConnPool) :=
  if fd <? 0 then Ok (k, p)
  else
    do* dcheck (0 <=? fd);
    if negb ok then let* k := CloseSocket k fd in Ok (k, p)
    else if cp_stop p then let* k := CloseSocket k fd in Ok (k, p)
    else
      let key := GenPoolKey peer local_ip in
      Ok (k, mkPool false (<[key := default [] (cp_pool p !! key) ++ [fd]]> (cp_pool p))).

(** The part of [CloseIdle] under the lock: the pool and [to_close]. *)
Definition CloseIdle_locked (p : ConnPool) (peer : str) : ConnPool * list Z :=
  let suffix := GenPoolKeySuffix peer in
  let matching := filter (λ kv, EndsWith kv.1 suffix = true) (cp_pool p) in
  (mkPool (cp_stop p) (filter (λ kv, EndsWith kv.1 suffix = false) (cp_pool p)), map_to_list matching ≫= snd).
Definition CloseIdle (k : K) (p : ConnPool) (peer : str) : res (K * ConnPool * Z) :=
  let '(p, to_close) := CloseIdle_locked p peer in
  let* k := close_fds k to_close in
  Ok (k, p, Z.of_nat (length to_close)).

Definition IdleCount (p : ConnPool) (peer : str) : Z :=
  foldr (λ kv count, if EndsWith kv.1 (GenPoolKeySuffix peer) then count + Z.of_nat (length kv.2) else count) 0 (map_to_list (cp_pool p)).

Definition Close (k : K) (p : ConnPool) : res (K * ConnPool) :=
  let* k := foreach close_fds k (snd <$> map_to_list (cp_pool p)) in
  Ok (k, mkPool true ∅).
End Ops.

(** * Keys *)

(** Peers are text without an arrow, which no host or port contains. *)
Definition arrow_free (s : str) : Prop := ∀ a b, s ≠ a ++ arrow ++ b.

Lemma arrow_suffix l p p' : arrow_free p → arrow_free p' → (arrow ++ p) `suffix_of` (l ++ arrow ++ p') → p = p'.
Proof.
  intros Hp Hp' [l' E]. unfold arrow in E. cbn in E. change (lit "->") with ["-"; ">"]%char in E. cbn in E.
  apply app_eq_app in E as [m [[-> E]|[-> E]]].
  - destruct m as [|x [|y m]]; [by injection E|discriminate E|]. injection E as <- <- ->. by destruct (Hp m p').
  - destruct m as [|x [|y m]]; [by injection E|discriminate E|]. injection E as <- <- ->. by destruct (Hp' m p).
Qed.
Lemma EndsWith_key peer local_ip peer' : arrow_free peer → arrow_free peer' →
  EndsWith (GenPoolKey peer local_ip) (GenPoolKeySuffix peer') = bool_decide (peer = peer').
Proof.
  intros Hp Hp'. unfold EndsWith. apply bool_decide_ext. split.
  - intros Hs. symmetry. by apply (arrow_suffix local_ip peer' peer).
  - intros ->. by exists local_ip.
Qed.
Lemma GenPoolKey_peer peer local_ip peer' local_ip' : arrow_free peer → arrow_free peer' →
  GenPoolKey peer local_ip = GenPoolKey peer' local_ip' → peer = peer' ∧ local_ip = local_ip'.
Proof.
  intros Hp Hp' E. assert (peer' = peer) as ->.
  { apply (arrow_suffix local_ip); [done..|]. exists local_ip'. exact E. }
  split; [done|]. by apply app_inv_tail in E.
Qed.

(** * The pool and its users *)

Section Users.
Context {K : Type} `{L : ConnLaws K} `{T : NetText}.
Implicit Types (k : K) (X : gmap Z cfd) (cs : list (cell_of cfd)) (m : gmap str (list Z)) (fds : list Z).

(** The descriptors that users have borrowed, those that users are still dialling and those
    that [CloseIdle] has taken out of the pool. *)
Record users := mkUsers {
  us_k : K; us_pool : ConnPool; us_lent : list (Z * (str * str)); us_dialing : list (str * str * bool * bool); us_closing : list Z;
}.

(** What the threads do: the pieces of the calls that run without interruption.  A user gives
    back what it borrowed, for the addresses it borrowed it for. *)
Inductive pool_act : Type :=
  | ABorrow (peer local_ip : str) (require_psp channel : bool)
  | ADial (i : nat)
  | AReturn (i : nat) (ok : bool)
  | ACloseIdle (peer : str)
  | ACloseOne (i : nat)
  | AClose.

Definition pool_exec (σ : users) (a : pool_act) : res users :=
  let 'mkUsers k p lent dialing closing := σ in
  match a with
  | ABorrow peer local_ip psp channel =>
      let* '(k, p, r) := Borrow_locked k p (GenPoolKey peer local_ip) in
      Ok (match r with
          | inr _ => mkUsers k p lent dialing closing
          | inl fd => if 0 <=? fd then mkUsers k p ((fd, (peer, local_ip)) :: lent) dialing closing
                      else mkUsers k p lent ((peer, local_ip, psp, channel) :: dialing) closing
          end)
  | ADial i =>
      match dialing !! i with
      | None => Ok σ
      | Some (peer, local_ip, psp, channel) =>
          let '(k, r) := ConnectToPeer k peer local_ip psp channel in
          Ok (mkUsers k p (match r with inl fd => (fd, (peer, local_ip)) :: lent | inr _ => lent end) (delete i dialing) closing)
      end
  | AReturn i ok =>
      match lent !! i with
      | None => Ok σ
      | Some (fd, (peer, local_ip)) =>
          let* '(k, p) := Return k p ok fd peer local_ip in Ok (mkUsers k p (delete i lent) dialing closing)
      end
  | ACloseIdle peer => let '(p, fds) := CloseIdle_locked p peer in Ok (mkUsers k p lent dialing (closing ++ fds))
  | ACloseOne i =>
      match closing !! i with
      | None => Ok σ
      | Some fd => let* k := CloseSocket k fd in Ok (mkUsers k p lent dialing (delete i closing))
      end
  | AClose => let* '(k, p) := Close k p in Ok (mkUsers k p lent dialing closing)
  end.

(** A descriptor is connected to an address of [peer] and has no send timeout. *)
Definition reaches (peer : str) (sa : sockaddr) : Prop := ∃ k rps rp, resolves k peer rps ∧ rp ∈ rps ∧ ai_addr rp = sa.
Definition connected (peer : str) (i : cfd) : Prop := cf_timeo i = 0 ∧ ∃ sa, cf_peer i = Some sa ∧ reaches peer sa.
Definition key_ok (key : str) (i : cfd) : Prop := ∃ peer local_ip, key = GenPoolKey peer local_ip ∧ arrow_free peer ∧ connected peer i.

(** The owners of the descriptors. *)
Definition kcells (key : str) fds : list (cell_of cfd) := (λ fd, (fd, key_ok key)) <$> fds.
Definition pool_cells m : list (cell_of cfd) := map_to_list m ≫= λ kv, kcells kv.1 kv.2.
Definition lent_cells (l : list (Z * (str * str))) : list (cell_of cfd) := (λ x, (x.1, connected x.2.1)) <$> l.
Definition any_cells fds : list (cell_of cfd) := (λ fd, (fd, λ _, True)) <$> fds.
Definition user_cells (σ : users) : list (cell_of cfd) :=
  pool_cells (cp_pool (us_pool σ)) ++ lent_cells (us_lent σ) ++ any_cells (us_closing σ).

(** Keys are made from addresses. *)
Definition pool_keys m : Prop := ∀ key fds, m !! key = Some fds → ∃ peer local_ip, key = GenPoolKey peer local_ip ∧ arrow_free peer.
Lemma pool_keys_insert m peer local_ip fds : arrow_free peer → pool_keys m → pool_keys (<[GenPoolKey peer local_ip := fds]> m).
Proof. intros Ha Hm key l [[<- _]|[_ Hk]]%lookup_insert_Some; [by exists peer, local_ip|by eapply Hm]. Qed.

Definition owns k X cs : Prop := holds (ctab k) X cs ∧ Forall (λ c, 0 ≤ c.1) cs.
Record users_ok X (σ : users) : Prop := {
  uo_owns : owns (us_k σ) X (user_cells σ);
  uo_stop : cp_stop (us_pool σ) = true → cp_pool (us_pool σ) = ∅;
  uo_lent : Forall (λ x, arrow_free x.2.1) (us_lent σ);
  uo_dialing : Forall (λ x, arrow_free x.1.1.1) (us_dialing σ);
  uo_keys : pool_keys (cp_pool (us_pool σ));
}.

#[export] Instance owns_Proper k X : Proper ((≡ₚ) ==> iff) (owns k X).
Proof. intros cs cs' E. unfold owns. by rewrite E. Qed.
Lemma owns_tab k k' X cs : ctab k' = ctab k → owns k X cs → owns k' X cs.
Proof. unfold owns. by intros ->. Qed.
Lemma owns_weaken k X cs (c : Z) (P Q : cfd → Prop) : owns k X ((c, P) :: cs) → (∀ i, P i → Q i) → owns k X ((c, Q) :: cs).
Proof. intros [Hh [Hc Hf]%Forall_cons] HQ. split; [by eapply holds_weaken|by constructor]. Qed.

Lemma pool_cells_insert m key fds : pool_cells (<[key := fds]> m) ≡ₚ kcells key fds ++ pool_cells (delete key m).
Proof.
  unfold pool_cells. rewrite <- insert_delete_eq, map_to_list_insert by apply lookup_delete_eq. done.
Qed.
Lemma pool_cells_lookup m key fds : m !! key = Some fds → pool_cells m ≡ₚ kcells key fds ++ pool_cells (delete key m).
Proof. intros Hk. rewrite <- pool_cells_insert. by rewrite insert_id. Qed.
Lemma pool_cells_default m key : pool_cells m ≡ₚ kcells key (default [] (m !! key)) ++ pool_cells (delete key m).
Proof. destruct (m !! key) as [fds|] eqn:E; [by apply pool_cells_lookup|]. by rewrite delete_id. Qed.

(** Any owner can close its descriptor. *)
Lemma CloseSocket_ok k X cs fd (P : cfd → Prop) : owns k X ((fd, P) :: cs) → ∃ k', CloseSocket k fd = Ok k' ∧ owns k' X cs.
Proof.
  intros [Hh [Hfd Hf]%Forall_cons]. unfold CloseSocket. rewrite bind_dcheck by by apply Z.leb_le.
  eexists. split; [done|]. destruct (holds_head _ _ _ _ _ Hh) as (i & Hi & _).
  split; [|done]. rewrite (cl_close _ _ i), cl_shutdown by (by rewrite cl_shutdown). by eapply holds_delete.
Qed.
Lemma close_fds_ok X cs (P : Z → cfd → Prop) fds : ∀ k, owns k X (((λ fd, (fd, P fd)) <$> fds) ++ cs) →
  ∃ k', close_fds k fds = Ok k' ∧ owns k' X cs.
Proof.
  unfold close_fds. induction fds as [|fd fds IH]; intros k Ho; cbn [foreach]; [by exists k|].
  destruct (CloseSocket_ok _ _ _ _ _ Ho) as (k1 & -> & Ho1). rewrite bind_Ok. by apply IH.
Qed.

(** The connection that is reused had nothing to read when it was looked at. *)
Lemma reuse_loop_ok X cs key fds : ∀ k, owns k X (kcells key fds ++ cs) →
  ∃ k' fd rest, reuse_loop k fds = Ok (k', fd, rest) ∧ owns k' X (kcells key (if 0 <=? fd then fd :: rest else rest) ++ cs) ∧
    (fd = -1 ∧ rest = [] ∨ 0 ≤ fd ∧ ∃ k1, HasReadableData k1 fd = (k', false)).
Proof.
  induction fds as [|fd fds IH]; intros k Ho; cbn [reuse_loop].
  { exists k, (-1), []. split; [done|]. split; [done|]. by left. }
  unfold HasReadableData at 1. destruct (poll_in k fd) as [k1 n] eqn:E1. pose proof (cl_poll _ _ _ _ E1) as Et.
  apply (owns_tab _ _ _ _ Et) in Ho. destruct (0 <? n) eqn:En.
  - destruct (CloseSocket_ok _ _ _ _ _ Ho) as (k2 & -> & Ho2). rewrite bind_Ok.
    destruct (IH k2 Ho2) as (k' & fd' & rest & -> & Ho' & Hr). by exists k', fd', rest.
  - assert (0 ≤ fd) as Hfd by (destruct Ho as [_ Hf]; by apply Forall_cons in Hf as [? _]).
    exists k1, fd, fds. split; [done|]. rewrite (proj2 (Z.leb_le 0 fd)) by done. split; [done|]. right. split; [done|].
    exists k. unfold HasReadableData. by rewrite E1, En.
Qed.

Definition act_ok (a : pool_act) : Prop :=
  match a with ABorrow peer _ _ _ => arrow_free peer | ACloseIdle peer => arrow_free peer | _ => True end.

Lemma delete_cells {A} (f : A → cell_of cfd) (l : list A) i x : l !! i = Some x → f <$> l ≡ₚ f x :: (f <$> delete i l).
Proof. intros Hi. rewrite <- fmap_cons. apply fmap_Permutation. by apply delete_Permutation. Qed.

(** The part of [Borrow] under the lock: nothing once the pool is closed, and otherwise a
    connection for that peer, or -1. *)
Lemma Borrow_locked_ok k X cs p peer local_ip : arrow_free peer → owns k X (pool_cells (cp_pool p) ++ cs) →
  ∃ k' p' r, Borrow_locked k p (GenPoolKey peer local_ip) = Ok (k', p', r) ∧ cp_stop p' = cp_stop p ∧
    (pool_keys (cp_pool p) → pool_keys (cp_pool p')) ∧
    (cp_stop p = true → k' = k ∧ p' = p ∧ r = inr FailedPrecondition) ∧
    (cp_stop p = false → ∃ fd, r = inl fd ∧
      owns k' X ((if 0 <=? fd then [(fd, connected peer)] else []) ++ pool_cells (cp_pool p') ++ cs) ∧
      (fd = -1 ∨ 0 ≤ fd ∧ ∃ k1, HasReadableData k1 fd = (k', false))).
Proof.
  intros Ha Ho. unfold Borrow_locked. destruct (cp_stop p) eqn:Hs.
  { eexists k, p, _. by do 3 (split; [done|]). }
  set (key := GenPoolKey peer local_ip). destruct (cp_pool p !! key) as [fds|] eqn:Hk.
  2:{ eexists k, p, _. do 4 (split; [done|]). intros _. exists (-1). split; [done|]. split; [done|]. by left. }
  assert (kcells key (reverse fds) ++ pool_cells (delete key (cp_pool p)) ++ cs ≡ₚ pool_cells (cp_pool p) ++ cs) as E.
  { rewrite (pool_cells_lookup _ _ _ Hk), <- app_assoc. unfold kcells. by rewrite reverse_Permutation. }
  rewrite <- E in Ho. destruct (reuse_loop_ok X _ key (reverse fds) k Ho) as (k' & fd & rest & -> & Ho' & Hr). rewrite bind_Ok.
  eexists k', _, _. split; [done|]. split; [done|]. split; [by apply pool_keys_insert|]. split; [done|]. intros _. exists fd. split; [done|]. cbn [cp_pool].
  assert (kcells key rest ++ pool_cells (delete key (cp_pool p)) ++ cs ≡ₚ pool_cells (<[key := reverse rest]> (cp_pool p)) ++ cs) as E'.
  { rewrite pool_cells_insert, <- app_assoc. unfold kcells. by rewrite reverse_Permutation. }
  split; [|destruct Hr as [[? _]|?]; auto]. destruct (Z.leb_spec 0 fd) as [Hfd|Hfd]; cbn [app kcells fmap list_fmap] in Ho' |- *.
  - eapply owns_weaken in Ho'; [rewrite <- E'; exact Ho'|]. intros i (peer' & local' & Ek & Ha' & Hc).
    by destruct (GenPoolKey_peer _ _ _ _ Ha Ha' Ek) as [-> _].
  - by rewrite <- E'.
Qed.

Lemma Return_ok k X cs p ok fd peer local_ip : arrow_free peer → (cp_stop p = true → cp_pool p = ∅) →
  owns k X ((fd, connected peer) :: pool_cells (cp_pool p) ++ cs) →
  ∃ k' p', Return k p ok fd peer local_ip = Ok (k', p') ∧ cp_stop p' = cp_stop p ∧ (cp_stop p' = true → cp_pool p' = ∅) ∧
    (pool_keys (cp_pool p) → pool_keys (cp_pool p')) ∧ owns k' X (pool_cells (cp_pool p') ++ cs).
Proof.
  intros Ha Hst Ho. assert (0 ≤ fd) as Hfd by (destruct Ho as [_ Hf]; by apply Forall_cons in Hf as [? _]).
  unfold Return. rewrite (proj2 (Z.ltb_ge fd 0)), bind_dcheck by lia.
  destruct (CloseSocket_ok _ _ _ _ _ Ho) as (k1 & E1 & Ho1).
  destruct ok; cbn [negb]; [|rewrite E1, bind_Ok; by exists k1, p].
  destruct (cp_stop p) eqn:Hs; [rewrite E1, bind_Ok; exists k1, p; by rewrite Hs|].
  eexists k, _. do 3 (split; [done|]). cbn [cp_pool]. split; [by apply pool_keys_insert|]. set (key := GenPoolKey peer local_ip).
  rewrite pool_cells_insert. apply (owns_weaken _ _ _ _ _ (key_ok key)) in Ho.
  2:{ intros i Hi. by exists peer, local_ip. }
  revert Ho. rewrite (pool_cells_default _ key). unfold kcells. rewrite fmap_app. cbn [fmap list_fmap].
  apply owns_Proper. solve_Permutation.
Qed.

Lemma map_to_list_filter {A} (P : str * A → Prop) `{∀ x, Decision (P x)} (m : gmap str A) :
  map_to_list (filter P m) ≡ₚ filter P (map_to_list m).
Proof.
  rewrite map_filter_alt. apply map_to_list_to_map. eapply sublist_NoDup; [apply (NoDup_fst_map_to_list m)|].
  apply fmap_sublist, sublist_filter.
Qed.
(** The connections that [CloseIdle] takes are exactly those filed under keys with that
    suffix. *)
Lemma CloseIdle_locked_ok p peer p' fds : CloseIdle_locked p peer = (p', fds) →
  cp_stop p' = cp_stop p ∧ (cp_pool p = ∅ → cp_pool p' = ∅) ∧ (pool_keys (cp_pool p) → pool_keys (cp_pool p')) ∧ ∃ cs, pool_cells (cp_pool p) ≡ₚ pool_cells (cp_pool p') ++ cs ∧ cs.*1 = fds.
Proof.
  intros [= <- <-]. split; [done|]. cbn [cp_pool]. split; [intros ->; apply map_filter_empty|].
  split; [intros Hm key l [Hk _]%map_lookup_filter_Some; by eapply Hm|]. set (s := GenPoolKeySuffix peer).
  exists (pool_cells (filter (λ kv, EndsWith kv.1 s = true) (cp_pool p))). split.
  - unfold pool_cells. rewrite <- bind_app, !map_to_list_filter, Permutation_app_comm. apply bind_Permutation.
    rewrite <- (filter_app_complement (λ kv, EndsWith kv.1 s = true)) at 1. apply Permutation_app_head, Permutation_refl'.
    apply filter_ext_elem. intros [key l] _. by rewrite not_true_iff_false.
  - unfold pool_cells. induction (map_to_list _) as [|[key l] kvs IH]; [done|]. cbn [mbind list_bind]. rewrite fmap_app, IH.
    f_equal. unfold kcells. cbn [fst snd]. rewrite <- list_fmap_compose. apply list_fmap_id.
Qed.

Lemma owns_forget k X cs : ∀ rest, owns k X (cs ++ rest) → owns k X (any_cells cs.*1 ++ rest).
Proof.
  induction cs as [|[fd P] cs IH]; intros rest Ho; cbn [app fmap list_fmap any_cells] in *; [done|].
  apply (owns_weaken _ _ _ _ _ (λ _, True)) in Ho; [|done]. specialize (IH ((fd, λ _, True) :: rest)).
  assert (owns k X (cs ++ (fd, λ _, True) :: rest)) as Ho1%IH by (revert Ho; apply owns_Proper; solve_Permutation).
  revert Ho1. apply owns_Proper. solve_Permutation.
Qed.

Lemma Close_ok k X cs p : owns k X (pool_cells (cp_pool p) ++ cs) → ∃ k', Close k p = Ok (k', mkPool true ∅) ∧ owns k' X cs.
Proof.
  unfold Close, pool_cells. generalize (map_to_list (cp_pool p)) as kvs. intros kvs Ho.
  assert (∃ k', foreach close_fds k (snd <$> kvs) = Ok k' ∧ owns k' X cs) as (k' & -> & Ho'); [|rewrite bind_Ok; by exists k'].
  revert k Ho. induction kvs as [|[key fds] kvs IH]; intros k Ho; cbn [fmap list_fmap foreach mbind list_bind fst snd] in *; [by exists k|].
  rewrite <- app_assoc in Ho. destruct (close_fds_ok X _ (λ _, key_ok key) fds k Ho) as (k1 & -> & Ho1). rewrite bind_Ok. by apply IH.
Qed.

Lemma dial_ok k X cs peer local_ip psp channel k' r : owns k X cs → ConnectToPeer k peer local_ip psp channel = (k', r) →
  owns k' X (match r with inl fd => (fd, connected peer) :: cs | inr _ => cs end).
Proof.
  intros [Hh Hf] E%ConnectToPeer_ok. destruct r as [fd|e]; [|apply (owns_tab k); [apply E|by split]].
  destruct E as (Hfd & Hn & rps & rp & Hres & Hrp & Et). split; [|by constructor]. rewrite Et. apply holds_insert; [done|done|].
  split; [done|]. eexists. split; [done|]. by exists k, rps, rp.
Qed.

Lemma pool_exec_ok X σ a : users_ok X σ → act_ok a → ∃ σ', pool_exec σ a = Ok σ' ∧ users_ok X σ'.
Proof.
  destruct σ as [k p lent dialing closing]. intros [Ho Hst Hl Hd Hm] Ha. unfold user_cells in Ho. cbn in Ho, Hst, Hl, Hd.
  assert (Forall (λ x, arrow_free x.1.1.1) dialing) as Hd' by done.
  destruct a as [peer local_ip psp channel|i|i ok|peer|i|]; cbn [pool_exec act_ok] in *.
  - destruct (Borrow_locked_ok k X _ p peer local_ip Ha Ho) as (k' & p' & r & -> & Es & Hkeys & Hclosed & Hopen). rewrite bind_Ok.
    eexists. split; [done|]. destruct (cp_stop p) eqn:Hs.
    { destruct (Hclosed eq_refl) as (-> & -> & ->). split; cbn; try done. by rewrite Hs. }
    destruct (Hopen eq_refl) as (fd & -> & Ho' & _). destruct (0 <=? fd); split; cbn; try done; try congruence; try by constructor. all: auto.
    revert Ho'. apply owns_Proper. cbn. solve_Permutation.
  - destruct (dialing !! i) as [[[[peer local_ip] psp] channel]|] eqn:Hi; [|eexists; split; [done|]; by split].
    rewrite Forall_lookup in Hd'. pose proof (Hd' i _ Hi) as Hap. cbn in Hap.
    destruct (ConnectToPeer k peer local_ip psp channel) as [k' r] eqn:E. eexists. split; [done|].
    assert (Forall (λ x, arrow_free x.1.1.1) (delete i dialing)) as Hdd by (by apply Forall_delete).
    eapply dial_ok in E; [|exact Ho]. destruct r as [fd|e]; split; cbn; try done; [|by constructor].
    revert E. apply owns_Proper. cbn. solve_Permutation.
  - destruct (lent !! i) as [[fd [peer local_ip]]|] eqn:Hi; [|eexists; split; [done|]; by split].
    assert (owns k X ((fd, connected peer) :: pool_cells (cp_pool p) ++ lent_cells (delete i lent) ++ any_cells closing)) as Ho1.
    { revert Ho. apply owns_Proper. unfold lent_cells. rewrite (delete_cells _ lent i _ Hi). cbn. solve_Permutation. }
    assert (arrow_free peer) as Hap by (rewrite Forall_lookup in Hl; exact (Hl i _ Hi)).
    destruct (Return_ok k X _ p ok fd peer local_ip Hap Hst Ho1) as (k' & p' & -> & Es & Hst' & Hkeys & Ho'). rewrite bind_Ok.
    eexists. split; [done|]. split; cbn; auto. by apply Forall_delete.
  - destruct (CloseIdle_locked p peer) as [p' fds] eqn:E. apply CloseIdle_locked_ok in E as (Es & Hemp & Hkeys & cs & Ep & <-).
    eexists. split; [done|]. split; cbn; try done.
    + rewrite Ep in Ho. assert (owns k X (cs ++ pool_cells (cp_pool p') ++ lent_cells lent ++ any_cells closing)) as Ho1.
      { revert Ho. apply owns_Proper. solve_Permutation. }
      apply owns_forget in Ho1. revert Ho1. apply owns_Proper. unfold user_cells, any_cells. cbn [us_closing us_pool us_lent]. rewrite fmap_app. solve_Permutation.
    + rewrite Es. auto.
    + auto.
  - destruct (closing !! i) as [fd|] eqn:Hi; [|eexists; split; [done|]; by split].
    assert (owns k X ((fd, λ _, True) :: pool_cells (cp_pool p) ++ lent_cells lent ++ any_cells (delete i closing))) as Ho1.
    { revert Ho. apply owns_Proper. unfold any_cells. rewrite (delete_cells _ closing i _ Hi). cbn. solve_Permutation. }
    destruct (CloseSocket_ok _ _ _ _ _ Ho1) as (k' & -> & Ho'). rewrite bind_Ok. eexists. split; [done|]. by split.
  - destruct (Close_ok k X _ p Ho) as (k' & -> & Ho'). rewrite bind_Ok. eexists. split; [done|]. by split.
Qed.

Definition start k : users := mkUsers k ConnPool_new [] [] [].
Lemma pool_start_ok k : users_ok (ctab k) (start k).
Proof.
  split; [|done|constructor|constructor|intros key fds; cbn; by rewrite lookup_empty]. unfold user_cells, pool_cells. cbn. rewrite map_to_list_empty. cbn.
  split; [|constructor]. split; [constructor|by intros c Hc%elem_of_nil|cbn; set_solver|cbn; set_solver|done].
Qed.
Lemma pool_run_ok X acts : Forall act_ok acts → ∀ σ, users_ok X σ → ∃ σ', foreach pool_exec σ acts = Ok σ' ∧ users_ok X σ'.
Proof.
  intros Ha σ Hσ. destruct (foreach_ok pool_exec (λ l σ, Forall act_ok l ∧ users_ok X σ) acts σ) as (σ' & E & _ & Hσ'); [|done|by exists σ'].
  intros a l σ1 [[Ha1 Hl]%Forall_cons Hσ1]. destruct (pool_exec_ok X σ1 a Hσ1 Ha1) as (σ2 & -> & Hσ2). by exists σ2.
Qed.

(** The idle descriptors, and those for one pair of addresses. *)
Definition idle_fds (p : ConnPool) : list Z := map_to_list (cp_pool p) ≫= snd.
Definition idle_at (p : ConnPool) (peer local_ip : str) : list Z := default [] (cp_pool p !! GenPoolKey peer local_ip).

Lemma pool_cells_fds m : (pool_cells m).*1 = map_to_list m ≫= snd.
Proof.
  unfold pool_cells. induction (map_to_list m) as [|[key l] kvs IH]; [done|]. cbn [mbind list_bind]. rewrite fmap_app, IH.
  f_equal. unfold kcells. cbn [fst snd]. rewrite <- list_fmap_compose. apply list_fmap_id.
Qed.
Lemma user_cells_fds σ : (user_cells σ).*1 = idle_fds (us_pool σ) ++ (us_lent σ).*1 ++ us_closing σ.
Proof.
  unfold user_cells, idle_fds, lent_cells, any_cells. rewrite !fmap_app, pool_cells_fds, <- !list_fmap_compose. f_equal. f_equal. apply list_fmap_id.
Qed.

Lemma IdleCount_sum (f : str → bool) (kvs : list (str * list Z)) :
  foldr (λ kv count, if f kv.1 then count + Z.of_nat (length kv.2) else count) 0 kvs =
  Z.of_nat (length (filter (λ kv, f kv.1 = true) kvs ≫= snd)).
Proof.
  induction kvs as [|[key l] kvs IH]; [done|]. rewrite filter_cons. cbn [foldr fst snd]. rewrite IH.
  destruct (decide _) as [Hp|Hp]; cbn [fst] in Hp.
  - rewrite Hp. cbn [mbind list_bind snd]. rewrite length_app. lia.
  - by destruct (f key).
Qed.
Lemma IdleCount_taken p peer : IdleCount p peer = Z.of_nat (length (CloseIdle_locked p peer).2).
Proof.
  unfold IdleCount, CloseIdle_locked. cbn [snd]. rewrite map_to_list_filter.
  apply (IdleCount_sum (λ key, EndsWith key (GenPoolKeySuffix peer))).
Qed.
Lemma CloseIdle_view p peer p' fds : pool_keys (cp_pool p) → arrow_free peer → CloseIdle_locked p peer = (p', fds) →
  (∀ peer' local_ip, arrow_free peer' → idle_at p' peer' local_ip = if decide (peer' = peer) then [] else idle_at p peer' local_ip) ∧
  (∀ fd, fd ∈ fds ↔ ∃ local_ip, fd ∈ idle_at p peer local_ip).
Proof.
  intros Hm Ha [= <- <-]. split.
  - intros peer' local_ip Ha'. unfold idle_at. cbn [cp_pool]. rewrite map_lookup_filter.
    destruct (cp_pool p !! GenPoolKey peer' local_ip) as [l|]; cbn [mbind option_bind default from_option]; [|by destruct (decide _)].
    pose proof (EndsWith_key peer' local_ip peer Ha' Ha) as Ek. cbn [fst]. case_guard as Hg; destruct (decide (peer' = peer)) as [E|E]; cbn; try done; rewrite Ek in Hg.
    + by apply bool_decide_eq_false in Hg.
    + by rewrite bool_decide_eq_false_2 in Hg.
  - intros fd. rewrite list_elem_of_bind. setoid_rewrite elem_of_map_to_list'. split.
    + intros ([key l] & Hfd & [Hk He]%map_lookup_filter_Some). destruct (Hm key l Hk) as (peer' & local_ip & -> & Ha').
      cbn [fst] in He. rewrite EndsWith_key in He by done. apply bool_decide_eq_true in He as ->. exists local_ip. unfold idle_at. cbn [fst snd] in Hk, Hfd. by rewrite Hk.
    + intros (local_ip & Hfd). unfold idle_at in Hfd. destruct (cp_pool p !! _) as [l|] eqn:Hk; cbn in Hfd; [|by apply elem_of_nil in Hfd].
      exists (GenPoolKey peer local_ip, l). split; [done|]. apply map_lookup_filter_Some. split; [done|]. cbn [fst].
      rewrite EndsWith_key by done. by apply bool_decide_eq_true.
Qed.
End Users.

(** * Properties *)

Section Properties.
Context {K : Type} `{L : ConnLaws K} `{T : NetText}.

(** C37: no connection is lost or shared, whatever the order in which threads borrow, dial,
    give back, close idle connections and close the pool.  No assertion fails; the descriptors
    that were opened are exactly those that are idle, borrowed or about to be closed, each
    once, and no other descriptor is touched; whoever has borrowed a connection for a peer is
    connected to an address of that peer, without the timeout that bounded the connect.  Once
    the pool is closed nothing is idle, and when everything has been given back the table of
    descriptors is what it was. *)
Theorem ConnPool_no_leak (k : K) (acts : list pool_act) : Forall act_ok acts →
  ∃ σ, foreach pool_exec (start k) acts = Ok σ ∧
    let fds := idle_fds (us_pool σ) ++ (us_lent σ).*1 ++ us_closing σ in
    NoDup fds ∧ dom (ctab (us_k σ)) = list_to_set fds ∪ dom (ctab k) ∧ list_to_set fds ## dom (ctab k) ∧ ctab k ⊆ ctab (us_k σ) ∧
    (∀ fd peer local_ip, (fd, (peer, local_ip)) ∈ us_lent σ → ∃ i, ctab (us_k σ) !! fd = Some i ∧ connected (K := K) peer i) ∧
    (cp_stop (us_pool σ) = true → idle_fds (us_pool σ) = [] ∧ (us_lent σ = [] → us_closing σ = [] → ctab (us_k σ) = ctab k)).
Proof.
  intros Ha. destruct (pool_run_ok (ctab k) acts Ha (start k) (pool_start_ok k)) as (σ & E & [[Hh _] Hst _ _ _]). exists σ. split; [done|].
  pose proof Hh as [Hnd Hc Hd Hdj Hr]. rewrite user_cells_fds in Hnd, Hd, Hdj. cbn zeta. do 4 (split; [done|]). split.
  - intros fd peer local_ip Hin. apply (Hc (fd, connected peer)). unfold user_cells. rewrite !elem_of_app. right. left.
    exact (list_elem_of_fmap_2 (λ x, (x.1, connected x.2.1)) _ _ Hin).
  - intros Hs%Hst. assert (idle_fds (us_pool σ) = []) as Hi by (unfold idle_fds; by rewrite Hs, map_to_list_empty).
    split; [done|]. intros Hl Hcl. rewrite Hi, Hl, Hcl in Hd. cbn in Hd. symmetry.
    apply (map_subseteq_size_eq _ _ Hr). rewrite <- !size_dom, Hd. rewrite union_empty_l_L. lia.
Qed.

(** [CloseIdle] closes every idle connection to the peer, whatever local address it was
    bound to, and nothing else: it returns how many [IdleCount] reported, leaves the idle
    connections to other peers in the pool, and exactly the descriptors of the others stay
    open. *)
Theorem ConnPool_CloseIdle_exact (k : K) (acts : list pool_act) σ (peer : str) : Forall act_ok acts →
  foreach pool_exec (start k) acts = Ok σ → arrow_free peer →
  ∃ k' p', CloseIdle (us_k σ) (us_pool σ) peer = Ok (k', p', IdleCount (us_pool σ) peer) ∧
    (∀ peer' local_ip, arrow_free peer' → idle_at p' peer' local_ip = if decide (peer' = peer) then [] else idle_at (us_pool σ) peer' local_ip) ∧
    (∀ fd, fd ∈ dom (ctab k') ↔ fd ∈ dom (ctab (us_k σ)) ∧ ∀ local_ip, fd ∉ idle_at (us_pool σ) peer local_ip).
Proof.
  intros Ha E Hp. destruct (pool_run_ok (ctab k) acts Ha (start k) (pool_start_ok k)) as (σ1 & E1 & Hσ). rewrite E in E1. injection E1 as <-.
  destruct Hσ as [Ho _ _ _ Hm]. unfold CloseIdle. rewrite IdleCount_taken. destruct (CloseIdle_locked (us_pool σ) peer) as [p' fds] eqn:Ec.
  destruct (CloseIdle_view _ _ _ _ Hm Hp Ec) as [Hv Hfds]. apply CloseIdle_locked_ok in Ec as (_ & _ & _ & cs & Ep & <-).
  unfold user_cells in Ho. rewrite Ep in Ho. set (rest := lent_cells (us_lent σ) ++ any_cells (us_closing σ)) in *.
  assert (owns (us_k σ) (ctab k) (any_cells cs.*1 ++ pool_cells (cp_pool p') ++ rest)) as Ho1.
  { apply owns_forget. revert Ho. apply owns_Proper. solve_Permutation. }
  destruct (close_fds_ok _ _ (λ _ _, True) _ _ Ho1) as (k' & -> & Ho2). rewrite bind_Ok. exists k', p'. split; [done|]. split; [done|].
  destruct Ho1 as [[Hnd _ Hd1 Hdj _] _], Ho2 as [[_ _ Hd2 _ _] _]. intros fd. rewrite Hd1, Hd2.
  assert ((any_cells cs.*1 ++ pool_cells (cp_pool p') ++ rest).*1 = cs.*1 ++ (pool_cells (cp_pool p') ++ rest).*1) as Ef.
  { rewrite fmap_app. f_equal. unfold any_cells. rewrite <- list_fmap_compose. apply list_fmap_id. }
  rewrite Ef in Hnd, Hdj |- *. apply NoDup_app in Hnd as (_ & Hnd & _).
  rewrite !list_to_set_app_L, !elem_of_union, !elem_of_list_to_set in *. split.
  - intros Hin. split; [tauto|]. intros local_ip Hi. assert (fd ∈ cs.*1) as Hcs by (apply Hfds; by exists local_ip).
    destruct Hin as [Hin|Hin]; [by apply (Hnd fd)|]. apply (Hdj fd); [|done]. apply elem_of_union. left. by apply elem_of_list_to_set.
  - intros [[[Hcs|Hin]|Hin] Hn]; [|tauto..]. apply Hfds in Hcs as [local_ip Hi]. by destruct (Hn local_ip).
Qed.
End Properties.

(** * Examples *)

Lemma arrow_free_char s : ">"%char ∉ s → arrow_free s.
Proof. intros Hn a b ->. apply Hn. rewrite !elem_of_app. right. left. apply (list_elem_of_In (A := ascii)). vm_compute. tauto. Qed.

Definition ex_peer : str := lit "peer:80".
Definition ex_local (n : nat) : str := lit (if (n =? 0)%nat then "10.0.0.1" else "10.0.0.2").
Definition ex_borrow (n : nat) : list pool_act := [ABorrow ex_peer (ex_local n) false false; ADial 0].
(** Connections on both local addresses; the first is given back and borrowed again. *)
Definition ex_acts : list pool_act :=
  ex_borrow 0 ++ ex_borrow 1 ++ [AReturn 1 true; AReturn 0 true; ABorrow ex_peer (ex_local 0) false false].
Definition ex_end : list pool_act := [ACloseIdle ex_peer; AClose; AReturn 0 true; ACloseOne 0].
Definition ex_run (acts : list pool_act) : option (list Z * list Z * list Z * nat) :=
  match foreach (pool_exec (T := HexText.text)) (start (csim_start [])) acts with
  | Ok σ => Some (idle_fds (us_pool σ), (us_lent σ).*1, us_closing σ, size (cs_tab (us_k σ)))
  | Fault _ => None
  end.
Example ex_reused : ex_run ex_acts = Some ([6], [5], [], 2%nat).
Proof. vm_compute. reflexivity. Qed.
Example ex_closed : ex_run (ex_acts ++ ex_end) = Some ([], [], [], 0%nat).
Proof. vm_compute. reflexivity. Qed.
(** A connection with something to read is not given out again. *)
Example ex_readable :
  match Borrow (T := HexText.text) (mkCsim {[5 := mkCfd None 0; 6 := mkCfd None 0]} 7 [] {[6]} []) (mkPool false {[GenPoolKey ex_peer [] := [5; 6]]}) ex_peer [] false false with
  | Ok (k, p, r) => Some (r, size (cs_tab k), idle_fds p)
  | Fault _ => None
  end = Some (inl 5, 1%nat, []).
Proof. vm_compute. reflexivity. Qed.
(** Why peers must not contain the arrow. *)
Example arrow_in_peer : EndsWith (GenPoolKey (lit "a->b:1") (lit "10.0.0.1")) (GenPoolKeySuffix (lit "b:1")) = true.
Proof. vm_compute. reflexivity. Qed.

Lemma ex_peer_free : arrow_free ex_peer.
Proof. apply arrow_free_char, (bool_decide_unpack _). vm_compute. exact I. Qed.
Lemma ex_acts_ok : Forall act_ok (ex_acts ++ ex_end).
Proof. unfold ex_acts, ex_end, ex_borrow. cbn [app]. repeat (constructor; [first [exact ex_peer_free|exact I]|]). constructor. Qed.

Lemma ConnPool_no_leak_witness : ∃ σ, foreach (pool_exec (T := HexText.text)) (start (csim_start [])) (ex_acts ++ ex_end) = Ok σ ∧
  ctab (us_k σ) = ∅ ∧ cp_stop (us_pool σ) = true.
Proof.
  destruct (ConnPool_no_leak (T := HexText.text) (csim_start []) (ex_acts ++ ex_end) ex_acts_ok) as (σ & E & _ & _ & _ & _ & _ & Hend).
  assert (match foreach (pool_exec (T := HexText.text)) (start (csim_start [])) (ex_acts ++ ex_end) with
    | Ok σ => cp_stop (us_pool σ) && bool_decide (us_lent σ = []) && bool_decide (us_closing σ = []) | Fault _ => false end = true) as Hs by (vm_compute; reflexivity).
  rewrite E in Hs. apply andb_prop in Hs as [[Hs Hl%bool_decide_eq_true]%andb_prop Hc%bool_decide_eq_true].
  exists σ. split; [exact E|]. split; [|exact Hs]. exact (proj2 (Hend Hs) Hl Hc).
Defined.
Lemma ConnPool_CloseIdle_exact_witness : ∃ σ k' p', foreach (pool_exec (T := HexText.text)) (start (csim_start [])) ex_acts = Ok σ ∧
  CloseIdle (us_k σ) (us_pool σ) ex_peer = Ok (k', p', 1) ∧ idle_at p' ex_peer (ex_local 1) = [].
Proof.
  assert (Forall act_ok ex_acts) as Ha by (pose proof ex_acts_ok as Ha; apply Forall_app in Ha; exact (proj1 Ha)).
  destruct (pool_run_ok (T := HexText.text) (ctab (csim_start [])) ex_acts Ha (start (csim_start [])) (pool_start_ok (csim_start []))) as (σ & E & _).
  destruct (ConnPool_CloseIdle_exact (T := HexText.text) (csim_start []) ex_acts σ ex_peer Ha E ex_peer_free) as (k' & p' & Ec & Hv & _).
  assert (match foreach (pool_exec (T := HexText.text)) (start (csim_start [])) ex_acts with
    | Ok σ => IdleCount (us_pool σ) ex_peer | Fault _ => 0 end = 1) as Hs by (vm_compute; reflexivity).
  rewrite E in Hs. rewrite Hs in Ec. exists σ, k', p'. split; [exact E|]. split; [exact Ec|].
  rewrite (Hv ex_peer (ex_local 1) ex_peer_free), decide_True by reflexivity. reflexivity.
Defined.
