(* ===== verification/IpUtil.v ===== *)
(** Whether the kernel routes from a source address to a peer, the v1 version of [Route]:
    [api/v1/ip_util.cc].  Addresses are text, names are resolved, and errors are reported; the
    messages and their macros are those of [Route].

    The C library and the netlink socket are the parameter [IpSystem].  A raw address is an
    [IpAddr]: its family and bytes. *)

From Stdlib Require Import Ascii String.
From stdpp Require Import base tactics numbers gmap fin_maps sets list list_numbers.
From S2P Require Import Prelude Codec IpAddr Endpoint HostInfo Nic Socket Route PciTopology Types IpResolve ConnUtil.
Local Open Scope Z_scope.

Definition NLMSG_ERROR : Z := 2.

(** Results are followed by [errno]. *)
Class IpSystem (S : Type) := {
  ip_getaddrinfo : S → str → str → bool → Z * list addrinfo;     (* the flag is AI_NUMERICHOST *)
  ip_getifaddrs : S → list (str * option sockaddr) + Z;          (* an error is errno *)
  ip_nametoindex : S → str → Z * Z;
  ip_nl_socket : S → S * Z * Z;
  ip_nl_send : S → Z → bytes → S * Z * Z;
  ip_nl_recv : S → Z → S * Z * Z * bytes;                        (* the buffer after the call *)
  ip_nl_close : S → Z → S;
  ip_ErrnoToStatus : Z → StatusCode;
}.

(** * Addresses *)

(** This file's copy of the function of [conn_util.cc]. *)
Definition ip_SplitHostPort (peer : str) : StatusOr (str * str) := SplitHostPort peer.

Section Ops.
Context {S : Type} `{IpSystem S} `{T : NetText}.

Definition ParseIpAddress (ip : str) : StatusOr IpAddr :=
  match inet_pton4 ip with
  | Some b => inl (IPv4 b)
  | None => match inet_pton6 ip with Some b => inl (IPv6 b) | None => inr InvalidArgument end
  end.

(** [RawIpAddress::IsLoopback]; unlike [IpAddr::IsLoopback] it does not know mapped addresses. *)
Definition Raw_IsLoopback (a : IpAddr) : bool :=
  match a with
  | IPv4 b => byte_at b 0 =? 127
  | IPv6 b => bool_decide (b = replicate 15 0 ++ [1])
  end.

(** [SockaddrAddressBytes] of an address of [family]. *)
Definition SockaddrAddressBytes (sa : sockaddr) (family : Z) : option IpAddr :=
  match sa with
  | sockaddr_in _ b => if family =? AF_INET then Some (IPv4 b) else None
  | sockaddr_in6 _ b => if family =? AF_INET6 then Some (IPv6 b) else None
  | sockaddr_other _ => None
  end.

(** The loop over the resolved addresses. *)
Fixpoint first_of_family (rps : list addrinfo) (family : Z) : option IpAddr :=
  match rps with
  | [] => None
  | rp :: rps => if negb (ai_family rp =? family) then first_of_family rps family else SockaddrAddressBytes (ai_addr rp) family
  end.
Definition ResolvePeerAddress (sys : S) (host port : str) (family : Z) : StatusOr (option IpAddr) :=
  let '(ret, result) := ip_getaddrinfo sys host port true in
  let '(ret, result) := if ret =? EAI_NONAME then ip_getaddrinfo sys host port false else (ret, result) in
  if negb (ret =? 0) || bool_decide (result = []) then inr InvalidArgument
  else inl (first_of_family result family).

Fixpoint owning_loop (sys : S) (ifas : list (str * option sockaddr)) (address : IpAddr) : StatusOr Z :=
  match ifas with
  | [] => inr NotFound
  | (name, ifa_addr) :: ifas =>
      match ifa_addr ≫= λ sa, SockaddrAddressBytes sa (AddressFamily address) with
      | None => owning_loop sys ifas address
      | Some a =>
          if negb (bool_decide (a = address)) then owning_loop sys ifas address
          else
            let '(index, err) := ip_nametoindex sys name in
            if index =? 0 then inr (ip_ErrnoToStatus err) else inl (swrap 32 index)
      end
  end.
Definition OwningInterfaceIndex (sys : S) (address : IpAddr) : StatusOr Z :=
  match ip_getifaddrs sys with
  | inr err => inr (ip_ErrnoToStatus err)
  | inl ifa_list => owning_loop sys ifa_list address
  end.

(** * Netlink *)

Definition AppendRouteAttribute (b : bytes) (type : Z) (ip : IpAddr) : res bytes := AppendRouteAttr b type ip.

Definition v1_request (source peer : IpAddr) : res bytes :=
  let nlh := le_store 4 (NLMSG_LENGTH sizeof_rtmsg) ++ le_store 2 RTM_GETROUTE ++ le_store 2 NLM_F_REQUEST ++ le_store 4 1 ++ le_store 4 0 in
  let prefix_bits ip := (RawAddrAndLen ip).2 * 8 in
  let rtm := [u8 (AddressFamily source); u8 (prefix_bits peer); u8 (prefix_bits source); 0; 0; 0; 0; 0] ++ le_store 4 0 in
  let r := nlh ++ rtm ++ replicate (Z.to_nat sizeof_attrs) 0 in
  let* r := AppendRouteAttribute r RTA_DST peer in
  AppendRouteAttribute r RTA_SRC source.

Fixpoint v1_attr_loop (fuel : nat) (b : bytes) (rta attr_len : Z) : res (option Z) :=
  match fuel with
  | O => Fault Blocked
  | Datatypes.S fuel =>
      let* (ok : bool) := RTA_OK b rta attr_len in
      if negb ok then Ok None
      else
        let* rta_len := load 2 b rta in
        let* rta_type := load 2 b (rta + 2) in
        if negb (rta_type =? RTA_OIF) then v1_attr_loop fuel b (rta + align4 rta_len) (attr_len - align4 rta_len)
        else let* oif := load 4 b (rta + RTA_LENGTH 0) in Ok (Some (swrap 32 oif))
  end.

Fixpoint v1_msg_loop (fuel : nat) (b : bytes) (nlh remaining : Z) : res (StatusOr Z) :=
  match fuel with
  | O => Fault Blocked
  | Datatypes.S fuel =>
      let* (ok : bool) := NLMSG_OK b nlh remaining in
      if negb ok then Ok (inr Internal)
      else
        let* nlmsg_len := load 4 b nlh in
        let next := v1_msg_loop fuel b (nlh + align4 nlmsg_len) (remaining - align4 nlmsg_len) in
        let* nlmsg_type := load 2 b (nlh + 4) in
        if nlmsg_type =? NLMSG_ERROR then
          let* error := load 4 b (nlh + NLMSG_LENGTH 0) in
          if error =? 0 then next else Ok (inr (ip_ErrnoToStatus (- swrap 32 error)))
        else if negb (nlmsg_type =? RTM_NEWROUTE) then next
        else
          let attr_len := nlmsg_len - NLMSG_LENGTH sizeof_rtmsg in
          let* r := v1_attr_loop (Datatypes.S (Z.to_nat attr_len)) b (nlh + NLMSG_LENGTH sizeof_rtmsg) attr_len in
          Ok (match r with Some oif => inl oif | None => inr Internal end)
  end.

Fixpoint v1_recv (fuel : nat) (sys : S) (fd : Z) : res (S * Z * Z * bytes) :=
  match fuel with
  | O => Fault Blocked
  | Datatypes.S fuel =>
      let '(sys, reply_len, err, reply) := ip_nl_recv sys fd in
      if (reply_len <? 0) && (err =? EINTR) then v1_recv fuel sys fd else Ok (sys, reply_len, err, reply)
  end.
Definition RouteEgressInterfaceIndex (fuel : nat) (sys : S) (source peer : IpAddr) : res (S * StatusOr Z) :=
  let '(sys, fd, err) := ip_nl_socket sys in
  if fd <? 0 then Ok (sys, inr (ip_ErrnoToStatus err))
  else
    let* request := v1_request source peer in
    let* nlmsg_len := load 4 request 0 in
    let '(sys, sent, err) := ip_nl_send sys fd (take (Z.to_nat nlmsg_len) request) in
    if sent <? 0 then Ok (ip_nl_close sys fd, inr (ip_ErrnoToStatus err))
    else
      let* '(sys, reply_len, err, reply) := v1_recv fuel sys fd in
      if reply_len <? 0 then Ok (ip_nl_close sys fd, inr (ip_ErrnoToStatus err))
      else
        let* r := v1_msg_loop (Datatypes.S (Z.to_nat reply_len)) reply 0 reply_len in
        Ok (ip_nl_close sys fd, r).

(** * The check and its cache *)

Definition ComputeSourceIpRoutesToPeer (fuel : nat) (sys : S) (source_ip peer : str) : res (S * StatusOr bool) :=
  match ip_SplitHostPort peer with
  | inr e => Ok (sys, inr e)
  | inl (host, port) =>
      match ParseIpAddress source_ip with
      | inr e => Ok (sys, inr e)
      | inl source =>
          match ResolvePeerAddress sys host port (AddressFamily source) with
          | inr e => Ok (sys, inr e)
          | inl None => Ok (sys, inl false)
          | inl (Some peer_address) =>
              if Raw_IsLoopback source && Raw_IsLoopback peer_address then Ok (sys, inl true)
              else match OwningInterfaceIndex sys source with
              | inr e => Ok (sys, inr e)
              | inl owning_ifindex =>
                  let* '(sys, egress) := RouteEgressInterfaceIndex fuel sys source peer_address in
                  Ok (sys, match egress with inr e => inr e | inl egress_ifindex => inl (egress_ifindex =? owning_ifindex) end)
              end
          end
      end
  end.

Abbreviation RouteCache := (gmap (str * str) bool).
(** The two parts under the mutex with the computation between them. *)
Definition cache_find (routes : RouteCache) (key : str * str) : option bool := routes !! key.
Definition cache_emplace (routes : RouteCache) (key : str * str) (b : bool) : RouteCache :=
  match routes !! key with Some _ => routes | None => <[key := b]> routes end.
Definition SourceIpRoutesToPeer (fuel : nat) (sys : S) (routes : RouteCache) (source_ip peer : str) : res (S * RouteCache * StatusOr bool) :=
  let key := (source_ip, peer) in
  match cache_find routes key with
  | Some b => Ok (sys, routes, inl b)
  | None =>
      let* '(sys, r) := ComputeSourceIpRoutesToPeer fuel sys source_ip peer in
      match r with
      | inr e => Ok (sys, routes, inr e)
      | inl b => Ok (sys, cache_emplace routes key b, inl b)
      end
  end.
Definition TestOnly_ClearRouteCache (routes : RouteCache) : RouteCache := ∅.
Definition TestOnly_RouteCacheSize (routes : RouteCache) : Z := Z.of_nat (size routes).
End Ops.

(** * Agreement with the other parser *)

Section Agreement.
Context {S : Type} `{IpSystem S}.

Lemma v1_attr_loop_shift fuel p x k len : 0 ≤ k → v1_attr_loop fuel (p ++ x) (size_of p + k) len = v1_attr_loop fuel x k len.
Proof.
  revert k len. induction fuel as [|fuel IH]; intros k len Hk; [done|]. cbn [v1_attr_loop].
  unfold RTA_OK, RTA_LENGTH, sizeof_rtattr. rewrite load_shift by lia.
  destruct (_ <=? len); [|done]. destruct (load 2 x k) as [l|] eqn:El; [|done].
  cbn [mbind res_bind]. destruct (Z.leb_spec 4 l); [|done]. pose proof (align4_spec l).
  rewrite <-!Z.add_assoc, !load_shift, IH by lia. done.
Qed.

(** Attributes whose output interface is complete. *)
Definition oif_full (a : Z * bytes) : Prop := a.1 = RTA_OIF → 4 ≤ size_of a.2.

(** One step of either loop at an encoded attribute. *)
Lemma attr_step a rest total : attr_wf a → align4 (RTA_LENGTH (size_of a.2)) ≤ total →
  let b := encode_attr a ++ rest in
  RTA_OK b 0 total = Ok true ∧ load 2 b 0 = Ok (RTA_LENGTH (size_of a.2)) ∧ load 2 b (0 + 2) = Ok a.1 ∧
  (4 ≤ size_of a.2 → load 4 b (0 + RTA_LENGTH 0) = Ok (le_load (take 4 a.2))).
Proof.
  intros [Ht Hl] Htot b. set (len := RTA_LENGTH (size_of a.2)) in *. pose proof (align4_spec len) as [Ha _].
  assert (4 ≤ len) by (unfold len, RTA_LENGTH, sizeof_rtattr, size_of; lia).
  assert (b = le_store 2 len ++ le_store 2 a.1 ++ a.2 ++ pad (size_of a.2) ++ rest) as Eb by (unfold b, encode_attr; by rewrite <- !app_assoc).
  assert (load 2 b 0 = Ok len) as El by (rewrite Eb; by apply load_head).
  split; [|split; [done|split]].
  - unfold RTA_OK, sizeof_rtattr. rewrite (proj2 (Z.leb_le 4 total)), El by lia. cbn [mbind res_bind].
    by rewrite (proj2 (Z.leb_le 4 len)), (proj2 (Z.leb_le len total)) by lia.
  - rewrite Eb, (load_next 2 2) by lia. by apply load_head.
  - intros H4. rewrite Eb, !load_next by (unfold RTA_LENGTH, sizeof_rtattr; lia).
    rewrite load_ok; [|done|rewrite length_app; unfold size_of in *; unfold RTA_LENGTH, sizeof_rtattr; lia].
    change (Z.to_nat (0 + RTA_LENGTH 0 - Z.of_nat 2 - Z.of_nat 2)) with 0%nat. rewrite drop_0, take_app_le by (unfold size_of in *; lia). done.
Qed.

Lemma v1_attr_loop_encode attrs rest fuel : Forall attr_wf attrs → Forall oif_full attrs → size_of (encode_attrs attrs) < Z.of_nat fuel →
  v1_attr_loop fuel (encode_attrs attrs ++ rest) 0 (size_of (encode_attrs attrs)) = Ok (head (omap attr_oif attrs)).
Proof.
  intros Hwf. revert fuel. induction Hwf as [|a attrs Hw _ IH]; intros [|fuel] Hf Hs; try (unfold size_of in Hs; lia); [done|].
  apply Forall_cons in Hf as [Hfull Hf]. change (encode_attrs (a :: attrs)) with (encode_attr a ++ encode_attrs attrs) in *.
  rewrite size_of_app, encode_attr_size in *. rewrite <- app_assoc. set (len := RTA_LENGTH (size_of a.2)) in *.
  pose proof (align4_spec len) as [Ha _]. assert (4 ≤ len) by (unfold len, RTA_LENGTH, sizeof_rtattr, size_of; lia).
  assert (0 ≤ size_of (encode_attrs attrs)) by (unfold size_of; lia).
  destruct (attr_step a (encode_attrs attrs ++ rest) (align4 len + size_of (encode_attrs attrs)) Hw) as (Eok & El & Et & Eo); [fold len; lia|].
  cbn [v1_attr_loop]. rewrite Eok, bind_Ok. cbn [negb]. rewrite El, bind_Ok, Et, bind_Ok. fold len.
  change (omap attr_oif (a :: attrs)) with (match attr_oif a with Some x => x :: omap attr_oif attrs | None => omap attr_oif attrs end).
  unfold attr_oif at 1. unfold oif_full in Hfull. destruct (Z.eqb_spec a.1 RTA_OIF) as [E|E]; cbn [negb andb].
  - specialize (Hfull E). rewrite Eo, bind_Ok by done. by rewrite (proj2 (Z.leb_le 4 (size_of a.2))).
  - rewrite Z.add_0_l, Z.add_simpl_l. pose proof (encode_attr_size a) as Hsz. fold len in Hsz. rewrite <- Hsz.
    rewrite <- (Z.add_0_r (size_of (encode_attr a))), v1_attr_loop_shift by lia. apply IH; [done|lia].
Qed.

Lemma v1_attr_answer m attrs rest : answer_wf (m, attrs) → is_answer m = true → Forall oif_full attrs →
  let attr_len := NLMSG_LENGTH (size_of (m_body m)) - NLMSG_LENGTH sizeof_rtmsg in
  v1_attr_loop (Datatypes.S (Z.to_nat attr_len)) (encode_msg m ++ rest) (NLMSG_LENGTH sizeof_rtmsg) attr_len = Ok (head (omap attr_oif attrs)).
Proof.
  intros [_ Hb] Ha Hfull. destruct (Hb Ha) as (rtm & Hrtm & Hbody & Hwf). cbn [fst snd] in *. cbv zeta. unfold encode_msg.
  rewrite Hbody, size_of_app, Hrtm. set (hdr := le_store 4 (NLMSG_LENGTH _)). set (padding := pad _).
  set (p := hdr ++ le_store 2 (m_type m) ++ le_store 2 (m_flags m) ++ le_store 4 (m_seq m) ++ le_store 4 (m_pid m) ++ rtm).
  assert (∀ x, (hdr ++ le_store 2 (m_type m) ++ le_store 2 (m_flags m) ++ le_store 4 (m_seq m) ++ le_store 4 (m_pid m) ++
    (rtm ++ encode_attrs attrs) ++ x) ++ rest = p ++ encode_attrs attrs ++ x ++ rest) as Ep by (intros x; unfold p; by rewrite <- !app_assoc).
  assert (size_of p = NLMSG_LENGTH sizeof_rtmsg) as Hp by (unfold p, hdr; by rewrite !size_of_app, !size_of_store, Hrtm).
  rewrite Ep. replace (NLMSG_LENGTH (sizeof_rtmsg + size_of (encode_attrs attrs)) - NLMSG_LENGTH sizeof_rtmsg)
    with (size_of (encode_attrs attrs)) by (unfold NLMSG_LENGTH; lia).
  replace (NLMSG_LENGTH sizeof_rtmsg) with (size_of p + 0) by lia. rewrite v1_attr_loop_shift by done.
  apply v1_attr_loop_encode; [done|done|]. unfold size_of. lia.
Qed.

(** The fields of the first message. *)
Lemma first_message m rest total : msg_wf m → align4 (NLMSG_LENGTH (size_of (m_body m))) ≤ total →
  NLMSG_OK (encode_msg m ++ rest) 0 total = Ok true ∧ load 4 (encode_msg m ++ rest) 0 = Ok (NLMSG_LENGTH (size_of (m_body m))) ∧
  load 2 (encode_msg m ++ rest) (0 + 4) = Ok (m_type m).
Proof.
  intros (Ht & Hfl & Hs & Hp & Hl) Htot. set (len := NLMSG_LENGTH (size_of (m_body m))) in *. pose proof (align4_spec len) as [Ha _].
  assert (16 ≤ len) by (unfold len, NLMSG_LENGTH, sizeof_nlmsghdr, size_of; lia).
  assert (load 4 (encode_msg m ++ rest) 0 = Ok len) as El by (unfold encode_msg; rewrite <- !app_assoc; by apply load_head).
  split; [|split; [done|]].
  - unfold NLMSG_OK, sizeof_nlmsghdr. rewrite (proj2 (Z.leb_le 16 total)), El by lia. cbn [mbind res_bind].
    by rewrite (proj2 (Z.leb_le 16 len)), (proj2 (Z.leb_le len total)) by lia.
  - unfold encode_msg. rewrite <- !app_assoc, load_next by lia. by apply load_head.
Qed.

(** C40: the two parsers of the kernel's reply agree where the kernel keeps its format.  When
    the reply starts with the kernel's answer to the request, whose output interface, if it
    is there, is complete, then the v1 parser returns that interface, whatever messages follow
    and whatever the unused rest of its buffer holds, and the parser of [internal/routing]
    returns the same; without an interface the v1 parser reports an internal error. *)
Theorem v1_parser_agrees (m : nlmsg) (attrs : list (Z * bytes)) (xs : list (nlmsg * list (Z * bytes))) (stale : bytes) (fuel : nat) :
  answer_wf (m, attrs) → is_answer m = true → Forall oif_full attrs → Forall answer_wf xs → (0 < fuel)%nat →
  let reply := encode_reply ((m, attrs) :: xs) in
  v1_msg_loop fuel (reply ++ stale) 0 (size_of reply) =
    Ok (match head (omap attr_oif attrs) with Some oif => inl oif | None => inr Internal end) ∧
  (∀ oif, head (omap attr_oif attrs) = Some oif → parse_reply reply = Ok (Some oif)).
Proof.
  intros Hm Ha Hfull Hxs Hfuel reply. destruct fuel as [|fuel]; [lia|]. split.
  - assert (size_of reply = size_of (encode_msg m) + size_of (encode_reply xs)) as Hsz by (apply size_of_app).
    assert (0 ≤ size_of (encode_reply xs)) by (unfold size_of; lia). pose proof (encode_msg_size m) as Hem.
    assert (reply ++ stale = encode_msg m ++ (encode_reply xs ++ stale)) as -> by (unfold reply; cbn; by rewrite <- app_assoc).
    destruct (first_message m (encode_reply xs ++ stale) (size_of reply) (proj1 Hm)) as (Eok & El & Et); [lia|].
    cbn [v1_msg_loop]. rewrite Eok, bind_Ok. cbn [negb]. rewrite El, bind_Ok, Et, bind_Ok.
    assert (m_type m = RTM_NEWROUTE) as -> by (unfold is_answer in Ha; lia).
    change (RTM_NEWROUTE =? NLMSG_ERROR) with false. change (negb (RTM_NEWROUTE =? RTM_NEWROUTE)) with false. cbn beta iota.
    pose proof (v1_attr_answer m attrs (encode_reply xs ++ stale) Hm Ha Hfull) as Hv. cbv zeta in Hv. by rewrite Z.add_0_l, Hv, bind_Ok.
  - intros oif Ho. unfold parse_reply. change (Z.of_nat (length reply)) with (size_of reply). unfold reply.
    rewrite msg_loop_encode; [|by constructor|unfold size_of; lia].
    change (omap answer_oif ((m, attrs) :: xs)) with (match answer_oif (m, attrs) with Some x => x :: omap answer_oif xs | None => omap answer_oif xs end).
    unfold answer_oif. cbn [fst snd]. by rewrite Ha, Ho.
Qed.
End Agreement.

(** * Properties of the lookup *)

Section Lookup.
Context {S : Type} `{IpSystem S} `{T : NetText}.

(** Errors are not remembered, answers are, and an entry that is there is never changed. *)
Lemma SourceIpRoutesToPeer_cache fuel (sys : S) routes source_ip peer sys' routes' r :
  SourceIpRoutesToPeer fuel sys routes source_ip peer = Ok (sys', routes', r) →
  (∀ key b, routes !! key = Some b → routes' !! key = Some b) ∧
  (∀ key, key ≠ (source_ip, peer) → routes' !! key = routes !! key) ∧
  match r with inl b => routes' !! (source_ip, peer) = Some b | inr _ => routes' = routes end.
Proof.
  unfold SourceIpRoutesToPeer, cache_find, cache_emplace. destruct (routes !! (source_ip, peer)) as [b|] eqn:Hk; [by intros [= _ <- <-]|].
  intros ([sys1 r1] & _ & E)%bind_Ok_inv. destruct r1 as [b|e]; injection E as _ <- <-; [|done].
  split; [|split; [|apply lookup_insert_eq]].
  - intros key b' Hb. rewrite lookup_insert_ne; [done|]. congruence.
  - intros key Hne. by apply lookup_insert_ne.
Qed.

(** The verdict is about the first address of the peer in the family of the source. *)
Lemma ComputeSourceIpRoutesToPeer_true fuel (sys : S) source_ip peer sys' :
  ComputeSourceIpRoutesToPeer fuel sys source_ip peer = Ok (sys', inl true) →
  ∃ host port source address, SplitHostPort peer = inl (host, port) ∧ ParseIpAddress source_ip = inl source ∧
    ResolvePeerAddress sys host port (AddressFamily source) = inl (Some address) ∧
    (Raw_IsLoopback source = true ∧ Raw_IsLoopback address = true ∨
     ∃ i, OwningInterfaceIndex sys source = inl i ∧ RouteEgressInterfaceIndex fuel sys source address = Ok (sys', inl i)).
Proof.
  unfold ComputeSourceIpRoutesToPeer, ip_SplitHostPort. destruct (SplitHostPort peer) as [[host port]|] eqn:Es; [|done].
  destruct (ParseIpAddress source_ip) as [source|] eqn:Ep; [|done].
  destruct (ResolvePeerAddress sys host port (AddressFamily source)) as [[address|]|] eqn:Er; [|done..].
  intros E. exists host, port, source, address. do 3 (split; [done|]). destruct (Raw_IsLoopback source && Raw_IsLoopback address) eqn:El.
  { left. by apply andb_prop in El. }
  right. destruct (OwningInterfaceIndex sys source) as [i|]; [|done]. exists i. split; [done|].
  apply bind_Ok_inv in E as ([sys1 egress] & -> & E). destruct egress as [j|]; [|done]. injection E as <- E. by apply Z.eqb_eq in E as ->.
Qed.
End Lookup.

(** * Examples *)

(** The netlink socket answers with [is_reply] in a buffer of 8192 bytes; the peer is 10.0.0.9
    and the interface of 10.0.0.1 has index 2. *)
Record ipsim := mkIpsim { is_reply : bytes; is_open : list Z }.
#[export] Instance ipsim_system : IpSystem ipsim := {|
  ip_getaddrinfo _ _ _ numeric := if numeric : bool then (EAI_NONAME, []) else (0, [mkAddrinfo AF_INET SOCK_STREAM 0 (sockaddr_in 0 [10; 0; 0; 9])]);
  ip_getifaddrs _ := inl [(lit "lo", None); (lit "e0", Some (sockaddr_in 0 [10; 0; 0; 1]))];
  ip_nametoindex _ _ := (2, 0);
  ip_nl_socket s := (mkIpsim (is_reply s) (3 :: is_open s), 3, 0);
  ip_nl_send s _ b := (s, Z.of_nat (length b), 0);
  ip_nl_recv s _ := (s, Z.of_nat (length (is_reply s)), 0, take (Z.to_nat sizeof_reply) (is_reply s ++ replicate (Z.to_nat sizeof_reply) 170));
  ip_nl_close s fd := mkIpsim (is_reply s) (list_difference (is_open s) [fd]);
  ip_ErrnoToStatus err := OtherCode err;
|}.

Definition ip_attrs (oif : Z) : list (Z * bytes) := [(RTA_DST, [10; 0; 0; 9]); (RTA_OIF, le_store 4 oif)].
Definition ip_answer (attrs : list (Z * bytes)) : nlmsg := mkNlmsg RTM_NEWROUTE 0 kSeq kKernelPortId (replicate 12 0 ++ encode_attrs attrs).
Definition ip_error (errno : Z) : nlmsg := mkNlmsg NLMSG_ERROR 0 kSeq kKernelPortId (le_store 4 (2 ^ 32 - errno) ++ replicate 16 0).
(** The verdict, the size of the cache and the sockets that are left open. *)
Definition ip_routes (m : nlmsg) (source : string) : option (StatusOr bool * Z * list Z) :=
  match SourceIpRoutesToPeer (T := HexText.text) 1 (mkIpsim (encode_msg m) []) ∅ (lit source) (lit "host:7") with
  | Ok (s, routes, r) => Some (r, TestOnly_RouteCacheSize routes, is_open s)
  | Fault _ => None
  end.
(** The route leaves through the interface of the source (written in hexadecimal), through
    another, the kernel has no route, and the source is no local address. *)
Example routes_own : ip_routes (ip_answer (ip_attrs 2)) "0a000001" = Some (inl true, 1, []).
Proof. vm_compute. reflexivity. Qed.
Example routes_other : ip_routes (ip_answer (ip_attrs 5)) "0a000001" = Some (inl false, 1, []).
Proof. vm_compute. reflexivity. Qed.
Example routes_none : ip_routes (ip_error 101) "0a000001" = Some (inr (OtherCode 101), 0, []).
Proof. vm_compute. reflexivity. Qed.
Example routes_foreign : ip_routes (ip_error 101) "0a000002" = Some (inr NotFound, 0, []).
Proof. vm_compute. reflexivity. Qed.

(** An output interface without its four bytes at the end of a full buffer: the v1 parser
    reads past the buffer, where the parser of [internal/routing] finds no interface. *)
Definition cut_reply : bytes :=
  encode_msg (ip_answer [(RTA_DST, replicate (Z.to_nat (sizeof_reply - NLMSG_LENGTH sizeof_rtmsg - 8)) 0); (RTA_OIF, [])]).
Example v1_parser_overreads : length cut_reply = Z.to_nat sizeof_reply ∧
  v1_msg_loop (S (length cut_reply)) cut_reply 0 (size_of cut_reply) = Fault BadPointer ∧ parse_reply cut_reply = Ok None.
Proof. split; [|split]; vm_compute; reflexivity. Qed.

Lemma v1_parser_agrees_witness :
  v1_msg_loop 1 (encode_reply [(ip_answer (ip_attrs 2), ip_attrs 2)] ++ [1; 2; 3]) 0 (size_of (encode_reply [(ip_answer (ip_attrs 2), ip_attrs 2)])) = Ok (inl 2).
Proof.
  destruct (v1_parser_agrees (ip_answer (ip_attrs 2)) (ip_attrs 2) [] [1; 2; 3] 1) as [E _].
  - split; [vm_compute; repeat split; congruence|]. intros _. exists (replicate 12 0). split; [reflexivity|]. split; [reflexivity|].
    repeat constructor; vm_compute; congruence.
  - reflexivity.
  - repeat constructor; vm_compute; congruence.
  - constructor.
  - lia.
  - rewrite E. vm_compute. reflexivity.
Defined.
