(* ===== verification/Transport.v ===== *)
(** The user's entry points, [TransportImpl::Post] and [TransportImpl::Poll] of
    [internal/transport_impl]: validation of a batch, sampling of traces, and the hand-over to
    the engine. *)

From Stdlib Require Import Ascii.
From stdpp Require Import base tactics numbers gmap fin_maps sets list.
From S2P Require Import Prelude Codec Types IpAddr Endpoint Header RequestTracker.
From S2P Require Import Trace Worker Engine.
Local Open Scope Z_scope.

(** * Data *)

(** [engine_] and the tracer of its helper. *)
Record TransportImpl := mkTransport { ti_engine : Engine; ti_tracer : TraceRecorder }.

(** The errors of [Post]: the texts of [InvalidArgumentError], and [AlreadyExistsError]. *)
Inductive post_error : Type :=
  | InvalidPeer | EmptyRequests | InvalidRequest (r : Request) | MixedOps | HandleExists.

(** * Operations *)

(** The loop over the requests: the set of operations, or the first invalid request. *)
Fixpoint collect_ops (requests : list Request) (ops : gset Z) : gset Z + Request :=
  match requests with
  | [] => inl ops
  | request :: rest =>
      if negb (Request_IsValid request) then inr request
      else collect_ops rest ({[ rq_op request ]} ∪ ops)
  end.

Section Post.
Context `{NetText}.

Definition Post (t : TransportImpl) (peer : str) (requests : list Request) (on_complete : option Z)
    (metadata : Metadata) (start_mono_us : Z) : res (TransportImpl * (Handle + post_error)) :=
  let '(tracer, trace_ctx) := MaybeStartTrace (ti_tracer t) in
  let t := mkTransport (ti_engine t) tracer in
  let endpoint := Endpoint_Create peer in
  if negb (HasNonzeroIpPort endpoint) then Ok (t, inr InvalidPeer)
  else if bool_decide (requests = []) then Ok (t, inr EmptyRequests)
  else match collect_ops requests ∅ with
  | inr request => Ok (t, inr (InvalidRequest request))
  | inl ops =>
      if (1 <? size ops)%nat then Ok (t, inr MixedOps)
      else
        let* '(e, h) := Enqueue (ti_engine t) endpoint
                          (mkItem requests on_complete metadata start_mono_us trace_ctx) in
        Ok (mkTransport e tracer, match h with Some h => inl h | None => inr HandleExists end)
  end.
End Post.

(** [None] is [NotFoundError]. *)
Definition Poll (t : TransportImpl) (handle : Handle) : TransportImpl * option Status :=
  let '(e, s) := QueryUpdate (ti_engine t) handle in (mkTransport e (ti_tracer t), s).

(** * Lemmas *)

Lemma collect_ops_spec reqs : ∀ ops,
  match collect_ops reqs ops with
  | inl s => forallb Request_IsValid reqs = true ∧ s = (list_to_set (rq_op <$> reqs) ∪ ops)
  | inr r => ∃ pre post, reqs = pre ++ r :: post ∧ forallb Request_IsValid pre = true ∧ Request_IsValid r = false
  end.
Proof.
  induction reqs as [|q reqs IH]; intros ops; cbn [collect_ops].
  - split; [done|]. cbn. by rewrite union_empty_l_L.
  - destruct (Request_IsValid q) eqn:E; cbn [negb].
    2: { by exists [], reqs. }
    specialize (IH ({[rq_op q]} ∪ ops)). destruct (collect_ops reqs _) as [s|r].
    + destruct IH as [Hv ->]. cbn [forallb]. rewrite E. split; [done|]. cbn. set_solver.
    + destruct IH as (pre & post & -> & Hp & Hr). exists (q :: pre), post. cbn [forallb]. by rewrite E.
Qed.

(** At most one operation: all requests agree with the first. *)
Lemma ops_single (q : Request) reqs :
  (1 <? size (list_to_set (rq_op <$> q :: reqs) ∪ ∅ : gset Z))%nat = false ↔
  Forall (λ r, rq_op r = rq_op q) (q :: reqs).
Proof.
  rewrite union_empty_r_L, Nat.ltb_ge, Forall_forall.
  set (X := list_to_set (rq_op <$> q :: reqs) : gset Z).
  assert (∀ r, r ∈ q :: reqs → rq_op r ∈ X) as Hin
    by (intros r Hr; apply elem_of_list_to_set; by apply list_elem_of_fmap_2).
  split.
  - intros Hs r Hr. apply (size_singleton_inv X); [|by apply Hin|apply Hin; by left].
    assert (size X ≠ 0%nat); [|lia]. intros H0%size_empty_inv. specialize (Hin q ltac:(left)). set_solver.
  - intros Hf. replace X with ({[ rq_op q ]} : gset Z); [by rewrite size_singleton|].
    apply set_eq. intros x. rewrite elem_of_singleton. split; [intros ->; apply Hin; by left|].
    intros (r & -> & Hr)%elem_of_list_to_set%list_elem_of_fmap. by apply Hf.
Qed.

(** The answer of a query depends on the two lookups only. *)
Lemma QueryUpdate_same e e' h :
  rk_trackers (en_out e') !! (Endpoint_default, h) = rk_trackers (en_out e) !! (Endpoint_default, h) →
  rk_trackers (en_in e') !! (Endpoint_default, h) = rk_trackers (en_in e) !! (Endpoint_default, h) →
  (QueryUpdate e' h).2 = (QueryUpdate e h).2.
Proof.
  intros Ho Hi. unfold QueryUpdate, Check_, Remove. rewrite Ho, Hi.
  by repeat (case_match || cbn [IsInProgress IsCompleted] in * ); simplify_eq.
Qed.

Lemma next_id_nonzero n : next_id n ≠ 0.
Proof. unfold next_id. destruct (Z.eqb_spec (u32 (n + 1)) 0) as [->|]; [by vm_compute|done]. Qed.

(** [Enqueue] of a valid item under a free handle. *)
Lemma Enqueue_fresh e ep q reqs cb md now ctx (h := next_id (en_next_handle e)) :
  HasNonzeroIpPort ep = true → forallb Request_IsValid (q :: reqs) = true →
  rk_trackers (en_out e) !! (Endpoint_default, h) = None →
  rk_trackers (en_in e) !! (Endpoint_default, h) = None →
  ∃ e', Enqueue e ep (mkItem (q :: reqs) cb md now ctx) = Ok (e', Some h) ∧
    en_posts e' = en_posts e ++ [mkPostEntry ep h (q :: reqs) [] md ctx] ∧
    QueryUpdate e' h = (e', Some kInProgress) ∧
    ∀ h', h' ≠ h →
      rk_trackers (en_out e') !! (Endpoint_default, h') = rk_trackers (en_out e) !! (Endpoint_default, h') ∧
      rk_trackers (en_in e') !! (Endpoint_default, h') = rk_trackers (en_in e) !! (Endpoint_default, h').
Proof.
  intros Hep Hv Ho Hi. unfold Enqueue. rewrite bind_dcheck by done.
  rewrite bind_dcheck by (unfold Item_IsValid; cbn [it_requests]; by rewrite Hv).
  unfold genHandle. fold h. cbn [it_requests head at_or]. rewrite bind_Ok.
  unfold Add_handle. cbn [it_start_mono_us it_on_complete it_trace_ctx it_metadata].
  destruct (is_outgoing q); cbn [set_next_handle en_out en_in]; rewrite ?Ho, ?Hi; cbn [negb];
    (eexists; split; [reflexivity|]; split; [done|]; split).
  - unfold QueryUpdate, Check_. cbn. by rewrite lookup_insert_eq.
  - intros h' Hne. cbn. rewrite lookup_insert_ne by congruence. done.
  - unfold QueryUpdate, Check_. cbn. by rewrite Ho, lookup_insert_eq.
  - intros h' Hne. cbn. rewrite lookup_insert_ne by congruence. done.
Qed.

(** * Properties *)

(** The handle the next post gets. *)
Definition next_handle (t : TransportImpl) : Handle := next_id (en_next_handle (ti_engine t)).

(** The handle is in neither tracker. *)
Definition handle_free (t : TransportImpl) (h : Handle) : Prop :=
  rk_trackers (en_out (ti_engine t)) !! (Endpoint_default, h) = None ∧
  rk_trackers (en_in (ti_engine t)) !! (Endpoint_default, h) = None.

(** A batch that [Post] takes. *)
Definition acceptable (ep : Endpoint) (reqs : list Request) : Prop :=
  HasNonzeroIpPort ep = true ∧
  match reqs with
  | [] => False
  | q :: _ => Forall (λ r, Request_IsValid r = true ∧ rq_op r = rq_op q) reqs
  end.

(** C12: [Post] never trips the engine's checks.  A batch is refused exactly when the peer
    cannot be parsed, the batch is empty, a request is invalid or the operations differ, and
    the engine is left as it was.  An accepted batch whose handle is not in use is queued last,
    with the peer, the requests and the metadata given; the handle is not zero, a poll of it
    answers in-progress, and every other handle is polled as before. *)
Theorem TransportImpl_Post_exact `{NetText} t peer reqs cb md now :
  handle_free t (next_handle t) →
  ∃ t' r, Post t peer reqs cb md now = Ok (t', r) ∧
    match r with
    | inr err => ¬ acceptable (Endpoint_Create peer) reqs ∧ ti_engine t' = ti_engine t
    | inl h => acceptable (Endpoint_Create peer) reqs ∧ h = next_handle t ∧ h ≠ kInvalidHandle ∧
        (∃ ctx, en_posts (ti_engine t') =
           en_posts (ti_engine t) ++ [mkPostEntry (Endpoint_Create peer) h reqs [] md ctx]) ∧
        Poll t' h = (t', Some kInProgress) ∧
        ∀ h', h' ≠ h → (Poll t' h').2 = (Poll t h').2
    end.
Proof.
  intros [Ho Hi]. unfold Post. destruct (MaybeStartTrace (ti_tracer t)) as [tracer ctx].
  unfold acceptable. cbn [ti_engine].
  destruct (HasNonzeroIpPort (Endpoint_Create peer)) eqn:Hep; cbn [negb].
  2: { do 2 eexists. split; [reflexivity|]. naive_solver. }
  destruct reqs as [|q reqs]; [do 2 eexists; split; [reflexivity|]; naive_solver|].
  rewrite bool_decide_eq_false_2 by done.
  pose proof (collect_ops_spec (q :: reqs) ∅) as Hops.
  destruct (collect_ops (q :: reqs) ∅) as [ops|r].
  2: { destruct Hops as (pre & post & Heq & _ & Hr). do 2 eexists. split; [reflexivity|]. split; [|done].
       intros [_ Hf]. rewrite Heq, Forall_app, Forall_cons in Hf. destruct Hf as (_ & [Hr' _] & _). congruence. }
  destruct Hops as [Hv ->].
  destruct (1 <? size _)%nat eqn:Hs.
  { do 2 eexists. split; [reflexivity|]. split; [|done]. intros [_ Hf].
    rewrite (proj2 (ops_single q reqs)) in Hs; [done|]. eapply Forall_impl; [exact Hf|]. by intros ? []. }
  apply ops_single in Hs.
  destruct (Enqueue_fresh (ti_engine t) (Endpoint_Create peer) q reqs cb md now ctx Hep Hv Ho Hi)
    as (e' & -> & Hposts & Hq & Hrest).
  rewrite bind_Ok. do 2 eexists. split; [reflexivity|]. cbn [ti_engine]. split; [|split; [done|split]].
  - split; [done|]. rewrite forallb_forall in Hv. rewrite Forall_forall in Hs. apply Forall_forall.
    intros r Hr. split; [by apply Hv, list_elem_of_In|by apply Hs].
  - apply next_id_nonzero.
  - split; [by eexists|]. split; [unfold Poll; cbn [ti_engine]; unfold next_handle; by rewrite Hq|].
    intros h' Hne. destruct (Hrest h' Hne) as [Ho' Hi']. unfold Poll. cbn [ti_engine].
    pose proof (QueryUpdate_same _ _ h' Ho' Hi') as Hs'.
    destruct (QueryUpdate e' h'), (QueryUpdate (ti_engine t) h'). exact Hs'.
Qed.

Definition transport_sample : TransportImpl :=
  mkTransport (Engine_new ep_sample 2 41 7 true None) (TraceRecorder_new 0).

Lemma TransportImpl_Post_exact_witness :
  handle_free transport_sample 42 ∧
  ∃ t' r, @Post HexText.text transport_sample (@Endpoint_ToString HexText.text ep_sample)
      [mkRequest kWrite 64 4096 10 0 Metadata_zero] None Metadata_zero 1000 = Ok (t', r) ∧
    r = inl 42 ∧ Poll t' 42 = (t', Some kInProgress).
Proof.
  assert (handle_free transport_sample 42) as Hf by (split; vm_compute; reflexivity).
  split; [exact Hf|].
  destruct (@TransportImpl_Post_exact HexText.text transport_sample (@Endpoint_ToString HexText.text ep_sample)
    [mkRequest kWrite 64 4096 10 0 Metadata_zero] None Metadata_zero 1000 Hf) as (t' & r & E & Hr).
  exists t', r. split; [exact E|]. destruct r as [h|err].
  - destruct Hr as (_ & -> & _ & _ & Hp & _). split; [reflexivity|exact Hp].
  - exfalso. apply (proj1 Hr). split; [vm_compute; reflexivity|]. by repeat constructor.
Defined.
