(* ===== verification/Boundary.v ===== *)
(** Behaviour at the edges of the protocol: what the receive path and the trackers do with
    messages that a correct sender does not send, or sends in an order the assumptions of
    [internal/assumptions.h] rule out.  Each example evaluates the model on a concrete
    input. *)

From stdpp Require Import base tactics list_numbers numbers gmap fin_maps list.
From S2P Require Import Prelude Codec Types IpAddr Endpoint Bitset ChunkTracker Header.
From S2P Require Import HeaderFlatbuf RequestTracker Channel MemChannel Transfer Worker Engine.
From S2P Require Import TransferStream PostDelivery.
Local Open Scope Z_scope.

Definition ck0 : clock := mkClock 0 0 0 0.
Definition evs0 : list event := [].

(** A receiver whose stream holds [s], whose channel has [peer], and which tracks [reqs]
    of a post [h] under the key [key]. *)
Definition receiver (s : bytes) (peer key : Endpoint) (initiator : bool) (h : Handle) (reqs : list RequestInfo)
    : res (world Duplex) :=
  let rk := RequestTracker_new true None true in
  let rk := if initiator then (Add_handle rk h 0 None false).1 else rk in
  let* '(rk, _, _) := Add_reqs rk h reqs 0 Metadata_zero key in
  Ok (mkWorld (mem_SetPeer true (set_in true dx_sample (mkMemPipe false [s])) peer)
        (RequestTracker_new false None false) rk ∅ evs0).

(** The flag a handler returns and the byte at [a] afterwards. *)
Definition outcome (a : Z) (r : res (world Duplex * bool)) : res (bool * option Z) :=
  let* '(w, ok) := r in Ok (ok, w_mem w !! a).

Definition recv1 (w : res (world Duplex)) (chunk : DataHeader) : res (world Duplex * bool) :=
  let* w := w in @recvDataStream _ (MemStreamChannel true) w chunk 0 ck0.

Definition read_req : RequestInfo :=
  mkRequestInfo 3 1 4096 2 kRead (mkRecipe RecipeType_kContiguous (replicate 32 0)) Metadata_zero.
Definition write_req : RequestInfo :=
  mkRequestInfo 3 2 4096 8 kWrite (mkRecipe RecipeType_kContiguous (replicate 32 0)) Metadata_zero.
Definition data_chunk (index offset len : Z) : DataHeader :=
  mkDataHeader (mkHeaderBase kData 7 len) 3 index offset 0 ChunkTraceWire_default.

(** The answer to a read is stored when its channel has carried no post of the responder,
    and is dropped, with the receive loop's failure flag, once it has: a [PostInfo] sets the
    channel's peer, and the initiator's own posts are tracked without one. *)
Example read_answer_needs_fresh_channel :
  outcome 4096 (recv1 (receiver [11; 12] Endpoint_default Endpoint_default true 7 [read_req]) (data_chunk 0 0 2))
    = Ok (true, Some 11) ∧
  outcome 4096 (recv1 (receiver [11; 12] ep_sample Endpoint_default true 7 [read_req]) (data_chunk 0 0 2))
    = Ok (false, None).
Proof. vm_compute. done. Qed.

(** The offset of a received chunk is not compared with the length of its request: the bytes
    land outside the announced buffer [4096, 4104), and are acknowledged. *)
Example chunk_offset_unchecked :
  outcome 5096 (recv1 (receiver [11; 12] ep_sample ep_sample false 7 [write_req]) (data_chunk 0 1000 2))
    = Ok (true, Some 11).
Proof. vm_compute. done. Qed.

(** Its index is only checked by [DCHECK]. *)
Example chunk_index_unchecked :
  outcome 4096 (recv1 (receiver [11; 12] ep_sample ep_sample false 7 [write_req]) (data_chunk 9 0 2))
    = Fault DCheckFailed.
Proof. vm_compute. done. Qed.

(** An acknowledgement of an unknown request aborts the process ([at] on the request map). *)
Example ack_of_unknown_request_aborts :
  (let* '(rk, _, _) := Add_reqs (Add_handle (RequestTracker_new false None false) 7 0 None false).1 7 [write_req]
                         0 Metadata_zero Endpoint_default in
   let* r := Update rk 7 99 0 0 Endpoint_default 0 in Ok ()) = Fault OutOfRange.
Proof. vm_compute. done. Qed.

(** Two requests of one post with the same identifier share a tracker but are counted twice:
    when every chunk is written the count of pending requests is still one, and no receive
    callback has been made, although [Check] reports success. *)
Definition one_chunk : RequestInfo :=
  mkRequestInfo 3 1 4096 2 kWrite (mkRecipe RecipeType_kContiguous (replicate 32 0)) Metadata_zero.
Example duplicate_ids_never_complete :
  (let* '(w, ok) := recv1 (receiver [11; 12] ep_sample ep_sample false 7 [one_chunk; one_chunk]) (data_chunk 0 0 2) in
   Ok (ok, Check_ (w_in w) 7 ep_sample, w_evs w)) = Ok (true, kSuccess, []) ∧
  (let* '(w, ok) := recv1 (receiver [11; 12] ep_sample ep_sample false 7 [one_chunk]) (data_chunk 0 0 2) in
   Ok (ok, Check_ (w_in w) 7 ep_sample, length (w_evs w))) = Ok (true, kSuccess, 1%nat).
Proof. vm_compute. done. Qed.

(** The responder files the write that answers a read under the initiator's handle: when it
    has a post of its own with that number, the read is never answered. *)
Example read_answer_dropped_on_handle_clash :
  (let* e := processRecvRead engine_sample ep_sample 42 [read_req] 5 in Ok (length (en_posts e)))
    = Ok (length (en_posts engine_sample)) ∧
  (let* e := processRecvRead engine_sample ep_sample 43 [read_req] 5 in Ok (length (en_posts e)))
    = Ok (S (length (en_posts engine_sample))).
Proof. vm_compute. done. Qed.
